(* ===== verification/_CoqProject ===== *)
-Q . S2P
Prelude.v
OrderbookModel.v
OrderbookArith.v
OrderbookRep.v
OrderbookInv.v
OrderbookMatching.v
OrderbookFunding.v
OrderbookOps.v
OrderbookSafety.v
OrderbookWitness.v
RefPrice.v
BTree.v
Policy.v
PolicyProofs.v
PolicyCache.v
PolicyProvider.v
PolicyCheck.v
L1State.v
DepositQueue.v
DepositQueueProofs.v
TempoState.v
TempoStateProofs.v
ZoneTip20.v
ZoneTip20Proofs.v
Ecies.v
EciesProofs.v
PrepareBlock.v
Withdrawals.v
WithdrawalsProofs.v
Settlement.v
SettlementProofs.v
Monitor.v
MonitorProofs.v
MonitorLiveness.v
MonitorWitness.v
RpcAuth.v
RpcAuthProofs.v
RpcLogs.v
RpcLogsProofs.v
RpcHistory.v
RpcHistoryBook.v
RpcHistoryProofs.v
RpcPaging.v
RpcWitness.v
RpcTypes.v
RpcPolicy.v
RpcDispatch.v
RpcAccessProofs.v
NodeRpc.v
NodeRpcProofs.v
NodeRpcWitness.v
Outbox.v
OutboxProofs.v
Payload.v
PayloadProofs.v
RpcExplorer.v
RpcExplorerProofs.v
RpcStatus.v
RpcStatusProofs.v
PayloadWitness.v
TeeProof.v
TeeProofProofs.v
Engine.v
EngineProofs.v
EngineWitness.v
Subscriber.v
SubscriberProofs.v
Markets.v
MarketsProofs.v
Activity.v
ActivityProofs.v
RpcWs.v
RpcWsProofs.v
RpcProxy.v
RpcProxyProofs.v
ZoneEvm.v
ZoneEvmProofs.v
PolicyTask.v
PolicyTaskProofs.v
NodeStart.v
