(* ===== verification/Prelude.v ===== *)
(** * Verification of the Tempo Zone node (omega-zone)

    A zone is a private chain anchored to Tempo (its L1).  The node follows
    L1, queues the deposits made there, answers policy questions from a cache
    of L1 state, and executes zone blocks with a set of native precompiles:
    a darkpool orderbook, a wrapped TIP-20 token, a read-only TIP-403 policy
    registry, the TempoState checkpoint and the cryptography of encrypted
    deposits.  Its sequencer submits the zone's batches to the portal on L1
    and pays out withdrawals there; its private RPC shows every account its own
    data only.  This library models that logic from the Rust sources under
    src/crates/ as executable definitions and proves what makes it correct.

    ** Parts, files and sources

    - Prelude.v (this file): the addresses of the zone's predeploys
      (primitives/src/constants.rs), the [result] type, the state-and-error
      monad [M],
      Rust integer operations at their width (checked and saturating), and the
      lemmas, tactics and hints on lists, maps and sums the other files share.

    - The orderbook, precompiles/src/orderbook.rs.
      OrderbookModel.v: the contract storage as the record
      [DarkpoolOrderbook], the token ledger behind the class [Tip20], the
      event log, and one definition per method ([deposit], [withdraw],
      [place], [cancel], [market_buy], [market_sell], [create_pair], the
      reads, the matching loops, the linked-list queues) up to the dispatcher
      [call].  OrderbookArith.v: the rounding of [quote_amount] and
      [bid_escrow].  OrderbookRep.v: the doubly-linked queues represent lists.
      OrderbookInv.v: the invariant.  OrderbookMatching.v: the four matching
      loops as one loop refining a structural recursion.  OrderbookFunding.v:
      the reserve walk.  OrderbookOps.v: every entry point preserves the
      invariant.  OrderbookSafety.v: the theorems over every reachable state.
      OrderbookWitness.v: a concrete ledger and run.

    - RefPrice.v: the price guardrail, precompiles/src/refprice.rs.

    - The policy state, l1/src/state/.  BTree.v: [BTreeMap<u64, _>] as a sorted
      list.  Policy.v: [HeightVersioned] (versioned.rs), [PolicySet]
      (tip403/policy_set.rs), event classification (tip403/events.rs), the
      cache (tip403/cache.rs).  PolicyProofs.v, PolicyCache.v: their theorems.
      PolicyProvider.v: the cache-first provider (tip403/provider.rs).
      PolicyTask.v, PolicyTaskProofs.v: the task that warms the cache and the
      requests drawn from the pool (tip403/task.rs, pool_prefetch.rs).
      PolicyCheck.v: the trait through which the precompiles see it
      (precompiles/src/policy.rs) as a class with its laws, discharged by the
      provider, and the registry proxy (precompiles/src/tip403_proxy/).

    - ZoneTip20.v, ZoneTip20Proofs.v: the token wrapper
      (precompiles/src/ztip20/), a client of [PolicyCheck].

    - L1State.v: the cache of L1 storage slots (l1/src/state/cache.rs), its
      provider (state/provider.rs) and what the subscriber writes into it
      (subscriber.rs, [apply_sequencer_events_to_cache]).

    - DepositQueue.v, DepositQueueProofs.v: deposits and their hash chain
      (l1/src/deposit.rs), portal events (event.rs), the queue (queue.rs).

    - TempoState.v, TempoStateProofs.v: the checkpoint precompile
      (precompiles/src/tempo_state.rs) with its two storage layouts.

    - Ecies.v, EciesProofs.v: encrypted deposits and authenticated
      withdrawals (precompiles/src/ecies.rs), the Chaum-Pedersen verifier
      (chaum_pedersen/mod.rs), the decryption of aes_gcm/mod.rs.

    - PrepareBlock.v: [L1BlockDeposits::prepare] (l1/src/block.rs), which uses
      the queue's blocks, the provider and the decryption.

    - Subscriber.v, SubscriberProofs.v: the L1 subscriber (l1/src/subscriber.rs):
      event extraction, receipt verification, backfill, the confirmation
      buffer of the live stream.

    - Outbox.v, OutboxProofs.v: the system contract that collects withdrawals
      (specs/ref-impls, ZoneOutbox.sol).  Payload.v, PayloadProofs.v: the
      payload builder (payload/src/builder.rs) around a record [Machine] of
      what reth executes for it.  Engine.v, EngineProofs.v: the loop that
      takes L1 blocks from the queue, prepares them and builds on them
      (node/src/engine.rs).  PayloadWitness.v, EngineWitness.v: a concrete
      machine and runs.

    - ZoneEvm.v, ZoneEvmProofs.v: the zone's hooks into the EVM (evm/src/): the
      guard on contract creation, the transaction-hash context, the block
      executor, the table of precompiles; the dispatchers of the AES-GCM and
      Chaum-Pedersen precompiles and the token factory (precompiles/src/); the
      chain ids (primitives/src/constants.rs).

    - NodeStart.v: the genesis anchored to an L1 block
      (node/src/genesis.rs), the chain id check (node/src/node.rs), and the
      reads of L1 at its latest height (l1/src/state/provider.rs).

    - The sequencer, sequencer/src/.  Withdrawals.v, WithdrawalsProofs.v: the
      withdrawal store and processor (withdrawals.rs) against the portal's
      queue (specs/ref-impls, ZonePortal.sol and WithdrawalQueueLib.sol).
      Settlement.v, SettlementProofs.v: rebuilding the store from L1 and zone
      logs (settlement.rs).  Monitor.v, MonitorProofs.v, MonitorLiveness.v,
      MonitorWitness.v: the zone monitor (monitor.rs) and the batch submitter
      (settlement.rs), against [submitBatch] of the portal.
      TeeProof.v, TeeProofProofs.v: the proof providers (proof.rs).

    - The private RPC, rpc/src/ and the handlers of node/src/rpc.rs.
      RpcAuth.v, RpcAuthProofs.v: authorization tokens (auth/),
      authentication (server.rs) and the client that refreshes its token
      (provider.rs).  RpcLogs.v, RpcLogsProofs.v: visibility,
      redaction and filter scoping (filter.rs, darkpool.rs).  RpcHistory.v,
      RpcHistoryBook.v, RpcHistoryProofs.v, RpcPaging.v, RpcWitness.v: orders,
      fills and transfers reconstructed from logs (darkpool.rs and the
      [zone_get_my_*] handlers), tied to the orderbook that emits them.
      RpcTypes.v, RpcPolicy.v, RpcDispatch.v, RpcAccessProofs.v: errors and
      method tiers (types.rs), the request policy (policy.rs), the handlers
      and the HTTP entry point (handlers.rs, server.rs) for any implementation
      of the trait.  NodeRpc.v, NodeRpcProofs.v, NodeRpcWitness.v: the node's
      implementation of the Ethereum methods and its filter owners.
      RpcExplorer.v, RpcExplorerProofs.v: the batch explorer.  RpcStatus.v,
      RpcStatusProofs.v: deposit and withdrawal status.  Markets.v,
      MarketsProofs.v: top of book, reference price and the
      midpoint history with its sampler (sequencer/src/midpoint.rs).
      Activity.v, ActivityProofs.v: the activity feed.  RpcWs.v,
      RpcWsProofs.v: WebSocket sessions (ws.rs) and the node's
      live streams.  RpcProxy.v, RpcProxyProofs.v: the
      proxy in front of another node (proxy.rs).

    ** How the parts meet

    The subscriber turns L1 blocks into entries of the deposit queue and into
    policy events.  The engine takes the front block, [prepare]s it (decrypting
    deposits and asking the policy provider), has the payload builder make a
    zone block of it, and confirms it; [advance_step] composes these, and its
    theorems go through the queue, the builder and TempoState.  The prepared
    header advances TempoState; the precompiles read L1 state at that
    checkpoint.  The executor runs the builder's transactions with the zone's
    hooks.  The prefetch task asks the provider for what a pool transaction will
    need, and the engine's [advance] moves the cache it fills.  The builder
    finalizes the outbox's withdrawals into batches,
    whose events the settlement code turns back into withdrawals.  The token wrapper and the registry proxy ask the provider
    through [PolicyCheck]; the orderbook moves tokens through [Tip20].  The
    monitor submits each finalized batch and puts its withdrawals into the
    store, from which the processor pays them out in the portal's order.  The
    private RPC authenticates a caller and answers from the logs the orderbook
    and the tokens emitted.

    ** What the theorems show

    - Orderbook: in every state reachable by calls of any senders, interleaved
      with token activity outside it, accounts are solvent (a reserve never
      exceeds its balance), the contract holds what it owes, books are sorted
      by price and time and uncrossed, every stored order is well formed and
      linked both ways, no loop runs out of fuel; placing,
      market orders, cancelling and withdrawing do exactly what an abstract
      price-time book does; balances and orders are private.
    - Price guard: exactly which prices are accepted.
    - Policies: versioned values and sets answer as an unpruned history;
      compaction changes no later answer; the cache fed with the registry's
      events, and the provider backed by L1, answer what L1 answers; from the
      node's start to the first advance, a prefetched transaction is answered
      from the cache.
    - Token wrapper: with a registry and a cache that is true of L1 at the
      block, no effect of the transfer family without the policy's
      authorization of both parties; private reads depend on nothing of the
      token's state; inbox and outbox roles are separated.
    - Deposit queue: the pending blocks form one contiguous L1 chain, the
      processed hash is the chain over exactly the deposits handed out, no
      block is handed out twice through any reorgs, and every outcome means
      what it says.
    - TempoState: both layouts and the migration implement one abstract
      checkpoint, which moves only along linked headers.
    - Encryption: round trips, completeness and special soundness of the
      Chaum-Pedersen proofs.
    - Preparation, with such a cache: order and number of deposits kept, exactly
      the forbidden recipients rejected, every proof attached is accepted on chain.
    - Engine and builder: in any run, with any reorganisation during a build,
      the L1 blocks the zone takes are one linked chain; a withdrawal is
      finalized at the latest one block after its request, and the hash of a
      batch is the one the sequencer rebuilds from the outbox's events.
    - Zone EVM: no block creates a contract, an executing transaction reads its
      own hash and nothing of it stays behind; token calls reach the wrapper;
      only the inbox enables tokens; mainnet and testnet chain ids are apart.
    - Start: an anchored genesis reads back as its anchor and differs from the
      template by the portal's address only; the latest sequencer is the one
      of the last change settled.
    - Subscriber: a live block is enqueued only once its child has arrived,
      with the events of receipts that match its header.
    - Withdrawals and settlement: whatever other parties do and whichever
      requests fail, a withdrawal is paid at most once and in order, and once
      L1 and the zone node answer from their logs, one resync, which rebuilds
      the batches, and one cycle empty the portal's queue;
      the portal's batches are always a prefix of the zone's, and an
      undisturbed poll catches up; the anchor chosen is one the portal accepts,
      if the safety margin is below half the window.
      A batch is submitted with a proof only of the configured backend, whose
      commitment binds every public input.
    - Private RPC: who is authenticated, that a signature binds every field of a
      token and that the client's token is always one the server accepts; a caller sees exactly the events it is a party to, and an
      answer is a function of these alone; single orders and the first page of
      the order history are the state of the book in every reachable state;
      following cursors through fills,
      transfers, batches, the activity feed and midpoints ends and yields every
      row once; the top of book is the first order of each side of a listed
      pair.  A WebSocket
      session serves nothing after its token expires, stays within its bounds
      and, while blocks are not reorganised, streams what polling would show;
      through the proxy an account learns
      nothing the redactions hide.  A public method is answered by the operation
      it names and no other method reaches the node, whoever asks; over any run
      the answers to an account do
      not depend on what others ask or own; a deposit status depends on the
      caller's deposits alone, and a withdrawal status is about the caller's
      own request and the L1 call that settled it.
    - Some theorems record behaviour that differs from what the sources
      document (a dust remainder blocks a book side, a later policy update
      answers for earlier blocks, a fetched slot is never refreshed, a
      replaced front block is skipped and stops the zone, a zero price bound,
      a monitor that never resyncs, an order page that repeats, history rows
      that carry block-wide positions, a legacy checkpoint the builder cannot
      read, policy updates of untracked tokens missed, portal logs taken
      unverified, a withdrawal status that stays pending, a fee token one
      transaction late, prefetched answers dropped after an advance).

    ** Conventions

    - An integer of the source is a [Z] kept in its width by the operation
      that produces it; addresses, hashes and words are [Z], bytes are [Z]
      below 256.  An unset storage slot reads as zero.
    - A call that fails drops its writes, as the EVM frame does; the policy
      cache, which is not EVM state, keeps them.
    - Code outside the sources is a parameter: Keccak-256 and SHA-256, the
      curve and AES-GCM (k256 and aes-gcm crates), ABI and RLP codecs, the
      vanilla TIP-20 token, the L1 RPC endpoint.  What is used of it is a
      hypothesis or a class of laws ([Tip20Laws], [CurveLaws], [CipherLaws],
      [Platform], [Truthful], [RethLaws], [OutboxLaws], [TempoLaws],
      [Explorable], injectivity of the book key), each satisfied by a concrete
      instance in an example module.  The nodes the RPC asks are records of
      their answers ([Chains], [L1Node]), the serializer is [Wire] or [Ser],
      the ABI decoders are [ExplorerAbi], [StatusAbi] and [TransferAbi]; the
      market methods read a [MarketNode], a session a [WsWire] and a [WsApi],
      the proxy a [ProxyWire]; the Tempo addresses are [TempoAddresses], the
      token storage of the factory [FactoryToken], and what revm does with a
      transaction an [Execution].
    - Fuel: the orderbook loops carry one unit more than the number of stored
      orders, or of pairs; each step consumes a stored order, and
      [OutOfFuel] is proved unreachable.  The retry loop of the L1 provider
      carries the number of attempts; the proofs say how many are enough.
      The nonce derivations of Ecies.v search a 32-bit counter, the range of
      the source's own loop.  The decimal printer of cursors has the 20 digits
      of a 64-bit number; [collect], which follows cursors, is given one step
      more than there are rows, and proved to end within it; [list_all] follows
      the explorer's cursors with one step more than there are batches,
      [midpoint_all] and [activity_all] theirs with one more than there are
      rows.  [patch_loop] has one turn more than there are bytes.
      [ranges_loop] has one step per block of its range, more than the ranges
      there can be.  [pool_loop] takes its fuel from the caller: the pool of
      transactions is external and may be endless, and a run out of fuel is an
      error, so a theorem about a frozen payload is about a loop that ended.
      The engine runs through the list of attempts it is given.  Retries and
      polls of the sequencer run as often as the source's own constants say.

    ** Not modelled

    Gas of the orderbook and of the token's storage, metrics and logging, task
    scheduling, sockets and connection set-up: they do not bear on what the
    theorems say.  The assembly of the node from the external framework
    (node/src/node.rs but for its start), the command line, the development L1
    (dev.rs, cli.rs), the trait methods of the EVM crate that delegate to the
    Tempo types, task spawning and key registration of the sequencer
    (sequencer/src/lib.rs, encryption_key.rs), and the developer tasks (xtask/)
    are calls into other crates with no state of their own.  The RLP of
    [ZoneHeader] (primitives/src/header.rs) is used by no other crate.  The
    resolutions of the policy task are atomic: their requests to L1 do not
    interleave with one another. *)

From stdpp Require Export gmap list sets sorting.
From Stdlib Require Export ZArith Lia.
#[export] Set Default Goal Selector "!".

Declare Scope zone_scope.
Delimit Scope zone_scope with zone.

(** ** Predeploys of a zone *)

Definition TEMPO_STATE_ADDRESS : Z := 0x1c00000000000000000000000000000000000000%Z.
Definition ZONE_INBOX_ADDRESS : Z := 0x1c00000000000000000000000000000000000001%Z.
Definition ZONE_OUTBOX_ADDRESS : Z := 0x1c00000000000000000000000000000000000002%Z.
Definition ZONE_CONFIG_ADDRESS : Z := 0x1c00000000000000000000000000000000000003%Z.

(** ** Results and the state-and-error monad

    [result E A] is Rust's [Result<A, E>].  [M S E A] is a fallible operation
    on a state [S]: on [Err] the state is dropped, which is what a reverted
    EVM call frame does with every storage write made inside it. *)

Inductive result (E A : Type) : Type :=
| Ok (a : A)
| Err (e : E).
Arguments Ok {E A} a.
Arguments Err {E A} e.

Definition M (S E A : Type) : Type := S -> result E (A * S).

#[export] Instance M_ret {S E} : MRet (M S E) := fun A a s => Ok (a, s).
#[export] Instance M_bind {S E} : MBind (M S E) := fun A B f m s =>
  match m s with
  | Ok (a, s') => f a s'
  | Err e => Err e
  end.

Definition throw {S E A} (e : E) : M S E A := fun _ => Err e.
Definition get {S E} : M S E S := fun s => Ok (s, s).
Definition modify {S E} (f : S -> S) : M S E unit := fun s => Ok (tt, f s).

(** [o.ok_or(e)?] *)
Definition lift_option {S E A} (e : E) (o : option A) : M S E A :=
  match o with
  | Some a => mret a
  | None => throw e
  end.

(** A guard of the form [if b { return Err(e) }]. *)
Definition reject_if {S E} (b : bool) (e : E) : M S E unit :=
  if b then throw e else mret tt.

Definition is_ok {E A} (r : result E A) : bool :=
  match r with Ok _ => true | Err _ => false end.

Section monad.
Context {S E : Type}.

Lemma bind_Ok {A B} (m : M S E A) (f : A -> M S E B) s b s2 :
  mbind f m s = Ok (b, s2) <->
  exists a s1, m s = Ok (a, s1) /\ f a s1 = Ok (b, s2).
Proof.
  unfold mbind, M_bind. split.
  - destruct (m s) as [[a s1]|e]; [eauto | done].
  - intros (a & s1 & -> & H). exact H.
Qed.

Lemma bind_eq_Ok {A B} (m : M S E A) (f : A -> M S E B) s a s1 :
  m s = Ok (a, s1) -> mbind f m s = f a s1.
Proof. unfold mbind, M_bind. by intros ->. Qed.

Lemma bind_eq_Err {A B} (m : M S E A) (f : A -> M S E B) s e :
  m s = Err e -> mbind f m s = Err e.
Proof. unfold mbind, M_bind. by intros ->. Qed.

Lemma ret_Ok {A} (a a' : A) (s s' : S) :
  (mret a : M S E A) s = Ok (a', s') <-> a = a' /\ s = s'.
Proof. unfold mret, M_ret. naive_solver. Qed.

Lemma reject_if_Ok b e (s s' : S) u :
  (reject_if b e : M S E unit) s = Ok (u, s') <-> b = false /\ s = s' /\ u = tt.
Proof.
  unfold reject_if. destruct b, u; unfold throw, mret, M_ret; naive_solver.
Qed.

Lemma lift_option_Ok {A} (e : E) (o : option A) (s s' : S) a :
  lift_option e o s = Ok (a, s') <-> o = Some a /\ s = s'.
Proof. destruct o; unfold lift_option, throw, mret, M_ret; naive_solver. Qed.
End monad.

(** [inv_M H] opens every bind, guard, return and lifted option of a
    successful run [H : m s = Ok _]. *)
Ltac inv_M_step H :=
  lazymatch type of H with
  | mbind _ _ _ = Ok _ =>
      let a := fresh "a" in let s := fresh "s" in let H1 := fresh "Hm" in
      apply bind_Ok in H as (a & s & H1 & H);
      cbv beta in H; inv_M_step H1; inv_M_step H
  | mret _ _ = Ok _ => apply ret_Ok in H as [? ?]; simplify_eq
  | reject_if _ _ _ = Ok _ => apply reject_if_Ok in H as (? & ? & ?); simplify_eq
  | lift_option _ _ _ = Ok _ => apply lift_option_Ok in H as [? ?]; simplify_eq
  | get _ = Ok _ => unfold get in H; simplify_eq
  | modify _ _ = Ok _ => unfold modify in H; simplify_eq
  | throw _ _ = Ok _ => discriminate H
  | _ => idtac
  end.
Ltac inv_M H := inv_M_step H.

Local Open Scope Z_scope.

(** ** Machine integers

    An unsigned [w]-bit integer is a [Z] in [[0, 2^w)]; the wrap-around and
    the checked and saturating operations of Rust are written out. *)

Definition U32_MAX : Z := 4294967295.
Definition U64_MAX : Z := 18446744073709551615.
Definition U128_MAX : Z := 340282366920938463463374607431768211455.
Definition U256_MAX : Z :=
  115792089237316195423570985008687907853269984665640564039457584007913129639935.
Definition ADDR_MAX : Z := 1461501637330902918203684832716283019655932542975.

Definition in_u64 (x : Z) : Prop := 0 <= x <= U64_MAX.
Definition in_u128 (x : Z) : Prop := 0 <= x <= U128_MAX.
Definition in_addr (x : Z) : Prop := 0 <= x <= ADDR_MAX.

Definition checked_add (max a b : Z) : option Z :=
  if a + b <=? max then Some (a + b) else None.
Definition checked_sub (a b : Z) : option Z :=
  if b <=? a then Some (a - b) else None.
Definition checked_mul (max a b : Z) : option Z :=
  if a * b <=? max then Some (a * b) else None.
Definition saturating_sub (a b : Z) : Z := Z.max 0 (a - b).
Definition saturating_add (max a b : Z) : Z := Z.min max (a + b).
Definition saturating_mul (max a b : Z) : Z := Z.min max (a * b).
Definition abs_diff (a b : Z) : Z := Z.abs (a - b).
(** [T::try_from(x)] for a [w]-bit target. *)
Definition try_from (max x : Z) : option Z := if x <=? max then Some x else None.
(** Unchecked [a + b] of a release build. *)
Definition wrapping_add (max a b : Z) : Z := (a + b) mod (max + 1).

Lemma checked_add_Some max a b c :
  checked_add max a b = Some c <-> c = a + b /\ a + b <= max.
Proof. unfold checked_add. destruct (Z.leb_spec (a + b) max); naive_solver lia. Qed.

Lemma checked_sub_Some a b c :
  checked_sub a b = Some c <-> c = a - b /\ b <= a.
Proof. unfold checked_sub. destruct (Z.leb_spec b a); naive_solver lia. Qed.

Lemma checked_mul_Some max a b c :
  checked_mul max a b = Some c <-> c = a * b /\ a * b <= max.
Proof. unfold checked_mul. destruct (Z.leb_spec (a * b) max); naive_solver lia. Qed.

Lemma try_from_Some max a c : try_from max a = Some c <-> c = a /\ a <= max.
Proof. unfold try_from. destruct (Z.leb_spec a max); naive_solver lia. Qed.

Lemma wrapping_add_small max a b :
  0 <= a + b <= max -> wrapping_add max a b = a + b.
Proof. intros ?. unfold wrapping_add. apply Z.mod_small. lia. Qed.

(** ** Big-endian bytes *)

Fixpoint be_bytes (n : nat) (x : Z) : list Z :=
  match n with
  | O => []
  | S n' => be_bytes n' (x / 256) ++ [x mod 256]
  end.

Lemma be_bytes_length n x : length (be_bytes n x) = n.
Proof.
  revert x; induction n as [|n IH]; intros x; cbn; [done|].
  rewrite length_app, IH. cbn. lia.
Qed.

Lemma be_bytes_inj n x y :
  0 <= x < 256 ^ Z.of_nat n -> 0 <= y < 256 ^ Z.of_nat n ->
  be_bytes n x = be_bytes n y -> x = y.
Proof.
  revert x y; induction n as [|n IH]; intros x y Hx Hy H.
  - cbn in Hx, Hy. lia.
  - cbn in H. apply app_inj_2 in H as [H1 [= H2]]; [|done].
    rewrite Nat2Z.inj_succ, Z.pow_succ_r in Hx, Hy by lia.
    apply IH in H1.
    + rewrite (Z.div_mod x 256), (Z.div_mod y 256) by lia. congruence.
    + split; [apply Z.div_pos; lia | apply Z.div_lt_upper_bound; lia].
    + split; [apply Z.div_pos; lia | apply Z.div_lt_upper_bound; lia].
Qed.

(** ** Sums over lists *)

Definition sumZ {A} (f : A -> Z) (l : list A) : Z := foldr (fun a s => f a + s) 0 l.

Lemma sumZ_cons {A} (f : A -> Z) a l : sumZ f (a :: l) = f a + sumZ f l.
Proof. done. Qed.

Lemma sumZ_app {A} (f : A -> Z) l1 l2 : sumZ f (l1 ++ l2) = sumZ f l1 + sumZ f l2.
Proof. induction l1 as [|a l1 IH]; [done|]. rewrite <- app_comm_cons, !sumZ_cons, IH. lia. Qed.

Lemma sumZ_nonneg {A} (f : A -> Z) l :
  (forall a, a ∈ l -> 0 <= f a) -> 0 <= sumZ f l.
Proof.
  induction l as [|a l IH]; intros H; [done|].
  rewrite sumZ_cons. pose proof (H a (list_elem_of_here a l)).
  assert (0 <= sumZ f l) by (apply IH; intros b Hb; apply H; by right). lia.
Qed.

Lemma sumZ_ext {A} (f g : A -> Z) l :
  (forall a, a ∈ l -> f a = g a) -> sumZ f l = sumZ g l.
Proof.
  induction l as [|a l IH]; intros H; [done|].
  rewrite !sumZ_cons, (H a (list_elem_of_here a l)), IH; [done|].
  intros b Hb. apply H. by right.
Qed.

(** Changing the summand at one element of a duplicate-free list. *)
Lemma sumZ_update {A} (f g : A -> Z) l x :
  NoDup l -> x ∈ l -> (forall a, a ∈ l -> a <> x -> f a = g a) ->
  sumZ g l = sumZ f l + (g x - f x).
Proof.
  induction l as [|a l IH]; intros Hnd Hx Heq; [by apply not_elem_of_nil in Hx|].
  apply NoDup_cons in Hnd as [Ha Hnd].
  rewrite !sumZ_cons. apply elem_of_cons in Hx as [<-|Hx].
  - rewrite (sumZ_ext f g l); [lia|].
    intros b Hb. apply Heq; [by right | by intros ->].
  - rewrite IH; [|done|done|intros b Hb; apply Heq; by right].
    rewrite (Heq a); [lia | by left | by intros ->].
Qed.

Lemma filter_none {A} (P : A -> Prop) `{forall x, Decision (P x)} (l : list A) :
  (forall x, x ∈ l -> ~ P x) -> filter P l = [].
Proof.
  induction l as [|x l IH]; intros Hn; [done|]. rewrite filter_cons.
  rewrite decide_False by (apply Hn; left). apply IH. intros y Hy. apply Hn. by right.
Qed.

Lemma filter_all {A} (P : A -> Prop) `{forall x, Decision (P x)} (l : list A) :
  (forall x, x ∈ l -> P x) -> filter P l = l.
Proof.
  induction l as [|x l IH]; intros Hn; [done|]. rewrite filter_cons.
  rewrite decide_True by (apply Hn; left). f_equal. apply IH. intros y Hy. apply Hn. by right.
Qed.

Lemma StronglySorted_remove {A} (R : A -> A -> Prop) l1 x l2 :
  StronglySorted R (l1 ++ x :: l2) -> StronglySorted R (l1 ++ l2).
Proof.
  induction l1 as [|y l1 IH]; cbn; intros Hs; inversion_clear Hs as [|? ? Hs' Hall]; [done|].
  constructor; [by apply IH|]. apply Forall_app in Hall as [H1 H2]. apply Forall_app.
  split; [done|]. by inversion_clear H2.
Qed.

(** ** Sums over finite maps of [Z]: the entries whose key satisfies [P] *)

Section msum.
Context {K : Type} `{Countable K} (P : K -> bool).

Definition msum (m : gmap K Z) : Z :=
  map_fold (fun k v acc => (if P k then v else 0) + acc) 0 m.

Lemma msum_empty : msum ∅ = 0.
Proof. apply map_fold_empty. Qed.

Lemma msum_insert_fresh m k v :
  m !! k = None -> msum (<[k:=v]> m) = (if P k then v else 0) + msum m.
Proof.
  intros Hk. unfold msum. rewrite map_fold_insert_L; [done| |done].
  intros. lia.
Qed.

Lemma msum_insert m k v :
  msum (<[k:=v]> m) = msum m + (if P k then v - default 0 (m !! k) else 0).
Proof.
  destruct (m !! k) as [v0|] eqn:Hk; cbn.
  - rewrite <- (insert_delete_id m k v0 Hk) at 2.
    rewrite <- (insert_delete_eq m k v).
    rewrite !msum_insert_fresh by apply lookup_delete_eq.
    destruct (P k); lia.
  - rewrite msum_insert_fresh by done. destruct (P k); lia.
Qed.
End msum.

(** ** Automation *)

Create HintDb zone.
#[export] Hint Resolve list_elem_of_here list_elem_of_further : zone.
Create Rewrite HintDb zone.
#[export] Hint Rewrite @sumZ_cons @sumZ_app : zone.

(** Decide every boolean comparison in sight and finish with [lia]. *)
Ltac bool_lia :=
  repeat match goal with
  | H : (_ <? _) = true |- _ => apply Z.ltb_lt in H
  | H : (_ <? _) = false |- _ => apply Z.ltb_ge in H
  | H : (_ <=? _) = true |- _ => apply Z.leb_le in H
  | H : (_ <=? _) = false |- _ => apply Z.leb_gt in H
  | H : (_ =? _) = true |- _ => apply Z.eqb_eq in H
  | H : (_ =? _) = false |- _ => apply Z.eqb_neq in H
  end; try lia.
