(* ===== verification/OrderbookModel.v ===== *)
(** * The darkpool orderbook precompile: data and operations

    Models src/crates/precompiles/src/orderbook.rs.  The contract storage is
    the record [DarkpoolOrderbook]; an unset storage slot reads as zero, so a
    missing map entry reads as the all-zero value.  [World] adds what the
    operations touch outside the contract: the TIP-20 token storage (abstract,
    accessed through the class [Tip20]) and the event log.  Every operation
    is a function in the state-and-error monad [Mo]; a failed operation drops
    its writes, as the EVM does when a precompile call reverts or errors.
    Gas is not modelled.  Loops carry fuel, one more than the number of
    stored orders; [OutOfFuel] is a fault of its own, shown unreachable. *)

From S2P Require Import Prelude.
#[local] Open Scope Z_scope.

(** ** Constants *)

Definition DARKPOOL_ADDRESS : Z := 0x0B00000000000000000000000000000000000001.
Definition MIN_ORDER_AMOUNT : Z := 100.
Definition PRICE_DECIMALS : Z := 6.
Definition PRICE_SCALE : Z := 1000000.
Definition TIME_IN_FORCE_GTC : Z := 0.
Definition TIME_IN_FORCE_IOC : Z := 1.
Definition TIME_IN_FORCE_FOK : Z := 2.
Definition ORDER_KIND_LIMIT : Z := 0.
Definition ORDER_KIND_MARKET : Z := 1.
Definition CANCEL_REASON_USER : Z := 0.
Definition CANCEL_REASON_IOC_REMAINDER : Z := 1.

(** ** Fixed-point arithmetic at 256-bit intermediate precision *)

Definition quote_amount (base_amount scaled_price : Z) : option Z :=
  product ← checked_mul U256_MAX base_amount scaled_price;
  let quote := product / PRICE_SCALE in
  quote ← try_from U128_MAX quote;
  if negb (quote =? 0) then Some quote else None.

Definition bid_escrow (base_amount scaled_price : Z) : option Z :=
  if (base_amount =? 0) || (scaled_price =? 0) then None
  else
    product ← checked_mul U256_MAX base_amount scaled_price;
    rounded ← checked_add U256_MAX product (PRICE_SCALE - 1);
    try_from U128_MAX (rounded / PRICE_SCALE).

(** ** Data *)

Inductive Event :=
| OrderSubmitted (orderId maker base quote amount priceLimit : Z) (isBid : bool)
    (orderKind timeInForce : Z)
| OrderPlaced (orderId maker base quote amount price : Z) (isBid : bool)
| OrderFilled (makerOrderId maker taker takerOrderId amountFilled price : Z)
| OrderCancelled (orderId maker cancelledAmount reason : Z).

Inductive sol_error :=
| OrderDoesNotExist | Unauthorized | InsufficientLiquidity | InvalidToken
| PairAlreadyExists | PriceOutOfRange | InsufficientBalance
| AmountBelowMinimum | CannotMatchSelf | InvalidTimeInForce.

(** Errors of the storage layer and of the TIP-20 token it calls. *)
Inductive tempo_error := under_overflow | tip20_error (code : Z).

(** How a call can end without success: a Solidity revert, a revert with no
    data, a storage error ([try_storage!]), or a loop out of fuel. *)
Inductive fault :=
| Revert (e : sol_error)
| RevertEmpty
| StorageError (e : tempo_error)
| OutOfFuel.

Record OrderView := mkOrderView {
  v_orderId : Z; v_maker : Z; v_base : Z; v_quote : Z; v_isBid : bool;
  v_price : Z; v_quantity : Z; v_orderKind : Z; v_timeInForce : Z
}.

Record Order := mkOrder {
  order_id : Z; maker : Z; o_book_key : Z; is_bid : bool;
  price : Z; quantity : Z; next : Z; prev : Z
}.

Record OrderBookMeta := mkMeta {
  base : Z; quote : Z; best_bid_id : Z; best_ask_id : Z
}.

Definition zero_order : Order := mkOrder 0 0 0 false 0 0 0 0.
Definition zero_meta : OrderBookMeta := mkMeta 0 0 0 0.

Record DarkpoolOrderbook := mkOrderbook {
  orders : gmap Z Order;
  books : gmap Z OrderBookMeta;
  balances : gmap (Z * Z) Z;
  next_order_id : Z;
  book_keys : list Z
}.

(** ** The TIP-20 token precompile the orderbook calls (code of another
    repository): the calls made, with the arguments in the order of the
    source. *)
Class Tip20 (L : Type) := {
  tip20_from_address : Z -> result tempo_error unit;
  tip20_quote_token : L -> Z -> result tempo_error Z;
  tip20_system_transfer_from : L -> Z -> Z -> Z -> Z -> result tempo_error L;
  tip20_transfer : L -> Z -> Z -> Z -> Z -> result tempo_error L
}.

Record World (L : Type) := mkWorld {
  ob : DarkpoolOrderbook;
  tip20 : L;
  logs : list Event
}.
Arguments mkWorld {L}. Arguments ob {L}. Arguments tip20 {L}. Arguments logs {L}.

(** Field updates. *)
Definition with_orders (f : gmap Z Order -> gmap Z Order) (s : DarkpoolOrderbook) :=
  mkOrderbook (f (orders s)) (books s) (balances s) (next_order_id s) (book_keys s).
Definition with_books (f : gmap Z OrderBookMeta -> gmap Z OrderBookMeta) (s : DarkpoolOrderbook) :=
  mkOrderbook (orders s) (f (books s)) (balances s) (next_order_id s) (book_keys s).
Definition with_balances (f : gmap (Z * Z) Z -> gmap (Z * Z) Z) (s : DarkpoolOrderbook) :=
  mkOrderbook (orders s) (books s) (f (balances s)) (next_order_id s) (book_keys s).
Definition with_next_order_id (n : Z) (s : DarkpoolOrderbook) :=
  mkOrderbook (orders s) (books s) (balances s) n (book_keys s).
Definition with_book_keys (f : list Z -> list Z) (s : DarkpoolOrderbook) :=
  mkOrderbook (orders s) (books s) (balances s) (next_order_id s) (f (book_keys s)).

Definition set_next (n : Z) (o : Order) : Order :=
  mkOrder (order_id o) (maker o) (o_book_key o) (is_bid o) (price o) (quantity o) n (prev o).
Definition set_prev (p : Z) (o : Order) : Order :=
  mkOrder (order_id o) (maker o) (o_book_key o) (is_bid o) (price o) (quantity o) (next o) p.
Definition set_quantity (q : Z) (o : Order) : Order :=
  mkOrder (order_id o) (maker o) (o_book_key o) (is_bid o) (price o) q (next o) (prev o).
Definition set_best (bid : bool) (id : Z) (m : OrderBookMeta) : OrderBookMeta :=
  if bid then mkMeta (base m) (quote m) id (best_ask_id m)
  else mkMeta (base m) (quote m) (best_bid_id m) id.

(** Storage reads with the zero default. *)
Definition order_at (s : DarkpoolOrderbook) (id : Z) : Order := default zero_order (orders s !! id).
Definition book_at (s : DarkpoolOrderbook) (k : Z) : OrderBookMeta := default zero_meta (books s !! k).
Definition balance_at (s : DarkpoolOrderbook) (u t : Z) : Z := default 0 (balances s !! (u, t)).

Section operations.
Context {L : Type} `{Tip20 L}.
Context (keccak256 : list Z -> Z).

Local Abbreviation Mo := (M (World L) fault).

Definition lift_tip20 {A} (r : result tempo_error A) : Mo A :=
  match r with
  | Ok a => mret a
  | Err e => throw (StorageError e)
  end.

Definition upd_ob (f : DarkpoolOrderbook -> DarkpoolOrderbook) : Mo unit :=
  modify (fun w => mkWorld (f (ob w)) (tip20 w) (logs w)).

Definition orders_read (id : Z) : Mo Order := w ← get; mret (order_at (ob w) id).
Definition orders_write (id : Z) (o : Order) : Mo unit := upd_ob (with_orders <[id:=o]>).
Definition orders_delete (id : Z) : Mo unit := upd_ob (with_orders (delete id)).
Definition books_read (k : Z) : Mo OrderBookMeta := w ← get; mret (book_at (ob w) k).
Definition books_write (k : Z) (m : OrderBookMeta) : Mo unit := upd_ob (with_books <[k:=m]>).
Definition emit_event (e : Event) : Mo unit :=
  modify (fun w => mkWorld (ob w) (tip20 w) (logs w ++ [e])).

(** Fuel for a walk over the stored orders. *)
Definition loop_fuel : Mo nat := w ← get; mret (S (size (orders (ob w)))).

Definition compute_book_key (base quote : Z) : Z :=
  keccak256 (be_bytes 20 base ++ be_bytes 20 quote).

(** ** Order ids *)

Definition next_order_id_val : Mo Z := w ← get; mret (Z.max (next_order_id (ob w)) 1).

Definition increment_next_order_id : Mo unit :=
  next ← next_order_id_val;
  upd_ob (with_next_order_id (wrapping_add U128_MAX next 1)).

(** ** Internal balances *)

Definition balance_of (user token : Z) : Mo Z := w ← get; mret (balance_at (ob w) user token).

Fixpoint accumulate_loop (fuel : nat) (order_id user : Z) (is_bid_side : bool)
    (reserved : Z) : Mo Z :=
  match fuel with
  | O => throw OutOfFuel
  | S fuel' =>
      if order_id =? 0 then mret reserved
      else
        order ← orders_read order_id;
        reserved ←
          (if maker order =? user then
             amount ← (if is_bid_side
                       then lift_option (StorageError under_overflow)
                              (bid_escrow (quantity order) (price order))
                       else mret (quantity order));
             lift_option (StorageError under_overflow) (checked_add U128_MAX reserved amount)
           else mret reserved);
        accumulate_loop fuel' (next order) user is_bid_side reserved
  end.

Definition accumulate_reserved_side (order_id user token : Z) (is_bid_side : bool)
    (reserved_token reserved : Z) : Mo Z :=
  if negb (token =? reserved_token) then mret reserved
  else fuel ← loop_fuel; accumulate_loop fuel order_id user is_bid_side reserved.

Fixpoint reserved_loop (keys : list Z) (user token reserved : Z) : Mo Z :=
  match keys with
  | [] => mret reserved
  | book_key :: keys' =>
      book ← books_read book_key;
      reserved ← accumulate_reserved_side (best_bid_id book) user token true (quote book) reserved;
      reserved ← accumulate_reserved_side (best_ask_id book) user token false (base book) reserved;
      reserved_loop keys' user token reserved
  end.

Definition reserved_balance_of (user token : Z) : Mo Z :=
  w ← get; reserved_loop (book_keys (ob w)) user token 0.

Definition available_balance_of (user token : Z) : Mo Z :=
  balance ← balance_of user token;
  reserved ← reserved_balance_of user token;
  mret (saturating_sub balance reserved).

Definition set_balance (user token amount : Z) : Mo unit :=
  upd_ob (with_balances <[(user, token):=amount]>).

Definition increment_balance (user token amount : Z) : Mo unit :=
  cur ← balance_of user token;
  sum ← lift_option (StorageError under_overflow) (checked_add U128_MAX cur amount);
  set_balance user token sum.

Definition decrement_balance (user token amount : Z) : Mo unit :=
  cur ← balance_of user token;
  diff ← lift_option (StorageError under_overflow) (checked_sub cur amount);
  set_balance user token diff.

(** [TIP20Token::from_address(token)?.system_transfer_from(self.address, user, amount)?] *)
Definition pull_from (user token amount : Z) : Mo unit :=
  lift_tip20 (tip20_from_address token);;
  w ← get;
  l ← lift_tip20 (tip20_system_transfer_from (tip20 w) token DARKPOOL_ADDRESS user amount);
  modify (fun w => mkWorld (ob w) l (logs w)).

Definition ensure_internal_balance (user token required : Z) : Mo unit :=
  available ← available_balance_of user token;
  if required <=? available then mret tt
  else
    let missing := required - available in
    pull_from user token missing;;
    increment_balance user token missing.

(** ** Pairs *)

Definition validate_pair_tokens (base quote : Z) : Mo unit :=
  w ← get;
  lift_tip20 (tip20_from_address base);;
  lift_tip20 (tip20_quote_token (tip20 w) base);;
  lift_tip20 (tip20_from_address quote);;
  lift_tip20 (tip20_quote_token (tip20 w) quote);;
  mret tt.

Definition push_book_key (k : Z) : Mo unit := upd_ob (with_book_keys (fun ks => ks ++ [k])).

Definition validate_or_create_pair (base quote : Z) : Mo Z :=
  validate_pair_tokens base quote;;
  let book_key := compute_book_key base quote in
  book ← books_read book_key;
  (if OrderbookModel.base book =? 0 then
     books_write book_key (mkMeta base quote 0 0);;
     push_book_key book_key
   else mret tt);;
  mret book_key.

Definition create_pair (base quote : Z) : Mo Z :=
  reject_if (base =? quote) (Revert InvalidToken);;
  validate_pair_tokens base quote;;
  let book_key := compute_book_key base quote in
  book ← books_read book_key;
  reject_if (negb (OrderbookModel.base book =? 0)) (Revert PairAlreadyExists);;
  books_write book_key (mkMeta base quote 0 0);;
  push_book_key book_key;;
  mret book_key.

Definition pair_count : Mo Z := w ← get; mret (Z.of_nat (length (book_keys (ob w)))).

Definition pair_at (index : Z) : Mo (Z * Z) :=
  index ← lift_option RevertEmpty (try_from U64_MAX index);
  w ← get;
  let len := Z.of_nat (length (book_keys (ob w))) in
  reject_if (len <=? index) RevertEmpty;;
  let book_key := nth (Z.to_nat index) (book_keys (ob w)) 0 in
  book ← books_read book_key;
  mret (base book, quote book).

Definition pair_exists (base quote : Z) : Mo bool :=
  let book_key := compute_book_key base quote in
  book ← books_read book_key;
  mret ((OrderbookModel.base book =? base) && (OrderbookModel.quote book =? quote)).

(** ** Deposit and withdraw *)

Definition deposit (sender token amount : Z) : Mo unit :=
  pull_from sender token amount;;
  increment_balance sender token amount.

Definition withdraw (sender token amount : Z) : Mo unit :=
  available ← available_balance_of sender token;
  reject_if (available <? amount) (Revert InsufficientBalance);;
  decrement_balance sender token amount;;
  lift_tip20 (tip20_from_address token);;
  w ← get;
  l ← lift_tip20 (tip20_transfer (tip20 w) token DARKPOOL_ADDRESS sender amount);
  modify (fun w => mkWorld (ob w) l (logs w)).

(** ** The doubly-linked price-time queues *)

Fixpoint insert_walk (fuel : nat) (order : Order) (current_id : Z) (current : Order)
    : Mo (bool * Z * Order) :=
  match fuel with
  | O => throw OutOfFuel
  | S fuel' =>
      let better_price := if is_bid order then price current <? price order
                          else price order <? price current in
      if better_price then mret (true, current_id, current)
      else if next current =? 0 then mret (false, current_id, current)
      else
        current' ← orders_read (next current);
        insert_walk fuel' order (next current) current'
  end.

(** The [found] branch: insert before the position the walk stopped at. *)
Definition insert_at (book_key : Z) (order : Order) (insert_before : Z) (current : Order) : Mo unit :=
  let order := set_next insert_before (set_prev (prev current) order) in
  orders_write (order_id order) order;;
  (if prev current =? 0 then
     meta ← books_read book_key;
     books_write book_key (set_best (is_bid order) (order_id order) meta)
   else
     p ← orders_read (prev current);
     orders_write (prev current) (set_next (order_id order) p));;
  cur ← orders_read insert_before;
  orders_write insert_before (set_prev (order_id order) cur).

(** The other branch: append after the last position. *)
Definition insert_last (order : Order) (insert_before : Z) : Mo unit :=
  let order := set_next 0 (set_prev insert_before order) in
  orders_write (order_id order) order;;
  last ← orders_read insert_before;
  orders_write insert_before (set_next (order_id order) last).

Definition insert_order (book_key : Z) (order : Order) : Mo unit :=
  book ← books_read book_key;
  let head_id := if is_bid order then best_bid_id book else best_ask_id book in
  if head_id =? 0 then
    orders_write (order_id order) order;;
    meta ← books_read book_key;
    books_write book_key (set_best (is_bid order) (order_id order) meta)
  else
    current ← orders_read head_id;
    fuel ← loop_fuel;
    '(found, insert_before, current) ← insert_walk fuel order head_id current;
    if found : bool then insert_at book_key order insert_before current
    else insert_last order insert_before.

(** The two relinking steps of [remove_order], then the deletion. *)
Definition unlink_prev (book_key : Z) (order : Order) : Mo unit :=
  if negb (prev order =? 0) then
    p ← orders_read (prev order);
    orders_write (prev order) (set_next (next order) p)
  else
    meta ← books_read book_key;
    books_write book_key (set_best (is_bid order) (next order) meta).

Definition unlink_next (order : Order) : Mo unit :=
  if negb (next order =? 0) then
    n ← orders_read (next order);
    orders_write (next order) (set_prev (prev order) n)
  else mret tt.

Definition remove_order (book_key : Z) (order : Order) : Mo unit :=
  unlink_prev book_key order;;
  unlink_next order;;
  orders_delete (order_id order).

(** [self.orders[id].quantity.write(q)]: one field of the stored struct. *)
Definition orders_write_quantity (id q : Z) : Mo unit :=
  o ← orders_read id; orders_write id (set_quantity q o).

(** ** Matching *)

Fixpoint cross_asks (fuel : nat) (book_key taker_order_id taker bid_price remaining
    base quote : Z) : Mo Z :=
  match fuel with
  | O => throw OutOfFuel
  | S fuel' =>
      if remaining =? 0 then mret remaining
      else
        book ← books_read book_key;
        if best_ask_id book =? 0 then mret remaining
        else
          ask ← orders_read (best_ask_id book);
          if bid_price <? price ask then mret remaining
          else
            let fill := Z.min remaining (quantity ask) in
            qa ← lift_option (StorageError under_overflow) (quote_amount fill (price ask));
            decrement_balance taker quote qa;;
            increment_balance taker base fill;;
            decrement_balance (maker ask) base fill;;
            increment_balance (maker ask) quote qa;;
            emit_event (OrderFilled (order_id ask) (maker ask) taker taker_order_id fill (price ask));;
            let remaining := remaining - fill in
            (if fill =? quantity ask then remove_order book_key ask
             else orders_write_quantity (best_ask_id book) (quantity ask - fill));;
            cross_asks fuel' book_key taker_order_id taker bid_price remaining base quote
  end.

Fixpoint cross_bids (fuel : nat) (book_key taker_order_id taker ask_price remaining
    base quote : Z) : Mo Z :=
  match fuel with
  | O => throw OutOfFuel
  | S fuel' =>
      if remaining =? 0 then mret remaining
      else
        book ← books_read book_key;
        if best_bid_id book =? 0 then mret remaining
        else
          bid ← orders_read (best_bid_id book);
          if price bid <? ask_price then mret remaining
          else
            let fill := Z.min remaining (quantity bid) in
            qa ← lift_option (StorageError under_overflow) (quote_amount fill (price bid));
            decrement_balance taker base fill;;
            increment_balance taker quote qa;;
            decrement_balance (maker bid) quote qa;;
            increment_balance (maker bid) base fill;;
            emit_event (OrderFilled (order_id bid) (maker bid) taker taker_order_id fill (price bid));;
            let remaining := remaining - fill in
            (if fill =? quantity bid then remove_order book_key bid
             else orders_write_quantity (best_bid_id book) (quantity bid - fill));;
            cross_bids fuel' book_key taker_order_id taker ask_price remaining base quote
  end.

(** The market loops return [(total_filled, total_quote)]. *)
Fixpoint fill_asks_loop (fuel : nat) (book_key taker_order_id taker base quote remaining
    max_price total_filled total_spent : Z) : Mo (Z * Z) :=
  match fuel with
  | O => throw OutOfFuel
  | S fuel' =>
      if remaining =? 0 then mret (total_filled, total_spent)
      else
        book ← books_read book_key;
        if best_ask_id book =? 0 then mret (total_filled, total_spent)
        else
          ask ← orders_read (best_ask_id book);
          if max_price <? price ask then mret (total_filled, total_spent)
          else
            let fill := Z.min remaining (quantity ask) in
            qa ← lift_option (StorageError under_overflow) (quote_amount fill (price ask));
            decrement_balance taker quote qa;;
            increment_balance taker base fill;;
            decrement_balance (maker ask) base fill;;
            increment_balance (maker ask) quote qa;;
            emit_event (OrderFilled (order_id ask) (maker ask) taker taker_order_id fill (price ask));;
            total_spent ← lift_option (StorageError under_overflow)
                            (checked_add U128_MAX total_spent qa);
            let remaining := remaining - fill in
            let total_filled := total_filled + fill in
            (if fill =? quantity ask then remove_order book_key ask
             else orders_write_quantity (best_ask_id book) (quantity ask - fill));;
            fill_asks_loop fuel' book_key taker_order_id taker base quote remaining
              max_price total_filled total_spent
  end.

Definition fill_asks_market (taker_order_id taker base quote remaining max_price : Z)
    : Mo (Z * Z) :=
  let book_key := compute_book_key base quote in
  fuel ← loop_fuel;
  fill_asks_loop fuel book_key taker_order_id taker base quote remaining max_price 0 0.

Fixpoint fill_bids_loop (fuel : nat) (book_key taker_order_id taker base quote remaining
    min_price total_filled total_received : Z) : Mo (Z * Z) :=
  match fuel with
  | O => throw OutOfFuel
  | S fuel' =>
      if remaining =? 0 then mret (total_filled, total_received)
      else
        book ← books_read book_key;
        if best_bid_id book =? 0 then mret (total_filled, total_received)
        else
          bid ← orders_read (best_bid_id book);
          if price bid <? min_price then mret (total_filled, total_received)
          else
            let fill := Z.min remaining (quantity bid) in
            qa ← lift_option (StorageError under_overflow) (quote_amount fill (price bid));
            decrement_balance taker base fill;;
            increment_balance taker quote qa;;
            decrement_balance (maker bid) quote qa;;
            increment_balance (maker bid) base fill;;
            emit_event (OrderFilled (order_id bid) (maker bid) taker taker_order_id fill (price bid));;
            total_received ← lift_option (StorageError under_overflow)
                               (checked_add U128_MAX total_received qa);
            let remaining := remaining - fill in
            let total_filled := total_filled + fill in
            (if fill =? quantity bid then remove_order book_key bid
             else orders_write_quantity (best_bid_id book) (quantity bid - fill));;
            fill_bids_loop fuel' book_key taker_order_id taker base quote remaining
              min_price total_filled total_received
  end.

Definition fill_bids_market (taker_order_id taker base quote remaining min_price : Z)
    : Mo (Z * Z) :=
  let book_key := compute_book_key base quote in
  fuel ← loop_fuel;
  fill_bids_loop fuel book_key taker_order_id taker base quote remaining min_price 0 0.

(** ** Order placement *)

Definition place (sender base quote amount price : Z) (is_bid : bool) (time_in_force : Z) : Mo Z :=
  reject_if (negb (time_in_force =? TIME_IN_FORCE_GTC)) (Revert InvalidTimeInForce);;
  reject_if (base =? quote) (Revert InvalidToken);;
  reject_if (amount <? MIN_ORDER_AMOUNT) (Revert AmountBelowMinimum);;
  reject_if ((price =? 0) || bool_decide (quote_amount amount price = None))
    (Revert PriceOutOfRange);;
  book_key ← validate_or_create_pair base quote;
  (if is_bid then
     escrow ← lift_option (Revert PriceOutOfRange) (bid_escrow amount price);
     ensure_internal_balance sender quote escrow
   else ensure_internal_balance sender base amount);;
  order_id ← next_order_id_val;
  increment_next_order_id;;
  emit_event (OrderSubmitted order_id sender base quote amount price is_bid
                ORDER_KIND_LIMIT time_in_force);;
  fuel ← loop_fuel;
  remaining ←
    (if is_bid then cross_asks fuel book_key order_id sender price amount base quote
     else cross_bids fuel book_key order_id sender price amount base quote);
  if 0 <? remaining then
    insert_order book_key (mkOrder order_id sender book_key is_bid price remaining 0 0);;
    emit_event (OrderPlaced order_id sender base quote remaining price is_bid);;
    mret order_id
  else mret order_id.

(** ** Cancellation *)

Definition cancel (sender order_id : Z) : Mo unit :=
  order ← orders_read order_id;
  reject_if ((maker order =? 0) || (quantity order =? 0)) (Revert OrderDoesNotExist);;
  reject_if (negb (maker order =? sender)) (Revert Unauthorized);;
  remove_order (o_book_key order) order;;
  emit_event (OrderCancelled order_id sender (quantity order) CANCEL_REASON_USER).

(** ** Market orders *)

Definition market_buy (sender base quote amount max_price time_in_force : Z) : Mo (Z * Z * Z) :=
  reject_if (negb (time_in_force =? TIME_IN_FORCE_IOC) && negb (time_in_force =? TIME_IN_FORCE_FOK))
    (Revert InvalidTimeInForce);;
  reject_if (base =? quote) (Revert InvalidToken);;
  reject_if (amount <? MIN_ORDER_AMOUNT) (Revert AmountBelowMinimum);;
  max_quote_in ← lift_option (Revert PriceOutOfRange) (bid_escrow amount max_price);
  _book_key ← validate_or_create_pair base quote;
  ensure_internal_balance sender quote max_quote_in;;
  order_id ← next_order_id_val;
  increment_next_order_id;;
  emit_event (OrderSubmitted order_id sender base quote amount max_price true
                ORDER_KIND_MARKET time_in_force);;
  '(filled, spent) ← fill_asks_market order_id sender base quote amount max_price;
  reject_if ((filled <? amount) && (time_in_force =? TIME_IN_FORCE_FOK))
    (Revert InsufficientLiquidity);;
  (if filled <? amount then
     emit_event (OrderCancelled order_id sender (amount - filled) CANCEL_REASON_IOC_REMAINDER)
   else mret tt);;
  mret (order_id, filled, spent).

Definition market_sell (sender base quote amount min_price time_in_force : Z) : Mo (Z * Z * Z) :=
  reject_if (negb (time_in_force =? TIME_IN_FORCE_IOC) && negb (time_in_force =? TIME_IN_FORCE_FOK))
    (Revert InvalidTimeInForce);;
  reject_if (base =? quote) (Revert InvalidToken);;
  reject_if (amount <? MIN_ORDER_AMOUNT) (Revert AmountBelowMinimum);;
  reject_if (negb (min_price =? 0) && bool_decide (quote_amount amount min_price = None))
    (Revert PriceOutOfRange);;
  _book_key ← validate_or_create_pair base quote;
  ensure_internal_balance sender base amount;;
  order_id ← next_order_id_val;
  increment_next_order_id;;
  emit_event (OrderSubmitted order_id sender base quote amount min_price false
                ORDER_KIND_MARKET time_in_force);;
  '(filled, received) ← fill_bids_market order_id sender base quote amount min_price;
  reject_if ((filled <? amount) && (time_in_force =? TIME_IN_FORCE_FOK))
    (Revert InsufficientLiquidity);;
  (if filled <? amount then
     emit_event (OrderCancelled order_id sender (amount - filled) CANCEL_REASON_IOC_REMAINDER)
   else mret tt);;
  mret (order_id, filled, received).

(** ** Views *)

Definition get_order (caller order_id : Z) : Mo OrderView :=
  order ← orders_read order_id;
  reject_if (maker order =? 0) (Revert OrderDoesNotExist);;
  reject_if (negb (maker order =? caller)) (Revert Unauthorized);;
  book ← books_read (o_book_key order);
  mret (mkOrderView (OrderbookModel.order_id order) (maker order) (base book) (quote book)
          (is_bid order) (price order) (quantity order) ORDER_KIND_LIMIT TIME_IN_FORCE_GTC).

Definition best_bid (base quote : Z) : Mo (Z * Z) :=
  book ← books_read (compute_book_key base quote);
  if best_bid_id book =? 0 then mret (0, 0)
  else order ← orders_read (best_bid_id book); mret (price order, quantity order).

Definition best_ask (base quote : Z) : Mo (Z * Z) :=
  book ← books_read (compute_book_key base quote);
  if best_ask_id book =? 0 then mret (0, 0)
  else order ← orders_read (best_ask_id book); mret (price order, quantity order).

(** ** Dispatch *)

Inductive Call :=
| placeCall (base quote amount price : Z) (isBid : bool) (timeInForce : Z)
| cancelCall (orderId : Z)
| getOrderCall (orderId : Z)
| depositCall (token amount : Z)
| withdrawCall (token amount : Z)
| balanceOfCall (user token : Z)
| availableBalanceOfCall (user token : Z)
| pairKeyCall (base quote : Z)
| createPairCall (base quote : Z)
| pairCountCall
| pairAtCall (index : Z)
| pairExistsCall (base quote : Z)
| bestBidCall (base quote : Z)
| bestAskCall (base quote : Z)
| MIN_ORDER_AMOUNTCall
| marketBuyCall (base quote amount maxPrice timeInForce : Z)
| marketSellCall (base quote amount minPrice timeInForce : Z).

(** What a successful call returns, before ABI encoding. *)
Inductive Output :=
| OutNone
| OutWord (x : Z)
| OutPair (x y : Z)
| OutTriple (x y z : Z)
| OutBool (b : bool)
| OutView (v : OrderView).

(** [decode] stands for the selector match and [abi_decode] of the calldata:
    [None] is a short input, an unknown selector or undecodable arguments. *)
Definition call (decode : list Z -> option Call) (calldata : list Z) (msg_sender : Z) : Mo Output :=
  match decode calldata with
  | None => throw RevertEmpty
  | Some c =>
      match c with
      | placeCall base quote amount price isBid tif =>
          id ← place msg_sender base quote amount price isBid tif; mret (OutWord id)
      | cancelCall id => cancel msg_sender id;; mret OutNone
      | getOrderCall id => v ← get_order msg_sender id; mret (OutView v)
      | depositCall token amount => deposit msg_sender token amount;; mret OutNone
      | withdrawCall token amount => withdraw msg_sender token amount;; mret OutNone
      | balanceOfCall user token =>
          reject_if (negb (user =? msg_sender)) (Revert Unauthorized);;
          bal ← balance_of user token; mret (OutWord bal)
      | availableBalanceOfCall user token =>
          reject_if (negb (user =? msg_sender)) (Revert Unauthorized);;
          bal ← available_balance_of user token; mret (OutWord bal)
      | pairKeyCall base quote => mret (OutWord (compute_book_key base quote))
      | createPairCall base quote => k ← create_pair base quote; mret (OutWord k)
      | pairCountCall => n ← pair_count; mret (OutWord n)
      | pairAtCall index => '(b, q) ← pair_at index; mret (OutPair b q)
      | pairExistsCall base quote => b ← pair_exists base quote; mret (OutBool b)
      | bestBidCall base quote => '(p, q) ← best_bid base quote; mret (OutPair p q)
      | bestAskCall base quote => '(p, q) ← best_ask base quote; mret (OutPair p q)
      | MIN_ORDER_AMOUNTCall => mret (OutWord MIN_ORDER_AMOUNT)
      | marketBuyCall base quote amount maxPrice tif =>
          '(i, f, s) ← market_buy msg_sender base quote amount maxPrice tif; mret (OutTriple i f s)
      | marketSellCall base quote amount minPrice tif =>
          '(i, f, r) ← market_sell msg_sender base quote amount minPrice tif; mret (OutTriple i f r)
      end
  end.
End operations.
