(* ===== verification/OrderbookArith.v ===== *)
(** * Fixed-point arithmetic of the orderbook

    [quote_amount] rounds down and [bid_escrow] rounds up.  The lemmas give
    both functions in closed form on 128-bit inputs and show that a bid's
    escrow pays for every way of filling it, which is the arithmetic core of
    the solvency invariant. *)

From S2P Require Import Prelude.
From S2P Require Import OrderbookModel.
#[local] Open Scope Z_scope.

(** Closed forms. *)
Definition floor_quote (b p : Z) : Z := (b * p) / PRICE_SCALE.
Definition ceil_quote (b p : Z) : Z := (b * p + (PRICE_SCALE - 1)) / PRICE_SCALE.

Lemma u128_product_fits b p :
  in_u128 b -> in_u128 p -> 0 <= b * p /\ b * p + (PRICE_SCALE - 1) <= U256_MAX.
Proof.
  unfold in_u128, U128_MAX, U256_MAX, PRICE_SCALE. intros Hb Hp.
  split; [nia|].
  enough (b * p <= 340282366920938463463374607431768211455
                   * 340282366920938463463374607431768211455) by lia.
  apply Z.mul_le_mono_nonneg; lia.
Qed.

Lemma quote_amount_Some b p q :
  in_u128 b -> in_u128 p ->
  quote_amount b p = Some q <-> q = floor_quote b p /\ 0 < q <= U128_MAX.
Proof.
  intros Hb Hp. destruct (u128_product_fits b p Hb Hp) as [H0 H1].
  unfold quote_amount, floor_quote, checked_mul, try_from.
  rewrite (proj2 (Z.leb_le (b * p) U256_MAX)) by (unfold PRICE_SCALE in *; lia).
  cbn. assert (0 <= b * p / PRICE_SCALE) by (apply Z.div_pos; [lia | done]).
  destruct (Z.leb_spec (b * p / PRICE_SCALE) U128_MAX); cbn;
    [destruct (Z.eqb_spec (b * p / PRICE_SCALE) 0); cbn|];
    split; intros E; naive_solver lia.
Qed.

Lemma bid_escrow_Some b p e :
  in_u128 b -> in_u128 p ->
  bid_escrow b p = Some e <-> 0 < b /\ 0 < p /\ e = ceil_quote b p /\ e <= U128_MAX.
Proof.
  intros Hb Hp. destruct (u128_product_fits b p Hb Hp) as [H0 H1].
  unfold bid_escrow, ceil_quote, checked_mul, checked_add, try_from.
  unfold in_u128 in *.
  destruct (Z.eqb_spec b 0); cbn; [naive_solver lia|].
  destruct (Z.eqb_spec p 0); cbn; [naive_solver lia|].
  rewrite (proj2 (Z.leb_le (b * p) U256_MAX)) by (unfold PRICE_SCALE in *; lia).
  cbn -[PRICE_SCALE Z.sub].
  rewrite (proj2 (Z.leb_le (b * p + (PRICE_SCALE - 1)) U256_MAX)) by lia.
  cbn -[PRICE_SCALE Z.sub].
  destruct (Z.leb_spec ((b * p + (PRICE_SCALE - 1)) / PRICE_SCALE) U128_MAX);
    split; intros E; naive_solver lia.
Qed.

Lemma ceil_quote_bounds b p :
  b * p <= PRICE_SCALE * ceil_quote b p < b * p + PRICE_SCALE.
Proof.
  unfold ceil_quote, PRICE_SCALE.
  pose proof (Z.div_mod (b * p + (1000000 - 1)) 1000000 ltac:(lia)).
  pose proof (Z.mod_pos_bound (b * p + (1000000 - 1)) 1000000 ltac:(lia)). lia.
Qed.

Lemma floor_quote_bounds b p :
  PRICE_SCALE * floor_quote b p <= b * p < PRICE_SCALE * floor_quote b p + PRICE_SCALE.
Proof.
  unfold floor_quote, PRICE_SCALE.
  pose proof (Z.div_mod (b * p) 1000000 ltac:(lia)).
  pose proof (Z.mod_pos_bound (b * p) 1000000 ltac:(lia)). lia.
Qed.

Lemma ceil_quote_0 p : ceil_quote 0 p = 0.
Proof. unfold ceil_quote. by rewrite Z.mul_0_l. Qed.

Lemma ceil_quote_nonneg b p : 0 <= b -> 0 <= p -> 0 <= ceil_quote b p.
Proof.
  intros. pose proof (ceil_quote_bounds b p). unfold PRICE_SCALE in *. nia.
Qed.

Lemma floor_quote_nonneg b p : 0 <= b -> 0 <= p -> 0 <= floor_quote b p.
Proof. intros. unfold floor_quote. apply Z.div_pos; [nia | done]. Qed.

(** A fill of [f] at a price no worse than the limit [p] costs at most what
    the escrow for [q] releases when it shrinks to the escrow for [q - f]. *)
Lemma ceil_quote_split f q p' p :
  0 <= f <= q -> 0 <= p' <= p ->
  floor_quote f p' + ceil_quote (q - f) p <= ceil_quote q p.
Proof.
  intros Hf Hp.
  pose proof (floor_quote_bounds f p') as [Ha _].
  pose proof (ceil_quote_bounds (q - f) p) as [_ Hb].
  pose proof (ceil_quote_bounds q p) as [Hc _].
  unfold PRICE_SCALE in *. nia.
Qed.

Lemma ceil_quote_mono q q' p : 0 <= q' <= q -> 0 <= p -> ceil_quote q' p <= ceil_quote q p.
Proof.
  intros Hq Hp. pose proof (ceil_quote_split (q - q') q p p ltac:(lia) ltac:(lia)) as H.
  pose proof (floor_quote_nonneg (q - q') p ltac:(lia) Hp).
  replace (q - (q - q')) with q' in H by lia. lia.
Qed.

(** Total base quantity and total quote paid of a list of fills. *)
Definition fills_base (fills : list (Z * Z)) : Z := sumZ fst fills.
Definition fills_quote (fills : list (Z * Z)) : Z := sumZ (fun '(f, p) => floor_quote f p) fills.

Lemma fills_covered fills q limit :
  0 <= limit ->
  Forall (fun '(f, p) => 0 <= f /\ 0 <= p <= limit) fills ->
  fills_base fills <= q ->
  fills_quote fills + ceil_quote (q - fills_base fills) limit <= ceil_quote q limit.
Proof.
  intros Hl Hall. revert q.
  induction Hall as [|[f p] fills [Hf Hp] Hall IH]; intros q Hq;
    unfold fills_base, fills_quote in *; rewrite ?sumZ_cons in *.
  - cbn [sumZ foldr]. rewrite Z.sub_0_r. lia.
  - cbn [fst] in *. assert (0 <= sumZ fst fills).
    { apply sumZ_nonneg. intros [f' p'] Hin.
      rewrite Forall_forall in Hall. apply Hall in Hin. cbn [fst]. lia. }
    specialize (IH (q - f) ltac:(lia)).
    pose proof (ceil_quote_split f q p limit ltac:(lia) ltac:(lia)).
    replace (q - (f + sumZ fst fills)) with (q - f - sumZ fst fills) by lia. lia.
Qed.
