(* ===== verification/OrderbookRep.v ===== *)
(** * The linked price-time queues represent sorted lists

    The stored queues are doubly-linked lists over order ids.  [seg] says
    that a chain of stored orders spells out an abstract list of entries, and
    [Rep] that every book side of the contract does.  The section proves that
    [insert_order] and [remove_order] refine insertion into and deletion from
    the abstract list, leaving balances, ids, tokens, logs untouched. *)

From S2P Require Import Prelude.
From S2P Require Import OrderbookModel.
#[local] Open Scope Z_scope.

(** ** Abstract queues *)

Record Entry := mkEntry { e_id : Z; e_maker : Z; e_price : Z; e_qty : Z }.

(** The stored order of an entry, given its neighbours. *)
Definition concr (k : Z) (b : bool) (e : Entry) (p n : Z) : Order :=
  mkOrder (e_id e) (e_maker e) k b (e_price e) (e_qty e) n p.

Definition hd_id (n : Z) (l : list Entry) : Z :=
  match l with [] => n | e :: _ => e_id e end.
Fixpoint last_id (p : Z) (l : list Entry) : Z :=
  match l with [] => p | e :: l' => last_id (e_id e) l' end.

Fixpoint seg (os : gmap Z Order) (k : Z) (b : bool) (p : Z) (l : list Entry) (n : Z) : Prop :=
  match l with
  | [] => True
  | e :: l' => os !! e_id e = Some (concr k b e p (hd_id n l')) /\ seg os k b (e_id e) l' n
  end.

Abbreviation ids l := (e_id <$> l).

(** Is the new entry [e] strictly better priced than [c]? *)
Definition better (b : bool) (e c : Entry) : bool :=
  if b then e_price c <? e_price e else e_price e <? e_price c.

(** Price-time insertion: behind every entry at least as well priced. *)
Fixpoint ins (b : bool) (e : Entry) (l : list Entry) : list Entry :=
  match l with
  | [] => [e]
  | c :: l' => if better b e c then e :: c :: l' else c :: ins b e l'
  end.

Section seg.
Context (k : Z) (b : bool).
Implicit Types (os : gmap Z Order) (l : list Entry).

Lemma last_id_snoc p l e : last_id p (l ++ [e]) = e_id e.
Proof. revert p; induction l as [|c l IH]; intros p; cbn; [done | apply IH]. Qed.

Lemma seg_app os p l1 l2 n :
  seg os k b p (l1 ++ l2) n <->
  seg os k b p l1 (hd_id n l2) /\ seg os k b (last_id p l1) l2 n.
Proof.
  revert p; induction l1 as [|e l1 IH]; intros p; cbn; [naive_solver|].
  rewrite IH. destruct l1; cbn; tauto.
Qed.

Lemma seg_frame os os' p l n :
  (forall i, i ∈ ids l -> os' !! i = os !! i) -> seg os k b p l n -> seg os' k b p l n.
Proof.
  revert p; induction l as [|e l IH]; intros p Hf; cbn; [done|].
  intros [H1 H2]. split.
  - rewrite Hf; [done | by left].
  - apply IH; [|done]. intros i Hi. apply Hf. by right.
Qed.

Lemma seg_insert_ne os p l n i o :
  i ∉ ids l -> seg os k b p l n -> seg (<[i:=o]> os) k b p l n.
Proof.
  intros Hi. apply seg_frame. intros j Hj. apply lookup_insert_ne. by intros ->.
Qed.

Lemma seg_delete_ne os p l n i :
  i ∉ ids l -> seg os k b p l n -> seg (delete i os) k b p l n.
Proof.
  intros Hi. apply seg_frame. intros j Hj. apply lookup_delete_ne. by intros ->.
Qed.

Lemma seg_lookup os p l n e :
  seg os k b p l n -> e ∈ l -> exists p' n', os !! e_id e = Some (concr k b e p' n').
Proof.
  revert p; induction l as [|c l IH]; intros p Hs He; [by apply not_elem_of_nil in He|].
  destruct Hs as [H1 H2]. apply elem_of_cons in He as [->|He]; eauto.
Qed.

(** Redirecting the [next] link of the last order of a segment. *)
Lemma seg_relink_last os p l d n n' :
  NoDup (ids (l ++ [d])) -> seg os k b p (l ++ [d]) n ->
  seg (<[e_id d := concr k b d (last_id p l) n']> os) k b p (l ++ [d]) n'.
Proof.
  rewrite fmap_app, NoDup_app. intros (_ & Hd & _) [H1 H2]%seg_app.
  apply seg_app. cbn in *. split.
  - apply seg_insert_ne; [|done]. intros Hin. apply (Hd _ Hin). by left.
  - by rewrite lookup_insert_eq.
Qed.

(** Redirecting the [prev] link of the first order of a segment. *)
Lemma seg_relink_first os p p' c l n :
  NoDup (ids (c :: l)) -> seg os k b p (c :: l) n ->
  seg (<[e_id c := concr k b c p' (hd_id n l)]> os) k b p' (c :: l) n.
Proof.
  cbn. rewrite NoDup_cons. intros [Hc _] [H1 H2]. split.
  - by rewrite lookup_insert_eq.
  - by apply seg_insert_ne.
Qed.

Lemma seg_length os p l n : NoDup (ids l) -> seg os k b p l n -> (length l <= size os)%nat.
Proof.
  intros Hnd Hs. rewrite <- (length_fmap e_id l), <- size_dom.
  rewrite <- (size_list_to_set (C := gset Z) (ids l) Hnd).
  apply subseteq_size. intros i Hi%elem_of_list_to_set.
  apply list_elem_of_fmap in Hi as (e & -> & He).
  destruct (seg_lookup _ _ _ _ _ Hs He) as (? & ? & E). apply elem_of_dom. eauto.
Qed.

Lemma ins_Permutation e l : ins b e l ≡ₚ e :: l.
Proof.
  induction l as [|c l IH]; cbn; [done|]. destruct (better b e c); [done|].
  rewrite IH. apply Permutation_swap.
Qed.

Lemma elem_of_ins e l x : x ∈ ins b e l <-> x = e \/ x ∈ l.
Proof. rewrite ins_Permutation. apply elem_of_cons. Qed.

Lemma ids_ins e l : ids (ins b e l) ≡ₚ e_id e :: ids l.
Proof. by rewrite ins_Permutation. Qed.
End seg.

(** ** The whole contract *)

Abbreviation Queues := (Z -> bool -> list Entry).

Definition upd_queue (B : Queues) (k : Z) (b : bool) (l : list Entry) : Queues :=
  fun k' b' => if bool_decide (k = k' /\ b = b') then l else B k' b'.

Lemma upd_queue_eq B k b l : upd_queue B k b l k b = l.
Proof. unfold upd_queue. by rewrite bool_decide_eq_true_2. Qed.

Lemma upd_queue_ne B k b l k' b' :
  ~ (k = k' /\ b = b') -> upd_queue B k b l k' b' = B k' b'.
Proof. intros. unfold upd_queue. by rewrite bool_decide_eq_false_2. Qed.

Definition best (b : bool) (m : OrderBookMeta) : Z :=
  if b then best_bid_id m else best_ask_id m.

Record Rep (s : DarkpoolOrderbook) (B : Queues) : Prop := mkRep {
  rep_seg : forall k b, seg (orders s) k b 0 (B k b) 0;
  rep_head : forall k b, best b (book_at s k) = hd_id 0 (B k b);
  rep_nodup : forall k b, NoDup (ids (B k b));
  rep_pos : forall k b e, e ∈ B k b -> 0 < e_id e;
  rep_cover : forall i o, orders s !! i = Some o ->
    exists e, e ∈ B (o_book_key o) (is_bid o) /\ e_id e = i
}.

(** An id occurs in one queue only. *)
Lemma rep_disjoint s B k b k' b' i :
  Rep s B -> i ∈ ids (B k b) -> i ∈ ids (B k' b') -> k = k' /\ b = b'.
Proof.
  intros R (e & -> & He)%list_elem_of_fmap (e' & Hi & He')%list_elem_of_fmap.
  destruct (seg_lookup _ _ _ _ _ _ _ (rep_seg _ _ R k b) He) as (p & n & E).
  destruct (seg_lookup _ _ _ _ _ _ _ (rep_seg _ _ R k' b') He') as (p' & n' & E').
  rewrite Hi in E. rewrite E in E'. by simplify_eq.
Qed.

(** What inserting and removing orders never touches. *)
Record Frame {L} (w w' : World L) : Prop := mkFrame {
  fr_balances : balances (ob w') = balances (ob w);
  fr_next : next_order_id (ob w') = next_order_id (ob w);
  fr_keys : book_keys (ob w') = book_keys (ob w);
  fr_tokens : forall k, base (book_at (ob w') k) = base (book_at (ob w) k) /\
                        quote (book_at (ob w') k) = quote (book_at (ob w) k);
  fr_tip20 : tip20 w' = tip20 w;
  fr_logs : logs w' = logs w
}.

Definition set_ob {L} (s : DarkpoolOrderbook) (w : World L) : World L :=
  mkWorld s (tip20 w) (logs w).

Section monadic_steps.
Context {L : Type}.
Implicit Types (w : World L).

Lemma bind_orders_read {A} i (f : Order -> M (World L) fault A) w :
  mbind f (orders_read i) w = f (order_at (ob w) i) w.
Proof. done. Qed.
Lemma bind_books_read {A} k (f : OrderBookMeta -> M (World L) fault A) w :
  mbind f (books_read k) w = f (book_at (ob w) k) w.
Proof. done. Qed.
Lemma bind_orders_write {A} i o (f : unit -> M (World L) fault A) w :
  mbind f (orders_write i o) w = f tt (set_ob (with_orders <[i:=o]> (ob w)) w).
Proof. done. Qed.
Lemma bind_books_write {A} k m (f : unit -> M (World L) fault A) w :
  mbind f (books_write k m) w = f tt (set_ob (with_books <[k:=m]> (ob w)) w).
Proof. done. Qed.
Lemma bind_loop_fuel {A} (f : nat -> M (World L) fault A) w :
  mbind f loop_fuel w = f (S (size (orders (ob w)))) w.
Proof. done. Qed.
Lemma bind_assoc {A B C} (m : M (World L) fault A) (f : A -> M (World L) fault B) (g : B -> M (World L) fault C) w :
  mbind g (mbind f m) w = mbind (fun a => mbind g (f a)) m w.
Proof. unfold mbind, M_bind. by destruct (m w) as [[]|]. Qed.
End monadic_steps.

Create Rewrite HintDb mo.
#[export] Hint Rewrite @bind_orders_read @bind_books_read @bind_orders_write
  @bind_books_write @bind_loop_fuel : mo.

(** ** Replacing one queue *)

Lemma rep_update s s' B k b l' :
  Rep s B ->
  seg (orders s') k b 0 l' 0 ->
  (forall i, i ∉ ids (B k b) -> i ∉ ids l' -> orders s' !! i = orders s !! i) ->
  (forall i, i ∈ ids (B k b) -> i ∉ ids l' -> orders s' !! i = None) ->
  (forall i, i ∈ ids l' -> i ∈ ids (B k b) \/ orders s !! i = None) ->
  NoDup (ids l') ->
  (forall e, e ∈ l' -> 0 < e_id e) ->
  best b (book_at s' k) = hd_id 0 l' ->
  (forall k' b', ~ (k = k' /\ b = b') -> best b' (book_at s' k') = best b' (book_at s k')) ->
  Rep s' (upd_queue B k b l').
Proof.
  intros R Hseg Hkeep Hdel Hnew Hnd Hpos Hhd Hhd'.
  assert (Hother : forall k' b' i, ~ (k = k' /\ b = b') -> i ∈ (ids (B k' b')) ->
                                   (i ∉ ids (B k b)) /\ (i ∉ ids l')).
  { intros k' b' i Hne Hi. assert (Hk : i ∉ ids (B k b)).
    { intros Hi'. apply Hne. exact (rep_disjoint _ _ _ _ _ _ _ R Hi' Hi). }
    split; [done|]. intros [Hi'|Hi']%Hnew; [done|].
    apply list_elem_of_fmap in Hi as (e & -> & He).
    destruct (seg_lookup _ _ _ _ _ _ _ (rep_seg _ _ R k' b') He) as (? & ? & E). congruence. }
  split; intros k' b' *; try (destruct (decide (k = k' /\ b = b')) as [[<- <-]|Hne];
    [rewrite ?upd_queue_eq by done | rewrite ?upd_queue_ne by done]); try done.
  - eapply seg_frame; [|apply (rep_seg _ _ R)]. intros i Hi.
    destruct (Hother _ _ _ Hne Hi). by apply Hkeep.
  - rewrite Hhd' by done. apply (rep_head _ _ R).
  - apply (rep_nodup _ _ R).
  - apply Hpos.
  - apply (rep_pos _ _ R).
  - rename k' into i, b' into o. intros E. destruct (decide (i ∈ ids l')) as [Hi|Hi].
    + apply list_elem_of_fmap in Hi as (e & -> & He).
      destruct (seg_lookup _ _ _ _ _ _ _ Hseg He) as (p & n & E').
      exists e. rewrite E in E'. simplify_eq. cbn. by rewrite upd_queue_eq.
    + destruct (decide (i ∈ ids (B k b))) as [Hb|Hb]; [by rewrite Hdel in E|].
      rewrite Hkeep in E by done. destruct (rep_cover _ _ R _ _ E) as (e & He & <-).
      exists e. split; [|done]. rewrite upd_queue_ne; [done|]. intros [Ek Eb].
      rewrite <- Ek, <- Eb in He. apply Hb. by apply list_elem_of_fmap_2.
Qed.

Section refinement.
Context {L : Type}.
Implicit Types (w : World L).

Lemma order_at_Some s i o : orders s !! i = Some o -> order_at s i = o.
Proof. unfold order_at. by intros ->. Qed.

Lemma order_at_insert_ne s i j o :
  i <> j -> order_at (with_orders <[i:=o]> s) j = order_at s j.
Proof. intros. unfold order_at; cbn. by rewrite lookup_insert_ne. Qed.

Lemma order_at_books f s i : order_at (with_books f s) i = order_at s i.
Proof. done. Qed.

Lemma seg_cons_at s k b p c l n :
  seg (orders s) k b p (c :: l) n -> order_at s (e_id c) = concr k b c p (hd_id n l).
Proof. intros [E _]. by apply order_at_Some. Qed.

(** The walk of [insert_order] stops where [ins] inserts. *)
Lemma insert_walk_spec k b e l1 c l2 fuel w o :
  is_bid o = b -> price o = e_price e ->
  seg (orders (ob w)) k b (last_id 0 l1) (c :: l2) 0 ->
  (forall x, x ∈ c :: l2 -> 0 < e_id x) ->
  (length (c :: l2) <= fuel)%nat ->
  exists l2' c' l3 found,
    c :: l2 = l2' ++ c' :: l3 /\
    ins b e (c :: l2) = (if found : bool then l2' ++ e :: c' :: l3 else l2' ++ [c'; e]) /\
    (found = false -> l3 = []) /\
    insert_walk fuel o (e_id c) (concr k b c (last_id 0 l1) (hd_id 0 l2)) w =
      Ok ((found, e_id c', concr k b c' (last_id 0 (l1 ++ l2')) (hd_id 0 l3)), w).
Proof.
  intros Hb Hp. revert l1 c fuel.
  induction l2 as [|d l2 IH]; intros l1 c fuel Hs Hpos Hf; (destruct fuel as [|fuel]; [cbn in Hf; lia|]);
    cbn [insert_walk ins]; rewrite Hb, Hp; fold (better b e c);
    (destruct (better b e c) eqn:Hbt;
     [unfold better in Hbt; cbn [price concr]; rewrite Hbt;
      eexists [], c, _, true; cbn; by rewrite app_nil_r|]);
    unfold better in Hbt; cbn [price next concr]; rewrite Hbt.
  - exists [], c, [], false. cbn. by rewrite app_nil_r.
  - cbn [hd_id]. pose proof (Hpos d ltac:(right; left)).
    rewrite (proj2 (Z.eqb_neq (e_id d) 0)) by lia.
    rewrite bind_orders_read. destruct Hs as [_ Hs].
    rewrite (seg_cons_at _ _ _ _ _ _ _ Hs).
    destruct (IH (l1 ++ [c]) d fuel) as (l2' & c' & l3 & fd & E1 & E2 & E3 & E4).
    + by rewrite last_id_snoc.
    + intros x Hx. apply Hpos. by right.
    + cbn in *. lia.
    + exists (c :: l2'), c', l3, fd. rewrite last_id_snoc, <- app_assoc in E4.
      split; [by rewrite E1|]. split; [|by split].
      etrans; [exact (f_equal (cons c) E2) | by destruct fd].
Qed.

Lemma set_best_tokens b i m : base (set_best b i m) = base m /\ quote (set_best b i m) = quote m.
Proof. by destruct b. Qed.

Lemma best_set_best b b' i m : best b' (set_best b i m) = if eqb b b' then i else best b' m.
Proof. by destruct b, b'. Qed.

Lemma book_at_insert s k k' m :
  book_at (with_books <[k:=m]> s) k' = if decide (k = k') then m else book_at s k'.
Proof. unfold book_at; cbn. rewrite lookup_insert. by case_decide. Qed.

Lemma heads_insert s k b i k' b' :
  best b' (book_at (with_books <[k:=set_best b i (book_at s k)]> s) k') =
  if bool_decide (k = k' /\ b = b') then i else best b' (book_at s k').
Proof.
  rewrite book_at_insert. destruct (decide (k = k')) as [<-|Hk].
  - rewrite best_set_best. destruct b, b'; cbn; repeat case_bool_decide; naive_solver.
  - rewrite bool_decide_eq_false_2 by naive_solver. done.
Qed.

Lemma tokens_insert s k b i k' :
  base (book_at (with_books <[k:=set_best b i (book_at s k)]> s) k') = base (book_at s k') /\
  quote (book_at (with_books <[k:=set_best b i (book_at s k)]> s) k') = quote (book_at s k').
Proof.
  rewrite book_at_insert. case_decide as E; [subst; apply set_best_tokens | done].
Qed.

Lemma rep_insert s s' B k b e l1 l2 :
  Rep s B -> B k b = l1 ++ l2 -> orders s !! e_id e = None -> 0 < e_id e ->
  seg (orders s') k b 0 (l1 ++ e :: l2) 0 ->
  (forall i, i ∉ ids (l1 ++ e :: l2) -> orders s' !! i = orders s !! i) ->
  (forall k' b', best b' (book_at s' k') =
     if bool_decide (k = k' /\ b = b') then hd_id 0 (l1 ++ e :: l2) else best b' (book_at s k')) ->
  Rep s' (upd_queue B k b (l1 ++ e :: l2)).
Proof.
  intros R EB He Hpos Hseg Hkeep Hhd.
  assert (Hperm : l1 ++ e :: l2 ≡ₚ e :: B k b).
  { rewrite EB. symmetry. apply Permutation_middle. }
  assert (Hin : forall i, i ∈ ids (l1 ++ e :: l2) <-> i = e_id e \/ i ∈ (ids (B k b))).
  { intros i. rewrite Hperm. cbn. apply elem_of_cons. }
  assert (Hfresh : e_id e ∉ ids (B k b)).
  { intros (c & Hc & Hcin)%list_elem_of_fmap.
    destruct (seg_lookup _ _ _ _ _ _ _ (rep_seg _ _ R k b) Hcin) as (? & ? & E). congruence. }
  apply (rep_update s); try done.
  - intros i _ Hi. by apply Hkeep.
  - intros i Hi Hn. destruct Hn. apply Hin. by right.
  - intros i [->|Hi]%Hin; [by right | by left].
  - rewrite Hperm. cbn. apply NoDup_cons. split; [done | apply (rep_nodup _ _ R)].
  - intros x Hx. rewrite Hperm in Hx. apply elem_of_cons in Hx as [->|Hx]; [done|].
    by apply (rep_pos _ _ R) in Hx.
  - rewrite Hhd. by rewrite bool_decide_eq_true_2.
  - intros k' b' Hne. rewrite Hhd. by rewrite bool_decide_eq_false_2.
Qed.

(** Splicing a fresh order between two adjacent segments: write it, then
    redirect its neighbours. *)
Lemma seg_splice_mid os k b p l1 d e c l2 n :
  NoDup (ids ((l1 ++ [d]) ++ e :: c :: l2)) ->
  seg os k b p ((l1 ++ [d]) ++ c :: l2) n ->
  seg (<[e_id c := concr k b c (e_id e) (hd_id n l2)]>
        (<[e_id d := concr k b d (last_id p l1) (e_id e)]>
          (<[e_id e := concr k b e (e_id d) (e_id c)]> os)))
      k b p ((l1 ++ [d]) ++ e :: c :: l2) n.
Proof.
  intros Hnd [H1 H2]%seg_app. rewrite fmap_app, NoDup_app in Hnd.
  destruct Hnd as (Hnd1 & Hdis & Hnd2). cbn in Hnd2.
  apply NoDup_cons in Hnd2 as [He Hnd2].
  assert (Hd : e_id d ∈ ids (l1 ++ [d])) by (apply list_elem_of_fmap_2; set_solver).
  apply seg_app. rewrite last_id_snoc in *. split.
  - apply seg_insert_ne; [|eapply seg_relink_last, seg_insert_ne; [done| |exact H1]].
    + intros Hc. apply (Hdis _ Hc). cbn. set_solver.
    + intros Hc. apply (Hdis _ Hc). cbn. set_solver.
  - split; [|eapply seg_relink_first, seg_insert_ne, seg_insert_ne; [done| |done|exact H2]].
    + rewrite lookup_insert_ne by set_solver.
      rewrite lookup_insert_ne, lookup_insert_eq; [done|].
      intros E. apply (Hdis _ Hd). cbn. set_solver.
    + intros Hc. apply (Hdis _ Hd). cbn. set_solver.
Qed.

Lemma seg_splice_front os k b e c l2 n :
  NoDup (ids (e :: c :: l2)) -> seg os k b 0 (c :: l2) n ->
  seg (<[e_id c := concr k b c (e_id e) (hd_id n l2)]>
        (<[e_id e := concr k b e 0 (e_id c)]> os)) k b 0 (e :: c :: l2) n.
Proof.
  cbn [fmap list_fmap]. intros [He Hnd]%NoDup_cons H. split.
  - rewrite lookup_insert_ne, lookup_insert_eq; [done | set_solver].
  - eapply seg_relink_first, seg_insert_ne; [done|done|exact H].
Qed.

Lemma seg_splice_back os k b p l1 d e :
  NoDup (ids ((l1 ++ [d]) ++ [e])) -> seg os k b p (l1 ++ [d]) 0 ->
  seg (<[e_id d := concr k b d (last_id p l1) (e_id e)]>
        (<[e_id e := concr k b e (e_id d) 0]> os)) k b p ((l1 ++ [d]) ++ [e]) 0.
Proof.
  rewrite fmap_app, NoDup_app. intros (Hnd & Hdis & _) H1.
  assert (Hd : e_id d ∈ ids (l1 ++ [d])) by (apply list_elem_of_fmap_2; set_solver).
  apply seg_app. rewrite last_id_snoc. split.
  - eapply seg_relink_last, seg_insert_ne; [done| |exact H1].
    intros Hc. apply (Hdis _ Hc). cbn. set_solver.
  - split; [|done]. rewrite lookup_insert_ne, lookup_insert_eq; [done|].
    intros E. apply (Hdis _ Hd). cbn. set_solver.
Qed.

(** Shared tail of the three branches of [insert_order]: the writes stayed
    within the spliced queue. *)
Lemma insert_finish w s' B k b e l1 l2 :
  Rep (ob w) B -> B k b = l1 ++ l2 -> orders (ob w) !! e_id e = None -> 0 < e_id e ->
  seg (orders s') k b 0 (l1 ++ e :: l2) 0 ->
  (forall i, i ∉ ids (l1 ++ e :: l2) -> orders s' !! i = orders (ob w) !! i) ->
  (books s' = books (ob w) /\ l1 <> [] \/
   l1 = [] /\ books s' = <[k := set_best b (e_id e) (book_at (ob w) k)]> (books (ob w))) ->
  balances s' = balances (ob w) -> next_order_id s' = next_order_id (ob w) ->
  book_keys s' = book_keys (ob w) ->
  Rep s' (upd_queue B k b (l1 ++ e :: l2)) /\ Frame w (set_ob s' w).
Proof.
  intros R EB He Hpos Hseg Hkeep Hbk Hbal Hnx Hks.
  assert (Hbook : (forall k', book_at s' k' = book_at (ob w) k') /\ l1 <> [] \/ l1 = [] /\
            forall k', book_at s' k' =
              book_at (with_books <[k:=set_best b (e_id e) (book_at (ob w) k)]> (ob w)) k').
  { destruct Hbk as [[E ?]|[? E]]; [left|right];
      (split; [try done|try done]); intros k'; unfold book_at; by rewrite E. }
  split.
  - apply (rep_insert (ob w)); try done. intros k' b'.
    destruct Hbook as [[E Hl]|[-> E]]; rewrite E.
    + case_bool_decide as Hk; [|done]. destruct Hk as [<- <-].
      rewrite (rep_head _ _ R), EB. by destruct l1.
    + by rewrite heads_insert.
  - split; try done. intros k'. cbn [ob set_ob].
    destruct Hbook as [[E _]|[_ E]]; rewrite E; [done | apply tokens_insert].
Qed.


(** Inserting in front of the queue, in its middle, and at its end. *)
Lemma insert_at_front w B k b e d l2 :
  Rep (ob w) B -> B k b = d :: l2 -> orders (ob w) !! e_id e = None -> 0 < e_id e ->
  e_id e ∉ ids (B k b) ->
  exists w', insert_at k (concr k b e 0 0) (e_id d) (concr k b d 0 (hd_id 0 l2)) w = Ok (tt, w') /\
    Rep (ob w') (upd_queue B k b (e :: d :: l2)) /\ Frame w w'.
Proof.
  intros R EB Hfresh Hpos Hnin. unfold insert_at. rewrite EB in Hnin.
  pose proof (rep_seg _ _ R k b) as Hseg. rewrite EB in Hseg.
  pose proof (rep_nodup _ _ R k b) as Hnd. rewrite EB in Hnd.
  cbn [concr prev set_prev set_next order_id is_bid]. cbn [Z.eqb].
  rewrite bind_orders_write, bind_assoc. autorewrite with mo. cbn [ob set_ob].
  rewrite order_at_books, order_at_insert_ne by set_solver.
  rewrite (seg_cons_at _ _ _ _ _ _ _ Hseg). eexists. split; [reflexivity|].
  apply (insert_finish w _ B k b e [] (d :: l2)); try done; cbn.
  - apply seg_splice_front; [|done]. cbn. by apply NoDup_cons.
  - intros i Hi. rewrite !lookup_insert_ne; [done|set_solver..].
  - by right.
Qed.

Lemma insert_at_middle w B k b e l1 d' d l2 :
  Rep (ob w) B -> B k b = (l1 ++ [d']) ++ d :: l2 ->
  orders (ob w) !! e_id e = None -> 0 < e_id e -> e_id e ∉ ids (B k b) ->
  exists w', insert_at k (concr k b e 0 0) (e_id d) (concr k b d (e_id d') (hd_id 0 l2)) w
             = Ok (tt, w') /\
    Rep (ob w') (upd_queue B k b ((l1 ++ [d']) ++ e :: d :: l2)) /\ Frame w w'.
Proof.
  intros R EB Hfresh Hpos Hnin. unfold insert_at. rewrite EB in Hnin.
  pose proof (rep_seg _ _ R k b) as Hseg. rewrite EB in Hseg.
  pose proof (rep_nodup _ _ R k b) as Hnd. rewrite EB in Hnd.
  assert (Hpd : 0 < e_id d') by (apply (rep_pos _ _ R k b); rewrite EB; set_solver).
  assert (Hnd' : NoDup (ids ((l1 ++ [d']) ++ e :: d :: l2))).
  { rewrite <- Permutation_middle. cbn. by apply NoDup_cons. }
  assert (Hdd : e_id d' <> e_id d).
  { rewrite fmap_app, NoDup_app in Hnd. destruct Hnd as (_ & Hdis & _).
    intros E. apply (Hdis (e_id d')); rewrite ?fmap_app; cbn; set_solver. }
  rewrite !fmap_app in Hnin.
  pose proof Hseg as [[_ Hd']%seg_app Hd]%seg_app. rewrite last_id_snoc in Hd.
  apply seg_cons_at in Hd, Hd'. cbn [hd_id] in Hd'.
  cbn [concr prev set_prev set_next order_id is_bid].
  rewrite (proj2 (Z.eqb_neq (e_id d') 0)) by lia.
  rewrite bind_orders_write, bind_assoc. autorewrite with mo. cbn [ob set_ob].
  rewrite !order_at_insert_ne, Hd, Hd' by set_solver. eexists. split; [reflexivity|].
  apply (insert_finish w _ B k b e (l1 ++ [d']) (d :: l2)); try done; cbn.
  - by apply seg_splice_mid.
  - intros i Hi. rewrite !fmap_app in Hi. rewrite !lookup_insert_ne; [done|set_solver..].
  - left. split; [done|]. by destruct l1.
Qed.

Lemma insert_last_refines w B k b e l1 d :
  Rep (ob w) B -> B k b = l1 ++ [d] ->
  orders (ob w) !! e_id e = None -> 0 < e_id e -> e_id e ∉ ids (B k b) ->
  exists w', insert_last (concr k b e 0 0) (e_id d) w = Ok (tt, w') /\
    Rep (ob w') (upd_queue B k b (l1 ++ [d; e])) /\ Frame w w'.
Proof.
  intros R EB Hfresh Hpos Hnin. unfold insert_last. rewrite EB in Hnin.
  pose proof (rep_seg _ _ R k b) as Hseg. rewrite EB in Hseg.
  pose proof (rep_nodup _ _ R k b) as Hnd. rewrite EB in Hnd.
  pose proof Hseg as [_ Hd%seg_cons_at]%seg_app.
  cbn [concr prev set_prev set_next order_id is_bid].
  rewrite bind_orders_write, bind_orders_read. cbn [ob set_ob].
  rewrite order_at_insert_ne, Hd by (rewrite fmap_app in Hnin; set_solver).
  eexists. split; [reflexivity|]. change [d; e] with ([d] ++ [e]). rewrite app_assoc.
  apply (insert_finish w _ B k b e (l1 ++ [d]) []); try done; cbn.
  - by rewrite app_nil_r.
  - apply seg_splice_back; [|done]. rewrite <- Permutation_cons_append. cbn. by apply NoDup_cons.
  - intros i Hi. rewrite !fmap_app in Hi. rewrite !lookup_insert_ne; [done|set_solver..].
  - left. split; [done|]. by destruct l1.
Qed.

Lemma fresh_not_in_queue s B k b e :
  Rep s B -> orders s !! e_id e = None -> e_id e ∉ ids (B k b).
Proof.
  intros R Hfresh (c & Hc & Hcin)%list_elem_of_fmap.
  destruct (seg_lookup _ _ _ _ _ _ _ (rep_seg _ _ R k b) Hcin) as (? & ? & E). congruence.
Qed.

(** [insert_order] refines price-time insertion. *)
Lemma insert_order_refines k b e w B :
  Rep (ob w) B -> orders (ob w) !! e_id e = None -> 0 < e_id e ->
  exists w', insert_order k (concr k b e 0 0) w = Ok (tt, w') /\
    Rep (ob w') (upd_queue B k b (ins b e (B k b))) /\ Frame w w'.
Proof.
  intros R Hfresh Hpos. pose proof (fresh_not_in_queue _ _ k b _ R Hfresh) as Hnin.
  pose proof (rep_seg _ _ R k b) as Hseg. pose proof (rep_nodup _ _ R k b) as Hnd.
  unfold insert_order. rewrite bind_books_read. cbn [is_bid concr order_id].
  fold (best b (book_at (ob w) k)). rewrite (rep_head _ _ R k b).
  destruct (B k b) as [|c l] eqn:EB; cbn [hd_id].
  { eexists. split; [reflexivity|]. apply (insert_finish w _ B k b e [] []); try done; cbn.
    - by rewrite lookup_insert_eq.
    - intros i Hi. rewrite lookup_insert_ne; [done | set_solver].
    - by right. }
  pose proof (rep_pos _ _ R k b) as Hp. rewrite EB in Hp.
  rewrite (proj2 (Z.eqb_neq (e_id c) 0)) by (specialize (Hp c ltac:(left)); lia).
  rewrite bind_orders_read, bind_loop_fuel, (seg_cons_at _ _ _ _ _ _ _ Hseg).
  destruct (insert_walk_spec k b e [] c l (S (size (orders (ob w)))) w (concr k b e 0 0))
    as (l1 & d & l2 & found & El & Eins & Hl3 & Ewalk); [done..| |].
  { pose proof (seg_length _ _ _ _ _ _ Hnd Hseg). lia. }
  erewrite bind_eq_Ok by exact Ewalk. cbn beta iota. rewrite Eins. rewrite <- EB in Hnin.
  rewrite El in EB. destruct found; [destruct l1 as [|d' l1 _] using rev_ind|]; cbn [app].
  - by apply insert_at_front.
  - rewrite last_id_snoc. by apply insert_at_middle.
  - specialize (Hl3 eq_refl) as ->. by apply insert_last_refines.
Qed.

(** ** Removal *)

(** Redirecting the predecessor (or the head of the book) past an order. *)
Lemma unlink_prev_spec w k b e l1 l2 :
  seg (orders (ob w)) k b 0 (l1 ++ e :: l2) 0 -> NoDup (ids (l1 ++ e :: l2)) ->
  (forall x, x ∈ l1 -> 0 < e_id x) -> best b (book_at (ob w) k) = hd_id 0 (l1 ++ e :: l2) ->
  exists w', unlink_prev k (concr k b e (last_id 0 l1) (hd_id 0 l2)) w = Ok (tt, w') /\
    seg (orders (ob w')) k b 0 l1 (hd_id 0 l2) /\
    (forall i, i ∉ ids l1 -> orders (ob w') !! i = orders (ob w) !! i) /\
    (forall k' b', best b' (book_at (ob w') k') =
       if bool_decide (k = k' /\ b = b') then hd_id 0 (l1 ++ l2) else best b' (book_at (ob w) k')) /\
    Frame w w'.
Proof.
  intros Hseg Hnd Hpos Hhd. unfold unlink_prev. cbn [concr prev next is_bid].
  apply seg_app in Hseg as [H1 _]. destruct l1 as [|d l1 _] using rev_ind; cbn [last_id].
  - cbn [Z.eqb negb]. eexists. split; [reflexivity|]. cbn.
    split; [done|]. split; [done|]. split; [intros; by rewrite heads_insert|].
    split; try done. intros k'. apply tokens_insert.
  - rewrite last_id_snoc. assert (0 < e_id d) by (apply Hpos; set_solver).
    rewrite (proj2 (Z.eqb_neq (e_id d) 0)) by lia. cbn [negb].
    pose proof H1 as [_ Hd%seg_cons_at]%seg_app.
    rewrite bind_orders_read, Hd. eexists. split; [reflexivity|]. cbn.
    split; [|split; [|split]].
    + eapply seg_relink_last; [|exact H1].
      rewrite fmap_app, NoDup_app in Hnd. apply Hnd.
    + intros i Hi. rewrite fmap_app in Hi. rewrite lookup_insert_ne; [done | set_solver].
    + intros k' b'. case_bool_decide as E; [|done]. destruct E as [<- <-].
      change (best b (book_at (ob w) k) = hd_id 0 ((l1 ++ [d]) ++ l2)).
      rewrite Hhd. by destruct l1.
    + by split.
Qed.

(** Redirecting the successor of an order. *)
Lemma unlink_next_spec w k b e p l2 :
  seg (orders (ob w)) k b (e_id e) l2 0 -> NoDup (ids l2) -> (forall x, x ∈ l2 -> 0 < e_id x) ->
  exists w', unlink_next (concr k b e p (hd_id 0 l2)) w = Ok (tt, w') /\
    seg (orders (ob w')) k b p l2 0 /\
    (forall i, i ∉ ids l2 -> orders (ob w') !! i = orders (ob w) !! i) /\
    books (ob w') = books (ob w) /\ Frame w w'.
Proof.
  intros Hseg Hnd Hpos. unfold unlink_next. cbn [concr prev next].
  destruct l2 as [|c l2]; cbn [hd_id].
  - exists w. by repeat split.
  - assert (0 < e_id c) by (apply Hpos; left).
    rewrite (proj2 (Z.eqb_neq (e_id c) 0)) by lia. cbn [negb].
    rewrite bind_orders_read, (seg_cons_at _ _ _ _ _ _ _ Hseg).
    eexists. split; [reflexivity|]. cbn. split; [|split; [|by repeat split]].
    + by eapply seg_relink_first.
    + intros i Hi. rewrite lookup_insert_ne; [done | set_solver].
Qed.

Lemma rep_head_books w1 w2 b k :
  books (ob w2) = books (ob w1) -> best b (book_at (ob w1) k) = best b (book_at (ob w2) k).
Proof. unfold book_at. by intros ->. Qed.

Lemma Frame_trans w1 w2 w3 : Frame w1 w2 -> Frame w2 w3 -> Frame w1 w3.
Proof.
  intros [a1 b1 c1 d1 e1 f1] [a2 b2 c2 d2 e2 f2]. split; try congruence.
  intros k. destruct (d1 k), (d2 k). split; congruence.
Qed.

(** [remove_order] refines deletion from the queue. *)
Lemma remove_order_refines k b e l1 l2 w B :
  Rep (ob w) B -> B k b = l1 ++ e :: l2 ->
  exists w', remove_order k (concr k b e (last_id 0 l1) (hd_id 0 l2)) w = Ok (tt, w') /\
    Rep (ob w') (upd_queue B k b (l1 ++ l2)) /\ Frame w w'.
Proof.
  intros R EB. pose proof (rep_seg _ _ R k b) as Hseg. pose proof (rep_nodup _ _ R k b) as Hnd.
  pose proof (rep_head _ _ R k b) as Hhd. pose proof (rep_pos _ _ R k b) as Hpos.
  rewrite EB in Hseg, Hnd, Hhd, Hpos.
  destruct (unlink_prev_spec w k b e l1 l2) as (w1 & E1 & S1 & K1 & H1 & F1); [done..| |done|].
  { intros x Hx. apply Hpos. set_solver. }
  assert (Hids : forall i, i ∈ ids (l1 ++ e :: l2) <-> i = e_id e \/ i ∈ ids (l1 ++ l2)).
  { intros i. rewrite <- Permutation_middle. cbn. apply elem_of_cons. }
  assert (Hnd3 : (e_id e ∉ ids (l1 ++ l2)) /\ NoDup (ids (l1 ++ l2))).
  { rewrite <- Permutation_middle in Hnd. by apply NoDup_cons in Hnd. }
  destruct Hnd3 as [He Hnd3]. pose proof Hnd3 as Hnd4. rewrite fmap_app, NoDup_app in Hnd4.
  destruct Hnd4 as (_ & Hdis & Hnd2). rewrite fmap_app in He.
  apply seg_app in Hseg as [_ [_ S2]].
  destruct (unlink_next_spec w1 k b e (last_id 0 l1) l2) as (w2 & E2 & S3 & K2 & B2 & F2).
  { eapply seg_frame, S2. intros i Hi. apply K1. intros Hi'. by apply (Hdis i). }
  { done. }
  { intros x Hx. apply Hpos. set_solver. }
  unfold remove_order. erewrite bind_eq_Ok, bind_eq_Ok by eassumption.
  eexists. split; [reflexivity|]. cbn. split.
  - apply (rep_update (ob w)); try done; cbn.
    + apply seg_app. split; apply seg_delete_ne; [set_solver| |set_solver|done].
      eapply seg_frame, S1. intros i Hi. apply K2. intros Hi'. by apply (Hdis i).
    + rewrite EB. intros i Hi _. rewrite Hids in Hi.
      rewrite fmap_app in Hi. rewrite lookup_delete_ne, K2, K1 by set_solver. done.
    + rewrite EB. intros i [->|Hi]%Hids Hn; [apply lookup_delete_eq | done].
    + rewrite EB. intros i Hi. left. apply Hids. by right.
    + intros x Hx. apply Hpos. set_solver.
    + etrans; [symmetry; exact (rep_head_books w1 w2 b k B2)|].
      rewrite H1. by rewrite bool_decide_eq_true_2.
    + intros k' b' Hne. etrans; [symmetry; exact (rep_head_books w1 w2 b' k' B2)|].
      rewrite H1. by rewrite bool_decide_eq_false_2.
  - apply (Frame_trans w w1); [done|]. apply (Frame_trans w1 w2); [done|]. by split.
Qed.

(** Writing the quantity of the order at the head of a queue. *)
Lemma write_quantity_refines k b e l2 q w B :
  Rep (ob w) B -> B k b = e :: l2 ->
  exists w', orders_write_quantity (e_id e) q w = Ok (tt, w') /\
    Rep (ob w') (upd_queue B k b (mkEntry (e_id e) (e_maker e) (e_price e) q :: l2)) /\ Frame w w'.
Proof.
  intros R EB. pose proof (rep_seg _ _ R k b) as Hseg. pose proof (rep_nodup _ _ R k b) as Hnd.
  pose proof (rep_head _ _ R k b) as Hhd. pose proof (rep_pos _ _ R k b) as Hpos.
  rewrite EB in Hseg, Hnd, Hhd, Hpos. pose proof Hnd as [He _]%NoDup_cons.
  unfold orders_write_quantity. rewrite bind_orders_read, (seg_cons_at _ _ _ _ _ _ _ Hseg).
  eexists. split; [reflexivity|]. split; [|by repeat split].
  apply (rep_update (ob w)); try done; cbn.
  - split; [by rewrite lookup_insert_eq|]. apply seg_insert_ne; [done|]. apply Hseg.
  - rewrite EB. cbn. intros i Hi _. rewrite lookup_insert_ne; [done | set_solver].
  - rewrite EB. cbn. intros i Hi Hn. done.
  - rewrite EB. cbn. intros i Hi. by left.
  - intros x [->|Hx]%elem_of_cons; [by apply (Hpos e); left | by apply Hpos; right].
Qed.
End refinement.
