(* ===== verification/OrderbookInv.v ===== *)
(** * The orderbook invariant

    What holds between any two calls of the contract: the queues are
    represented, sorted by price-time priority and uncrossed, and every
    account's internal balance covers what its resting orders reserve. *)

From S2P Require Import Prelude.
From S2P Require Import OrderbookModel.
From S2P Require Import OrderbookArith.
From S2P Require Import OrderbookRep.
#[local] Open Scope Z_scope.

(** ** Reserves *)

(** The token a resting order of side [b] pays with. *)
Definition pay_token (b : bool) (m : OrderBookMeta) : Z := if b then quote m else base m.

Definition entry_reserve (b : bool) (e : Entry) : Z :=
  if b then ceil_quote (e_qty e) (e_price e) else e_qty e.

Definition side_reserve (b : bool) (u : Z) (l : list Entry) : Z :=
  sumZ (fun e => if e_maker e =? u then entry_reserve b e else 0) l.

Definition book_reserve (s : DarkpoolOrderbook) (B : Queues) (u t k : Z) : Z :=
  (if pay_token true (book_at s k) =? t then side_reserve true u (B k true) else 0) +
  (if pay_token false (book_at s k) =? t then side_reserve false u (B k false) else 0).

Definition reserve (s : DarkpoolOrderbook) (B : Queues) (u t : Z) : Z :=
  sumZ (book_reserve s B u t) (book_keys s).

(** Sum of the internal balances of a token. *)
Definition token_total (s : DarkpoolOrderbook) (t : Z) : Z :=
  msum (fun '(_, t') => t' =? t) (balances s).

(** ** Priority *)

(** [e] is ahead of [c] in a queue of side [b]: better price, or the same
    price and placed earlier. *)
Definition ahead (b : bool) (e c : Entry) : Prop :=
  better b e c = true \/ (e_price e = e_price c /\ e_id e < e_id c).

Definition entry_ok (e : Entry) : Prop :=
  0 < e_qty e <= U128_MAX /\ 0 < e_price e <= U128_MAX.

Section invariant.
(** [is_tip20]: the addresses the token precompile accepts. *)
Context (keccak256 : list Z -> Z) (is_tip20 : Z -> Prop).

Record Inv (s : DarkpoolOrderbook) (B : Queues) : Prop := mkInv {
  inv_rep : Rep s B;
  inv_entry : forall k b e, e ∈ B k b -> entry_ok e;
  inv_sorted : forall k b, StronglySorted (ahead b) (B k b);
  inv_ids : forall k b e, e ∈ B k b -> e_id e < Z.max (next_order_id s) 1;
  inv_keys : NoDup (book_keys s);
  inv_keys_iff : forall k, k ∈ book_keys s <-> base (book_at s k) <> 0;
  inv_live : forall k b e, e ∈ B k b -> k ∈ book_keys s;
  inv_pair : forall k, k ∈ book_keys s ->
    compute_book_key keccak256 (base (book_at s k)) (quote (book_at s k)) = k /\
    base (book_at s k) <> quote (book_at s k) /\
    is_tip20 (base (book_at s k)) /\ is_tip20 (quote (book_at s k));
  inv_range : forall u t, in_u128 (balance_at s u t);
  inv_solvent : forall u t, reserve s B u t <= balance_at s u t;
  inv_uncrossed : forall k x y, x ∈ B k true -> y ∈ B k false -> e_price x < e_price y
}.
End invariant.

(** ** Facts about reserves *)

Lemma entry_reserve_nonneg b e : entry_ok e -> 0 <= entry_reserve b e.
Proof.
  intros [Hq Hp]. destruct b; cbn; [apply ceil_quote_nonneg; lia | lia].
Qed.

Lemma side_reserve_nonneg b u l : Forall entry_ok l -> 0 <= side_reserve b u l.
Proof.
  rewrite Forall_forall. intros H. apply sumZ_nonneg. intros e He.
  case_match; [apply entry_reserve_nonneg; auto | lia].
Qed.

Lemma book_reserve_nonneg s B u t k :
  (forall k b e, e ∈ B k b -> entry_ok e) -> 0 <= book_reserve s B u t k.
Proof.
  intros H. unfold book_reserve.
  pose proof (side_reserve_nonneg true u (B k true)) as H1.
  pose proof (side_reserve_nonneg false u (B k false)) as H2.
  rewrite Forall_forall in H1, H2. specialize (H1 (H k true)). specialize (H2 (H k false)).
  repeat case_match; lia.
Qed.

Lemma reserve_nonneg s B u t :
  (forall k b e, e ∈ B k b -> entry_ok e) -> 0 <= reserve s B u t.
Proof. intros H. apply sumZ_nonneg. intros k _. by apply book_reserve_nonneg. Qed.

(** Replacing one queue changes the reserves of its pay token only. *)
Lemma reserve_upd s s' B k b l u t :
  NoDup (book_keys s) -> k ∈ book_keys s -> book_keys s' = book_keys s ->
  (forall k', base (book_at s' k') = base (book_at s k') /\
              quote (book_at s' k') = quote (book_at s k')) ->
  reserve s' (upd_queue B k b l) u t =
  reserve s B u t +
    (if pay_token b (book_at s k) =? t then side_reserve b u l - side_reserve b u (B k b) else 0).
Proof.
  intros Hnd Hk Hks Htok. unfold reserve. rewrite Hks.
  rewrite (sumZ_update (book_reserve s B u t) _ _ k Hnd Hk).
  - unfold book_reserve, pay_token. destruct (Htok k) as [-> ->].
    destruct b; rewrite upd_queue_eq, upd_queue_ne by naive_solver; repeat case_match; lia.
  - intros k' _ Hne. unfold book_reserve, pay_token. destruct (Htok k') as [-> ->].
    by rewrite !upd_queue_ne by naive_solver.
Qed.

Lemma reserve_ext s s' B u t :
  book_keys s' = book_keys s ->
  (forall k', base (book_at s' k') = base (book_at s k') /\
              quote (book_at s' k') = quote (book_at s k')) ->
  reserve s' B u t = reserve s B u t.
Proof.
  intros Hks Htok. unfold reserve. rewrite Hks. apply sumZ_ext. intros k _.
  unfold book_reserve, pay_token. by destruct (Htok k) as [-> ->].
Qed.

Lemma side_reserve_ins b u e l :
  side_reserve b u (ins b e l) =
  side_reserve b u l + (if e_maker e =? u then entry_reserve b e else 0).
Proof.
  unfold side_reserve. induction l as [|c l IH]; cbn [ins].
  - rewrite sumZ_cons. cbn. lia.
  - destruct (better b e c); rewrite !sumZ_cons; [|rewrite IH]; lia.
Qed.

(** ** Sortedness *)

Lemma ahead_trans b x y z : ahead b x y -> ahead b y z -> ahead b x z.
Proof.
  unfold ahead, better. intros [H1|[H1 H1']] [H2|[H2 H2']]; destruct b; bool_lia;
    first [left; apply Z.ltb_lt; lia | right; lia].
Qed.

Lemma ins_sorted b e l :
  (forall c, c ∈ l -> e_id c < e_id e) ->
  StronglySorted (ahead b) l -> StronglySorted (ahead b) (ins b e l).
Proof.
  induction l as [|c l IH]; intros Hid Hs; cbn; [repeat constructor|].
  inversion_clear Hs as [|? ? Hs' Hall].
  destruct (better b e c) eqn:Hb.
  - constructor; [by constructor|]. constructor; [by left|].
    eapply Forall_impl; [exact Hall|]. intros x Hx. eapply ahead_trans; [by left | exact Hx].
  - constructor; [apply IH; [intros x Hx; apply Hid; by right | done]|].
    apply Forall_forall. intros x [->|Hx]%elem_of_ins.
    + specialize (Hid c ltac:(left)). unfold ahead. unfold better in *.
      destruct b; bool_lia; destruct (Z.eq_dec (e_price c) (e_price e));
        first [right; lia | left; apply Z.ltb_lt; lia].
    + rewrite Forall_forall in Hall. by apply Hall.
Qed.

(** ** Balances *)

Lemma balance_at_insert s u t v u' t' :
  balance_at (with_balances <[(u, t):=v]> s) u' t' =
  if (u =? u') && (t =? t') then v else balance_at s u' t'.
Proof.
  unfold balance_at. cbn. destruct (Z.eqb_spec u u') as [->|]; cbn.
  - destruct (Z.eqb_spec t t') as [->|]; [by rewrite lookup_insert_eq|].
    rewrite lookup_insert_ne; [done | congruence].
  - rewrite lookup_insert_ne; [done | congruence].
Qed.

Section balance_ops.
Context {L : Type}.
Implicit Types (w : World L).

Lemma increment_balance_Ok u t a w r w' :
  increment_balance u t a w = Ok (r, w') <->
  balance_at (ob w) u t + a <= U128_MAX /\ r = tt /\
  w' = set_ob (with_balances <[(u, t) := balance_at (ob w) u t + a]> (ob w)) w.
Proof.
  unfold increment_balance. split.
  - intros H. inv_M H. unfold balance_of in Hm. inv_M Hm.
    apply checked_add_Some in H0 as [-> ?]. unfold set_balance, upd_ob in H. inv_M H. done.
  - intros (Hle & -> & ->).
    unfold balance_of, mbind, M_bind, get, mret, M_ret. cbv beta iota.
    by rewrite (proj2 (checked_add_Some U128_MAX (balance_at (ob w) u t) a _) (conj eq_refl Hle)).
Qed.

Lemma decrement_balance_Ok u t a w r w' :
  decrement_balance u t a w = Ok (r, w') <->
  a <= balance_at (ob w) u t /\ r = tt /\
  w' = set_ob (with_balances <[(u, t) := balance_at (ob w) u t - a]> (ob w)) w.
Proof.
  unfold decrement_balance. split.
  - intros H. inv_M H. unfold balance_of in Hm. inv_M Hm.
    apply checked_sub_Some in H0 as [-> ?]. unfold set_balance, upd_ob in H. inv_M H. done.
  - intros (Hle & -> & ->).
    unfold balance_of, mbind, M_bind, get, mret, M_ret. cbv beta iota.
    by rewrite (proj2 (checked_sub_Some (balance_at (ob w) u t) a _) (conj eq_refl Hle)).
Qed.
End balance_ops.
