(* ===== verification/OrderbookMatching.v ===== *)
(** * Matching

    The four matching loops of the source ([cross_asks], [cross_bids],
    [fill_asks_market], [fill_bids_market]) are instances of one loop over
    the better side of a book, [match_loop].  The loop refines [amatch], a
    structural recursion over the abstract queue, and preserves the
    invariant together with the taker's funding. *)

From S2P Require Import Prelude.
From S2P Require Import OrderbookModel.
From S2P Require Import OrderbookArith.
From S2P Require Import OrderbookRep.
From S2P Require Import OrderbookInv.
#[local] Open Scope Z_scope.

(** ** The exchange of tokens in one fill *)

Section swap.
Context {L : Type}.
Implicit Types (w : World L).

(** Taker pays [x] of token [X], maker pays [y] of token [Y]. *)
Definition swap (taker mk X Y x y : Z) : M (World L) fault unit :=
  decrement_balance taker X x;;
  increment_balance taker Y y;;
  decrement_balance mk Y y;;
  increment_balance mk X x.

Definition swap_delta (taker mk X Y x y u t : Z) : Z :=
  (if X =? t then (if mk =? u then x else 0) - (if taker =? u then x else 0) else 0) +
  (if Y =? t then (if taker =? u then y else 0) - (if mk =? u then y else 0) else 0).

Lemma token_total_insert s u t v t' :
  token_total (with_balances <[(u, t):=v]> s) t' =
  token_total s t' + (if t =? t' then v - balance_at s u t else 0).
Proof. unfold token_total. cbn. by rewrite msum_insert. Qed.

Lemma range_insert s u t v :
  (forall u t, in_u128 (balance_at s u t)) -> in_u128 v ->
  forall u' t', in_u128 (balance_at (with_balances <[(u, t):=v]> s) u' t').
Proof. intros Hs Hv u' t'. rewrite balance_at_insert. case_match; auto. Qed.

(** Crediting [d] (possibly negative) to one account touches nothing else. *)
Record Credit (u t d : Z) (w w' : World L) : Prop := mkCredit {
  cr_orders : orders (ob w') = orders (ob w);
  cr_books : books (ob w') = books (ob w);
  cr_next : next_order_id (ob w') = next_order_id (ob w);
  cr_keys : book_keys (ob w') = book_keys (ob w);
  cr_tip20 : tip20 w' = tip20 w;
  cr_logs : logs w' = logs w;
  cr_balance : forall u' t', balance_at (ob w') u' t' =
    balance_at (ob w) u' t' + (if (u =? u') && (t =? t') then d else 0);
  cr_range : (forall u t, in_u128 (balance_at (ob w) u t)) ->
             forall u t, in_u128 (balance_at (ob w') u t);
  cr_total : forall t', token_total (ob w') t' =
    token_total (ob w) t' + (if t =? t' then d else 0)
}.

Lemma credit_intro u t d w :
  ((forall u t, in_u128 (balance_at (ob w) u t)) -> in_u128 (balance_at (ob w) u t + d)) ->
  Credit u t d w (set_ob (with_balances <[(u, t) := balance_at (ob w) u t + d]> (ob w)) w).
Proof.
  intros Hv. split; try done; cbn [ob set_ob].
  - intros u' t'. rewrite balance_at_insert.
    destruct (Z.eqb_spec u u') as [->|], (Z.eqb_spec t t') as [->|]; cbn; lia.
  - intros Hr. apply range_insert; auto.
  - intros t'. rewrite token_total_insert. case_match; lia.
Qed.

Lemma increment_credit u t a w r w' :
  0 <= a -> increment_balance u t a w = Ok (r, w') -> Credit u t a w w'.
Proof.
  intros Ha (Hle & _ & ->)%increment_balance_Ok. apply credit_intro.
  intros Hr. specialize (Hr u t). unfold in_u128 in *. lia.
Qed.

Lemma decrement_credit u t a w r w' :
  0 <= a -> decrement_balance u t a w = Ok (r, w') -> Credit u t (- a) w w'.
Proof.
  intros Ha (Hle & _ & ->)%decrement_balance_Ok. rewrite <- Z.add_opp_r.
  apply credit_intro. intros Hr. specialize (Hr u t). unfold in_u128 in *. lia.
Qed.

(** What one fill does to the contract besides its queues. *)
Record Swapped (taker mk X Y x y : Z) (w w' : World L) : Prop := mkSwapped {
  sw_orders : orders (ob w') = orders (ob w);
  sw_books : books (ob w') = books (ob w);
  sw_next : next_order_id (ob w') = next_order_id (ob w);
  sw_keys : book_keys (ob w') = book_keys (ob w);
  sw_tip20 : tip20 w' = tip20 w;
  sw_logs : logs w' = logs w;
  sw_balance : forall u t, balance_at (ob w') u t =
    balance_at (ob w) u t + swap_delta taker mk X Y x y u t;
  sw_range : (forall u t, in_u128 (balance_at (ob w) u t)) ->
             forall u t, in_u128 (balance_at (ob w') u t);
  sw_total : forall t, token_total (ob w') t = token_total (ob w) t
}.

Lemma swap_Ok taker mk X Y x y w r w' :
  0 <= x -> 0 <= y -> swap taker mk X Y x y w = Ok (r, w') -> Swapped taker mk X Y x y w w'.
Proof.
  intros Hx Hy H. unfold swap in H. inv_M H.
  apply decrement_credit in Hm as []; [|done]. apply increment_credit in Hm0 as []; [|done].
  apply decrement_credit in Hm1 as []; [|done]. apply increment_credit in H as []; [|done].
  split; try congruence.
  - intros u t. rewrite cr_balance3, cr_balance2, cr_balance1, cr_balance0. unfold swap_delta.
    destruct (X =? t), (Y =? t), (mk =? u), (taker =? u); cbn; lia.
  - auto.
  - intros t. rewrite cr_total3, cr_total2, cr_total1, cr_total0.
    destruct (X =? t), (Y =? t); lia.
Qed.
End swap.

(** ** The generic loop *)

Section loop.
Context {L : Type}.
Implicit Types (w : World L).

(** [b] is the side of the resting orders: [true] matches bids. *)
Fixpoint match_loop (b : bool) (fuel : nat) (k tid taker limit bs qt rem filled total : Z)
    : M (World L) fault (Z * Z * Z) :=
  match fuel with
  | O => throw OutOfFuel
  | S fuel' =>
      if rem =? 0 then mret (rem, filled, total)
      else
        book ← books_read k;
        if best b book =? 0 then mret (rem, filled, total)
        else
          o ← orders_read (best b book);
          if (if b then price o <? limit else limit <? price o) then mret (rem, filled, total)
          else
            let fill := Z.min rem (quantity o) in
            qa ← lift_option (StorageError under_overflow) (quote_amount fill (price o));
            swap taker (maker o) (if b then bs else qt) (if b then qt else bs)
              (if b then fill else qa) (if b then qa else fill);;
            emit_event (OrderFilled (order_id o) (maker o) taker tid fill (price o));;
            (if fill =? quantity o then remove_order k o
             else orders_write_quantity (best b book) (quantity o - fill));;
            match_loop b fuel' k tid taker limit bs qt (rem - fill) (filled + fill) (total + qa)
  end.

(** Forget the totals of a successful run. *)
Definition remaining_of (r : result fault ((Z * Z * Z) * World L)) : result fault (Z * World L) :=
  match r with
  | Ok ((rem, _, _), w) => Ok (rem, w)
  | Err e => Err e
  end.

(** Two runs agree when both succeed; fuel runs out in both or neither. *)
Definition totals_agree (r : result fault ((Z * Z) * World L))
    (g : result fault ((Z * Z * Z) * World L)) : Prop :=
  match r with
  | Ok ((f, t), w) => exists rem, g = Ok ((rem, f, t), w)
  | Err OutOfFuel => g = Err OutOfFuel
  | Err _ => True
  end.

Ltac step_bind :=
  match goal with
  | |- context [match ?m ?w with Ok _ => _ | Err _ => _ end] =>
      lazymatch m with
      | context [match_loop] => fail
      | _ => destruct (m w) as [[[] ?]|?]
      end
  end.

(** Opens one iteration of a matching loop and of [match_loop] together. *)
Ltac open_iteration side :=
  rewrite !bind_books_read; cbn [best]; destruct (side _ =? 0); [solve [done | by eexists]|];
  rewrite ?bind_orders_read; match goal with |- context [if ?a <? ?b then _ else _] =>
    destruct (a <? b); [solve [done | by eexists]|] end;
  destruct (quote_amount _ _) as [qa|]; [|done]; cbn [lift_option];
  unfold swap, mbind, M_bind, mret, M_ret; cbv beta iota.

Lemma cross_asks_match_loop fuel k tid taker limit rem bs qt w f t :
  cross_asks fuel k tid taker limit rem bs qt w =
  remaining_of (match_loop false fuel k tid taker limit bs qt rem f t w).
Proof.
  revert rem w f t. induction fuel as [|fuel IH]; intros rem w f t; [done|].
  cbn [cross_asks match_loop]. destruct (rem =? 0); [done|].
  open_iteration best_ask_id. repeat (step_bind; [|done]). apply IH.
Qed.

Lemma cross_bids_match_loop fuel k tid taker limit rem bs qt w f t :
  cross_bids fuel k tid taker limit rem bs qt w =
  remaining_of (match_loop true fuel k tid taker limit bs qt rem f t w).
Proof.
  revert rem w f t. induction fuel as [|fuel IH]; intros rem w f t; [done|].
  cbn [cross_bids match_loop]. destruct (rem =? 0); [done|].
  open_iteration best_bid_id. repeat (step_bind; [|done]). apply IH.
Qed.

Lemma fill_asks_match_loop fuel k tid taker limit rem bs qt w f t :
  totals_agree (fill_asks_loop fuel k tid taker bs qt rem limit f t w)
    (match_loop false fuel k tid taker limit bs qt rem f t w).
Proof.
  revert rem w f t. induction fuel as [|fuel IH]; intros rem w f t; [done|].
  cbn [fill_asks_loop match_loop]. destruct (rem =? 0); [by eexists|].
  open_iteration best_ask_id.
  repeat (step_bind; [|by destruct e as [| |[]|]]). cbn [lift_option].
  destruct (checked_add U128_MAX t qa) as [t'|] eqn:Et; [|done].
  apply checked_add_Some in Et as [-> _]. cbn [lift_option]. unfold mret, M_ret.
  repeat (step_bind; [|by destruct e as [| |[]|]]). apply IH.
Qed.

Lemma fill_bids_match_loop fuel k tid taker limit rem bs qt w f t :
  totals_agree (fill_bids_loop fuel k tid taker bs qt rem limit f t w)
    (match_loop true fuel k tid taker limit bs qt rem f t w).
Proof.
  revert rem w f t. induction fuel as [|fuel IH]; intros rem w f t; [done|].
  cbn [fill_bids_loop match_loop]. destruct (rem =? 0); [by eexists|].
  open_iteration best_bid_id.
  repeat (step_bind; [|by destruct e as [| |[]|]]). cbn [lift_option].
  destruct (checked_add U128_MAX t qa) as [t'|] eqn:Et; [|done].
  apply checked_add_Some in Et as [-> _]. cbn [lift_option]. unfold mret, M_ret.
  repeat (step_bind; [|by destruct e as [| |[]|]]). apply IH.
Qed.
End loop.

(** ** Abstract matching *)

Definition crosses (b : bool) (limit : Z) (e : Entry) : bool :=
  if b then limit <=? e_price e else e_price e <=? limit.

(** The queue after [f] of its head entry [e] has been filled. *)
Definition rest (e : Entry) (f : Z) (l : list Entry) : list Entry :=
  if f =? e_qty e then l else mkEntry (e_id e) (e_maker e) (e_price e) (e_qty e - f) :: l.

(** Fill [rem] from the front of the queue while the price limit allows:
    the queue left, the quantity left, and the fills made, in order. *)
Fixpoint amatch (b : bool) (limit rem : Z) (l : list Entry) : list Entry * Z * list (Entry * Z) :=
  match l with
  | [] => ([], rem, [])
  | e :: l' =>
      if (rem =? 0) || negb (crosses b limit e) then (l, rem, [])
      else if e_qty e <=? rem then
        let '(l2, r, fs) := amatch b limit (rem - e_qty e) l' in (l2, r, (e, e_qty e) :: fs)
      else (rest e rem l', 0, [(e, rem)])
  end.

Definition fill_event (tid taker : Z) (ef : Entry * Z) : Event :=
  OrderFilled (e_id ef.1) (e_maker ef.1) taker tid ef.2 (e_price ef.1).

Definition fill_quote (ef : Entry * Z) : Z := floor_quote ef.2 (e_price ef.1).

(** What the taker must still be able to pay for [rem] at the limit. *)
Definition need (b : bool) (rem limit : Z) : Z := if b then rem else ceil_quote rem limit.

Lemma elem_of_rest e f l x :
  0 < f <= e_qty e -> e_qty e <= U128_MAX -> x ∈ rest e f l ->
  exists c, c ∈ e :: l /\ e_id x = e_id c /\ e_price x = e_price c /\
            e_maker x = e_maker c /\ (entry_ok c -> entry_ok x).
Proof.
  intros Hf Hm. unfold rest. destruct (Z.eqb_spec f (e_qty e)); intros Hx.
  - exists x. split; [by right | done].
  - apply elem_of_cons in Hx as [->|Hx]; [|exists x; split; [by right | done]].
    exists e. split; [left|]. cbn. repeat split; unfold entry_ok in *; cbn; lia.
Qed.

Lemma rest_sorted b e f l :
  StronglySorted (ahead b) (e :: l) -> StronglySorted (ahead b) (rest e f l).
Proof.
  unfold rest. intros Hs. case_match; inversion_clear Hs as [|? ? Hs' Hall]; [done|].
  constructor; [done|]. eapply Forall_impl; [exact Hall|]. intros c [Hc|Hc]; [left|right].
  - by destruct b.
  - done.
Qed.

Lemma side_reserve_rest b u e f l :
  0 < f <= e_qty e -> 0 <= e_price e ->
  side_reserve b u (rest e f l) <= side_reserve b u (e :: l) +
    (if e_maker e =? u then - (if b then floor_quote f (e_price e) else f) else 0).
Proof.
  intros Hf Hp. unfold rest, side_reserve. rewrite (sumZ_cons _ e).
  pose proof (ceil_quote_split f (e_qty e) (e_price e) (e_price e) ltac:(lia) ltac:(lia)) as Hc.
  destruct (Z.eqb_spec f (e_qty e)) as [->|].
  - rewrite Z.sub_diag, ceil_quote_0 in Hc. unfold entry_reserve. destruct b, (e_maker e =? u); lia.
  - rewrite sumZ_cons. unfold entry_reserve. cbn [e_maker e_qty e_price].
    destruct b, (e_maker e =? u); lia.
Qed.

(** ** One fill preserves the invariant *)

Section preservation.
Context {L : Type} (keccak256 : list Z -> Z) (is_tip20 : Z -> Prop).
Implicit Types (w : World L).
Abbreviation Inv := (Inv keccak256 is_tip20).

(** What matching never changes. *)
Record Kept (w w' : World L) : Prop := mkKept {
  kp_next : next_order_id (ob w') = next_order_id (ob w);
  kp_keys : book_keys (ob w') = book_keys (ob w);
  kp_tokens : forall k, base (book_at (ob w') k) = base (book_at (ob w) k) /\
                        quote (book_at (ob w') k) = quote (book_at (ob w) k);
  kp_tip20 : tip20 w' = tip20 w;
  kp_total : forall t, token_total (ob w') t = token_total (ob w) t
}.

Lemma Kept_refl w : Kept w w.
Proof. by split. Qed.

Lemma Kept_trans w1 w2 w3 : Kept w1 w2 -> Kept w2 w3 -> Kept w1 w3.
Proof.
  intros [a1 b1 c1 d1 e1] [a2 b2 c2 d2 e2]. split; try congruence.
  intros k. destruct (c1 k), (c2 k). split; congruence.
Qed.

Lemma swapped_frame_kept taker mk X Y x y w w1 w1' w2 :
  Swapped taker mk X Y x y w w1 -> ob w1' = ob w1 -> tip20 w1' = tip20 w1 ->
  Frame w1' w2 -> Kept w w2.
Proof.
  intros S Eob Etip F.
  destruct S as [So Sb Sn Sk St Sl Sbal Srg Stot].
  destruct F as [Fb Fn Fk Ft Ftip Fl]. rewrite Eob in *. split; try congruence.
  - intros k'. destruct (Ft k') as [-> ->]. unfold book_at. by rewrite Sb.
  - intros t. rewrite <- Stot. unfold token_total. by rewrite Fb.
Qed.

Lemma fill_solvent w w1 w1' w2 (B : Queues) k (b : bool) e l taker f bs qt u t :
  let X := if b then bs else qt in let Y := if b then qt else bs in
  let qa := floor_quote f (e_price e) in
  let x := if b then f else qa in let y := if b then qa else f in
  Inv (ob w) B -> B k b = e :: l -> 0 < f <= e_qty e ->
  base (book_at (ob w) k) = bs -> quote (book_at (ob w) k) = qt ->
  Swapped taker (e_maker e) X Y x y w w1 -> ob w1' = ob w1 -> Frame w1' w2 ->
  reserve (ob w) B taker X + x <= balance_at (ob w) taker X ->
  reserve (ob w2) (upd_queue B k b (rest e f l)) u t <= balance_at (ob w2) u t.
Proof.
  intros X Y qa x y I EB Hf Hbs Hqt S Eob F Hfund.
  assert (He : e ∈ B k b) by (rewrite EB; left).
  assert (Hk : k ∈ book_keys (ob w)) by exact (inv_live _ _ _ _ I _ _ _ He).
  destruct (inv_entry _ _ _ _ I _ _ _ He) as [Hq Hp].
  destruct (inv_pair _ _ _ _ I _ Hk) as (_ & Hne & _). rewrite Hbs, Hqt in Hne.
  pose proof (floor_quote_nonneg f (e_price e) ltac:(lia) ltac:(lia)) as Hqa.
  rewrite (reserve_upd (ob w) (ob w2) B k b _ u t); [|apply I|done| |].
  - assert (HY : pay_token b (book_at (ob w) k) = Y).
    { unfold pay_token, Y. destruct b; congruence. }
    rewrite HY, EB. unfold balance_at at 1. rewrite (fr_balances _ _ F), Eob.
    fold (balance_at (ob w1) u t). rewrite (sw_balance _ _ _ _ _ _ _ _ S).
    pose proof (inv_solvent _ _ _ _ I u t) as Hs.
    pose proof (side_reserve_rest b u e f l Hf ltac:(lia)) as Hr.
    unfold swap_delta. fold qa in Hr.
    assert (HXY : X <> Y) by (unfold X, Y; destruct b; congruence).
    destruct (Z.eqb_spec Y t) as [<-|].
    + destruct (Z.eqb_spec X Y); [done|].
      unfold y. destruct (e_maker e =? u), (taker =? u), b; lia.
    + destruct (Z.eqb_spec X t) as [<-|]; [|lia].
      destruct (Z.eqb_spec taker u) as [<-|]; destruct (e_maker e =? _), b; unfold x in *; lia.
  - rewrite (fr_keys _ _ F), Eob. apply (sw_keys _ _ _ _ _ _ _ _ S).
  - intros k'. destruct (fr_tokens _ _ F k') as [-> ->]. rewrite Eob.
    unfold book_at. by rewrite (sw_books _ _ _ _ _ _ _ _ S).
Qed.

Lemma fill_inv w w1 w1' w2 (B : Queues) k (b : bool) e l taker f bs qt :
  let X := if b then bs else qt in let Y := if b then qt else bs in
  let qa := floor_quote f (e_price e) in
  let x := if b then f else qa in let y := if b then qa else f in
  Inv (ob w) B -> B k b = e :: l -> 0 < f <= e_qty e ->
  base (book_at (ob w) k) = bs -> quote (book_at (ob w) k) = qt ->
  Swapped taker (e_maker e) X Y x y w w1 -> ob w1' = ob w1 -> tip20 w1' = tip20 w1 ->
  Frame w1' w2 ->
  reserve (ob w) B taker X + x <= balance_at (ob w) taker X ->
  Rep (ob w2) (upd_queue B k b (rest e f l)) ->
  Inv (ob w2) (upd_queue B k b (rest e f l)).
Proof.
  intros X Y qa x y I EB Hf Hbs Hqt S Eob Etip F Hfund R.
  pose proof (swapped_frame_kept _ _ _ _ _ _ _ _ _ _ S Eob Etip F) as [Kn Kk Kt _ _].
  assert (He : e ∈ B k b) by (rewrite EB; left).
  destruct (inv_entry _ _ _ _ I _ _ _ He) as [Hq _].
  assert (Hfrom : forall k' b' x', x' ∈ upd_queue B k b (rest e f l) k' b' ->
    exists c, c ∈ B k' b' /\ e_id x' = e_id c /\ e_price x' = e_price c /\
              (entry_ok c -> entry_ok x')).
  { intros k' b' x'. destruct (decide (k = k' /\ b = b')) as [[<- <-]|Hne].
    - rewrite upd_queue_eq, EB. intros (c & ? & ? & ? & _ & ?)%elem_of_rest; [|lia..]. by exists c.
    - rewrite upd_queue_ne by done. intros Hx. by exists x'. }
  split; [done|..].
  - intros k' b' c (c' & Hc & _ & _ & Hok)%Hfrom. apply Hok. by apply (inv_entry _ _ _ _ I k' b').
  - intros k' b'. destruct (decide (k = k' /\ b = b')) as [[<- <-]|Hne].
    + rewrite upd_queue_eq. apply rest_sorted. rewrite <- EB. apply I.
    + rewrite upd_queue_ne by done. apply I.
  - intros k' b' c (c' & Hc & -> & _)%Hfrom. rewrite Kn. by apply (inv_ids _ _ _ _ I k' b').
  - rewrite Kk. apply I.
  - intros k'. rewrite Kk. destruct (Kt k') as [-> _]. apply I.
  - intros k' b' c (c' & Hc & _)%Hfrom. rewrite Kk. by apply (inv_live _ _ _ _ I k' b' c').
  - intros k'. rewrite Kk. destruct (Kt k') as [-> ->]. apply I.
  - intros u t. unfold balance_at. rewrite (fr_balances _ _ F), Eob.
    apply (sw_range _ _ _ _ _ _ _ _ S). apply I.
  - intros u t. by eapply (fill_solvent w w1 w1' w2).
  - intros k' c d (c' & Hc & _ & -> & _)%Hfrom (d' & Hd & _ & -> & _)%Hfrom.
    by apply (inv_uncrossed _ _ _ _ I k').
Qed.

(** The taker stays able to pay for what is left. *)
Lemma need_split b rem f p limit :
  0 <= f <= rem -> 0 <= p -> crosses b limit (mkEntry 0 0 p 0) = true ->
  need b (rem - f) limit + (if b then f else floor_quote f p) <= need b rem limit.
Proof.
  intros Hf Hp Hc. unfold crosses in Hc. destruct b; cbn in *; [lia|]. bool_lia.
  pose proof (ceil_quote_split f rem p limit ltac:(lia) ltac:(lia)). lia.
Qed.

Lemma fund_step w w1 w1' w2 (B : Queues) k (b : bool) e l taker f bs qt rem limit :
  let X := if b then bs else qt in let Y := if b then qt else bs in
  let qa := floor_quote f (e_price e) in
  let x := if b then f else qa in let y := if b then qa else f in
  Inv (ob w) B -> B k b = e :: l -> 0 <= f <= rem ->
  base (book_at (ob w) k) = bs -> quote (book_at (ob w) k) = qt ->
  crosses b limit e = true ->
  Swapped taker (e_maker e) X Y x y w w1 -> ob w1' = ob w1 -> Frame w1' w2 ->
  reserve (ob w) B taker X + need b rem limit <= balance_at (ob w) taker X ->
  reserve (ob w2) (upd_queue B k b (rest e f l)) taker X + need b (rem - f) limit
    <= balance_at (ob w2) taker X.
Proof.
  intros X Y qa x y I EB Hf Hbs Hqt Hc S Eob F Hfund.
  assert (He : e ∈ B k b) by (rewrite EB; left).
  assert (Hk : k ∈ book_keys (ob w)) by exact (inv_live _ _ _ _ I _ _ _ He).
  destruct (inv_entry _ _ _ _ I _ _ _ He) as [Hq Hp].
  destruct (inv_pair _ _ _ _ I _ Hk) as (_ & Hne & _). rewrite Hbs, Hqt in Hne.
  pose proof (need_split b rem f (e_price e) limit Hf ltac:(lia) Hc) as Hn.
  pose proof (floor_quote_nonneg f (e_price e) ltac:(lia) ltac:(lia)) as Hqa.
  rewrite (reserve_upd (ob w) (ob w2) B k b _ taker X); [|apply I|done| |].
  - assert (HY : (pay_token b (book_at (ob w) k) =? X) = false).
    { apply Z.eqb_neq. unfold pay_token, X. destruct b; congruence. }
    rewrite HY. unfold balance_at at 1. rewrite (fr_balances _ _ F), Eob.
    fold (balance_at (ob w1) taker X). rewrite (sw_balance _ _ _ _ _ _ _ _ S).
    assert (HYX : (Y =? X) = false) by (apply Z.eqb_neq; unfold X, Y; destruct b; congruence).
    unfold swap_delta. rewrite !Z.eqb_refl, HYX. unfold x, qa in *.
    destruct (e_maker e =? taker), b; lia.
  - rewrite (fr_keys _ _ F), Eob. apply (sw_keys _ _ _ _ _ _ _ _ S).
  - intros k'. destruct (fr_tokens _ _ F k') as [-> ->]. rewrite Eob.
    unfold book_at. by rewrite (sw_books _ _ _ _ _ _ _ _ S).
Qed.

(** ** The queue update of one fill *)

Lemma Rep_ext s s' B : orders s' = orders s -> books s' = books s -> Rep s B -> Rep s' B.
Proof.
  intros Eo Eb R. split.
  - rewrite Eo. apply R.
  - intros k b. unfold book_at. rewrite Eb. apply (rep_head _ _ R).
  - apply R.
  - apply R.
  - rewrite Eo. apply R.
Qed.

Lemma fill_queue_refines w B k b e l f :
  Rep (ob w) B -> B k b = e :: l ->
  exists w', (if f =? e_qty e then remove_order k (concr k b e 0 (hd_id 0 l))
              else orders_write_quantity (e_id e) (e_qty e - f)) w = Ok (tt, w') /\
    Rep (ob w') (upd_queue B k b (rest e f l)) /\ Frame w w'.
Proof.
  intros R EB. unfold rest. case_match.
  - by apply (remove_order_refines k b e [] l).
  - by apply write_quantity_refines.
Qed.

Lemma swap_Err taker mk X Y x y w e :
  swap (L := L) taker mk X Y x y w = Err e -> e = StorageError under_overflow.
Proof.
  unfold swap, increment_balance, decrement_balance, set_balance, balance_of, upd_ob,
    mbind, M_bind, get, modify, lift_option, throw, mret, M_ret. cbv beta iota.
  repeat case_match; by naive_solver.
Qed.

Lemma amatch_0 b limit l : amatch b limit 0 l = (l, 0, []).
Proof. by destruct l. Qed.

(** ** The loop refines abstract matching *)

(** What a successful run from [w] with queues [B] leaves behind. *)
Record LoopPost (b : bool) (k tid taker limit X rem : Z) (w : World L) (B : Queues)
    (rem' filled quote : Z) (w' : World L) (B' : Queues) (fs : list (Entry * Z)) : Prop := mkLoopPost {
  lp_match : amatch b limit rem (B k b) = (B' k b, rem', fs);
  lp_others : forall k' b', ~ (k = k' /\ b = b') -> B' k' b' = B k' b';
  lp_inv : Inv (ob w') B';
  lp_rem : 0 <= rem' <= rem;
  lp_filled : filled = rem - rem';
  lp_quote : quote = sumZ fill_quote fs;
  lp_logs : logs w' = logs w ++ (fill_event tid taker <$> fs);
  lp_kept : Kept w w';
  lp_fund : reserve (ob w') B' taker X + need b rem' limit <= balance_at (ob w') taker X
}.

(** The loop stops at once. *)
Lemma loop_post_stop (b : bool) k tid taker limit X rem w B :
  Inv (ob w) B -> 0 <= rem ->
  reserve (ob w) B taker X + need b rem limit <= balance_at (ob w) taker X ->
  amatch b limit rem (B k b) = (B k b, rem, []) ->
  LoopPost b k tid taker limit X rem w B rem 0 0 w B [].
Proof.
  intros I Hr Hf Hm. split; try done; try lia; [cbn; by rewrite app_nil_r].
Qed.

(** One fill, then the rest of the loop. *)
Lemma loop_post_step (b : bool) k tid taker limit bs qt w w1 w2 (B : Queues) e l rem f rem' fd q w' B' fs :
  let X := if b then bs else qt in
  B k b = e :: l -> f = Z.min rem (e_qty e) -> 0 < f -> rem <> 0 -> crosses b limit e = true ->
  logs w2 = logs w ++ [fill_event tid taker (e, f)] -> Kept w w2 ->
  LoopPost b k tid taker limit X (rem - f) w2 (upd_queue B k b (rest e f l)) rem' fd q w' B' fs ->
  LoopPost b k tid taker limit X rem w B rem' (f + fd) (floor_quote f (e_price e) + q) w' B'
    ((e, f) :: fs).
Proof.
  intros X EB Ef Hf Hrem Hc Hlog K [Pm Po Pi Pr Pf Pq Pl Pk Pfund].
  rewrite upd_queue_eq in Pm. split; try done; try lia.
  - rewrite EB. cbn [amatch]. rewrite (proj2 (Z.eqb_neq rem 0)), Hc by done. cbn [orb negb].
    unfold rest in Pm. destruct (Z.leb_spec (e_qty e) rem).
    + replace f with (e_qty e) in * by lia. rewrite Z.eqb_refl in Pm. by rewrite Pm.
    + replace f with rem in * by lia. rewrite Z.sub_diag, amatch_0 in Pm.
      injection Pm as <- <- <-. done.
  - intros k' b' Hne. rewrite Po by done. by rewrite upd_queue_ne.
  - rewrite sumZ_cons. unfold fill_quote at 1. cbn. lia.
  - rewrite Pl, Hlog, <- app_assoc. done.
  - by eapply Kept_trans.
Qed.

(** The price test of the loop is [crosses]. *)
Lemma price_test (b : bool) limit e :
  (if b then e_price e <? limit else limit <? e_price e) = negb (crosses b limit e).
Proof.
  unfold crosses. destruct b; rewrite Z.leb_antisym; by rewrite negb_involutive.
Qed.

(** Unfolding of the loop at a queue whose head is [e]. *)
Lemma match_loop_head (b : bool) fuel k tid taker limit bs qt rem filled total w (B : Queues) e l :
  Rep (ob w) B -> B k b = e :: l -> rem <> 0 ->
  match_loop b (S fuel) k tid taker limit bs qt rem filled total w =
  if negb (crosses b limit e) then Ok ((rem, filled, total), w)
  else
    let f := Z.min rem (e_qty e) in
    match quote_amount f (e_price e) with
    | None => Err (StorageError under_overflow)
    | Some qa =>
        match swap taker (e_maker e) (if b then bs else qt) (if b then qt else bs)
                (if b then f else qa) (if b then qa else f) w with
        | Err err => Err err
        | Ok (_, w1) =>
            (((if f =? e_qty e then remove_order k (concr k b e 0 (hd_id 0 l))
              else orders_write_quantity (e_id e) (e_qty e - f));;
             match_loop b fuel k tid taker limit bs qt (rem - f) (filled + f) (total + qa)))
              (mkWorld (ob w1) (tip20 w1) (logs w1 ++ [fill_event tid taker (e, f)]))
        end
    end.
Proof.
  intros R EB Hr. pose proof (rep_seg _ _ R k b) as Hseg. rewrite EB in Hseg.
  assert (He : 0 < e_id e) by (apply (rep_pos _ _ R k b); rewrite EB; left).
  cbn [match_loop]. rewrite (proj2 (Z.eqb_neq rem 0)) by done.
  rewrite bind_books_read, (rep_head _ _ R k b), EB. cbn [hd_id].
  rewrite (proj2 (Z.eqb_neq (e_id e) 0)) by lia.
  rewrite bind_orders_read, (seg_cons_at _ _ _ _ _ _ _ Hseg).
  cbn [price quantity maker concr order_id]. rewrite price_test.
  destruct (crosses b limit e); cbn [negb]; [|done].
  destruct (quote_amount _ _) as [qa|]; [|done]. cbn [lift_option].
  rewrite (bind_eq_Ok _ _ _ _ _ eq_refl). unfold mbind at 1, M_bind at 1.
  by destruct (swap _ _ _ _ _ _ w) as [[[] w1]|err].
Qed.

(** Everything one iteration establishes once its exchange succeeded. *)
Lemma fill_step (b : bool) k tid taker limit bs qt w w1 (B : Queues) e l rem f :
  let X := if b then bs else qt in
  let qa := floor_quote f (e_price e) in
  Inv (ob w) B -> B k b = e :: l -> base (book_at (ob w) k) = bs -> quote (book_at (ob w) k) = qt ->
  f = Z.min rem (e_qty e) -> 0 < rem -> crosses b limit e = true ->
  reserve (ob w) B taker X + need b rem limit <= balance_at (ob w) taker X ->
  swap taker (e_maker e) X (if b then qt else bs) (if b then f else qa) (if b then qa else f) w
    = Ok (tt, w1) ->
  exists w2,
    (if f =? e_qty e then remove_order k (concr k b e 0 (hd_id 0 l))
     else orders_write_quantity (e_id e) (e_qty e - f))
      (mkWorld (ob w1) (tip20 w1) (logs w1 ++ [fill_event tid taker (e, f)])) = Ok (tt, w2) /\
    Inv (ob w2) (upd_queue B k b (rest e f l)) /\ Kept w w2 /\
    logs w2 = logs w ++ [fill_event tid taker (e, f)] /\
    reserve (ob w2) (upd_queue B k b (rest e f l)) taker X + need b (rem - f) limit
      <= balance_at (ob w2) taker X.
Proof.
  intros X qa I EB Hbs Hqt Ef Hrem Hc Hfund Esw.
  assert (He : e ∈ B k b) by (rewrite EB; left).
  destruct (inv_entry _ _ _ _ I _ _ _ He) as [Hq Hp].
  pose proof (floor_quote_nonneg f (e_price e) ltac:(lia) ltac:(lia)) as Hqa.
  apply swap_Ok in Esw as S; [|destruct b; unfold qa; lia..].
  set (w1' := mkWorld _ _ _).
  destruct (fill_queue_refines w1' B k b e l f) as (w2 & E2 & R2 & F); [|done|].
  { apply (Rep_ext (ob w)); [apply S..|apply I]. }
  exists w2. split; [done|].
  pose proof (need_split b rem f (e_price e) limit ltac:(lia) ltac:(lia) Hc) as Hn.
  assert (Hn0 : 0 <= need b (rem - f) limit).
  { unfold need, crosses in *. destruct b; [lia|]. bool_lia. apply ceil_quote_nonneg; lia. }
  split; [|split; [|split]].
  - eapply (fill_inv w w1 w1' w2); try done; [lia|]. unfold X, qa in *. lia.
  - exact (swapped_frame_kept _ _ _ _ _ _ _ _ w1' _ S eq_refl eq_refl F).
  - rewrite (fr_logs _ _ F). cbn. by rewrite (sw_logs _ _ _ _ _ _ _ _ S).
  - eapply (fund_step w w1 w1' w2); try done. lia.
Qed.

(** The loop, run with enough fuel from a state satisfying the invariant in
    which the taker can pay, either fails with a storage error or refines
    abstract matching. *)
Lemma match_loop_spec (b : bool) k tid taker limit bs qt fuel w B rem filled total :
  let X := if b then bs else qt in
  Inv (ob w) B -> base (book_at (ob w) k) = bs -> quote (book_at (ob w) k) = qt ->
  in_u128 rem -> (0 < fuel)%nat -> (rem <> 0 -> (length (B k b) < fuel)%nat) ->
  reserve (ob w) B taker X + need b rem limit <= balance_at (ob w) taker X ->
  match match_loop b fuel k tid taker limit bs qt rem filled total w with
  | Ok ((rem', filled', total'), w') =>
      exists B' fs, LoopPost b k tid taker limit X rem w B rem'
                      (filled' - filled) (total' - total) w' B' fs
  | Err e => e = StorageError under_overflow
  end.
Proof.
  intros X. revert w B rem filled total. induction fuel as [|fuel IH];
    intros w B rem filled total I Hbs Hqt Hrem Hf0 Hfuel Hfund; [lia|].
  pose proof (inv_rep _ _ _ _ I) as R. unfold in_u128 in Hrem.
  assert (Hstop : amatch b limit rem (B k b) = (B k b, rem, []) ->
    exists B' fs, LoopPost b k tid taker limit X rem w B rem (filled - filled) (total - total) w B' fs).
  { intros Hm. exists B, []. rewrite !Z.sub_diag. apply loop_post_stop; [done|lia|done|done]. }
  destruct (Z.eq_dec rem 0) as [->|Hr0]; [cbn; apply Hstop, amatch_0|].
  destruct (B k b) as [|e l] eqn:EB.
  { cbn [match_loop]. rewrite (proj2 (Z.eqb_neq rem 0)) by done.
    rewrite bind_books_read, (rep_head _ _ R k b), EB. by apply Hstop. }
  rewrite (match_loop_head _ _ _ _ _ _ _ _ _ _ _ _ B e l) by done.
  destruct (crosses b limit e) eqn:Hc; cbn [negb];
    [clear Hstop|by apply Hstop; cbn; rewrite Hc, orb_true_r].
  destruct (inv_entry _ _ _ _ I k b e ltac:(rewrite EB; left)) as [Hq Hp].
  set (f := Z.min rem (e_qty e)). cbv zeta.
  destruct (quote_amount f (e_price e)) as [qa|] eqn:Eqa; [|done].
  apply quote_amount_Some in Eqa as [-> Hqa]; [|unfold in_u128; lia..].
  destruct (swap _ _ _ _ _ _ w) as [[[] w1]|err] eqn:Esw; [|by apply swap_Err in Esw].
  destruct (fill_step b k tid taker limit bs qt w w1 B e l rem f)
    as (w2 & E2 & I2 & K & Elog & Hfund2); try done; [lia|].
  rewrite (bind_eq_Ok _ _ _ _ _ E2). destruct (kp_tokens _ _ K k) as [Hb2 Hq2].
  assert (Hfuel2 : rem - f <> 0 -> (length (upd_queue B k b (rest e f l) k b) < fuel)%nat).
  { intros Hne. rewrite upd_queue_eq. unfold rest. cbn in Hfuel.
    rewrite (proj2 (Z.eqb_eq f (e_qty e))) by lia. lia. }
  specialize (IH w2 (upd_queue B k b (rest e f l)) (rem - f) (filled + f)
                (total + floor_quote f (e_price e)) I2 ltac:(congruence) ltac:(congruence)
                ltac:(unfold in_u128; lia) ltac:(cbn in Hfuel; lia) Hfuel2 Hfund2).
  destruct (match_loop _ _ _ _ _ _ _ _ _ _ _ w2) as [[[[rem' fd] tt'] w']|err]; [|done].
  destruct IH as (B' & fs & P). exists B', ((e, f) :: fs).
  replace (fd - filled) with (f + (fd - (filled + f))) by lia.
  replace (tt' - total) with
    (floor_quote f (e_price e) + (tt' - (total + floor_quote f (e_price e)))) by lia.
  eapply loop_post_step; try done. lia.
Qed.
End preservation.
