(* ===== verification/OrderbookFunding.v ===== *)
(** * Reserved and available balances

    [reserved_balance_of] walks every queue of every book.  In a state that
    satisfies the invariant the walk terminates, never overflows, and
    returns exactly the sum of the reserves of the account's resting
    orders; [ensure_internal_balance] leaves the account able to pay. *)

From S2P Require Import Prelude.
From S2P Require Import OrderbookModel.
From S2P Require Import OrderbookArith.
From S2P Require Import OrderbookRep.
From S2P Require Import OrderbookInv.
From S2P Require Import OrderbookMatching.
#[local] Open Scope Z_scope.

Section walks.
Context {L : Type} (keccak256 : list Z -> Z) (is_tip20 : Z -> Prop).
Implicit Types (w : World L).
Abbreviation Inv := (Inv keccak256 is_tip20).

Lemma accumulate_loop_spec b k u w l : forall fuel p reserved,
  seg (orders (ob w)) k b p l 0 -> (forall x, x ∈ l -> 0 < e_id x /\ entry_ok x) ->
  (length l < fuel)%nat -> 0 <= reserved -> reserved + side_reserve b u l <= U128_MAX ->
  accumulate_loop fuel (hd_id 0 l) u b reserved w = Ok (reserved + side_reserve b u l, w).
Proof.
  induction l as [|e l IH]; intros fuel p reserved Hseg Hok Hf H0 Hmax;
    (destruct fuel as [|fuel]; [cbn in Hf; lia|]); cbn [accumulate_loop hd_id].
  { cbn. by rewrite Z.add_0_r. }
  destruct (Hok e ltac:(left)) as [Hid He]. pose proof (entry_reserve_nonneg b e He) as Hr.
  assert (Hl : 0 <= side_reserve b u l).
  { apply side_reserve_nonneg, Forall_forall. intros x Hx. apply Hok. by right. }
  rewrite (proj2 (Z.eqb_neq (e_id e) 0)) by lia.
  rewrite bind_orders_read, (seg_cons_at _ _ _ _ _ _ _ Hseg).
  unfold side_reserve in *. rewrite sumZ_cons in *. cbn [maker quantity price next concr].
  revert Hmax. destruct (e_maker e =? u); intros Hmax; cbv iota in Hmax |- *.
  - assert (Ham : (if b then lift_option (StorageError under_overflow)
                               (bid_escrow (e_qty e) (e_price e))
                   else mret (e_qty e)) w = Ok (entry_reserve b e, w)).
    { destruct b; [|done]. unfold entry_reserve in *. destruct He as [Hq Hp].
      assert (Hq' : in_u128 (e_qty e)) by (split; lia).
      assert (Hp' : in_u128 (e_price e)) by (split; lia).
      rewrite (proj2 (bid_escrow_Some _ _ (ceil_quote (e_qty e) (e_price e)) Hq' Hp')); [done|].
      repeat split; lia. }
    rewrite bind_assoc, (bind_eq_Ok _ _ _ _ _ Ham).
    assert (Hadd : checked_add U128_MAX reserved (entry_reserve b e) =
                   Some (reserved + entry_reserve b e)) by (apply checked_add_Some; lia).
    rewrite Hadd.
    cbn [lift_option]. rewrite (bind_eq_Ok _ _ _ _ _ eq_refl).
    rewrite (IH fuel (e_id e)); [f_equal; f_equal; lia|apply Hseg| |cbn in Hf; lia|lia|lia].
    intros x Hx. apply Hok. by right.
  - rewrite (bind_eq_Ok _ _ _ _ _ eq_refl).
    rewrite (IH fuel (e_id e)); [f_equal; f_equal; lia|apply Hseg| |cbn in Hf; lia|lia|lia].
    intros x Hx. apply Hok. by right.
Qed.

Lemma accumulate_side_spec b k u t w B reserved :
  Inv (ob w) B -> 0 <= reserved ->
  let r := if pay_token b (book_at (ob w) k) =? t then side_reserve b u (B k b) else 0 in
  reserved + r <= U128_MAX ->
  accumulate_reserved_side (best b (book_at (ob w) k)) u t b (pay_token b (book_at (ob w) k))
    reserved w = Ok (reserved + r, w).
Proof.
  intros I H0 r Hmax. unfold accumulate_reserved_side, r in *. rewrite Z.eqb_sym.
  pose proof (inv_rep _ _ _ _ I) as R.
  destruct (pay_token b (book_at (ob w) k) =? t); cbn [negb]; [|by rewrite Z.add_0_r].
  rewrite bind_loop_fuel, (rep_head _ _ R k b).
  apply (accumulate_loop_spec b k u w (B k b) _ 0); [apply R| |  |done|done].
  - intros x Hx. split; [by apply (rep_pos _ _ R k b) | by apply (inv_entry _ _ _ _ I k b)].
  - pose proof (seg_length _ _ _ _ _ _ (rep_nodup _ _ R k b) (rep_seg _ _ R k b)). lia.
Qed.

Lemma reserved_loop_spec u t w B keys : forall reserved,
  Inv (ob w) B -> 0 <= reserved ->
  reserved + sumZ (book_reserve (ob w) B u t) keys <= U128_MAX ->
  reserved_loop keys u t reserved w = Ok (reserved + sumZ (book_reserve (ob w) B u t) keys, w).
Proof.
  induction keys as [|k keys IH]; intros reserved I H0 Hmax; cbn [reserved_loop].
  { cbn. by rewrite Z.add_0_r. }
  rewrite sumZ_cons in *.
  assert (Hs : 0 <= sumZ (book_reserve (ob w) B u t) keys)
    by (apply sumZ_nonneg; intros k' _; apply book_reserve_nonneg, I).
  assert (Hside : forall b, 0 <= if pay_token b (book_at (ob w) k) =? t
                                 then side_reserve b u (B k b) else 0).
  { intros b. case_match; [|lia]. apply side_reserve_nonneg, Forall_forall.
    apply (inv_entry _ _ _ _ I). }
  pose proof (Hside true) as Ht. pose proof (Hside false) as Hf.
  rewrite bind_books_read. unfold book_reserve at 1 in Hmax. unfold book_reserve at 1.
  change (best_bid_id (book_at (ob w) k)) with (best true (book_at (ob w) k)).
  change (best_ask_id (book_at (ob w) k)) with (best false (book_at (ob w) k)).
  change (quote (book_at (ob w) k)) with (pay_token true (book_at (ob w) k)) at 1.
  erewrite bind_eq_Ok by (apply (accumulate_side_spec true k u t w B); [done|done|lia]).
  change (base (book_at (ob w) k)) with (pay_token false (book_at (ob w) k)) at 1.
  erewrite bind_eq_Ok by (apply (accumulate_side_spec false k u t w B); [done|lia|lia]).
  rewrite IH; [|done|lia|lia]. f_equal. f_equal. lia.
Qed.

Lemma reserved_balance_of_spec u t w B :
  Inv (ob w) B -> reserved_balance_of u t w = Ok (reserve (ob w) B u t, w).
Proof.
  intros I. unfold reserved_balance_of. rewrite (bind_eq_Ok _ _ _ _ _ eq_refl).
  apply (reserved_loop_spec u t w B (book_keys (ob w)) 0 I); [done|].
  pose proof (inv_solvent _ _ _ _ I u t). destruct (inv_range _ _ _ _ I u t).
  unfold reserve in *. lia.
Qed.

Lemma available_balance_of_spec u t w B :
  Inv (ob w) B ->
  available_balance_of u t w = Ok (balance_at (ob w) u t - reserve (ob w) B u t, w).
Proof.
  intros I. unfold available_balance_of. rewrite (bind_eq_Ok _ _ _ _ _ eq_refl).
  rewrite (bind_eq_Ok _ _ _ _ _ (reserved_balance_of_spec u t w B I)).
  unfold saturating_sub. rewrite Z.max_r; [done|]. pose proof (inv_solvent _ _ _ _ I u t). lia.
Qed.
End walks.

(** ** What the orderbook relies on of the TIP-20 precompile

    [tip20_holdings l t] is the TIP-20 balance of the orderbook's own
    address in token [t].  A TIP-20 address has a fixed nonzero prefix; the
    system transfer pulls the amount from the user to the orderbook; the
    transfer sends it from the orderbook to the recipient. *)
Class Tip20Laws (L : Type) `{Tip20 L} := {
  tip20_holdings : L -> Z -> Z;
  tip20_zero_invalid : is_ok (tip20_from_address 0) = false;
  tip20_pull : forall l token user amount l',
    user <> DARKPOOL_ADDRESS ->
    tip20_system_transfer_from l token DARKPOOL_ADDRESS user amount = Ok l' ->
    forall t, tip20_holdings l' t = tip20_holdings l t + (if token =? t then amount else 0);
  tip20_push : forall l token to amount l',
    to <> DARKPOOL_ADDRESS ->
    tip20_transfer l token DARKPOOL_ADDRESS to amount = Ok l' ->
    forall t, tip20_holdings l' t = tip20_holdings l t - (if token =? t then amount else 0)
}.

Section funding.
Context {L : Type} {T20 : Tip20 L} {T20L : Tip20Laws L} (keccak256 : list Z -> Z) (is_tip20 : Z -> Prop).
Implicit Types (w : World L).
Abbreviation Inv := (Inv keccak256 is_tip20).

(** The orderbook's token holdings in excess of the internal balances. *)
Definition surplus w (t : Z) : Z := tip20_holdings (tip20 w) t - token_total (ob w) t.

Lemma Inv_ledger s s' B :
  Inv s B -> orders s' = orders s -> books s' = books s -> book_keys s' = book_keys s ->
  Z.max (next_order_id s) 1 <= Z.max (next_order_id s') 1 ->
  (forall u t, in_u128 (balance_at s' u t)) ->
  (forall u t, reserve s B u t <= balance_at s' u t) ->
  Inv s' B.
Proof.
  intros I Eo Eb Ek En Hr Hs.
  assert (Hbook : forall k, book_at s' k = book_at s k) by (intros k; unfold book_at; by rewrite Eb).
  split; try apply I.
  - apply (Rep_ext s); [done..|apply I].
  - intros k b e He. pose proof (inv_ids _ _ _ _ I k b e He). lia.
  - rewrite Ek. apply I.
  - intros k. rewrite Ek, Hbook. apply I.
  - intros k b e He. rewrite Ek. by apply (inv_live _ _ _ _ I k b e).
  - intros k. rewrite Ek, Hbook. apply I.
  - done.
  - intros u t. rewrite (reserve_ext s s'); [done|done|]. intros k. by rewrite Hbook.
Qed.

Lemma Inv_credit u t d w w' B :
  Inv (ob w) B -> Credit u t d w w' ->
  reserve (ob w) B u t <= balance_at (ob w) u t + d -> Inv (ob w') B.
Proof.
  intros I C Hd. apply (Inv_ledger (ob w)); try done; try apply C.
  - by rewrite (cr_next _ _ _ _ _ C).
  - apply I.
  - intros u' t'. rewrite (cr_balance _ _ _ _ _ C). pose proof (inv_solvent _ _ _ _ I u' t').
    destruct (Z.eqb_spec u u') as [->|], (Z.eqb_spec t t') as [->|]; cbn; lia.
Qed.

Lemma pull_from_Ok u t a w r w' :
  pull_from u t a w = Ok (r, w') ->
  exists l, tip20_system_transfer_from (tip20 w) t DARKPOOL_ADDRESS u a = Ok l /\
            w' = mkWorld (ob w) l (logs w).
Proof.
  unfold pull_from, mbind, M_bind, lift_tip20, get, modify, throw, mret, M_ret.
  intros Hrun. repeat case_match; simplify_eq. eauto.
Qed.

Lemma pull_from_Err u t a w e : pull_from u t a w = Err e -> e <> OutOfFuel.
Proof.
  unfold pull_from, mbind, M_bind, lift_tip20, get, modify, throw, mret, M_ret.
  intros Hrun. repeat case_match; by simplify_eq.
Qed.

Lemma increment_balance_Err u t a w e :
  increment_balance (L := L) u t a w = Err e -> e = StorageError under_overflow.
Proof.
  unfold increment_balance, set_balance, balance_of, upd_ob,
    mbind, M_bind, get, modify, lift_option, throw, mret, M_ret.
  intros Hrun. repeat case_match; by simplify_eq.
Qed.

Lemma decrement_balance_Err u t a w e :
  decrement_balance (L := L) u t a w = Err e -> e = StorageError under_overflow.
Proof.
  unfold decrement_balance, set_balance, balance_of, upd_ob,
    mbind, M_bind, get, modify, lift_option, throw, mret, M_ret.
  intros Hrun. repeat case_match; by simplify_eq.
Qed.

(** Between [w] and [w'] only the account's balance grew, by [d], against an
    equal growth of the token holdings. *)
Record Funded (u t d : Z) w w' : Prop := mkFunded {
  fd_orders : orders (ob w') = orders (ob w);
  fd_books : books (ob w') = books (ob w);
  fd_next : next_order_id (ob w') = next_order_id (ob w);
  fd_keys : book_keys (ob w') = book_keys (ob w);
  fd_logs : logs w' = logs w;
  fd_balance : forall u' t', balance_at (ob w') u' t' =
    balance_at (ob w) u' t' + (if (u =? u') && (t =? t') then d else 0);
  fd_range : (forall u t, in_u128 (balance_at (ob w) u t)) ->
             forall u t, in_u128 (balance_at (ob w') u t);
  fd_total : forall t', token_total (ob w') t' =
    token_total (ob w) t' + (if t =? t' then d else 0);
  fd_surplus : u <> DARKPOOL_ADDRESS -> forall t', surplus w' t' = surplus w t'
}.

Lemma Inv_funded u t d w w' B : Inv (ob w) B -> 0 <= d -> Funded u t d w w' -> Inv (ob w') B.
Proof.
  intros I Hd F. apply (Inv_ledger (ob w)); try done; try apply F.
  - by rewrite (fd_next _ _ _ _ _ F).
  - apply I.
  - intros u' t'. rewrite (fd_balance _ _ _ _ _ F). pose proof (inv_solvent _ _ _ _ I u' t').
    case_match; lia.
Qed.

Lemma Funded_0 u t w : Funded u t 0 w w.
Proof. split; try done; intros; case_match; lia. Qed.

(** Pulling tokens in and crediting them. *)
Lemma pull_credit_Ok u t a w r w' :
  0 <= a -> (pull_from u t a;; increment_balance u t a) w = Ok (r, w') -> Funded u t a w w'.
Proof.
  intros Ha ([] & w1 & E1 & E2)%bind_Ok. apply pull_from_Ok in E1 as (l & El & ->).
  apply increment_credit in E2 as C; [|done]. split; try apply C.
  intros Hu t'. unfold surplus. rewrite (cr_tip20 _ _ _ _ _ C), (cr_total _ _ _ _ _ C). cbn.
  rewrite (tip20_pull _ _ _ _ _ Hu El). case_match; lia.
Qed.

(** [ensure_internal_balance] never runs out of fuel, and on success the
    account can pay [required] on top of its reserves. *)
Lemma ensure_internal_balance_spec u t required w B :
  Inv (ob w) B -> 0 <= required ->
  match ensure_internal_balance u t required w with
  | Ok (_, w') =>
      (exists d, 0 <= d /\ Funded u t d w w') /\ Inv (ob w') B /\
      reserve (ob w') B u t + required <= balance_at (ob w') u t
  | Err e => e <> OutOfFuel
  end.
Proof.
  intros I Hreq. unfold ensure_internal_balance.
  rewrite (bind_eq_Ok _ _ _ _ _ (available_balance_of_spec _ _ u t w B I)). cbv beta zeta.
  set (a := balance_at (ob w) u t - reserve (ob w) B u t).
  destruct (Z.leb_spec required a) as [Hle|Hlt].
  - cbn. split; [exists 0; split; [done | apply Funded_0]|]. split; [done|]. lia.
  - destruct ((pull_from u t (required - a);; increment_balance u t (required - a)) w)
      as [[[] w']|e] eqn:E.
    + apply pull_credit_Ok in E as F; [|lia].
      pose proof (Inv_funded u t (required - a) w w' B I ltac:(lia) F) as I'.
      split; [exists (required - a); split; [lia|done]|]. split; [done|].
      rewrite (reserve_ext (ob w) (ob w')); [|apply F|].
      * rewrite (fd_balance _ _ _ _ _ F), !Z.eqb_refl. cbn. lia.
      * intros k. unfold book_at. by rewrite (fd_books _ _ _ _ _ F).
    + unfold mbind, M_bind in E. destruct (pull_from _ _ _ w) as [[[] w1]|] eqn:E1.
      * by apply increment_balance_Err in E as ->.
      * simplify_eq. by eapply pull_from_Err.
Qed.
End funding.
