(* ===== verification/OrderbookOps.v ===== *)
(** * Every orderbook operation preserves the invariant

    For each state-changing entry point: run from a state satisfying the
    invariant, it never runs out of fuel, and on success it leaves a state
    that satisfies the invariant again and in which the orderbook's token
    holdings cover the internal balances at least as well as before. *)

From S2P Require Import Prelude.
From S2P Require Import OrderbookModel.
From S2P Require Import OrderbookArith.
From S2P Require Import OrderbookRep.
From S2P Require Import OrderbookInv.
From S2P Require Import OrderbookMatching.
From S2P Require Import OrderbookFunding.
#[local] Open Scope Z_scope.

Section operations.
Context {L : Type} {T20 : Tip20 L} {T20L : Tip20Laws L} (keccak256 : list Z -> Z).
Implicit Types (w : World L).
Definition is_tip20 (a : Z) : Prop := is_ok (tip20_from_address a) = true.
(** Book keys of distinct pairs of TIP-20 addresses do not collide. *)
Hypothesis book_key_inj : forall a b c d,
  is_tip20 a -> is_tip20 b -> is_tip20 c -> is_tip20 d ->
  compute_book_key keccak256 a b = compute_book_key keccak256 c d -> a = c /\ b = d.
Abbreviation Inv := (Inv keccak256 is_tip20).
Abbreviation key := (compute_book_key keccak256).

Lemma is_tip20_nonzero a : is_tip20 a -> a <> 0.
Proof. unfold is_tip20. pose proof tip20_zero_invalid as Hz. intros H ->. congruence. Qed.

(** ** Pairs *)

Definition with_pair (k bs qt : Z) (s : DarkpoolOrderbook) : DarkpoolOrderbook :=
  with_book_keys (fun ks => ks ++ [k]) (with_books <[k := mkMeta bs qt 0 0]> s).

Lemma book_at_with_pair k bs qt s k' :
  book_at (with_pair k bs qt s) k' = if decide (k = k') then mkMeta bs qt 0 0 else book_at s k'.
Proof. apply book_at_insert. Qed.

Lemma empty_queue s B k b : Inv s B -> base (book_at s k) = 0 -> B k b = [].
Proof.
  intros I Hk. destruct (B k b) as [|e l] eqn:E; [done|].
  assert (He : e ∈ B k b) by (rewrite E; left).
  apply (inv_live _ _ _ _ I), (inv_keys_iff _ _ _ _ I) in He. done.
Qed.

Lemma Rep_with_pair s B k bs qt : Inv s B -> base (book_at s k) = 0 -> Rep (with_pair k bs qt s) B.
Proof.
  intros I Hk. destruct (inv_rep _ _ _ _ I) as [R1 R2 R3 R4 R5]. split; try done.
  intros k' b. rewrite book_at_with_pair. case_decide as E; [|apply R2]. subst k'.
  rewrite (empty_queue s B k b I Hk). by destruct b.
Qed.

Lemma reserve_with_pair s B k bs qt u t :
  Inv s B -> base (book_at s k) = 0 -> reserve (with_pair k bs qt s) B u t = reserve s B u t.
Proof.
  intros I Hk. unfold reserve. cbn [with_pair with_book_keys book_keys with_books].
  rewrite sumZ_app. cbn [sumZ foldr].
  rewrite (sumZ_ext _ (book_reserve s B u t)).
  - unfold book_reserve at 2. rewrite !(empty_queue s B k _ I Hk). cbn. repeat case_match; lia.
  - intros k' Hk'. unfold book_reserve. rewrite book_at_with_pair.
    case_decide; [subst k'|done]. by apply (inv_keys_iff _ _ _ _ I) in Hk'.
Qed.

Lemma Inv_with_pair s B bs qt :
  let k := key bs qt in
  Inv s B -> base (book_at s k) = 0 -> bs <> qt -> is_tip20 bs -> is_tip20 qt ->
  Inv (with_pair k bs qt s) B.
Proof.
  intros k I Hk Hne Hb Hq. pose proof (is_tip20_nonzero bs Hb) as H0.
  assert (Hnin : k ∉ book_keys s) by (rewrite (inv_keys_iff _ _ _ _ I); lia).
  split; try apply I.
  - by apply Rep_with_pair.
  - cbn. apply NoDup_app. split; [apply I|]. split; [set_solver | apply NoDup_singleton].
  - intros k'. rewrite book_at_with_pair. cbn.
    rewrite elem_of_app, list_elem_of_singleton, (inv_keys_iff _ _ _ _ I).
    case_decide as E; [subst k'|]; naive_solver.
  - intros k' b e He. cbn. apply elem_of_app. left. by apply (inv_live _ _ _ _ I k' b e).
  - intros k'. rewrite book_at_with_pair. cbn.
    intros [Hk'|Hk']%elem_of_app.
    + case_decide; [subst k'; done|]. by apply I.
    + apply list_elem_of_singleton in Hk' as ->. by rewrite decide_True.
  - intros u t. rewrite reserve_with_pair by done. apply I.
Qed.

(** Between [w] and [w'] at most an empty book was added. *)
Record SameFunds w w' : Prop := mkSameFunds {
  sf_balances : balances (ob w') = balances (ob w);
  sf_next : next_order_id (ob w') = next_order_id (ob w);
  sf_tip20 : tip20 w' = tip20 w
}.

Lemma validate_pair_tokens_Ok bs qt w r w' :
  validate_pair_tokens bs qt w = Ok (r, w') -> w' = w /\ is_tip20 bs /\ is_tip20 qt.
Proof.
  unfold validate_pair_tokens, is_tip20, mbind, M_bind, lift_tip20, get, throw, mret, M_ret.
  destruct (tip20_from_address bs); [|done]. destruct (tip20_quote_token _ _); [|done].
  destruct (tip20_from_address qt); [|done]. destruct (tip20_quote_token _ _); [|done].
  by intros [= _ ->].
Qed.

Lemma validate_pair_tokens_Err bs qt w e :
  validate_pair_tokens bs qt w = Err e -> e <> OutOfFuel.
Proof.
  unfold validate_pair_tokens, mbind, M_bind, lift_tip20, get, throw, mret, M_ret.
  intros Hrun. repeat case_match; by simplify_eq.
Qed.

Lemma validate_or_create_pair_spec bs qt w B :
  Inv (ob w) B -> bs <> qt ->
  match validate_or_create_pair keccak256 bs qt w with
  | Ok (k, w') =>
      k = key bs qt /\ Inv (ob w') B /\ k ∈ book_keys (ob w') /\
      base (book_at (ob w') k) = bs /\ quote (book_at (ob w') k) = qt /\
      SameFunds w w' /\ logs w' = logs w
  | Err e => e <> OutOfFuel
  end.
Proof.
  intros I Hne. unfold validate_or_create_pair.
  unfold mbind at 1, M_bind at 1.
  destruct (validate_pair_tokens bs qt w) as [[r w1]|e] eqn:E1;
    [|by eapply validate_pair_tokens_Err].
  apply validate_pair_tokens_Ok in E1 as (-> & Hb & Hq).
  rewrite bind_books_read. destruct (Z.eqb_spec (base (book_at (ob w) (key bs qt))) 0) as [Hz|Hnz].
  - lazymatch goal with |- match ?r with _ => _ end =>
      change r with (Ok (E := fault) (key bs qt, set_ob (with_pair (key bs qt) bs qt (ob w)) w)) end.
    cbn [ob set_ob logs]. split; [done|]. split; [by apply Inv_with_pair|].
    rewrite book_at_with_pair, decide_True by done. cbn. split; [set_solver|]. by repeat split.
  - cbn. split; [done|]. split; [done|].
    assert (Hk : key bs qt ∈ book_keys (ob w)) by by apply (inv_keys_iff _ _ _ _ I).
    destruct (inv_pair _ _ _ _ I _ Hk) as (E & _ & Hb' & Hq').
    apply book_key_inj in E as [E1 E2]; [|done..]. by repeat split.
Qed.

(** ** Abstract matching: what is left of the queue *)

Lemma amatch_from b limit rem l l' r fs :
  amatch b limit rem l = (l', r, fs) ->
  forall x, x ∈ l' -> exists c, c ∈ l /\ e_id x = e_id c /\ e_price x = e_price c.
Proof.
  revert rem l' r fs. induction l as [|e l IH]; intros rem l' r fs Hm x Hx; cbn in Hm.
  { simplify_eq. by apply not_elem_of_nil in Hx. }
  destruct (_ || _).
  { injection Hm as <- _ _. by exists x. }
  destruct (e_qty e <=? rem).
  - destruct (amatch b limit (rem - e_qty e) l) as [[l2 r2] fs2] eqn:E. simplify_eq.
    destruct (IH _ _ _ _ E x Hx) as (c & Hc & ?). exists c. split; [by right | done].
  - injection Hm as <- _ _. unfold rest in Hx. case_match.
    { exists x. split; [by right | done]. }
    apply elem_of_cons in Hx as [->|Hx].
    + exists e. split; [left | done].
    + exists x. split; [by right | done].
Qed.

Lemma crosses_ahead b limit e c : ahead b e c -> crosses b limit e = false -> crosses b limit c = false.
Proof.
  unfold ahead, better, crosses. destruct b; intros [Ha|[Ha _]] Hc; bool_lia; apply Z.leb_gt; lia.
Qed.

(** When quantity is left over, nothing in the queue crosses any more. *)
Lemma amatch_exhausts b limit rem l l' r fs :
  StronglySorted (ahead b) l -> amatch b limit rem l = (l', r, fs) -> r <> 0 ->
  forall x, x ∈ l' -> crosses b limit x = false.
Proof.
  intros Hs. revert rem l' r fs. induction Hs as [|e l Hs IH Hall]; intros rem l' r fs Hm Hr x Hx;
    cbn in Hm; [simplify_eq; by apply not_elem_of_nil in Hx|].
  destruct (Z.eqb_spec rem 0) as [->|]; [cbn in Hm; congruence|]. cbn in Hm.
  destruct (crosses b limit e) eqn:Hc; cbn in Hm.
  - destruct (e_qty e <=? rem); [|congruence].
    destruct (amatch b limit (rem - e_qty e) l) as [[l2 r2] fs2] eqn:E. simplify_eq.
    by apply (IH _ _ _ _ E Hr).
  - injection Hm as <- _ _. apply elem_of_cons in Hx as [->|Hx]; [done|].
    rewrite Forall_forall in Hall. by apply (crosses_ahead b limit e x (Hall x Hx)).
Qed.

(** ** Adding a resting order *)

Lemma Inv_insert w w' B k b e :
  Inv (ob w) B -> k ∈ book_keys (ob w) -> entry_ok e ->
  (forall c, c ∈ B k b -> e_id c < e_id e) -> e_id e < Z.max (next_order_id (ob w)) 1 ->
  reserve (ob w) B (e_maker e) (pay_token b (book_at (ob w) k)) + entry_reserve b e <=
    balance_at (ob w) (e_maker e) (pay_token b (book_at (ob w) k)) ->
  (forall c, c ∈ B k (negb b) -> if b then e_price e < e_price c else e_price c < e_price e) ->
  Rep (ob w') (upd_queue B k b (ins b e (B k b))) -> Frame w w' ->
  Inv (ob w') (upd_queue B k b (ins b e (B k b))).
Proof.
  intros I Hk He Hid Hnx Hfund Hun R [Fb Fn Fk Ft _ _].
  assert (Hcase : forall k' b' x, x ∈ upd_queue B k b (ins b e (B k b)) k' b' ->
            x ∈ B k' b' \/ (x = e /\ k' = k /\ b' = b)).
  { intros k' b' x. destruct (decide (k = k' /\ b = b')) as [[<- <-]|Hne].
    - rewrite upd_queue_eq, elem_of_ins. naive_solver.
    - rewrite upd_queue_ne by done. by left. }
  split; [done|..].
  - intros k' b' x [Hx|(-> & _)]%Hcase; [by apply (inv_entry _ _ _ _ I k' b') | done].
  - intros k' b'. destruct (decide (k = k' /\ b = b')) as [[<- <-]|Hne].
    + rewrite upd_queue_eq. apply ins_sorted; [done | apply I].
    + rewrite upd_queue_ne by done. apply I.
  - intros k' b' x [Hx|(-> & _)]%Hcase; rewrite Fn; [by apply (inv_ids _ _ _ _ I k' b') | done].
  - rewrite Fk. apply I.
  - intros k'. rewrite Fk. destruct (Ft k') as [-> _]. apply I.
  - intros k' b' x [Hx|(_ & -> & _)]%Hcase; rewrite Fk; [by apply (inv_live _ _ _ _ I k' b' x)|done].
  - intros k'. rewrite Fk. destruct (Ft k') as [-> ->]. apply I.
  - intros u t. unfold balance_at. rewrite Fb. apply I.
  - intros u t. rewrite (reserve_upd (ob w)); [|apply I|done|done|done].
    rewrite side_reserve_ins. unfold balance_at at 1. rewrite Fb. fold (balance_at (ob w) u t).
    pose proof (inv_solvent _ _ _ _ I u t).
    destruct (Z.eqb_spec (pay_token b (book_at (ob w) k)) t) as [<-|]; [|lia].
    destruct (Z.eqb_spec (e_maker e) u) as [<-|]; lia.
  - intros k' x y [Hx|(-> & -> & <-)]%Hcase [Hy|(-> & Ek & Eb)]%Hcase; try done.
    + by apply (inv_uncrossed _ _ _ _ I k').
    + subst k' b. by apply Hun.
    + by apply Hun.
Qed.

(** ** Running an operation

    [run m w Q]: from [w] the operation succeeds in a state satisfying [Q],
    or fails with a fault other than fuel exhaustion. *)

Definition run {A} (m : M (World L) fault A) w (Q : A -> World L -> Prop) : Prop :=
  match m w with
  | Ok (a, w') => Q a w'
  | Err e => e <> OutOfFuel
  end.

Lemma run_bind {A C} (m : M (World L) fault A) (f : A -> M (World L) fault C) w Q :
  run m w (fun a w' => run (f a) w' Q) -> run (m ≫= f) w Q.
Proof. unfold run, mbind, M_bind. by destruct (m w) as [[a w']|e]. Qed.

Lemma run_mono {A} (m : M (World L) fault A) w (P Q : A -> World L -> Prop) :
  run m w P -> (forall a w', P a w' -> Q a w') -> run m w Q.
Proof. unfold run. destruct (m w) as [[a w']|e]; auto. Qed.

Lemma run_then {A C} (m : M (World L) fault A) (f : A -> M (World L) fault C) w P Q :
  run m w P -> (forall a w', P a w' -> run (f a) w' Q) -> run (m ≫= f) w Q.
Proof. intros Hm Hf. by eapply run_bind, run_mono. Qed.

Lemma run_ret {A} (a : A) w (Q : A -> World L -> Prop) : Q a w -> run (mret a) w Q.
Proof. done. Qed.

Lemma run_reject b e w (Q : unit -> World L -> Prop) :
  e <> OutOfFuel -> (b = false -> Q tt w) -> run (reject_if b e) w Q.
Proof. destruct b; unfold run; cbn; auto. Qed.

Lemma run_option {A} e (o : option A) w (Q : A -> World L -> Prop) :
  e <> OutOfFuel -> (forall a, o = Some a -> Q a w) -> run (lift_option e o) w Q.
Proof. destruct o; unfold run; cbn; auto. Qed.

Lemma run_read {A} i (f : Order -> M (World L) fault A) w Q :
  run (f (order_at (ob w) i)) w Q -> run (orders_read i ≫= f) w Q.
Proof. done. Qed.

Lemma run_emit ev w (Q : unit -> World L -> Prop) :
  Q tt (mkWorld (ob w) (tip20 w) (logs w ++ [ev])) -> run (emit_event ev) w Q.
Proof. done. Qed.

(** ** Order submission *)

(** The state in which a fresh order id has been taken and announced. *)
Definition submitted (ev : Event) w : World L :=
  mkWorld (with_next_order_id (wrapping_add U128_MAX (Z.max (next_order_id (ob w)) 1) 1) (ob w))
    (tip20 w) (logs w ++ [ev]).

Lemma run_submit {A} (ev : Z -> Event) (f : Z -> M (World L) fault A) w Q :
  run (f (Z.max (next_order_id (ob w)) 1)) (submitted (ev (Z.max (next_order_id (ob w)) 1)) w) Q ->
  run (id ← next_order_id_val; increment_next_order_id;; emit_event (ev id);; f id) w Q.
Proof. done. Qed.

Lemma submitted_next ev w :
  in_u128 (next_order_id (ob w)) -> Z.max (next_order_id (ob w)) 1 < U128_MAX ->
  next_order_id (ob (submitted ev w)) = Z.max (next_order_id (ob w)) 1 + 1.
Proof. intros H1 H2. apply wrapping_add_small. unfold in_u128 in *. lia. Qed.

Lemma Inv_submitted ev w B :
  Inv (ob w) B -> Z.max (next_order_id (ob w)) 1 < U128_MAX -> Inv (ob (submitted ev w)) B.
Proof.
  intros I H. apply (Inv_ledger keccak256 is_tip20 (ob w)); try done; try apply I.
  cbn. rewrite wrapping_add_small by lia. lia.
Qed.

(** What is kept of the balances' backing, and how far the id counter moves. *)
Record Preserved w w' : Prop := mkPreserved {
  pr_inv : exists B', Inv (ob w') B';
  pr_next : Z.max (next_order_id (ob w)) 1 <= Z.max (next_order_id (ob w')) 1
              <= Z.max (next_order_id (ob w)) 1 + 1;
  pr_surplus : forall t, surplus w' t = surplus w t
}.

Definition safe {A} (m : M (World L) fault A) w : Prop :=
  run m w (fun _ w' => Preserved w w').

Lemma Kept_surplus w w' t : Kept w w' -> surplus w' t = surplus w t.
Proof. intros K. unfold surplus. by rewrite (kp_tip20 _ _ K), (kp_total _ _ K). Qed.

Lemma Frame_surplus w w' t : Frame w w' -> surplus w' t = surplus w t.
Proof.
  intros F. unfold surplus, token_total. by rewrite (fr_tip20 _ _ F), (fr_balances _ _ F).
Qed.

Lemma SameFunds_surplus w w' t : SameFunds w w' -> surplus w' t = surplus w t.
Proof.
  intros F. unfold surplus, token_total. by rewrite (sf_tip20 _ _ F), (sf_balances _ _ F).
Qed.

(** The pair exists and the sender can pay [required] of [X]; nothing was
    announced yet and the backing is unchanged. *)
Record Ready (bs qt u X required : Z) (B : Queues) w w' : Prop := mkReady {
  rd_inv : Inv (ob w') B;
  rd_key : key bs qt ∈ book_keys (ob w');
  rd_base : base (book_at (ob w') (key bs qt)) = bs;
  rd_quote : quote (book_at (ob w') (key bs qt)) = qt;
  rd_next : next_order_id (ob w') = next_order_id (ob w);
  rd_logs : logs w' = logs w;
  rd_surplus : forall t, surplus w' t = surplus w t;
  rd_fund : reserve (ob w') B u X + required <= balance_at (ob w') u X
}.

Lemma run_ready bs qt u X required B w w1 :
  u <> DARKPOOL_ADDRESS -> 0 <= required ->
  Inv (ob w1) B -> key bs qt ∈ book_keys (ob w1) ->
  base (book_at (ob w1) (key bs qt)) = bs -> quote (book_at (ob w1) (key bs qt)) = qt ->
  SameFunds w w1 -> logs w1 = logs w ->
  run (ensure_internal_balance u X required) w1
    (fun _ w' => Ready bs qt u X required B w w').
Proof.
  intros Hu Hreq I Hk Hb Hq SF Hl.
  pose proof (ensure_internal_balance_spec keccak256 is_tip20 u X required w1 B I Hreq) as E.
  unfold run. destruct (ensure_internal_balance u X required w1) as [[[] w']|e]; [|done].
  destruct E as ((d & Hd & F) & I' & Hfund).
  assert (Hbook : forall k, book_at (ob w') k = book_at (ob w1) k).
  { intros k. unfold book_at. by rewrite (fd_books _ _ _ _ _ F). }
  split; rewrite ?Hbook; try done.
  - by rewrite (fd_keys _ _ _ _ _ F).
  - rewrite (fd_next _ _ _ _ _ F). apply SF.
  - by rewrite (fd_logs _ _ _ _ _ F).
  - intros t. rewrite (fd_surplus _ _ _ _ _ F Hu). by apply SameFunds_surplus.
Qed.

Lemma Ready_submitted ev bs qt u X required B w w1 :
  Ready bs qt u X required B w w1 -> Z.max (next_order_id (ob w)) 1 < U128_MAX ->
  Inv (ob (submitted ev w1)) B.
Proof.
  intros R Hn. apply Inv_submitted; [apply R|]. by rewrite (rd_next _ _ _ _ _ _ _ _ R).
Qed.

(** The crossing step of [place]. *)
Definition cross (is_bid : bool) (fuel : nat) (k id sender price amount bs qt : Z)
    : M (World L) fault Z :=
  if is_bid then cross_asks fuel k id sender price amount bs qt
  else cross_bids fuel k id sender price amount bs qt.

Lemma loop_fuel_enough s B k b : Rep s B -> (length (B k b) < S (size (orders s)))%nat.
Proof.
  intros R. pose proof (seg_length _ _ _ _ _ _ (rep_nodup _ _ R k b) (rep_seg _ _ R k b)). lia.
Qed.

Lemma cross_spec (is_bid : bool) k id sender limit amount bs qt w B :
  let X := if is_bid then qt else bs in
  Inv (ob w) B -> base (book_at (ob w) k) = bs -> quote (book_at (ob w) k) = qt ->
  in_u128 amount ->
  reserve (ob w) B sender X + need (negb is_bid) amount limit <= balance_at (ob w) sender X ->
  run (fuel ← loop_fuel; cross is_bid fuel k id sender limit amount bs qt) w (fun rem w' =>
    exists B' fs, LoopPost keccak256 is_tip20 (negb is_bid) k id sender limit X amount w B
      rem (amount - rem) (sumZ fill_quote fs) w' B' fs).
Proof.
  intros X I Hb Hq Ha Hfund. unfold run. rewrite bind_loop_fuel.
  pose proof (match_loop_spec keccak256 is_tip20 (negb is_bid) k id sender limit bs qt
    (S (size (orders (ob w)))) w B amount 0 0 I Hb Hq Ha ltac:(lia)
    (fun _ => loop_fuel_enough _ _ k _ (inv_rep _ _ _ _ I))) as Hm.
  assert (EX : (if negb is_bid then bs else qt) = X) by (unfold X; by destruct is_bid).
  rewrite EX in Hm. specialize (Hm Hfund).
  assert (Ec : cross is_bid (S (size (orders (ob w)))) k id sender limit amount bs qt w =
    remaining_of (match_loop (negb is_bid) (S (size (orders (ob w)))) k id sender limit bs qt
                    amount 0 0 w)).
  { destruct is_bid; [apply cross_asks_match_loop | apply cross_bids_match_loop]. }
  rewrite Ec. destruct (match_loop _ _ _ _ _ _ _ _ _ _ _ w) as [[[[rem f] q] w']|e];
    cbn [remaining_of]; [|by subst].
  destruct Hm as (B' & fs & P). exists B', fs. destruct P. split; try done.
Qed.

(** The market loops. *)
Definition fill_market (is_bid : bool) (id sender bs qt amount limit : Z)
    : M (World L) fault (Z * Z) :=
  if is_bid then fill_asks_market keccak256 id sender bs qt amount limit
  else fill_bids_market keccak256 id sender bs qt amount limit.

Lemma fill_market_spec (is_bid : bool) id sender limit amount bs qt w B :
  let X := if is_bid then qt else bs in let k := key bs qt in
  Inv (ob w) B -> base (book_at (ob w) k) = bs -> quote (book_at (ob w) k) = qt ->
  in_u128 amount ->
  reserve (ob w) B sender X + need (negb is_bid) amount limit <= balance_at (ob w) sender X ->
  run (fill_market is_bid id sender bs qt amount limit) w (fun '(filled, q) w' =>
    exists B' fs, LoopPost keccak256 is_tip20 (negb is_bid) k id sender limit X amount w B
      (amount - filled) filled q w' B' fs).
Proof.
  intros X k I Hb Hq Ha Hfund. unfold run.
  pose proof (match_loop_spec keccak256 is_tip20 (negb is_bid) k id sender limit bs qt
    (S (size (orders (ob w)))) w B amount 0 0 I Hb Hq Ha ltac:(lia)
    (fun _ => loop_fuel_enough _ _ k _ (inv_rep _ _ _ _ I))) as Hm.
  assert (EX : (if negb is_bid then bs else qt) = X) by (unfold X; by destruct is_bid).
  rewrite EX in Hm. specialize (Hm Hfund).
  assert (Ec : totals_agree (fill_market is_bid id sender bs qt amount limit w)
    (match_loop (negb is_bid) (S (size (orders (ob w)))) k id sender limit bs qt amount 0 0 w)).
  { destruct is_bid; [apply fill_asks_match_loop | apply fill_bids_match_loop]. }
  unfold totals_agree in Ec.
  destruct (fill_market is_bid id sender bs qt amount limit w) as [[[f q] w']|e].
  - destruct Ec as [rem Ec]. rewrite Ec in Hm. destruct Hm as (B' & fs & P). exists B', fs.
    rewrite !Z.sub_0_r in P. pose proof (lp_filled _ _ _ _ _ _ _ _ _ _ _ _ _ _ _ _ _ P).
    by replace (amount - f) with rem by lia.
  - destruct e; try done. rewrite Ec in Hm. done.
Qed.

(** ** Placement *)

(** What [place] does, on the abstract queues: match against the other side,
    then rest what is left behind every order of the same price. *)
Record Placed (sender bs qt amount price : Z) (is_bid : bool) (tif : Z) w B (id : Z) w' : Prop :=
mkPlaced {
  pl_result : exists B' rem fs,
    Inv (ob w') B' /\
    amatch (negb is_bid) price amount (B (key bs qt) (negb is_bid)) =
      (B' (key bs qt) (negb is_bid), rem, fs) /\
    B' (key bs qt) is_bid =
      (if 0 <? rem then ins is_bid (mkEntry id sender price rem) (B (key bs qt) is_bid)
       else B (key bs qt) is_bid) /\
    (forall k b, k <> key bs qt -> B' k b = B k b) /\
    logs w' = logs w ++
      [OrderSubmitted id sender bs qt amount price is_bid ORDER_KIND_LIMIT tif] ++
      (fill_event id sender <$> fs) ++
      (if 0 <? rem then [OrderPlaced id sender bs qt rem price is_bid] else []);
  pl_id : id = Z.max (next_order_id (ob w)) 1;
  pl_next : next_order_id (ob w') = id + 1;
  pl_surplus : forall t, surplus w' t = surplus w t
}.

Lemma matched_fresh b k tid taker limit X rem w B rem' fd q w' B' fs n :
  LoopPost keccak256 is_tip20 b k tid taker limit X rem w B rem' fd q w' B' fs ->
  (forall k b e, e ∈ B k b -> e_id e < n) ->
  forall k' b' e, e ∈ B' k' b' -> e_id e < n.
Proof.
  intros P Hn k' b' e He. destruct (decide (k = k' /\ b = b')) as [[<- <-]|Hne].
  - destruct (amatch_from _ _ _ _ _ _ _ (lp_match _ _ _ _ _ _ _ _ _ _ _ _ _ _ _ _ _ P) e He)
      as (c & Hc & -> & _). by eapply Hn.
  - rewrite (lp_others _ _ _ _ _ _ _ _ _ _ _ _ _ _ _ _ _ P) in He by done. by eapply Hn.
Qed.

Lemma fresh_order s B n :
  Rep s B -> (forall k b e, e ∈ B k b -> e_id e < n) -> orders s !! n = None.
Proof.
  intros R Hn. destruct (orders s !! n) as [o|] eqn:E; [|done].
  destruct (rep_cover _ _ R _ _ E) as (e & He & Hid). apply Hn in He. lia.
Qed.

(** After matching, the remainder can rest without crossing. *)
Lemma matched_uncrossed (is_bid : bool) k tid taker limit X rem w B rem' fd q w' B' fs :
  Inv (ob w) B ->
  LoopPost keccak256 is_tip20 (negb is_bid) k tid taker limit X rem w B rem' fd q w' B' fs -> 0 < rem' ->
  forall c, c ∈ B' k (negb is_bid) -> if is_bid then limit < e_price c else e_price c < limit.
Proof.
  intros I P Hr c Hc.
  assert (Hx : crosses (negb is_bid) limit c = false).
  { eapply amatch_exhausts; [apply (inv_sorted _ _ _ _ I)|apply P|lia|done]. }
  unfold crosses in Hx. destruct is_bid; cbn in Hx; bool_lia.
Qed.

(** Resting the remainder after the crossing step. *)
Lemma rest_remainder (is_bid : bool) tid taker limit bs qt amount rem fd q w B w1 B1 fs :
  let X := if is_bid then qt else bs in let k := key bs qt in
  Inv (ob w) B -> k ∈ book_keys (ob w) -> base (book_at (ob w) k) = bs ->
  quote (book_at (ob w) k) = qt ->
  (forall k b e, e ∈ B k b -> e_id e < tid) -> 0 < tid < Z.max (next_order_id (ob w)) 1 ->
  in_u128 amount -> 0 < limit <= U128_MAX ->
  LoopPost keccak256 is_tip20 (negb is_bid) k tid taker limit X amount w B rem fd q w1 B1 fs -> 0 < rem ->
  let e := mkEntry tid taker limit rem in
  exists w2, insert_order k (mkOrder tid taker k is_bid limit rem 0 0) w1 = Ok (tt, w2) /\
    Inv (ob w2) (upd_queue B1 k is_bid (ins is_bid e (B1 k is_bid))) /\ Frame w1 w2.
Proof.
  intros X k I Hk Hb Hq Hids Htid Ha Hl P Hr e.
  pose proof (matched_fresh _ _ _ _ _ _ _ _ _ _ _ _ _ _ _ _ P Hids) as Hids1.
  pose proof (matched_uncrossed _ _ _ _ _ _ _ _ _ _ _ _ _ _ _ I P Hr) as Hun.
  destruct P as [_ Po Pi Pr _ _ _ Pk Pf].
  destruct (insert_order_refines k is_bid e w1 B1) as (w2 & E2 & R2 & F); [apply Pi| |cbn; lia|].
  { apply (fresh_order _ B1); [apply Pi | done]. }
  exists w2. split; [done|]. split; [|done].
  destruct (kp_tokens _ _ Pk k) as [Tb Tq]. unfold in_u128 in Ha.
  apply (Inv_insert w1); try done.
  - by rewrite (kp_keys _ _ Pk).
  - split; cbn; lia.
  - intros c Hc. by apply (Hids1 k is_bid).
  - rewrite (kp_next _ _ Pk). cbn. lia.
  - assert (EX : pay_token is_bid (book_at (ob w1) k) = X)
      by (unfold pay_token, X; destruct is_bid; congruence).
    rewrite EX. cbn [e_maker e]. unfold need, entry_reserve in *. by destruct is_bid.
Qed.

(** The end of [place]: rest the remainder, announce it. *)
Definition place_tail (sender bs qt price : Z) (is_bid : bool) (id rem : Z)
    : M (World L) fault Z :=
  if 0 <? rem then
    insert_order (key bs qt) (mkOrder id sender (key bs qt) is_bid price rem 0 0);;
    emit_event (OrderPlaced id sender bs qt rem price is_bid);;
    mret id
  else mret id.

Lemma place_tail_spec sender bs qt amount price (is_bid : bool) tif w B w1 :
  let X := if is_bid then qt else bs in
  let id := Z.max (next_order_id (ob w)) 1 in
  let ev := OrderSubmitted id sender bs qt amount price is_bid ORDER_KIND_LIMIT tif in
  Inv (ob w) B -> id < U128_MAX -> in_u128 amount -> 0 < price <= U128_MAX ->
  Ready bs qt sender X (need (negb is_bid) amount price) B w w1 ->
  run (fuel ← loop_fuel;
       rem ← cross is_bid fuel (key bs qt) id sender price amount bs qt;
       place_tail sender bs qt price is_bid id rem) (submitted ev w1)
    (fun i w' => Placed sender bs qt amount price is_bid tif w B i w').
Proof.
  intros X id ev I Hn Ha Hp R.
  pose proof (Ready_submitted ev _ _ _ _ _ _ _ _ R Hn) as Is. destruct R as [Ri Rk Rb Rq Rn Rl Rs Rf].
  set (ws := submitted ev w1) in *.
  assert (Hnext : next_order_id (ob ws) = id + 1).
  { unfold ws. cbn. rewrite Rn. apply wrapping_add_small. lia. }
  unfold run. rewrite <- bind_assoc. apply run_then with
    (P := fun rem w' => exists B' fs, LoopPost keccak256 is_tip20 (negb is_bid) (key bs qt) id sender price X
            amount ws B rem (amount - rem) (sumZ fill_quote fs) w' B' fs); [by apply cross_spec|].
  intros rem w2 (B2 & fs & P). unfold place_tail.
  assert (Hids : forall k b e, e ∈ B k b -> e_id e < id) by apply I.
  assert (Hrs : forall w', Kept ws w' -> forall t, surplus w' t = surplus w t).
  { intros w' K t. rewrite (Kept_surplus _ _ _ K). apply Rs. }
  assert (Hs1 : forall k : Z, ~ (k = k /\ negb is_bid = is_bid)) by (by destruct is_bid; intros ? []).
  assert (Hs2 : forall k : Z, ~ (k = k /\ is_bid = negb is_bid)) by (by destruct is_bid; intros ? []).
  destruct (Z.ltb_spec 0 rem) as [Hr|Hr].
  - destruct (rest_remainder is_bid id sender price bs qt amount rem (amount - rem)
                (sumZ fill_quote fs) ws B w2 B2 fs)
      as (w3 & E3 & I3 & F); try done; [lia|].
    destruct P as [Pm Po Pi Pr _ _ Pl Pk _].
    unfold run. rewrite (bind_eq_Ok _ _ _ _ _ E3). cbn.
    split; [|done|by cbn; rewrite (fr_next _ _ F), (kp_next _ _ Pk)|].
    + exists (upd_queue B2 (key bs qt) is_bid (ins is_bid (mkEntry id sender price rem)
                (B2 (key bs qt) is_bid))), rem, fs.
      rewrite (proj2 (Z.ltb_lt 0 rem) Hr), upd_queue_eq, upd_queue_ne by done.
      rewrite (Po (key bs qt) is_bid) in I3 |- * by done.
      split_and!; try done.
      * intros k b Hne. rewrite upd_queue_ne by naive_solver. apply Po. naive_solver.
      * cbn. rewrite (fr_logs _ _ F), Pl. cbn. by rewrite Rl, <- !app_assoc.
    + intros t. change (surplus w3 t = surplus w t). rewrite (Frame_surplus _ _ _ F). by apply Hrs.
  - destruct P as [Pm Po Pi Pr _ _ Pl Pk _]. cbn.
    split; [|done|by rewrite (kp_next _ _ Pk)|by apply Hrs].
    exists B2, rem, fs. rewrite (proj2 (Z.ltb_ge 0 rem)) by done.
    split_and!; try done.
    + by apply Po.
    + intros k b Hne. apply Po. naive_solver.
    + rewrite Pl. cbn. by rewrite Rl, app_nil_r, <- !app_assoc.
Qed.

Lemma place_spec sender bs qt amount price is_bid tif w B :
  Inv (ob w) B -> Z.max (next_order_id (ob w)) 1 < U128_MAX -> sender <> DARKPOOL_ADDRESS ->
  in_u128 amount -> in_u128 price ->
  run (place keccak256 sender bs qt amount price is_bid tif) w (fun id w' =>
    Placed sender bs qt amount price is_bid tif w B id w' /\
    tif = TIME_IN_FORCE_GTC /\ MIN_ORDER_AMOUNT <= amount /\ bs <> qt).
Proof.
  intros I Hn Hu Ha Hp. unfold place.
  apply run_bind, run_reject; [done|]. intros Htif.
  apply run_bind, run_reject; [done|]. intros Hne%Z.eqb_neq.
  apply run_bind, run_reject; [done|]. intros Hmin%Z.ltb_ge.
  apply run_bind, run_reject; [done|]. intros [Hp0%Z.eqb_neq Hqa]%orb_false_iff.
  apply negb_false_iff, Z.eqb_eq in Htif.
  eapply run_then; [exact (validate_or_create_pair_spec bs qt w B I Hne)|].
  intros k w1 (-> & I1 & Hk & Eb & Eq & SF & El).
  eapply run_then with (P := fun _ w' =>
    Ready bs qt sender (if is_bid then qt else bs) (need (negb is_bid) amount price) B w w').
  { destruct is_bid.
    - apply run_bind, run_option; [done|]. intros esc Hesc.
      apply bid_escrow_Some in Hesc as (? & ? & -> & ?); [|done..].
      apply run_ready; try done. apply ceil_quote_nonneg; lia.
    - apply run_ready; try done. apply Ha. }
  intros [] w2 R. apply run_submit. rewrite (rd_next _ _ _ _ _ _ _ _ R).
  eapply run_mono; [by apply place_tail_spec; [..|unfold in_u128 in Hp; lia|exact R]|].
  intros i w' HP. unfold in_u128 in *. done.
Qed.

(** ** Market orders *)

(** Every fill respects the limit and the resting quantity, the fills add up
    to the quantity taken, and a buyer pays no more than the escrow. *)
Lemma amatch_fills b limit rem l l' r fs :
  Forall entry_ok l -> 0 <= rem -> 0 <= limit -> amatch b limit rem l = (l', r, fs) ->
  Forall (fun ef => crosses b limit ef.1 = true /\ 0 < ef.2 <= e_qty ef.1 /\ ef.1 ∈ l) fs /\
  sumZ snd fs = rem - r /\
  (b = false -> sumZ fill_quote fs + ceil_quote r limit <= ceil_quote rem limit).
Proof.
  intros Hok. revert rem l' r fs. induction Hok as [|e l [Hq Hp] Hok IH];
    intros rem l' r fs Hr Hl Hm; cbn in Hm.
  { injection Hm as <- <- <-. split; [done|]. cbn. split; [lia|]. intros _. lia. }
  destruct ((rem =? 0) || negb (crosses b limit e)) eqn:Es.
  { injection Hm as <- <- <-. split; [done|]. cbn. split; [lia|]. intros _. lia. }
  apply orb_false_iff in Es as [Hr0%Z.eqb_neq Hc%negb_false_iff].
  assert (Hcost : forall f, 0 <= f <= rem -> b = false ->
            floor_quote f (e_price e) + ceil_quote (rem - f) limit <= ceil_quote rem limit).
  { intros f Hf ->. unfold crosses in Hc. bool_lia. apply ceil_quote_split; lia. }
  destruct (Z.leb_spec (e_qty e) rem) as [Hle|Hgt].
  - destruct (amatch b limit (rem - e_qty e) l) as [[l2 r2] fs2] eqn:E. injection Hm as <- <- <-.
    destruct (IH (rem - e_qty e) _ _ _ ltac:(lia) Hl E) as (F & S & C). split; [|split].
    + constructor; [cbn [fst snd]; split_and!; [done|lia|lia|left]|].
      eapply Forall_impl; [exact F|]. intros ef (? & ? & ?). split_and!; [done|lia|lia|by right].
    + rewrite sumZ_cons, S. cbn. lia.
    + intros Hb. rewrite sumZ_cons. unfold fill_quote at 1. cbn.
      specialize (C Hb). specialize (Hcost (e_qty e) ltac:(lia) Hb). lia.
  - injection Hm as <- <- <-. split; [|split].
    + constructor; [|done]. cbn [fst snd]. split_and!; [done|lia|lia|left].
    + cbn. lia.
    + intros Hb. cbn. unfold fill_quote. cbn. specialize (Hcost rem ltac:(lia) Hb).
      rewrite Z.sub_diag in Hcost. lia.
Qed.

Record Marketed (sender bs qt amount limit : Z) (is_bid : bool) (tif : Z) w B
    (id filled total : Z) w' : Prop := mkMarketed {
  mk_result : exists B' fs,
    Inv (ob w') B' /\
    amatch (negb is_bid) limit amount (B (key bs qt) (negb is_bid)) =
      (B' (key bs qt) (negb is_bid), amount - filled, fs) /\
    (forall k b, ~ (key bs qt = k /\ negb is_bid = b) -> B' k b = B k b) /\
    total = sumZ fill_quote fs /\
    logs w' = logs w ++
      [OrderSubmitted id sender bs qt amount limit is_bid ORDER_KIND_MARKET tif] ++
      (fill_event id sender <$> fs) ++
      (if filled <? amount
       then [OrderCancelled id sender (amount - filled) CANCEL_REASON_IOC_REMAINDER] else []);
  mk_filled : 0 <= filled <= amount;
  mk_fok : tif = TIME_IN_FORCE_FOK -> filled = amount;
  mk_cost : is_bid = true -> total <= ceil_quote amount limit;
  mk_id : id = Z.max (next_order_id (ob w)) 1;
  mk_next : next_order_id (ob w') = id + 1;
  mk_surplus : forall t, surplus w' t = surplus w t
}.

(** The end of both market operations. *)
Definition market_tail (sender bs qt amount limit : Z) (is_bid : bool) (tif id : Z)
    : M (World L) fault (Z * Z * Z) :=
  '(filled, total) ← fill_market is_bid id sender bs qt amount limit;
  reject_if ((filled <? amount) && (tif =? TIME_IN_FORCE_FOK)) (Revert InsufficientLiquidity);;
  (if filled <? amount then
     emit_event (OrderCancelled id sender (amount - filled) CANCEL_REASON_IOC_REMAINDER)
   else mret tt);;
  mret (id, filled, total).

Lemma market_tail_spec sender bs qt amount limit (is_bid : bool) tif w B w1 :
  let X := if is_bid then qt else bs in
  let id := Z.max (next_order_id (ob w)) 1 in
  let ev := OrderSubmitted id sender bs qt amount limit is_bid ORDER_KIND_MARKET tif in
  Inv (ob w) B -> id < U128_MAX -> in_u128 amount -> 0 <= limit ->
  Ready bs qt sender X (need (negb is_bid) amount limit) B w w1 ->
  run (market_tail sender bs qt amount limit is_bid tif id) (submitted ev w1)
    (fun '(i, f, q) w' => Marketed sender bs qt amount limit is_bid tif w B i f q w').
Proof.
  intros X id ev I Hn Ha Hl R.
  pose proof (Ready_submitted ev _ _ _ _ _ _ _ _ R Hn) as Is. destruct R as [Ri Rk Rb Rq Rn Rl Rs Rf].
  set (ws := submitted ev w1) in *.
  assert (Hnext : next_order_id (ob ws) = id + 1).
  { unfold ws. cbn. rewrite Rn. apply wrapping_add_small. lia. }
  unfold market_tail. eapply run_then; [by apply fill_market_spec|].
  intros [f q] w2 (B2 & fs & P). destruct P as [Pm Po Pi Pr _ Pq Pl Pk _].
  apply run_bind, run_reject; [done|]. intros Hfok.
  destruct (amatch_fills _ _ _ _ _ _ _ (proj2 (Forall_forall _ _) (inv_entry _ _ _ _ I _ _))
              (proj1 Ha) Hl Pm) as (_ & _ & Hcost).
  assert (Hgoal : forall w', ob w' = ob w2 -> tip20 w' = tip20 w2 ->
    logs w' = logs w2 ++ (if f <? amount
       then [OrderCancelled id sender (amount - f) CANCEL_REASON_IOC_REMAINDER] else []) ->
    Marketed sender bs qt amount limit is_bid tif w B id f q w').
  { intros w' Eo Et El. split; try done; rewrite ?Eo; try lia.
    - exists B2, fs. rewrite El, Pl. cbn. rewrite Rl, <- !app_assoc. by split_and!.
    - intros ->. specialize (Hcost eq_refl).
      pose proof (ceil_quote_nonneg (amount - f) limit ltac:(lia) Hl). lia.
    - by rewrite (kp_next _ _ Pk).
    - intros t. unfold surplus. rewrite Eo, Et. fold (surplus w2 t).
      rewrite (Kept_surplus _ _ _ Pk). apply Rs. }
  destruct (f <? amount); cbn; apply Hgoal; try done. cbn. by rewrite app_nil_r.
Qed.

Lemma market_buy_spec sender bs qt amount max_price tif w B :
  Inv (ob w) B -> Z.max (next_order_id (ob w)) 1 < U128_MAX -> sender <> DARKPOOL_ADDRESS ->
  in_u128 amount -> in_u128 max_price ->
  run (market_buy keccak256 sender bs qt amount max_price tif) w (fun '(id, filled, spent) w' =>
    Marketed sender bs qt amount max_price true tif w B id filled spent w').
Proof.
  intros I Hn Hu Ha Hp. unfold market_buy.
  apply run_bind, run_reject; [done|]. intros Htif.
  apply run_bind, run_reject; [done|]. intros Hne%Z.eqb_neq.
  apply run_bind, run_reject; [done|]. intros Hmin%Z.ltb_ge.
  apply run_bind, run_option; [done|]. intros esc (? & ? & -> & ?)%bid_escrow_Some; [|done..].
  eapply run_then; [exact (validate_or_create_pair_spec bs qt w B I Hne)|].
  intros k w1 (-> & I1 & Hk & Eb & Eq & SF & El).
  eapply run_then with (P := fun _ w' => Ready bs qt sender qt (need false amount max_price) B w w').
  { apply run_ready; try done. apply ceil_quote_nonneg; lia. }
  intros [] w2 R. apply run_submit. rewrite (rd_next _ _ _ _ _ _ _ _ R).
  apply (market_tail_spec sender bs qt amount max_price true tif w B w2); try done. lia.
Qed.

Lemma market_sell_spec sender bs qt amount min_price tif w B :
  Inv (ob w) B -> Z.max (next_order_id (ob w)) 1 < U128_MAX -> sender <> DARKPOOL_ADDRESS ->
  in_u128 amount -> in_u128 min_price ->
  run (market_sell keccak256 sender bs qt amount min_price tif) w (fun '(id, filled, received) w' =>
    Marketed sender bs qt amount min_price false tif w B id filled received w').
Proof.
  intros I Hn Hu Ha Hp. unfold market_sell.
  apply run_bind, run_reject; [done|]. intros Htif.
  apply run_bind, run_reject; [done|]. intros Hne%Z.eqb_neq.
  apply run_bind, run_reject; [done|]. intros Hmin%Z.ltb_ge.
  apply run_bind, run_reject; [done|]. intros _.
  eapply run_then; [exact (validate_or_create_pair_spec bs qt w B I Hne)|].
  intros k w1 (-> & I1 & Hk & Eb & Eq & SF & El).
  eapply run_then with (P := fun _ w' => Ready bs qt sender bs (need true amount min_price) B w w').
  { apply run_ready; try done. apply Ha. }
  intros [] w2 R. apply run_submit. rewrite (rd_next _ _ _ _ _ _ _ _ R).
  apply (market_tail_spec sender bs qt amount min_price false tif w B w2); try done. apply Hp.
Qed.

(** ** Cancellation *)

(** A stored order sits in its queue, linked to its neighbours. *)
Lemma order_at_queued s B i :
  Rep s B -> maker (order_at s i) <> 0 ->
  exists k b l1 e l2, B k b = l1 ++ e :: l2 /\ e_id e = i /\
    order_at s i = concr k b e (last_id 0 l1) (hd_id 0 l2).
Proof.
  intros R Hm. unfold order_at in *. destruct (orders s !! i) as [o|] eqn:E; [|done]. cbn in *.
  destruct (rep_cover _ _ R _ _ E) as (e & He & Hid).
  apply list_elem_of_split in He as (l1 & l2 & EB).
  exists (o_book_key o), (is_bid o), l1, e, l2. split; [done|]. split; [done|].
  pose proof (rep_seg _ _ R (o_book_key o) (is_bid o)) as Hseg. rewrite EB in Hseg.
  apply seg_app in Hseg as [_ [Hs _]]. rewrite Hid, E in Hs. by injection Hs.
Qed.

(** Taking an entry out of its queue keeps the invariant. *)
Lemma Inv_remove w w' B k b l1 e l2 :
  Inv (ob w) B -> B k b = l1 ++ e :: l2 ->
  Rep (ob w') (upd_queue B k b (l1 ++ l2)) -> Frame w w' ->
  Inv (ob w') (upd_queue B k b (l1 ++ l2)).
Proof.
  intros I EB R [Fb Fn Fk Ft _ _].
  assert (He : e ∈ B k b) by (rewrite EB; set_solver).
  assert (Hsub : forall k' b' x, x ∈ upd_queue B k b (l1 ++ l2) k' b' -> x ∈ B k' b').
  { intros k' b' x. destruct (decide (k = k' /\ b = b')) as [[<- <-]|Hne].
    - rewrite upd_queue_eq, EB. set_solver.
    - by rewrite upd_queue_ne. }
  split; [done|..].
  - intros k' b' x Hx%Hsub. by apply (inv_entry _ _ _ _ I k' b').
  - intros k' b'. destruct (decide (k = k' /\ b = b')) as [[<- <-]|Hne].
    + rewrite upd_queue_eq. pose proof (inv_sorted _ _ _ _ I k b) as Hs. rewrite EB in Hs.
      by eapply StronglySorted_remove.
    + rewrite upd_queue_ne by done. apply I.
  - intros k' b' x Hx%Hsub. rewrite Fn. by apply (inv_ids _ _ _ _ I k' b').
  - rewrite Fk. apply I.
  - intros k'. rewrite Fk. destruct (Ft k') as [-> _]. apply I.
  - intros k' b' x Hx%Hsub. rewrite Fk. by apply (inv_live _ _ _ _ I k' b' x).
  - intros k'. rewrite Fk. destruct (Ft k') as [-> ->]. apply I.
  - intros u t. unfold balance_at. rewrite Fb. apply I.
  - intros u t. rewrite (reserve_upd (ob w)); [|apply I|by apply (inv_live _ _ _ _ I k b e)|done|done].
    rewrite EB. unfold side_reserve. rewrite !sumZ_app, sumZ_cons.
    unfold balance_at at 1. rewrite Fb. fold (balance_at (ob w) u t).
    pose proof (inv_solvent _ _ _ _ I u t).
    pose proof (entry_reserve_nonneg b e (inv_entry _ _ _ _ I _ _ _ He)).
    destruct (_ =? t); [|lia]. destruct (e_maker e =? u); lia.
  - intros k' x y Hx%Hsub Hy%Hsub. by apply (inv_uncrossed _ _ _ _ I k').
Qed.

(** What [cancel] does on the abstract queues. *)
Lemma cancel_spec sender id w B :
  Inv (ob w) B ->
  run (cancel sender id) w (fun _ w' =>
    exists k b l1 e l2, B k b = l1 ++ e :: l2 /\ e_id e = id /\ e_maker e = sender /\
      Inv (ob w') (upd_queue B k b (l1 ++ l2)) /\
      balances (ob w') = balances (ob w) /\ next_order_id (ob w') = next_order_id (ob w) /\
      book_keys (ob w') = book_keys (ob w) /\ tip20 w' = tip20 w /\
      (forall k', base (book_at (ob w') k') = base (book_at (ob w) k') /\
                  quote (book_at (ob w') k') = quote (book_at (ob w) k')) /\
      logs w' = logs w ++ [OrderCancelled id sender (e_qty e) CANCEL_REASON_USER]).
Proof.
  intros I. unfold cancel. apply run_read.
  apply run_bind, run_reject; [done|]. intros [Hm%Z.eqb_neq Hq]%orb_false_iff.
  apply run_bind, run_reject; [done|]. intros Hs%negb_false_iff%Z.eqb_eq.
  destruct (order_at_queued _ B id (inv_rep _ _ _ _ I) Hm) as (k & b & l1 & e & l2 & EB & Hid & Eo).
  rewrite Eo in *. cbn [o_book_key concr maker quantity] in *.
  destruct (remove_order_refines k b e l1 l2 w B (inv_rep _ _ _ _ I) EB) as (w1 & E1 & R1 & F).
  unfold run. rewrite (bind_eq_Ok _ _ _ _ _ E1). cbn.
  exists k, b, l1, e, l2. pose proof (Inv_remove w w1 B k b l1 e l2 I EB R1 F).
  destruct F as [Fb Fn Fk Ft Ftip Fl]. rewrite Fl. by split_and!.
Qed.

(** ** Deposits, withdrawals and pair creation *)

Lemma deposit_spec sender token amount w B :
  Inv (ob w) B -> 0 <= amount ->
  run (deposit sender token amount) w (fun _ w' =>
    Funded sender token amount w w' /\ Inv (ob w') B).
Proof.
  intros I Ha. unfold run. destruct (deposit sender token amount w) as [[[] w']|e] eqn:E.
  - apply pull_credit_Ok in E as F; [|done]. split; [done | by eapply Inv_funded].
  - unfold deposit, mbind, M_bind in E. destruct (pull_from _ _ _ w) as [[[] w1]|] eqn:E1.
    + by apply increment_balance_Err in E as ->.
    + simplify_eq. by eapply pull_from_Err.
Qed.

(** Only the part of the balance not reserved by resting orders leaves. *)
Lemma withdraw_spec sender token amount w B :
  Inv (ob w) B -> 0 <= amount -> sender <> DARKPOOL_ADDRESS ->
  run (withdraw sender token amount) w (fun _ w' =>
    amount <= balance_at (ob w) sender token - reserve (ob w) B sender token /\
    (exists w1, Credit sender token (- amount) w w1 /\ ob w' = ob w1) /\
    Inv (ob w') B /\ logs w' = logs w /\
    (forall t, tip20_holdings (tip20 w') t =
               tip20_holdings (tip20 w) t - (if token =? t then amount else 0)) /\
    (forall t, surplus w' t = surplus w t)).
Proof.
  intros I Ha Hu. unfold withdraw, run.
  rewrite (bind_eq_Ok _ _ _ _ _ (available_balance_of_spec _ _ sender token w B I)).
  apply run_bind, run_reject; [done|]. intros Hle%Z.ltb_ge.
  unfold run, mbind at 1, M_bind at 1.
  destruct (decrement_balance sender token amount w) as [[[] w1]|e] eqn:E1;
    [|by apply decrement_balance_Err in E1 as ->].
  apply decrement_credit in E1 as C; [|done].
  assert (I1 : Inv (ob w1) B) by (eapply Inv_credit; [done|done|lia]).
  unfold mbind, M_bind, lift_tip20, get, modify, throw, mret, M_ret.
  destruct (tip20_from_address token); [|done].
  destruct (tip20_transfer (tip20 w1) token DARKPOOL_ADDRESS sender amount) as [l|] eqn:El; [|done].
  pose proof (tip20_push _ _ _ _ _ Hu El) as Hpush. rewrite (cr_tip20 _ _ _ _ _ C) in Hpush.
  split_and!; try done.
  - by exists w1.
  - apply (cr_logs _ _ _ _ _ C).
  - intros t. unfold surplus. cbn. rewrite Hpush, (cr_total _ _ _ _ _ C). case_match; lia.
Qed.

Lemma create_pair_spec bs qt w B :
  Inv (ob w) B ->
  run (create_pair keccak256 bs qt) w (fun k w' =>
    k = key bs qt /\ bs <> qt /\ (k ∉ book_keys (ob w)) /\
    w' = set_ob (with_pair k bs qt (ob w)) w /\ Inv (ob w') B).
Proof.
  intros I. unfold create_pair.
  apply run_bind, run_reject; [done|]. intros Hne%Z.eqb_neq.
  unfold run, mbind at 1, M_bind at 1.
  destruct (validate_pair_tokens bs qt w) as [[r w1]|e] eqn:E1;
    [|by eapply validate_pair_tokens_Err].
  apply validate_pair_tokens_Ok in E1 as (-> & Hb & Hq). rewrite bind_books_read.
  apply run_bind, run_reject; [done|]. intros Hz%negb_false_iff%Z.eqb_eq.
  unfold run. lazymatch goal with |- match ?r with _ => _ end =>
    change r with (Ok (E := fault) (key bs qt, set_ob (with_pair (key bs qt) bs qt (ob w)) w)) end.
  split_and!; try done; [rewrite (inv_keys_iff _ _ _ _ I); lia | by apply Inv_with_pair].
Qed.

(** ** The dispatcher *)

(** Decoded arguments are in the range of their ABI types. *)
Definition call_wf (c : Call) : Prop :=
  match c with
  | placeCall _ _ amount price _ _ | marketBuyCall _ _ amount price _
  | marketSellCall _ _ amount price _ =>
      in_u128 amount /\ in_u128 price
  | depositCall _ amount | withdrawCall _ amount => in_u128 amount
  | _ => True
  end.

Lemma Preserved_refl w B : Inv (ob w) B -> Preserved w w.
Proof. intros I. split; [by exists B | lia | done]. Qed.

Lemma safe_then {A C} (m : M (World L) fault A) (f : A -> M (World L) fault C) w :
  (forall a w', exists c, f a w' = Ok (c, w')) -> safe m w -> safe (m ≫= f) w.
Proof.
  intros Hf Hm. eapply run_then; [exact Hm|]. intros a w' H.
  destruct (Hf a w') as [c E]. unfold run. by rewrite E.
Qed.

(** Views leave the state as it is. *)
Lemma safe_view {A} (m : M (World L) fault A) w B :
  Inv (ob w) B -> (forall w a w', m w = Ok (a, w') -> w' = w) -> (forall w, m w <> Err OutOfFuel) ->
  safe m w.
Proof.
  intros I Hv He. unfold safe, run. destruct (m w) as [[a w']|e] eqn:E.
  - apply Hv in E as ->. by eapply Preserved_refl.
  - intros ->. by apply (He w).
Qed.

Lemma place_safe sender bs qt amount price is_bid tif w B :
  Inv (ob w) B -> Z.max (next_order_id (ob w)) 1 < U128_MAX -> sender <> DARKPOOL_ADDRESS ->
  in_u128 amount -> in_u128 price ->
  safe (place keccak256 sender bs qt amount price is_bid tif) w.
Proof.
  intros. eapply run_mono; [by eapply place_spec|]. intros id w' [[P -> Pn Ps] _].
  destruct P as (B' & _ & _ & I' & _). split; [by exists B' | lia | done].
Qed.

Lemma marketed_preserved sender bs qt amount limit is_bid tif w B id f q w' :
  Marketed sender bs qt amount limit is_bid tif w B id f q w' -> Preserved w w'.
Proof.
  intros [P _ _ _ -> Pn Ps]. destruct P as (B' & _ & I' & _). split; [by exists B' | lia | done].
Qed.

Lemma cancel_safe sender id w B : Inv (ob w) B -> safe (cancel sender id) w.
Proof.
  intros I. eapply run_mono; [by apply cancel_spec|].
  intros [] w' (k & b & l1 & e & l2 & _ & _ & _ & I' & Eb & En & _ & Et & _).
  split; [eauto | lia|]. intros t. unfold surplus, token_total. by rewrite Et, Eb.
Qed.

Lemma deposit_safe sender token amount w B :
  Inv (ob w) B -> 0 <= amount -> sender <> DARKPOOL_ADDRESS -> safe (deposit sender token amount) w.
Proof.
  intros I Ha Hu. eapply run_mono; [by apply deposit_spec|]. intros [] w' [F I'].
  split; [eauto | rewrite (fd_next _ _ _ _ _ F); lia | by apply F].
Qed.

Lemma withdraw_safe sender token amount w B :
  Inv (ob w) B -> 0 <= amount -> sender <> DARKPOOL_ADDRESS -> safe (withdraw sender token amount) w.
Proof.
  intros I Ha Hu. eapply run_mono; [by apply (withdraw_spec _ _ _ _ B)|].
  intros [] w' (_ & (w1 & C & E) & I' & _ & _ & Hs).
  split; [eauto | rewrite E, (cr_next _ _ _ _ _ C); lia | done].
Qed.

Lemma create_pair_safe bs qt w B :
  Inv (ob w) B -> safe (create_pair keccak256 bs qt) w.
Proof.
  intros I. eapply run_mono; [by apply (create_pair_spec _ _ _ B)|].
  intros k w' (_ & _ & _ & -> & I'). split; [eauto | cbn; lia | done].
Qed.

Lemma available_safe u t w B : Inv (ob w) B -> safe (available_balance_of u t) w.
Proof.
  intros I. unfold safe, run. rewrite (available_balance_of_spec _ _ u t w B I).
  by eapply Preserved_refl.
Qed.

Ltac view_run := intros;
  repeat match goal with
  | H : context [get_order] |- _ => unfold get_order in H
  | H : context [pair_at] |- _ => unfold pair_at in H
  | H : context [best_bid] |- _ => unfold best_bid in H
  | H : context [best_ask] |- _ => unfold best_ask in H
  | H : context [pair_exists] |- _ => unfold pair_exists in H
  end;
  unfold get_order, pair_at, pair_count, pair_exists, best_bid, best_ask, balance_of, orders_read,
    books_read, lift_option, reject_if, get, throw, mbind, M_bind, mret, M_ret in *;
  repeat case_match; simplify_eq; try done.

(** Whatever the calldata, a call keeps the invariant, the backing of the
    balances, and terminates. *)
Lemma call_safe decode calldata sender w B :
  (forall c, decode calldata = Some c -> call_wf c) ->
  Inv (ob w) B -> Z.max (next_order_id (ob w)) 1 < U128_MAX -> sender <> DARKPOOL_ADDRESS ->
  safe (call keccak256 decode calldata sender) w.
Proof.
  intros Hwf I Hn Hu. unfold call. destruct (decode calldata) as [c|]; [|done].
  specialize (Hwf c eq_refl). destruct c; cbn [call_wf] in Hwf;
    repeat match goal with H : _ /\ _ |- _ => destruct H end;
    try (eapply safe_view; [done|view_run..]; fail).
  - apply safe_then; [by eexists|]. by eapply place_safe.
  - apply safe_then; [by eexists|]. by eapply cancel_safe.
  - apply safe_then; [by eexists|]. eapply deposit_safe; [done|apply Hwf|done].
  - apply safe_then; [by eexists|]. eapply withdraw_safe; [done|apply Hwf|done].
  - apply run_bind, run_reject; [done|]. intros _.
    apply safe_then; [by eexists|]. by eapply available_safe.
  - apply safe_then; [by eexists|]. by eapply create_pair_safe.
  - apply safe_then; [by intros [[]]; eexists|]. eapply run_mono; [by eapply market_buy_spec|].
    intros [[] ] w' P. by eapply marketed_preserved.
  - apply safe_then; [by intros [[]]; eexists|]. eapply run_mono; [by eapply market_sell_spec|].
    intros [[] ] w' P. by eapply marketed_preserved.
Qed.
End operations.
