(* ===== verification/OrderbookSafety.v ===== *)
(** * Safety of the orderbook over every reachable state

    Calls by arbitrary senders interleave with token activity outside the
    orderbook.  The theorems hold in every state reached that way. *)

From S2P Require Import Prelude.
From S2P Require Import OrderbookModel.
From S2P Require Import OrderbookArith.
From S2P Require Import OrderbookRep.
From S2P Require Import OrderbookInv.
From S2P Require Import OrderbookMatching.
From S2P Require Import OrderbookFunding.
From S2P Require Import OrderbookOps.
#[local] Open Scope Z_scope.

(** The storage of a freshly deployed orderbook. *)
Definition empty_orderbook : DarkpoolOrderbook := mkOrderbook ∅ ∅ ∅ 0 [].

Lemma Inv_empty keccak256 P : Inv keccak256 P empty_orderbook (fun _ _ => []).
Proof.
  assert (Hno : forall e : Entry, e ∉ []) by apply not_elem_of_nil.
  assert (Hbk : forall k, book_at empty_orderbook k = zero_meta) by done.
  split; cbn [book_keys empty_orderbook].
  - split; try done.
    + by intros k [].
    + intros k b. apply NoDup_nil_2.
    + intros k b e []%Hno.
  - intros k b e []%Hno.
  - constructor.
  - intros k b e []%Hno.
  - constructor.
  - intros k. rewrite Hbk. split; [by intros ?%not_elem_of_nil | done].
  - intros k b e []%Hno.
  - intros k []%not_elem_of_nil.
  - done.
  - done.
  - intros k x y []%Hno.
Qed.

Section reachability.
Context {L : Type} {T20 : Tip20 L} {T20L : Tip20Laws L}.
Context (keccak256 : list Z -> Z) (decode : list Z -> option Call).
Implicit Types (w : World L).

(** A successful call by anyone but the orderbook itself (a failed call
    changes nothing), or token activity that moves no token out of the
    orderbook: only the orderbook sends from its own address. *)
Inductive step w : World L -> Prop :=
| step_call sender calldata out w' :
    sender <> DARKPOOL_ADDRESS ->
    call keccak256 decode calldata sender w = Ok (out, w') -> step w w'
| step_token l :
    (forall t, tip20_holdings (tip20 w) t <= tip20_holdings l t) ->
    step w (mkWorld (ob w) l (logs w)).

(** [reach n w]: [w] is reached from deployment in [n] steps. *)
Inductive reach : nat -> World L -> Prop :=
| reach_init l : (forall t, 0 <= tip20_holdings l t) -> reach 0 (mkWorld empty_orderbook l [])
| reach_step n w w' : reach n w -> step w w' -> reach (S n) w'.

(** Calldata decodes to values of the ABI types. *)
Hypothesis decode_wf : forall calldata c, decode calldata = Some c -> call_wf c.
Hypothesis book_key_inj : forall a b c d,
  is_tip20 a -> is_tip20 b -> is_tip20 c -> is_tip20 d ->
  compute_book_key keccak256 a b = compute_book_key keccak256 c d -> a = c /\ b = d.
Abbreviation Inv := (Inv keccak256 is_tip20).

Lemma reach_inv n w :
  reach n w -> Z.of_nat n < U128_MAX ->
  (exists B, Inv (ob w) B) /\ Z.max (next_order_id (ob w)) 1 <= Z.of_nat n + 1 /\
  forall t, 0 <= surplus w t.
Proof.
  induction 1 as [l Hl | n w w' _ IH Hs]; intros Hn.
  { split; [exists (fun _ _ => []); apply Inv_empty|]. split; [cbn; lia|].
    intros t. unfold surplus, token_total. cbn [ob tip20 empty_orderbook balances].
    rewrite msum_empty. specialize (Hl t). lia. }
  destruct (IH ltac:(lia)) as ((B & I) & Hx & Hsur). clear IH.
  destruct Hs as [sender calldata out w' Hu E | l Hl].
  - pose proof (call_safe keccak256 book_key_inj decode calldata sender w B
      (decode_wf calldata) I ltac:(lia) Hu) as Hsafe.
    unfold safe, run in Hsafe. rewrite E in Hsafe. destruct Hsafe as [Hi Hnx Hs].
    split; [done|]. split; [lia|]. intros t. rewrite Hs. apply Hsur.
  - split; [by exists B|]. split; [cbn; lia|]. intros t. specialize (Hsur t). specialize (Hl t).
    unfold surplus in *. cbn in *. lia.
Qed.

(** ** Well-formedness of the stored orders *)

(** What the fields of a stored order promise: its own id, below the next
    one; a positive quantity and price of 128 bits; an existing pair of two
    different TIP-20 tokens; and links to its neighbours of the same queue,
    which link back, with the head of the queue stored in the book. *)
Record order_typed (s : DarkpoolOrderbook) (i : Z) (o : Order) : Prop := mkOrderTyped {
  ot_id : order_id o = i /\ 0 < i < Z.max (next_order_id s) 1;
  ot_quantity : 0 < quantity o <= U128_MAX;
  ot_price : 0 < price o <= U128_MAX;
  ot_book : o_book_key o ∈ book_keys s /\
    base (book_at s (o_book_key o)) <> quote (book_at s (o_book_key o)) /\
    is_tip20 (base (book_at s (o_book_key o))) /\ is_tip20 (quote (book_at s (o_book_key o)));
  ot_prev : if prev o =? 0 then best (is_bid o) (book_at s (o_book_key o)) = i
    else exists p, orders s !! prev o = Some p /\ next p = i /\
      o_book_key p = o_book_key o /\ is_bid p = is_bid o;
  ot_next : next o = 0 \/ exists n, orders s !! next o = Some n /\ prev n = i /\
    o_book_key n = o_book_key o /\ is_bid n = is_bid o /\
    (if is_bid o then price n <= price o else price o <= price n)
}.

Lemma Inv_order_typed s B i o : Inv s B -> orders s !! i = Some o -> order_typed s i o.
Proof.
  intros I Ho. pose proof (inv_rep _ _ _ _ I) as R.
  destruct (rep_cover _ _ R i o Ho) as (e & He & <-).
  set (k := o_book_key o) in *. set (b := is_bid o) in *.
  destruct (list_elem_of_split _ _ He) as (l1 & l2 & EB).
  pose proof (rep_seg _ _ R k b) as Hseg. pose proof (rep_head _ _ R k b) as Hhd.
  pose proof (inv_sorted _ _ _ _ I k b) as Hsort.
  pose proof (inv_entry _ _ _ _ I k b e He) as [Hq Hp].
  pose proof (inv_ids _ _ _ _ I k b e He) as Hid. pose proof (rep_pos _ _ R k b) as Hpos.
  destruct (inv_pair _ _ _ _ I k (inv_live _ _ _ _ I k b e He)) as (_ & Hpair).
  rewrite EB in Hseg, Hhd, Hsort, Hpos. apply seg_app in Hseg as [Hl [Ee Hr]].
  rewrite Ho in Ee. injection Ee as Eo. subst k b. rewrite Eo in *. cbn in *.
  split; cbn; try done.
  - split; [done|]. split; [apply Hpos; set_solver | done].
  - split; [|done]. exact (inv_live _ _ _ _ I _ _ _ He).
  - destruct l1 as [|d l1 _] using rev_ind; cbn in *; [done|].
    rewrite last_id_snoc. rewrite (proj2 (Z.eqb_neq _ _)).
    2: { assert (0 < e_id d) by (apply Hpos; set_solver). lia. }
    apply seg_app in Hl as [_ [Ed _]]. eexists; split; [exact Ed | done].
  - destruct l2 as [|c l2]; [by left|right]. destruct Hr as [Ec _].
    eexists; split; [exact Ec|]. cbn. do 3 (split; [done|]).
    assert (Hab : ahead (is_bid o) e c).
    { apply StronglySorted_app in Hsort as (_ & _ & Hs). apply StronglySorted_inv in Hs as [_ Hf].
      inversion Hf; subst. done. }
    unfold ahead, better in Hab. destruct (is_bid o); lia.
Qed.

(** C4. In every reachable state the stored orders are well formed: [order_typed]. *)
Theorem reachable_orders_typed n w i o :
  reach n w -> Z.of_nat n < U128_MAX -> orders (ob w) !! i = Some o ->
  order_typed (ob w) i o /\ forall u t, in_u128 (balance_at (ob w) u t).
Proof.
  intros Hr Hn Ho. destruct (reach_inv n w Hr Hn) as ((B & I) & _).
  split; [by eapply Inv_order_typed | apply (inv_range _ _ _ _ I)].
Qed.

(** ** Solvency and custody *)

(** C1. In every reachable state, for every account and token, the walk that
    computes the reserved amount succeeds, the reserve never exceeds the
    internal balance, and the available balance is exactly the difference. *)
Theorem reachable_solvent n w u t :
  reach n w -> Z.of_nat n < U128_MAX ->
  exists r, reserved_balance_of u t w = Ok (r, w) /\
    available_balance_of u t w = Ok (balance_at (ob w) u t - r, w) /\
    0 <= r <= balance_at (ob w) u t /\ balance_at (ob w) u t <= U128_MAX.
Proof.
  intros Hr Hn. destruct (reach_inv n w Hr Hn) as ((B & I) & _).
  exists (reserve (ob w) B u t).
  split; [by eapply reserved_balance_of_spec|]. split; [by eapply available_balance_of_spec|].
  split; [split; [|apply I]|apply I].
  apply reserve_nonneg, (inv_entry _ _ _ _ I).
Qed.

(** C2. In every reachable state the orderbook holds at least as many tokens
    of each kind as the internal balances it owes add up to. *)
Theorem reachable_custody n w t :
  reach n w -> Z.of_nat n < U128_MAX ->
  token_total (ob w) t <= tip20_holdings (tip20 w) t.
Proof.
  intros Hr Hn. destruct (reach_inv n w Hr Hn) as (_ & _ & Hs).
  specialize (Hs t). unfold surplus in Hs. lia.
Qed.

(** C34. In every reachable state a call, whatever its calldata and sender,
    ends: no walk or matching loop runs past the stored orders (a cyclic or
    dangling queue would). *)
Theorem reachable_call_terminates n w calldata sender :
  reach n w -> Z.of_nat n + 1 < U128_MAX -> sender <> DARKPOOL_ADDRESS ->
  call keccak256 decode calldata sender w <> Err OutOfFuel.
Proof.
  intros Hr Hn Hu E. destruct (reach_inv n w Hr ltac:(lia)) as ((B & I) & Hx & _).
  pose proof (call_safe keccak256 book_key_inj decode calldata sender w B
    (decode_wf calldata) I ltac:(lia) Hu) as Hs.
  unfold safe, run in Hs. by rewrite E in Hs.
Qed.

(** In every reachable state, the book of a pair is not crossed: when both
    sides have an order, the best bid is below the best ask. *)
Theorem reachable_uncrossed n w bs qt bp bq w1 ap aq w2 :
  reach n w -> Z.of_nat n < U128_MAX ->
  best_bid keccak256 bs qt w = Ok ((bp, bq), w1) ->
  best_ask keccak256 bs qt w = Ok ((ap, aq), w2) ->
  bq <> 0 -> aq <> 0 -> bp < ap.
Proof.
  intros Hr Hn Eb Ea Hb Ha. destruct (reach_inv n w Hr Hn) as ((B & I) & _).
  pose proof (inv_rep _ _ _ _ I) as R. set (k := compute_book_key keccak256 bs qt) in *.
  assert (Hside : forall b, B k b <> [] -> exists e l, B k b = e :: l /\
            order_at (ob w) (best b (book_at (ob w) k)) = concr k b e 0 (hd_id 0 l) /\
            best b (book_at (ob w) k) <> 0).
  { intros b Hne. destruct (B k b) as [|e l] eqn:EB; [done|]. exists e, l.
    pose proof (rep_seg _ _ R k b) as Hs. rewrite (rep_head _ _ R k b), EB in *.
    cbn [hd_id]. split; [done|]. split; [by eapply seg_cons_at|].
    pose proof (rep_pos _ _ R k b e). rewrite EB in H. specialize (H ltac:(left)). lia. }
  assert (Hnil : forall b, B k b = [] -> best b (book_at (ob w) k) = 0).
  { intros b EB. by rewrite (rep_head _ _ R k b), EB. }
  unfold best_bid, best_ask in *. fold k in Eb, Ea. rewrite bind_books_read in Eb, Ea.
  change (best_bid_id (book_at (ob w) k)) with (best true (book_at (ob w) k)) in Eb.
  change (best_ask_id (book_at (ob w) k)) with (best false (book_at (ob w) k)) in Ea.
  destruct (decide (B k true = [])) as [E1|N1].
  { rewrite (Hnil _ E1) in Eb. cbn in Eb. by injection Eb as _ <-. }
  destruct (decide (B k false = [])) as [E2|N2].
  { rewrite (Hnil _ E2) in Ea. cbn in Ea. by injection Ea as _ <-. }
  destruct (Hside true N1) as (x & l1 & EB1 & O1 & Z1).
  destruct (Hside false N2) as (y & l2 & EB2 & O2 & Z2).
  rewrite (proj2 (Z.eqb_neq _ _) Z1), bind_orders_read, O1 in Eb. inv_M Eb.
  rewrite (proj2 (Z.eqb_neq _ _) Z2), bind_orders_read, O2 in Ea. inv_M Ea.
  apply (inv_uncrossed _ _ _ _ I k); [rewrite EB1 | rewrite EB2]; left.
Qed.

(** ** Operations refine their abstract counterparts *)

(** C3. [place], in every reachable state, either fails without running out of
    fuel, or does exactly this: it takes the next id, matches the order
    against the other side of its book in priority order ([amatch]), rests
    what is left behind the orders of the same or a better price ([ins]),
    logs submission, fills and placement in that order, touches no other
    queue, and leaves the invariant and the backing of the balances intact. *)
Theorem place_refines n w sender bs qt amount price is_bid tif :
  reach n w -> Z.of_nat n + 1 < U128_MAX -> sender <> DARKPOOL_ADDRESS ->
  in_u128 amount -> in_u128 price ->
  exists B, Inv (ob w) B /\
    match place keccak256 sender bs qt amount price is_bid tif w with
    | Ok (id, w') =>
        Placed keccak256 sender bs qt amount price is_bid tif w B id w' /\
        tif = TIME_IN_FORCE_GTC /\ MIN_ORDER_AMOUNT <= amount /\ bs <> qt
    | Err e => e <> OutOfFuel
    end.
Proof.
  intros Hr Hn Hu Ha Hp. destruct (reach_inv n w Hr ltac:(lia)) as ((B & I) & Hx & _).
  exists B. split; [done|]. apply (place_spec keccak256 book_key_inj); try done. lia.
Qed.

(** [market_buy], in every reachable state, either fails without running
    out of fuel, or fills in priority order at most the amount, at prices up
    to the limit, for at most the escrow [bid_escrow amount max_price]; a
    fill-or-kill order that succeeds is filled in full; nothing is rested. *)
Theorem market_buy_refines n w sender bs qt amount max_price tif :
  reach n w -> Z.of_nat n + 1 < U128_MAX -> sender <> DARKPOOL_ADDRESS ->
  in_u128 amount -> in_u128 max_price ->
  exists B, Inv (ob w) B /\
    match market_buy keccak256 sender bs qt amount max_price tif w with
    | Ok ((id, filled, spent), w') =>
        Marketed keccak256 sender bs qt amount max_price true tif w B id filled spent w'
    | Err e => e <> OutOfFuel
    end.
Proof.
  intros Hr Hn Hu Ha Hp. destruct (reach_inv n w Hr ltac:(lia)) as ((B & I) & Hx & _).
  exists B. split; [done|].
  pose proof (market_buy_spec keccak256 book_key_inj sender bs qt amount max_price tif w B I
    ltac:(lia) Hu Ha Hp) as Hs.
  unfold run in Hs. by destruct (market_buy _ _ _ _ _ _ _ w) as [[[[]] ]|].
Qed.

(** [market_sell], likewise: at most the amount is sold, to the best bids
    first, at prices no lower than the limit; fill-or-kill is all or nothing;
    nothing is rested. *)
Theorem market_sell_refines n w sender bs qt amount min_price tif :
  reach n w -> Z.of_nat n + 1 < U128_MAX -> sender <> DARKPOOL_ADDRESS ->
  in_u128 amount -> in_u128 min_price ->
  exists B, Inv (ob w) B /\
    match market_sell keccak256 sender bs qt amount min_price tif w with
    | Ok ((id, filled, received), w') =>
        Marketed keccak256 sender bs qt amount min_price false tif w B id filled received w'
    | Err e => e <> OutOfFuel
    end.
Proof.
  intros Hr Hn Hu Ha Hp. destruct (reach_inv n w Hr ltac:(lia)) as ((B & I) & Hx & _).
  exists B. split; [done|].
  pose proof (market_sell_spec keccak256 book_key_inj sender bs qt amount min_price tif w B I
    ltac:(lia) Hu Ha Hp) as Hs.
  unfold run in Hs. by destruct (market_sell _ _ _ _ _ _ _ w) as [[[[]] ]|].
Qed.

(** [cancel], in every reachable state, removes exactly the named order,
    only for its maker: no other order, no balance and no token moves, and
    the maker's available balance grows by what the order reserved. *)
Theorem cancel_releases n w sender id w' :
  reach n w -> Z.of_nat n < U128_MAX -> cancel sender id w = Ok (tt, w') ->
  exists B k b l1 e l2,
    Rep (ob w) B /\ B k b = l1 ++ e :: l2 /\ e_id e = id /\ e_maker e = sender /\
    Rep (ob w') (upd_queue B k b (l1 ++ l2)) /\ balances (ob w') = balances (ob w) /\
    tip20 w' = tip20 w /\
    logs w' = logs w ++ [OrderCancelled id sender (e_qty e) CANCEL_REASON_USER] /\
    forall u t, exists r, reserved_balance_of u t w = Ok (r, w) /\
      reserved_balance_of u t w' =
        Ok (r - (if (pay_token b (book_at (ob w) k) =? t) && (sender =? u)
                 then entry_reserve b e else 0), w').
Proof.
  intros Hr Hn E. destruct (reach_inv n w Hr Hn) as ((B & I) & _).
  pose proof (cancel_spec keccak256 book_key_inj sender id w B I) as Hs. unfold run in Hs. rewrite E in Hs.
  destruct Hs as (k & b & l1 & e & l2 & EB & Hid & Hm & I' & Eb & En & Ek & Et & Htok & El).
  exists B, k, b, l1, e, l2. split_and!; try done; [apply I|apply I'|].
  intros u t. exists (reserve (ob w) B u t).
  split; [by eapply reserved_balance_of_spec|].
  rewrite (reserved_balance_of_spec _ _ u t w' _ I'). repeat f_equal.
  rewrite (reserve_upd (ob w)); [|apply I| |done|done].
  - rewrite EB. unfold side_reserve. rewrite !sumZ_app, sumZ_cons, Hm.
    destruct (_ =? t), (sender =? u); cbn; lia.
  - apply (inv_live _ _ _ _ I k b e). rewrite EB. set_solver.
Qed.

(** [withdraw], in every reachable state, pays out at most the available
    balance, debits exactly the amount from the sender's internal balance of
    that token and from nothing else, and takes the same amount out of the
    orderbook's token holdings. *)
Theorem withdraw_exact n w sender token amount w' :
  reach n w -> Z.of_nat n < U128_MAX -> sender <> DARKPOOL_ADDRESS -> 0 <= amount ->
  withdraw sender token amount w = Ok (tt, w') ->
  (exists a, available_balance_of sender token w = Ok (a, w) /\ amount <= a) /\
  (forall u t, balance_at (ob w') u t =
     balance_at (ob w) u t - (if (sender =? u) && (token =? t) then amount else 0)) /\
  (forall t, tip20_holdings (tip20 w') t =
     tip20_holdings (tip20 w) t - (if token =? t then amount else 0)) /\
  orders (ob w') = orders (ob w) /\ books (ob w') = books (ob w).
Proof.
  intros Hr Hn Hu Ha E. destruct (reach_inv n w Hr Hn) as ((B & I) & _).
  pose proof (withdraw_spec keccak256 sender token amount w B I Ha Hu) as Hs.
  unfold run in Hs. rewrite E in Hs.
  destruct Hs as (Hle & (w1 & C & Eo) & _ & _ & Hh & _). rewrite Eo. split_and!; try done.
  - eexists. split; [by eapply available_balance_of_spec | done].
  - intros u t. rewrite (cr_balance _ _ _ _ _ C). case_match; lia.
  - apply C.
  - apply C.
Qed.
End reachability.

(** ** Queues: insertion and removal undo each other *)

Definition queues_eq : relation Queues := pointwise_relation Z (pointwise_relation bool eq).

#[export] Instance Rep_proper : Proper (eq ==> queues_eq ==> impl) Rep.
Proof.
  intros s ? <- B B' E R. split.
  - intros k b. rewrite <- (E k b). apply R.
  - intros k b. rewrite <- (E k b). apply R.
  - intros k b. rewrite <- (E k b). apply R.
  - intros k b e. rewrite <- (E k b). apply R.
  - intros i o Ho. rewrite <- (E _ _). by apply R.
Qed.

Lemma ins_split b e l : exists l1 l2, l = l1 ++ l2 /\ ins b e l = l1 ++ e :: l2.
Proof.
  induction l as [|c l (l1 & l2 & -> & E)]; cbn; [by exists [], []|].
  destruct (better b e c); [by exists [], (c :: l1 ++ l2)|].
  exists (c :: l1), l2. by rewrite E.
Qed.

Lemma upd_queue_undo B k b l l' :
  l' = B k b -> queues_eq (upd_queue (upd_queue B k b l) k b l') B.
Proof.
  intros -> k' b'. destruct (decide (k = k' /\ b = b')) as [[<- <-]|Hne].
  - by rewrite upd_queue_eq.
  - by rewrite !upd_queue_ne.
Qed.

(** Inserting a fresh order into its queue and removing the stored order
    again succeeds and gives back the same queues, links and best pointers
    included, with balances, pairs, ids, tokens and logs untouched. *)
Theorem insert_remove_roundtrip {L} (w : World L) B k b e :
  Rep (ob w) B -> orders (ob w) !! e_id e = None -> 0 < e_id e ->
  exists w1 w2,
    insert_order k (concr k b e 0 0) w = Ok (tt, w1) /\
    remove_order k (order_at (ob w1) (e_id e)) w1 = Ok (tt, w2) /\
    Rep (ob w1) (upd_queue B k b (ins b e (B k b))) /\
    Rep (ob w2) B /\ Frame w w2.
Proof.
  intros R Hf Hp.
  destruct (insert_order_refines k b e w B R Hf Hp) as (w1 & E1 & R1 & F1).
  destruct (ins_split b e (B k b)) as (l1 & l2 & Hl & Hi). rewrite Hi in R1.
  destruct (remove_order_refines k b e l1 l2 w1 _ R1 (upd_queue_eq _ _ _ _))
    as (w2 & E2 & R2 & F2).
  exists w1, w2. rewrite Hi. split; [done|]. split.
  { pose proof (rep_seg _ _ R1 k b) as Hs. rewrite upd_queue_eq in Hs.
    apply seg_app in Hs as [_ [Hs _]]. unfold order_at. by rewrite Hs. }
  split; [done|]. split; [|by eapply Frame_trans].
  by rewrite <- (upd_queue_undo B k b (l1 ++ e :: l2) (l1 ++ l2) (eq_sym Hl)).
Qed.

(** ** Escrow *)

(** The escrow taken for a bid pays for every sequence of fills within
    its quantity at prices up to its limit, whatever the rounding of each
    fill, and what is left of it still covers the unfilled remainder. *)
Theorem escrow_covers_fills q limit escrow (fills : list (Z * Z)) :
  in_u128 q -> in_u128 limit -> bid_escrow q limit = Some escrow ->
  Forall (fun '(f, p) => 0 <= f /\ 0 <= p <= limit) fills -> fills_base fills <= q ->
  fills_quote fills <= escrow /\
  (fills_base fills < q ->
   exists rest, bid_escrow (q - fills_base fills) limit = Some rest /\
                fills_quote fills + rest <= escrow).
Proof.
  intros Hq Hl He Hall Hb. apply bid_escrow_Some in He as (Hq0 & Hl0 & -> & Hmax); [|done..].
  pose proof (fills_covered fills q limit ltac:(lia) Hall Hb) as Hc.
  assert (H0 : 0 <= fills_base fills).
  { apply sumZ_nonneg. rewrite Forall_forall in Hall. intros [f p] Hin%Hall. cbn. lia. }
  pose proof (ceil_quote_nonneg (q - fills_base fills) limit ltac:(lia) ltac:(lia)) as Hn.
  split; [lia|]. intros Hlt. exists (ceil_quote (q - fills_base fills) limit). split; [|lia].
  unfold in_u128 in *. apply bid_escrow_Some; unfold in_u128; [lia|lia|]. split_and!; try lia.
  assert (0 <= fills_quote fills); [|lia].
  apply sumZ_nonneg. rewrite Forall_forall in Hall. intros [f p] Hin%Hall. cbn.
  apply floor_quote_nonneg; lia.
Qed.

(** ** Privacy *)

(** Per-account reads answer the account itself only: another user's
    balance or available balance is refused, and an order is shown to its
    maker alone. *)
Theorem reads_are_private {L} `{Tip20 L} keccak256 decode calldata sender (w : World L) :
  match decode calldata with
  | Some (balanceOfCall u t) | Some (availableBalanceOfCall u t) =>
      u <> sender -> call keccak256 decode calldata sender w = Err (Revert Unauthorized)
  | Some (getOrderCall id) =>
      match call keccak256 decode calldata sender w with
      | Ok (OutView v, w') => v_maker v = sender /\ w' = w
      | Ok _ => False
      | Err e => maker (order_at (ob w) id) <> 0 -> e = Revert Unauthorized
      end
  | _ => True
  end.
Proof.
  unfold call. destruct (decode calldata) as [[]|]; try done.
  - unfold get_order, orders_read, books_read, mbind, M_bind, get, reject_if, throw, mret, M_ret.
    destruct (Z.eqb_spec (maker (order_at (ob w) orderId)) 0) as [Hz|]; [by intros []|].
    destruct (Z.eqb_spec (maker (order_at (ob w) orderId)) sender) as [Hm|]; by cbn.
  - intros Hne. by rewrite (proj2 (Z.eqb_neq _ _) Hne).
  - intros Hne. by rewrite (proj2 (Z.eqb_neq _ _) Hne).
Qed.

(** ** Dust remainders *)

(** A resting ask whose remainder is worth less than one quote unit
    (partial fills can leave one: only whole orders are checked) makes every
    bid that reaches it fail with an arithmetic error, instead of being
    skipped or filled: the side is blocked until its maker cancels. *)
Theorem dust_ask_blocks {L} (w : World L) k fuel id taker limit amount bs qt :
  let ask := order_at (ob w) (best_ask_id (book_at (ob w) k)) in
  best_ask_id (book_at (ob w) k) <> 0 -> price ask <= limit ->
  0 < quantity ask <= amount -> 0 < price ask -> quantity ask * price ask < PRICE_SCALE ->
  cross_asks (S fuel) k id taker limit amount bs qt w = Err (StorageError under_overflow).
Proof.
  intros ask Hb Hl Hq Hp Hd. cbn [cross_asks].
  rewrite (proj2 (Z.eqb_neq amount 0)) by lia. rewrite bind_books_read.
  rewrite (proj2 (Z.eqb_neq _ 0) Hb), bind_orders_read. fold ask.
  rewrite (proj2 (Z.ltb_ge limit (price ask)) Hl). cbv zeta.
  rewrite Z.min_r by lia.
  assert (E : quote_amount (quantity ask) (price ask) = None); [|by rewrite E].
  unfold quote_amount, checked_mul, PRICE_SCALE, U256_MAX in *.
  rewrite (proj2 (Z.leb_le _ _)) by lia. cbn. rewrite Z.div_small by nia. done.
Qed.
