(* ===== verification/OrderbookWitness.v ===== *)
(** * A concrete run of the orderbook

    Instantiates what the orderbook theorems leave abstract (the TIP-20
    ledger, the hash, the calldata decoder), runs a few calls, and applies
    the theorems to the states reached.  Also holds the run in which a dust
    remainder blocks a book. *)

From S2P Require Import Prelude.
From S2P Require Import OrderbookModel.
From S2P Require Import OrderbookArith.
From S2P Require Import OrderbookRep.
From S2P Require Import OrderbookInv.
From S2P Require Import OrderbookMatching.
From S2P Require Import OrderbookFunding.
From S2P Require Import OrderbookOps.
From S2P Require Import OrderbookSafety.
#[local] Open Scope Z_scope.

(** ** A TIP-20 ledger: balances by token and account *)

Abbreviation ledger := (gmap (Z * Z) Z).
Definition held (l : ledger) (token who : Z) : Z := default 0 (l !! (token, who)).
Definition move (l : ledger) (token from to amount : Z) : result tempo_error ledger :=
  if held l token from <? amount then Err (tip20_error 1)
  else
    let l1 := <[(token, from) := held l token from - amount]> l in
    Ok (<[(token, to) := held l1 token to + amount]> l1).

#[export] Instance ledger_tip20 : Tip20 ledger := {
  tip20_from_address a := if (0 <? a) && (a <=? ADDR_MAX) then Ok tt else Err (tip20_error 0);
  tip20_quote_token _ _ := Ok 0;
  tip20_system_transfer_from l token spender user amount := move l token user spender amount;
  tip20_transfer l token from to amount := move l token from to amount
}.

Lemma held_insert l token who v token' who' :
  held (<[(token, who) := v]> l) token' who' =
  if (token =? token') && (who =? who') then v else held l token' who'.
Proof.
  unfold held. destruct (Z.eqb_spec token token') as [->|]; cbn.
  - destruct (Z.eqb_spec who who') as [->|]; [by rewrite lookup_insert_eq|].
    rewrite lookup_insert_ne; [done | congruence].
  - rewrite lookup_insert_ne; [done | congruence].
Qed.

Lemma move_held l token from to amount l' who :
  from <> to -> move l token from to amount = Ok l' ->
  forall t, held l' t who = held l t who +
    (if token =? t then (if to =? who then amount else 0) - (if from =? who then amount else 0)
     else 0).
Proof.
  unfold move. intros Hne. destruct (_ <? amount); [done|]. intros [= <-] t.
  rewrite !held_insert, Z.eqb_refl. cbn [andb]. rewrite (proj2 (Z.eqb_neq from to) Hne).
  destruct (Z.eqb_spec token t) as [<-|]; cbn [andb]; [|lia].
  destruct (Z.eqb_spec to who) as [<-|]; [rewrite (proj2 (Z.eqb_neq from to) Hne); lia|].
  destruct (Z.eqb_spec from who) as [<-|]; lia.
Qed.

#[export] Instance ledger_laws : Tip20Laws ledger.
Proof.
  refine {| tip20_holdings l t := held l t DARKPOOL_ADDRESS |}; [done|..].
  - intros l token user amount l' Hu E t. rewrite (move_held _ _ _ _ _ _ DARKPOOL_ADDRESS Hu E t).
    rewrite Z.eqb_refl, (proj2 (Z.eqb_neq _ _) Hu). case_match; lia.
  - intros l token to amount l' Hu E t.
    rewrite (move_held _ _ _ _ _ _ DARKPOOL_ADDRESS (not_eq_sym Hu) E t).
    rewrite Z.eqb_refl, (proj2 (Z.eqb_neq _ _) Hu). case_match; lia.
Defined.

(** ** A hash without collisions *)

Definition inj_hash (bytes : list Z) : Z := Z.pos (encode bytes).

#[export] Instance inj_hash_inj : Inj eq eq inj_hash.
Proof. unfold inj_hash. intros x y E. apply (inj encode). congruence. Qed.

Lemma inj_hash_book_key a b c d :
  is_tip20 (L := ledger) a -> is_tip20 (L := ledger) b -> is_tip20 (L := ledger) c ->
  is_tip20 (L := ledger) d ->
  compute_book_key inj_hash a b = compute_book_key inj_hash c d -> a = c /\ b = d.
Proof.
  assert (Hr : forall x, is_tip20 (L := ledger) x -> 0 <= x < 256 ^ Z.of_nat 20).
  { intros x. unfold is_tip20. cbn [tip20_from_address ledger_tip20].
    destruct ((0 <? x) && (x <=? ADDR_MAX)) eqn:E; [|done]. intros _.
    apply andb_true_iff in E as [E1 E2]. unfold ADDR_MAX in *. bool_lia. }
  intros Ha%Hr Hb%Hr Hc%Hr Hd%Hr E. apply (inj inj_hash) in E.
  apply app_inj_1 in E as [E1 E2]; [|by rewrite !be_bytes_length].
  split; by apply (be_bytes_inj 20).
Qed.

(** ** A decoder: a selector, then the arguments *)

Definition u128 (x : Z) : bool := (0 <=? x) && (x <=? U128_MAX).

Definition decode (l : list Z) : option Call :=
  match l with
  | sel :: args =>
      match sel, args with
      | 1, [bs; qt; amount; price; bid; tif] =>
          if u128 amount && u128 price
          then Some (placeCall bs qt amount price (bid =? 1) tif) else None
      | 2, [id] => Some (cancelCall id)
      | 3, [token; amount] => if u128 amount then Some (depositCall token amount) else None
      | 4, [token; amount] => if u128 amount then Some (withdrawCall token amount) else None
      | 5, [user; token] => Some (balanceOfCall user token)
      | 6, [id] => Some (getOrderCall id)
      | _, _ => None
      end
  | [] => None
  end.

Lemma u128_in x : u128 x = true -> in_u128 x.
Proof. unfold u128, in_u128. intros [H1 H2]%andb_true_iff. bool_lia. Qed.

Lemma decode_wf calldata c : decode calldata = Some c -> call_wf c.
Proof.
  unfold decode. intros H. repeat case_match; simplify_eq; cbn; try done;
    repeat match goal with
    | E : (_ && _)%bool = true |- _ => apply andb_true_iff in E as [? ?]
    | E : u128 _ = true |- _ => apply u128_in in E
    end; done.
Qed.

(** ** The run *)

Definition exec (calldata : list Z) (sender : Z) (w : World ledger) : World ledger :=
  match call inj_hash decode calldata sender w with Ok (_, w') => w' | Err _ => w end.

Lemma reach_exec n w calldata sender :
  reach inj_hash decode n w -> sender <> DARKPOOL_ADDRESS ->
  is_ok (call inj_hash decode calldata sender w) = true ->
  reach inj_hash decode (S n) (exec calldata sender w).
Proof.
  intros Hr Hu Hok. unfold exec.
  destruct (call inj_hash decode calldata sender w) as [[out w']|] eqn:E; [|done].
  eapply reach_step; [exact Hr|]. by eapply step_call.
Qed.

Definition BASE : Z := 1001.
Definition QUOTE : Z := 1002.
Definition alice : Z := 7.
Definition bob : Z := 8.
Definition genesis : ledger := <[(BASE, alice) := 1000000]> {[ (QUOTE, bob) := 1000000 ]}.
Definition w0 : World ledger := mkWorld empty_orderbook genesis [].
(** Alice rests an ask of 1000 at 2.0; Bob's bid of 400 at 2.5 takes part of
    it; Bob rests a bid of 100 at 1.0. *)
Definition w1 := exec [1; BASE; QUOTE; 1000; 2000000; 0; 0] alice w0.
Definition w2 := exec [1; BASE; QUOTE; 400; 2500000; 1; 0] bob w1.
Definition w3 := exec [1; BASE; QUOTE; 100; 1000000; 1; 0] bob w2.

(** A dust remainder: 100 of an ask of 101 at 0.999999 is taken. *)
Definition d1 := exec [1; BASE; QUOTE; 101; 999999; 0; 0] alice w0.
Definition d2 := exec [1; BASE; QUOTE; 100; 999999; 1; 0] bob d1.
Definition book : Z := compute_book_key inj_hash BASE QUOTE.

Lemma reach_w0 : reach inj_hash decode 0 w0.
Proof.
  apply reach_init. intros t. cbn [tip20_holdings ledger_laws]. unfold genesis.
  rewrite held_insert. cbn. rewrite andb_false_r.
  unfold held. rewrite lookup_singleton_ne; [done|]. by intros [= _ ?].
Qed.

Lemma reach_w3 : reach inj_hash decode 3 w3.
Proof.
  apply reach_exec; [|done|vm_compute; reflexivity].
  apply reach_exec; [|done|vm_compute; reflexivity].
  apply reach_exec; [apply reach_w0|done|vm_compute; reflexivity].
Qed.

Lemma reach_d2 : reach inj_hash decode 2 d2.
Proof.
  apply reach_exec; [|done|vm_compute; reflexivity].
  apply reach_exec; [apply reach_w0|done|vm_compute; reflexivity].
Qed.

(** ** The theorems applied *)

Lemma reachable_solvent_witness :
  reach inj_hash decode 3 w3 /\
  exists r, reserved_balance_of alice BASE w3 = Ok (r, w3) /\
    available_balance_of alice BASE w3 = Ok (balance_at (ob w3) alice BASE - r, w3) /\
    0 <= r <= balance_at (ob w3) alice BASE /\ balance_at (ob w3) alice BASE <= U128_MAX.
Proof.
  split; [exact reach_w3|].
  exact (reachable_solvent inj_hash decode decode_wf inj_hash_book_key 3 w3 alice BASE
           reach_w3 eq_refl).
Defined.

Lemma reachable_orders_typed_witness :
  let o := mkOrder 1 alice (compute_book_key inj_hash BASE QUOTE) false 2000000 600 0 0 in
  orders (ob w3) !! 1 = Some o /\ order_typed (ob w3) 1 o.
Proof.
  intros o. split; [vm_compute; reflexivity|].
  exact (proj1 (reachable_orders_typed inj_hash decode decode_wf inj_hash_book_key 3 w3 1 o
           reach_w3 eq_refl ltac:(vm_compute; reflexivity))).
Defined.

Lemma reachable_custody_witness :
  token_total (ob w3) BASE <= tip20_holdings (tip20 w3) BASE.
Proof.
  exact (reachable_custody inj_hash decode decode_wf inj_hash_book_key 3 w3 BASE reach_w3 eq_refl).
Defined.

Lemma reachable_call_terminates_witness :
  call inj_hash decode [1; BASE; QUOTE; 700; 2000000; 1; 0] bob w3 <> Err OutOfFuel.
Proof.
  exact (reachable_call_terminates inj_hash decode decode_wf inj_hash_book_key 3 w3 _ bob
           reach_w3 eq_refl ltac:(done)).
Defined.

Lemma best_views_pure (w : World ledger) :
  (forall a w', best_bid inj_hash BASE QUOTE w = Ok (a, w') -> w' = w) /\
  (forall a w', best_ask inj_hash BASE QUOTE w = Ok (a, w') -> w' = w).
Proof.
  unfold best_bid, best_ask. split; intros a w' H; rewrite bind_books_read in H;
    case_match; try rewrite bind_orders_read in H; by inv_M H.
Qed.

Definition value {A} (r : result fault (A * World ledger)) : option A :=
  match r with Ok (a, _) => Some a | Err _ => None end.

Lemma view_value {A} (m : M (World ledger) fault A) w a :
  value (m w) = Some a -> (forall a w', m w = Ok (a, w') -> w' = w) -> m w = Ok (a, w).
Proof.
  intros Hv Hp. destruct (m w) as [[a' w']|]; [|done]. injection Hv as ->.
  by rewrite (Hp a w' eq_refl).
Qed.

Lemma best_w3 :
  best_bid inj_hash BASE QUOTE w3 = Ok ((1000000, 100), w3) /\
  best_ask inj_hash BASE QUOTE w3 = Ok ((2000000, 600), w3).
Proof.
  split.
  - refine (view_value _ w3 _ _ (proj1 (best_views_pure w3))). vm_compute. reflexivity.
  - refine (view_value _ w3 _ _ (proj2 (best_views_pure w3))). vm_compute. reflexivity.
Qed.

Lemma reachable_uncrossed_witness :
  best_bid inj_hash BASE QUOTE w3 = Ok ((1000000, 100), w3) /\
  best_ask inj_hash BASE QUOTE w3 = Ok ((2000000, 600), w3) /\ 1000000 < 2000000.
Proof.
  split; [apply best_w3|]. split; [apply best_w3|].
  exact (reachable_uncrossed inj_hash decode decode_wf inj_hash_book_key 3 w3 BASE QUOTE
           1000000 100 w3 2000000 600 w3 reach_w3 eq_refl (proj1 best_w3) (proj2 best_w3)
           ltac:(lia) ltac:(lia)).
Defined.

Lemma place_refines_witness :
  is_ok (place inj_hash bob BASE QUOTE 700 2000000 true 0 w3) = true /\
  exists B, Inv inj_hash is_tip20 (ob w3) B /\
    match place inj_hash bob BASE QUOTE 700 2000000 true 0 w3 with
    | Ok (id, w') => Placed inj_hash bob BASE QUOTE 700 2000000 true 0 w3 B id w' /\
        0 = TIME_IN_FORCE_GTC /\ MIN_ORDER_AMOUNT <= 700 /\ BASE <> QUOTE
    | Err e => e <> OutOfFuel
    end.
Proof.
  split; [vm_compute; reflexivity|].
  apply (place_refines inj_hash decode decode_wf inj_hash_book_key 3 w3 bob BASE QUOTE
           700 2000000 true 0 reach_w3 eq_refl); [done|apply u128_in; reflexivity..].
Defined.

Lemma market_buy_refines_witness :
  is_ok (market_buy inj_hash bob BASE QUOTE 500 2000000 TIME_IN_FORCE_FOK w3) = true /\
  exists B, Inv inj_hash is_tip20 (ob w3) B /\
    match market_buy inj_hash bob BASE QUOTE 500 2000000 TIME_IN_FORCE_FOK w3 with
    | Ok ((id, filled, spent), w') =>
        Marketed inj_hash bob BASE QUOTE 500 2000000 true TIME_IN_FORCE_FOK w3 B id filled spent w'
    | Err e => e <> OutOfFuel
    end.
Proof.
  split; [vm_compute; reflexivity|].
  apply (market_buy_refines inj_hash decode decode_wf inj_hash_book_key 3 w3 bob BASE QUOTE
           500 2000000 TIME_IN_FORCE_FOK reach_w3 eq_refl); [done|apply u128_in; reflexivity..].
Defined.

Lemma market_sell_refines_witness :
  is_ok (market_sell inj_hash alice BASE QUOTE 150 0 TIME_IN_FORCE_IOC w3) = true /\
  exists B, Inv inj_hash is_tip20 (ob w3) B /\
    match market_sell inj_hash alice BASE QUOTE 150 0 TIME_IN_FORCE_IOC w3 with
    | Ok ((id, filled, received), w') =>
        Marketed inj_hash alice BASE QUOTE 150 0 false TIME_IN_FORCE_IOC w3 B id filled received w'
    | Err e => e <> OutOfFuel
    end.
Proof.
  split; [vm_compute; reflexivity|].
  apply (market_sell_refines inj_hash decode decode_wf inj_hash_book_key 3 w3 alice BASE QUOTE
           150 0 TIME_IN_FORCE_IOC reach_w3 eq_refl); [done|apply u128_in; reflexivity..].
Defined.

Definition after {A} (m : M (World ledger) fault A) (w : World ledger) : World ledger :=
  match m w with Ok (_, w') => w' | Err _ => w end.

Lemma after_Ok (m : M (World ledger) fault unit) w :
  is_ok (m w) = true -> m w = Ok (tt, after m w).
Proof. unfold after. by destruct (m w) as [[[] w']|]. Qed.

Lemma cancel_releases_witness :
  exists B k b l1 e l2,
    Rep (ob w3) B /\ B k b = l1 ++ e :: l2 /\ e_id e = 1 /\ e_maker e = alice /\
    Rep (ob (after (cancel alice 1) w3)) (upd_queue B k b (l1 ++ l2)) /\
    balances (ob (after (cancel alice 1) w3)) = balances (ob w3) /\
    tip20 (after (cancel alice 1) w3) = tip20 w3 /\
    logs (after (cancel alice 1) w3) =
      logs w3 ++ [OrderCancelled 1 alice (e_qty e) CANCEL_REASON_USER] /\
    forall u t, exists r, reserved_balance_of u t w3 = Ok (r, w3) /\
      reserved_balance_of u t (after (cancel alice 1) w3) =
        Ok (r - (if (pay_token b (book_at (ob w3) k) =? t) && (alice =? u)
                 then entry_reserve b e else 0), after (cancel alice 1) w3).
Proof.
  apply (cancel_releases inj_hash decode decode_wf inj_hash_book_key 3 w3 alice 1
           (after (cancel alice 1) w3) reach_w3 eq_refl).
  apply after_Ok. vm_compute. reflexivity.
Defined.

Lemma withdraw_exact_witness :
  let w' := after (withdraw bob BASE 400) w3 in
  (exists a, available_balance_of bob BASE w3 = Ok (a, w3) /\ 400 <= a) /\
  (forall u t, balance_at (ob w') u t =
     balance_at (ob w3) u t - (if (bob =? u) && (BASE =? t) then 400 else 0)) /\
  (forall t, tip20_holdings (tip20 w') t =
     tip20_holdings (tip20 w3) t - (if BASE =? t then 400 else 0)) /\
  orders (ob w') = orders (ob w3) /\ books (ob w') = books (ob w3).
Proof.
  apply (withdraw_exact inj_hash decode decode_wf inj_hash_book_key 3 w3 bob BASE 400
           (after (withdraw bob BASE 400) w3) reach_w3 eq_refl); [done|lia|].
  apply after_Ok. vm_compute. reflexivity.
Defined.

Lemma insert_remove_roundtrip_witness :
  exists v1 v2,
    insert_order 5 (concr 5 true (mkEntry 1 alice 10 20) 0 0) w0 = Ok (tt, v1) /\
    remove_order 5 (order_at (ob v1) 1) v1 = Ok (tt, v2) /\
    Rep (ob v1) (upd_queue (fun _ _ => []) 5 true (ins true (mkEntry 1 alice 10 20) [])) /\
    Rep (ob v2) (fun _ _ => []) /\ Frame w0 v2.
Proof.
  apply (insert_remove_roundtrip w0 (fun _ _ => []) 5 true (mkEntry 1 alice 10 20)); [|done|done].
  apply (inv_rep inj_hash is_tip20), Inv_empty.
Defined.

Lemma escrow_covers_fills_witness :
  fills_quote [(100, 999999); (250, 1234567)] <= 433 /\
  (fills_base [(100, 999999); (250, 1234567)] < 351 ->
   exists rest, bid_escrow (351 - fills_base [(100, 999999); (250, 1234567)]) 1234567 = Some rest /\
     fills_quote [(100, 999999); (250, 1234567)] + rest <= 434).
Proof.
  split; [vm_compute; discriminate|].
  apply (escrow_covers_fills 351 1234567 434 [(100, 999999); (250, 1234567)]);
    [apply u128_in; reflexivity..|reflexivity| |vm_compute; discriminate].
  repeat constructor; lia.
Defined.

Lemma dust_ask_blocks_witness :
  reach inj_hash decode 2 d2 /\
  cross_asks 1 book 3 bob 2000000 100 BASE QUOTE d2 = Err (StorageError under_overflow) /\
  place inj_hash bob BASE QUOTE 100 2000000 true 0 d2 = Err (StorageError under_overflow) /\
  market_buy inj_hash bob BASE QUOTE 100 2000000 TIME_IN_FORCE_IOC d2 =
    Err (StorageError under_overflow).
Proof.
  split; [exact reach_d2|]. split; [|split; vm_compute; reflexivity].
  apply (dust_ask_blocks d2 book 0 3 bob 2000000 100 BASE QUOTE);
    vm_compute; [done|done|split; [done|discriminate]|done|done].
Defined.
