(* ===== verification/RefPrice.v ===== *)
(** * The reference-price guard

    Models src/crates/precompiles/src/refprice.rs.  Prices are [u128],
    timestamps [u64], the deviation bound [u32]; the multiplication by 10000
    saturates and the division floors, as in the source. *)

From S2P Require Import Prelude.
#[local] Open Scope Z_scope.

Record ReferencePrice := mkReferencePrice {
  price : Z;
  source : list Z;
  as_of_block : Z;
  as_of_timestamp : Z
}.

Record ReferencePriceGuard := mkReferencePriceGuard {
  max_deviation_bps : Z;
  max_staleness_secs : Z
}.

Inductive GuardrailRejection :=
| ProviderDisabled
| StaleReference (observed_age_secs max_age_secs : Z)
| OutOfRange (reference_price order_price max_deviation_bps deviation_bps : Z)
| ZeroReferencePrice.

Definition age_secs (snapshot : ReferencePrice) (now_secs : Z) : Z :=
  saturating_sub now_secs (as_of_timestamp snapshot).

Definition is_fresh (g : ReferencePriceGuard) (snapshot : ReferencePrice) (now_secs : Z) : bool :=
  if max_staleness_secs g =? 0 then true
  else age_secs snapshot now_secs <=? max_staleness_secs g.

Definition check_order_price (g : ReferencePriceGuard) (reference : option ReferencePrice)
    (now_secs order_price : Z) : result GuardrailRejection unit :=
  match reference with
  | None => Err ProviderDisabled
  | Some snapshot =>
      let age := age_secs snapshot now_secs in
      if (0 <? max_staleness_secs g) && (max_staleness_secs g <? age) then
        Err (StaleReference age (max_staleness_secs g))
      else if price snapshot =? 0 then Err ZeroReferencePrice
      else
        let diff := abs_diff order_price (price snapshot) in
        let deviation_bps := saturating_mul U128_MAX diff 10000 / price snapshot in
        if max_deviation_bps g <? deviation_bps then
          Err (OutOfRange (price snapshot) order_price (max_deviation_bps g) deviation_bps)
        else Ok tt
  end.

(** Machine ranges of a guard and a snapshot. *)
Definition guard_ok (g : ReferencePriceGuard) : Prop :=
  0 <= max_deviation_bps g <= U32_MAX /\ in_u64 (max_staleness_secs g).
Definition snapshot_ok (s : ReferencePrice) : Prop :=
  in_u128 (price s) /\ in_u64 (as_of_timestamp s).

(** The branch on the age in [check_order_price] is [is_fresh]. *)
Lemma stale_branch g s now :
  0 <= max_staleness_secs g ->
  (0 <? max_staleness_secs g) && (max_staleness_secs g <? age_secs s now) = negb (is_fresh g s now).
Proof.
  intros H. unfold is_fresh. destruct (Z.eqb_spec (max_staleness_secs g) 0) as [->|]; [done|].
  rewrite (proj2 (Z.ltb_lt 0 _)) by lia. cbn. by rewrite Z.leb_antisym, negb_involutive.
Qed.

Lemma div_le_iff a p b : 0 < p -> a / p <= b <-> a < (b + 1) * p.
Proof.
  intros Hp. split; intros H.
  - pose proof (Z.mod_pos_bound a p Hp). pose proof (Z.div_mod a p ltac:(lia)). nia.
  - apply Z.lt_succ_r, Z.div_lt_upper_bound; lia.
Qed.

(** The guard accepts an order exactly when there is a fresh, non-zero
    reference and the price is inside the band: ten thousand times the
    distance is below (bound + 1) times the reference, the bound being in
    basis points rounded down; the only other acceptance is a reference so
    large that (bound + 1) times it exceeds the 128-bit range, where the
    saturated deviation accepts every price. *)
Theorem guard_accepts_iff g reference now order_price :
  guard_ok g -> (forall s, reference = Some s -> snapshot_ok s) ->
  check_order_price g reference now order_price = Ok tt <->
  exists s, reference = Some s /\ is_fresh g s now = true /\ price s <> 0 /\
    (10000 * abs_diff order_price (price s) < (max_deviation_bps g + 1) * price s \/
     U128_MAX < (max_deviation_bps g + 1) * price s).
Proof.
  intros [_ Hst] Hs. destruct reference as [s|]; cbn; [|by split; [|intros (? & ? & _)]].
  destruct (Hs s eq_refl) as [Hp _]. rewrite stale_branch by apply Hst.
  destruct (is_fresh g s now) eqn:Ef; cbn; [|split; [done|intros (? & ? & ? & _); congruence]].
  destruct (Z.eqb_spec (price s) 0) as [E|E]; [split; [done|intros (? & ? & _ & ? & _); congruence]|].
  assert (Hpos : 0 < price s) by (unfold in_u128 in Hp; lia).
  pose proof (div_le_iff (saturating_mul U128_MAX (abs_diff order_price (price s)) 10000)
                (price s) (max_deviation_bps g) Hpos) as Hd.
  unfold saturating_mul in *. destruct (Z.ltb_spec (max_deviation_bps g)
    (U128_MAX `min` (abs_diff order_price (price s) * 10000) / price s)) as [Hlt|Hle].
  - split; [done|]. intros (s' & [= <-] & _ & _ & H). lia.
  - split; [|done]. intros _. exists s. apply Hd in Hle. split_and!; [done..|lia].
Qed.

(** Every rejection reports what was measured: no provider; the age and
    the window when the age exceeds the non-zero window; a zero reference; or
    a deviation above the bound, together with both prices. *)
Theorem guard_rejection_reason g reference now order_price r :
  guard_ok g ->
  check_order_price g reference now order_price = Err r ->
  match r with
  | ProviderDisabled => reference = None
  | StaleReference age window =>
      exists s, reference = Some s /\ window = max_staleness_secs g /\ 0 < window < age /\
                age = now - as_of_timestamp s
  | ZeroReferencePrice => exists s, reference = Some s /\ is_fresh g s now = true /\ price s = 0
  | OutOfRange p o bound d =>
      o = order_price /\ bound = max_deviation_bps g /\ bound < d /\
      exists s, reference = Some s /\ is_fresh g s now = true /\ p = price s /\
                d = saturating_mul U128_MAX (abs_diff o p) 10000 / p
  end.
Proof.
  intros [_ Hst] H. destruct reference as [s|]; cbn in H; [|by simplify_eq].
  pose proof (stale_branch g s now ltac:(apply Hst)) as Hb.
  destruct (is_fresh g s now) eqn:Ef; cbn in Hb; rewrite Hb in H.
  - destruct (Z.eqb_spec (price s) 0); [simplify_eq; eauto|].
    destruct (Z.ltb_spec (max_deviation_bps g)
      (saturating_mul U128_MAX (abs_diff order_price (price s)) 10000 / price s)); [|done].
    simplify_eq. split_and!; eauto.
  - apply andb_prop in Hb as [H1%Z.ltb_lt H2%Z.ltb_lt]. simplify_eq. exists s.
    unfold age_secs, saturating_sub in *. split_and!; try done; lia.
Qed.

(** A bound of zero basis points does not demand the reference price:
    the deviation is rounded down, so every price closer than one basis
    point passes. *)
Theorem zero_bound_accepts_other_prices s now order_price :
  10000 * abs_diff order_price (price s) < price s ->
  check_order_price (mkReferencePriceGuard 0 0) (Some s) now order_price = Ok tt.
Proof.
  intros Hd. assert (Hp : 0 < price s) by (unfold abs_diff in Hd; lia). cbn.
  rewrite (proj2 (Z.eqb_neq (price s) 0)) by lia.
  pose proof (div_le_iff (saturating_mul U128_MAX (abs_diff order_price (price s)) 10000)
                (price s) 0 Hp) as Hdiv.
  rewrite (proj2 (Z.ltb_ge _ _)); [done|]. apply Hdiv. unfold saturating_mul. lia.
Qed.

(** ** Witnesses *)

Module RefPriceExamples.
Definition snap : ReferencePrice := mkReferencePrice 2000000 [] 7 1000.
Definition guard : ReferencePriceGuard := mkReferencePriceGuard 50 60.

Lemma guard_ok_ex : guard_ok guard.
Proof. unfold guard_ok, in_u64, guard, U32_MAX, U64_MAX. cbn. lia. Defined.
Lemma snap_ok_ex : forall s, Some snap = Some s -> snapshot_ok s.
Proof. intros s [= <-]. unfold snapshot_ok, in_u64, in_u128, U64_MAX, U128_MAX. cbn. lia. Defined.

Lemma guard_accepts_iff_witness : check_order_price guard (Some snap) 1060 2010199 = Ok tt.
Proof.
  apply (guard_accepts_iff guard (Some snap) 1060 2010199 guard_ok_ex snap_ok_ex).
  exists snap. split_and!; [done|by vm_compute|done|]. left. by vm_compute.
Defined.

Lemma guard_rejection_reason_witness :
  50 < 51 /\ exists s, Some snap = Some s /\ is_fresh guard s 1060 = true /\ 2000000 = price s /\
    51 = saturating_mul U128_MAX (abs_diff 2010200 2000000) 10000 / 2000000.
Proof.
  exact (proj2 (proj2 (guard_rejection_reason guard (Some snap) 1060 2010200
    (OutOfRange 2000000 2010200 50 51) guard_ok_ex ltac:(vm_compute; reflexivity)))).
Defined.

Lemma zero_bound_accepts_other_prices_witness :
  check_order_price (mkReferencePriceGuard 0 0) (Some snap) 5 2000199 = Ok tt.
Proof. apply (zero_bound_accepts_other_prices snap 5 2000199). by vm_compute. Defined.
End RefPriceExamples.
