(* ===== verification/BTree.v ===== *)
(** * Ordered maps keyed by block number

    [BTreeMap<u64, V>] as a list sorted by strictly increasing key, with the
    operations the block-versioned caches use: insertion, removal of a key
    range, and the greatest entry at or below a bound
    ([range(..=n).next_back()]). *)

From S2P Require Import Prelude.
#[local] Open Scope Z_scope.

Abbreviation btree V := (list (Z * V)).

Section btree.
Context {V : Type}.
Implicit Types (m : btree V) (n k : Z) (v : V).

Fixpoint bt_insert k v m : btree V :=
  match m with
  | [] => [(k, v)]
  | (k', v') :: m' =>
      if k <? k' then (k, v) :: m
      else if k =? k' then (k, v) :: m'
      else (k', v') :: bt_insert k v m'
  end.

Fixpoint bt_lookup k m : option V :=
  match m with
  | [] => None
  | (k', v') :: m' => if k =? k' then Some v' else bt_lookup k m'
  end.

(** [m.entry(k).or_default()] updated by [f], [d] being the default. *)
Definition bt_update (d : V) (f : V -> V) k m : btree V :=
  bt_insert k (f (default d (bt_lookup k m))) m.

(** [m.range(..=n)] and what is left when its keys are removed. *)
Definition sel (P : Z -> bool) m : btree V := filter (fun p => P p.1 = true) m.
Definition range_le n m : btree V := sel (fun k => k <=? n) m.
Definition range_lt n m : btree V := sel (fun k => k <? n) m.
Definition remove_le n m : btree V := sel (fun k => n <? k) m.
Definition remove_lt n m : btree V := sel (fun k => n <=? k) m.

(** [m.range(..=n).next_back()] *)
Definition last_le n m : option (Z * V) := last (range_le n m).
Definition last_lt n m : option (Z * V) := last (range_lt n m).

Definition sorted m : Prop := StronglySorted (fun p q => p.1 < q.1) m.

Lemma elem_of_bt_insert k v m p : p ∈ bt_insert k v m -> p = (k, v) \/ p ∈ m.
Proof.
  induction m as [|[k' v'] m IH]; cbn; [set_solver|].
  destruct (k <? k'); [set_solver|]. destruct (k =? k'); set_solver.
Qed.

Lemma bt_insert_sorted k v m : sorted m -> sorted (bt_insert k v m).
Proof.
  induction 1 as [|[k' v'] m Hs IH Hall]; cbn; [repeat constructor|].
  rewrite Forall_forall in Hall.
  destruct (Z.ltb_spec k k') as [Hlt|Hge]; [|destruct (Z.eqb_spec k k') as [->|]].
  - constructor; [by constructor; [|apply Forall_forall]|].
    constructor; [done|]. apply Forall_forall. intros p Hp. specialize (Hall p Hp). cbn in *. lia.
  - constructor; [done|]. by apply Forall_forall.
  - constructor; [done|]. apply Forall_forall. intros p [->|Hp]%elem_of_bt_insert; cbn; [lia|].
    by apply Hall.
Qed.

Lemma elem_of_sel P m p : p ∈ sel P m <-> P p.1 = true /\ p ∈ m.
Proof. unfold sel. by rewrite list_elem_of_filter. Qed.

Lemma sel_cons P k v m : sel P ((k, v) :: m) = if P k then (k, v) :: sel P m else sel P m.
Proof. unfold sel. rewrite filter_cons. cbn [fst]. case_decide; by destruct (P k). Qed.

Lemma sel_none P m : (forall p, p ∈ m -> P p.1 = false) -> sel P m = [].
Proof. intros H. apply filter_none. intros p Hp. by rewrite (H p Hp). Qed.

Lemma sel_sel P Q m : sel P (sel Q m) = sel (fun k => P k && Q k) m.
Proof.
  unfold sel. rewrite list_filter_filter. apply list_filter_iff. intros p.
  by rewrite andb_true_iff.
Qed.

Lemma sel_ext P Q m : (forall k, P k = Q k) -> sel P m = sel Q m.
Proof. intros H. apply list_filter_iff. intros p. by rewrite H. Qed.

Lemma sel_sorted P m : sorted m -> sorted (sel P m).
Proof.
  induction 1 as [|[k v] m Hs IH Hall]; [constructor|]. rewrite sel_cons.
  destruct (P k); [|done]. constructor; [done|]. apply Forall_forall.
  intros q [_ Hq]%elem_of_sel. rewrite Forall_forall in Hall. by apply Hall.
Qed.

(** What a bound [n] sees is what a lower bound [h] sees, then the rest. *)
Lemma range_le_split n h m :
  sorted m -> h <= n -> range_le n m = range_le h m ++ range_le n (remove_le h m).
Proof.
  intros Hs Hh. unfold range_le, remove_le. rewrite sel_sel.
  induction Hs as [|[k v] m Hs IH Hall]; [done|]. rewrite !sel_cons.
  rewrite Forall_forall in Hall. destruct (Z.leb_spec k h) as [Hk|Hk].
  - rewrite (proj2 (Z.leb_le k n)), (proj2 (Z.ltb_ge h k)), andb_false_r by lia. by rewrite IH.
  - assert (E : sel (fun k => k <=? h) m = []).
    { apply sel_none. intros p Hp. specialize (Hall p Hp). cbn in *. apply Z.leb_gt. lia. }
    rewrite (proj2 (Z.ltb_lt h k) Hk), andb_true_r, E in *. cbn [app] in *.
    by destruct (k <=? n); rewrite IH.
Qed.

Lemma last_le_split n h m :
  sorted m -> h <= n ->
  last_le n m = match last_le n (remove_le h m) with Some p => Some p | None => last_le h m end.
Proof. intros Hs Hh. unfold last_le. by rewrite (range_le_split n h m Hs Hh), last_app. Qed.

(** Insertion commutes with selections by key. *)
Lemma sel_bt_insert P k v m :
  sorted m -> sel P (bt_insert k v m) = if P k then bt_insert k v (sel P m) else sel P m.
Proof.
  induction 1 as [|[k' v'] m Hs IH Hall]; [apply sel_cons|].
  cbn [bt_insert]. rewrite Forall_forall in Hall. destruct (Z.ltb_spec k k') as [Hlt|Hge].
  - rewrite (sel_cons P k v). destruct (P k); [|done].
    assert (Hhd : forall q, q ∈ sel P ((k', v') :: m) -> k < q.1).
    { intros q [_ [->|Hq]%elem_of_cons]%elem_of_sel; cbn; [done|].
      specialize (Hall q Hq). cbn in Hall. lia. }
    destruct (sel P ((k', v') :: m)) as [|[k2 v2] l]; [done|]. cbn [bt_insert].
    specialize (Hhd (k2, v2) ltac:(left)). cbn in Hhd. by rewrite (proj2 (Z.ltb_lt _ _) Hhd).
  - destruct (Z.eqb_spec k k') as [->|Hne].
    + rewrite !sel_cons. destruct (P k'); [|done].
      cbn [bt_insert]. by rewrite Z.ltb_irrefl, Z.eqb_refl.
    + rewrite !sel_cons, IH. destruct (P k'), (P k); try done.
      cbn [bt_insert]. rewrite (proj2 (Z.ltb_ge k k')) by lia.
      by rewrite (proj2 (Z.eqb_neq k k')).
Qed.

Lemma remove_le_insert n k v m :
  sorted m -> n < k -> remove_le n (bt_insert k v m) = bt_insert k v (remove_le n m).
Proof.
  intros Hs Hk. unfold remove_le. rewrite sel_bt_insert by done.
  by rewrite (proj2 (Z.ltb_lt n k) Hk).
Qed.

Lemma remove_le_twice h h' m : h <= h' -> remove_le h' (remove_le h m) = remove_le h' m.
Proof.
  intros Hh. unfold remove_le. rewrite sel_sel. apply sel_ext. intros k.
  destruct (Z.ltb_spec h' k), (Z.ltb_spec h k); cbn; lia.
Qed.

Lemma last_le_key n m p : last_le n m = Some p -> p.1 <= n /\ p ∈ m.
Proof.
  unfold last_le. intros [l E]%last_Some.
  assert (Hp : p ∈ range_le n m) by (rewrite E; set_solver).
  apply elem_of_sel in Hp as [Hp ?]. split; [by apply Z.leb_le|done].
Qed.

Lemma last_le_remove_ge n h m : n <= h -> last_le n (remove_le h m) = None.
Proof.
  intros Hn. unfold last_le, range_le, remove_le. rewrite sel_sel, sel_none; [done|].
  intros p _. destruct (Z.leb_spec p.1 n), (Z.ltb_spec h p.1); cbn; lia.
Qed.

(** What a bound sees after an insertion above another bound. *)
Lemma last_le_insert_below n k v m :
  sorted m -> n < k -> last_le n (bt_insert k v m) = last_le n m.
Proof.
  intros Hs Hk. unfold last_le, range_le. rewrite sel_bt_insert by done.
  by rewrite (proj2 (Z.leb_gt k n) Hk).
Qed.

Lemma bt_insert_append k v m : Forall (fun p => p.1 < k) m -> bt_insert k v m = m ++ [(k, v)].
Proof.
  induction 1 as [|[k' v'] m Hk Hall IH]; [done|]. cbn in *.
  rewrite (proj2 (Z.ltb_ge k k')), (proj2 (Z.eqb_neq k k')) by lia. by rewrite IH.
Qed.

Lemma bt_lookup_insert k v m k' :
  bt_lookup k' (bt_insert k v m) = if k' =? k then Some v else bt_lookup k' m.
Proof.
  induction m as [|[j u] m IH]; [done|]. cbn [bt_insert].
  destruct (Z.ltb_spec k j); [done|]. destruct (Z.eqb_spec k j) as [->|Hne]; cbn.
  - by destruct (k' =? j).
  - destruct (Z.eqb_spec k' j) as [->|]; [|done]. by rewrite (proj2 (Z.eqb_neq j k)) by lia.
Qed.

Lemma bt_lookup_sel P k m : bt_lookup k (sel P m) = if P k then bt_lookup k m else None.
Proof.
  induction m as [|[j u] m IH]; [by destruct (P k)|]. rewrite sel_cons. cbn.
  destruct (P j) eqn:Ej; cbn; rewrite IH; destruct (Z.eqb_spec k j) as [->|]; try done.
  - by rewrite Ej.
  - by rewrite Ej.
Qed.

Lemma bt_lookup_elem k v m : sorted m -> bt_lookup k m = Some v <-> (k, v) ∈ m.
Proof.
  induction 1 as [|[j u] m Hs IH Hall]; cbn; [split; [done|by intros ?%not_elem_of_nil]|].
  rewrite Forall_forall in Hall. rewrite elem_of_cons.
  destruct (Z.eqb_spec k j) as [->|Hne].
  - split; [intros [= ->]; by left|]. intros [[= ->]|Hin]; [done|].
    specialize (Hall _ Hin). cbn in Hall. lia.
  - rewrite IH. naive_solver.
Qed.

Lemma sorted_NoDup_keys m : sorted m -> NoDup m.*1.
Proof.
  induction 1 as [|p m Hm IH Hall]; [constructor|]. rewrite fmap_cons. constructor; [|done].
  intros (q & E & Hq)%list_elem_of_fmap. rewrite Forall_forall in Hall. specialize (Hall q Hq). lia.
Qed.

Lemma elem_of_bt_insert_iff k v m p :
  sorted m -> p ∈ bt_insert k v m <-> p = (k, v) \/ (p ∈ m /\ p.1 <> k).
Proof.
  intros Hs. destruct p as [j u].
  rewrite <- (bt_lookup_elem j u), bt_lookup_insert by (by try apply bt_insert_sorted).
  rewrite <- (bt_lookup_elem j u m) by done.
  destruct (Z.eqb_spec j k) as [->|Hne]; cbn; naive_solver.
Qed.

(** Inserting at or above every key: the new entry is the last one. *)
Lemma bt_insert_top k v m :
  sorted m -> Forall (fun p => p.1 <= k) m ->
  exists m', bt_insert k v m = m' ++ [(k, v)] /\
    (m = m' /\ bt_lookup k m = None \/ exists v0, m = m' ++ [(k, v0)] /\ bt_lookup k m = Some v0).
Proof.
  induction 1 as [|[j u] m Hs IH Hall]; intros Hk; [exists []; split; [done|by left]|].
  apply Forall_cons in Hk as [Hj Hk]. cbn in Hj. cbn [bt_insert bt_lookup].
  rewrite (proj2 (Z.ltb_ge k j)) by lia. rewrite Forall_forall in Hall.
  destruct (Z.eqb_spec k j) as [->|Hne].
  - assert (m = []) as ->.
    { destruct m as [|[j2 u2] m]; [done|]. specialize (Hall (j2, u2) ltac:(left)).
      apply Forall_cons in Hk as [Hk _]. cbn in *. lia. }
    exists []. split; [done|]. right. by exists u.
  - destruct (IH Hk) as (m' & -> & [[-> ->]|(v0 & -> & ->)]).
    + exists ((j, u) :: m'). split; [done|]. by left.
    + exists ((j, u) :: m'). split; [done|]. right. by exists v0.
Qed.

Lemma last_le_insert_top n k v m :
  sorted m -> Forall (fun p => p.1 <= k) m -> k <= n -> last_le n (bt_insert k v m) = Some (k, v).
Proof.
  intros Hs Hk Hn. unfold last_le, range_le. rewrite sel_bt_insert by done.
  rewrite (proj2 (Z.leb_le k n) Hn).
  destruct (bt_insert_top k v (sel (fun j => j <=? n) m)) as (m' & -> & _).
  - by apply sel_sorted.
  - apply Forall_forall. intros p [_ Hp]%elem_of_sel. rewrite Forall_forall in Hk. by apply Hk.
  - apply last_snoc.
Qed.

Lemma range_le_all n m : Forall (fun p => p.1 <= n) m -> range_le n m = m.
Proof.
  intros Hk. apply filter_all. intros p Hp. rewrite Forall_forall in Hk.
  apply Z.leb_le. by apply Hk.
Qed.
End btree.

#[export] Hint Resolve bt_insert_sorted sel_sorted : zone.
Arguments sel : simpl never.
Arguments range_le : simpl never.
Arguments remove_le : simpl never.
Arguments last_le : simpl never.
Arguments bt_update : simpl never.
