(* ===== verification/Policy.v ===== *)
(** * Block-versioned TIP-403 policy state

    Models src/crates/l1/src/state/versioned.rs ([HeightVersioned]),
    tip403/policy_set.rs ([PolicySet]), tip403/events.rs ([PolicyEvent]) and
    the cache of tip403/cache.rs ([PolicyCacheInner]).  A [BTreeMap] keyed by
    block is a [btree]; a [HashSet] a [gset]; a [HashMap] a [gmap]. *)

From S2P Require Import Prelude.
From S2P Require Import BTree.
#[local] Open Scope Z_scope.

(** ** [HeightVersioned] *)

Record HeightVersioned (V : Type) := mkHV {
  hv_baseline : option V;
  hv_baseline_height : Z;
  hv_pending : btree V
}.
Arguments mkHV {V}. Arguments hv_baseline {V}. Arguments hv_baseline_height {V}.
Arguments hv_pending {V}.

Definition hv_default {V} : HeightVersioned V := mkHV None 0 [].

Definition hv_get {V} (s : HeightVersioned V) (block_number : Z) : option V :=
  if block_number <=? hv_baseline_height s then hv_baseline s
  else
    match last_le block_number (hv_pending s) with
    | Some (_, v) => Some v
    | None => hv_baseline s
    end.

Definition hv_set {V} (s : HeightVersioned V) (block_number : Z) (value : V) : HeightVersioned V :=
  if block_number <=? hv_baseline_height s then s
  else mkHV (hv_baseline s) (hv_baseline_height s) (bt_insert block_number value (hv_pending s)).

Definition hv_advance {V} (s : HeightVersioned V) (new_height : Z) : HeightVersioned V :=
  if new_height <=? hv_baseline_height s then s
  else
    let folded := snd <$> last_le new_height (hv_pending s) in
    let baseline := match folded with Some value => Some value | None => hv_baseline s end in
    mkHV baseline new_height (remove_le new_height (hv_pending s)).

Definition hv_is_empty {V} (s : HeightVersioned V) : bool :=
  match hv_baseline s, hv_pending s with None, [] => true | _, _ => false end.

Definition hv_clear {V} (s : HeightVersioned V) : HeightVersioned V := mkHV None 0 [].

Definition hv_flatten {V} (s : HeightVersioned V) (min_block : Z) : HeightVersioned V :=
  hv_advance s min_block.

(** ** [PolicySet] *)

Record PolicySetUpdate := mkUpdate { account : Z; in_set : bool }.

Record PolicySet := mkPS {
  ps_baseline : gset Z;
  ps_baseline_height : Z;
  ps_pending : btree (list PolicySetUpdate);
  ps_observed : gset Z
}.

Definition ps_default : PolicySet := mkPS ∅ 0 [] ∅.

(** The inner loop of [contains]: the first update of the user, scanning the
    reversed updates of a block. *)
Fixpoint scan_updates (user : Z) (updates : list PolicySetUpdate) : option bool :=
  match updates with
  | [] => None
  | u :: updates' => if account u =? user then Some (in_set u) else scan_updates user updates'
  end.

Fixpoint scan_blocks (user : Z) (blocks : btree (list PolicySetUpdate)) : option bool :=
  match blocks with
  | [] => None
  | (_, updates) :: blocks' =>
      match scan_updates user (rev updates) with
      | Some b => Some b
      | None => scan_blocks user blocks'
      end
  end.

Definition ps_contains (s : PolicySet) (user block_number : Z) : bool :=
  if block_number <=? ps_baseline_height s then bool_decide (user ∈ ps_baseline s)
  else
    match scan_blocks user (rev (range_le block_number (ps_pending s))) with
    | Some b => b
    | None => bool_decide (user ∈ ps_baseline s)
    end.

Definition ps_is_known (s : PolicySet) (user : Z) : bool :=
  bool_decide (user ∈ ps_observed s) || bool_decide (user ∈ ps_baseline s).

Definition ps_record_status (s : PolicySet) (user block_number : Z) (status : bool) : PolicySet :=
  if block_number <=? ps_baseline_height s then s
  else
    mkPS (ps_baseline s) (ps_baseline_height s)
      (bt_update [] (fun us => us ++ [mkUpdate user status]) block_number (ps_pending s))
      ({[user]} ∪ ps_observed s).

Definition apply_update (b : gset Z) (u : PolicySetUpdate) : gset Z :=
  if in_set u then {[account u]} ∪ b else b ∖ {[account u]}.

Definition ps_advance (s : PolicySet) (new_height : Z) : PolicySet :=
  if new_height <=? ps_baseline_height s then s
  else
    let baseline := foldl (fun b block => foldl apply_update b block.2) (ps_baseline s)
                      (range_le new_height (ps_pending s)) in
    mkPS baseline new_height (remove_le new_height (ps_pending s)) (ps_observed s).

Definition ps_flatten (s : PolicySet) (min_block : Z) : PolicySet := ps_advance s min_block.

Definition ps_is_empty (s : PolicySet) : bool :=
  bool_decide (ps_baseline s = ∅) && match ps_pending s with [] => true | _ => false end.

Definition ps_clear (s : PolicySet) : PolicySet := mkPS ∅ 0 [] ∅.

(** ** Policy events and records *)

(** The Solidity enum, with the invalid value its decoder produces. *)
Inductive PolicyType := WHITELIST | BLACKLIST | COMPOUND | InvalidPolicyType.

Inductive PolicyEvent :=
| MembershipChanged (policy_id account : Z) (in_set : bool)
| TokenPolicyChanged (token policy_id : Z)
| PolicyCreated (policy_id : Z) (policy_type : PolicyType)
| CompoundPolicyCreated (policy_id sender_policy_id recipient_policy_id mint_recipient_policy_id : Z).

(** The decoded registry events ([ITIP403RegistryEvents]) and what
    [decode_registry] keeps of them. *)
Inductive RegistryEvent :=
| BlacklistUpdated (policyId account : Z) (restricted : bool)
| WhitelistUpdated (policyId account : Z) (allowed : bool)
| RegPolicyCreated (policyId : Z) (policyType : PolicyType)
| RegCompoundPolicyCreated (policyId senderPolicyId recipientPolicyId mintRecipientPolicyId : Z)
| PolicyAdminUpdated (policyId admin : Z)
| ReceivePolicyUpdated (account : Z).

(** [decoded] is the result of [ITIP403RegistryEvents::decode_log]. *)
Definition decode_registry (decoded : option RegistryEvent) : option PolicyEvent :=
  match decoded with
  | None => None
  | Some (BlacklistUpdated policyId account restricted) =>
      Some (MembershipChanged policyId account restricted)
  | Some (WhitelistUpdated policyId account allowed) =>
      Some (MembershipChanged policyId account allowed)
  | Some (RegPolicyCreated policyId policyType) => Some (PolicyCreated policyId policyType)
  | Some (RegCompoundPolicyCreated policyId s r m) => Some (CompoundPolicyCreated policyId s r m)
  | Some (PolicyAdminUpdated _ _) => None
  | Some (ReceivePolicyUpdated _) => None
  end.

(** [decoded] is the [newPolicyId] of a decoded [TransferPolicyUpdate] log of
    the token at [log_address]. *)
Definition decode_tip20 (log_address : Z) (decoded : option Z) : option PolicyEvent :=
  match decoded with
  | None => None
  | Some newPolicyId => Some (TokenPolicyChanged log_address newPolicyId)
  end.

Inductive AuthRole := Transfer | Sender | Recipient | MintRecipient.

Record CompoundData := mkCompound {
  sender_policy_id : Z; recipient_policy_id : Z; mint_recipient_policy_id : Z
}.

Record CachedPolicy := mkPolicy {
  policy_type : option PolicyType;
  policy_set : PolicySet;
  compound : option CompoundData
}.

Definition policy_default : CachedPolicy := mkPolicy None ps_default None.

(** TIP-403 registry constants: policy 0 rejects all, policy 1 allows all. *)
Definition REJECT_ALL_POLICY_ID : Z := 0.
Definition ALLOW_ALL_POLICY_ID : Z := 1.

Definition builtin_authorization (policy_id : Z) : option bool :=
  if policy_id =? ALLOW_ALL_POLICY_ID then Some true
  else if policy_id =? REJECT_ALL_POLICY_ID then Some false
  else None.

(** ** [PolicyCacheInner] *)

Record PolicyCacheInner := mkCache {
  tokens : gmap Z (HeightVersioned Z);
  policies : gmap Z CachedPolicy;
  last_l1_block : Z
}.

Definition cache_default : PolicyCacheInner := mkCache ∅ ∅ 0.

Definition get_token_policy (c : PolicyCacheInner) (token block_number : Z) : option Z :=
  hv ← tokens c !! token; hv_get hv block_number.

Definition set_token_policy (c : PolicyCacheInner) (token block_number policy_id : Z)
    : PolicyCacheInner :=
  let hv := default hv_default (tokens c !! token) in
  mkCache (<[token := hv_set hv block_number policy_id]> (tokens c)) (policies c) (last_l1_block c).

(** [get_policy_entry] gives a mutable reference, inserting the default
    entry if absent: here, the update applied to it. *)
Definition update_policy_entry (f : CachedPolicy -> CachedPolicy) (c : PolicyCacheInner)
    (policy_id : Z) : PolicyCacheInner :=
  mkCache (tokens c)
    (<[policy_id := f (default policy_default (policies c !! policy_id))]> (policies c))
    (last_l1_block c).

Definition set_policy_type (c : PolicyCacheInner) (policy_id : Z) (ty : PolicyType)
    : PolicyCacheInner :=
  update_policy_entry (fun p => mkPolicy (Some ty) (policy_set p) (compound p)) c policy_id.

Definition set_policy_status (c : PolicyCacheInner) (policy_id user block_number : Z)
    (status : bool) : PolicyCacheInner :=
  update_policy_entry (fun p =>
    mkPolicy (policy_type p) (ps_record_status (policy_set p) user block_number status) (compound p))
    c policy_id.

Definition set_compound (c : PolicyCacheInner) (policy_id : Z) (data : CompoundData)
    : PolicyCacheInner :=
  update_policy_entry (fun p => mkPolicy (Some COMPOUND) (policy_set p) (Some data)) c policy_id.

Definition set_last_l1_block (c : PolicyCacheInner) (block_number : Z) : PolicyCacheInner :=
  mkCache (tokens c) (policies c) (Z.max (last_l1_block c) block_number).

Definition check_simple (c : PolicyCacheInner) (policy_id user block_number : Z) : option bool :=
  match builtin_authorization policy_id with
  | Some authorized => Some authorized
  | None =>
      policy ← policies c !! policy_id;
      ty ← policy_type policy;
      match ty with
      | WHITELIST =>
          if negb (ps_is_known (policy_set policy) user) then None
          else Some (ps_contains (policy_set policy) user block_number)
      | BLACKLIST =>
          if negb (ps_is_known (policy_set policy) user) then None
          else Some (negb (ps_contains (policy_set policy) user block_number))
      | _ => None
      end
  end.

Definition check_policy (c : PolicyCacheInner) (policy_id user block_number : Z)
    (role : AuthRole) : option bool :=
  match builtin_authorization policy_id with
  | Some authorized => Some authorized
  | None =>
      policy ← policies c !! policy_id;
      ty ← policy_type policy;
      match ty with
      | WHITELIST =>
          if negb (ps_is_known (policy_set policy) user) then None
          else Some (ps_contains (policy_set policy) user block_number)
      | BLACKLIST =>
          if negb (ps_is_known (policy_set policy) user) then None
          else Some (negb (ps_contains (policy_set policy) user block_number))
      | COMPOUND =>
          data ← compound policy;
          match role with
          | Sender => check_simple c (sender_policy_id data) user block_number
          | Recipient => check_simple c (recipient_policy_id data) user block_number
          | MintRecipient => check_simple c (mint_recipient_policy_id data) user block_number
          | Transfer =>
              sender_ok ← check_simple c (sender_policy_id data) user block_number;
              if negb sender_ok then Some false
              else check_simple c (recipient_policy_id data) user block_number
          end
      | InvalidPolicyType => None
      end
  end.

Definition is_authorized (c : PolicyCacheInner) (token user block_number : Z) (role : AuthRole)
    : option bool :=
  hv ← tokens c !! token;
  policy_id ← hv_get hv block_number;
  check_policy c policy_id user block_number role.

Definition apply_event (block_number : Z) (c : PolicyCacheInner) (event : PolicyEvent)
    : PolicyCacheInner :=
  match event with
  | MembershipChanged policy_id account in_set =>
      set_policy_status c policy_id account block_number in_set
  | TokenPolicyChanged token policy_id => set_token_policy c token block_number policy_id
  | PolicyCreated policy_id policy_type => set_policy_type c policy_id policy_type
  | CompoundPolicyCreated policy_id s r m => set_compound c policy_id (mkCompound s r m)
  end.

Definition apply_events (c : PolicyCacheInner) (block_number : Z) (events : list PolicyEvent)
    : PolicyCacheInner :=
  foldl (apply_event block_number) c events.

Definition clear (c : PolicyCacheInner) : PolicyCacheInner := mkCache ∅ ∅ (last_l1_block c).

Definition map_policy_set (f : PolicySet -> PolicySet) (p : CachedPolicy) : CachedPolicy :=
  mkPolicy (policy_type p) (f (policy_set p)) (compound p).

Definition flatten (c : PolicyCacheInner) (min_block : Z) : PolicyCacheInner :=
  mkCache ((fun v => hv_flatten v min_block) <$> tokens c)
    (map_policy_set (fun s => ps_flatten s min_block) <$> policies c) (last_l1_block c).

Definition advance (c : PolicyCacheInner) (new_height : Z) : PolicyCacheInner :=
  mkCache ((fun v => hv_advance v new_height) <$> tokens c)
    (map_policy_set (fun s => ps_advance s new_height) <$> policies c)
    (Z.max (last_l1_block c) new_height).

(** [PolicyCache::seed_token_policies]: [rpc token] is the [transferPolicyId]
    read from L1 at the cache's last block; any failure fails the whole call
    before anything is written. *)
Fixpoint collect_policies (rpc : Z -> option Z) (tracked_tokens : list Z) : option (list (Z * Z)) :=
  match tracked_tokens with
  | [] => Some []
  | token :: rest =>
      policy_id ← rpc token;
      seeded ← collect_policies rpc rest;
      Some ((token, policy_id) :: seeded)
  end.

Definition seed_token_policies (c : PolicyCacheInner) (tracked_tokens : list Z)
    (rpc : Z -> Z -> option Z) : option PolicyCacheInner :=
  let block_number := last_l1_block c in
  seeded ← collect_policies (rpc block_number) tracked_tokens;
  Some (foldl (fun w '(token, policy_id) => set_token_policy w token block_number policy_id) c seeded).
