(* ===== verification/PolicyProofs.v ===== *)
(** * The versioned policy state answers as an unpruned history would

    The caches fold old entries into a baseline.  The reference keeps every
    recorded entry and looks up the latest one at or before a block; the
    theorems show that folding is invisible to every query the node makes. *)

From S2P Require Import Prelude.
From S2P Require Import BTree.
From S2P Require Import Policy.
#[local] Open Scope Z_scope.

(** ** [HeightVersioned] refines an unpruned history *)

Inductive hv_op (V : Type) :=
| HvSet (block_number : Z) (value : V)
| HvAdvance (new_height : Z)
| HvFlatten (min_block : Z)
| HvClear.
Arguments HvSet {V}. Arguments HvAdvance {V}. Arguments HvFlatten {V}. Arguments HvClear {V}.

Section height_versioned.
Context {V : Type}.
Implicit Types (s : HeightVersioned V).

Definition hv_step s (op : hv_op V) : HeightVersioned V :=
  match op with
  | HvSet n v => hv_set s n v
  | HvAdvance n => hv_advance s n
  | HvFlatten n => hv_flatten s n
  | HvClear => hv_clear s
  end.
Definition hv_run (ops : list (hv_op V)) : HeightVersioned V := foldl hv_step hv_default ops.

(** The reference: the baseline height and every accepted entry. *)
Definition ref_step (r : Z * btree V) (op : hv_op V) : Z * btree V :=
  let '(h, log) := r in
  match op with
  | HvSet n v => if n <=? h then r else (h, bt_insert n v log)
  | HvAdvance n | HvFlatten n => (Z.max h n, log)
  | HvClear => (0, [])
  end.
Definition ref_run (ops : list (hv_op V)) : Z * btree V := foldl ref_step (0, []) ops.

(** The latest entry at or before a block, no block below the baseline being
    told apart from it. *)
Definition ref_get (r : Z * btree V) (n : Z) : option V :=
  let '(h, log) := r in snd <$> last_le (Z.max n h) log.

Record hv_sim (r : Z * btree V) s : Prop := mkHvSim {
  sim_sorted : sorted r.2;
  sim_height : hv_baseline_height s = r.1;
  sim_pending : hv_pending s = remove_le r.1 r.2;
  sim_baseline : hv_baseline s = snd <$> last_le r.1 r.2
}.

Lemma hv_sim_step r s op : hv_sim r s -> hv_sim (ref_step r op) (hv_step s op).
Proof.
  destruct r as [h log]. intros [Hs Hh Hp Hb]. cbn [fst snd] in *.
  assert (Hadv : forall n, hv_sim (Z.max h n, log) (hv_advance s n)).
  { intros n. unfold hv_advance. rewrite Hh. destruct (Z.leb_spec n h) as [Hle|Hlt].
    - rewrite Z.max_l by done. by split.
    - rewrite Z.max_r by lia. split; cbn [fst snd hv_baseline hv_baseline_height hv_pending]; try done.
      + rewrite Hp. apply remove_le_twice. lia.
      + rewrite Hp, Hb, (last_le_split n h log) by (done || lia).
        by destruct (last_le n (remove_le h log)). }
  destruct op as [n v|n|n|]; cbn; [|apply Hadv|apply Hadv|by repeat constructor].
  unfold hv_set. rewrite Hh. destruct (Z.leb_spec n h) as [Hle|Hlt]; [by split|].
  split; cbn [fst snd hv_baseline hv_baseline_height hv_pending]; try done.
  - by apply bt_insert_sorted.
  - by rewrite Hp, remove_le_insert.
  - by rewrite last_le_insert_below.
Qed.

Lemma hv_run_sim ops : hv_sim (ref_run ops) (hv_run ops).
Proof.
  unfold ref_run, hv_run. assert (H0 : hv_sim (0, @nil (Z * V)) hv_default) by by repeat constructor.
  revert H0. generalize (0, @nil (Z * V)) as r, (@hv_default V) as s.
  induction ops as [|op ops IH]; intros r s Hs; [done|]. cbn. by apply IH, hv_sim_step.
Qed.

Lemma hv_sim_get r s n : hv_sim r s -> hv_get s n = ref_get r n.
Proof.
  destruct r as [h log]. intros [Hs Hh Hp Hb]. unfold hv_get, ref_get. cbn [fst snd] in *.
  rewrite Hh. destruct (Z.leb_spec n h) as [Hle|Hlt].
  - by rewrite Z.max_r, Hb by done.
  - rewrite Z.max_l, Hp, Hb, (last_le_split n h log) by (done || lia).
    by destruct (last_le n (remove_le h log)) as [[]|].
Qed.

(** Whatever sequence of [set], [advance], [flatten] and [clear] a
    [HeightVersioned] went through, a lookup answers as the complete history
    would: the latest value set at or before the block, where blocks at or
    below the baseline all read as the baseline block.  Folding entries
    changes no answer, and a value set at or below the baseline is ignored. *)
Theorem hv_refines_history (ops : list (hv_op V)) n :
  hv_get (hv_run ops) n = ref_get (ref_run ops) n.
Proof. apply hv_sim_get, hv_run_sim. Qed.

(** The invariant the policy cache carries per token. *)
Definition hv_wf s : Prop := exists r, hv_sim r s.

Lemma hv_advance_get s h n : hv_wf s -> h <= n -> hv_get (hv_advance s h) n = hv_get s n.
Proof.
  intros [[h0 log] Hs] Hn.
  change (hv_advance s h) with (hv_step s (HvAdvance h)).
  rewrite (hv_sim_get _ _ n (hv_sim_step _ _ (HvAdvance h) Hs)), (hv_sim_get _ _ n Hs).
  unfold ref_get. cbn. by replace (Z.max n (Z.max h0 h)) with (Z.max n h0) by lia.
Qed.
End height_versioned.

(** ** [PolicySet] refines an unpruned history of updates *)

Inductive ps_op :=
| PsRecord (user block_number : Z) (status : bool)
| PsAdvance (new_height : Z)
| PsFlatten (min_block : Z)
| PsClear.

Definition ps_step (s : PolicySet) (op : ps_op) : PolicySet :=
  match op with
  | PsRecord u n b => ps_record_status s u n b
  | PsAdvance n => ps_advance s n
  | PsFlatten n => ps_flatten s n
  | PsClear => ps_clear s
  end.
Definition ps_run (ops : list ps_op) : PolicySet := foldl ps_step ps_default ops.

(** The reference: the baseline height and, per block, every accepted update. *)
Abbreviation updates_log := (btree (list PolicySetUpdate)).

Definition ps_ref_step (r : Z * updates_log) (op : ps_op) : Z * updates_log :=
  let '(h, log) := r in
  match op with
  | PsRecord u n b =>
      if n <=? h then r else (h, bt_update [] (fun us => us ++ [mkUpdate u b]) n log)
  | PsAdvance n | PsFlatten n => (Z.max h n, log)
  | PsClear => (0, [])
  end.
Definition ps_ref_run (ops : list ps_op) : Z * updates_log := foldl ps_ref_step (0, []) ops.

(** The last update of a user up to a block, in block order. *)
Definition last_update (log : updates_log) (user n : Z) : option bool :=
  scan_updates user (rev (concat (snd <$> range_le n log))).

Definition ref_contains (r : Z * updates_log) (user n : Z) : bool :=
  let '(h, log) := r in default false (last_update log user (Z.max n h)).

(** A user is known when some update of it was ever accepted. *)
Definition ref_known (r : Z * updates_log) (user : Z) : bool :=
  bool_decide (Exists (fun u => account u = user) (concat (snd <$> r.2))).

Lemma scan_updates_app user us us' :
  scan_updates user (us ++ us') =
  match scan_updates user us with Some b => Some b | None => scan_updates user us' end.
Proof. induction us as [|u us IH]; [done|]. cbn. by destruct (account u =? user). Qed.

Lemma scan_blocks_rev user blocks :
  scan_blocks user (rev blocks) = scan_updates user (rev (concat (snd <$> blocks))).
Proof.
  assert (Happ : forall bs bs', scan_blocks user (bs ++ bs') =
    match scan_blocks user bs with Some b => Some b | None => scan_blocks user bs' end).
  { intros bs bs'. induction bs as [|[k us] bs IH]; [done|]. cbn.
    by destruct (scan_updates user (rev us)). }
  induction blocks as [|[k us] blocks IH]; [done|]. cbn.
  rewrite Happ, IH, rev_app_distr, scan_updates_app. cbn.
  destruct (scan_updates user (rev (concat (snd <$> blocks)))); [done|].
  by destruct (scan_updates user (rev us)).
Qed.

Lemma foldl_apply_updates us b user :
  bool_decide (user ∈ foldl apply_update b us) =
  match scan_updates user (rev us) with Some x => x | None => bool_decide (user ∈ b) end.
Proof.
  revert b. induction us as [|u us IH]; intros b; [done|]. cbn.
  rewrite IH, scan_updates_app. destruct (scan_updates user (rev us)); [done|]. cbn.
  unfold apply_update. destruct (Z.eqb_spec (account u) user) as [<-|Hne], (in_set u).
  - apply bool_decide_eq_true_2. set_solver.
  - apply bool_decide_eq_false_2. set_solver.
  - apply bool_decide_ext. set_solver.
  - apply bool_decide_ext. set_solver.
Qed.

Lemma foldl_blocks bs b :
  foldl (fun b (block : Z * list PolicySetUpdate) => foldl apply_update b block.2) b bs =
  foldl apply_update b (concat (snd <$> bs)).
Proof. revert b. induction bs as [|[k us] bs IH]; intros b; [done|]. cbn. by rewrite IH, foldl_app. Qed.

Lemma last_update_split log user n h :
  sorted log -> h <= n ->
  last_update log user n =
  match last_update (remove_le h log) user n with
  | Some b => Some b
  | None => last_update log user h
  end.
Proof.
  intros Hs Hh. unfold last_update. rewrite (range_le_split n h log Hs Hh).
  by rewrite fmap_app, concat_app, rev_app_distr, scan_updates_app.
Qed.

Record ps_sim (r : Z * updates_log) (s : PolicySet) : Prop := mkPsSim {
  pss_sorted : sorted r.2;
  pss_height : ps_baseline_height s = r.1;
  pss_pending : ps_pending s = remove_le r.1 r.2;
  pss_baseline : forall user, bool_decide (user ∈ ps_baseline s) =
                              default false (last_update r.2 user r.1);
  pss_observed : forall user, user ∈ ps_observed s <->
                              exists us n, (n, us) ∈ r.2 /\ Exists (fun u => account u = user) us
}.

Lemma ps_sim_default : ps_sim (0, []) ps_default.
Proof.
  split; try done; [constructor|]. intros user. cbn. split; [set_solver|].
  intros (? & ? & []%not_elem_of_nil & _).
Qed.

Lemma ps_sim_record h log s u n b :
  ps_sim (h, log) s -> h < n ->
  ps_sim (h, bt_update [] (fun us => us ++ [mkUpdate u b]) n log) (ps_record_status s u n b).
Proof.
  intros [Hs Hh Hp Hb Ho] Hn. unfold ps_record_status. cbn [fst snd] in *.
  rewrite Hh, (proj2 (Z.leb_gt n h) Hn). unfold bt_update.
  split; cbn [fst snd ps_baseline ps_baseline_height ps_pending ps_observed]; try done.
  - by apply bt_insert_sorted.
  - rewrite Hp, remove_le_insert by done. unfold remove_le. rewrite bt_lookup_sel.
    by rewrite (proj2 (Z.ltb_lt h n) Hn).
  - intros user. rewrite Hb. unfold last_update, range_le. rewrite sel_bt_insert by done.
    by rewrite (proj2 (Z.leb_gt n h) Hn).
  - intros user. rewrite elem_of_union, elem_of_singleton, Ho. split.
    + intros [->|(us & k & Hin & Hex)].
      * eexists _, n. split; [apply elem_of_bt_insert_iff; [done|by left]|].
        apply Exists_app. right. by constructor.
      * destruct (decide (k = n)) as [->|Hne].
        -- apply bt_lookup_elem in Hin; [|done]. rewrite Hin. cbn.
           eexists _, n. split; [apply elem_of_bt_insert_iff; [done|by left]|].
           apply Exists_app. by left.
        -- exists us, k. split; [|done]. apply elem_of_bt_insert_iff; [done|]. by right.
    + intros (us & k & [Heq|[Hin Hne]]%elem_of_bt_insert_iff & Hex); [| |done].
      * injection Heq as -> ->. apply Exists_app in Hex as [Hex|Hex].
        -- right. destruct (bt_lookup n log) as [us0|] eqn:E; cbn in Hex;
             [|by apply Exists_nil in Hex].
           exists us0, n. split; [by apply bt_lookup_elem|done].
        -- left. apply Exists_cons in Hex as [Hex|Hex]; [done|by apply Exists_nil in Hex].
      * right. by exists us, k.
Qed.

Lemma ps_sim_step r s op : ps_sim r s -> ps_sim (ps_ref_step r op) (ps_step s op).
Proof.
  destruct r as [h log]. intros Hsim. pose proof Hsim as [Hs Hh Hp Hb Ho]. cbn [fst snd] in *.
  assert (Hadv : forall n, ps_sim (Z.max h n, log) (ps_advance s n)).
  { intros n. unfold ps_advance. rewrite Hh. destruct (Z.leb_spec n h) as [Hle|Hlt].
    - by rewrite Z.max_l.
    - rewrite Z.max_r by lia.
      split; cbn [fst snd ps_baseline ps_baseline_height ps_pending ps_observed]; try done.
      + rewrite Hp. apply remove_le_twice. lia.
      + intros user. rewrite foldl_blocks, foldl_apply_updates, Hp, Hb.
        rewrite (last_update_split log user n h) by (done || lia).
        fold (last_update (remove_le h log) user n).
        by destruct (last_update (remove_le h log) user n). }
  destruct op as [u n b|n|n|]; cbn [ps_ref_step ps_step]; [|apply Hadv|apply Hadv|].
  - destruct (Z.leb_spec n h) as [Hle|Hlt]; [|by apply ps_sim_record].
    unfold ps_record_status. by rewrite Hh, (proj2 (Z.leb_le n h) Hle).
  - apply ps_sim_default.
Qed.

Lemma ps_run_sim ops : ps_sim (ps_ref_run ops) (ps_run ops).
Proof.
  unfold ps_ref_run, ps_run. pose proof ps_sim_default as H0. revert H0.
  generalize (0, @nil (Z * list PolicySetUpdate)) as r, ps_default as s.
  induction ops as [|op ops IH]; intros r s Hs; [done|]. cbn. by apply IH, ps_sim_step.
Qed.

Lemma ps_sim_contains r s user n : ps_sim r s -> ps_contains s user n = ref_contains r user n.
Proof.
  destruct r as [h log]. intros [Hs Hh Hp Hb _]. unfold ps_contains, ref_contains. cbn [fst snd] in *.
  rewrite Hh. destruct (Z.leb_spec n h) as [Hle|Hlt].
  - by rewrite Z.max_r, Hb by done.
  - rewrite Z.max_l, Hp, Hb, (last_update_split log user n h), scan_blocks_rev by (done || lia).
    fold (last_update (remove_le h log) user n).
    by destruct (last_update (remove_le h log) user n).
Qed.

Lemma scan_updates_Some user us b : scan_updates user us = Some b -> Exists (fun u => account u = user) us.
Proof.
  induction us as [|u us IH]; [done|]. cbn. destruct (Z.eqb_spec (account u) user); [by left|].
  intros H. right. by apply IH.
Qed.

Lemma ref_known_spec r user :
  ref_known r user = true <->
  exists us n, (n, us) ∈ r.2 /\ Exists (fun u => account u = user) us.
Proof.
  unfold ref_known. rewrite bool_decide_eq_true, Exists_concat, Exists_exists.
  setoid_rewrite list_elem_of_fmap. split.
  - intros (us & ([n us'] & -> & Hin) & Hex). by exists us', n.
  - intros (us & n & Hin & Hex). exists us. split; [by exists (n, us)|done].
Qed.

Lemma ps_sim_known r s user : ps_sim r s -> ps_is_known s user = ref_known r user.
Proof.
  intros [Hs Hh Hp Hb Ho]. apply eq_true_iff_eq. rewrite ref_known_spec. unfold ps_is_known.
  rewrite orb_true_iff, bool_decide_eq_true, Ho, Hb. split; [|by left].
  intros [H|H]; [done|]. destruct (last_update r.2 user r.1) as [b|] eqn:E; [|done].
  unfold last_update in E. apply scan_updates_Some in E.
  rewrite <- (Permutation_rev (concat _)) in E. apply Exists_concat, Exists_exists in E as (us & Hin & Hex).
  apply list_elem_of_fmap in Hin as ([k us'] & -> & [_ Hin]%elem_of_sel). by exists us', k.
Qed.

(** Whatever sequence of updates, advances, flattenings and clears a
    [PolicySet] went through, membership at a block is decided by the last
    update of the user recorded up to that block (blocks at or below the
    baseline read as the baseline block), absent users are not members, and
    a user is known exactly when one of its updates was recorded. *)
Theorem ps_refines_history (ops : list ps_op) user n :
  ps_contains (ps_run ops) user n = ref_contains (ps_ref_run ops) user n /\
  ps_is_known (ps_run ops) user = ref_known (ps_ref_run ops) user.
Proof.
  split; [apply ps_sim_contains | apply ps_sim_known]; apply ps_run_sim.
Qed.

Definition ps_wf (s : PolicySet) : Prop := exists r, ps_sim r s.

Lemma ps_advance_query s h user n :
  ps_wf s -> h <= n ->
  ps_contains (ps_advance s h) user n = ps_contains s user n /\
  ps_is_known (ps_advance s h) user = ps_is_known s user.
Proof.
  intros [[h0 log] Hs] Hn. change (ps_advance s h) with (ps_step s (PsAdvance h)).
  pose proof (ps_sim_step _ _ (PsAdvance h) Hs) as Hs'.
  rewrite (ps_sim_contains _ _ user n Hs'), (ps_sim_contains _ _ user n Hs).
  rewrite (ps_sim_known _ _ user Hs'), (ps_sim_known _ _ user Hs). unfold ref_contains. cbn.
  by replace (Z.max n (Z.max h0 h)) with (Z.max n h0) by lia.
Qed.

(** ** Recording at the newest block *)

Lemma hv_set_get {V} (s : HeightVersioned V) b v n :
  hv_wf s -> hv_baseline_height s < b -> Forall (fun p => p.1 <= b) (hv_pending s) ->
  hv_get (hv_set s b v) n = if b <=? n then Some v else hv_get s n.
Proof.
  intros [[h log] [Hs Hh Hp Hb]] Hlt Hk. cbn [fst snd] in *. unfold hv_set.
  rewrite (proj2 (Z.leb_gt b _) Hlt). unfold hv_get. cbn [hv_baseline_height hv_pending hv_baseline].
  assert (Hsp : sorted (hv_pending s)) by (rewrite Hp; by apply sel_sorted).
  destruct (Z.leb_spec b n) as [Hle|Hgt].
  - rewrite (proj2 (Z.leb_gt n _)) by lia. by rewrite last_le_insert_top.
  - by rewrite last_le_insert_below.
Qed.

Lemma ps_record_contains s u b st user n :
  ps_wf s -> ps_baseline_height s < b -> Forall (fun p => p.1 <= b) (ps_pending s) ->
  ps_contains (ps_record_status s u b st) user n =
  if (b <=? n) && (u =? user) then st else ps_contains s user n.
Proof.
  intros [[h log] [Hs Hh Hp Hb _]] Hlt Hk. cbn [fst snd] in *. unfold ps_record_status.
  rewrite (proj2 (Z.leb_gt b _) Hlt). unfold ps_contains.
  cbn [ps_baseline_height ps_pending ps_baseline].
  assert (Hsp : sorted (ps_pending s)) by (rewrite Hp; by apply sel_sorted).
  set (us0 := default [] (bt_lookup b (ps_pending s))). unfold bt_update. fold us0.
  destruct (Z.leb_spec b n) as [Hle|Hgt]; cbn [andb].
  - rewrite (proj2 (Z.leb_gt n _)) by lia. rewrite !scan_blocks_rev.
    destruct (bt_insert_top b (us0 ++ [mkUpdate u st]) (ps_pending s) Hsp Hk) as (m' & E & Hm).
    rewrite !range_le_all.
    + assert (Ec : concat (snd <$> bt_insert b (us0 ++ [mkUpdate u st]) (ps_pending s)) =
                   concat (snd <$> ps_pending s) ++ [mkUpdate u st]).
      { rewrite E. destruct Hm as [[Em El]|(v0 & Em & El)]; unfold us0; rewrite El, Em;
          rewrite !fmap_app, !concat_app; cbn; rewrite ?app_nil_r, ?app_assoc; done. }
      rewrite Ec, rev_app_distr. cbn. by destruct (u =? user).
    + eapply Forall_impl; [exact Hk|]. intros p. cbn. lia.
    + apply Forall_forall. intros p [->|Hp']%elem_of_bt_insert; [done|].
      rewrite Forall_forall in Hk. specialize (Hk p Hp'). lia.
  - destruct (n <=? ps_baseline_height s); [done|]. unfold range_le. rewrite sel_bt_insert by done.
    by rewrite (proj2 (Z.leb_gt b n) Hgt).
Qed.
