(* ===== verification/PolicyCache.v ===== *)
(** * The policy cache: compaction is invisible, answers match the L1 registry

    Theorems on the cache of Policy.v: advancing the baseline keeps every
    answer at or above it, and a cache fed with the events of an abstract L1
    registry answers what that registry answers. *)

From S2P Require Import Prelude.
From S2P Require Import BTree.
From S2P Require Import Policy.
From S2P Require Import PolicyProofs.
#[local] Open Scope Z_scope.

(** ** Every operation keeps the entries well formed *)

Inductive cache_op :=
| CSetToken (token block_number policy_id : Z)
| CSetType (policy_id : Z) (ty : PolicyType)
| CSetStatus (policy_id user block_number : Z) (status : bool)
| CSetCompound (policy_id : Z) (data : CompoundData)
| CApply (block_number : Z) (events : list PolicyEvent)
| CAdvance (new_height : Z)
| CFlatten (min_block : Z)
| CSetLast (block_number : Z)
| CClear.

Definition cache_step (c : PolicyCacheInner) (op : cache_op) : PolicyCacheInner :=
  match op with
  | CSetToken t n p => set_token_policy c t n p
  | CSetType p ty => set_policy_type c p ty
  | CSetStatus p u n b => set_policy_status c p u n b
  | CSetCompound p d => set_compound c p d
  | CApply n es => apply_events c n es
  | CAdvance h => advance c h
  | CFlatten h => flatten c h
  | CSetLast n => set_last_l1_block c n
  | CClear => clear c
  end.
Definition cache_run (ops : list cache_op) : PolicyCacheInner := foldl cache_step cache_default ops.

Record cache_wf (c : PolicyCacheInner) : Prop := mkCacheWf {
  wf_tokens : forall t hv, tokens c !! t = Some hv -> hv_wf hv;
  wf_policies : forall id p, policies c !! id = Some p -> ps_wf (policy_set p)
}.

Lemma hv_wf_default {V} : hv_wf (@hv_default V).
Proof. exists (0, []). by repeat constructor. Qed.

Lemma hv_wf_step {V} (s : HeightVersioned V) op : hv_wf s -> hv_wf (hv_step s op).
Proof. intros [r Hr]. exists (ref_step r op). by apply hv_sim_step. Qed.

Lemma ps_wf_step s op : ps_wf s -> ps_wf (ps_step s op).
Proof. intros [r Hr]. exists (ps_ref_step r op). by apply ps_sim_step. Qed.

Lemma ps_wf_default : ps_wf ps_default.
Proof. exists (0, []). apply ps_sim_default. Qed.

Lemma wf_update_entry c f id :
  cache_wf c -> (forall p, ps_wf (policy_set p) -> ps_wf (policy_set (f p))) ->
  cache_wf (update_policy_entry f c id).
Proof.
  intros [Ht Hp] Hf. split; cbn; [done|]. intros id' p [[<- <-]|[_ E]]%lookup_insert_Some.
  - apply Hf. destruct (policies c !! id) as [p0|] eqn:E; cbn; [by eapply Hp|apply ps_wf_default].
  - by eapply Hp.
Qed.

Lemma wf_set_token c t n p : cache_wf c -> cache_wf (set_token_policy c t n p).
Proof.
  intros [Ht Hp]. split; cbn; [|done]. intros t' hv [[<- <-]|[_ E]]%lookup_insert_Some.
  - apply (hv_wf_step _ (HvSet n p)).
    destruct (tokens c !! t) as [v|] eqn:E; cbn; [by eapply Ht|apply hv_wf_default].
  - by eapply Ht.
Qed.

Lemma wf_map c f g last :
  cache_wf c -> (forall hv, hv_wf hv -> hv_wf (f hv)) -> (forall s, ps_wf s -> ps_wf (g s)) ->
  cache_wf (mkCache (f <$> tokens c) (map_policy_set g <$> policies c) last).
Proof.
  intros [Ht Hp] Hf Hg. split; cbn; intros k x; rewrite lookup_fmap; intros (y & E & ->)%fmap_Some.
  - apply Hf. by eapply Ht.
  - apply Hg. by eapply Hp.
Qed.

Lemma wf_apply_event c n e : cache_wf c -> cache_wf (apply_event n c e).
Proof.
  intros H. destruct e; cbn; [|by apply wf_set_token|by apply wf_update_entry..].
  apply wf_update_entry; [done|]. intros p Hp. by apply (ps_wf_step _ (PsRecord account n in_set)).
Qed.

Lemma wf_step c op : cache_wf c -> cache_wf (cache_step c op).
Proof.
  intros H. destruct op; cbn.
  - by apply wf_set_token.
  - by apply wf_update_entry.
  - apply (wf_apply_event c block_number (MembershipChanged policy_id user status) H).
  - by apply wf_update_entry.
  - unfold apply_events. revert c H. induction events as [|e es IH]; intros c H; cbn; [done|].
    by apply IH, wf_apply_event.
  - apply wf_map; [done| |]; intros x Hx;
      [apply (hv_wf_step _ (HvAdvance _) Hx) | apply (ps_wf_step _ (PsAdvance _) Hx)].
  - apply wf_map; [done| |]; intros x Hx;
      [apply (hv_wf_step _ (HvFlatten _) Hx) | apply (ps_wf_step _ (PsFlatten _) Hx)].
  - by destruct H.
  - split; cbn; intros k x E; by rewrite lookup_empty in E.
Qed.

Lemma cache_run_wf ops : cache_wf (cache_run ops).
Proof.
  unfold cache_run. assert (H0 : cache_wf cache_default).
  { split; cbn; intros k x E; by rewrite lookup_empty in E. }
  revert H0. generalize cache_default as c.
  induction ops as [|op ops IH]; intros c Hc; [done|]. cbn. by apply IH, wf_step.
Qed.

(** ** Advancing the baseline *)

Lemma advance_check_simple c h id user n :
  cache_wf c -> h <= n -> check_simple (advance c h) id user n = check_simple c id user n.
Proof.
  intros [_ Hp] Hn. unfold check_simple. destruct (builtin_authorization id); [done|].
  cbn. rewrite lookup_fmap. destruct (policies c !! id) as [p|] eqn:E; [|done]. cbn.
  destruct (ps_advance_query (policy_set p) h user n (Hp _ _ E) Hn) as [-> ->]. done.
Qed.

Lemma advance_check_policy c h id user n role :
  cache_wf c -> h <= n -> check_policy (advance c h) id user n role = check_policy c id user n role.
Proof.
  intros Hwf Hn. pose proof Hwf as [_ Hp]. unfold check_policy.
  destruct (builtin_authorization id); [done|].
  cbn. rewrite lookup_fmap. destruct (policies c !! id) as [p|] eqn:E; [|done]. cbn.
  destruct (ps_advance_query (policy_set p) h user n (Hp _ _ E) Hn) as [-> ->].
  destruct (policy_type p) as [[]|]; try done. cbn. destruct (compound p) as [d|]; [|done]. cbn.
  destruct role; rewrite ?advance_check_simple by done; done.
Qed.

(** Advancing the baseline after a block was processed changes no answer
    about that block or any later one: for every cache reached by any
    sequence of operations, token, user and role, [is_authorized] gives the
    same result (an answer or a miss) before and after. *)
Theorem advance_transparent ops h token user n role :
  h <= n ->
  is_authorized (advance (cache_run ops) h) token user n role =
  is_authorized (cache_run ops) token user n role.
Proof.
  intros Hn. pose proof (cache_run_wf ops) as Hwf. generalize dependent (cache_run ops). intros c Hwf.
  unfold is_authorized. cbn [advance tokens]. rewrite lookup_fmap.
  destruct (tokens c !! token) as [hv|] eqn:E; [|done]. cbn.
  rewrite (hv_advance_get hv h n) by (done || by apply (wf_tokens _ Hwf token)).
  destruct (hv_get hv n) as [id|]; [|done]. cbn. by apply advance_check_policy.
Qed.

Lemma advance_transparent_witness :
  let ops := [CApply 10 [PolicyCreated 7 BLACKLIST; TokenPolicyChanged 99 7];
              CApply 12 [MembershipChanged 7 42 true]] in
  11 <= 12 /\
  is_authorized (advance (cache_run ops) 11) 99 42 12 Transfer =
  is_authorized (cache_run ops) 99 42 12 Transfer.
Proof. intros ops. split; [lia|]. apply (advance_transparent ops 11 99 42 12 Transfer). lia. Defined.

(** A user that was put on a blacklist before the cache started, and whose
    removal at a later block has been received, is reported as authorized at
    an earlier block, where it still was blacklisted: the removal makes the
    user known, and the lookup at the earlier block falls back to the empty
    baseline instead of reporting a miss. *)
Theorem future_update_answers_past_query policy token user n m :
  policy <> ALLOW_ALL_POLICY_ID -> policy <> REJECT_ALL_POLICY_ID -> 0 < n -> n < m ->
  let c := cache_run [CSetToken token n policy; CSetType policy BLACKLIST] in
  is_authorized c token user n Transfer = None /\
  is_authorized (apply_events c m [MembershipChanged policy user false]) token user n Transfer =
    Some true.
Proof.
  intros H1 H0 Hn Hm c.
  assert (Hb : builtin_authorization policy = None).
  { unfold builtin_authorization. by rewrite (proj2 (Z.eqb_neq _ _) H1), (proj2 (Z.eqb_neq _ _) H0). }
  assert (Hget : forall v : Z, hv_get (hv_set hv_default n v) n = Some v).
  { intros v. unfold hv_get, hv_set. cbn. rewrite (proj2 (Z.leb_gt n 0) Hn). cbn.
    rewrite (proj2 (Z.leb_gt n 0) Hn). unfold last_le, range_le. rewrite sel_cons.
    by rewrite Z.leb_refl. }
  split.
  - unfold is_authorized, c, cache_run. cbn. rewrite lookup_insert_eq. cbn. rewrite Hget. cbn.
    unfold check_policy. rewrite Hb. cbn. by rewrite lookup_insert_eq.
  - unfold is_authorized, c, cache_run. cbn. rewrite lookup_insert_eq. cbn. rewrite Hget. cbn.
    unfold check_policy. rewrite Hb. cbn. rewrite lookup_insert_eq. cbn.
    rewrite lookup_insert_eq. cbn. unfold ps_record_status, ps_is_known, ps_contains. cbn.
    rewrite !lookup_empty. cbn.     rewrite (proj2 (Z.leb_gt m 0)) by lia. cbn.
    rewrite bool_decide_eq_true_2 by set_solver. cbn.
    rewrite (proj2 (Z.leb_gt n 0) Hn). unfold range_le, bt_update. cbn.
    rewrite sel_cons.
    rewrite (proj2 (Z.leb_gt m n) Hm). cbn. by rewrite bool_decide_eq_false_2 by set_solver.
Qed.

Lemma future_update_answers_past_query_witness :
  let c := cache_run [CSetToken 99 10 7; CSetType 7 BLACKLIST] in
  is_authorized c 99 42 10 Transfer = None /\
  is_authorized (apply_events c 20 [MembershipChanged 7 42 false]) 99 42 10 Transfer = Some true.
Proof. apply (future_update_answers_past_query 7 99 42 10 20); vm_compute; congruence. Defined.

(** ** The cache against the L1 registry *)

(** The registry's storage, and the effect of the events it emits. *)
Record Registry := mkReg {
  r_tokens : gmap Z Z;
  r_types : gmap Z PolicyType;
  r_compounds : gmap Z CompoundData;
  r_members : gset (Z * Z)
}.
Definition reg_empty : Registry := mkReg ∅ ∅ ∅ ∅.

Definition reg_apply (r : Registry) (e : PolicyEvent) : Registry :=
  match e with
  | MembershipChanged id u b =>
      mkReg (r_tokens r) (r_types r) (r_compounds r)
        (if b then {[(id, u)]} ∪ r_members r else r_members r ∖ {[(id, u)]})
  | TokenPolicyChanged t id => mkReg (<[t := id]> (r_tokens r)) (r_types r) (r_compounds r) (r_members r)
  | PolicyCreated id ty => mkReg (r_tokens r) (<[id := ty]> (r_types r)) (r_compounds r) (r_members r)
  | CompoundPolicyCreated id s d m =>
      mkReg (r_tokens r) (<[id := COMPOUND]> (r_types r)) (<[id := mkCompound s d m]> (r_compounds r))
        (r_members r)
  end.

(** The events received, tagged with their block; the registry they leave at
    a block, and after all of them. *)
Abbreviation events_log := (list (Z * PolicyEvent)).
Definition reg_all (log : events_log) : Registry := foldl reg_apply reg_empty (snd <$> log).
Definition reg_at (log : events_log) (n : Z) : Registry :=
  reg_all (filter (fun p => (p.1 <=? n) = true) log).

(** What the registry answers, with the types and compound data fixed at
    creation ([meta]) and the memberships of the block ([r]). *)
Definition reg_simple (meta r : Registry) (id user : Z) : option bool :=
  match builtin_authorization id with
  | Some a => Some a
  | None =>
      ty ← r_types meta !! id;
      match ty with
      | WHITELIST => Some (bool_decide ((id, user) ∈ r_members r))
      | BLACKLIST => Some (negb (bool_decide ((id, user) ∈ r_members r)))
      | _ => None
      end
  end.

Definition reg_policy (meta r : Registry) (id user : Z) (role : AuthRole) : option bool :=
  match builtin_authorization id, r_types meta !! id with
  | None, Some COMPOUND =>
      d ← r_compounds meta !! id;
      match role with
      | Sender => reg_simple meta r (sender_policy_id d) user
      | Recipient => reg_simple meta r (recipient_policy_id d) user
      | MintRecipient => reg_simple meta r (mint_recipient_policy_id d) user
      | Transfer =>
          a ← reg_simple meta r (sender_policy_id d) user;
          b ← reg_simple meta r (recipient_policy_id d) user;
          Some (a && b)
      end
  | _, _ => reg_simple meta r id user
  end.

(** The cache as the node drives it: the subscriber applies the events of
    ever newer blocks, the engine advances up to blocks already applied. *)
Inductive feed := FEvents (block : Z) (events : list PolicyEvent) | FAdvance (height : Z).

Fixpoint feed_valid (cur : Z) (ops : list feed) : Prop :=
  match ops with
  | [] => True
  | FEvents b _ :: ops' => cur < b /\ feed_valid b ops'
  | FAdvance h :: ops' => h <= cur /\ feed_valid cur ops'
  end.

Definition feed_step (c : PolicyCacheInner) (op : feed) : PolicyCacheInner :=
  match op with FEvents b es => apply_events c b es | FAdvance h => advance c h end.
Definition feed_log (op : feed) : events_log :=
  match op with FEvents b es => (fun e => (b, e)) <$> es | FAdvance _ => [] end.
Definition feed_height (base : Z) (op : feed) : Z :=
  match op with FEvents _ _ => base | FAdvance h => Z.max base h end.

(** The state reached by feeding: what every query above the baseline sees. *)
Record Fed (cur base : Z) (log : events_log) (c : PolicyCacheInner) : Prop := mkFed {
  fed_wf : cache_wf c;
  fed_base : 0 <= base <= cur;
  fed_hv : forall t hv, tokens c !! t = Some hv ->
    hv_baseline_height hv <= base /\ Forall (fun p => p.1 <= cur) (hv_pending hv);
  fed_ps : forall id p, policies c !! id = Some p ->
    ps_baseline_height (policy_set p) <= base /\
    Forall (fun q => q.1 <= cur) (ps_pending (policy_set p));
  fed_token : forall t n, base <= n -> get_token_policy c t n = r_tokens (reg_at log n) !! t;
  fed_member : forall id u n, base <= n ->
    ps_contains (default ps_default (policy_set <$> policies c !! id)) u n =
    bool_decide ((id, u) ∈ r_members (reg_at log n));
  fed_type : forall id, (policies c !! id ≫= policy_type) = r_types (reg_all log) !! id;
  fed_compound : forall id, (policies c !! id ≫= compound) = r_compounds (reg_all log) !! id
}.

Lemma reg_at_snoc log b e n :
  reg_at (log ++ [(b, e)]) n = if b <=? n then reg_apply (reg_at log n) e else reg_at log n.
Proof.
  unfold reg_at, reg_all. rewrite filter_app, fmap_app, foldl_app.
  rewrite filter_cons. cbn [fst]. destruct (b <=? n); [by rewrite decide_True|by rewrite decide_False].
Qed.

Lemma reg_all_snoc log b e : reg_all (log ++ [(b, e)]) = reg_apply (reg_all log) e.
Proof. unfold reg_all. by rewrite fmap_app, foldl_app. Qed.

Lemma get_set_token c t b id t' n cur base :
  cache_wf c -> 0 <= base < b -> cur <= b ->
  (forall t hv, tokens c !! t = Some hv ->
    hv_baseline_height hv <= base /\ Forall (fun p => p.1 <= cur) (hv_pending hv)) ->
  get_token_policy (set_token_policy c t b id) t' n =
  if (b <=? n) && (t =? t') then Some id else get_token_policy c t' n.
Proof.
  intros Hwf Hb Hc Hhv. unfold get_token_policy, set_token_policy. cbn [tokens].
  destruct (Z.eqb_spec t t') as [<-|Hne].
  - rewrite lookup_insert_eq, andb_true_r. cbn.
    destruct (tokens c !! t) as [hv|] eqn:E; cbn.
    + destruct (Hhv t hv E) as [H1 H2]. apply hv_set_get; [by eapply wf_tokens|lia|].
      eapply Forall_impl; [exact H2|]. intros p. cbn. lia.
    + rewrite hv_set_get; [|apply hv_wf_default|cbn; lia|constructor].
      case_match; [done|]. unfold hv_get. cbn. by destruct (n <=? 0).
  - rewrite lookup_insert_ne, andb_false_r by done. done.
Qed.

Lemma Forall_le_mono {V} (m : btree V) cur b :
  cur <= b -> Forall (fun p => p.1 <= cur) m -> Forall (fun p => p.1 <= b) m.
Proof. intros Hc Hm. eapply Forall_impl; [exact Hm|]. intros p. cbn. lia. Qed.

Lemma Fed_token_event cur base log c b t id :
  Fed cur base log c -> base < b -> cur <= b ->
  Fed b base (log ++ [(b, TokenPolicyChanged t id)]) (set_token_policy c t b id).
Proof.
  intros F Hb Hc. pose proof (fed_base _ _ _ _ F) as Hbase. split.
  - apply wf_set_token, F.
  - lia.
  - cbn. intros t' hv [[<- <-]|[_ E]]%lookup_insert_Some.
    + assert (H0 : forall s, hv_baseline_height s <= base -> Forall (fun p => p.1 <= cur) (hv_pending s) ->
        hv_baseline_height (hv_set s b id) <= base /\ Forall (fun p => p.1 <= b) (hv_pending (hv_set s b id))).
      { intros s H1 H2. unfold hv_set. rewrite (proj2 (Z.leb_gt b _)) by lia. cbn. split; [done|].
        apply Forall_forall. intros p [->|Hp]%elem_of_bt_insert; [done|].
        rewrite Forall_forall in H2. specialize (H2 p Hp). lia. }
      destruct (tokens c !! t) as [hv|] eqn:E; cbn.
      * apply H0; by eapply (fed_hv _ _ _ _ F).
      * apply H0; cbn; [lia|constructor].
    + destruct (fed_hv _ _ _ _ F t' hv E). split; [done|]. by eapply Forall_le_mono.
  - cbn. intros id' p E. destruct (fed_ps _ _ _ _ F id' p E). split; [done|]. by eapply Forall_le_mono.
  - intros t' n Hn. erewrite get_set_token; [|apply F|split; [apply F|done]|done|apply F].
    rewrite (fed_token _ _ _ _ F t' n Hn), reg_at_snoc. destruct (b <=? n); cbn; [|done].
    destruct (Z.eqb_spec t t') as [<-|]; [by rewrite lookup_insert_eq|by rewrite lookup_insert_ne].
  - intros id' u n Hn. cbn [set_token_policy policies]. rewrite (fed_member _ _ _ _ F id' u n Hn), reg_at_snoc.
    by destruct (b <=? n).
  - intros id'. rewrite reg_all_snoc. apply (fed_type _ _ _ _ F).
  - intros id'. rewrite reg_all_snoc. apply (fed_compound _ _ _ _ F).
Qed.

(** An event that updates one policy entry by [f]: what [f] must do to the
    entry for the registry's reading of the event. *)
Record Entry_update (base cur b id : Z) (e : PolicyEvent) (f : CachedPolicy -> CachedPolicy) : Prop :=
mkEntryUpdate {
  eu_wf : forall p, ps_wf (policy_set p) -> ps_wf (policy_set (f p));
  eu_bounds : forall p, ps_baseline_height (policy_set p) <= base ->
    Forall (fun q => q.1 <= cur) (ps_pending (policy_set p)) ->
    ps_baseline_height (policy_set (f p)) <= base /\
    Forall (fun q => q.1 <= b) (ps_pending (policy_set (f p)));
  eu_tokens : forall r, r_tokens (reg_apply r e) = r_tokens r;
  eu_others : forall r id', id' <> id ->
    (forall u, (id', u) ∈ r_members (reg_apply r e) <-> (id', u) ∈ r_members r) /\
    r_types (reg_apply r e) !! id' = r_types r !! id' /\
    r_compounds (reg_apply r e) !! id' = r_compounds r !! id';
  eu_member : forall p r u n, ps_wf (policy_set p) -> ps_baseline_height (policy_set p) <= base ->
    Forall (fun q => q.1 <= cur) (ps_pending (policy_set p)) ->
    ps_contains (policy_set p) u n = bool_decide ((id, u) ∈ r_members r) ->
    ps_contains (policy_set (f p)) u n =
      bool_decide ((id, u) ∈ r_members (if b <=? n then reg_apply r e else r));
  eu_type : forall p r, policy_type p = r_types r !! id ->
    policy_type (f p) = r_types (reg_apply r e) !! id;
  eu_compound : forall p r, compound p = r_compounds r !! id ->
    compound (f p) = r_compounds (reg_apply r e) !! id
}.

Lemma Fed_policy_event cur base log c b e id f :
  Fed cur base log c -> base < b -> cur <= b -> Entry_update base cur b id e f ->
  Fed b base (log ++ [(b, e)]) (update_policy_entry f c id).
Proof.
  intros F Hb Hc [Uwf Ubd Utok Uoth Umem Uty Ucp].
  pose proof (fed_base _ _ _ _ F) as Hbase.
  set (p0 := default policy_default (policies c !! id)).
  assert (Hp0 : ps_wf (policy_set p0) /\ ps_baseline_height (policy_set p0) <= base /\
                Forall (fun q => q.1 <= cur) (ps_pending (policy_set p0))).
  { unfold p0. destruct (policies c !! id) as [p|] eqn:E; cbn.
    - split; [by eapply (wf_policies _ (fed_wf _ _ _ _ F))|]. by eapply (fed_ps _ _ _ _ F).
    - split; [apply ps_wf_default|]. split; [lia|constructor]. }
  destruct Hp0 as (W0 & H0 & K0). split.
  - apply wf_update_entry; [apply F|done].
  - lia.
  - cbn. intros t hv E. destruct (fed_hv _ _ _ _ F t hv E). split; [done|]. by eapply Forall_le_mono.
  - cbn. intros id' p [[<- <-]|[_ E]]%lookup_insert_Some; [by apply Ubd|].
    destruct (fed_ps _ _ _ _ F id' p E). split; [done|]. by eapply Forall_le_mono.
  - intros t n Hn. rewrite reg_at_snoc. change (get_token_policy _ t n) with (get_token_policy c t n).
    rewrite (fed_token _ _ _ _ F t n Hn). case_match; [by rewrite Utok|done].
  - intros id' u n Hn. rewrite reg_at_snoc. cbn [update_policy_entry policies].
    pose proof (fed_member _ _ _ _ F id' u n Hn) as Hm.
    destruct (decide (id = id')) as [<-|Hne].
    + rewrite lookup_insert_eq. cbn. apply Umem; try done. unfold p0.
      rewrite <- Hm. by destruct (policies c !! id).
    + rewrite lookup_insert_ne, Hm by done. case_match; [|done].
      apply bool_decide_ext. symmetry. by apply Uoth.
  - intros id'. rewrite reg_all_snoc. cbn [update_policy_entry policies].
    pose proof (fed_type _ _ _ _ F id') as Ht. destruct (decide (id = id')) as [<-|Hne].
    + rewrite lookup_insert_eq. cbn. apply Uty. rewrite <- Ht. unfold p0. by destruct (policies c !! id).
    + rewrite lookup_insert_ne, Ht by done. symmetry. by apply Uoth.
  - intros id'. rewrite reg_all_snoc. cbn [update_policy_entry policies].
    pose proof (fed_compound _ _ _ _ F id') as Ht. destruct (decide (id = id')) as [<-|Hne].
    + rewrite lookup_insert_eq. cbn. apply Ucp. rewrite <- Ht. unfold p0. by destruct (policies c !! id).
    + rewrite lookup_insert_ne, Ht by done. symmetry. by apply Uoth.
Qed.

Lemma record_entry_update base cur b id u st :
  base < b -> cur <= b -> 
  Entry_update base cur b id (MembershipChanged id u st) (fun p =>
    mkPolicy (policy_type p) (ps_record_status (policy_set p) u b st) (compound p)).
Proof.
  intros Hb Hc. split; try done.
  - intros p Hp. by apply (ps_wf_step _ (PsRecord u b st)).
  - intros p Hh Hk. cbn. unfold ps_record_status. rewrite (proj2 (Z.leb_gt b _)) by lia. cbn.
    split; [done|]. apply Forall_forall. intros q [->|Hq]%elem_of_bt_insert; [done|].
    rewrite Forall_forall in Hk. specialize (Hk q Hq). lia.
  - intros r id' Hne. cbn. split; [|done]. intros v. destruct st; set_solver.
  - intros p r v n Hwf Hh Hk Hm. cbn [policy_set].
    rewrite ps_record_contains; [|done|lia|by eapply Forall_le_mono].
    rewrite Hm. destruct (b <=? n); cbn; [|done].
    destruct (Z.eqb_spec u v) as [<-|Hne].
    + destruct st; symmetry; [apply bool_decide_eq_true_2|apply bool_decide_eq_false_2]; set_solver.
    + apply bool_decide_ext. destruct st; set_solver.
Qed.

(** An update that leaves the membership alone. *)
Lemma meta_entry_update base cur b id e f :
  base < b -> cur <= b -> (forall p, policy_set (f p) = policy_set p) ->
  (forall r, r_tokens (reg_apply r e) = r_tokens r /\ r_members (reg_apply r e) = r_members r) ->
  (forall r id', id' <> id -> r_types (reg_apply r e) !! id' = r_types r !! id' /\
                              r_compounds (reg_apply r e) !! id' = r_compounds r !! id') ->
  (forall p r, policy_type p = r_types r !! id -> policy_type (f p) = r_types (reg_apply r e) !! id) ->
  (forall p r, compound p = r_compounds r !! id -> compound (f p) = r_compounds (reg_apply r e) !! id) ->
  Entry_update base cur b id e f.
Proof.
  intros Hb Hc Hset Hr Ho Ht Hcp. split; try done.
  - intros p. by rewrite Hset.
  - intros p Hh Hk. rewrite Hset. split; [done|]. by eapply Forall_le_mono.
  - intros r. apply Hr.
  - intros r id' Hne. destruct (Ho r id' Hne). split; [|done]. intros u. by rewrite (proj2 (Hr r)).
  - intros p r u n _ _ _ Hm. rewrite Hset, Hm. case_match; [|done]. by rewrite (proj2 (Hr r)).
Qed.

Lemma Fed_event cur base log c b e :
  Fed cur base log c -> base < b -> cur <= b -> Fed b base (log ++ [(b, e)]) (apply_event b c e).
Proof.
  intros F Hb Hc. destruct e as [id u st|t id|id ty|id s d m]; cbn [apply_event].
  - eapply Fed_policy_event; [done..|]. by apply record_entry_update.
  - by eapply Fed_token_event.
  - eapply Fed_policy_event; [done..|]. apply meta_entry_update; try done.
    + intros r id' Hne. cbn. by rewrite lookup_insert_ne.
    + intros p r _. cbn. by rewrite lookup_insert_eq.
  - eapply Fed_policy_event; [done..|]. apply meta_entry_update; try done.
    + intros r id' Hne. cbn. by rewrite !lookup_insert_ne.
    + intros p r _. cbn. by rewrite lookup_insert_eq.
    + intros p r _. cbn. by rewrite lookup_insert_eq.
Qed.

Lemma hv_advance_bounds {V} (s : HeightVersioned V) h base cur :
  hv_baseline_height s <= base -> Forall (fun p => p.1 <= cur) (hv_pending s) ->
  hv_baseline_height (hv_advance s h) <= Z.max base h /\
  Forall (fun p => p.1 <= cur) (hv_pending (hv_advance s h)).
Proof.
  intros Hh Hk. unfold hv_advance. destruct (Z.leb_spec h (hv_baseline_height s)); cbn.
  - split; [lia|done].
  - split; [lia|]. apply Forall_forall. intros p [_ Hp]%elem_of_sel.
    rewrite Forall_forall in Hk. by apply Hk.
Qed.

Lemma ps_advance_bounds s h base cur :
  ps_baseline_height s <= base -> Forall (fun p => p.1 <= cur) (ps_pending s) ->
  ps_baseline_height (ps_advance s h) <= Z.max base h /\
  Forall (fun p => p.1 <= cur) (ps_pending (ps_advance s h)).
Proof.
  intros Hh Hk. unfold ps_advance. destruct (Z.leb_spec h (ps_baseline_height s)); cbn.
  - split; [lia|done].
  - split; [lia|]. apply Forall_forall. intros p [_ Hp]%elem_of_sel.
    rewrite Forall_forall in Hk. by apply Hk.
Qed.

Lemma Fed_advance cur base log c h :
  Fed cur base log c -> h <= cur -> Fed cur (Z.max base h) log (advance c h).
Proof.
  intros F Hh. pose proof (fed_base _ _ _ _ F) as Hbase. split.
  - apply (wf_step c (CAdvance h)), F.
  - lia.
  - cbn. intros t hv. rewrite lookup_fmap. intros (v & E & ->)%fmap_Some.
    destruct (fed_hv _ _ _ _ F t v E). by apply hv_advance_bounds.
  - cbn. intros id p. rewrite lookup_fmap. intros (q & E & ->)%fmap_Some.
    destruct (fed_ps _ _ _ _ F id q E). by apply ps_advance_bounds.
  - intros t n Hn. rewrite <- (fed_token _ _ _ _ F t n) by lia. unfold get_token_policy.
    cbn [advance tokens]. rewrite lookup_fmap. destruct (tokens c !! t) as [hv|] eqn:E; [|done]. cbn.
    apply hv_advance_get; [by eapply (wf_tokens _ (fed_wf _ _ _ _ F))|lia].
  - intros id u n Hn. rewrite <- (fed_member _ _ _ _ F id u n) by lia. cbn [advance policies].
    rewrite lookup_fmap. destruct (policies c !! id) as [p|] eqn:E; [|done]. cbn.
    apply ps_advance_query; [by eapply (wf_policies _ (fed_wf _ _ _ _ F))|lia].
  - intros id. rewrite <- (fed_type _ _ _ _ F id). cbn [advance policies]. rewrite lookup_fmap.
    by destruct (policies c !! id).
  - intros id. rewrite <- (fed_compound _ _ _ _ F id). cbn [advance policies]. rewrite lookup_fmap.
    by destruct (policies c !! id).
Qed.

Lemma Fed_events cur base log c b es :
  Fed cur base log c -> base < b -> cur <= b ->
  Fed b base (log ++ ((fun e => (b, e)) <$> es)) (apply_events c b es).
Proof.
  unfold apply_events. revert cur log c. induction es as [|e es IH]; intros cur log c F Hb Hc; cbn.
  - rewrite app_nil_r. destruct F. split; try done; [lia|..].
    + intros t hv E. destruct (fed_hv0 t hv E). split; [done|]. by eapply Forall_le_mono.
    + intros id p E. destruct (fed_ps0 id p E). split; [done|]. by eapply Forall_le_mono.
  - change ((b, e) :: ((fun e => (b, e)) <$> es)) with ([(b, e)] ++ ((fun e => (b, e)) <$> es)).
    rewrite app_assoc.
    apply (IH b); [by eapply Fed_event|done|lia].
Qed.

Lemma Fed_default : Fed 0 0 [] cache_default.
Proof.
  split; try done. intros id u n _. cbn. rewrite lookup_empty. cbn. unfold ps_contains. cbn.
  rewrite !bool_decide_eq_false_2 by set_solver. by destruct (n <=? 0).
Qed.

Lemma Fed_run ops : forall cur base log c,
  Fed cur base log c -> feed_valid cur ops ->
  exists cur', Fed cur' (foldl feed_height base ops) (log ++ concat (feed_log <$> ops))
                 (foldl feed_step c ops).
Proof.
  induction ops as [|op ops IH]; intros cur base log c F Hv; cbn.
  { exists cur. by rewrite app_nil_r. }
  pose proof (fed_base _ _ _ _ F). rewrite app_assoc. destruct op as [b es|h]; cbn in *; destruct Hv.
  - apply (IH b); [|done]. apply (Fed_events cur); [done|lia|lia].
  - rewrite app_nil_r. apply (IH cur); [by apply Fed_advance|done].
Qed.

(** ** What an answer of the cache means *)

Lemma check_simple_registry cur base log c id user n a :
  Fed cur base log c -> base <= n -> check_simple c id user n = Some a ->
  reg_simple (reg_all log) (reg_at log n) id user = Some a.
Proof.
  intros F Hn. unfold check_simple, reg_simple. destruct (builtin_authorization id); [done|].
  rewrite <- (fed_type _ _ _ _ F id). pose proof (fed_member _ _ _ _ F id user n Hn) as Hm.
  destruct (policies c !! id) as [p|]; [|done]. cbn in *. destruct (policy_type p) as [[]|]; try done;
    cbn; destruct (ps_is_known _ _); cbn; try done; by rewrite Hm.
Qed.

(** Fed with the registry's events from the start, block by block, with the
    engine advancing up to blocks already received, the cache never gives a
    wrong answer: when it answers for a token, user and role at a block not
    below the baseline, the registry at that block gives the same answer
    (for compound policies under [Transfer]: sender and recipient both). *)
Theorem cache_matches_registry ops token user n role a :
  feed_valid 0 ops -> foldl feed_height 0 ops <= n ->
  is_authorized (foldl feed_step cache_default ops) token user n role = Some a ->
  let log := concat (feed_log <$> ops) in
  exists id, r_tokens (reg_at log n) !! token = Some id /\
    match reg_policy (reg_all log) (reg_at log n) id user role with
    | Some x => x = a
    | None => role = Transfer /\ a = false
    end.
Proof.
  intros Hv Hn Ha log. destruct (Fed_run ops 0 0 [] cache_default Fed_default Hv) as [cur F].
  cbn [app] in F. fold log in F. set (c := foldl feed_step cache_default ops) in *.
  set (base := foldl feed_height 0 ops) in *.
  unfold is_authorized in Ha. pose proof (fed_token _ _ _ _ F token n Hn) as Ht.
  unfold get_token_policy in Ht. destruct (tokens c !! token) as [hv|]; [|done]. cbn in *.
  destruct (hv_get hv n) as [id|]; [|done]. cbn in Ha. exists id. split; [done|].
  assert (Hs : forall id a, check_simple c id user n = Some a ->
            reg_simple (reg_all log) (reg_at log n) id user = Some a)
    by (intros; by eapply check_simple_registry).
  unfold check_policy in Ha. unfold reg_policy. pose proof (fed_type _ _ _ _ F id) as Hty.
  pose proof (fed_compound _ _ _ _ F id) as Hcp. pose proof (Hs id a) as Hid.
  unfold check_simple in Hid.
  destruct (builtin_authorization id) as [x|] eqn:Eb; [by rewrite (Hid Ha)|].
  destruct (policies c !! id) as [p|]; [|done]. cbn in *.
  destruct (policy_type p) as [ty|]; [|done]. cbn in *. rewrite <- Hty in *.
  destruct ty; cbn in *; try done; try by rewrite (Hid Ha).
  rewrite <- Hcp. destruct (compound p) as [d|]; [|done]. cbn in *.
  destruct role; cbn in *; try by rewrite (Hs _ _ Ha).
  destruct (check_simple c (sender_policy_id d) user n) as [sok|] eqn:E1; [|done]. cbn in Ha.
  rewrite (Hs _ _ E1). cbn. destruct sok; cbn in *; [by rewrite (Hs _ _ Ha)|].
  injection Ha as <-. destruct (reg_simple _ _ (recipient_policy_id d) user); by cbn.
Qed.

Lemma cache_matches_registry_witness :
  let ops := [FEvents 10 [PolicyCreated 7 WHITELIST; PolicyCreated 8 BLACKLIST;
                          CompoundPolicyCreated 9 7 8 8; TokenPolicyChanged 99 9];
              FAdvance 10; FEvents 11 [MembershipChanged 7 42 true; MembershipChanged 8 42 false];
              FEvents 12 [MembershipChanged 8 42 true]; FAdvance 11] in
  exists id, r_tokens (reg_at (concat (feed_log <$> ops)) 11) !! 99 = Some id /\
    match reg_policy (reg_all (concat (feed_log <$> ops))) (reg_at (concat (feed_log <$> ops)) 11)
            id 42 Transfer with
    | Some x => x = true
    | None => Transfer = Transfer /\ true = false
    end.
Proof.
  intros ops. apply (cache_matches_registry ops 99 42 11 Transfer true).
  - cbn. lia.
  - cbn. lia.
  - vm_compute. reflexivity.
Defined.
