(* ===== verification/PolicyProvider.v ===== *)
(** * The policy provider

    Models src/crates/l1/src/state/tip403/provider.rs ([PolicyProvider]):
    authorization answered from the cache, else fetched from L1 and written
    back.  The five L1 queries are a parameter; an RPC failure is [RpcFailed]
    and leaves the cache writes already made in place (the cache is shared,
    nothing rolls it back).  PolicyCheck.v holds the interface through which
    the precompiles use it. *)

From S2P Require Import Prelude.
From S2P Require Import BTree.
From S2P Require Import Policy.
From S2P Require Import PolicyProofs.
From S2P Require Import PolicyCache.
#[local] Open Scope Z_scope.

(** ** The L1 queries, at a block *)

Record L1Rpc := mkL1Rpc {
  rpc_transferPolicyId : Z -> Z -> option Z;
  rpc_policyData : Z -> Z -> option PolicyType;
  rpc_compoundPolicyData : Z -> Z -> option CompoundData;
  rpc_isAuthorized : Z -> Z -> Z -> option bool;
  rpc_policyExists : Z -> Z -> option bool
}.

Inductive PolicyError :=
| RpcFailed
| UnknownPolicyType (policy_id : Z)
| Unreachable.

(** A computation on the shared cache: writes survive an error. *)
Definition P (A : Type) : Type := PolicyCacheInner -> result PolicyError A * PolicyCacheInner.

#[export] Instance P_ret : MRet P := fun A a c => (Ok a, c).
#[export] Instance P_bind : MBind P := fun A B f m c =>
  match m c with
  | (Ok a, c') => f a c'
  | (Err e, c') => (Err e, c')
  end.
Definition p_fail {A} (e : PolicyError) : P A := fun c => (Err e, c).
Definition p_read {A} (f : PolicyCacheInner -> A) : P A := fun c => (Ok (f c), c).
Definition p_write (f : PolicyCacheInner -> PolicyCacheInner) : P unit := fun c => (Ok tt, f c).
Definition p_rpc {A} (o : option A) : P A := fun c =>
  match o with Some a => (Ok a, c) | None => (Err RpcFailed, c) end.

Section provider.
Context (rpc : L1Rpc).

Definition resolve_policy_id (token block_number : Z) : P Z :=
  cached ← p_read (fun c => get_token_policy c token block_number);
  match cached with
  | Some id => mret id
  | None =>
      policy_id ← p_rpc (rpc_transferPolicyId rpc token block_number);
      p_write (fun c => set_token_policy c token block_number policy_id) ;;
      mret policy_id
  end.

(** [policies().get(&id)] and a known type. *)
Definition cached_type (c : PolicyCacheInner) (policy_id : Z) : option PolicyType :=
  policy ← policies c !! policy_id; policy_type policy.

Definition cached_compound (c : PolicyCacheInner) (policy_id : Z) : option CompoundData :=
  policy ← policies c !! policy_id; compound policy.

Definition resolve_policy_type (policy_id block_number : Z) : P PolicyType :=
  cached ← p_read (fun c => cached_type c policy_id);
  match cached with
  | Some ty => mret ty
  | None =>
      ty ← p_rpc (rpc_policyData rpc policy_id block_number);
      p_write (fun c => set_policy_type c policy_id ty) ;;
      mret ty
  end.

Definition resolve_compound_data (policy_id block_number : Z) : P CompoundData :=
  cached ← p_read (fun c => cached_compound c policy_id);
  match cached with
  | Some data => mret data
  | None =>
      data ← p_rpc (rpc_compoundPolicyData rpc policy_id block_number);
      p_write (fun c => set_compound c policy_id data) ;;
      mret data
  end.

Definition rpc_is_authorized (policy_id user block_number : Z) : P bool :=
  p_rpc (rpc_isAuthorized rpc policy_id user block_number).

Definition fetch_and_cache_simple (policy_id user block_number : Z) (ty : PolicyType) : P bool :=
  authorized ← rpc_is_authorized policy_id user block_number;
  in_set ← match ty with
           | WHITELIST => mret authorized
           | BLACKLIST => mret (negb authorized)
           | _ => p_fail Unreachable
           end;
  p_write (fun c => set_policy_status c policy_id user block_number in_set) ;;
  mret authorized.

Definition resolve_simple_sub_policy (policy_id user block_number : Z) : P bool :=
  match builtin_authorization policy_id with
  | Some authorized => mret authorized
  | None =>
      cached ← p_read (fun c => check_simple c policy_id user block_number);
      match cached with
      | Some r => mret r
      | None =>
          ty ← resolve_policy_type policy_id block_number;
          fetch_and_cache_simple policy_id user block_number ty
      end
  end.

Definition fetch_and_cache_compound (policy_id user block_number : Z) (role : AuthRole) : P bool :=
  data ← resolve_compound_data policy_id block_number;
  match role with
  | Sender => resolve_simple_sub_policy (sender_policy_id data) user block_number
  | Recipient => resolve_simple_sub_policy (recipient_policy_id data) user block_number
  | MintRecipient => resolve_simple_sub_policy (mint_recipient_policy_id data) user block_number
  | Transfer =>
      sender_ok ← resolve_simple_sub_policy (sender_policy_id data) user block_number;
      if negb sender_ok then mret false
      else resolve_simple_sub_policy (recipient_policy_id data) user block_number
  end.

Definition resolve_policy_authorization (policy_id user block_number : Z) (role : AuthRole) : P bool :=
  ty ← resolve_policy_type policy_id block_number;
  match ty with
  | WHITELIST | BLACKLIST => fetch_and_cache_simple policy_id user block_number ty
  | COMPOUND => fetch_and_cache_compound policy_id user block_number role
  | InvalidPolicyType => p_fail (UnknownPolicyType policy_id)
  end.

Definition fetch_and_cache (token user block_number : Z) (role : AuthRole) : P bool :=
  policy_id ← resolve_policy_id token block_number;
  match builtin_authorization policy_id with
  | Some authorized =>
      p_write (fun c => set_token_policy c token block_number policy_id) ;;
      mret authorized
  | None => resolve_policy_authorization policy_id user block_number role
  end.

(** The synchronous check and its async version have the same body. *)
Definition provider_is_authorized (token user block_number : Z) (role : AuthRole) : P bool :=
  cached ← p_read (fun c => is_authorized c token user block_number role);
  match cached with
  | Some r => mret r
  | None => fetch_and_cache token user block_number role
  end.

Definition fetch_and_cache_by_policy (policy_id user block_number : Z) (role : AuthRole) : P bool :=
  resolve_policy_authorization policy_id user block_number role.

Definition is_authorized_by_policy (policy_id user : Z) (role : AuthRole) : P bool :=
  match builtin_authorization policy_id with
  | Some authorized => mret authorized
  | None =>
      block_number ← p_read last_l1_block;
      cached ← p_read (fun c => check_policy c policy_id user block_number role);
      match cached with
      | Some r => mret r
      | None => fetch_and_cache_by_policy policy_id user block_number role
      end
  end.

Definition resolve_transfer_policy_id (token : Z) : P Z :=
  block_number ← p_read last_l1_block;
  cached ← p_read (fun c => get_token_policy c token block_number);
  match cached with
  | Some id => mret id
  | None => resolve_policy_id token block_number
  end.

Definition resolve_policy_type_sync (policy_id : Z) : P PolicyType :=
  cached ← p_read (fun c => cached_type c policy_id);
  match cached with
  | Some ty => mret ty
  | None => block_number ← p_read last_l1_block; resolve_policy_type policy_id block_number
  end.

Definition resolve_compound_data_sync (policy_id : Z) : P CompoundData :=
  cached ← p_read (fun c => cached_compound c policy_id);
  match cached with
  | Some data => mret data
  | None => block_number ← p_read last_l1_block; resolve_compound_data policy_id block_number
  end.

Definition policy_exists_sync (policy_id : Z) : P bool :=
  match builtin_authorization policy_id with
  | Some _ => mret true
  | None =>
      cached ← p_read (fun c => cached_type c policy_id);
      match cached with
      | Some _ => mret true
      | None =>
          block_number ← p_read last_l1_block;
          p_rpc (rpc_policyExists rpc policy_id block_number)
      end
  end.

(** [keys().max().map_or(2, |max| max + 1)] *)
Definition policy_id_counter (c : PolicyCacheInner) : Z :=
  match map_fold (fun k _ acc => Some (match acc with Some m => Z.max m k | None => k end)) None
          (policies c) with
  | None => 2
  | Some max => wrapping_add U64_MAX max 1
  end.
End provider.

(** ** Writes at the queried block *)

Lemma range_le_bound {V} n (m : btree V) : Forall (fun p => p.1 <= n) (range_le n m).
Proof. apply Forall_forall. intros p [Hp _]%elem_of_sel. by apply Z.leb_le. Qed.

Lemma hv_set_at {V} (s : HeightVersioned V) n v :
  hv_wf s -> hv_get (hv_set s n v) n = if n <=? hv_baseline_height s then hv_get s n else Some v.
Proof.
  intros [[h log] [Hs Hh Hp Hb]]. cbn [fst snd] in *. unfold hv_set.
  destruct (Z.leb_spec n (hv_baseline_height s)) as [Hle|Hlt]; [done|].
  unfold hv_get. cbn [hv_baseline_height hv_pending hv_baseline].
  rewrite (proj2 (Z.leb_gt n _)) by done. unfold last_le, range_le.
  assert (Hsp : sorted (hv_pending s)) by (rewrite Hp; by apply sel_sorted).
  rewrite sel_bt_insert, Z.leb_refl by done.
  destruct (bt_insert_top n v (range_le n (hv_pending s))) as (m' & E & _);
    [by apply sel_sorted|apply range_le_bound|]. unfold range_le in E. by rewrite E, last_snoc.
Qed.

Lemma ps_record_at s u n st user :
  ps_wf s -> ps_baseline_height s < n ->
  ps_contains (ps_record_status s u n st) user n = if u =? user then st else ps_contains s user n.
Proof.
  intros [[h log] [Hs Hh Hp Hb _]] Hlt. cbn [fst snd] in *. unfold ps_record_status.
  rewrite (proj2 (Z.leb_gt n _) Hlt). unfold ps_contains.
  cbn [ps_baseline_height ps_pending ps_baseline]. rewrite (proj2 (Z.leb_gt n _) Hlt).
  assert (Hsp : sorted (ps_pending s)) by (rewrite Hp; by apply sel_sorted).
  rewrite !scan_blocks_rev. unfold bt_update, range_le. rewrite sel_bt_insert, Z.leb_refl by done.
  pose proof (bt_lookup_sel (fun k => k <=? n) n (ps_pending s)) as El. cbv beta in El.
  rewrite Z.leb_refl in El.
  rewrite <- El.
  set (m := sel (fun k => k <=? n) (ps_pending s)).
  destruct (bt_insert_top n (default [] (bt_lookup n m) ++ [mkUpdate u st]) m) as (m' & E & Hm);
    [by apply sel_sorted|apply range_le_bound|].
  assert (Ec : concat (snd <$> bt_insert n (default [] (bt_lookup n m) ++ [mkUpdate u st]) m) =
               concat (snd <$> m) ++ [mkUpdate u st]).
  { rewrite E. destruct Hm as [[-> ->]|(v0 & -> & ->)]; rewrite !fmap_app, !concat_app; cbn;
      rewrite ?app_nil_r, ?app_assoc; done. }
  rewrite Ec, rev_app_distr. cbn. by destruct (u =? user).
Qed.

Lemma ps_record_known s u n st user :
  ps_is_known (ps_record_status s u n st) user = true ->
  ps_is_known s user = true \/ u = user /\ ps_baseline_height s < n.
Proof.
  unfold ps_record_status. destruct (Z.leb_spec n (ps_baseline_height s)); [by left|].
  unfold ps_is_known. cbn. rewrite !orb_true_iff, !bool_decide_eq_true, elem_of_union,
    elem_of_singleton. naive_solver.
Qed.

(** ** Agreement with L1 at a block *)

(** The registry and tokens of L1 at a block. *)
Record L1Policies := mkL1Policies {
  t_token : Z -> Z;
  t_type : Z -> PolicyType;
  t_compound : Z -> CompoundData;
  t_member : Z -> Z -> bool
}.

Section agreement.
Context (T : L1Policies) (n : Z).

(** The answer of the L1 registry. *)
Definition l1_simple (id user : Z) : bool :=
  match builtin_authorization id with
  | Some a => a
  | None => match t_type T id with
            | WHITELIST => t_member T id user
            | BLACKLIST => negb (t_member T id user)
            | _ => false
            end
  end.

Definition l1_authorized (id user : Z) (role : AuthRole) : bool :=
  match builtin_authorization id, t_type T id with
  | None, COMPOUND =>
      let d := t_compound T id in
      match role with
      | Sender => l1_simple (sender_policy_id d) user
      | Recipient => l1_simple (recipient_policy_id d) user
      | MintRecipient => l1_simple (mint_recipient_policy_id d) user
      | Transfer => l1_simple (sender_policy_id d) user && l1_simple (recipient_policy_id d) user
      end
  | _, _ => l1_simple id user
  end.

Definition simple_id (id : Z) : Prop :=
  builtin_authorization id <> None \/ t_type T id = WHITELIST \/ t_type T id = BLACKLIST.

(** Policies have a valid type, and compounds are made of simple policies. *)
Record L1_wf : Prop := mkL1Wf {
  lw_valid : forall id, t_type T id <> InvalidPolicyType;
  lw_compound : forall id, t_type T id = COMPOUND ->
    simple_id (sender_policy_id (t_compound T id)) /\
    simple_id (recipient_policy_id (t_compound T id)) /\
    simple_id (mint_recipient_policy_id (t_compound T id))
}.

(** Successful L1 queries at the block tell the truth. *)
Record Truthful (rpc : L1Rpc) : Prop := mkTruthful {
  tr_token : forall t p, rpc_transferPolicyId rpc t n = Some p -> p = t_token T t;
  tr_type : forall id ty, rpc_policyData rpc id n = Some ty -> ty = t_type T id;
  tr_compound : forall id d, rpc_compoundPolicyData rpc id n = Some d -> d = t_compound T id;
  tr_auth : forall id user a, rpc_isAuthorized rpc id user n = Some a -> simple_id id ->
              a = l1_simple id user
}.

(** What the cache holds is true at the block. *)
Record Agree (c : PolicyCacheInner) : Prop := mkAgree {
  ag_wf : cache_wf c;
  ag_token : forall t p, get_token_policy c t n = Some p -> p = t_token T t;
  ag_type : forall id ty, cached_type c id = Some ty -> ty = t_type T id;
  ag_compound : forall id d, cached_compound c id = Some d ->
                  t_type T id = COMPOUND -> d = t_compound T id;
  ag_member : forall id p user, policies c !! id = Some p -> ps_is_known (policy_set p) user = true ->
                ps_contains (policy_set p) user n = t_member T id user
}.

Lemma agree_set_token c t : Agree c -> Agree (set_token_policy c t n (t_token T t)).
Proof.
  intros [Hw Ht Hty Hc Hm]. split; try done.
  - by apply wf_set_token.
  - intros t' p. unfold get_token_policy, set_token_policy. cbn.
    destruct (decide (t = t')) as [<-|Hne]; [|rewrite lookup_insert_ne by done; by apply Ht].
    rewrite lookup_insert_eq. cbn.
    assert (Hhv : hv_wf (default hv_default (tokens c !! t))).
    { destruct (tokens c !! t) eqn:E; [by eapply wf_tokens|apply hv_wf_default]. }
    rewrite hv_set_at by done. case_match; [|congruence].
    intros E. apply Ht. unfold get_token_policy. destruct (tokens c !! t); [done|].
    unfold hv_get in E. cbn in E. by destruct (n <=? 0).
Qed.

Lemma agree_update_entry c f id :
  Agree c -> (forall p, ps_wf (policy_set p) -> ps_wf (policy_set (f p))) ->
  (let p := default policy_default (policies c !! id) in
   (forall ty, policy_type (f p) = Some ty -> policy_type p = Some ty \/ ty = t_type T id) /\
   (forall d, compound (f p) = Some d -> compound p = Some d \/ d = t_compound T id) /\
   (forall user, ps_wf (policy_set p) -> ps_is_known (policy_set (f p)) user = true ->
      (ps_is_known (policy_set p) user = true /\
       ps_contains (policy_set (f p)) user n = ps_contains (policy_set p) user n) \/
      ps_contains (policy_set (f p)) user n = t_member T id user)) ->
  Agree (update_policy_entry f c id).
Proof.
  intros [Hw Ht Hty Hc Hm] Hf (H1 & H2 & H3). unfold cached_type, cached_compound in *. split; try done.
  - by apply wf_update_entry.
  - intros id' ty. unfold cached_type. cbn. destruct (decide (id = id')) as [<-|Hne];
      [rewrite lookup_insert_eq|rewrite lookup_insert_ne by done; apply Hty]. cbn.
    intros [E| ->]%H1; [|done]. apply Hty. destruct (policies c !! id); [done|by cbn in E].
  - intros id' d. unfold cached_compound. cbn. destruct (decide (id = id')) as [<-|Hne];
      [rewrite lookup_insert_eq|rewrite lookup_insert_ne by done; apply Hc]. cbn.
    intros [E| ->]%H2; [|done]. apply Hc. by destruct (policies c !! id).
  - intros id' p user. cbn. destruct (decide (id = id')) as [<-|Hne];
      [rewrite lookup_insert_eq|rewrite lookup_insert_ne by done; apply Hm].
    intros [= <-] Hk. destruct (policies c !! id) as [p|] eqn:E; cbn in *.
    + destruct (H3 user ltac:(by eapply wf_policies) Hk) as [[Hk' ->]|]; [by eapply Hm|done].
    + destruct (H3 user ps_wf_default Hk) as [[Hk' _]|]; [|done]. by vm_compute in Hk'.
Qed.

(** ** The provider answers like L1 *)

Context (rpc : L1Rpc) (HT : Truthful rpc) (HW : L1_wf).

(** Every L1 query at the block is answered. *)
Definition Answering : Prop :=
  (forall t, rpc_transferPolicyId rpc t n <> None) /\ (forall id, rpc_policyData rpc id n <> None) /\
  (forall id, rpc_compoundPolicyData rpc id n <> None) /\
  (forall id user, rpc_isAuthorized rpc id user n <> None).

(** From an agreeing cache: the cache still agrees, a result satisfies [Q],
    and the only error is an unanswered L1 query. *)
Definition triple {A} (m : P A) (Q : A -> Prop) : Prop :=
  forall c, Agree c -> Agree (m c).2 /\
    match (m c).1 with Ok a => Q a | Err e => e = RpcFailed /\ ~ Answering end.

Lemma triple_ret {A} (a : A) (Q : A -> Prop) : Q a -> triple (mret a) Q.
Proof. intros H c Hc. by split. Qed.

Lemma triple_bind {A B} (m : P A) (f : A -> P B) (Q : A -> Prop) (R : B -> Prop) :
  triple m Q -> (forall a, Q a -> triple (f a) R) -> triple (mbind f m) R.
Proof.
  intros Hm Hf c Hc. destruct (Hm c Hc) as [Hc' Hr]. unfold mbind, P_bind.
  destruct (m c) as [[a|e] c']; cbn in *; [by apply Hf|done].
Qed.

Lemma triple_read {A} (f : PolicyCacheInner -> A) (Q : A -> Prop) :
  (forall c, Agree c -> Q (f c)) -> triple (p_read f) Q.
Proof. intros H c Hc. split; [done|]. by apply H. Qed.

Lemma triple_write f : (forall c, Agree c -> Agree (f c)) -> triple (p_write f) (fun _ => True).
Proof. intros H c Hc. split; [by apply H|done]. Qed.

Lemma triple_rpc {A} (o : option A) (Q : A -> Prop) :
  (forall a, o = Some a -> Q a) -> (o = None -> ~ Answering) -> triple (p_rpc o) Q.
Proof. intros H1 H2 c Hc. unfold p_rpc. destruct o; (split; [done|]); cbn; eauto. Qed.

Lemma triple_resolve_id t : triple (resolve_policy_id rpc t n) (fun id => id = t_token T t).
Proof.
  unfold resolve_policy_id.
  apply (triple_bind _ _ (fun o => forall id, o = Some id -> id = t_token T t)).
  { apply triple_read. intros c Hc id. by apply ag_token. }
  intros [id|] Hid; [by apply triple_ret, Hid|]. eapply triple_bind; [apply triple_rpc|].
  - apply HT.
  - intros E [Ha _]. by destruct (Ha t).
  - intros id ->. eapply triple_bind; [apply triple_write; intros; by apply agree_set_token|].
    intros _ _. by apply triple_ret.
Qed.

Lemma triple_resolve_type id : triple (resolve_policy_type rpc id n) (fun ty => ty = t_type T id).
Proof.
  unfold resolve_policy_type.
  apply (triple_bind _ _ (fun o => forall ty, o = Some ty -> ty = t_type T id)).
  { apply triple_read. intros c Hc ty. by apply ag_type. }
  intros [ty|] Hty; [by apply triple_ret, Hty|]. eapply triple_bind; [apply triple_rpc|].
  - apply HT.
  - intros E (_ & Ha & _). by destruct (Ha id).
  - intros ty ->. eapply triple_bind; [apply triple_write|].
    + intros c Hc. apply agree_update_entry; [done|done|]. cbn. naive_solver.
    + intros _ _. by apply triple_ret.
Qed.

Lemma triple_resolve_compound id :
  t_type T id = COMPOUND -> triple (resolve_compound_data rpc id n) (fun d => d = t_compound T id).
Proof.
  intros Hid. unfold resolve_compound_data.
  apply (triple_bind _ _ (fun o => forall d, o = Some d -> d = t_compound T id)).
  { apply triple_read. intros c Hc d Hd. by eapply ag_compound. }
  intros [d|] Hd; [by apply triple_ret, Hd|]. eapply triple_bind; [apply triple_rpc|].
  - apply HT.
  - intros E (_ & _ & Ha & _). by destruct (Ha id).
  - intros d ->. eapply triple_bind; [apply triple_write|].
    + intros c Hc. apply agree_update_entry; [done|done|]. cbn. naive_solver.
    + intros _ _. by apply triple_ret.
Qed.

Lemma triple_fetch_simple id user :
  builtin_authorization id = None -> t_type T id = WHITELIST \/ t_type T id = BLACKLIST ->
  triple (fetch_and_cache_simple rpc id user n (t_type T id)) (fun a => a = l1_simple id user).
Proof.
  intros Hb Hty. unfold fetch_and_cache_simple.
  apply (triple_bind _ _ (fun a => a = l1_simple id user)).
  { apply triple_rpc; [intros a Ea|intros E (_ & _ & _ & Ha); by destruct (Ha id user)].
    eapply (tr_auth _ HT); [exact Ea|by right]. }
  intros a ->. apply (triple_bind _ _ (fun b => b = t_member T id user)).
  { unfold l1_simple. rewrite Hb. destruct Hty as [-> | ->]; apply triple_ret; by rewrite ?negb_involutive. }
  intros b ->. eapply triple_bind; [apply triple_write|].
  - intros c Hc. apply agree_update_entry; [done| |].
    + intros p Hp. by apply (ps_wf_step _ (PsRecord user n (t_member T id user))).
    + cbn. split_and!; [by left..|]. intros user' Hwf Hk.
      destruct (Z.leb_spec n (ps_baseline_height
        (policy_set (default policy_default (policies c !! id))))) as [Hle|Hlt].
      * unfold ps_record_status in *. rewrite (proj2 (Z.leb_le _ _) Hle) in *. by left.
      * rewrite ps_record_at by done. apply ps_record_known in Hk as [Hk|[-> _]].
        -- destruct (Z.eqb_spec user user') as [->|]; [by right|by left].
        -- rewrite Z.eqb_refl. by right.
  - intros _ _. by apply triple_ret.
Qed.

(** What the cache answers for a simple policy is what L1 answers. *)
Lemma agree_check_simple c id user a :
  Agree c -> check_simple c id user n = Some a -> a = l1_simple id user.
Proof.
  intros Hc. unfold check_simple, l1_simple. destruct (builtin_authorization id); [congruence|].
  destruct (policies c !! id) as [p|] eqn:Ep; [|done]. cbn.
  destruct (policy_type p) as [ty|] eqn:Ety; [|done]. cbn.
  assert (ty = t_type T id) as -> by (apply (ag_type _ Hc); unfold cached_type; by rewrite Ep).
  destruct (t_type T id); try done; destruct (ps_is_known (policy_set p) user) eqn:Ek; try done;
    cbn; by rewrite (ag_member _ Hc id p user Ep Ek); intros [= <-].
Qed.

Lemma triple_sub id user :
  simple_id id -> triple (resolve_simple_sub_policy rpc id user n) (fun a => a = l1_simple id user).
Proof.
  intros Hs. unfold resolve_simple_sub_policy. destruct (builtin_authorization id) as [a|] eqn:Eb.
  { apply triple_ret. unfold l1_simple. by rewrite Eb. }
  apply (triple_bind _ _ (fun o => forall a, o = Some a -> a = l1_simple id user)).
  { apply triple_read. intros c Hc a. by apply agree_check_simple. }
  intros [a|] Ha; [by apply triple_ret, Ha|].
  eapply triple_bind; [apply triple_resolve_type|]. intros ty ->.
  apply triple_fetch_simple; [done|]. by destruct Hs.
Qed.

Lemma triple_authorization id user role :
  builtin_authorization id = None ->
  triple (resolve_policy_authorization rpc id user n role) (fun a => a = l1_authorized id user role).
Proof.
  intros Hb. unfold resolve_policy_authorization.
  eapply triple_bind; [apply triple_resolve_type|]. intros ty ->.
  unfold l1_authorized. rewrite Hb. destruct (t_type T id) eqn:Ety.
  - rewrite <- Ety. apply triple_fetch_simple; [done|by left].
  - rewrite <- Ety. apply triple_fetch_simple; [done|by right].
  - destruct (lw_compound HW id Ety) as (H1 & H2 & H3). unfold fetch_and_cache_compound.
    eapply triple_bind; [by apply triple_resolve_compound|]. intros d ->.
    destruct role; [|by apply triple_sub..].
    eapply triple_bind; [by apply triple_sub|]. intros a ->.
    destruct (l1_simple (sender_policy_id (t_compound T id)) user); cbn; [by apply triple_sub|by apply triple_ret].
  - by destruct (lw_valid HW id).
Qed.

Lemma agree_check_policy c id user role a :
  Agree c -> check_policy c id user n role = Some a -> a = l1_authorized id user role.
Proof.
  intros Hc Ha. pose proof (agree_check_simple c id user a Hc) as Hs.
  unfold check_policy, l1_authorized in *. unfold check_simple in Hs.
  destruct (builtin_authorization id) eqn:Eb; [by apply Hs|].
  destruct (policies c !! id) as [p|] eqn:Ep; [|done]. cbn in *.
  destruct (policy_type p) as [ty|] eqn:Ety; [|done]. cbn in *.
  assert (ty = t_type T id) as -> by (apply (ag_type _ Hc); unfold cached_type; by rewrite Ep).
  destruct (t_type T id) eqn:Et; try done; [by apply Hs..|].
  destruct (compound p) as [d|] eqn:Ed; [|done]. cbn in Ha.
  assert (d = t_compound T id) as ->
    by (apply (ag_compound _ Hc); [unfold cached_compound; by rewrite Ep|done]).
  destruct role; [|by apply (agree_check_simple c _ _ _ Hc) in Ha..].
  destruct (check_simple c (sender_policy_id (t_compound T id)) user n) as [b|] eqn:E; [|done].
  apply (agree_check_simple c _ _ _ Hc) in E as ->. cbn in Ha.
  destruct (l1_simple (sender_policy_id (t_compound T id)) user); cbn in *; [|congruence].
  by apply (agree_check_simple c _ _ _ Hc) in Ha.
Qed.

Lemma triple_is_authorized token user role :
  triple (provider_is_authorized rpc token user n role)
    (fun a => a = l1_authorized (t_token T token) user role).
Proof.
  unfold provider_is_authorized.
  apply (triple_bind _ _ (fun o => forall a, o = Some a -> a = l1_authorized (t_token T token) user role)).
  { apply triple_read. intros c Hc a. unfold is_authorized.
    destruct (tokens c !! token) as [hv|] eqn:E; [|done]. cbn.
    destruct (hv_get hv n) as [id|] eqn:Eid; [|done]. cbn.
    assert (id = t_token T token) as ->
      by (apply (ag_token _ Hc); unfold get_token_policy; by rewrite E).
    by apply agree_check_policy. }
  intros [a|] Ha; [by apply triple_ret, Ha|]. unfold fetch_and_cache.
  eapply triple_bind; [apply triple_resolve_id|]. intros id ->.
  destruct (builtin_authorization (t_token T token)) as [a|] eqn:Eb; [|by apply triple_authorization].
  eapply triple_bind; [apply triple_write; intros; by apply agree_set_token|].
  intros _ _. apply triple_ret. unfold l1_authorized, l1_simple. by rewrite Eb.
Qed.

(** C14. The provider answers what L1 answers.  Starting from a cache that holds
    only true facts about a block, with L1 queries that tell the truth when
    they succeed, an authorization check at that block returns exactly the
    registry's answer for the token's policy, the user and the role, and the
    cache (with what was fetched written back) still holds only true facts;
    the only error is an unanswered query, the cached part staying true, so
    with L1 available the check always returns. *)
Theorem provider_answers_l1 c token user role :
  Agree c ->
  let '(r, c') := provider_is_authorized rpc token user n role c in
  Agree c' /\
  match r with
  | Ok a => a = l1_authorized (t_token T token) user role
  | Err e => e = RpcFailed /\ ~ Answering
  end.
Proof.
  intros Hc. pose proof (triple_is_authorized token user role c Hc) as H.
  by destruct (provider_is_authorized rpc token user n role c) as [r c'].
Qed.

Lemma by_policy_correct c id user role :
  Agree c -> last_l1_block c = n ->
  Agree (is_authorized_by_policy rpc id user role c).2 /\
  match (is_authorized_by_policy rpc id user role c).1 with
  | Ok a => a = l1_authorized id user role
  | Err e => e = RpcFailed /\ ~ Answering
  end.
Proof.
  intros Hc Hn. unfold is_authorized_by_policy.
  destruct (builtin_authorization id) as [a|] eqn:Eb.
  { cbn. split; [done|]. unfold l1_authorized, l1_simple. by rewrite Eb. }
  unfold mbind, P_bind, p_read. rewrite Hn.
  destruct (check_policy c id user n role) as [a|] eqn:E.
  { cbn. split; [done|]. by eapply agree_check_policy. }
  exact (triple_authorization id user role Eb c Hc).
Qed.

Lemma transfer_id_correct c token :
  Agree c -> last_l1_block c = n ->
  Agree (resolve_transfer_policy_id rpc token c).2 /\
  match (resolve_transfer_policy_id rpc token c).1 with
  | Ok id => id = t_token T token
  | Err e => e = RpcFailed /\ ~ Answering
  end.
Proof.
  intros Hc Hn. unfold resolve_transfer_policy_id, mbind, P_bind, p_read. rewrite Hn.
  destruct (get_token_policy c token n) as [id|] eqn:E.
  { cbn. split; [done|]. by apply (ag_token _ Hc). }
  exact (triple_resolve_id token c Hc).
Qed.

(** The check by policy id, which the registry proxy and the token
    precompiles use, answers what L1 answers at the engine's block. *)
Theorem provider_by_policy_answers_l1 c id user role :
  Agree c -> last_l1_block c = n ->
  let '(r, c') := is_authorized_by_policy rpc id user role c in
  Agree c' /\
  match r with
  | Ok a => a = l1_authorized id user role
  | Err e => e = RpcFailed /\ ~ Answering
  end.
Proof.
  intros Hc Hn. pose proof (by_policy_correct c id user role Hc Hn) as H.
  by destruct (is_authorized_by_policy rpc id user role c) as [r c'].
Qed.
End agreement.

(** ** No check moves the engine's block *)

Definition keeps_block {A} (m : P A) : Prop := forall c, last_l1_block (m c).2 = last_l1_block c.

Lemma keeps_ret {A} (a : A) : keeps_block (mret a).
Proof. done. Qed.
Lemma keeps_fail {A} e : keeps_block (@p_fail A e).
Proof. done. Qed.
Lemma keeps_read {A} (f : PolicyCacheInner -> A) : keeps_block (p_read f).
Proof. done. Qed.
Lemma keeps_rpc {A} (o : option A) : keeps_block (p_rpc o).
Proof. intros c. by destruct o. Qed.
Lemma keeps_write f : (forall c, last_l1_block (f c) = last_l1_block c) -> keeps_block (p_write f).
Proof. intros H c. apply H. Qed.
Lemma keeps_bind {A B} (m : P A) (f : A -> P B) :
  keeps_block m -> (forall a, keeps_block (f a)) -> keeps_block (mbind f m).
Proof.
  intros Hm Hf c. unfold mbind, P_bind. specialize (Hm c).
  destruct (m c) as [[a|e] c']; cbn in *; [|done]. by rewrite Hf.
Qed.
#[export] Hint Resolve keeps_ret keeps_fail keeps_read keeps_rpc keeps_write keeps_bind : zone.

Ltac keeps := repeat (first [ solve [auto with zone] | apply keeps_bind; [|intros ?] | case_match ]).

Section keeps.
Context (rpc : L1Rpc).
Lemma keeps_resolve_id t n : keeps_block (resolve_policy_id rpc t n).
Proof. unfold resolve_policy_id. keeps. Qed.
Lemma keeps_resolve_type id n : keeps_block (resolve_policy_type rpc id n).
Proof. unfold resolve_policy_type. keeps. Qed.
Lemma keeps_resolve_compound id n : keeps_block (resolve_compound_data rpc id n).
Proof. unfold resolve_compound_data. keeps. Qed.
Lemma keeps_simple id user n ty : keeps_block (fetch_and_cache_simple rpc id user n ty).
Proof. unfold fetch_and_cache_simple, rpc_is_authorized. keeps. Qed.
#[local] Hint Resolve keeps_resolve_id keeps_resolve_type keeps_resolve_compound keeps_simple : zone.
Lemma keeps_sub id user n : keeps_block (resolve_simple_sub_policy rpc id user n).
Proof. unfold resolve_simple_sub_policy. keeps. Qed.
#[local] Hint Resolve keeps_sub : zone.
Lemma keeps_by_policy id user role : keeps_block (is_authorized_by_policy rpc id user role).
Proof.
  unfold is_authorized_by_policy, fetch_and_cache_by_policy, resolve_policy_authorization,
    fetch_and_cache_compound. keeps.
Qed.
Lemma keeps_transfer_id t : keeps_block (resolve_transfer_policy_id rpc t).
Proof. unfold resolve_transfer_policy_id. keeps. Qed.
End keeps.

(** ** Witnesses: a compound policy, fetched into an empty cache *)

Module PolicyProviderExamples.
Definition compound7 : CompoundData := mkCompound 8 9 1.
Definition l1 : L1Policies := mkL1Policies
  (fun t => if t =? 5 then 7 else 1)
  (fun id => if id =? 7 then COMPOUND else if id =? 8 then WHITELIST else BLACKLIST)
  (fun _ => compound7)
  (fun id user => (id =? 8) && (user =? 100)).
Definition ask : L1Rpc := mkL1Rpc
  (fun t _ => Some (t_token l1 t)) (fun id _ => Some (t_type l1 id)) (fun id _ => Some (t_compound l1 id))
  (fun id user _ => Some (l1_simple l1 id user)) (fun _ _ => Some true).

Lemma ask_truthful : Truthful l1 10 ask.
Proof. split; cbn; intros; congruence. Defined.

Lemma l1_is_wf : L1_wf l1.
Proof.
  split.
  - intros id. cbn. by destruct (id =? 7), (id =? 8).
  - intros id _. cbn. split_and!; [right; by left|right; by right|by left].
Defined.

Lemma agree_default T n : Agree T n cache_default.
Proof. by repeat split. Defined.

Lemma provider_answers_l1_witness :
  let '(r, c') := provider_is_authorized ask 5 100 10 Transfer cache_default in
  r = Ok true /\ Agree l1 10 c'.
Proof.
  pose proof (provider_answers_l1 l1 10 ask ask_truthful l1_is_wf cache_default 5 100 Transfer
                (agree_default l1 10)) as H.
  destruct (provider_is_authorized ask 5 100 10 Transfer cache_default) as [r c'] eqn:E.
  split; [|exact (proj1 H)]. vm_compute in E. congruence.
Defined.

Definition at_block_10 : PolicyCacheInner := set_last_l1_block cache_default 10.

Lemma provider_by_policy_answers_l1_witness :
  let '(r, c') := is_authorized_by_policy ask 7 101 Transfer at_block_10 in
  r = Ok false /\ Agree l1 10 c'.
Proof.
  assert (Hc : Agree l1 10 at_block_10).
  { by repeat split. }
  pose proof (provider_by_policy_answers_l1 l1 10 ask ask_truthful l1_is_wf at_block_10 7 101 Transfer
                Hc eq_refl) as H.
  destruct (is_authorized_by_policy ask 7 101 Transfer at_block_10) as [r c'] eqn:E.
  split; [|exact (proj1 H)]. vm_compute in E. congruence.
Defined.
End PolicyProviderExamples.
