(* ===== verification/PolicyCheck.v ===== *)
(** * The policy interface of the precompiles, and the registry proxy

    [PolicyCheck] is the trait of src/crates/precompiles/src/policy.rs; its
    laws say what the token precompiles rely on, and the provider of
    PolicyProvider.v discharges them.  The rest models the read-only TIP-403
    registry of precompiles/src/tip403_proxy/ (mod.rs and dispatch.rs).  The
    provider has interior state (its cache), threaded as [S]. *)

From S2P Require Import Prelude.
From S2P Require Import Policy.
From S2P Require Import PolicyCache.
From S2P Require Import PolicyProvider.
#[local] Open Scope Z_scope.

(** [PrecompileError::Fatal], from a failed L1 query: the transaction is
    dropped, not reverted. *)
Inductive PrecompileError := Fatal.

Class PolicyCheck (S : Type) := mkPolicyCheck {
  pc_is_authorized : Z -> Z -> AuthRole -> S -> result PrecompileError bool * S;
  pc_resolve_transfer_policy_id : Z -> S -> result PrecompileError Z * S;
  pc_policy_type_sync : Z -> S -> result PrecompileError PolicyType * S;
  pc_compound_policy_data : Z -> S -> result PrecompileError (Z * Z * Z) * S;
  pc_policy_exists : Z -> S -> result PrecompileError bool * S;
  pc_policy_id_counter : S -> Z
}.

(** What the token precompiles rely on: in states satisfying [Inv], which the
    checks preserve, an answer is the registry's. *)
Class PolicyCheckLaws (S : Type) `{PolicyCheck S} (Inv : S -> Prop)
    (policy_of : Z -> Z) (allows : Z -> Z -> AuthRole -> bool) : Prop := mkPolicyCheckLaws {
  law_is_authorized : forall id user role s, Inv s ->
    Inv (pc_is_authorized id user role s).2 /\
    (forall a, (pc_is_authorized id user role s).1 = Ok a -> a = allows id user role);
  law_resolve : forall token s, Inv s ->
    Inv (pc_resolve_transfer_policy_id token s).2 /\
    (forall id, (pc_resolve_transfer_policy_id token s).1 = Ok id -> id = policy_of token)
}.

(** [map_err(zone_rpc_error)] *)
Definition fatal {A S} (x : result PolicyError A * S) : result PrecompileError A * S :=
  let '(r, s) := x in (match r with Ok a => Ok a | Err _ => Err Fatal end, s).

#[export] Instance provider_policy_check (rpc : L1Rpc) : PolicyCheck PolicyCacheInner := {
  pc_is_authorized id user role c := fatal (is_authorized_by_policy rpc id user role c);
  pc_resolve_transfer_policy_id token c := fatal (resolve_transfer_policy_id rpc token c);
  pc_policy_type_sync id c := fatal (resolve_policy_type_sync rpc id c);
  pc_compound_policy_data id c :=
    fatal (let '(r, c') := resolve_compound_data_sync rpc id c in
           (match r with
            | Ok d => Ok (sender_policy_id d, recipient_policy_id d, mint_recipient_policy_id d)
            | Err e => Err e
            end, c'));
  pc_policy_exists id c := fatal (policy_exists_sync rpc id c);
  pc_policy_id_counter c := policy_id_counter c
}.

Lemma fatal_Ok {A S} (x : result PolicyError A * S) a : (fatal x).1 = Ok a -> x.1 = Ok a.
Proof. destruct x as [[b|e] s]; cbn; congruence. Qed.
Lemma fatal_state {A S} (x : result PolicyError A * S) : (fatal x).2 = x.2.
Proof. by destruct x as [[b|e] s]. Qed.

(** The provider keeps its promise: on a cache that agrees with L1 at the
    engine's block, its answers are the registry's. *)
#[export] Instance provider_laws (T : L1Policies) (n : Z) (rpc : L1Rpc)
    (HT : Truthful T n rpc) (HW : L1_wf T) :
  @PolicyCheckLaws PolicyCacheInner (provider_policy_check rpc)
    (fun c => Agree T n c /\ last_l1_block c = n) (t_token T) (l1_authorized T).
Proof.
  split.
  - intros id user role c [Hc Hn]. cbn.
    destruct (by_policy_correct T n rpc HT HW c id user role Hc Hn) as [Hc' Hr].
    rewrite fatal_state, keeps_by_policy. split; [by split|].
    intros a Ha%fatal_Ok. by rewrite Ha in Hr.
  - intros token c [Hc Hn]. cbn.
    destruct (transfer_id_correct T n rpc HT c token Hc Hn) as [Hc' Hr].
    rewrite fatal_state, keeps_transfer_id. split; [by split|].
    intros id Hid%fatal_Ok. by rewrite Hid in Hr.
Qed.

(** ** Precompile outputs and gas

    Of an output: how it ended, the gas it reports, its bytes.  The storage
    context of a call has a gas limit and the gas used so far; its outputs
    report the gas used. *)

Inductive Status := Succeeded | Reverted | HaltedOutOfGas.
Record Output (B : Type) := mkOutput { o_status : Status; o_gas_used : Z; o_bytes : B }.
Arguments mkOutput {B}. Arguments o_status {B}. Arguments o_gas_used {B}. Arguments o_bytes {B}.

Record GasCtx := mkGas { gas_limit : Z; gas_used : Z }.

Definition deduct_gas (g : GasCtx) (cost : Z) : option GasCtx :=
  if gas_used g + cost <=? gas_limit g then Some (mkGas (gas_limit g) (gas_used g + cost)) else None.

(** ** The read-only registry proxy *)

Module Tip403Proxy.
Definition AUTH_CHECK_GAS : Z := 200.
Definition POLICY_DATA_GAS : Z := 200.

(** The calls of [ITIP403Registry]; those that mutate carry no argument the
    proxy looks at. *)
Inductive Calls :=
| policyIdCounter
| policyExists (policyId : Z)
| policyData (policyId : Z)
| isAuthorized (policyId user : Z)
| isAuthorizedSender (policyId user : Z)
| isAuthorizedRecipient (policyId user : Z)
| isAuthorizedMintRecipient (policyId user : Z)
| compoundPolicyData (policyId : Z)
| createPolicy | createPolicyWithAccounts | setPolicyAdmin
| modifyPolicyWhitelist | modifyPolicyBlacklist | createCompoundPolicy
| receivePolicy | validateReceivePolicy | setReceivePolicy.

Inductive Bytes :=
| Empty
| RetU64 (n : Z)
| RetBool (b : bool)
| RetPolicyData (ty : PolicyType) (admin : Z)
| RetCompound (sender recipient mint_recipient : Z)
| ReadOnlyRegistry
| UnknownSelector.

Section proxy.
Context {S : Type} `{PolicyCheck S}.
Context (input_cost : list Z -> Z) (abi_decode : list Z -> option Calls).

Definition Res : Type := result PrecompileError (Output Bytes) * S.

Definition registry_is_authorized (policy_id user : Z) (role : AuthRole) (s : S) :=
  pc_is_authorized policy_id user role s.
Definition registry_resolve_transfer_policy_id (token : Z) (s : S) :=
  pc_resolve_transfer_policy_id token s.

Definition is_transfer_authorized (policy_id from to : Z) (s : S)
    : result PrecompileError bool * S :=
  match registry_is_authorized policy_id from Sender s with
  | (Err e, s) => (Err e, s)
  | (Ok false, s) => (Ok false, s)
  | (Ok true, s) => registry_is_authorized policy_id to Recipient s
  end.

(** [deduct_gas(cost)], then the answer. *)
Definition answer (g : GasCtx) (cost : Z) (b : Bytes) (s : S) : Res :=
  match deduct_gas g cost with
  | None => (Ok (mkOutput HaltedOutOfGas (gas_used g) Empty), s)
  | Some g' => (Ok (mkOutput Succeeded (gas_used g') b), s)
  end.

Definition revert (g : GasCtx) (b : Bytes) (s : S) : Res :=
  (Ok (mkOutput Reverted (gas_used g) b), s).
Definition read_only_revert (g : GasCtx) (s : S) : Res := revert g ReadOnlyRegistry s.

Definition handle_is_authorized (g : GasCtx) (policy_id user : Z) (role : AuthRole) (s : S) : Res :=
  match registry_is_authorized policy_id user role s with
  | (Err e, s) => (Err e, s)
  | (Ok authorized, s) => answer g AUTH_CHECK_GAS (RetBool authorized) s
  end.

Definition handle_policy_data (g : GasCtx) (policy_id : Z) (s : S) : Res :=
  let builtin_type :=
    if policy_id =? REJECT_ALL_POLICY_ID then Some WHITELIST
    else if policy_id =? ALLOW_ALL_POLICY_ID then Some BLACKLIST
    else None in
  match builtin_type with
  | Some ty => answer g POLICY_DATA_GAS (RetPolicyData ty 0) s
  | None =>
      match pc_policy_type_sync policy_id s with
      | (Err e, s) => (Err e, s)
      | (Ok ty, s) => answer g POLICY_DATA_GAS (RetPolicyData ty 0) s
      end
  end.

Definition handle_compound_policy_data (g : GasCtx) (policy_id : Z) (s : S) : Res :=
  match pc_compound_policy_data policy_id s with
  | (Err e, s) => (Err e, s)
  | (Ok (sender, recipient, mint_recipient), s) =>
      answer g POLICY_DATA_GAS (RetCompound sender recipient mint_recipient) s
  end.

Definition handle_policy_exists (g : GasCtx) (policy_id : Z) (s : S) : Res :=
  if (policy_id =? REJECT_ALL_POLICY_ID) || (policy_id =? ALLOW_ALL_POLICY_ID) then
    answer g POLICY_DATA_GAS (RetBool true) s
  else
    match pc_policy_exists policy_id s with
    | (Err e, s) => (Err e, s)
    | (Ok exists_, s) => answer g POLICY_DATA_GAS (RetBool exists_) s
    end.

Definition handle_policy_id_counter (g : GasCtx) (s : S) : Res :=
  answer g POLICY_DATA_GAS (RetU64 (pc_policy_id_counter s)) s.

(** [dispatch!]: calldata it cannot decode reverts. *)
Definition proxy_call (g : GasCtx) (calldata : list Z) (s : S) : Res :=
  match deduct_gas g (input_cost calldata) with
  | None => (Ok (mkOutput HaltedOutOfGas (gas_used g) Empty), s)
  | Some g =>
      match abi_decode calldata with
      | None => revert g UnknownSelector s
      | Some call =>
          match call with
          | policyIdCounter => handle_policy_id_counter g s
          | policyExists id => handle_policy_exists g id s
          | policyData id => handle_policy_data g id s
          | isAuthorized id user => handle_is_authorized g id user Transfer s
          | isAuthorizedSender id user => handle_is_authorized g id user Sender s
          | isAuthorizedRecipient id user => handle_is_authorized g id user Recipient s
          | isAuthorizedMintRecipient id user => handle_is_authorized g id user MintRecipient s
          | compoundPolicyData id => handle_compound_policy_data g id s
          | createPolicy | createPolicyWithAccounts | setPolicyAdmin
          | modifyPolicyWhitelist | modifyPolicyBlacklist | createCompoundPolicy =>
              read_only_revert g s
          | receivePolicy | validateReceivePolicy | setReceivePolicy => revert g Empty s
          end
      end
  end.

Definition proxy_create (is_direct_call : bool) (gas : Z) (calldata : list Z) (s : S) : Res :=
  if negb is_direct_call then (Ok (mkOutput Reverted 0 ReadOnlyRegistry), s)
  else proxy_call (mkGas gas 0) calldata s.
End proxy.
End Tip403Proxy.
