(* ===== verification/L1State.v ===== *)
(** * The block-versioned cache of L1 storage slots and its provider

    Models src/crates/l1/src/state/cache.rs ([L1StateCacheInner]), the
    cache-first reads of state/provider.rs, and what the subscriber writes
    into the cache (subscriber.rs).  The RPC endpoint is a parameter: the
    answer of the [i]-th attempt to fetch a slot. *)

From S2P Require Import Prelude.
From S2P Require Import BTree.
#[local] Open Scope Z_scope.

Record NumHash := mkNumHash { nh_number : Z; nh_hash : Z }.
#[export] Instance NumHash_eq_dec : EqDecision NumHash.
Proof. solve_decision. Defined.
Definition numhash_default : NumHash := mkNumHash 0 0.

Record L1StateCacheInner := mkL1Cache {
  tracked_contracts : gset Z;
  slots : gmap (Z * Z) (btree Z);
  anchor : NumHash
}.

Definition l1_new (tracked : gset Z) : L1StateCacheInner := mkL1Cache tracked ∅ numhash_default.

Definition l1_get (c : L1StateCacheInner) (address slot block_number : Z) : option Z :=
  history ← slots c !! (address, slot);
  snd <$> last_le block_number history.

Definition l1_set (c : L1StateCacheInner) (address slot block_number value : Z)
    : L1StateCacheInner :=
  let history := default [] (slots c !! (address, slot)) in
  mkL1Cache (tracked_contracts c)
    (<[(address, slot) := bt_insert block_number value history]> (slots c)) (anchor c).

Definition update_anchor (c : L1StateCacheInner) (a : NumHash) : L1StateCacheInner :=
  mkL1Cache (tracked_contracts c) (slots c) a.

Definition is_tracked (c : L1StateCacheInner) (address : Z) : bool :=
  bool_decide (address ∈ tracked_contracts c).

Definition l1_clear (c : L1StateCacheInner) : L1StateCacheInner :=
  mkL1Cache (tracked_contracts c) ∅ numhash_default.

Definition prune_history (min_block : Z) (history : btree Z) : btree Z :=
  match last_lt min_block history with
  | Some (keep, _) => remove_lt keep history
  | None => history
  end.

Definition prune_before (c : L1StateCacheInner) (min_block : Z) : L1StateCacheInner :=
  mkL1Cache (tracked_contracts c)
    (filter (fun kv => kv.2 <> []) (prune_history min_block <$> slots c)) (anchor c).

(** ** The provider *)

(** [rpc i address slot block_number]: the answer of the [i]-th attempt. *)
Abbreviation Rpc := (nat -> Z -> Z -> Z -> option Z).

Definition get_storage_async (rpc : Rpc) (c : L1StateCacheInner) (address slot block_number : Z)
    : option (Z * L1StateCacheInner) :=
  match l1_get c address slot block_number with
  | Some value => Some (value, c)
  | None =>
      value ← rpc O address slot block_number;
      Some (value, l1_set c address slot block_number value)
  end.

(** The synchronous read retries without bound; [None] is "still trying
    after [fuel] attempts". *)
Fixpoint fetch_loop (rpc : Rpc) (fuel i : nat) (c : L1StateCacheInner)
    (address slot block_number : Z) : option (Z * L1StateCacheInner) :=
  match fuel with
  | O => None
  | S fuel' =>
      match rpc i address slot block_number with
      | Some value => Some (value, l1_set c address slot block_number value)
      | None => fetch_loop rpc fuel' (S i) c address slot block_number
      end
  end.

Definition get_storage (rpc : Rpc) (fuel : nat) (c : L1StateCacheInner)
    (address slot block_number : Z) : option (Z * L1StateCacheInner) :=
  match l1_get c address slot block_number with
  | Some value => Some (value, c)
  | None => fetch_loop rpc fuel 0 c address slot block_number
  end.

(** ** What the subscriber writes *)

Definition PORTAL_SEQUENCER_SLOT : Z := 0.
Definition PORTAL_PENDING_SEQUENCER_SLOT : Z := 2.

Inductive L1SequencerEvent :=
| TransferStarted (current_sequencer pending_sequencer : Z)
| Transferred (previous_sequencer new_sequencer : Z).

(** An address left-padded to 32 bytes is the same number. *)
Definition address_to_storage_value (address : Z) : Z := address.

Definition apply_sequencer_event (portal_address block_number : Z) (c : L1StateCacheInner)
    (e : L1SequencerEvent) : L1StateCacheInner :=
  match e with
  | TransferStarted current_sequencer pending_sequencer =>
      l1_set (l1_set c portal_address PORTAL_SEQUENCER_SLOT block_number
                (address_to_storage_value current_sequencer))
        portal_address PORTAL_PENDING_SEQUENCER_SLOT block_number
        (address_to_storage_value pending_sequencer)
  | Transferred _ new_sequencer =>
      l1_set (l1_set c portal_address PORTAL_SEQUENCER_SLOT block_number
                (address_to_storage_value new_sequencer))
        portal_address PORTAL_PENDING_SEQUENCER_SLOT block_number 0
  end.

Definition apply_sequencer_events_to_cache (c : L1StateCacheInner) (portal_address block_number : Z)
    (events : list L1SequencerEvent) : L1StateCacheInner :=
  foldl (apply_sequencer_event portal_address block_number) c events.

(** ** Histories stay sorted *)

Inductive l1_op :=
| L1Set (address slot block_number value : Z)
| L1SequencerEvents (portal_address block_number : Z) (events : list L1SequencerEvent)
| L1Anchor (a : NumHash)
| L1Prune (min_block : Z)
| L1Clear.

Definition l1_step (c : L1StateCacheInner) (op : l1_op) : L1StateCacheInner :=
  match op with
  | L1Set a s n v => l1_set c a s n v
  | L1SequencerEvents p n es => apply_sequencer_events_to_cache c p n es
  | L1Anchor a => update_anchor c a
  | L1Prune n => prune_before c n
  | L1Clear => l1_clear c
  end.

Definition l1_wf (c : L1StateCacheInner) : Prop := forall k h, slots c !! k = Some h -> sorted h.

Lemma l1_set_wf c a s n v : l1_wf c -> l1_wf (l1_set c a s n v).
Proof.
  intros Hc k h. cbn. intros [[<- <-]|[_ E]]%lookup_insert_Some; [|by eapply Hc].
  apply bt_insert_sorted. destruct (slots c !! (a, s)) eqn:E; [by eapply Hc|constructor].
Qed.

Lemma prune_history_sorted n h : sorted h -> sorted (prune_history n h).
Proof. intros Hs. unfold prune_history. case_match; [case_match|done]. by apply sel_sorted. Qed.

Lemma l1_step_wf c op : l1_wf c -> l1_wf (l1_step c op).
Proof.
  intros Hc. destruct op as [a s n v|p n es|a|n|]; cbn.
  - by apply l1_set_wf.
  - unfold apply_sequencer_events_to_cache. revert c Hc. induction es as [|e es IH]; intros c Hc; [done|].
    cbn. apply IH. destruct e; cbn; by do 2 apply l1_set_wf.
  - done.
  - intros k h. cbn. rewrite map_lookup_filter_Some, lookup_fmap. intros [(h' & E & ->)%fmap_Some _].
    apply prune_history_sorted. by eapply Hc.
  - intros k h E. cbn in E. by rewrite lookup_empty in E.
Qed.

Definition l1_run (tracked : gset Z) (ops : list l1_op) : L1StateCacheInner :=
  foldl l1_step (l1_new tracked) ops.

Lemma l1_run_wf tracked ops : l1_wf (l1_run tracked ops).
Proof.
  unfold l1_run. assert (H0 : l1_wf (l1_new tracked)) by (intros k h E; cbn in E; by rewrite lookup_empty in E).
  revert H0. generalize (l1_new tracked) as c.
  induction ops as [|op ops IH]; intros c Hc; [done|]. cbn. by apply IH, l1_step_wf.
Qed.

(** ** Pruning *)

Lemma last_le_exists {V} (m : btree V) k v n : (k, v) ∈ m -> k <= n -> last_le n m <> None.
Proof.
  intros Hin Hk E. unfold last_le in E. apply last_None in E.
  assert (Hr : (k, v) ∈ range_le n m) by (apply elem_of_sel; split; [by apply Z.leb_le|done]).
  rewrite E in Hr. by apply not_elem_of_nil in Hr.
Qed.

Lemma last_lt_elem {V} (m : btree V) n p : last_lt n m = Some p -> p.1 < n /\ p ∈ m.
Proof.
  unfold last_lt. intros [l E]%last_Some.
  assert (Hp : p ∈ range_lt n m) by (rewrite E; set_solver).
  apply elem_of_sel in Hp as [Hp ?]. split; [by apply Z.ltb_lt|done].
Qed.

Lemma prune_history_get min n h :
  sorted h -> min <= n -> last_le n (prune_history min h) = last_le n h.
Proof.
  intros Hs Hn. unfold prune_history. destruct (last_lt min h) as [[keep v]|] eqn:E; [|done].
  apply last_lt_elem in E as [Hk Hin]. cbn in Hk.
  assert (Er : remove_lt keep h = remove_le (keep - 1) h).
  { apply sel_ext. intros k. destruct (Z.leb_spec keep k), (Z.ltb_spec (keep - 1) k); lia. }
  rewrite Er, (last_le_split n (keep - 1) h) by (done || lia).
  assert (Hex : last_le n (remove_le (keep - 1) h) <> None).
  { eapply last_le_exists; [|exact (Z.lt_le_incl _ _ (Z.lt_le_trans _ _ _ Hk Hn))].
    apply elem_of_sel. split; [apply Z.ltb_lt; cbn; lia|done]. }
  by destruct (last_le n (remove_le (keep - 1) h)).
Qed.

(** Pruning before a block changes no read at or above that block, in any
    cache reached by any sequence of operations, and leaves at most one older
    entry per slot. *)
Theorem prune_transparent tracked ops min_block :
  let c := l1_run tracked ops in
  (forall address slot n, min_block <= n ->
     l1_get (prune_before c min_block) address slot n = l1_get c address slot n) /\
  (forall k h, slots (prune_before c min_block) !! k = Some h ->
     (length (range_lt min_block h) <= 1)%nat).
Proof.
  intros c. pose proof (l1_run_wf tracked ops) as Hwf. fold c in Hwf. split.
  - intros address slot n Hn. unfold l1_get. cbn [prune_before slots].
    destruct (slots c !! (address, slot)) as [h|] eqn:E.
    + pose proof (prune_history_get min_block n h (Hwf _ _ E) Hn) as Hg.
      destruct (decide (prune_history min_block h = [])) as [Hnil|Hnil].
      * rewrite (proj2 (map_lookup_filter_None _ _ _)).
        -- cbn. rewrite <- Hg, Hnil. done.
        -- right. intros h'. rewrite lookup_fmap, E. intros [= <-]. cbn. naive_solver.
      * rewrite (proj2 (map_lookup_filter_Some _ _ _ (prune_history min_block h))).
        -- cbn. by rewrite Hg.
        -- split; [by rewrite lookup_fmap, E|done].
    + rewrite (proj2 (map_lookup_filter_None _ _ _)); [done|]. left. by rewrite lookup_fmap, E.
  - intros k h. cbn. rewrite map_lookup_filter_Some, lookup_fmap.
    intros [(h0 & E & ->)%fmap_Some _]. specialize (Hwf _ _ E). clear E.
    unfold prune_history. destruct (last_lt min_block h0) as [[keep v]|] eqn:E.
    + unfold last_lt in E. apply last_Some in E as [l E].
      assert (Hl : range_lt min_block (remove_lt keep h0) = remove_lt keep (range_lt min_block h0)).
      { unfold range_lt, remove_lt. rewrite !sel_sel. apply sel_ext. intros j. apply andb_comm. }
      rewrite Hl, E. unfold remove_lt, sel. rewrite filter_app, length_app.
      assert (Hs : sorted (range_lt min_block h0)) by by apply sel_sorted. rewrite E in Hs.
      rewrite filter_none; [cbn; case_decide; cbn; lia|].
      intros p Hp. pose proof (StronglySorted_app_1_elem_of _ _ _ p (keep, v) Hs Hp ltac:(left)) as Hlt.
      cbn in Hlt. rewrite Z.leb_le. lia.
    + unfold last_lt in E. apply last_None in E. rewrite E. cbn. lia.
Qed.

(** ** Reads through the provider *)

Lemma l1_get_set c a s n v a' s' n' :
  l1_wf c ->
  (a', s') <> (a, s) \/ n' < n -> l1_get (l1_set c a s n v) a' s' n' = l1_get c a' s' n'.
Proof.
  intros Hwf H. unfold l1_get, l1_set. cbn [slots].
  destruct (decide ((a, s) = (a', s'))) as [E|Hne].
  - injection E as <- <-. rewrite lookup_insert_eq. cbn.
    destruct H as [H|H]; [done|]. destruct (slots c !! (a, s)) as [h|] eqn:Eh; cbn.
    + rewrite last_le_insert_below; [done|by eapply Hwf|done].
    + change [(n, v)] with (bt_insert n v []). by rewrite last_le_insert_below by (done || constructor).
  - by rewrite lookup_insert_ne.
Qed.

Lemma l1_get_set_eq c a s n v : l1_wf c -> l1_get (l1_set c a s n v) a s n = Some v.
Proof.
  intros Hwf. unfold l1_get, l1_set. cbn [slots]. rewrite lookup_insert_eq. cbn.
  set (h := default [] (slots c !! (a, s))).
  assert (Hs : sorted h).
  { unfold h. destruct (slots c !! (a, s)) eqn:E; [by eapply Hwf|constructor]. }
  assert (Hin : (n, v) ∈ bt_insert n v h) by (apply elem_of_bt_insert_iff; [done|by left]).
  destruct (last_le n (bt_insert n v h)) as [[k x]|] eqn:E.
  - pose proof (last_le_key _ _ _ E) as [Hk Hx]. cbn in Hk.
    unfold last_le in E. apply last_Some in E as [l E].
    assert (Hr : (n, v) ∈ range_le n (bt_insert n v h)).
    { apply elem_of_sel. split; [by apply Z.leb_le|done]. }
    rewrite E in Hr. apply elem_of_app in Hr as [Hr|Hr].
    + assert (Hso : sorted (range_le n (bt_insert n v h))) by by apply sel_sorted, bt_insert_sorted.
      rewrite E in Hso.
      pose proof (StronglySorted_app_1_elem_of _ _ _ _ (k, x) Hso Hr ltac:(left)) as Hlt.
      cbn in Hlt. lia.
    + apply list_elem_of_singleton in Hr. by injection Hr as <- <-.
  - by destruct (last_le_exists _ _ _ n Hin).
Qed.

(** A synchronous read that misses the cache returns the value of the first
    RPC attempt that succeeds, and a read that succeeded is answered from the
    cache from then on, at the same block, without asking again. *)
Theorem get_storage_first_success (rpc : Rpc) tracked ops address slot n k v :
  let c := l1_run tracked ops in
  l1_get c address slot n = None ->
  (forall i, (i < k)%nat -> rpc i address slot n = None) -> rpc k address slot n = Some v ->
  exists c', get_storage rpc (S k) c address slot n = Some (v, c') /\
    forall rpc' fuel, get_storage rpc' fuel c' address slot n = Some (v, c').
Proof.
  intros c Hmiss Hfail Hok. pose proof (l1_run_wf tracked ops) as Hwf. fold c in Hwf.
  exists (l1_set c address slot n v). unfold get_storage. rewrite Hmiss. split.
  - assert (Hloop : forall d i, (i + d = k)%nat ->
      fetch_loop rpc (S d) i c address slot n = Some (v, l1_set c address slot n v)).
    { induction d as [|d IH]; intros i Hi; cbn.
      - replace i with k by lia. by rewrite Hok.
      - rewrite Hfail by lia. apply IH. lia. }
    by apply Hloop.
  - intros rpc' fuel. by rewrite l1_get_set_eq.
Qed.

Lemma get_storage_first_success_witness :
  let rpc : Rpc := fun i _ _ _ => if Nat.eqb i 2 then Some 77 else None in
  exists c', get_storage rpc 3 (l1_run ∅ []) 5 6 100 = Some (77, c') /\
    forall rpc' fuel, get_storage rpc' fuel c' 5 6 100 = Some (77, c').
Proof.
  intros rpc. apply (get_storage_first_success rpc ∅ [] 5 6 100 2 77); [done| |done].
  intros i Hi. unfold rpc. destruct i as [|[|[|i]]]; [done|done|lia|lia].
Defined.

(** What the subscriber does to the cache while the chain only grows. *)
Inductive subscriber_step (portal : Z) : L1StateCacheInner -> L1StateCacheInner -> Prop :=
| sub_events c n es : subscriber_step portal c (apply_sequencer_events_to_cache c portal n es)
| sub_anchor c a : subscriber_step portal c (update_anchor c a).

Lemma subscriber_step_get portal c c' address slot n :
  subscriber_step portal c c' -> l1_wf c ->
  slot <> PORTAL_SEQUENCER_SLOT -> slot <> PORTAL_PENDING_SEQUENCER_SLOT ->
  l1_get c' address slot n = l1_get c address slot n /\ l1_wf c'.
Proof.
  intros Hst Hwf H0 H1. destruct Hst as [c b es|c a].
  - split; [|apply (l1_step_wf c (L1SequencerEvents portal b es) Hwf)].
    unfold apply_sequencer_events_to_cache. revert c Hwf.
    induction es as [|e es IH]; intros c Hwf; [done|]. cbn.
    rewrite IH by (destruct e; cbn; by do 2 apply l1_set_wf).
    destruct e; cbn; rewrite !l1_get_set; try done; try (by apply l1_set_wf);
      left; intros [= -> ->]; done.
  - by split.
Qed.

(** A slot other than the two sequencer slots, once fetched at a block, is
    served with that value at every later block for as long as the chain is
    not reorganised, whatever the slot holds on L1 by then: the subscriber
    writes no other slot, and the cache takes the latest earlier entry. *)
Theorem fetched_slot_never_refreshed portal tracked ops address slot n v (rpc : Rpc) fuel c' m :
  let c := l1_set (l1_run tracked ops) address slot n v in
  (forall k h, slots (l1_run tracked ops) !! (address, slot) = Some h -> k ∈ h -> k.1 <= n) ->
  slot <> PORTAL_SEQUENCER_SLOT -> slot <> PORTAL_PENDING_SEQUENCER_SLOT ->
  rtc (subscriber_step portal) c c' -> n <= m ->
  get_storage rpc fuel c' address slot m = Some (v, c').
Proof.
  intros c Hnew H0 H1 Hst Hm.
  assert (Hwf : l1_wf c) by apply l1_set_wf, l1_run_wf.
  assert (Hget : l1_get c address slot m = Some v).
  { unfold l1_get, c. cbn [l1_set slots]. rewrite lookup_insert_eq. cbn.
    rewrite last_le_insert_top; [done| | |done].
    - destruct (slots (l1_run tracked ops) !! (address, slot)) eqn:E;
        [by eapply l1_run_wf|constructor].
    - destruct (slots (l1_run tracked ops) !! (address, slot)) as [h|] eqn:E; [|constructor].
      apply Forall_forall. intros k Hk. by eapply Hnew. }
  clearbody c. assert (Hc' : l1_get c' address slot m = Some v); [|unfold get_storage; by rewrite Hc'].
  clear Hnew. induction Hst as [c|c c1 c' Hs _ IH]; [done|].
  destruct (subscriber_step_get _ _ _ address slot m Hs Hwf H0 H1) as [E Hwf1].
  apply IH; [done|by rewrite E].
Qed.

Lemma fetched_slot_never_refreshed_witness :
  let c := l1_set (l1_run {[7]} []) 7 5 100 1 in
  get_storage (fun _ _ _ _ => Some 2) 1
    (apply_sequencer_events_to_cache c 7 101 [Transferred 1 2]) 7 5 102 =
    Some (1, apply_sequencer_events_to_cache c 7 101 [Transferred 1 2]).
Proof.
  intros c. apply (fetched_slot_never_refreshed 7 {[7]} [] 7 5 100 1).
  - intros k h E. cbn in E. by rewrite lookup_empty in E.
  - vm_compute. congruence.
  - vm_compute. congruence.
  - apply rtc_once. constructor.
  - lia.
Defined.
