(* ===== verification/DepositQueue.v ===== *)
(** * The deposit queue

    Models src/crates/l1/src/queue.rs ([PendingDeposits], [DepositQueue]),
    deposit.rs (deposits and their hash chain) and the data of event.rs and
    block.rs.  Keccak-256 and the ABI encoding of the hashed tuples are
    parameters.  Of an L1 header the queue reads the number, the hash and
    the parent hash.  A panic of the source is the error [panic]. *)

From S2P Require Import Prelude.
From S2P Require Import Policy.
From S2P Require Import L1State.
#[local] Open Scope Z_scope.

(** ** Deposits *)

Record Deposit := mkDeposit {
  d_token : Z; d_sender : Z; d_to : Z; d_amount : Z; d_fee : Z;
  d_bounceback_recipient : Z; d_memo : Z
}.

Record EncryptedDeposit := mkEncrypted {
  e_token : Z; e_sender : Z; e_amount : Z; e_fee : Z; e_bounceback_recipient : Z;
  e_key_index : Z; e_ephemeral_pubkey_x : Z; e_ephemeral_pubkey_y_parity : Z;
  e_ciphertext : list Z; e_nonce : list Z; e_tag : list Z
}.

Inductive L1Deposit :=
| Regular (d : Deposit)
| Encrypted (d : EncryptedDeposit).

Inductive DepositType := TyRegular | TyEncrypted.

(** The ABI structs that are hashed: the fee is not part of them. *)
Record AbiDeposit := mkAbiDeposit {
  a_token : Z; a_sender : Z; a_to : Z; a_amount : Z; a_bouncebackRecipient : Z; a_memo : Z
}.
Record AbiEncryptedDepositPayload := mkAbiPayload {
  ap_ephemeralPubkeyX : Z; ap_ephemeralPubkeyYParity : Z; ap_ciphertext : list Z;
  ap_nonce : list Z; ap_tag : list Z
}.
Record AbiEncryptedDeposit := mkAbiEncrypted {
  ae_token : Z; ae_sender : Z; ae_amount : Z; ae_bouncebackRecipient : Z; ae_keyIndex : Z;
  ae_encrypted : AbiEncryptedDepositPayload
}.

Definition abi_deposit (d : Deposit) : AbiDeposit :=
  mkAbiDeposit (d_token d) (d_sender d) (d_to d) (d_amount d) (d_bounceback_recipient d) (d_memo d).

Definition abi_encrypted (d : EncryptedDeposit) : AbiEncryptedDeposit :=
  mkAbiEncrypted (e_token d) (e_sender d) (e_amount d) (e_bounceback_recipient d) (e_key_index d)
    (mkAbiPayload (e_ephemeral_pubkey_x d) (e_ephemeral_pubkey_y_parity d) (e_ciphertext d)
       (e_nonce d) (e_tag d)).

(** The decoded portal events and the deposits made of them. *)
Record DepositMade := mkDepositMade {
  dm_token : Z; dm_sender : Z; dm_to : Z; dm_netAmount : Z; dm_fee : Z;
  dm_bouncebackRecipient : Z; dm_memo : Z
}.
Record LegacyDepositMade := mkLegacyDepositMade {
  ld_token : Z; ld_sender : Z; ld_to : Z; ld_netAmount : Z; ld_fee : Z; ld_memo : Z
}.
Record WithdrawalBounceBack := mkBounceBack {
  wb_token : Z; wb_fallbackRecipient : Z; wb_amount : Z
}.
Record EncryptedDepositMade := mkEncryptedDepositMade {
  em_token : Z; em_sender : Z; em_netAmount : Z; em_fee : Z; em_bouncebackRecipient : Z;
  em_keyIndex : Z; em_ephemeralPubkeyX : Z; em_ephemeralPubkeyYParity : Z;
  em_ciphertext : list Z; em_nonce : list Z; em_tag : list Z
}.

Definition from_event (e : DepositMade) : Deposit :=
  mkDeposit (dm_token e) (dm_sender e) (dm_to e) (dm_netAmount e) (dm_fee e)
    (dm_bouncebackRecipient e) (dm_memo e).
Definition from_legacy_event (e : LegacyDepositMade) : Deposit :=
  mkDeposit (ld_token e) (ld_sender e) (ld_to e) (ld_netAmount e) (ld_fee e) (ld_sender e) (ld_memo e).
Definition from_bounce_back (e : WithdrawalBounceBack) (portal_address : Z) : Deposit :=
  mkDeposit (wb_token e) portal_address (wb_fallbackRecipient e) (wb_amount e) 0 0 0.
Definition encrypted_from_event (e : EncryptedDepositMade) : EncryptedDeposit :=
  mkEncrypted (em_token e) (em_sender e) (em_netAmount e) (em_fee e) (em_bouncebackRecipient e)
    (em_keyIndex e) (em_ephemeralPubkeyX e) (em_ephemeralPubkeyYParity e) (em_ciphertext e)
    (em_nonce e) (em_tag e).

(** ** Portal events of a block *)

Record EnabledToken := mkEnabledToken {
  t_token : Z; t_name : list Z; t_symbol : list Z; t_currency : list Z
}.

Record L1PortalEvents := mkPortalEvents {
  deposits : list L1Deposit;
  enabled_tokens : list EnabledToken;
  sequencer_events : list L1SequencerEvent
}.
Definition portal_events_default : L1PortalEvents := mkPortalEvents [] [] [].
Definition from_deposits (ds : list L1Deposit) : L1PortalEvents := mkPortalEvents ds [] [].

(** The portal events the node decodes; [OtherPortalEvent] is any other
    variant of the decoder. *)
Inductive PortalEvent :=
| PE_LegacyDepositMade (e : LegacyDepositMade)
| PE_DepositMade (e : DepositMade)
| PE_EncryptedDepositMade (e : EncryptedDepositMade)
| PE_WithdrawalBounceBack (e : WithdrawalBounceBack)
| PE_TokenEnabled (t : EnabledToken)
| PE_SequencerTransferStarted (currentSequencer pendingSequencer : Z)
| PE_SequencerTransferred (previousSequencer newSequencer : Z)
| OtherPortalEvent.

(** A log: whether its topic is one of the known signatures, the emitting
    address, and what the ABI decoder makes of it ([None]: a decode error). *)
Record PortalLog := mkPortalLog {
  log_known : bool; log_address : Z; log_decoded : option PortalEvent
}.

Definition push_deposit (d : L1Deposit) (es : L1PortalEvents) : L1PortalEvents :=
  mkPortalEvents (deposits es ++ [d]) (enabled_tokens es) (sequencer_events es).

(** [None] is the decoding error. *)
Definition push_log (es : L1PortalEvents) (log : PortalLog) : option L1PortalEvents :=
  if negb (log_known log) then Some es
  else
    ev ← log_decoded log;
    Some match ev with
      | PE_LegacyDepositMade e => push_deposit (Regular (from_legacy_event e)) es
      | PE_DepositMade e => push_deposit (Regular (from_event e)) es
      | PE_EncryptedDepositMade e => push_deposit (Encrypted (encrypted_from_event e)) es
      | PE_WithdrawalBounceBack e =>
          push_deposit (Regular (from_bounce_back e (log_address log))) es
      | PE_TokenEnabled t =>
          mkPortalEvents (deposits es) (enabled_tokens es ++ [t]) (sequencer_events es)
      | PE_SequencerTransferStarted c p =>
          mkPortalEvents (deposits es) (enabled_tokens es) (sequencer_events es ++ [TransferStarted c p])
      | PE_SequencerTransferred p n =>
          mkPortalEvents (deposits es) (enabled_tokens es) (sequencer_events es ++ [Transferred p n])
      | OtherPortalEvent => es
      end.

Definition events_is_empty (es : L1PortalEvents) : bool :=
  match deposits es, enabled_tokens es, sequencer_events es with [], [], [] => true | _, _, _ => false end.

(** ** Blocks and outcomes *)

Record SealedHeader := mkHeader { h_number : Z; h_hash : Z; h_parent_hash : Z }.
Definition num_hash (h : SealedHeader) : NumHash := mkNumHash (h_number h) (h_hash h).

Record L1BlockDeposits := mkBlock {
  header : SealedHeader;
  events : L1PortalEvents;
  policy_events : list PolicyEvent;
  queue_hash_before : Z;
  queue_hash_after : Z
}.

Inductive EnqueueOutcome :=
| Accepted
| Duplicate
| NeedBackfill (from to : Z).

Inductive panic := Panic.

Record PendingDeposits := mkPending {
  processed_head_hash : Z;
  enqueued_head_hash : Z;
  pending : list L1BlockDeposits;
  last_enqueued : option NumHash;
  last_processed : option NumHash
}.
Definition pending_default : PendingDeposits := mkPending 0 0 [] None None.

Definition block_number_of (b : L1BlockDeposits) : Z := h_number (header b).

(** [iter().position(|e| e.header.number() == n)] *)
Fixpoint position (n : Z) (bs : list L1BlockDeposits) : option nat :=
  match bs with
  | [] => None
  | b :: bs' => if block_number_of b =? n then Some O else S <$> position n bs'
  end.

(** [u64] increment of a release build. *)
Definition succ64 (n : Z) : Z := wrapping_add U64_MAX n 1.

Section queue.
Context (keccak256 : list Z -> Z).
Context (abi_encode_regular : DepositType * AbiDeposit * Z -> list Z).
Context (abi_encode_encrypted : DepositType * AbiEncryptedDeposit * Z -> list Z).

Definition hash_chain (d : L1Deposit) (prev_hash : Z) : Z :=
  match d with
  | Regular d => keccak256 (abi_encode_regular (TyRegular, abi_deposit d, prev_hash))
  | Encrypted d => keccak256 (abi_encode_encrypted (TyEncrypted, abi_encrypted d, prev_hash))
  end.

(** [for deposit in deposits { hash = deposit.hash_chain(hash) }] *)
Definition chain_all (prev : Z) (ds : list L1Deposit) : Z := foldl (fun h d => hash_chain d h) prev ds.

Definition append (q : PendingDeposits) (h : SealedHeader) (es : L1PortalEvents)
    (pes : list PolicyEvent) : PendingDeposits :=
  let queue_hash_before := enqueued_head_hash q in
  let queue_hash_after := chain_all queue_hash_before (deposits es) in
  mkPending (processed_head_hash q) queue_hash_after
    (pending q ++ [mkBlock h es pes queue_hash_before queue_hash_after])
    (Some (num_hash h)) (last_processed q).

Definition purge_from (q : PendingDeposits) (idx : nat) : PendingDeposits :=
  let '(enqueued, pending') :=
    match idx with
    | O => (processed_head_hash q, [])
    | S i =>
        (match pending q !! i with Some b => queue_hash_after b | None => enqueued_head_hash q end,
         take idx (pending q))
    end in
  mkPending (processed_head_hash q) enqueued pending'
    ((fun b => num_hash (header b)) <$> last pending') (last_processed q).

Definition set_last_enqueued (x : option NumHash) (q : PendingDeposits) : PendingDeposits :=
  mkPending (processed_head_hash q) (enqueued_head_hash q) (pending q) x (last_processed q).

(** The part of [try_enqueue] for an empty queue. *)
Definition enqueue_empty (q : PendingDeposits) (h : SealedHeader) (es : L1PortalEvents)
    (pes : list PolicyEvent) : EnqueueOutcome * PendingDeposits :=
  let block_number := h_number h in
  match last_enqueued q with
  | Some last =>
      if block_number <=? nh_number last then (Duplicate, q)
      else if succ64 (nh_number last) <? block_number then
        (NeedBackfill (succ64 (nh_number last)) (block_number - 1), q)
      else if negb (h_parent_hash h =? nh_hash last) then
        (NeedBackfill (nh_number last) (block_number - 1), set_last_enqueued None q)
      else (Accepted, append q h es pes)
  | None =>
      match last_processed q with
      | Some processed =>
          if block_number <=? nh_number processed then (Duplicate, q)
          else if succ64 (nh_number processed) <? block_number then
            (NeedBackfill (succ64 (nh_number processed)) (block_number - 1), q)
          else (Accepted, append q h es pes)
      | None => (Accepted, append q h es pes)
      end
  end.

(** The part of [try_enqueue] for a queue whose last block is [tail]. *)
Definition enqueue_tail (tail : L1BlockDeposits) (q : PendingDeposits) (h : SealedHeader)
    (es : L1PortalEvents) (pes : list PolicyEvent) : EnqueueOutcome * PendingDeposits :=
  let block_number := h_number h in
  let tail_number := block_number_of tail in
  let tail_hash := h_hash (header tail) in
  if block_number <=? tail_number then (Duplicate, q)
  else
    let expected := succ64 tail_number in
    if expected <? block_number then (NeedBackfill expected (block_number - 1), q)
    else if negb (h_parent_hash h =? tail_hash) then
      let q := match position tail_number (pending q) with
               | Some idx => purge_from q idx
               | None => q
               end in
      let new_expected := match last (pending q) with
                          | Some e => succ64 (block_number_of e)
                          | None => block_number
                          end in
      if new_expected <? block_number then (NeedBackfill new_expected (block_number - 1), q)
      else (Accepted, append q h es pes)
    else (Accepted, append q h es pes).

Definition enqueue_rest (q : PendingDeposits) (h : SealedHeader) (es : L1PortalEvents)
    (pes : list PolicyEvent) : EnqueueOutcome * PendingDeposits :=
  match last (pending q) with
  | None => enqueue_empty q h es pes
  | Some tail => enqueue_tail tail q h es pes
  end.

Definition try_enqueue (q : PendingDeposits) (h : SealedHeader) (es : L1PortalEvents)
    (pes : list PolicyEvent) : EnqueueOutcome * PendingDeposits :=
  match position (h_number h) (pending q) with
  | Some idx =>
      match pending q !! idx with
      | Some b => if h_hash (header b) =? h_hash h then (Duplicate, q)
                  else enqueue_rest (purge_from q idx) h es pes
      | None => enqueue_rest q h es pes
      end
  | None => enqueue_rest q h es pes
  end.

(** [enqueue] panics when the block does not connect. *)
Definition enqueue (q : PendingDeposits) (h : SealedHeader) (es : L1PortalEvents)
    (pes : list PolicyEvent) : result panic PendingDeposits :=
  match try_enqueue q h es pes with
  | (Accepted, q') | (Duplicate, q') => Ok q'
  | (NeedBackfill _ _, _) => Err Panic
  end.

Definition peek (q : PendingDeposits) : option L1BlockDeposits := head (pending q).

(** [last_processed.is_none_or(|lp| num_hash.number > lp.number)] *)
Definition raise_processed (lp : option NumHash) (nh : NumHash) : option NumHash :=
  match lp with
  | Some l => if nh_number l <? nh_number nh then Some nh else lp
  | None => Some nh
  end.

Definition confirm (q : PendingDeposits) (expected : NumHash)
    : option L1BlockDeposits * PendingDeposits :=
  match pending q with
  | [] => (None, q)
  | front :: rest =>
      if bool_decide (num_hash (header front) <> expected) then (None, q)
      else
        (Some front,
         mkPending (queue_hash_after front) (enqueued_head_hash q) rest (last_enqueued q)
           (raise_processed (last_processed q) (num_hash (header front))))
  end.

Definition drain (q : PendingDeposits) : list L1BlockDeposits * PendingDeposits :=
  match last (pending q) with
  | Some b =>
      (pending q,
       mkPending (queue_hash_after b) (enqueued_head_hash q) [] (last_enqueued q)
         (raise_processed (last_processed q) (num_hash (header b))))
  | None => (pending q, q)
  end.

Definition clear_last_enqueued (q : PendingDeposits) : PendingDeposits := set_last_enqueued None q.

Record DepositQueueTransition := mkTransition {
  prev_processed_hash : Z; next_processed_hash : Z
}.
Definition transition (prev_hash : Z) (ds : list L1Deposit) : DepositQueueTransition :=
  mkTransition prev_hash (chain_all prev_hash ds).
End queue.

(** ** The shared queue with its notification permit

    [Notify] stores at most one permit: [notify_one] sets it, [notified]
    consumes it. *)

Record DepositQueue := mkDepositQueue {
  dq_inner : PendingDeposits;
  dq_notify : bool
}.

Section shared.
Context (keccak256 : list Z -> Z).
Context (abi_encode_regular : DepositType * AbiDeposit * Z -> list Z).
Context (abi_encode_encrypted : DepositType * AbiEncryptedDeposit * Z -> list Z).

Definition dq_new : DepositQueue := mkDepositQueue pending_default false.

Definition dq_try_enqueue (dq : DepositQueue) (h : SealedHeader) (es : L1PortalEvents)
    (pes : list PolicyEvent) : EnqueueOutcome * DepositQueue :=
  let '(outcome, q) :=
    try_enqueue keccak256 abi_encode_regular abi_encode_encrypted (dq_inner dq) h es pes in
  (outcome, mkDepositQueue q (match outcome with Accepted => true | _ => dq_notify dq end)).

Definition dq_enqueue (dq : DepositQueue) (h : SealedHeader) (es : L1PortalEvents)
    (pes : list PolicyEvent) : result panic DepositQueue :=
  match enqueue keccak256 abi_encode_regular abi_encode_encrypted (dq_inner dq) h es pes with
  | Ok q => Ok (mkDepositQueue q true)
  | Err e => Err e
  end.

Definition dq_peek (dq : DepositQueue) : option L1BlockDeposits := peek (dq_inner dq).

Definition dq_confirm (dq : DepositQueue) (expected : NumHash)
    : option L1BlockDeposits * DepositQueue :=
  let '(b, q) := confirm (dq_inner dq) expected in (b, mkDepositQueue q (dq_notify dq)).

Definition dq_last_enqueued (dq : DepositQueue) : option NumHash := last_enqueued (dq_inner dq).
End shared.
