(* ===== verification/DepositQueueProofs.v ===== *)
(** * The deposit queue keeps a contiguous chain and an exact hash chain

    The invariant of the queue over any sequence of its operations, reorgs
    included, the meaning of each enqueue outcome, and what a reorg of the
    only pending block does. *)

From S2P Require Import Prelude.
From S2P Require Import Policy.
From S2P Require Import L1State.
From S2P Require Import DepositQueue.
#[local] Open Scope Z_scope.

Section proofs.
Context (keccak256 : list Z -> Z).
Context (abi_encode_regular : DepositType * AbiDeposit * Z -> list Z).
Context (abi_encode_encrypted : DepositType * AbiEncryptedDeposit * Z -> list Z).
Abbreviation chain_all := (chain_all keccak256 abi_encode_regular abi_encode_encrypted).
Abbreviation try_enqueue := (try_enqueue keccak256 abi_encode_regular abi_encode_encrypted).
Abbreviation append := (append keccak256 abi_encode_regular abi_encode_encrypted).
Abbreviation enqueue_rest := (enqueue_rest keccak256 abi_encode_regular abi_encode_encrypted).
Abbreviation enqueue_tail := (enqueue_tail keccak256 abi_encode_regular abi_encode_encrypted).
Abbreviation enqueue_empty := (enqueue_empty keccak256 abi_encode_regular abi_encode_encrypted).

(** ** The invariant *)

(** [b'] follows [b] on L1. *)
Definition follows (b b' : L1BlockDeposits) : Prop :=
  block_number_of b' = block_number_of b + 1 /\ h_parent_hash (header b') = h_hash (header b).

Fixpoint linked (bs : list L1BlockDeposits) : Prop :=
  match bs with
  | b :: ((b' :: _) as bs') => follows b b' /\ linked bs'
  | _ => True
  end.

(** From [prev], the blocks chain the deposit hash to [final]. *)
Fixpoint hash_ok (prev : Z) (bs : list L1BlockDeposits) (final : Z) : Prop :=
  match bs with
  | [] => prev = final
  | b :: bs' => queue_hash_before b = prev /\
                queue_hash_after b = chain_all prev (deposits (events b)) /\
                hash_ok (queue_hash_after b) bs' final
  end.

Definition number_ok (n : Z) : Prop := 0 <= n < U64_MAX.

(** [n] is above the floor of processed blocks. *)
Definition above_floor (q : PendingDeposits) (n : Z) : Prop :=
  forall lp, last_processed q = Some lp -> nh_number lp < n.

Record QInv (q : PendingDeposits) : Prop := mkQInv {
  q_linked : linked (pending q);
  q_hash : hash_ok (processed_head_hash q) (pending q) (enqueued_head_hash q);
  q_numbers : Forall (fun b => number_ok (block_number_of b) /\ above_floor q (block_number_of b))
                (pending q);
  q_last : forall b, last (pending q) = Some b -> last_enqueued q = Some (num_hash (header b));
  q_enqueued : forall l, last_enqueued q = Some l ->
                 number_ok (nh_number l) /\ above_floor q (nh_number l + 1);
  q_processed : forall l, last_processed q = Some l -> number_ok (nh_number l)
}.

Lemma linked_snoc bs b :
  linked (bs ++ [b]) <-> linked bs /\ (forall x, last bs = Some x -> follows x b).
Proof.
  induction bs as [|x bs IH]; [cbn; naive_solver|].
  destruct bs as [|y bs]; [cbn; naive_solver|].
  change (linked ((x :: y :: bs) ++ [b])) with (follows x y /\ linked ((y :: bs) ++ [b])).
  change (linked (x :: y :: bs)) with (follows x y /\ linked (y :: bs)).
  change (last (x :: y :: bs)) with (last (y :: bs)). rewrite IH. naive_solver.
Qed.

Lemma linked_app_l bs bs' : linked (bs ++ bs') -> linked bs.
Proof.
  revert bs. induction bs' as [|b bs' IH]; intros bs H; [by rewrite app_nil_r in H|].
  rewrite (cons_middle b bs bs'), app_assoc in H. apply IH in H. by apply linked_snoc in H as [H _].
Qed.

Lemma hash_ok_app prev bs bs' final :
  hash_ok prev (bs ++ bs') final <-> exists mid, hash_ok prev bs mid /\ hash_ok mid bs' final.
Proof.
  revert prev. induction bs as [|b bs IH]; intros prev; cbn; [naive_solver|].
  rewrite IH. naive_solver.
Qed.

Lemma hash_ok_last prev bs b final :
  hash_ok prev bs final -> last bs = Some b -> queue_hash_after b = final.
Proof.
  intros H [bs' ->]%last_Some. apply hash_ok_app in H as (mid & _ & H). cbn in H. naive_solver.
Qed.

(** In a linked queue, the number of a block is its distance from the front. *)
Lemma linked_numbers bs i b b0 :
  linked bs -> bs !! i = Some b -> head bs = Some b0 ->
  block_number_of b = block_number_of b0 + Z.of_nat i.
Proof.
  revert bs b0. induction i as [|i IH]; intros bs b0 Hl Hi Hh; destruct bs as [|x bs]; try done.
  - cbn in *. simplify_eq. lia.
  - cbn in Hh. injection Hh as ->. cbn in Hi. destruct bs as [|y bs]; [done|].
    destruct Hl as [[Hn _] Hl]. rewrite (IH (y :: bs) y Hl Hi eq_refl), Hn. lia.
Qed.

Lemma position_Some n bs i :
  position n bs = Some i -> exists b, bs !! i = Some b /\ block_number_of b = n.
Proof.
  revert i. induction bs as [|x bs IH]; intros i; cbn; [done|].
  destruct (Z.eqb_spec (block_number_of x) n) as [E|]; [intros [= <-]; by exists x|].
  intros (j & Hj & ->)%fmap_Some. by apply IH in Hj.
Qed.

Lemma position_last bs b :
  linked bs -> last bs = Some b -> position (block_number_of b) bs = Some (length bs - 1)%nat.
Proof.
  intros Hl Hb. destruct (position (block_number_of b) bs) as [i|] eqn:E.
  - apply position_Some in E as (c & Hc & Hn). rewrite last_lookup in Hb.
    destruct (head bs) as [b0|] eqn:Eh; [|by destruct bs].
    pose proof (linked_numbers _ _ _ _ Hl Hc Eh). pose proof (linked_numbers _ _ _ _ Hl Hb Eh).
    f_equal. pose proof (lookup_lt_Some _ _ _ Hc). pose proof (lookup_lt_Some _ _ _ Hb). lia.
  - exfalso. apply last_Some in Hb as [l ->]. clear Hl. induction l as [|x l IH]; cbn in E.
    + by rewrite Z.eqb_refl in E.
    + destruct (block_number_of x =? _); [done|]. by destruct (position _ (l ++ [b])).
Qed.

Lemma succ64_ok n : number_ok n -> succ64 n = n + 1.
Proof. unfold number_ok, succ64. intros H. apply wrapping_add_small. lia. Qed.

(** ** Every operation preserves it *)

Lemma append_inv q h es pes :
  QInv q -> number_ok (h_number h) -> above_floor q (h_number h) ->
  (forall x, last (pending q) = Some x ->
     h_number h = block_number_of x + 1 /\ h_parent_hash h = h_hash (header x)) ->
  QInv (append q h es pes).
Proof.
  intros [Hl Hh Hn _ _ Hpr] Hok Hab Hx. split; cbn.
  - apply linked_snoc. split; [done|]. intros x E. by apply Hx.
  - apply hash_ok_app. exists (enqueued_head_hash q). by repeat split.
  - apply Forall_app. split; [done|]. by apply Forall_singleton.
  - intros b. rewrite last_snoc. by intros [= <-].
  - intros l [= <-]. split; [done|]. intros lp Hlp. specialize (Hab lp Hlp). cbn in *. lia.
  - done.
Qed.

Lemma q_last_number q b : QInv q -> last (pending q) = Some b ->
  number_ok (block_number_of b) /\ above_floor q (block_number_of b).
Proof.
  intros I [l E]%last_Some. pose proof (q_numbers _ I) as Hn. rewrite E in Hn.
  apply Forall_app in Hn as [_ Hn]. by inversion_clear Hn.
Qed.

Lemma purge_inv q i :
  QInv q -> (i < length (pending q))%nat ->
  QInv (purge_from q i) /\ pending (purge_from q i) = take i (pending q).
Proof.
  intros [Hl Hh Hn _ _ Hpr] Hi. destruct i as [|j].
  { split; [|done]. by split. }
  split; [|done]. destruct (pending q !! j) as [b|] eqn:E;
    [|apply lookup_ge_None in E; lia].
  pose proof (take_S_r _ _ _ E) as Et. rewrite <- (take_drop (S j) (pending q)) in Hl, Hh, Hn.
  apply hash_ok_app in Hh as (mid & Hh & _). apply linked_app_l in Hl. apply Forall_app in Hn as [Hn _].
  assert (Hlast : last (take (S j) (pending q)) = Some b) by (rewrite Et; apply last_snoc).
  split; cbn [purge_from pending processed_head_hash enqueued_head_hash last_enqueued last_processed];
    try done.
  - rewrite E. by rewrite (hash_ok_last _ _ _ _ Hh Hlast).
  - intros c Hc. by rewrite Hc.
  - rewrite Hlast. intros l [= <-]. rewrite Et in Hn. apply Forall_app in Hn as [_ Hn].
    apply Forall_singleton in Hn as [Hok Hab]. split; [done|].
    intros lp Hlp. specialize (Hab lp Hlp). unfold block_number_of in Hab. cbn in *. lia.
Qed.

Lemma enqueue_empty_inv q h es pes :
  QInv q -> pending q = [] -> number_ok (h_number h) -> QInv (enqueue_empty q h es pes).2.
Proof.
  intros I Hp Hok.
  assert (Ha : above_floor q (h_number h) -> QInv (append q h es pes)).
  { intros Hab. apply append_inv; [done..|]. rewrite Hp. done. }
  assert (Hs : QInv (set_last_enqueued None q)).
  { destruct I as [Hl Hh Hn _ _ Hpr]. split; try done. cbn. rewrite Hp. done. }
  unfold enqueue_empty. destruct (last_enqueued q) as [l|] eqn:El.
  - destruct (q_enqueued _ I l El) as [Hl Hab].
    destruct (Z.leb_spec (h_number h) (nh_number l)); [done|]. case_match; [done|].
    case_match; [done|]. apply Ha. intros lp Hlp. specialize (Hab lp Hlp). lia.
  - destruct (last_processed q) as [l|] eqn:Ep.
    + destruct (Z.leb_spec (h_number h) (nh_number l)); [done|]. case_match; [done|].
      apply Ha. intros lp Hlp. rewrite Ep in Hlp. injection Hlp as <-. lia.
    + apply Ha. intros lp Hlp. congruence.
Qed.

Lemma purge_processed q i :
  processed_head_hash (purge_from q i) = processed_head_hash q /\
  last_processed (purge_from q i) = last_processed q.
Proof. by destruct i. Qed.

(** A mismatching successor of the last block removes that block. *)
Lemma purge_tail q tail :
  QInv q -> last (pending q) = Some tail ->
  let q' := match position (block_number_of tail) (pending q) with
            | Some idx => purge_from q idx | None => q end in
  QInv q' /\ pending q' = take (length (pending q) - 1) (pending q) /\
  last_processed q' = last_processed q /\
  (forall x, last (pending q') = Some x -> block_number_of x + 1 = block_number_of tail).
Proof.
  intros I Ht. rewrite (position_last _ _ (q_linked _ I) Ht). cbv zeta.
  pose proof Ht as [l E]%last_Some.
  assert (Hlen : (length (pending q) - 1 < length (pending q))%nat) by (rewrite E, length_app; cbn; lia).
  destruct (purge_inv q _ I Hlen) as [I' Ep]. split; [done|]. split; [done|].
  split; [apply purge_processed|].
  intros x. rewrite Ep, E. rewrite length_app. cbn [length].
  replace (length l + 1 - 1)%nat with (length l) by lia. rewrite take_app_length. intros Hx.
  pose proof (q_linked _ I) as Hl. rewrite E in Hl. apply linked_snoc in Hl as [_ Hl].
  destruct (Hl x Hx) as [Hf _]. lia.
Qed.

Lemma enqueue_tail_inv q tail h es pes :
  QInv q -> last (pending q) = Some tail -> number_ok (h_number h) ->
  QInv (enqueue_tail tail q h es pes).2.
Proof.
  intros I Ht Hok. destruct (q_last_number q tail I Ht) as [Hnt Hat].
  unfold enqueue_tail. rewrite (succ64_ok _ Hnt).
  destruct (Z.leb_spec (h_number h) (block_number_of tail)); [done|].
  destruct (Z.ltb_spec (block_number_of tail + 1) (h_number h)); [done|].
  assert (Hab : above_floor q (h_number h)) by (intros lp Hlp; specialize (Hat lp Hlp); lia).
  destruct (Z.eqb_spec (h_parent_hash h) (h_hash (header tail))) as [Hp|Hp]; cbn [negb].
  - apply append_inv; [done..|]. intros x Hx. rewrite Ht in Hx. injection Hx as <-. split; [lia|done].
  - destruct (purge_tail q tail I Ht) as (I' & _ & Hlp & Hx).
    set (q' := match position _ _ with Some idx => _ | None => _ end) in *.
    destruct (last (pending q')) as [x|] eqn:El.
    + specialize (Hx x eq_refl). rewrite succ64_ok by apply (q_last_number q' x I' El).
      rewrite (proj2 (Z.ltb_lt _ _)) by lia. done.
    + rewrite Z.ltb_irrefl. apply append_inv; [done..| |by rewrite El].
      intros lp. rewrite Hlp. apply Hab.
Qed.

Lemma enqueue_rest_inv q h es pes :
  QInv q -> number_ok (h_number h) -> QInv (enqueue_rest q h es pes).2.
Proof.
  intros I Hok. unfold enqueue_rest. destruct (last (pending q)) as [t|] eqn:E.
  - by apply enqueue_tail_inv.
  - apply enqueue_empty_inv; [done| |done]. by apply last_None.
Qed.

Lemma try_enqueue_inv q h es pes :
  QInv q -> number_ok (h_number h) -> QInv (try_enqueue q h es pes).2.
Proof.
  intros I Hok. unfold try_enqueue. destruct (position _ _) as [i|] eqn:E; [|by apply enqueue_rest_inv].
  apply position_Some in E as (b & Hb & _). rewrite Hb. case_match; [done|].
  apply enqueue_rest_inv; [|done]. apply purge_inv; [done|]. by eapply lookup_lt_Some.
Qed.

(** Handing out the front part [bs], whose last block is [b], of the queue. *)
Definition consume (q : PendingDeposits) (b : L1BlockDeposits) (rest : list L1BlockDeposits) :=
  mkPending (queue_hash_after b) (enqueued_head_hash q) rest (last_enqueued q)
    (raise_processed (last_processed q) (num_hash (header b))).

Lemma linked_app_lt bs bs' b c :
  linked (bs ++ bs') -> b ∈ bs -> c ∈ bs' -> block_number_of b < block_number_of c.
Proof.
  intros Hl [i Hi]%list_elem_of_lookup [j Hj]%list_elem_of_lookup.
  pose proof (lookup_lt_Some _ _ _ Hi) as Hil.
  destruct (head (bs ++ bs')) as [b0|] eqn:Eh; [|by destruct bs].
  assert (Hi' : (bs ++ bs') !! i = Some b) by (by apply lookup_app_l_Some).
  assert (Hj' : (bs ++ bs') !! (length bs + j)%nat = Some c).
  { rewrite lookup_app_r by lia. by replace (length bs + j - length bs)%nat with j by lia. }
  pose proof (linked_numbers _ _ _ _ Hl Hi' Eh). pose proof (linked_numbers _ _ _ _ Hl Hj' Eh). lia.
Qed.

Lemma raise_processed_above q n : above_floor q (nh_number n) ->
  raise_processed (last_processed q) n = Some n.
Proof.
  intros H. unfold raise_processed. destruct (last_processed q) as [l|] eqn:E; [|done].
  by rewrite (proj2 (Z.ltb_lt _ _) (H l E)).
Qed.

Lemma consume_inv q bs rest b :
  QInv q -> pending q = bs ++ rest -> last bs = Some b -> QInv (consume q b rest).
Proof.
  intros [Hl Hh Hn Hla Hen Hpr] Ep Hb. rewrite Ep in *.
  assert (Hbin : b ∈ bs) by (apply last_Some in Hb as [l ->]; set_solver).
  apply Forall_app in Hn as [Hn1 Hn2]. rewrite Forall_forall in Hn1.
  destruct (Hn1 b Hbin) as [Hbok Hbab]. pose proof Hh as (mid & Hh1 & Hh2)%hash_ok_app.
  assert (Hr : raise_processed (last_processed q) (num_hash (header b)) = Some (num_hash (header b)))
    by (by apply raise_processed_above).
  split; cbn; try done.
  - clear -Hl. induction bs as [|x bs IH]; [done|]. apply IH. cbn in Hl. by destruct (bs ++ rest); [|destruct Hl].
  - by rewrite (hash_ok_last _ _ _ _ Hh1 Hb).
  - rewrite Forall_forall in *. intros c Hc. split; [by apply Hn2|]. intros lp. cbn. rewrite Hr.
    intros [= <-]. by apply (linked_app_lt bs rest b c).
  - intros c Hc. apply Hla. apply last_Some in Hc as [l ->]. by rewrite app_assoc, last_snoc.
  - intros l Hle. split; [by apply Hen|]. intros lp. cbn. rewrite Hr. intros [= <-]. cbn.
    destruct (last (bs ++ rest)) as [c|] eqn:Ec.
    + specialize (Hla c eq_refl). rewrite Hle in Hla. injection Hla as ->. cbn.
      rewrite last_app in Ec. destruct (last rest) as [c'|] eqn:Er.
      * injection Ec as ->. apply last_Some in Er as [r Er].
        pose proof (linked_app_lt bs rest b c Hl Hbin ltac:(rewrite Er; set_solver)).
        unfold block_number_of in *. lia.
      * rewrite Hb in Ec. injection Ec as ->. lia.
    + rewrite last_app, Hb in Ec. by destruct (last rest).
  - rewrite Hr. intros l [= <-]. exact Hbok.
Qed.

(** ** Runs, with the blocks consumed so far *)

Inductive q_op :=
| QEnqueue (h : SealedHeader) (es : L1PortalEvents) (pes : list PolicyEvent)
| QConfirm (expected : NumHash)
| QDrain.

Definition q_op_ok (op : q_op) : Prop :=
  match op with QEnqueue h _ _ => number_ok (h_number h) | _ => True end.

Definition q_step (s : PendingDeposits * list L1BlockDeposits) (op : q_op)
    : PendingDeposits * list L1BlockDeposits :=
  let '(q, consumed) := s in
  match op with
  | QEnqueue h es pes => ((try_enqueue q h es pes).2, consumed)
  | QConfirm nh => let '(b, q') := confirm q nh in (q', consumed ++ option_list b)
  | QDrain => let '(bs, q') := drain q in (q', consumed ++ bs)
  end.
Definition q_run (ops : list q_op) : PendingDeposits * list L1BlockDeposits :=
  foldl q_step (pending_default, []) ops.

Definition block_deposits (bs : list L1BlockDeposits) : list L1Deposit :=
  concat ((fun b => deposits (events b)) <$> bs).

Lemma chain_all_app h ds ds' : chain_all h (ds ++ ds') = chain_all (chain_all h ds) ds'.
Proof. apply foldl_app. Qed.

Lemma hash_ok_chain prev bs final : hash_ok prev bs final -> final = chain_all prev (block_deposits bs).
Proof.
  revert prev. induction bs as [|b bs IH]; intros prev; [done|]. intros (_ & E & H).
  change (block_deposits (b :: bs)) with (deposits (events b) ++ block_deposits bs).
  rewrite chain_all_app, <- E. by apply IH.
Qed.

Lemma block_deposits_app bs bs' : block_deposits (bs ++ bs') = block_deposits bs ++ block_deposits bs'.
Proof. unfold block_deposits. by rewrite fmap_app, concat_app. Qed.

Lemma try_enqueue_processed q h es pes :
  processed_head_hash (try_enqueue q h es pes).2 = processed_head_hash q /\
  last_processed (try_enqueue q h es pes).2 = last_processed q.
Proof.
  assert (He : forall q, processed_head_hash (enqueue_rest q h es pes).2 = processed_head_hash q /\
                         last_processed (enqueue_rest q h es pes).2 = last_processed q).
  { intros q0. unfold enqueue_rest, enqueue_empty, enqueue_tail.
    repeat (case_match; try done; cbn); try apply purge_processed. }
  unfold try_enqueue. repeat case_match; try done; try apply He.
  destruct (He (purge_from q n)) as [-> ->]. apply purge_processed.
Qed.

(** Numbers of the blocks handed to the engine, in order. *)
Definition increasing (bs : list L1BlockDeposits) : Prop :=
  StronglySorted (fun b c => block_number_of b < block_number_of c) bs.

Record Accounted (s : PendingDeposits * list L1BlockDeposits) : Prop := mkAccounted {
  acc_inv : QInv s.1;
  acc_processed : processed_head_hash s.1 = chain_all 0 (block_deposits s.2);
  acc_increasing : increasing s.2;
  acc_floor : (fun b => num_hash (header b)) <$> last s.2 = last_processed s.1
}.

Lemma linked_increasing bs : linked bs -> increasing bs.
Proof.
  induction bs as [|b bs IH]; intros Hl; [constructor|]. constructor.
  - apply IH. by destruct bs; [|destruct Hl].
  - apply Forall_forall. intros c Hc. apply (linked_app_lt [b] bs b c); set_solver.
Qed.

Lemma increasing_app bs bs' :
  increasing bs -> increasing bs' ->
  (forall b c, last bs = Some b -> c ∈ bs' -> block_number_of b < block_number_of c) ->
  increasing (bs ++ bs').
Proof.
  intros Hs Hs' Hx. apply StronglySorted_app_2; [|done..]. intros b c Hb Hc.
  destruct (last bs) as [t|] eqn:E; [|apply last_None in E; subst; by apply not_elem_of_nil in Hb].
  specialize (Hx t c eq_refl Hc). apply last_Some in E as [l ->].
  apply StronglySorted_app in Hs as (H1 & _ & _).
  apply elem_of_app in Hb as [Hb|Hb%list_elem_of_singleton]; [|by subst].
  specialize (H1 b t Hb ltac:(set_solver)). cbn in *. lia.
Qed.

Lemma consume_accounted q consumed bs rest b :
  Accounted (q, consumed) -> pending q = bs ++ rest -> last bs = Some b ->
  Accounted (consume q b rest, consumed ++ bs).
Proof.
  intros [I Hp Hs Hf] Ep Hb. cbn [fst snd] in *.
  split; cbn [fst snd consume processed_head_hash last_processed].
  - by apply (consume_inv q bs rest b).
  - pose proof (q_hash _ I) as Hh. rewrite Ep in Hh. apply hash_ok_app in Hh as (mid & Hh & _).
    rewrite (hash_ok_last _ _ _ _ Hh Hb), block_deposits_app, chain_all_app, <- Hp.
    by apply hash_ok_chain.
  - pose proof (q_linked _ I) as Hl. rewrite Ep in Hl. apply linked_app_l in Hl.
    apply increasing_app; [done|by apply linked_increasing|]. intros x c Hx Hc.
    pose proof (q_numbers _ I) as Hn. rewrite Ep, Forall_app, Forall_forall in Hn.
    destruct Hn as [Hn _]. destruct (Hn c Hc) as [_ Ha]. rewrite Hx in Hf. cbn in Hf.
    by specialize (Ha _ (eq_sym Hf)).
  - rewrite last_app, Hb. cbn. symmetry. apply raise_processed_above.
    pose proof (q_numbers _ I) as Hn. rewrite Ep, Forall_app, Forall_forall in Hn.
    destruct Hn as [Hn _]. apply Hn. apply last_Some in Hb as [l ->]. set_solver.
Qed.

Lemma q_step_accounted s op : Accounted s -> q_op_ok op -> Accounted (q_step s op).
Proof.
  destruct s as [q consumed]. intros A Hok. pose proof A as [I Hp Hs Hf].
  destruct op as [h es pes|nh|]; cbn [q_step fst snd] in *.
  - destruct (try_enqueue_processed q h es pes) as [E1 E2].
    split; cbn [fst snd]; [by apply try_enqueue_inv|by rewrite E1|done|by rewrite E2].
  - unfold confirm. destruct (pending q) as [|b bs] eqn:E; cbn [option_list]; [by rewrite app_nil_r|].
    case_bool_decide; cbn [option_list]; [by rewrite app_nil_r|].
    by apply (consume_accounted q consumed [b] bs b).
  - unfold drain. destruct (last (pending q)) as [b|] eqn:E.
    + apply (consume_accounted q consumed (pending q) [] b); try done. by rewrite app_nil_r.
    + apply last_None in E. by rewrite E, app_nil_r.
Qed.

Lemma q_run_accounted ops : Forall q_op_ok ops -> Accounted (q_run ops).
Proof.
  unfold q_run. assert (H0 : Accounted (pending_default, [])).
  { split; [by repeat constructor|done|constructor|done]. }
  revert H0. generalize (pending_default, @nil L1BlockDeposits) as s.
  induction ops as [|op ops IH]; intros s Hs Hok; [done|].
  apply Forall_cons in Hok as [H1 H2]. cbn. apply IH; [by apply q_step_accounted|done].
Qed.

(** Whatever blocks are offered (gaps, reorgs, duplicates) and consumed,
    the pending blocks form a contiguous L1 chain: each number is the
    previous plus one and each parent hash is the previous hash; and
    [last_enqueued] names the last of them. *)
Theorem pending_contiguous ops :
  Forall q_op_ok ops ->
  linked (pending (q_run ops).1) /\
  (forall b, last (pending (q_run ops).1) = Some b ->
     last_enqueued (q_run ops).1 = Some (num_hash (header b))).
Proof. intros Hok. pose proof (acc_inv _ (q_run_accounted ops Hok)) as I. split; apply I. Qed.

(** C6. The hash chain is exact: after any run, the processed hash is the
    chain over the deposits of exactly the blocks handed to the engine, in
    order; every pending block carries the chain values before and after its
    own deposits; and the enqueued hash is the chain over all of them.
    Purged blocks leave no trace. *)
Theorem queue_hash_exact ops :
  Forall q_op_ok ops ->
  let '(q, consumed) := q_run ops in
  processed_head_hash q = chain_all 0 (block_deposits consumed) /\
  enqueued_head_hash q = chain_all 0 (block_deposits (consumed ++ pending q)) /\
  hash_ok (processed_head_hash q) (pending q) (enqueued_head_hash q).
Proof.
  intros Hok. pose proof (q_run_accounted ops Hok) as A. destruct (q_run ops) as [q consumed].
  destruct A as [I Hp _ _]. cbn [fst snd] in *. split; [done|]. split; [|apply I].
  rewrite block_deposits_app, chain_all_app, <- Hp. apply hash_ok_chain, I.
Qed.

(** No L1 block is processed twice: the numbers of the blocks handed to
    the engine, followed by those still pending, strictly increase, through
    any reorgs, and [last_processed] is exactly the last block handed out. *)
Theorem never_processed_twice ops :
  Forall q_op_ok ops ->
  let '(q, consumed) := q_run ops in
  increasing (consumed ++ pending q) /\
  last_processed q = (fun b => num_hash (header b)) <$> last consumed.
Proof.
  intros Hok. pose proof (q_run_accounted ops Hok) as A. destruct (q_run ops) as [q consumed].
  destruct A as [I _ Hs Hf]. cbn [fst snd] in *. split; [|done].
  apply increasing_app; [done|apply linked_increasing, I|]. intros b c Hb Hc.
  pose proof (q_numbers _ I) as Hn. rewrite Forall_forall in Hn. destruct (Hn c Hc) as [_ Ha].
  rewrite Hb in Hf. by specialize (Ha _ (eq_sym Hf)).
Qed.

(** ** Outcomes *)

(** What [try_enqueue] of the block [h] on [q] returns and leaves. *)
Definition outcome_spec (q : PendingDeposits) (h : SealedHeader) (es : L1PortalEvents)
    (r : EnqueueOutcome * PendingDeposits) : Prop :=
  match r with
  | (Accepted, q') => exists b, last (pending q') = Some b /\ header b = h /\ events b = es
  | (Duplicate, q') =>
      q' = q /\ ((exists b, b ∈ pending q /\ num_hash (header b) = num_hash h) \/
                 (exists l, (last_enqueued q = Some l \/ last_processed q = Some l) /\
                            h_number h <= nh_number l))
  | (NeedBackfill from to, q') =>
      from <= to /\ to = h_number h - 1 /\
      forall b, last (pending q') = Some b -> from = block_number_of b + 1
  end.

Lemma append_outcome q q0 h es pes : outcome_spec q h es (Accepted, append q0 h es pes).
Proof. eexists. cbn. rewrite last_snoc. by split. Qed.

Lemma enqueue_tail_outcome q tail h es pes :
  QInv q -> last (pending q) = Some tail -> outcome_spec q h es (enqueue_tail tail q h es pes).
Proof.
  intros I Ht. destruct (q_last_number q tail I Ht) as [Hnt _].
  unfold enqueue_tail. rewrite (succ64_ok _ Hnt).
  destruct (Z.leb_spec (h_number h) (block_number_of tail)).
  { split; [done|]. right. exists (num_hash (header tail)). split; [left|done]. by apply I. }
  destruct (Z.ltb_spec (block_number_of tail + 1) (h_number h)).
  { split; [lia|]. split; [done|]. intros b Hb. by simplify_eq. }
  destruct (negb _); [|apply append_outcome].
  destruct (purge_tail q tail I Ht) as (I' & _ & _ & _).
  set (q1 := match position _ _ with Some idx => _ | None => _ end) in *.
  destruct (last (pending q1)) as [e|] eqn:El.
  - destruct (Z.ltb_spec (succ64 (block_number_of e)) (h_number h)); [|apply append_outcome].
    split; [lia|]. split; [done|]. intros b Hb. rewrite Hb in El. injection El as ->.
    by apply succ64_ok, (q_last_number q1 e I').
  - rewrite Z.ltb_irrefl. apply append_outcome.
Qed.

Lemma enqueue_empty_outcome q h es pes :
  QInv q -> pending q = [] -> outcome_spec q h es (enqueue_empty q h es pes).
Proof.
  intros I Hp. unfold enqueue_empty. destruct (last_enqueued q) as [l|] eqn:El.
  - rewrite succ64_ok by apply (q_enqueued _ I l El).
    destruct (Z.leb_spec (h_number h) (nh_number l)); [cbn; eauto 6|].
    destruct (Z.ltb_spec (nh_number l + 1) (h_number h)).
    { cbn. rewrite Hp. split_and!; [lia|done|done]. }
    destruct (negb _); [|apply append_outcome]. cbn. rewrite Hp. split_and!; [lia|done|done].
  - destruct (last_processed q) as [l|] eqn:Ep; [|apply append_outcome].
    rewrite succ64_ok by apply (q_processed _ I l Ep).
    destruct (Z.leb_spec (h_number h) (nh_number l)); [cbn; eauto 6|].
    destruct (Z.ltb_spec (nh_number l + 1) (h_number h)); [|apply append_outcome].
    cbn. rewrite Hp. split_and!; [lia|done|done].
Qed.

Lemma enqueue_rest_outcome q h es pes : QInv q -> outcome_spec q h es (enqueue_rest q h es pes).
Proof.
  intros I. unfold enqueue_rest. destruct (last (pending q)) as [t|] eqn:E.
  - by apply enqueue_tail_outcome.
  - apply enqueue_empty_outcome; [done|]. by apply last_None.
Qed.

(** A block that replaces a pending one is never reported as a duplicate. *)
Lemma replaced_not_duplicate q i b h es pes q' :
  QInv q -> pending q !! i = Some b -> block_number_of b = h_number h ->
  enqueue_rest (purge_from q i) h es pes <> (Duplicate, q').
Proof.
  intros I Hb Hn Hd. destruct (purge_inv q i I (lookup_lt_Some _ _ _ Hb)) as [I' Ep].
  pose proof (q_numbers _ I) as Hns. rewrite Forall_forall in Hns.
  destruct (Hns b (list_elem_of_lookup_2 _ _ _ Hb)) as [_ Ha]. rewrite Hn in Ha.
  assert (Hlt : forall c, c ∈ take i (pending q) -> block_number_of c < h_number h).
  { intros c Hc. rewrite <- Hn. pose proof (q_linked _ I) as Hlk.
    rewrite <- (take_drop i (pending q)) in Hlk. apply (linked_app_lt _ _ _ _ Hlk Hc).
    apply list_elem_of_lookup. exists O. by rewrite lookup_drop, Nat.add_0_r. }
  pose proof (enqueue_rest_outcome _ h es pes I') as Ho. rewrite Hd in Ho.
  destruct Ho as [_ [(c & Hc & Hnc)|(l & [Hl|Hl] & Hle)]].
  - rewrite Ep in Hc. specialize (Hlt c Hc). unfold block_number_of, num_hash in *.
    injection Hnc as Hnc _. lia.
  - destruct (last (pending (purge_from q i))) as [c|] eqn:El.
    + rewrite (q_last _ I' c El) in Hl. injection Hl as <-.
      apply last_Some in El as [k El]. specialize (Hlt c ltac:(rewrite <- Ep, El; set_solver)).
      unfold block_number_of in Hlt. cbn in Hle. lia.
    + apply last_None in El. by destruct i; cbn in Hl, El; [|rewrite El in Hl].
  - rewrite (proj2 (purge_processed q i)) in Hl. specialize (Ha l Hl). lia.
Qed.

(** In every reachable state, [try_enqueue] keeps its contract:
    [Accepted] makes the block the last pending one, with its events;
    [Duplicate] changes nothing, and the block is already pending or at or
    below the last block enqueued or processed; [NeedBackfill from to] asks
    for a non-empty range that ends right before the block and starts right
    after the last block still pending. *)
Theorem enqueue_outcome ops h es pes :
  Forall q_op_ok ops ->
  outcome_spec (q_run ops).1 h es (try_enqueue (q_run ops).1 h es pes).
Proof.
  intros Hok. pose proof (acc_inv _ (q_run_accounted ops Hok)) as I. set (q := (q_run ops).1) in *.
  unfold try_enqueue. destruct (position _ _) as [i|] eqn:E; [|by apply enqueue_rest_outcome].
  apply position_Some in E as (b & Hb & Hn). rewrite Hb.
  destruct (Z.eqb_spec (h_hash (header b)) (h_hash h)) as [Hh|Hh].
  - split; [done|]. left. exists b. split; [by eapply list_elem_of_lookup_2|].
    unfold num_hash, block_number_of in *. congruence.
  - destruct (purge_inv q i I (lookup_lt_Some _ _ _ Hb)) as [I' _].
    pose proof (enqueue_rest_outcome _ h es pes I') as Ho.
    destruct (enqueue_rest (purge_from q i) h es pes) as [[| |f t] q'] eqn:Er; try done.
    by destruct (replaced_not_duplicate q i b h es pes q' I Hb Hn).
Qed.

(** The floor is not enough to close a reorg at the front: when a single
    block [b] is pending behind a processed block, a block of number [b+1]
    with another parent is accepted as the new front, so the replacement of
    [b] is neither kept, nor asked for, nor accepted later. *)
Lemma reorged_front_is_skipped ops h es pes b lp :
  Forall q_op_ok ops ->
  pending (q_run ops).1 = [b] -> last_processed (q_run ops).1 = Some lp ->
  nh_number lp + 1 = block_number_of b ->
  h_number h = block_number_of b + 1 -> h_parent_hash h <> h_hash (header b) ->
  exists q', try_enqueue (q_run ops).1 h es pes = (Accepted, q') /\
    (exists before after, pending q' = [mkBlock h es pes before after]) /\
    (forall h' es' pes', h_number h' = block_number_of b ->
       (try_enqueue q' h' es' pes').1 = Duplicate).
Proof.
  intros Hok Hp Hlp Hb Hn Hpar. pose proof (acc_inv _ (q_run_accounted ops Hok)) as I.
  set (q := (q_run ops).1) in *. pose proof (q_last_number q b I ltac:(by rewrite Hp)) as [Hbok _].
  assert (E : try_enqueue q h es pes = (Accepted, append (purge_from q 0) h es pes)).
  { unfold try_enqueue, enqueue_rest, enqueue_tail. rewrite Hp. cbn.
    rewrite (proj2 (Z.eqb_neq (block_number_of b) (h_number h))) by lia. cbn.
    rewrite (succ64_ok _ Hbok), Z.eqb_refl. rewrite (proj2 (Z.leb_gt _ _)) by lia.
    rewrite (proj2 (Z.ltb_ge _ _)) by lia. rewrite (proj2 (Z.eqb_neq _ _) Hpar). cbn.
    by rewrite Z.ltb_irrefl. }
  rewrite E. eexists. split; [done|]. split.
  - cbn. by do 2 eexists.
  - intros h' es' pes' Hn'. unfold try_enqueue, enqueue_rest, enqueue_tail. cbn. unfold block_number_of at 1.
    cbn. rewrite (proj2 (Z.eqb_neq (h_number h) (h_number h'))) by lia. cbn.
    unfold block_number_of at 1. cbn. by rewrite (proj2 (Z.leb_le _ _)) by lia.
Qed.
End proofs.

(** ** Witnesses: a run with two processed blocks, a reorg and a pending block *)

Module DepositQueueExamples.
Definition keccak (l : list Z) : Z := foldl (fun h x => (h * 31 + x + 1) mod 2 ^ 61) 7 l.
Definition enc_regular (x : DepositType * AbiDeposit * Z) : list Z :=
  let '(_, d, p) := x in [0; a_token d; a_sender d; a_to d; a_amount d; a_bouncebackRecipient d; a_memo d; p].
Definition enc_encrypted (x : DepositType * AbiEncryptedDeposit * Z) : list Z :=
  let '(_, d, p) := x in [1; ae_token d; ae_sender d; ae_amount d; ae_bouncebackRecipient d; ae_keyIndex d; p].

Definition dep (amount : Z) : L1PortalEvents :=
  from_deposits [Regular (mkDeposit 1 2 3 amount 0 4 0)].
Definition hd (n fork : Z) (parent : Z) : SealedHeader := mkHeader n (100 * n + fork) parent.

Definition run_ops : list q_op :=
  [QEnqueue (hd 10 0 0) (dep 5) []; QConfirm (mkNumHash 10 1000);
   QEnqueue (hd 11 0 1000) (dep 6) []; QEnqueue (hd 12 0 1100) (dep 7) [];
   QEnqueue (hd 11 1 1000) (dep 8) []].

Lemma run_ops_ok : Forall q_op_ok run_ops.
Proof. repeat constructor; cbn; unfold U64_MAX; lia. Defined.

Abbreviation run := (q_run keccak enc_regular enc_encrypted).

Lemma pending_contiguous_witness :
  linked (pending (run run_ops).1) /\ length (pending (run run_ops).1) = 1%nat.
Proof.
  split; [|by vm_compute].
  exact (proj1 (pending_contiguous keccak enc_regular enc_encrypted run_ops run_ops_ok)).
Defined.

Lemma queue_hash_exact_witness :
  processed_head_hash (run run_ops).1 <> 0 /\
  enqueued_head_hash (run run_ops).1 =
    chain_all keccak enc_regular enc_encrypted 0 (block_deposits ((run run_ops).2 ++ pending (run run_ops).1)).
Proof.
  split; [by vm_compute|].
  pose proof (queue_hash_exact keccak enc_regular enc_encrypted run_ops run_ops_ok) as H.
  destruct (run run_ops) as [q c]. exact (proj1 (proj2 H)).
Defined.

Lemma never_processed_twice_witness :
  increasing ((run run_ops).2 ++ pending (run run_ops).1) /\ length (run run_ops).2 = 1%nat.
Proof.
  split; [|by vm_compute].
  pose proof (never_processed_twice keccak enc_regular enc_encrypted run_ops run_ops_ok) as H.
  destruct (run run_ops) as [q c]. exact (proj1 H).
Defined.

Lemma enqueue_outcome_witness :
  outcome_spec (run run_ops).1 (hd 14 1 1301) (dep 9)
    (try_enqueue keccak enc_regular enc_encrypted (run run_ops).1 (hd 14 1 1301) (dep 9) []).
Proof. apply enqueue_outcome. exact run_ops_ok. Defined.
End DepositQueueExamples.
