(* ===== verification/TempoState.v ===== *)
(** * The TempoState precompile

    Models src/crates/precompiles/src/tempo_state.rs: the checkpoint of the
    last finalized Tempo block kept by the zone, its two storage layouts
    (native, and the packed layout of the Solidity predecessor), the one-time
    migration, and the storage reads pinned to the checkpoint.

    Parameters: Keccak-256, the RLP decoder of a header (the header and the
    bytes left), the ABI decoder of a call, the L1 reader of the node, and,
    from the [contract] macro, the slots of the two fields and the packing of
    a [u64] field into its slot.  The storage layer may fail at any access
    (gas, database): [faults] says which of the next accesses do.  A reverted
    or failed call drops every write, as the EVM frame does. *)

From S2P Require Import Prelude.
#[local] Open Scope Z_scope.

Definition LEGACY_PACKED_HEADER_SLOT : Z := 7.
Definition NATIVE_CODE_HASH : Z :=
  0x309b8896ee4c1ff7ec1966155373dee42663b6b40c3fedc70ba501684848d2a3.
Definition LEGACY_CODE_HASHES : list Z :=
  [0x018a4ed65d3fd50141b96bd8c93e34b4a5d24849a314bdd7992d3edbd6575367;
   0x02c851f19eb44ddfb0e740142bf17fcaaa9322fa90e672dcd40dc2f2772664a8;
   0xf97f0a7255f466a558d09772b5e31fc33ac4aebff10c59d7670e5ccc6cfce7ec].

Inductive StorageLayout := Native | Legacy.

(** What the precompile reads of a decoded Tempo header. *)
Record TempoHeader := mkTempoHeader { th_parent_hash : Z; th_number : Z; th_state_root : Z }.

Record TempoBlockFinalized := mkTempoBlockFinalized {
  ev_blockHash : Z; ev_blockNumber : Z; ev_stateRoot : Z
}.

Inductive TempoStateCalls :=
| tempoBlockHash
| tempoBlockNumber
| finalizeTempo (header : list Z)
| readTempoStorageSlot (account slot : Z)
| readTempoStorageSlots (account : Z) (slots : list Z).

Inductive Returns :=
| RetEmpty
| RetHash (h : Z)
| RetNumber (n : Z)
| RetSlot (v : Z)
| RetSlots (vs : list Z).

(** Reverts (with their ABI error), and the errors that leave the EVM. *)
Inductive TempoStateError :=
| DelegateCallNotAllowed
| StaticCallNotAllowed
| OnlyZoneInbox
| InvalidRlpData
| InvalidParentHash
| InvalidBlockNumber
| OnlySystemContracts
| UnknownCall
| UnsupportedCodeHash (code_hash : Z)
| GenesisHeaderError
| StorageFault
| ProviderError.

Record TempoSt := mkTempoSt {
  ts_slots : gmap Z Z;
  ts_code_hash : Z;
  ts_logs : list TempoBlockFinalized;
  faults : list bool
}.

Abbreviation T := (M TempoSt TempoStateError).

(** One access to the storage layer: it fails when the next fault says so. *)
Definition access : T unit := fun st =>
  match faults st with
  | true :: _ => Err StorageFault
  | _ => Ok (tt, mkTempoSt (ts_slots st) (ts_code_hash st) (ts_logs st) (tail (faults st)))
  end.

Definition sload (slot : Z) : T Z :=
  access ;; st ← get; mret (default 0 (ts_slots st !! slot)).
Definition sstore (slot value : Z) : T unit :=
  access ;; modify (fun st =>
    mkTempoSt (<[slot := value]> (ts_slots st)) (ts_code_hash st) (ts_logs st) (faults st)).

Definition storage_layout : T StorageLayout :=
  access ;; st ← get;
  if ts_code_hash st =? NATIVE_CODE_HASH then mret Native
  else if bool_decide (ts_code_hash st ∈ LEGACY_CODE_HASHES) then mret Legacy
  else throw (UnsupportedCodeHash (ts_code_hash st)).

(** [packed.as_limbs()[0]] *)
Definition low_limb (w : Z) : Z := Z.land w U64_MAX.

Definition is_system_caller (caller : Z) : bool :=
  (caller =? ZONE_INBOX_ADDRESS) || (caller =? ZONE_OUTBOX_ADDRESS) || (caller =? ZONE_CONFIG_ADDRESS).

Section tempo_state.
Context (keccak256 : list Z -> Z).
Context (decode_header : list Z -> option (TempoHeader * list Z)).
Context (abi_decode : list Z -> option TempoStateCalls).
Context (read_l1_storage : Z -> Z -> Z -> option Z).
Context (slot_TEMPO_BLOCK_HASH slot_TEMPO_BLOCK_NUMBER : Z).
Context (u64_unpack : Z -> Z) (u64_pack : Z -> Z -> Z).

(** [__initialize] of the macro: the account gets the marker code [0xef]. *)
Definition initialize_code : T unit :=
  access ;; modify (fun st =>
    mkTempoSt (ts_slots st) (keccak256 [0xef]) (ts_logs st) (faults st)).

Definition tempo_block_hash_read : T Z := sload slot_TEMPO_BLOCK_HASH.
Definition tempo_block_hash_write (h : Z) : T unit := sstore slot_TEMPO_BLOCK_HASH h.
Definition tempo_block_number_read : T Z :=
  w ← sload slot_TEMPO_BLOCK_NUMBER; mret (u64_unpack w).
Definition tempo_block_number_write (n : Z) : T unit :=
  w ← sload slot_TEMPO_BLOCK_NUMBER; sstore slot_TEMPO_BLOCK_NUMBER (u64_pack w n).

Definition write_checkpoint (header_rlp : list Z) (block_number : Z) : T Z :=
  let block_hash := keccak256 header_rlp in
  tempo_block_hash_write block_hash ;;
  tempo_block_number_write block_number ;;
  mret block_hash.

Definition initialize (header_rlp : list Z) : T unit :=
  initialize_code ;;
  match decode_header header_rlp with
  | None => throw GenesisHeaderError
  | Some (header, cursor) =>
      reject_if (negb (bool_decide (cursor = []))) GenesisHeaderError ;;
      write_checkpoint header_rlp (th_number header) ;;
      mret tt
  end.

Definition read_checkpoint_block_number (layout : StorageLayout) : T Z :=
  match layout with
  | Native => tempo_block_number_read
  | Legacy => packed ← sload LEGACY_PACKED_HEADER_SLOT; mret (low_limb packed)
  end.

Definition write_checkpoint_from_legacy (header_rlp : list Z) (block_number : Z) : T Z :=
  let block_hash := keccak256 header_rlp in
  initialize_code ;;
  tempo_block_hash_write block_hash ;;
  sstore slot_TEMPO_BLOCK_NUMBER block_number ;;
  sstore LEGACY_PACKED_HEADER_SLOT 0 ;;
  mret block_hash.

Definition emit_event (e : TempoBlockFinalized) : T unit :=
  access ;; modify (fun st =>
    mkTempoSt (ts_slots st) (ts_code_hash st) (ts_logs st ++ [e]) (faults st)).

Definition apply_checkpoint (is_static : bool) (sender : Z) (call_header : list Z)
    (layout : StorageLayout) : T Returns :=
  reject_if is_static StaticCallNotAllowed ;;
  reject_if (negb (sender =? ZONE_INBOX_ADDRESS)) OnlyZoneInbox ;;
  prev_block_hash ← tempo_block_hash_read;
  prev_block_number ← read_checkpoint_block_number layout;
  '(header, header_cursor) ← lift_option InvalidRlpData (decode_header call_header);
  reject_if (negb (bool_decide (header_cursor = []))) InvalidRlpData ;;
  reject_if (negb (th_parent_hash header =? prev_block_hash)) InvalidParentHash ;;
  reject_if (negb (th_number header =? saturating_add U64_MAX prev_block_number 1))
    InvalidBlockNumber ;;
  tempo_block_hash ← match layout with
                     | Legacy => write_checkpoint_from_legacy call_header (th_number header)
                     | Native => write_checkpoint call_header (th_number header)
                     end;
  emit_event (mkTempoBlockFinalized tempo_block_hash (th_number header) (th_state_root header)) ;;
  mret RetEmpty.

(** [provider.read_l1_storage(..)?] *)
Definition read_l1 (account slot block_number : Z) : T Z :=
  lift_option ProviderError (read_l1_storage account slot block_number).

Fixpoint read_all (account block_number : Z) (slots : list Z) (values : list Z) : T (list Z) :=
  match slots with
  | [] => mret values
  | slot :: slots' =>
      value ← read_l1 account slot block_number;
      read_all account block_number slots' (values ++ [value])
  end.

Definition read_tempo_storage_slot (sender account slot : Z) (layout : StorageLayout) : T Returns :=
  reject_if (negb (is_system_caller sender)) OnlySystemContracts ;;
  block_number ← read_checkpoint_block_number layout;
  value ← read_l1 account slot block_number;
  mret (RetSlot value).

Definition read_tempo_storage_slots (sender account : Z) (slots : list Z) (layout : StorageLayout)
    : T Returns :=
  reject_if (negb (is_system_caller sender)) OnlySystemContracts ;;
  block_number ← read_checkpoint_block_number layout;
  values ← read_all account block_number slots [];
  mret (RetSlots values).

Definition call_with_provider (is_static : bool) (calldata : list Z) (msg_sender : Z) : T Returns :=
  access ;; (* charge_input_cost *)
  layout ← storage_layout;
  call ← lift_option UnknownCall (abi_decode calldata);
  match call with
  | tempoBlockHash => h ← tempo_block_hash_read; mret (RetHash h)
  | tempoBlockNumber => n ← read_checkpoint_block_number layout; mret (RetNumber n)
  | finalizeTempo header => apply_checkpoint is_static msg_sender header layout
  | readTempoStorageSlot account slot => read_tempo_storage_slot msg_sender account slot layout
  | readTempoStorageSlots account slots => read_tempo_storage_slots msg_sender account slots layout
  end.

(** The registered precompile: only direct calls. *)
Record PrecompileInput := mkInput {
  in_direct : bool; in_static : bool; in_caller : Z; in_data : list Z
}.
Definition create (input : PrecompileInput) : T Returns :=
  reject_if (negb (in_direct input)) DelegateCallNotAllowed ;;
  call_with_provider (in_static input) (in_data input) (in_caller input).

(** ** The abstract checkpoint *)

Record Checkpoint := mkCheckpoint { cp_hash : Z; cp_number : Z }.

Definition slot (st : TempoSt) (k : Z) : Z := default 0 (ts_slots st !! k).

Definition layout_of (code_hash : Z) : option StorageLayout :=
  if code_hash =? NATIVE_CODE_HASH then Some Native
  else if bool_decide (code_hash ∈ LEGACY_CODE_HASHES) then Some Legacy else None.

(** The checkpoint a state stands for, in either layout. *)
Definition checkpoint (st : TempoSt) : option Checkpoint :=
  layout ← layout_of (ts_code_hash st);
  Some (mkCheckpoint (slot st slot_TEMPO_BLOCK_HASH)
          match layout with
          | Native => u64_unpack (slot st slot_TEMPO_BLOCK_NUMBER)
          | Legacy => low_limb (slot st LEGACY_PACKED_HEADER_SLOT)
          end).

(** The contract of the precompile on the abstract checkpoint: results and
    reverts of every call, with no storage, layouts or gas. *)
Definition spec_finalize (c : Checkpoint) (input : PrecompileInput) (rlp : list Z)
    : result TempoStateError (Returns * Checkpoint) :=
  if in_static input then Err StaticCallNotAllowed
  else if negb (in_caller input =? ZONE_INBOX_ADDRESS) then Err OnlyZoneInbox
  else match decode_header rlp with
       | Some (h, []) =>
           if negb (th_parent_hash h =? cp_hash c) then Err InvalidParentHash
           else if negb (th_number h =? Z.min U64_MAX (cp_number c + 1)) then Err InvalidBlockNumber
           else Ok (RetEmpty, mkCheckpoint (keccak256 rlp) (th_number h))
       | _ => Err InvalidRlpData
       end.

Definition spec_call (c : Checkpoint) (input : PrecompileInput)
    : result TempoStateError (Returns * Checkpoint) :=
  if negb (in_direct input) then Err DelegateCallNotAllowed
  else match abi_decode (in_data input) with
       | None => Err UnknownCall
       | Some tempoBlockHash => Ok (RetHash (cp_hash c), c)
       | Some tempoBlockNumber => Ok (RetNumber (cp_number c), c)
       | Some (finalizeTempo rlp) => spec_finalize c input rlp
       | Some (readTempoStorageSlot account slot) =>
           if negb (is_system_caller (in_caller input)) then Err OnlySystemContracts
           else match read_l1_storage account slot (cp_number c) with
                | Some v => Ok (RetSlot v, c)
                | None => Err ProviderError
                end
       | Some (readTempoStorageSlots account slots) =>
           if negb (is_system_caller (in_caller input)) then Err OnlySystemContracts
           else match mapM (fun slot => read_l1_storage account slot (cp_number c)) slots with
                | Some vs => Ok (RetSlots vs, c)
                | None => Err ProviderError
                end
       end.
End tempo_state.
