(* ===== verification/TempoStateProofs.v ===== *)
(** * TempoState keeps a verified chain of Tempo checkpoints

    A weakest-precondition calculus for the storage monad of TempoState.v,
    the refinement of the precompile to the abstract checkpoint, and the
    chain of finalized headers. *)

From S2P Require Import Prelude.
From S2P Require Import TempoState.
#[local] Open Scope Z_scope.

(** ** Weakest preconditions

    [Q] holds of a result, [R] of an error other than a storage fault; a
    storage fault needs a fault among the accesses to come. *)

Definition with_faults (fs : list bool) (st : TempoSt) : TempoSt :=
  mkTempoSt (ts_slots st) (ts_code_hash st) (ts_logs st) fs.

Definition wp {A} (m : T A) (Q : A -> TempoSt -> Prop) (R : TempoStateError -> Prop)
    (st : TempoSt) : Prop :=
  match m st with
  | Ok (a, st') => faults st' `suffix_of` faults st /\ Q a st'
  | Err StorageFault => true ∈ faults st
  | Err e => R e
  end.

Lemma wp_ret {A} (a : A) Q R st : Q a st -> wp (mret a) Q R st.
Proof. intros H. by split. Qed.

Lemma wp_bind {A B} (m : T A) (f : A -> T B) Q R st :
  wp m (fun a st' => wp (f a) Q R st') R st -> wp (mbind f m) Q R st.
Proof.
  unfold wp, mbind, M_bind. destruct (m st) as [[a st1]|e]; [|done].
  intros [Hs H]. destruct (f a st1) as [[b st2]|e]; [|destruct e; try done].
  - destruct H as [Hs2 H]. split; [by etransitivity|done].
  - destruct Hs as [k ->]. set_solver.
Qed.

Lemma wp_access Q R st : (forall fs, Q tt (with_faults fs st)) -> wp access Q R st.
Proof.
  intros H. unfold wp, access. destruct (faults st) as [|[] fs] eqn:E; [|set_solver|];
    (split; [cbn|apply H]).
  - done.
  - by apply suffix_cons_r.
Qed.

Lemma wp_reject b e Q R st :
  e <> StorageFault -> (b = true -> R e) -> (b = false -> Q tt st) -> wp (reject_if b e) Q R st.
Proof. intros He H1 H2. destruct b; [by destruct e; try apply H1|split; [done|by apply H2]]. Qed.

Lemma wp_lift {A} e (o : option A) Q R st :
  e <> StorageFault -> (o = None -> R e) -> (forall a, o = Some a -> Q a st) ->
  wp (lift_option e o) Q R st.
Proof. intros He H1 H2. destruct o; [split; [done|by apply H2]|by destruct e; try apply H1]. Qed.

Lemma wp_modify f Q R st :
  faults (f st) = faults st -> Q tt (f st) -> wp (modify f) Q R st.
Proof. intros Hf H. split; [|done]. cbn. by rewrite Hf. Qed.

Lemma wp_sload k Q R st :
  (forall fs, Q (slot st k) (with_faults fs st)) -> wp (sload k) Q R st.
Proof. intros H. apply wp_bind, wp_access. intros fs. split; [done|]. apply H. Qed.

Definition upd (k v : Z) (st : TempoSt) : TempoSt :=
  mkTempoSt (<[k := v]> (ts_slots st)) (ts_code_hash st) (ts_logs st) (faults st).

Lemma wp_sstore k v Q R st :
  (forall fs, Q tt (with_faults fs (upd k v st))) -> wp (sstore k v) Q R st.
Proof. intros H. apply wp_bind, wp_access. intros fs. split; [done|]. apply H. Qed.

Lemma wp_storage_layout Q R st :
  (forall layout fs, layout_of (ts_code_hash st) = Some layout -> Q layout (with_faults fs st)) ->
  (layout_of (ts_code_hash st) = None -> R (UnsupportedCodeHash (ts_code_hash st))) ->
  wp storage_layout Q R st.
Proof.
  intros H1 H2. apply wp_bind, wp_access. intros fs. apply wp_bind. split; [done|]. cbn.
  unfold layout_of in *. destruct (_ =? _); [split; [done|by apply H1]|].
  case_bool_decide; [split; [done|by apply H1]|by apply H2].
Qed.

(** One rule per step of an operation. *)
Ltac wp_step :=
  lazymatch goal with
  | |- wp (mbind _ _) _ _ _ => apply wp_bind
  | |- wp (mret _) _ _ _ => apply wp_ret
  | |- wp access _ _ _ => apply wp_access; intros ?
  | |- wp (sload _) _ _ _ => apply wp_sload; intros ?
  | |- wp (sstore _ _) _ _ _ => apply wp_sstore; intros ?
  | |- wp (modify _) _ _ _ => apply wp_modify; [done|]
  | |- wp (reject_if _ _) _ _ _ => apply wp_reject; [done|intros ?..]
  | |- wp (lift_option _ _) _ _ _ => apply wp_lift; [done|intros ?|intros ? ?]
  | |- wp storage_layout _ _ _ => apply wp_storage_layout; [intros ? ? ?|intros ?]
  end; cbv beta zeta.

Lemma slot_with_faults fs st k : slot (with_faults fs st) k = slot st k.
Proof. done. Qed.
Lemma slot_upd_eq k v st : slot (upd k v st) k = v.
Proof. unfold slot, upd. cbn. by rewrite lookup_insert_eq. Qed.
Lemma slot_upd_ne k k' v st : k <> k' -> slot (upd k v st) k' = slot st k'.
Proof. intros H. unfold slot, upd. cbn. by rewrite lookup_insert_ne. Qed.
#[export] Hint Rewrite slot_with_faults slot_upd_eq : zone.

(** ** Chains of headers *)

Section chain.
Context (keccak256 : list Z -> Z).
Context (decode_header : list Z -> option (TempoHeader * list Z)).

(** [rlps] leads from the checkpoint [c] to [c'], header by header. *)
Fixpoint chain (c : Checkpoint) (rlps : list (list Z)) (c' : Checkpoint) : Prop :=
  match rlps with
  | [] => c = c'
  | rlp :: rlps' => exists h, decode_header rlp = Some (h, []) /\ th_parent_hash h = cp_hash c /\
      th_number h = Z.min U64_MAX (cp_number c + 1) /\
      chain (mkCheckpoint (keccak256 rlp) (th_number h)) rlps' c'
  end.

Lemma chain_app c rlps rlps' c' :
  chain c (rlps ++ rlps') c' <-> exists m, chain c rlps m /\ chain m rlps' c'.
Proof.
  revert c. induction rlps as [|rlp rlps IH]; intros c; cbn; [naive_solver|].
  setoid_rewrite IH. naive_solver.
Qed.

Lemma chain_binds c1 c2 rlps1 rlps2 d1 d2 :
  (forall x y, keccak256 x = keccak256 y -> x = y) ->
  chain c1 rlps1 d1 -> chain c2 rlps2 d2 -> length rlps1 = length rlps2 ->
  cp_hash d1 = cp_hash d2 -> rlps1 = rlps2 /\ cp_hash c1 = cp_hash c2.
Proof.
  intros Hinj. revert rlps2 d1 d2. induction rlps1 as [|x l1 IH] using rev_ind;
    intros rlps2 d1 d2 H1 H2 Hlen Hd.
  { destruct rlps2; [|done]. cbn in *. by subst. }
  destruct rlps2 as [|y l2 _] using rev_ind; [rewrite length_app in Hlen; cbn in Hlen; lia|].
  rewrite !length_app in Hlen. cbn in Hlen.
  apply chain_app in H1 as (m1 & H1 & h1 & D1 & P1 & _ & <-).
  apply chain_app in H2 as (m2 & H2 & h2 & D2 & P2 & _ & <-).
  cbn in Hd. apply Hinj in Hd as ->. rewrite D1 in D2. injection D2 as <-.
  destruct (IH l2 m1 m2 H1 H2 ltac:(lia) ltac:(congruence)) as [-> ->]. done.
Qed.
End chain.

Section proofs.
Context (keccak256 : list Z -> Z).
Context (decode_header : list Z -> option (TempoHeader * list Z)).
Context (abi_decode : list Z -> option TempoStateCalls).
Context (read_l1_storage : Z -> Z -> Z -> option Z).
Context (slot_hash slot_number : Z).
Context (u64_unpack : Z -> Z) (u64_pack : Z -> Z -> Z).

(** What the code relies on of the macro, the hash and the decoder. *)
Record Platform : Prop := mkPlatform {
  pf_marker : keccak256 [0xef] = NATIVE_CODE_HASH;
  pf_slots : slot_hash <> slot_number /\ slot_hash <> LEGACY_PACKED_HEADER_SLOT /\
             slot_number <> LEGACY_PACKED_HEADER_SLOT;
  pf_pack : forall w n, in_u64 n -> u64_unpack (u64_pack w n) = n;
  pf_word : forall n, in_u64 n -> u64_unpack n = n;
  pf_header : forall rlp h rest, decode_header rlp = Some (h, rest) -> in_u64 (th_number h)
}.
Context (PF : Platform).

Abbreviation create :=
  (create keccak256 decode_header abi_decode read_l1_storage slot_hash slot_number u64_unpack u64_pack).
Abbreviation checkpoint := (checkpoint slot_hash slot_number u64_unpack).
Abbreviation spec_call := (spec_call keccak256 decode_header abi_decode read_l1_storage).
Abbreviation spec_finalize := (spec_finalize keccak256 decode_header).
Abbreviation chain := (chain keccak256 decode_header).

Lemma checkpoint_with_faults fs st : checkpoint (with_faults fs st) = checkpoint st.
Proof. done. Qed.

Lemma checkpoint_layout st layout c :
  layout_of (ts_code_hash st) = Some layout -> checkpoint st = Some c ->
  slot st slot_hash = cp_hash c /\
  match layout with
  | Native => u64_unpack (slot st slot_number)
  | Legacy => low_limb (slot st LEGACY_PACKED_HEADER_SLOT)
  end = cp_number c.
Proof. unfold checkpoint. intros -> [= <-]. by destruct layout. Qed.

Lemma wp_read_number layout c Q R st :
  layout_of (ts_code_hash st) = Some layout -> checkpoint st = Some c ->
  (forall fs, Q (cp_number c) (with_faults fs st)) ->
  wp (read_checkpoint_block_number slot_number u64_unpack layout) Q R st.
Proof.
  intros Hl Hc H. destruct (checkpoint_layout st layout c Hl Hc) as [_ Hn].
  destruct layout; unfold read_checkpoint_block_number, tempo_block_number_read;
    repeat wp_step; rewrite Hn; apply H.
Qed.

Lemma wp_read_hash layout c Q R st :
  layout_of (ts_code_hash st) = Some layout -> checkpoint st = Some c ->
  (forall fs, Q (cp_hash c) (with_faults fs st)) ->
  wp (tempo_block_hash_read slot_hash) Q R st.
Proof.
  intros Hl Hc H. destruct (checkpoint_layout st layout c Hl Hc) as [Hh _].
  unfold tempo_block_hash_read. wp_step. rewrite Hh. apply H.
Qed.

(** Both writers install the same checkpoint, in the native layout. *)
Lemma wp_write layout rlp n Q R st :
  layout_of (ts_code_hash st) = Some layout -> in_u64 n ->
  (forall st', checkpoint st' = Some (mkCheckpoint (keccak256 rlp) n) ->
     ts_code_hash st' = NATIVE_CODE_HASH -> ts_logs st' = ts_logs st -> Q (keccak256 rlp) st') ->
  wp match layout with
     | Legacy => write_checkpoint_from_legacy keccak256 slot_hash slot_number rlp n
     | Native => write_checkpoint keccak256 slot_hash slot_number u64_pack rlp n
     end Q R st.
Proof.
  intros Hl Hn H. destruct PF as [Hm (Hs1 & Hs2 & Hs3) Hpk Hw _].
  destruct layout; unfold write_checkpoint_from_legacy, write_checkpoint, initialize_code,
    tempo_block_hash_write, tempo_block_number_write; repeat wp_step; apply H; cbn; try done.
  - unfold checkpoint. cbn. rewrite Hl. cbn.
    repeat rewrite ?slot_with_faults, ?slot_upd_eq, ?slot_upd_ne by congruence. by rewrite Hpk.
  - unfold layout_of in Hl. destruct (Z.eqb_spec (ts_code_hash st) NATIVE_CODE_HASH); [done|].
    by case_bool_decide.
  - unfold checkpoint. cbn. rewrite Hm. cbn. unfold slot. cbn.
    rewrite !lookup_insert_ne, lookup_insert_eq by congruence. cbn.
    rewrite lookup_insert_ne, lookup_insert_eq by congruence. cbn. by rewrite Hw.
Qed.

Lemma wp_read_all account n slots values Q R st :
  match mapM (fun slot => read_l1_storage account slot n) slots with
  | Some vs => Q (values ++ vs) st
  | None => R ProviderError
  end ->
  wp (read_all read_l1_storage account n slots values) Q R st.
Proof.
  revert values. induction slots as [|s slots IH]; intros values H; cbn [read_all].
  - wp_step. cbn in H. by rewrite app_nil_r in H.
  - cbn in H. unfold read_l1. apply wp_bind, wp_lift; [done|intros E|intros v E]; rewrite E in H;
      [done|cbn in H].
    apply IH. destruct (mapM _ slots) as [vs|]; cbn in H; [|done]. by rewrite <- app_assoc.
Qed.

Lemma wp_finalize layout c input rlp st :
  layout_of (ts_code_hash st) = Some layout -> checkpoint st = Some c ->
  wp (apply_checkpoint keccak256 decode_header slot_hash slot_number u64_unpack u64_pack
        (in_static input) (in_caller input) rlp layout)
    (fun ret st' => exists c', spec_finalize c input rlp = Ok (ret, c') /\ checkpoint st' = Some c' /\
       ts_code_hash st' = NATIVE_CODE_HASH /\
       exists h, decode_header rlp = Some (h, []) /\
         ts_logs st' = ts_logs st ++ [mkTempoBlockFinalized (keccak256 rlp) (th_number h) (th_state_root h)])
    (fun e => spec_finalize c input rlp = Err e) st.
Proof.
  intros Hl Hc. unfold apply_checkpoint, TempoState.spec_finalize.
  do 2 wp_step; [by rewrite H|rewrite H]. do 2 wp_step; [by rewrite H0|rewrite H0].
  wp_step. apply (wp_read_hash layout c); [done..|intros fs1].
  wp_step. apply (wp_read_number layout c); [done..|intros fs2].
  do 2 wp_step; [by rewrite H1|]. destruct a as [h rest]. rewrite H1.
  do 2 wp_step; [case_bool_decide; [done|by destruct rest]|].
  apply negb_false_iff, bool_decide_eq_true in H2 as ->.
  do 2 wp_step; [by rewrite H2|rewrite H2]. unfold saturating_add.
  do 2 wp_step; [by rewrite H3|rewrite H3]. wp_step.
  apply wp_write; [done|by eapply PF|]. intros st' Hc' Hn' Hlog. unfold emit_event.
  repeat wp_step. eexists. split; [done|]. cbn. split; [done|]. split; [done|].
  exists h. by rewrite Hlog.
Qed.

(** What a call does to a state standing for the checkpoint [c]. *)
Definition refines_spec (c : Checkpoint) (input : PrecompileInput) (st : TempoSt) : Prop :=
  wp (create input)
    (fun ret st' => exists c', spec_call c input = Ok (ret, c') /\ checkpoint st' = Some c')
    (fun e => spec_call c input = Err e) st.

Lemma create_refines c input st : checkpoint st = Some c -> refines_spec c input st.
Proof.
  intros Hc. unfold refines_spec, TempoState.create, TempoState.spec_call, call_with_provider.
  do 2 wp_step; [by rewrite H|rewrite H]. do 2 wp_step. do 2 wp_step.
  2: { unfold TempoState.checkpoint in Hc. cbn in H0. by rewrite H0 in Hc. }
  do 2 wp_step; [by rewrite H1|rewrite H1]. cbn in H0. destruct a as [| |rlp|account k|account ks].
  - wp_step. apply (wp_read_hash layout c); [done..|intros ?]. wp_step. by exists c.
  - wp_step. apply (wp_read_number layout c); [done..|intros ?]. wp_step. by exists c.
  - pose proof (wp_finalize layout c input rlp (with_faults fs0 (with_faults fs st)) H0 Hc) as Hw.
    unfold wp in *. destruct (apply_checkpoint _ _ _ _ _ _ _ _ _ _ _) as [[ret st']|e]; [|done].
    destruct Hw as (Hs & c' & E & Hc' & _). split; [done|]. by exists c'.
  - unfold read_tempo_storage_slot. do 2 wp_step; [by rewrite H2|rewrite H2].
    wp_step. apply (wp_read_number layout c); [done..|intros ?]. unfold read_l1.
    do 2 wp_step; [by rewrite H3|]. wp_step. exists c. by rewrite H3.
  - unfold read_tempo_storage_slots. do 2 wp_step; [by rewrite H2|rewrite H2].
    wp_step. apply (wp_read_number layout c); [done..|intros ?]. wp_step. apply wp_read_all.
    destruct (mapM _ ks) as [vs|]; [|done]. wp_step. by exists c.
Qed.

(** C15. The precompile implements its contract on the abstract checkpoint,
    whichever layout the state is in, the call that migrates it included:
    whatever the caller, the calldata and the faults of the storage layer, a
    result is the contract's result and the new state stands for the
    contract's new checkpoint; an error is the contract's error, or a storage
    fault that did occur; and unknown code at the address serves no call. *)
Theorem tempo_state_refines st input :
  match checkpoint st, create input st with
  | Some c, Ok (ret, st') => exists c', spec_call c input = Ok (ret, c') /\ checkpoint st' = Some c'
  | Some c, Err StorageFault => true ∈ faults st
  | Some c, Err e => spec_call c input = Err e
  | None, r => is_ok r = false
  end.
Proof.
  destruct (checkpoint st) as [c|] eqn:Hc.
  - pose proof (create_refines c input st Hc) as H. unfold refines_spec, wp in H.
    destruct (create input st) as [[ret st']|e]; [by destruct H|done].
  - assert (Hl : layout_of (ts_code_hash st) = None).
    { unfold TempoState.checkpoint in Hc. by destruct (layout_of (ts_code_hash st)). }
    assert (H : wp (create input) (fun _ _ => False) (fun _ => True) st).
    { unfold TempoState.create, call_with_provider. do 2 wp_step; [done|]. do 2 wp_step.
      do 2 wp_step; [cbn in *; congruence|done]. }
    unfold wp in H. destruct (create input st) as [[ret st']|e]; [by destruct H|done].
Qed.

(** ** Runs *)

(** A run of calls, each with its own storage faults; a failed call leaves
    the state as it was.  The second component collects the headers of the
    successful finalizations. *)
Definition finalized_header (input : PrecompileInput) : list (list Z) :=
  match abi_decode (in_data input) with Some (finalizeTempo rlp) => [rlp] | _ => [] end.

Fixpoint run (ops : list (PrecompileInput * list bool)) (st : TempoSt) : TempoSt * list (list Z) :=
  match ops with
  | [] => (st, [])
  | (input, fs) :: ops' =>
      match create input (with_faults fs st) with
      | Ok (_, st') => let '(st'', rlps) := run ops' st' in (st'', finalized_header input ++ rlps)
      | Err _ => run ops' st
      end
  end.

Lemma spec_finalize_Ok c input rlp ret c' :
  spec_finalize c input rlp = Ok (ret, c') -> chain c [rlp] c' /\
  in_static input = false /\ in_caller input = ZONE_INBOX_ADDRESS.
Proof.
  unfold TempoState.spec_finalize. destruct (in_static input); [done|].
  destruct (Z.eqb_spec (in_caller input) ZONE_INBOX_ADDRESS); [|done]. cbn.
  destruct (decode_header rlp) as [[h [|]]|]; try done.
  destruct (Z.eqb_spec (th_parent_hash h) (cp_hash c)); [|done].
  destruct (Z.eqb_spec (th_number h) (U64_MAX `min` (cp_number c + 1))); [|done].
  intros [= <- <-]. eauto 10.
Qed.

Lemma spec_call_Ok c input ret c' :
  spec_call c input = Ok (ret, c') -> chain c (finalized_header input) c' /\
  (finalized_header input <> [] ->
     in_direct input = true /\ in_static input = false /\ in_caller input = ZONE_INBOX_ADDRESS).
Proof.
  unfold TempoState.spec_call, finalized_header. destruct (in_direct input); [|done]. cbn.
  destruct (abi_decode (in_data input)) as [[| |rlp|a k|a ks]|]; try done.
  - by intros [= <- <-].
  - by intros [= <- <-].
  - intros [Hch ?]%spec_finalize_Ok. done.
  - destruct (negb _); [done|]. destruct (read_l1_storage _ _ _); [|done]. by intros [= <- <-].
  - destruct (negb _); [done|]. destruct (mapM _ _); [|done]. by intros [= <- <-].
Qed.

Lemma run_chain ops st c :
  checkpoint st = Some c ->
  exists c', checkpoint (run ops st).1 = Some c' /\ chain c (run ops st).2 c'.
Proof.
  revert st c. induction ops as [|[input fs] ops IH]; intros st c Hc; cbn [run].
  { by exists c. }
  pose proof (create_refines c input (with_faults fs st) Hc) as H. unfold refines_spec, wp in H.
  destruct (create input (with_faults fs st)) as [[ret st1]|e]; [|by apply IH].
  destruct H as (_ & c1 & [Hch _]%spec_call_Ok & Hc1). specialize (IH st1 c1 Hc1).
  destruct (run ops st1) as [st2 rlps]. destruct IH as (c2 & Hc2 & Hr).
  exists c2. split; [done|]. apply chain_app. by exists c1.
Qed.

(** Over any history of calls, from any callers and with any faults, the
    checkpoint moves only along a chain of Tempo headers: every finalized
    header decodes with no trailing bytes, names the previous checkpoint's
    hash as its parent and follows its number (saturating at the 64-bit
    maximum), and the stored checkpoint is the last header's hash and
    number. *)
Theorem checkpoint_chain ops st c :
  checkpoint st = Some c ->
  let '(st', rlps) := run ops st in
  exists c', checkpoint st' = Some c' /\ chain c rlps c'.
Proof. intros (c' & H)%(run_chain ops). destruct (run ops st). by exists c'. Qed.

(** The checkpoint hash commits to the history: with a collision-free
    hash, any two histories of calls (on either layout, with any rejected
    calls and faults in between) that finalized equally many headers and end
    with the same checkpoint hash finalized the same headers, in the same
    order, from the same initial hash. *)
Theorem checkpoint_binds_history ops1 ops2 st1 st2 c1 c2 :
  (forall x y, keccak256 x = keccak256 y -> x = y) ->
  checkpoint st1 = Some c1 -> checkpoint st2 = Some c2 ->
  length (run ops1 st1).2 = length (run ops2 st2).2 ->
  cp_hash <$> checkpoint (run ops1 st1).1 = cp_hash <$> checkpoint (run ops2 st2).1 ->
  (run ops1 st1).2 = (run ops2 st2).2 /\ cp_hash c1 = cp_hash c2.
Proof.
  intros Hinj (d1 & E1 & H1)%(run_chain ops1) (d2 & E2 & H2)%(run_chain ops2) Hlen Hd.
  rewrite E1, E2 in Hd. apply (inj Some) in Hd.
  by apply (chain_binds _ _ c1 c2 _ _ d1 d2 Hinj H1 H2 Hlen).
Qed.

(** Nobody but the inbox moves the checkpoint: a call that is delegated,
    static or from another address leaves the checkpoint as it was. *)
Theorem only_inbox_finalizes st c input ret st' :
  checkpoint st = Some c -> create input st = Ok (ret, st') ->
  in_direct input = false \/ in_static input = true \/ in_caller input <> ZONE_INBOX_ADDRESS ->
  checkpoint st' = Some c.
Proof.
  intros Hc E Hno. pose proof (create_refines c input st Hc) as H. unfold refines_spec, wp in H.
  rewrite E in H. destruct H as (_ & c1 & [Hch Hin]%spec_call_Ok & ->).
  destruct (finalized_header input) as [|x l]; [cbn in Hch; by subst|].
  destruct (Hin ltac:(done)) as (H1 & H2 & H3). destruct Hno as [?|[?|?]]; congruence.
Qed.

End proofs.

(** ** Witnesses: a legacy deployment that migrates on its first finalization *)

Module TempoStateExamples.
Definition hash (l : list Z) : Z := NATIVE_CODE_HASH + Z.pos (encode l).
Definition keccak (l : list Z) : Z := if bool_decide (l = [0xef]) then NATIVE_CODE_HASH else hash l.
Definition decode_hdr (rlp : list Z) : option (TempoHeader * list Z) :=
  match rlp with
  | p :: n :: r :: rest =>
      if (0 <=? n) && (n <=? U64_MAX) then Some (mkTempoHeader p n r, rest) else None
  | _ => None
  end.
Definition abi (d : list Z) : option TempoStateCalls :=
  match d with
  | [0] => Some tempoBlockHash
  | [1] => Some tempoBlockNumber
  | 2 :: rlp => Some (finalizeTempo rlp)
  | [3; a; k] => Some (readTempoStorageSlot a k)
  | 4 :: a :: ks => Some (readTempoStorageSlots a ks)
  | _ => None
  end.
Definition l1 (a k n : Z) : option Z := if k =? 99 then None else Some (a + k + n).
Definition unpack (w : Z) : Z := w mod 2 ^ 64.
Definition pack (w n : Z) : Z := w / 2 ^ 64 * 2 ^ 64 + n.

Lemma platform : Platform keccak decode_hdr 0 1 unpack pack.
Proof.
  split.
  - by vm_compute.
  - by vm_compute.
  - intros w n Hn. unfold unpack, pack. unfold in_u64, U64_MAX in Hn.
    rewrite Z.add_comm, Z.mod_add by lia. apply Z.mod_small. lia.
  - intros n Hn. unfold in_u64, U64_MAX in Hn. apply Z.mod_small. lia.
  - intros rlp h rest. unfold decode_hdr. destruct rlp as [|p [|n [|r l]]]; try done.
    destruct (Z.leb_spec 0 n), (Z.leb_spec n U64_MAX); cbn; try done. intros [= <- <-]. by split.
Defined.

(** The packed legacy word: number 41 below gas and timestamp fields. *)
Definition legacy_st : TempoSt :=
  mkTempoSt {[0 := 777; 1 := 2 ^ 64 * 30000000; 7 := 41 + 2 ^ 64 * 30000000]}
    0xf97f0a7255f466a558d09772b5e31fc33ac4aebff10c59d7670e5ccc6cfce7ec [] [].
Definition rlp42 : list Z := [777; 42; 5].
Definition rlp43 : list Z := [keccak rlp42; 43; 6].
Definition fin (rlp : list Z) : PrecompileInput := mkInput true false ZONE_INBOX_ADDRESS (2 :: rlp).

Abbreviation run_ex := (run keccak decode_hdr abi l1 0 1 unpack pack).
Abbreviation create_ex := (create keccak decode_hdr abi l1 0 1 unpack pack).
Abbreviation checkpoint_ex := (checkpoint 0 1 unpack).

Lemma tempo_state_refines_witness :
  checkpoint_ex legacy_st = Some (mkCheckpoint 777 41) /\
  exists st' c', create_ex (fin rlp42) legacy_st = Ok (RetEmpty, st') /\
    spec_call keccak decode_hdr abi l1 (mkCheckpoint 777 41) (fin rlp42) = Ok (RetEmpty, c') /\
    checkpoint_ex st' = Some c'.
Proof.
  split; [by vm_compute|].
  pose proof (tempo_state_refines keccak decode_hdr abi l1 0 1 unpack pack platform
                legacy_st (fin rlp42)) as H.
  destruct (create_ex (fin rlp42) legacy_st) as [[ret st']|e] eqn:E; [|by vm_compute in E].
  assert (ret = RetEmpty) as -> by (vm_compute in E; congruence).
  change (checkpoint_ex legacy_st) with (Some (mkCheckpoint 777 41)) in H.
  destruct H as (c' & H1 & H2). by exists st', c'.
Defined.

(** A rejected skip, a fault, the migration and the next header. *)
Definition history : list (PrecompileInput * list bool) :=
  [(fin rlp43, []); (fin rlp42, [false; false; true]); (fin rlp42, []); (fin rlp43, [])].

Lemma checkpoint_chain_witness :
  (run_ex history legacy_st).2 = [rlp42; rlp43] /\
  exists c', checkpoint_ex (run_ex history legacy_st).1 = Some c' /\
    chain keccak decode_hdr (mkCheckpoint 777 41) (run_ex history legacy_st).2 c'.
Proof.
  split; [by vm_compute|].
  pose proof (checkpoint_chain keccak decode_hdr abi l1 0 1 unpack pack platform history legacy_st
    (mkCheckpoint 777 41) ltac:(by vm_compute)) as H.
  by destruct (run_ex history legacy_st) as [st' rlps].
Defined.

Lemma only_inbox_finalizes_witness :
  exists st', create_ex (mkInput true true 5 [1]) legacy_st = Ok (RetNumber 41, st') /\
              checkpoint_ex st' = Some (mkCheckpoint 777 41).
Proof.
  eexists. split; [vm_compute; reflexivity|].
  apply (only_inbox_finalizes keccak decode_hdr abi l1 0 1 unpack pack platform legacy_st
    (mkCheckpoint 777 41) (mkInput true true 5 [1]) (RetNumber 41)); [by vm_compute|by vm_compute|].
  right. by left.
Defined.

Lemma keccak_inj x y : keccak x = keccak y -> x = y.
Proof.
  unfold keccak, hash. do 2 case_bool_decide; subst; try lia; [done|].
  intros E. apply (inj encode). lia.
Qed.

(** A history with a rejected call and a fault, and one without. *)
Lemma checkpoint_binds_history_witness :
  (run_ex history legacy_st).2 = (run_ex [(fin rlp42, []); (fin rlp43, [])] legacy_st).2 /\ 777 = 777.
Proof.
  apply (checkpoint_binds_history keccak decode_hdr abi l1 0 1 unpack pack platform history
    [(fin rlp42, []); (fin rlp43, [])] legacy_st legacy_st (mkCheckpoint 777 41)
    (mkCheckpoint 777 41) keccak_inj); by vm_compute.
Defined.
End TempoStateExamples.
