(* ===== verification/ZoneTip20.v ===== *)
(** * The zone TIP-20 wrapper

    Models src/crates/precompiles/src/ztip20/ (mod.rs and dispatch.rs): the
    checks the zone puts in front of the vanilla TIP-20 token (transfer and
    mint policies, private reads, separated bridge roles) and the fixed gas
    of the transfer family.  The vanilla token, the ABI decoders and the
    sequencer lookup are parameters; the policy provider is any instance of
    [PolicyCheck]. *)

From S2P Require Import Prelude.
From S2P Require Import Policy.
From S2P Require Import PolicyProvider.
From S2P Require Import PolicyCheck.
From S2P Require Import TempoState.
#[local] Open Scope Z_scope.

Definition FIXED_TRANSFER_GAS : Z := 100000.

Inductive Selector :=
| balanceOf | allowance
| transfer | transferFrom | transferWithMemo | transferFromWithMemo | approve
| mint | mintWithMemo | burn | burnWithMemo
| userRewardInfo | getPendingRewards | hasRole
| OtherSelector.
#[export] Instance Selector_eq_dec : EqDecision Selector.
Proof. solve_decision. Defined.

Inductive Bytes :=
| NoBytes
| Raw (bytes : list Z)
| ErrUnauthorized
| ErrRolesUnauthorized
| ErrPolicyForbids
| ErrDelegateCallNotAllowed.

Abbreviation PrecompileResult := (result PrecompileError (Output Bytes)).

(** The ABI decoders of the arguments each check reads. *)
Record Abi := mkAbi {
  abi_selector : list Z -> option Selector;
  abi_account : Selector -> list Z -> option Z;
  abi_allowance : list Z -> option (Z * Z);
  abi_to : Selector -> list Z -> option Z;
  abi_from_to : Selector -> list Z -> option (Z * Z)
}.

Definition is_fixed_gas_selector (s : Selector) : bool :=
  match s with
  | transfer | transferFrom | transferWithMemo | transferFromWithMemo | approve => true
  | _ => false
  end.

Definition apply_fixed_gas (r : PrecompileResult) : PrecompileResult :=
  match r with
  | Ok output => Ok (mkOutput (o_status output) FIXED_TRANSFER_GAS (o_bytes output))
  | Err e => Err e
  end.

Section ztip20.
Context {S W E : Type} `{PolicyCheck S}.
Context (abi : Abi) (input_cost : list Z -> Z).
(** The vanilla token at this address. *)
Context (is_initialized : W -> GasCtx -> result E bool * GasCtx).
Context (uninitialized : E) (error_result : GasCtx -> E -> PrecompileResult).
Context (tip20_call : GasCtx -> bool -> list Z -> Z -> W -> PrecompileResult * W).
(** Whether a registry is configured, and the sequencer lookup. *)
Context (registry : bool) (latest_sequencer : option Z).

Definition is_sequencer (caller : Z) : bool :=
  match latest_sequencer with Some sequencer => caller =? sequencer | None => false end.

Definition revert_output (g : GasCtx) (b : Bytes) : Output Bytes := mkOutput Reverted (gas_used g) b.

Definition policy_forbids_output : Output Bytes :=
  mkOutput Reverted Tip403Proxy.AUTH_CHECK_GAS ErrPolicyForbids.

Definition enforce_balance_of (g : GasCtx) (account caller : Z) : option PrecompileResult :=
  if (caller =? account) || is_sequencer caller then None
  else Some (Ok (revert_output g ErrUnauthorized)).

Definition enforce_allowance (g : GasCtx) (owner spender caller : Z) : option PrecompileResult :=
  if (caller =? owner) || (caller =? spender) || is_sequencer caller then None
  else Some (Ok (revert_output g ErrUnauthorized)).

Definition enforce_transfer (token from to : Z) (s : S) : option PrecompileResult * S :=
  if negb registry then (None, s)
  else
    match Tip403Proxy.registry_resolve_transfer_policy_id token s with
    | (Err e, s) => (Some (Err e), s)
    | (Ok policy_id, s) =>
        match Tip403Proxy.is_transfer_authorized policy_id from to s with
        | (Ok true, s) => (None, s)
        | (Ok false, s) => (Some (Ok policy_forbids_output), s)
        | (Err e, s) => (Some (Err e), s)
        end
    end.

Definition enforce_mint (token to : Z) (s : S) : option PrecompileResult * S :=
  if negb registry then (None, s)
  else
    match Tip403Proxy.registry_resolve_transfer_policy_id token s with
    | (Err _, s) => (None, s)
    | (Ok policy_id, s) =>
        match Tip403Proxy.registry_is_authorized policy_id to MintRecipient s with
        | (Ok true, s) => (None, s)
        | (Ok false, s) => (Some (Ok policy_forbids_output), s)
        | (Err e, s) => (Some (Err e), s)
        end
    end.

Definition reject_crossed_mint_caller (g : GasCtx) (caller : Z) : option PrecompileResult :=
  if caller =? ZONE_OUTBOX_ADDRESS then Some (Ok (revert_output g ErrRolesUnauthorized)) else None.

Definition reject_crossed_burn_caller (g : GasCtx) (caller : Z) : option PrecompileResult :=
  if caller =? ZONE_INBOX_ADDRESS then Some (Ok (revert_output g ErrRolesUnauthorized)) else None.

(** [decode_or_revert!] *)
Definition decode_or_revert {A} (g : GasCtx) (o : option A) (s : S)
    (k : A -> option PrecompileResult * S) : option PrecompileResult * S :=
  match o with
  | Some a => k a
  | None => (Some (Ok (revert_output g NoBytes)), s)
  end.

Definition precheck (g : GasCtx) (selector : Selector) (address : Z) (data : list Z) (caller : Z)
    (s : S) : option PrecompileResult * S :=
  let args := drop 4 data in
  match selector with
  | balanceOf | userRewardInfo | getPendingRewards | hasRole =>
      decode_or_revert g (abi_account abi selector args) s
        (fun account => (enforce_balance_of g account caller, s))
  | allowance =>
      decode_or_revert g (abi_allowance abi args) s
        (fun '(owner, spender) => (enforce_allowance g owner spender caller, s))
  | transfer | transferWithMemo =>
      decode_or_revert g (abi_to abi selector args) s
        (fun to => enforce_transfer address caller to s)
  | transferFrom | transferFromWithMemo =>
      decode_or_revert g (abi_from_to abi selector args) s
        (fun '(from, to) => enforce_transfer address from to s)
  | mint | mintWithMemo =>
      match reject_crossed_mint_caller g caller with
      | Some revert => (Some revert, s)
      | None => decode_or_revert g (abi_to abi selector args) s
                  (fun to => enforce_mint address to s)
      end
  | burn | burnWithMemo => (reject_crossed_burn_caller g caller, s)
  | approve | OtherSelector => (None, s)
  end.

Definition add_input_cost (g : GasCtx) (calldata : list Z) (result : PrecompileResult)
    : PrecompileResult :=
  match deduct_gas g (input_cost calldata) with
  | None => Ok (mkOutput HaltedOutOfGas (gas_used g) NoBytes)
  | Some g' =>
      let input_gas := saturating_sub (gas_used g') (gas_used g) in
      match result with
      | Ok output =>
          Ok (mkOutput (o_status output) (saturating_add U64_MAX (o_gas_used output) input_gas)
                (o_bytes output))
      | Err e => Err e
      end
  end.

Record Input := mkZInput {
  z_direct : bool; z_static : bool; z_caller : Z; z_gas : Z; z_data : list Z
}.

Definition ensure_initialized (w : W) (g : GasCtx) : result E unit * GasCtx :=
  match is_initialized w g with
  | (Ok true, g) => (Ok tt, g)
  | (Ok false, g) => (Err uninitialized, g)
  | (Err e, g) => (Err e, g)
  end.

(** The registered precompile for the token at [address]. *)
Definition ztip20_create (address : Z) (input : Input) (s : S) (w : W) : PrecompileResult * S * W :=
  if negb (z_direct input) then (Ok (mkOutput Reverted 0 ErrDelegateCallNotAllowed), s, w)
  else
    let selector := abi_selector abi (z_data input) in
    let is_fixed_gas := match selector with Some x => is_fixed_gas_selector x | None => false end in
    if is_fixed_gas && (z_gas input <? FIXED_TRANSFER_GAS) then
      (Ok (mkOutput HaltedOutOfGas 0 NoBytes), s, w)
    else
      let g := mkGas (if is_fixed_gas then U64_MAX else z_gas input) 0 in
      let finish r := if is_fixed_gas then apply_fixed_gas r else r in
      match ensure_initialized w g with
      | (Err err, g) => (finish (add_input_cost g (z_data input) (error_result g err)), s, w)
      | (Ok tt, g) =>
          let '(pre, s) :=
            match selector with
            | Some x => precheck g x address (z_data input) (z_caller input) s
            | None => (None, s)
            end in
          match pre with
          | Some revert => (finish (add_input_cost g (z_data input) revert), s, w)
          | None =>
              let '(r, w') := tip20_call g (z_static input) (z_data input) (z_caller input) w in
              (finish r, s, w')
          end
      end.
End ztip20.
