(* ===== verification/ZoneTip20Proofs.v ===== *)
(** * What the zone TIP-20 wrapper guarantees

    Proved against the laws of [PolicyCheck], for any vanilla token, decoders
    and sequencer lookup: authorization of transfers and mints, privacy of
    reads, separation of the bridge roles. *)

From S2P Require Import Prelude.
From S2P Require Import Policy.
From S2P Require Import PolicyCache.
From S2P Require Import PolicyProvider.
From S2P Require Import PolicyCheck.
From S2P Require Import TempoState.
From S2P Require Import ZoneTip20.
#[local] Open Scope Z_scope.

Section proofs.
Context {S W E : Type} `{PolicyCheck S}.
Context (Inv : S -> Prop) (policy_of : Z -> Z) (allows : Z -> Z -> AuthRole -> bool).
Context `{!PolicyCheckLaws S Inv policy_of allows}.
Context (abi : Abi) (input_cost : list Z -> Z).
Context (is_initialized : W -> GasCtx -> result E bool * GasCtx).
Context (uninitialized : E) (error_result : GasCtx -> E -> PrecompileResult).
Context (tip20_call : GasCtx -> bool -> list Z -> Z -> W -> PrecompileResult * W).
Context (registry : bool) (latest_sequencer : option Z).

(** An error of the token is not reported as a success. *)
Definition errors_fail : Prop :=
  forall g e out, error_result g e = Ok out -> o_status out <> Succeeded.

Abbreviation create := (ztip20_create abi input_cost is_initialized uninitialized error_result
                          tip20_call registry latest_sequencer).
Abbreviation precheck := (precheck abi registry latest_sequencer).
Abbreviation is_sequencer := (is_sequencer latest_sequencer).

Definition succeeded (r : PrecompileResult) : Prop :=
  exists out, r = Ok out /\ o_status out = Succeeded.

Lemma not_succeeded_fixed r : succeeded (apply_fixed_gas r) -> succeeded r.
Proof. intros (out & E1 & E2). destruct r as [o|]; [|done]. cbn in E1. simplify_eq. by exists o. Qed.

Lemma not_succeeded_input g d r : succeeded (add_input_cost input_cost g d r) -> succeeded r.
Proof.
  intros (out & E1 & E2). unfold add_input_cost in E1. destruct (deduct_gas _ _); [|by simplify_eq].
  destruct r as [o|]; [|done]. cbn in E1. simplify_eq. by exists o.
Qed.

(** Every result of a precheck that stops the call is a failure. *)
Definition is_failure (r : PrecompileResult) : Prop := ~ succeeded r.

Lemma revert_failure g b : is_failure (Ok (revert_output g b)).
Proof. by intros (out & [= <-] & E2). Qed.
Lemma forbids_failure : is_failure (Ok policy_forbids_output).
Proof. by intros (out & [= <-] & E2). Qed.
Lemma err_failure e : is_failure (Err e).
Proof. by intros (out & E1 & E2). Qed.
#[local] Hint Resolve revert_failure forbids_failure err_failure : zone.

Lemma enforce_transfer_spec token from to s :
  registry = true -> Inv s ->
  let '(pre, s') := enforce_transfer registry token from to s in
  Inv s' /\
  match pre with
  | None => allows (policy_of token) from Sender = true /\ allows (policy_of token) to Recipient = true
  | Some r => is_failure r /\
      (allows (policy_of token) from Sender = true -> allows (policy_of token) to Recipient = true ->
       r = Err Fatal)
  end.
Proof.
  intros Hreg Hs. unfold enforce_transfer. rewrite Hreg. cbn.
  unfold Tip403Proxy.registry_resolve_transfer_policy_id.
  destruct (law_resolve token s Hs) as [H1 Hid].
  destruct (pc_resolve_transfer_policy_id token s) as [[id|[]] s1]; cbn in *;
    [|split; [done|]; split; [apply err_failure|done]].
  rewrite <- (Hid id eq_refl). unfold Tip403Proxy.is_transfer_authorized, Tip403Proxy.registry_is_authorized.
  destruct (law_is_authorized id from Sender s1 H1) as [H2 Ha].
  destruct (pc_is_authorized id from Sender s1) as [[[]|[]] s2]; cbn in *;
    [rewrite <- (Ha true eq_refl)|rewrite <- (Ha false eq_refl)|];
    [|split; [done|]; split; [apply forbids_failure|done]|split; [done|]; split; [apply err_failure|done]].
  destruct (law_is_authorized id to Recipient s2 H2) as [H3 Hb].
  destruct (pc_is_authorized id to Recipient s2) as [[[]|[]] s3]; cbn in *.
  - by rewrite <- (Hb true eq_refl).
  - rewrite <- (Hb false eq_refl). split; [done|]. split; [apply forbids_failure|done].
  - split; [done|]. split; [apply err_failure|done].
Qed.

(** The parties of a transfer call: its sender is the caller, or the [from]
    argument. *)
Definition transfer_parties (sel : Selector) (caller : Z) (data : list Z) : option (Z * Z) :=
  match sel with
  | transfer | transferWithMemo => (fun to => (caller, to)) <$> abi_to abi sel (drop 4 data)
  | transferFrom | transferFromWithMemo => abi_from_to abi sel (drop 4 data)
  | _ => None
  end.
Definition is_transfer (sel : Selector) : bool :=
  match sel with
  | transfer | transferWithMemo | transferFrom | transferFromWithMemo => true
  | _ => false
  end.

Lemma precheck_transfer g sel address data caller s :
  registry = true -> Inv s -> is_transfer sel = true ->
  let '(pre, s') := precheck g sel address data caller s in
  Inv s' /\
  match pre with
  | None => exists from to, transfer_parties sel caller data = Some (from, to) /\
      allows (policy_of address) from Sender = true /\ allows (policy_of address) to Recipient = true
  | Some r => is_failure r /\
      (forall from to, transfer_parties sel caller data = Some (from, to) ->
         allows (policy_of address) from Sender = true -> allows (policy_of address) to Recipient = true ->
         r = Err Fatal)
  end.
Proof.
  intros Hreg Hs Hsel. unfold ZoneTip20.precheck, decode_or_revert, transfer_parties.
  assert (Hx : forall f d,
    let '(pre, s') := enforce_transfer registry address f d s in Inv s' /\
    match pre with
    | None => exists from to, Some (f, d) = Some (from, to) /\
        allows (policy_of address) from Sender = true /\ allows (policy_of address) to Recipient = true
    | Some r => is_failure r /\
        (forall from to, Some (f, d) = Some (from, to) ->
           allows (policy_of address) from Sender = true ->
           allows (policy_of address) to Recipient = true -> r = Err Fatal)
    end).
  { intros f d. pose proof (enforce_transfer_spec address f d s Hreg Hs) as He.
    destruct (enforce_transfer registry address f d s) as [[r|] s']; (split; [apply He|]).
    - split; [apply He|]. intros ? ? [= <- <-]. apply He.
    - exists f, d. split; [done|]. apply He. }
  pose proof (revert_failure g NoBytes). destruct sel; try done;
    first [ destruct (abi_to abi _ _) as [d|]; [apply Hx|by split]
          | destruct (abi_from_to abi _ _) as [[f d]|]; [apply Hx|by split] ].
Qed.

(** The ways a call can end. *)
Definition finish (sel : Selector) (r : PrecompileResult) : PrecompileResult :=
  if is_fixed_gas_selector sel then apply_fixed_gas r else r.

Inductive ending (sel : Selector) (address : Z) (input : Input) (s : S) (w : W)
  : PrecompileResult -> S -> W -> Prop :=
| EndEarly st b :
    st <> Succeeded ->
    z_direct input = false \/ is_fixed_gas_selector sel = true /\ z_gas input < FIXED_TRANSFER_GAS ->
    ending sel address input s w (Ok (mkOutput st 0 b)) s w
| EndUninitialized g g' e :
    ensure_initialized is_initialized uninitialized w g = (Err e, g') ->
    ending sel address input s w
      (finish sel (add_input_cost input_cost g' (z_data input) (error_result g' e))) s w
| EndChecked g r s' :
    precheck g sel address (z_data input) (z_caller input) s = (Some r, s') ->
    ending sel address input s w (finish sel (add_input_cost input_cost g (z_data input) r)) s' w
| EndVanilla g r s' w' :
    precheck g sel address (z_data input) (z_caller input) s = (None, s') ->
    tip20_call g (z_static input) (z_data input) (z_caller input) w = (r, w') ->
    ending sel address input s w (finish sel r) s' w'.

Lemma create_ending address input s w sel :
  abi_selector abi (z_data input) = Some sel ->
  let '(r, s', w') := create address input s w in ending sel address input s w r s' w'.
Proof.
  intros Hsel. unfold ztip20_create. rewrite Hsel. fold (finish sel).
  destruct (z_direct input) eqn:Ed; cbn [negb]; [|by apply EndEarly; [|left]].
  destruct (is_fixed_gas_selector sel && (z_gas input <? FIXED_TRANSFER_GAS)) eqn:Eg.
  { apply andb_prop in Eg as [Eg Hg%Z.ltb_lt]. apply EndEarly; [done|]. by right. }
  destruct (ensure_initialized _ _ _ _) as [[[]|e] g'] eqn:Ei.
  - destruct (precheck g' sel address (z_data input) (z_caller input) s) as [[r|] s'] eqn:Ep.
    + by apply EndChecked.
    + destruct (tip20_call g' (z_static input) (z_data input) (z_caller input) w) as [r w'] eqn:Et.
      by eapply EndVanilla.
  - by eapply EndUninitialized.
Qed.

Lemma finish_succeeded sel r : succeeded (finish sel r) -> succeeded r.
Proof. unfold finish. destruct (is_fixed_gas_selector sel); [apply not_succeeded_fixed|done]. Qed.

(** Whatever stops before the token fails and leaves the token alone. *)
Lemma ending_effect address input s w sel r s' w' :
  errors_fail -> ending sel address input s w r s' w' ->
  (forall g r0 s0, precheck g sel address (z_data input) (z_caller input) s = (Some r0, s0) -> is_failure r0) ->
  succeeded r \/ w' <> w ->
  exists g r0, precheck g sel address (z_data input) (z_caller input) s = (None, s') /\
    tip20_call g (z_static input) (z_data input) (z_caller input) w = (r0, w') /\ r = finish sel r0.
Proof.
  intros Herr Hend Hpre Hor. destruct Hend as [st b Hst _|g g' e Ei|g r s' Ep|g r s' w' Ep Et].
  - destruct Hor as [(out & [= <-] & ?)|]; done.
  - destruct Hor as [(out & E1 & E2)%finish_succeeded%not_succeeded_input|]; [|done]. by apply Herr in E1.
  - destruct Hor as [Hs%finish_succeeded%not_succeeded_input|]; [|done]. by apply Hpre in Ep.
  - by exists g, r.
Qed.

(** C7. No transfer escapes the policy, on a node with a policy registry (one
    without checks nothing) whose cache is true of L1 at the block ([Inv]; an
    update recorded ahead of the block would break it, see
    [future_update_answers_past_query]): if any call of the transfer family
    succeeds, or changes anything in the token, then its arguments decoded
    and the token's policy on L1 allows its sender as sender and its
    recipient as recipient (the sender being the caller, or the [from] of a
    [transferFrom]). *)
Theorem transfer_needs_authorization address input s w sel :
  errors_fail -> registry = true -> Inv s ->
  abi_selector abi (z_data input) = Some sel -> is_transfer sel = true ->
  let '(r, s', w') := create address input s w in
  succeeded r \/ w' <> w ->
  exists from to, transfer_parties sel (z_caller input) (z_data input) = Some (from, to) /\
    allows (policy_of address) from Sender = true /\ allows (policy_of address) to Recipient = true.
Proof.
  intros Herr Hreg Hs Hsel Ht. pose proof (create_ending address input s w sel Hsel) as Hend.
  destruct (create address input s w) as [[r s'] w']. intros Hor.
  assert (Hp := fun g => precheck_transfer g sel address (z_data input) (z_caller input) s Hreg Hs Ht).
  destruct (ending_effect _ _ _ _ _ _ _ _ Herr Hend) as (g & r0 & Ep & _); [|done|].
  - intros g r0 s0 Ep. specialize (Hp g). rewrite Ep in Hp. apply Hp.
  - specialize (Hp g). rewrite Ep in Hp. apply Hp.
Qed.

(** An allowed transfer is the token's own transfer: when the policy allows
    both parties, the wrapper either reports that L1 could not be asked
    (fatal: the transaction is dropped, nothing changes), or fails before
    the token (delegated, short of the fixed gas, or not initialized), or
    does exactly what the vanilla token does, at the fixed gas. *)
Theorem allowed_transfer_is_vanilla address input s w sel from to :
  registry = true -> Inv s ->
  abi_selector abi (z_data input) = Some sel -> is_transfer sel = true ->
  transfer_parties sel (z_caller input) (z_data input) = Some (from, to) ->
  allows (policy_of address) from Sender = true -> allows (policy_of address) to Recipient = true ->
  z_direct input = true -> FIXED_TRANSFER_GAS <= z_gas input ->
  (forall g, (ensure_initialized is_initialized uninitialized w g).1 = Ok tt) ->
  let '(r, s', w') := create address input s w in
  w' = w /\ (r = Err Fatal \/ exists g, r = Ok (mkOutput HaltedOutOfGas g NoBytes)) \/
  exists g, (r, w') = (apply_fixed_gas (tip20_call g (z_static input) (z_data input) (z_caller input) w).1,
                       (tip20_call g (z_static input) (z_data input) (z_caller input) w).2).
Proof.
  intros Hreg Hs Hsel Ht Hpar Hf Hd Hdir Hgas Hinit.
  pose proof (create_ending address input s w sel Hsel) as Hend.
  assert (Hfix : is_fixed_gas_selector sel = true) by (by destruct sel).
  destruct (create address input s w) as [[r s'] w'].
  destruct Hend as [st b Hst [?|[_ ?]]|g g' e Ei|g r s' Ep|g r s' w' Ep Et].
  - congruence.
  - lia.
  - specialize (Hinit g). rewrite Ei in Hinit. done.
  - left. split; [done|]. pose proof (precheck_transfer g sel address (z_data input) (z_caller input) s
      Hreg Hs Ht) as Hp. rewrite Ep in Hp. destruct Hp as (_ & _ & Hp). rewrite (Hp from to Hpar Hf Hd).
    unfold finish, add_input_cost. rewrite Hfix. destruct (deduct_gas _ _); [by left|right].
    cbn. by eexists.
  - right. exists g. unfold finish. by rewrite Hfix, Et.
Qed.

(** Who may make a private read: the account itself (for an allowance, owner
    or spender) or the sequencer. *)
Definition may_read (sel : Selector) (caller : Z) (data : list Z) : bool :=
  match sel with
  | balanceOf | userRewardInfo | getPendingRewards | hasRole =>
      match abi_account abi sel (drop 4 data) with
      | Some account => (caller =? account) || is_sequencer caller
      | None => false
      end
  | allowance =>
      match abi_allowance abi (drop 4 data) with
      | Some (owner, spender) => (caller =? owner) || (caller =? spender) || is_sequencer caller
      | None => false
      end
  | _ => true
  end.

Lemma precheck_private g sel address data caller s :
  may_read sel caller data = false ->
  exists b, precheck g sel address data caller s = (Some (Ok (revert_output g b)), s).
Proof.
  unfold may_read, ZoneTip20.precheck, decode_or_revert, enforce_balance_of, enforce_allowance.
  destruct sel; try done.
  all: try (destruct (abi_account abi _ _) as [a|]; [intros ->|]; eauto).
  destruct (abi_allowance abi _) as [[o p]|]; [intros ->|]; eauto.
Qed.

(** Balances, allowances, rewards and roles are private: to a caller who is
    neither a party nor the sequencer (or whose arguments do not decode) the
    call never succeeds, changes nothing, and its result is the same for any
    two states of the token that agree on being initialized, so it carries
    no information about them. *)
Theorem reads_reveal_nothing address input s w1 w2 sel :
  errors_fail -> abi_selector abi (z_data input) = Some sel ->
  may_read sel (z_caller input) (z_data input) = false ->
  (forall g, is_initialized w1 g = is_initialized w2 g) ->
  (create address input s w1).1 = (create address input s w2).1 /\
  (create address input s w1).2 = w1 /\ ~ succeeded (create address input s w1).1.1.
Proof.
  intros Herr Hsel Hno Hw.
  assert (Hp := fun g => precheck_private g sel address (z_data input) (z_caller input) s Hno).
  split.
  - unfold ztip20_create, ensure_initialized. rewrite Hsel. rewrite Hw.
    destruct (z_direct input); [|done]. cbn [negb]. case_match; [done|].
    destruct (is_initialized w2 _) as [[[]|e] g]; [|done|done].
    destruct (Hp g) as [b ->]. done.
  - pose proof (create_ending address input s w1 sel Hsel) as Hend.
    destruct (create address input s w1) as [[r s'] w']. cbn [fst snd].
    assert (Hx : succeeded r \/ w' <> w1 -> False).
    { intros Hor. destruct (ending_effect _ _ _ _ _ _ _ _ Herr Hend) as (g & r0 & Ep & _); [|done|].
      - intros g r0 s0 Ep. destruct (Hp g) as [b Eb]. rewrite Ep in Eb. injection Eb as -> _.
        apply revert_failure.
      - destruct (Hp g) as [b Eb]. by rewrite Ep in Eb. }
    split; [|auto]. destruct Hend as [| | |g r s' w' Ep _]; try done.
    destruct (Hp g) as [b Eb]. by rewrite Ep in Eb.
Qed.

(** Transfers and approvals cost the same whatever they touch: a direct
    call of the transfer family with the fixed gas available reports exactly
    the fixed gas, whether it succeeds, reverts or runs out, and a call with
    less gas stops before anything is read. *)
Theorem transfer_gas_fixed address input s w sel :
  abi_selector abi (z_data input) = Some sel -> is_fixed_gas_selector sel = true ->
  z_direct input = true ->
  let '(r, s', w') := create address input s w in
  match r with
  | Ok out => if z_gas input <? FIXED_TRANSFER_GAS
              then out = mkOutput HaltedOutOfGas 0 NoBytes /\ s' = s /\ w' = w
              else o_gas_used out = FIXED_TRANSFER_GAS
  | Err _ => FIXED_TRANSFER_GAS <= z_gas input
  end.
Proof.
  intros Hsel Hfix Hd. unfold ztip20_create. rewrite Hsel, Hfix, Hd. cbn [negb andb].
  destruct (Z.ltb_spec (z_gas input) FIXED_TRANSFER_GAS) as [Hg|Hg]; [done|].
  assert (Hf : forall r, match apply_fixed_gas r with
                         | Ok out => o_gas_used out = FIXED_TRANSFER_GAS
                         | Err _ => FIXED_TRANSFER_GAS <= z_gas input end) by (by intros [o|e]).
  destruct (ensure_initialized _ _ _ _) as [[[]|e] g]; [|apply Hf].
  destruct (precheck _ _ _ _ _ _) as [[r|] s']; [apply Hf|].
  destruct (tip20_call _ _ _ _ _) as [r w']. apply Hf.
Qed.

(** The bridge roles are separated: the outbox cannot mint and the inbox
    cannot burn, whatever roles the token granted them. *)
Theorem bridge_roles_separated address input s w sel :
  errors_fail -> abi_selector abi (z_data input) = Some sel ->
  z_caller input = ZONE_OUTBOX_ADDRESS /\ (sel = mint \/ sel = mintWithMemo) \/
  z_caller input = ZONE_INBOX_ADDRESS /\ (sel = burn \/ sel = burnWithMemo) ->
  let '(r, _, w') := create address input s w in ~ succeeded r /\ w' = w.
Proof.
  intros Herr Hsel Hc.
  assert (Hp : forall g, precheck g sel address (z_data input) (z_caller input) s =
                         (Some (Ok (revert_output g ErrRolesUnauthorized)), s)).
  { intros g. by destruct Hc as [[-> [-> | ->]]|[-> [-> | ->]]]. }
  pose proof (create_ending address input s w sel Hsel) as Hend.
  destruct (create address input s w) as [[r s'] w'].
  assert (Hx : succeeded r \/ w' <> w -> False).
  { intros Hor. destruct (ending_effect _ _ _ _ _ _ _ _ Herr Hend) as (g & r0 & Ep & _); [|done|].
    - intros g r0 s0 Ep. rewrite Hp in Ep. injection Ep as <- _. apply revert_failure.
    - by rewrite Hp in Ep. }
  split; [auto|]. destruct Hend as [| | |g r s' w' Ep _]; try done. by rewrite Hp in Ep.
Qed.

(** What an accepted mint relies on. *)
Definition mint_allowed (address : Z) (sel : Selector) (caller : Z) (data : list Z) (s : S) : Prop :=
  caller <> ZONE_OUTBOX_ADDRESS /\
  exists to, abi_to abi sel (drop 4 data) = Some to /\
    ((pc_resolve_transfer_policy_id address s).1 = Err Fatal \/
     allows (policy_of address) to MintRecipient = true).

Lemma precheck_mint g sel address data caller s :
  registry = true -> Inv s -> sel = mint \/ sel = mintWithMemo ->
  match (precheck g sel address data caller s).1 with
  | Some r => is_failure r
  | None => mint_allowed address sel caller data s
  end.
Proof.
  intros Hreg Hs Hm.
  assert (precheck g sel address data caller s =
    match reject_crossed_mint_caller g caller with
    | Some revert => (Some revert, s)
    | None => decode_or_revert g (abi_to abi sel (drop 4 data)) s
                (fun to => enforce_mint registry address to s)
    end) as -> by (by destruct Hm as [-> | ->]).
  unfold reject_crossed_mint_caller, decode_or_revert, enforce_mint, mint_allowed. rewrite Hreg.
  destruct (Z.eqb_spec caller ZONE_OUTBOX_ADDRESS); [apply revert_failure|].
  destruct (abi_to abi sel _) as [to|]; [|apply revert_failure]. cbn [negb].
  unfold Tip403Proxy.registry_resolve_transfer_policy_id, Tip403Proxy.registry_is_authorized.
  destruct (law_resolve address s Hs) as [H1 Hid].
  destruct (pc_resolve_transfer_policy_id address s) as [[id|[]] s1]; cbn in *; [|by eauto 6].
  destruct (law_is_authorized id to MintRecipient s1 H1) as [_ Ha]. rewrite <- (Hid id eq_refl).
  destruct (pc_is_authorized id to MintRecipient s1) as [[[]|[]] s2]; cbn in *;
    [|apply forbids_failure|apply err_failure].
  split; [done|]. exists to. split; [done|]. right. by rewrite <- (Ha true eq_refl).
Qed.

(** Mints follow the mint-recipient policy: when a mint succeeds or changes
    the token, the caller is not the outbox and either L1 could not tell the
    token's policy (the deposit was checked on L1 already), or the policy
    allows the recipient. *)
Theorem mint_needs_authorization address input s w sel :
  errors_fail -> registry = true -> Inv s ->
  abi_selector abi (z_data input) = Some sel -> sel = mint \/ sel = mintWithMemo ->
  let '(r, s', w') := create address input s w in
  succeeded r \/ w' <> w -> mint_allowed address sel (z_caller input) (z_data input) s.
Proof.
  intros Herr Hreg Hs Hsel Hm. pose proof (create_ending address input s w sel Hsel) as Hend.
  destruct (create address input s w) as [[r s'] w']. intros Hor.
  assert (Hp := fun g => precheck_mint g sel address (z_data input) (z_caller input) s Hreg Hs Hm).
  destruct (ending_effect _ _ _ _ _ _ _ _ Herr Hend) as (g & r0 & Ep & _); [|done|].
  - intros g r0 s0 Ep. specialize (Hp g). by rewrite Ep in Hp.
  - specialize (Hp g). by rewrite Ep in Hp.
Qed.
End proofs.

(** ** Witnesses: a one-map token behind the policy provider *)

Module ZoneTip20Examples.
Import PolicyProviderExamples.

Definition sel_of (d : list Z) : option Selector :=
  match d with
  | 1 :: _ => Some transfer | 2 :: _ => Some balanceOf | 3 :: _ => Some mint | 4 :: _ => Some burn
  | _ => None
  end.
Definition abi : Abi := mkAbi sel_of
  (fun _ a => match a with [x] => Some x | _ => None end)
  (fun a => match a with [x; y] => Some (x, y) | _ => None end)
  (fun _ a => match a with x :: _ => Some x | _ => None end)
  (fun _ a => match a with x :: y :: _ => Some (x, y) | _ => None end).
Definition data (sel : Z) (args : list Z) : list Z := sel :: 0 :: 0 :: 0 :: args.
Definition token (g : GasCtx) (static : bool) (d : list Z) (caller : Z) (w : gmap Z Z)
    : PrecompileResult * gmap Z Z :=
  match sel_of d, drop 4 d with
  | Some transfer, [to; amount] =>
      (Ok (mkOutput Succeeded 777 (Raw [1])),
       <[to := default 0 (w !! to) + amount]> (<[caller := default 0 (w !! caller) - amount]> w))
  | Some mint, [to; amount] =>
      (Ok (mkOutput Succeeded 777 (Raw [1])), <[to := default 0 (w !! to) + amount]> w)
  | Some balanceOf, [x] => (Ok (mkOutput Succeeded 99 (Raw [default 0 (w !! x)])), w)
  | _, _ => (Ok (mkOutput Reverted 1 NoBytes), w)
  end.
Definition init (w : gmap Z Z) (g : GasCtx) : result unit bool * GasCtx := (Ok true, g).
Definition fail (g : GasCtx) (e : unit) : PrecompileResult := Ok (mkOutput Reverted (gas_used g) NoBytes).

Definition Inv (c : PolicyCacheInner) : Prop := Agree l1 10 c /\ last_l1_block c = 10.
Definition check : PolicyCheck PolicyCacheInner := provider_policy_check ask.
Lemma laws : @PolicyCheckLaws _ check Inv (t_token l1) (l1_authorized l1).
Proof. exact (provider_laws l1 10 ask ask_truthful l1_is_wf). Defined.
Lemma start : Inv at_block_10.
Proof. split; [by repeat split|done]. Defined.
Lemma fails : errors_fail fail.
Proof. by intros g e out [= <-]. Defined.

Definition w0 : gmap Z Z := {[100 := 50]}.
Definition call (caller gas : Z) (d : list Z) : Input := mkZInput true false caller gas d.
Abbreviation run input w :=
  (@ztip20_create _ _ _ check abi (fun _ => 10) init tt fail token true (Some 42) 5 input at_block_10 w).
Definition pay : Input := call 100 200000 (data 1 [101; 20]).

Lemma transfer_needs_authorization_witness :
  succeeded (run pay w0).1.1 /\ l1_authorized l1 7 100 Sender = true /\ l1_authorized l1 7 101 Recipient = true.
Proof.
  assert (Hs : succeeded (run pay w0).1.1) by (eexists; split; [vm_compute; reflexivity|done]).
  split; [done|].
  pose proof (@transfer_needs_authorization _ _ _ check Inv (t_token l1) (l1_authorized l1) laws abi
    (fun _ => 10) init tt fail token true (Some 42) 5 pay at_block_10 w0 transfer fails eq_refl start
    eq_refl eq_refl) as H.
  destruct (run pay w0) as [[r s'] w']. destruct (H (or_introl Hs)) as (f & t & E & H1 & H2).
  vm_compute in E. injection E as <- <-. by split.
Defined.

Lemma allowed_transfer_is_vanilla_witness :
  let '(r, s', w') := run pay w0 in
  w' = w0 /\ (r = Err Fatal \/ exists g, r = Ok (mkOutput HaltedOutOfGas g NoBytes)) \/
  exists g, (r, w') = (apply_fixed_gas (token g false (data 1 [101; 20]) 100 w0).1,
                       (token g false (data 1 [101; 20]) 100 w0).2).
Proof.
  exact (@allowed_transfer_is_vanilla _ _ _ check Inv (t_token l1) (l1_authorized l1) laws abi
    (fun _ => 10) init tt fail token true (Some 42) 5 pay at_block_10 w0 transfer 100 101 eq_refl start
    eq_refl eq_refl eq_refl eq_refl eq_refl eq_refl ltac:(unfold FIXED_TRANSFER_GAS; cbn; lia)
    (fun g => eq_refl)).
Defined.

Definition spy : Input := call 7 200000 (data 2 [100]).

Lemma reads_reveal_nothing_witness : (run spy w0).1 = (run spy ∅).1 /\ ~ succeeded (run spy w0).1.1.
Proof.
  pose proof (@reads_reveal_nothing _ _ _ check abi (fun _ => 10) init tt fail token true (Some 42)
    5 spy at_block_10 w0 ∅ balanceOf fails eq_refl eq_refl (fun g => eq_refl)) as (H1 & _ & H3).
  by split.
Defined.

Lemma transfer_gas_fixed_witness :
  match (run pay w0).1.1 with Ok out => o_gas_used out = FIXED_TRANSFER_GAS | Err _ => False end.
Proof.
  pose proof (@transfer_gas_fixed _ _ _ check abi (fun _ => 10) init tt fail token true (Some 42)
    5 pay at_block_10 w0 transfer eq_refl eq_refl eq_refl) as H.
  destruct (run pay w0) as [[[out|e] s'] w'] eqn:E; [exact H|]. by vm_compute in E.
Defined.

Definition outbox_mint : Input := call ZONE_OUTBOX_ADDRESS 200000 (data 3 [100; 5]).

Lemma bridge_roles_separated_witness :
  let '(r, _, w') := run outbox_mint w0 in ~ succeeded r /\ w' = w0.
Proof.
  apply (@bridge_roles_separated _ _ _ check abi (fun _ => 10) init tt fail token true (Some 42)
    5 outbox_mint at_block_10 w0 mint fails eq_refl). left. by split; [|left].
Defined.

Definition inbox_mint : Input := call ZONE_INBOX_ADDRESS 200000 (data 3 [101; 5]).

Lemma mint_needs_authorization_witness :
  (run inbox_mint w0).2 <> w0 /\
  @mint_allowed _ check (t_token l1) (l1_authorized l1) abi 5 mint ZONE_INBOX_ADDRESS (data 3 [101; 5]) at_block_10.
Proof.
  assert (Hw : (run inbox_mint w0).2 <> w0).
  { intros H. apply (f_equal (fun m => m !! 101)) in H. by vm_compute in H. }
  split; [done|].
  pose proof (@mint_needs_authorization _ _ _ check Inv (t_token l1) (l1_authorized l1) laws abi
    (fun _ => 10) init tt fail token true (Some 42) 5 inbox_mint at_block_10 w0 mint fails eq_refl start
    eq_refl (or_introl eq_refl)) as H.
  destruct (run inbox_mint w0) as [[r s'] w']. exact (H (or_intror Hw)).
Defined.
End ZoneTip20Examples.
