(* ===== verification/Ecies.v ===== *)
(** * Encrypted deposits and authenticated withdrawals

    Models src/crates/precompiles/src/ecies.rs, chaum_pedersen/mod.rs and the
    decryption of aes_gcm/mod.rs.  Parameters: the curve of the k256 crate
    (points, scalar multiplication, SEC1 encodings), SHA-256, Keccak-256 and
    AES-256-GCM.  HMAC, HKDF, the nonce derivations, the Chaum-Pedersen
    prover and verifier and the payload layouts are the source's own.  Bytes
    are numbers below 256, an address or a 32-byte word its big-endian value.
    The random choices of the encryptors are arguments. *)

From stdpp Require Import strings.
From S2P Require Import Prelude.
#[local] Open Scope Z_scope.

(** ** Bytes *)

Definition from_be (l : list Z) : Z := foldl (fun acc b => acc * 256 + b) 0 l.

Lemma from_be_app l b : from_be (l ++ [b]) = from_be l * 256 + b.
Proof. unfold from_be. by rewrite foldl_app. Qed.

Lemma from_be_bytes n x : 0 <= x < 256 ^ Z.of_nat n -> from_be (be_bytes n x) = x.
Proof.
  revert x. induction n as [|n IH]; intros x Hx; [cbn in *; lia|].
  cbn [be_bytes]. rewrite from_be_app. rewrite Nat2Z.inj_succ, Z.pow_succ_r in Hx by lia.
  rewrite IH; [|split; [apply Z.div_pos; lia|apply Z.div_lt_upper_bound; lia]].
  pose proof (Z.div_mod x 256). lia.
Qed.

(** [bytes("...")] *)
Definition ascii_bytes (s : string) : list Z :=
  (fun a => Z.of_N (Ascii.N_of_ascii a)) <$> String.list_ascii_of_string s.

(** The first [Some] of [f start, f (start+1), ...], [count] tries. *)
Fixpoint find_first {A} (count : positive) (start : Z) (f : Z -> option A) : option A :=
  match count with
  | xH => f start
  | xO p => match find_first p start f with
            | Some a => Some a
            | None => find_first p (start + Z.pos p) f
            end
  | xI p => match find_first p start f with
            | Some a => Some a
            | None => match find_first p (start + Z.pos p) f with
                      | Some a => Some a
                      | None => f (start + 2 * Z.pos p)
                      end
            end
  end.

Lemma find_first_Some {A} count start (f : Z -> option A) a :
  find_first count start f = Some a -> exists i, start <= i < start + Z.pos count /\ f i = Some a.
Proof.
  revert start. induction count as [p IH|p IH|]; intros start; cbn [find_first].
  - destruct (find_first p start f) as [b|] eqn:E1.
    { intros [= <-]. apply IH in E1 as (i & ? & ?). exists i. split; [lia|done]. }
    destruct (find_first p (start + Z.pos p) f) as [b|] eqn:E2.
    { intros [= <-]. apply IH in E2 as (i & ? & ?). exists i. split; [lia|done]. }
    intros H. exists (start + 2 * Z.pos p). split; [lia|done].
  - destruct (find_first p start f) as [b|] eqn:E1.
    { intros [= <-]. apply IH in E1 as (i & ? & ?). exists i. split; [lia|done]. }
    intros H. apply IH in H as (i & ? & ?). exists i. split; [lia|done].
  - intros H. exists start. split; [lia|done].
Qed.

Definition ENCRYPTED_PAYLOAD_PLAINTEXT_SIZE : nat := 64.
Definition AUTHENTICATED_WITHDRAWAL_PLAINTEXT_SIZE : nat := 52.
Definition AUTHENTICATED_WITHDRAWAL_ENCRYPTED_SIZE : nat := 33 + 12 + 52 + 16.
Definition AUTH_WITHDRAWAL_EPHEMERAL_DOMAIN : list Z :=
  ascii_bytes "tempo-zone-authenticated-withdrawal-ephemeral-v1".
Definition AUTH_WITHDRAWAL_NONCE_DOMAIN : list Z :=
  ascii_bytes "tempo-zone-authenticated-withdrawal-nonce-v1".
Definition AUTH_WITHDRAWAL_DERIVATION_KEY_DOMAIN : list Z :=
  ascii_bytes "tempo-zone-authenticated-withdrawal-derivation-key-v1".
Definition CP_NONCE_DOMAIN : list Z := ascii_bytes "tempo-zone-chaum-pedersen-nonce-v1".

(** The curve: points, the generator, the group, the order of the scalars and
    the SEC1 encodings (compressed, and uncompressed for the challenge). *)
Class Curve := mkCurve {
  Point : Type;
  order : Z;
  generator : Point;
  smul : Z -> Point -> Point;
  psub : Point -> Point -> Point;
  encode_compressed : Point -> list Z;
  encode_uncompressed : Point -> list Z;
  decode_point : list Z -> option Point
}.

(** The hash functions and the cipher; [aes_encrypt] gives the ciphertext with
    its 16-byte tag appended. *)
Class Primitives := mkPrimitives {
  sha256 : list Z -> list Z;
  keccak256 : list Z -> Z;
  aes_encrypt : list Z -> list Z -> list Z -> option (list Z);
  aes_decrypt : list Z -> list Z -> list Z -> list Z -> option (list Z)
}.

Record EcdhProofResult := mkEcdhProof {
  shared_secret : Z;
  shared_secret_y_parity : Z;
  cp_proof_s : Z;
  cp_proof_c : Z
}.
Record DecryptedDeposit := mkDecrypted { dec_proof : EcdhProofResult; dec_to : Z; dec_memo : Z }.
Record EncryptedDepositArgs := mkEncryptedArgs {
  eph_pub_x : Z; eph_pub_y_parity : Z; ea_ciphertext : list Z; ea_nonce : list Z; ea_tag : list Z
}.

Section ecies.
Context `{Curve} `{Primitives}.

(** ** HMAC and HKDF *)

Definition pad_to (n : nat) (l : list Z) : list Z := l ++ replicate (n - length l) 0.

Definition hmac_sha256 (key message : list Z) : list Z :=
  let key_block := pad_to 64 (if (64 <? length key)%nat then sha256 key else key) in
  let ipad := Z.lxor 0x36 <$> key_block in
  let opad := Z.lxor 0x5c <$> key_block in
  let inner_hash := sha256 (ipad ++ message) in
  sha256 (opad ++ inner_hash).

Definition hkdf_sha256 (ikm salt info : list Z) : list Z :=
  let prk := hmac_sha256 salt ikm in
  hmac_sha256 prk (info ++ [0x01]).

Definition hkdf_info (portal key_index eph_x : Z) : list Z :=
  be_bytes 20 portal ++ be_bytes 32 key_index ++ be_bytes 32 eph_x.

Definition authenticated_withdrawal_hkdf_info (eph_pubkey : list Z) : list Z :=
  ascii_bytes "authenticated-withdrawal" ++ eph_pubkey.

(** ** Points *)

Definition recover_point (x y_parity : Z) : option Point := decode_point (y_parity :: be_bytes 32 x).

(** [to_encoded_point(true).x()] and [as_bytes()[0]]: the identity, whose
    encoding is one byte, has no coordinate. *)
Definition encoded_x (encoded : list Z) : option Z :=
  match encoded with
  | _ :: x => if (length x =? 32)%nat then Some (from_be x) else None
  | [] => None
  end.
Definition encoded_tag (encoded : list Z) : Z := default 0 (head encoded).

Definition compressed_x_and_parity (point : Point) : option (Z * Z) :=
  let encoded := encode_compressed point in
  x ← encoded_x encoded; Some (x, encoded_tag encoded).

(** ** Chaum-Pedersen *)

Definition challenge_hash (ephemeral_pub sequencer_pub secret r1 r2 : Point) : Z :=
  keccak256 (encode_uncompressed generator ++ encode_uncompressed ephemeral_pub ++
             encode_uncompressed sequencer_pub ++ encode_uncompressed secret ++
             encode_uncompressed r1 ++ encode_uncompressed r2) mod order.

Definition verify_chaum_pedersen (eph_x eph_parity secret_x secret_parity seq_x seq_parity s_word c_word : Z)
    : bool :=
  match recover_point eph_x eph_parity with
  | None => false
  | Some ephemeral_pub =>
      match recover_point secret_x secret_parity with
      | None => false
      | Some shared_secret_point =>
          match recover_point seq_x seq_parity with
          | None => false
          | Some sequencer_pub =>
              let s := s_word mod order in
              let c := c_word mod order in
              let r1 := psub (smul s generator) (smul c sequencer_pub) in
              let r2 := psub (smul s ephemeral_pub) (smul c shared_secret_point) in
              let c_prime := challenge_hash ephemeral_pub sequencer_pub shared_secret_point r1 r2 in
              c =? c_prime
          end
      end
  end.

(** [SecretKey::from_slice]: 32 bytes, a non-zero scalar below the order. *)
Definition secret_from_slice (candidate : list Z) : option Z :=
  let x := from_be candidate in
  if (length candidate =? 32)%nat && (0 <? x) && (x <? order) then Some x else None.

Definition deterministic_cp_nonce (priv_seq : Z) (ephemeral_pub sequencer_pub secret : Point) : option Z :=
  let input := CP_NONCE_DOMAIN ++ encode_compressed ephemeral_pub ++ encode_compressed sequencer_pub ++
               encode_compressed secret in
  find_first 4294967296 0 (fun counter =>
    secret_from_slice (hmac_sha256 (be_bytes 32 priv_seq) (input ++ be_bytes 4 counter))).

Definition generate_chaum_pedersen_proof (priv_seq : Z) (ephemeral_pub secret sequencer_pub : Point)
    : option (Z * Z) :=
  k ← deterministic_cp_nonce priv_seq ephemeral_pub sequencer_pub secret;
  let r1 := smul k generator in
  let r2 := smul k ephemeral_pub in
  let c := challenge_hash ephemeral_pub sequencer_pub secret r1 r2 in
  let s := (k + c * priv_seq) mod order in
  Some (s, c).

Definition compute_ecdh_proof (sequencer_privkey ephemeral_pub_x ephemeral_pub_y_parity : Z)
    : option EcdhProofResult :=
  ephemeral_pub ← recover_point ephemeral_pub_x ephemeral_pub_y_parity;
  let priv_scalar := sequencer_privkey in
  let shared_secret_affine := smul priv_scalar ephemeral_pub in
  let ss_encoded := encode_compressed shared_secret_affine in
  shared_secret_x ← encoded_x ss_encoded;
  let shared_secret_y_parity := encoded_tag ss_encoded in
  let sequencer_pub := smul priv_scalar generator in
  '(s, c) ← generate_chaum_pedersen_proof priv_scalar ephemeral_pub shared_secret_affine sequencer_pub;
  Some (mkEcdhProof shared_secret_x shared_secret_y_parity s c).

(** ** Deposits *)

Definition decrypt_aes_gcm (key nonce ciphertext aad tag : list Z) : list Z * bool :=
  match aes_decrypt key nonce (ciphertext ++ tag) aad with
  | Some plaintext => (plaintext, true)
  | None => ([], false)
  end.

Definition build_plaintext (to memo : Z) : list Z := be_bytes 20 to ++ be_bytes 32 memo ++ replicate 12 0.

Definition decrypt_deposit (sequencer_privkey ephemeral_pub_x ephemeral_pub_y_parity : Z)
    (ciphertext nonce tag : list Z) (portal_address key_index : Z) : option DecryptedDeposit :=
  proof ← compute_ecdh_proof sequencer_privkey ephemeral_pub_x ephemeral_pub_y_parity;
  let info := hkdf_info portal_address key_index ephemeral_pub_x in
  let aes_key := hkdf_sha256 (be_bytes 32 (shared_secret proof)) (ascii_bytes "ecies-aes-key") info in
  let '(plaintext, valid) := decrypt_aes_gcm aes_key nonce ciphertext [] tag in
  if negb valid || negb (length plaintext =? ENCRYPTED_PAYLOAD_PLAINTEXT_SIZE)%nat then None
  else Some (mkDecrypted proof (from_be (take 20 plaintext)) (from_be (take 32 (drop 20 plaintext)))).

(** [eph_scalar] and [nonce_bytes] are the random choices. *)
Definition encrypt_deposit (eph_scalar : Z) (nonce_bytes : list Z)
    (seq_pub_x seq_pub_y_parity to memo portal_address key_index : Z) : option EncryptedDepositArgs :=
  seq_pub ← recover_point seq_pub_x seq_pub_y_parity;
  let eph_pub := smul eph_scalar generator in
  '(eph_x, eph_parity) ← compressed_x_and_parity eph_pub;
  let shared_affine := smul eph_scalar seq_pub in
  shared_secret_x ← encoded_x (encode_compressed shared_affine);
  let info := hkdf_info portal_address key_index eph_x in
  let aes_key := hkdf_sha256 (be_bytes 32 shared_secret_x) (ascii_bytes "ecies-aes-key") info in
  let plaintext := build_plaintext to memo in
  encrypted ← aes_encrypt aes_key nonce_bytes plaintext;
  let n := (length encrypted - 16)%nat in
  Some (mkEncryptedArgs eph_x eph_parity (take n encrypted) nonce_bytes (drop n encrypted)).

(** ** Authenticated withdrawals *)

Definition build_authenticated_withdrawal_plaintext (sender tx_hash : Z) : list Z :=
  be_bytes 20 sender ++ be_bytes 32 tx_hash.

Definition authenticated_withdrawal_context (domain : list Z) (zone_id : Z) (reveal_to : list Z)
    (sender tx_hash : Z) : list Z :=
  domain ++ be_bytes 4 zone_id ++ be_bytes 4 (Z.of_nat (length reveal_to) mod 2 ^ 32) ++ reveal_to ++
  be_bytes 20 sender ++ be_bytes 32 tx_hash.

Definition authenticated_withdrawal_derivation_key (encryption_privkey : Z) : list Z :=
  hmac_sha256 (be_bytes 32 encryption_privkey) AUTH_WITHDRAWAL_DERIVATION_KEY_DOMAIN.

Definition derive_authenticated_withdrawal_ephemeral_scalar (derivation_key : list Z) (zone_id : Z)
    (reveal_to : list Z) (sender tx_hash : Z) : option Z :=
  find_first 4294967296 0 (fun counter =>
    secret_from_slice (hmac_sha256 derivation_key
      (authenticated_withdrawal_context AUTH_WITHDRAWAL_EPHEMERAL_DOMAIN zone_id reveal_to sender tx_hash
       ++ be_bytes 4 counter))).

Definition derive_authenticated_withdrawal_nonce (derivation_key : list Z) (zone_id : Z)
    (reveal_to : list Z) (sender tx_hash : Z) (eph_pubkey : list Z) : list Z :=
  take 12 (hmac_sha256 derivation_key
    (authenticated_withdrawal_context AUTH_WITHDRAWAL_NONCE_DOMAIN zone_id reveal_to sender tx_hash
     ++ eph_pubkey)).

(** [as_bytes().try_into()] for a 33-byte array *)
Definition pubkey33 (encoded : list Z) : option (list Z) :=
  if (length encoded =? 33)%nat then Some encoded else None.

Definition encrypt_authenticated_withdrawal_with_material (reveal_to : list Z) (sender tx_hash : Z)
    (eph_scalar : Z) (nonce_bytes : list Z) : option (list Z) :=
  if negb (length reveal_to =? 33)%nat then None
  else
    let parity := encoded_tag reveal_to in
    if negb (parity =? 0x02) && negb (parity =? 0x03) then None
    else
      reveal_pub ← recover_point (from_be (tail reveal_to)) parity;
      eph_pubkey ← pubkey33 (encode_compressed (smul eph_scalar generator));
      shared_secret_x ← encoded_x (encode_compressed (smul eph_scalar reveal_pub));
      let info := authenticated_withdrawal_hkdf_info eph_pubkey in
      let aes_key := hkdf_sha256 (be_bytes 32 shared_secret_x)
                       (ascii_bytes "authenticated-withdrawal-aes-key") info in
      let plaintext := build_authenticated_withdrawal_plaintext sender tx_hash in
      encrypted ← aes_encrypt aes_key nonce_bytes plaintext;
      let n := (length encrypted - 16)%nat in
      Some (eph_pubkey ++ nonce_bytes ++ take n encrypted ++ drop n encrypted).

Definition encrypt_authenticated_withdrawal_deterministic (encryption_privkey zone_id : Z)
    (reveal_to : list Z) (sender tx_hash : Z) : option (list Z) :=
  let derivation_key := authenticated_withdrawal_derivation_key encryption_privkey in
  eph_scalar ← derive_authenticated_withdrawal_ephemeral_scalar derivation_key zone_id reveal_to sender tx_hash;
  eph_pubkey ← pubkey33 (encode_compressed (smul eph_scalar generator));
  let nonce_bytes :=
    derive_authenticated_withdrawal_nonce derivation_key zone_id reveal_to sender tx_hash eph_pubkey in
  encrypt_authenticated_withdrawal_with_material reveal_to sender tx_hash eph_scalar nonce_bytes.

Definition decrypt_authenticated_withdrawal (reveal_privkey : Z) (encrypted_sender : list Z)
    : option (Z * Z) :=
  if negb (length encrypted_sender =? AUTHENTICATED_WITHDRAWAL_ENCRYPTED_SIZE)%nat then None
  else
    let parity := encoded_tag encrypted_sender in
    if negb (parity =? 0x02) && negb (parity =? 0x03) then None
    else
      let eph_x := from_be (take 32 (drop 1 encrypted_sender)) in
      let nonce := take 12 (drop 33 encrypted_sender) in
      let ciphertext := take 52 (drop 45 encrypted_sender) in
      let tag := take 16 (drop 97 encrypted_sender) in
      eph_pub ← recover_point eph_x parity;
      shared_secret_x ← encoded_x (encode_compressed (smul reveal_privkey eph_pub));
      let eph_pubkey := parity :: be_bytes 32 eph_x in
      let info := authenticated_withdrawal_hkdf_info eph_pubkey in
      let aes_key := hkdf_sha256 (be_bytes 32 shared_secret_x)
                       (ascii_bytes "authenticated-withdrawal-aes-key") info in
      let '(plaintext, valid) := decrypt_aes_gcm aes_key nonce ciphertext [] tag in
      if negb valid || negb (length plaintext =? AUTHENTICATED_WITHDRAWAL_PLAINTEXT_SIZE)%nat then None
      else Some (from_be (take 20 plaintext), from_be (drop 20 plaintext)).
End ecies.

Arguments find_first : simpl never.
Arguments be_bytes : simpl never.
Arguments deterministic_cp_nonce : simpl never.
Arguments generate_chaum_pedersen_proof : simpl never.
Arguments challenge_hash : simpl never.
Arguments hmac_sha256 : simpl never.
Arguments hkdf_sha256 : simpl never.
Arguments ascii_bytes : simpl never.
Arguments encoded_x : simpl never.
Arguments encoded_tag : simpl never.
Arguments build_plaintext : simpl never.

(** Never unfold the search over 2^32 counters. *)
#[global] Strategy opaque [find_first deterministic_cp_nonce derive_authenticated_withdrawal_ephemeral_scalar].
