(* ===== verification/EciesProofs.v ===== *)
(** * Round trips of the encrypted payloads, and the Chaum-Pedersen proofs

    From the laws of the curve and of the cipher: decryption inverts
    encryption, the verifier accepts the prover, and two accepted answers
    give the secret.  The examples instantiate both classes. *)

From stdpp Require Import strings.
From Stdlib Require Import Znumtheory.
From S2P Require Import Prelude.
From S2P Require Import Ecies.
#[local] Open Scope Z_scope.

Lemma be_bytes_app_take n x l : take n (be_bytes n x ++ l) = be_bytes n x.
Proof. apply take_app_length'. by rewrite be_bytes_length. Qed.
Lemma be_bytes_app_drop n x l : drop n (be_bytes n x ++ l) = l.
Proof. apply drop_app_length'. by rewrite be_bytes_length. Qed.

Section proofs.
Context {CV : Curve} {PR : Primitives}.

Definition not_identity (p : Point) : Prop := length (encode_compressed p) = 33%nat.

(** What the code relies on of the curve crate: a group of prime order acting
    by scalars, and faithful compressed encodings. *)
Record CurveLaws : Prop := mkCurveLaws {
  cl_prime : prime order;
  cl_order : order < 2 ^ 256;
  cl_one : forall p, smul 1 p = p;
  cl_mod : forall a p, smul (a mod order) p = smul a p;
  cl_mul : forall a b p, smul a (smul b p) = smul (a * b) p;
  cl_sub : forall a b p, psub (smul a p) (smul b p) = smul (a - b) p;
  cl_swap : forall a b c d, psub a b = psub c d -> psub a c = psub b d;
  cl_generator : not_identity generator;
  cl_nonzero : forall a p, not_identity p -> 0 < a < order -> not_identity (smul a p);
  cl_encode : forall p, not_identity p -> exists tag x,
    encode_compressed p = tag :: be_bytes 32 x /\ (tag = 2 \/ tag = 3) /\ 0 <= x < 2 ^ 256 /\
    decode_point (tag :: be_bytes 32 x) = Some p;
  cl_decode : forall l p, length l = 33%nat -> decode_point l = Some p -> not_identity p
}.

(** What it relies on of the cipher. *)
Record CipherLaws : Prop := mkCipherLaws {
  ci_roundtrip : forall key nonce plaintext e, aes_encrypt key nonce plaintext = Some e ->
    length e = (length plaintext + 16)%nat /\ aes_decrypt key nonce e [] = Some plaintext
}.

Context (CL : CurveLaws).

(** The wire form of a point: its coordinate and its tag. *)
Definition wire (p : Point) (x tag : Z) : Prop :=
  encode_compressed p = tag :: be_bytes 32 x /\ (tag = 2 \/ tag = 3) /\ 0 <= x < 2 ^ 256 /\
  recover_point x tag = Some p.

Lemma wire_exists p : not_identity p -> exists x tag, wire p x tag.
Proof. intros (tag & x & H1 & H2 & H3 & H4)%(cl_encode CL). by exists x, tag. Qed.

Lemma wire_x p x tag : wire p x tag ->
  encoded_x (encode_compressed p) = Some x /\ encoded_tag (encode_compressed p) = tag.
Proof.
  intros (-> & _ & Hx & _). unfold encoded_x. rewrite be_bytes_length, Nat.eqb_refl.
  by rewrite from_be_bytes by (change (256 ^ Z.of_nat 32) with (2 ^ 256); lia).
Qed.

Lemma encoded_x_wire p x : encoded_x (encode_compressed p) = Some x -> not_identity p.
Proof.
  unfold not_identity, encoded_x. destruct (encode_compressed p) as [|t l]; [done|]. cbn [length].
  destruct (Nat.eqb_spec (length l) 32) as [->|]; done.
Qed.

Lemma recover_not_identity x tag p : recover_point x tag = Some p -> not_identity p.
Proof. apply (cl_decode CL). cbn [length]. by rewrite be_bytes_length. Qed.

(** A valid secret key. *)
Definition secret_key (k : Z) : Prop := 0 < k < order.

(** ** The prover's proofs verify *)

Lemma proof_equations k c x p :
  psub (smul ((k + c * x) mod order) p) (smul c (smul x p)) = smul k p.
Proof. rewrite (cl_mod CL), (cl_mul CL), (cl_sub CL). f_equal. lia. Qed.

(** What a computed proof consists of. *)
Lemma compute_ecdh_proof_Some priv eph_x eph_tag proof :
  compute_ecdh_proof priv eph_x eph_tag = Some proof ->
  exists eph x tag k,
    recover_point eph_x eph_tag = Some eph /\ wire (smul priv eph) x tag /\
    let c := challenge_hash eph (smul priv generator) (smul priv eph) (smul k generator) (smul k eph) in
    proof = mkEcdhProof x tag ((k + c * priv) mod order) c.
Proof.
  unfold compute_ecdh_proof. intros (eph & Ee & Hp)%bind_Some. cbv zeta in Hp.
  apply bind_Some in Hp as (x & Ex & Hp). apply bind_Some in Hp as ([s c] & Eg & Hp).
  unfold generate_chaum_pedersen_proof in Eg. apply bind_Some in Eg as (k & _ & Eg). cbv zeta in Eg.
  destruct (wire_exists (smul priv eph) (encoded_x_wire _ _ Ex)) as (x' & tag & Hw).
  pose proof (wire_x _ _ _ Hw) as [Ex' Et]. rewrite Ex' in Ex. injection Ex as ->. rewrite Et in Hp.
  exists eph, x, tag, k. split; [done|]. split; [done|]. cbv zeta.
  injection Eg as <- <-. by injection Hp as <-.
Qed.

Lemma challenge_reduced a b c d e : challenge_hash a b c d e mod order = challenge_hash a b c d e.
Proof. unfold challenge_hash. apply Z.mod_mod. destruct (cl_prime CL). lia. Qed.

Lemma verified_proof priv eph_x eph_tag proof pub_x pub_tag :
  wire (smul priv generator) pub_x pub_tag ->
  compute_ecdh_proof priv eph_x eph_tag = Some proof ->
  verify_chaum_pedersen eph_x eph_tag (shared_secret proof) (shared_secret_y_parity proof)
    pub_x pub_tag (cp_proof_s proof) (cp_proof_c proof) = true.
Proof.
  intros (_ & _ & _ & Hpub) (eph & x & tag & k & Ee & Hw & Ep)%compute_ecdh_proof_Some.
  destruct Hw as (_ & _ & _ & Hsec). cbv zeta in Ep. subst proof.
  cbn [shared_secret shared_secret_y_parity cp_proof_s cp_proof_c].
  unfold verify_chaum_pedersen. rewrite Ee, Hsec, Hpub.
  rewrite challenge_reduced, Z.mod_mod by (destruct (cl_prime CL); lia).
  rewrite !proof_equations. apply Z.eqb_refl.
Qed.

(** Completeness: for every ephemeral key that is a point, the sequencer
    gets a proof (when a proof nonce can be derived at all), whatever the
    ciphertext, and the on-chain verifier accepts it against the sequencer's
    public key: the refund path of an undecryptable deposit is always open. *)
Theorem cp_proof_verifies priv eph_x eph_tag pub_x pub_tag eph :
  secret_key priv -> wire (smul priv generator) pub_x pub_tag ->
  recover_point eph_x eph_tag = Some eph ->
  deterministic_cp_nonce priv eph (smul priv generator) (smul priv eph) <> None ->
  exists proof, compute_ecdh_proof priv eph_x eph_tag = Some proof /\
    verify_chaum_pedersen eph_x eph_tag (shared_secret proof) (shared_secret_y_parity proof)
      pub_x pub_tag (cp_proof_s proof) (cp_proof_c proof) = true.
Proof.
  intros Hk Hpub He Hnonce.
  assert (exists proof, compute_ecdh_proof priv eph_x eph_tag = Some proof) as [proof Hp].
  { destruct (wire_exists (smul priv eph)) as (x & tag & Hw).
    { apply (cl_nonzero CL); [|done]. by eapply recover_not_identity. }
    destruct (wire_x _ _ _ Hw) as [Ex _].
    destruct (deterministic_cp_nonce priv eph (smul priv generator) (smul priv eph)) as [k|] eqn:Ek; [|done].
    eexists. unfold compute_ecdh_proof. apply bind_Some. exists eph. split; [exact He|].
    cbv zeta. apply bind_Some. exists x. split; [exact Ex|]. apply bind_Some.
    eexists (_, _). split; [|reflexivity]. unfold generate_chaum_pedersen_proof. apply bind_Some.
    exists k. split; [exact Ek|]. reflexivity. }
  exists proof. split; [done|]. by apply (verified_proof priv).
Qed.

(** ** Special soundness *)

Lemma invertible c : c mod order <> 0 -> exists i, (i * c) mod order = 1.
Proof.
  intros Hc. destruct (cl_prime CL) as [H1 Hp].
  assert (Hr : rel_prime (c mod order) order).
  { apply Hp. pose proof (Z.mod_pos_bound c order). lia. }
  apply rel_prime_iff_coprime, Z.Bezout_coprime in Hr as (u & v & Huv). exists u.
  rewrite <- Zmult_mod_idemp_r. replace (u * (c mod order)) with (1 + (- v) * order) by lia.
  rewrite Z_mod_plus_full. apply Z.mod_small. lia.
Qed.

Lemma extract p q s1 s2 c1 c2 i :
  (i * (c1 - c2)) mod order = 1 ->
  psub (smul s1 p) (smul c1 q) = psub (smul s2 p) (smul c2 q) ->
  q = smul (i * (s1 - s2)) p.
Proof.
  intros Hi E%(cl_swap CL). rewrite !(cl_sub CL) in E.
  rewrite <- (cl_mul CL), E, (cl_mul CL), <- (cl_mod CL), Hi. by rewrite (cl_one CL).
Qed.

(** The commitments the verifier recomputes. *)
Definition commitments (eph secret pub : Point) (s_word c_word : Z) : Point * Point :=
  let s := s_word mod order in
  let c := c_word mod order in
  (psub (smul s generator) (smul c pub), psub (smul s eph) (smul c secret)).

Lemma verify_points (PR' : Primitives) ex et sx st px pt s c :
  @verify_chaum_pedersen CV PR' ex et sx st px pt s c = true ->
  exists eph secret pub, recover_point ex et = Some eph /\ recover_point sx st = Some secret /\
    recover_point px pt = Some pub.
Proof.
  unfold verify_chaum_pedersen. destruct (recover_point ex et) as [eph|]; [|done].
  destruct (recover_point sx st) as [sec|]; [|done]. destruct (recover_point px pt) as [pub|]; [|done].
  intros _. by exists eph, sec, pub.
Qed.

(** Special soundness: if the verifier accepts two answers on the same
    commitments whose challenges differ (the challenge hash answering
    differently, as when a prover is rewound), the secret can be computed
    from them: one scalar links the public key to the generator and the
    shared secret to the ephemeral key, so the shared secret accepted on
    chain is the Diffie-Hellman one. *)
Theorem cp_special_soundness (PR1 PR2 : Primitives) ex et sx st px pt s1 c1 s2 c2 :
  @verify_chaum_pedersen CV PR1 ex et sx st px pt s1 c1 = true ->
  @verify_chaum_pedersen CV PR2 ex et sx st px pt s2 c2 = true ->
  (forall eph secret pub, recover_point ex et = Some eph -> recover_point sx st = Some secret ->
     recover_point px pt = Some pub ->
     commitments eph secret pub s1 c1 = commitments eph secret pub s2 c2) ->
  c1 mod order <> c2 mod order ->
  exists eph secret pub x,
    recover_point ex et = Some eph /\ recover_point sx st = Some secret /\
    recover_point px pt = Some pub /\ pub = smul x generator /\ secret = smul x eph.
Proof.
  intros (eph & sec & pub & He & Hs & Hp)%verify_points _ Hcom Hc.
  specialize (Hcom eph sec pub He Hs Hp). unfold commitments in Hcom. injection Hcom as E1 E2.
  destruct (invertible (c1 mod order - c2 mod order)) as [i Hi].
  { destruct (cl_prime CL) as [Hgt _]. rewrite <- Zminus_mod. intros H0.
    apply Hc, Z.cong_iff_0. exact H0. }
  exists eph, sec, pub, (i * (s1 mod order - s2 mod order)). split_and!; try done; by eapply extract.
Qed.

(** ** Deposits *)

Context (CI : CipherLaws).

Lemma decrypt_split key nonce plaintext e :
  aes_encrypt key nonce plaintext = Some e ->
  decrypt_aes_gcm key nonce (take (length e - 16) e) [] (drop (length e - 16) e) = (plaintext, true).
Proof.
  intros He. destruct (ci_roundtrip CI _ _ _ _ He) as [_ Hd]. unfold decrypt_aes_gcm.
  by rewrite take_drop, Hd.
Qed.

Lemma plaintext_fields to memo :
  0 <= to < 2 ^ 160 -> 0 <= memo < 2 ^ 256 ->
  length (build_plaintext to memo) = ENCRYPTED_PAYLOAD_PLAINTEXT_SIZE /\
  from_be (take 20 (build_plaintext to memo)) = to /\
  from_be (take 32 (drop 20 (build_plaintext to memo))) = memo.
Proof.
  intros Ht Hm. unfold build_plaintext. split_and!.
  - rewrite !length_app, !be_bytes_length, length_replicate. done.
  - rewrite be_bytes_app_take. apply from_be_bytes. change (256 ^ Z.of_nat 20) with (2 ^ 160). lia.
  - rewrite be_bytes_app_drop, be_bytes_app_take. apply from_be_bytes.
    change (256 ^ Z.of_nat 32) with (2 ^ 256). lia.
Qed.

(** Both sides of the exchange meet at the same point. *)
Lemma shared_point a b : smul a (smul b generator) = smul b (smul a generator).
Proof. rewrite !(cl_mul CL). f_equal. lia. Qed.

(** C35. What a depositor encrypts to the sequencer's key, the sequencer
    decrypts: the recipient and memo come back exactly, together with the
    proof for the shared secret, whatever the ephemeral key and nonce drawn
    (provided the proof nonce can be derived at all). *)
Theorem deposit_roundtrip priv eph_scalar nonce pub_x pub_tag to memo portal key_index args :
  secret_key priv -> secret_key eph_scalar -> wire (smul priv generator) pub_x pub_tag ->
  0 <= to < 2 ^ 160 -> 0 <= memo < 2 ^ 256 ->
  encrypt_deposit eph_scalar nonce pub_x pub_tag to memo portal key_index = Some args ->
  compute_ecdh_proof priv (eph_pub_x args) (eph_pub_y_parity args) <> None ->
  exists proof,
    decrypt_deposit priv (eph_pub_x args) (eph_pub_y_parity args) (ea_ciphertext args) (ea_nonce args)
      (ea_tag args) portal key_index = Some (mkDecrypted proof to memo) /\
    compute_ecdh_proof priv (eph_pub_x args) (eph_pub_y_parity args) = Some proof.
Proof.
  intros Hk He (_ & _ & _ & Hpub) Ht Hm Henc Hproof. unfold encrypt_deposit in Henc.
  apply bind_Some in Henc as (pub & Ep & Henc). rewrite Hpub in Ep. injection Ep as <-. cbv zeta in Henc.
  apply bind_Some in Henc as ([ex etag] & Ee & Henc). apply bind_Some in Henc as (ssx & Es & Henc).
  apply bind_Some in Henc as (e & Ea & Henc). injection Henc as <-.
  cbn [eph_pub_x eph_pub_y_parity ea_ciphertext ea_nonce ea_tag] in *.
  destruct (wire_exists (smul eph_scalar generator)) as (ex' & etag' & Hw);
    [by apply (cl_nonzero CL); [apply (cl_generator CL)|]|].
  pose proof (wire_x _ _ _ Hw) as [Ex Et]. destruct Hw as (_ & _ & _ & Hrec).
  unfold compressed_x_and_parity in Ee. rewrite Ex, Et in Ee. injection Ee as -> ->.
  destruct (compute_ecdh_proof priv ex etag) as [proof|] eqn:Ep; [|done]. exists proof. split; [|done].
  assert (Hss : shared_secret proof = ssx).
  { apply compute_ecdh_proof_Some in Ep as (eph & x & tag & k & Er & Hwx & ->).
    rewrite Hrec in Er. injection Er as <-. rewrite shared_point in Hwx.
    destruct (wire_x _ _ _ Hwx) as [Ex' _]. rewrite Ex' in Es. by injection Es as <-. }
  unfold decrypt_deposit. rewrite Ep. cbn [mbind option_bind]. cbv zeta.
  rewrite Hss, (decrypt_split _ _ _ _ Ea).
  destruct (plaintext_fields to memo Ht Hm) as (Hl & Hto & Hmemo).
  by rewrite Hl, Nat.eqb_refl, Hto, Hmemo.
Qed.

(** ** Authenticated withdrawals *)

Lemma withdrawal_plaintext_fields sender tx_hash :
  0 <= sender < 2 ^ 160 -> 0 <= tx_hash < 2 ^ 256 ->
  let p := build_authenticated_withdrawal_plaintext sender tx_hash in
  length p = AUTHENTICATED_WITHDRAWAL_PLAINTEXT_SIZE /\
  from_be (take 20 p) = sender /\ from_be (drop 20 p) = tx_hash.
Proof.
  intros Hs Ht. unfold build_authenticated_withdrawal_plaintext. cbv zeta. split_and!.
  - by rewrite length_app, !be_bytes_length.
  - rewrite be_bytes_app_take. apply from_be_bytes. change (256 ^ Z.of_nat 20) with (2 ^ 160). lia.
  - rewrite be_bytes_app_drop. apply from_be_bytes. change (256 ^ Z.of_nat 32) with (2 ^ 256). lia.
Qed.

(** Slicing a payload [pubkey(33) | nonce(12) | ciphertext(52) | tag(16)]. *)
Lemma payload_slices (tag : Z) (x nonce ct tg : list Z) :
  length x = 32%nat -> length nonce = 12%nat -> length ct = 52%nat -> length tg = 16%nat ->
  let out := (tag :: x) ++ nonce ++ ct ++ tg in
  length out = AUTHENTICATED_WITHDRAWAL_ENCRYPTED_SIZE /\ encoded_tag out = tag /\
  take 32 (drop 1 out) = x /\ take 12 (drop 33 out) = nonce /\
  take 52 (drop 45 out) = ct /\ take 16 (drop 97 out) = tg.
Proof.
  intros Hx Hn Hc Ht. cbv zeta.
  assert (E33 : drop 33 ((tag :: x) ++ nonce ++ ct ++ tg) = nonce ++ ct ++ tg)
    by (apply drop_app_length'; cbn; lia).
  assert (E45 : drop 45 ((tag :: x) ++ nonce ++ ct ++ tg) = ct ++ tg).
  { change 45%nat with (33 + 12)%nat. rewrite <- drop_drop, E33. apply drop_app_length'. lia. }
  assert (E97 : drop 97 ((tag :: x) ++ nonce ++ ct ++ tg) = tg).
  { change 97%nat with (45 + 52)%nat. rewrite <- drop_drop, E45. apply drop_app_length'. lia. }
  rewrite E33, E45, E97. split_and!; try done.
  - rewrite !length_app. cbn [length]. rewrite Hx, Hn, Hc, Ht. done.
  - change (drop 1 ((tag :: x) ++ nonce ++ ct ++ tg)) with (x ++ nonce ++ ct ++ tg).
    apply take_app_length'. lia.
  - apply take_app_length'. lia.
  - apply take_app_length'. lia.
  - apply take_ge. lia.
Qed.

(** What is encrypted to a reveal key, its holder decrypts: the payload has
    the fixed 113-byte layout and gives back the sender and transaction hash
    exactly. *)
Theorem withdrawal_roundtrip priv reveal_to sender tx_hash eph_scalar nonce out :
  secret_key priv -> secret_key eph_scalar -> length nonce = 12%nat ->
  reveal_to = encode_compressed (smul priv generator) ->
  0 <= sender < 2 ^ 160 -> 0 <= tx_hash < 2 ^ 256 ->
  encrypt_authenticated_withdrawal_with_material reveal_to sender tx_hash eph_scalar nonce = Some out ->
  length out = AUTHENTICATED_WITHDRAWAL_ENCRYPTED_SIZE /\
  decrypt_authenticated_withdrawal priv out = Some (sender, tx_hash).
Proof.
  intros Hk He Hn -> Hs Ht Henc. unfold encrypt_authenticated_withdrawal_with_material in Henc.
  destruct (negb (length _ =? 33)%nat); [done|]. cbv zeta in Henc.
  destruct (negb _ && negb _); [done|]. apply bind_Some in Henc as (pub & Ep & Henc).
  apply bind_Some in Henc as (ephk & Ek & Henc). apply bind_Some in Henc as (ssx & Es & Henc).
  apply bind_Some in Henc as (e & Ea & Henc).
  destruct (wire_exists (smul priv generator)) as (px & ptag & Hwp);
    [by apply (cl_nonzero CL); [apply (cl_generator CL)|]|].
  destruct (wire_exists (smul eph_scalar generator)) as (ex & etag & Hwe);
    [by apply (cl_nonzero CL); [apply (cl_generator CL)|]|].
  destruct (wire_x _ _ _ Hwp) as [Exp Etp]. destruct Hwp as (Ep1 & _ & Hpx & Hpr).
  destruct Hwe as (Ee1 & Hetag & Hex & Her).
  assert (pub = smul priv generator) as ->.
  { rewrite Etp, Ep1 in Ep. cbn [tail] in Ep. rewrite from_be_bytes in Ep
      by (change (256 ^ Z.of_nat 32) with (2 ^ 256); lia). congruence. }
  unfold pubkey33 in Ek. rewrite Ee1 in Ek. cbn [length] in Ek. rewrite be_bytes_length in Ek.
  rewrite Nat.eqb_refl in Ek. apply (inj Some) in Ek as <-. destruct (ci_roundtrip CI _ _ _ _ Ea) as [Hlen _].
  destruct (withdrawal_plaintext_fields sender tx_hash Hs Ht) as (Hpl & Hfs & Hft).
  rewrite Hpl in Hlen. cbv [AUTHENTICATED_WITHDRAWAL_PLAINTEXT_SIZE] in Hlen.
  apply (inj Some) in Henc as <-.
  destruct (payload_slices etag (be_bytes 32 ex) nonce (take (length e - 16) e) (drop (length e - 16) e))
    as (L1 & L2 & L3 & L4 & L5 & L6);
    [by rewrite be_bytes_length|done|rewrite length_take; lia|rewrite length_drop; lia|].
  split; [done|]. unfold decrypt_authenticated_withdrawal. rewrite L1, Nat.eqb_refl. cbn [negb].
  rewrite L2, L3, L4, L5, L6, from_be_bytes by (change (256 ^ Z.of_nat 32) with (2 ^ 256); lia).
  replace (negb (etag =? 2) && negb (etag =? 3)) with false by (by destruct Hetag as [-> | ->]).
  rewrite Her. cbn [mbind option_bind]. rewrite shared_point, Es. cbn [mbind option_bind].
  rewrite (decrypt_split _ _ _ _ Ea), Hpl. cbv [AUTHENTICATED_WITHDRAWAL_PLAINTEXT_SIZE].
  by rewrite Nat.eqb_refl, Hfs, Hft.
Qed.
End proofs.

(** ** Witnesses: the group of order 3 *)

Module EciesExamples.
Definition Pt : Type := dsig (fun z : Z => z mod 3 = z).
Definition mk (z : Z) : Pt := dexist (z mod 3) (Z.mod_mod z 3 ltac:(lia)).
Definition val (p : Pt) : Z := proj1_sig p.

Lemma val_mod p : val p mod 3 = val p.
Proof. exact (proj2_dsig p). Defined.
Lemma pt_eq p p' : val p = val p' -> p = p'.
Proof. by rewrite <- (dsig_eq _ p p'). Defined.
Lemma val_mk z : val (mk z) = z mod 3.
Proof. done. Defined.

Definition enc (p : Pt) : list Z := if val p =? 0 then [0] else 2 :: be_bytes 32 (val p).
Definition dec (l : list Z) : option Pt :=
  match l with
  | t :: x => if (t =? 2) && (0 <? from_be x) && (from_be x <? 3) then Some (mk (from_be x)) else None
  | [] => None
  end.
#[local] Instance curve3 : Curve :=
  mkCurve Pt 3 (mk 1) (fun a p => mk (a * val p)) (fun p p' => mk (val p - val p')) enc
    (fun p => [4; val p]) dec.

Lemma enc_length p : length (enc p) = 33%nat <-> val p <> 0.
Proof.
  unfold enc. destruct (Z.eqb_spec (val p) 0) as [->|Hne]; [done|].
  cbn [length]. rewrite be_bytes_length. done.
Defined.

Ltac mod3 := apply pt_eq; rewrite ?val_mk; Z.div_mod_to_equations; lia.

Lemma curve3_laws : CurveLaws.
Proof.
  split; unfold not_identity; cbn -[enc dec mk val].
  - apply prime_alt, Z.prime_3.
  - lia.
  - intros p. pose proof (val_mod p). mod3.
  - intros a p. apply pt_eq. rewrite !val_mk. by rewrite Zmult_mod_idemp_l.
  - intros a b p. apply pt_eq. rewrite !val_mk. rewrite Zmult_mod_idemp_r. f_equal. lia.
  - intros a b p. apply pt_eq. rewrite !val_mk. rewrite <- Zminus_mod. f_equal. lia.
  - intros a b c d E. apply (f_equal val) in E. rewrite !val_mk in E. mod3.
  - by vm_compute.
  - intros a p Hp Ha. apply enc_length. apply enc_length in Hp. pose proof (val_mod p) as Hv.
    rewrite val_mk. pose proof (Z.mod_pos_bound (val p) 3).
    assert (val p = 1 \/ val p = 2) as [-> | ->] by lia; assert (a = 1 \/ a = 2) as [-> | ->] by lia; done.
  - intros p Hp%enc_length. pose proof (val_mod p) as Hv. pose proof (Z.mod_pos_bound (val p) 3).
    exists 2, (val p). unfold enc, dec. rewrite (proj2 (Z.eqb_neq _ _) Hp).
    rewrite from_be_bytes by (change (256 ^ Z.of_nat 32) with (2 ^ 256); lia).
    rewrite (proj2 (Z.ltb_lt 0 (val p))), (proj2 (Z.ltb_lt (val p) 3)) by lia.
    split_and!; [done|by left|lia|lia|]. cbn [andb]. f_equal. apply pt_eq. by rewrite val_mk.
  - intros l p _ Hd. apply enc_length. unfold dec in Hd.
    destruct l as [|t x]; [done|].
    destruct (t =? 2), (Z.ltb_spec 0 (from_be x)), (Z.ltb_spec (from_be x) 3); cbn [andb] in Hd; try done.
    injection Hd as <-. rewrite val_mk, Z.mod_small; lia.
Defined.

Definition sum (l : list Z) : Z := foldr Z.add 0 l.
Definition prims (k : list Z -> Z) : Primitives :=
  mkPrimitives (fun l => be_bytes 32 (1 + sum l mod 2)) k
    (fun key nonce p => Some (p ++ replicate 16 7))
    (fun key nonce e aad => if bool_decide (drop (length e - 16) e = replicate 16 7)
                            then Some (take (length e - 16) e) else None).

Lemma cipher_laws k : @CipherLaws (prims k).
Proof.
  split. intros key nonce p e E. apply (inj Some) in E as <-.
  assert (Hl : length (p ++ replicate 16 7) = (length p + 16)%nat) by (by rewrite length_app).
  split; [exact Hl|]. cbv beta iota delta [aes_decrypt prims]. rewrite Hl.
  replace (length p + 16 - 16)%nat with (length p) by lia.
  rewrite drop_app_length, take_app_length. by rewrite bool_decide_eq_true_2.
Defined.

#[local] Instance prims0 : Primitives := prims sum.

Lemma wire2 : wire (smul 2 generator) 2 2.
Proof.
  split; [by vm_compute|]. split; [by left|]. split; [lia|].
  change (recover_point 2 2) with (dec (2 :: be_bytes 32 2)). unfold dec.
  rewrite from_be_bytes by (change (256 ^ Z.of_nat 32) with (2 ^ 256); lia). by f_equal.
Defined.
Lemma key2 : secret_key 2. Proof. by vm_compute. Defined.

Lemma cp_proof_verifies_witness :
  exists proof, compute_ecdh_proof 2 1 2 = Some proof /\
    verify_chaum_pedersen 1 2 (shared_secret proof) (shared_secret_y_parity proof) 2 2
      (cp_proof_s proof) (cp_proof_c proof) = true.
Proof.
  destruct (recover_point 1 2) as [eph|] eqn:E; [|by vm_compute in E].
  apply (cp_proof_verifies curve3_laws 2 1 2 2 2 eph key2 wire2 E).
  vm_compute in E. injection E as <-. by vm_compute.
Defined.

Lemma cp_special_soundness_witness :
  exists eph secret pub x, recover_point 1 2 = Some eph /\ recover_point 2 2 = Some secret /\
    recover_point 2 2 = Some pub /\ pub = smul x generator /\ secret = smul x eph.
Proof.
  apply (cp_special_soundness curve3_laws (prims (fun _ => 0)) (prims (fun _ => 1)) 1 2 2 2 2 2 1 0 0 1).
  - by vm_compute.
  - by vm_compute.
  - intros eph sec pub E1 E2 E3. vm_compute in E1, E2, E3. simplify_eq.
    unfold commitments. f_equal; apply pt_eq; by vm_compute.
  - by vm_compute.
Defined.

Lemma deposit_roundtrip_witness :
  exists args proof, encrypt_deposit 1 (replicate 12 5) 2 2 77 88 9 0 = Some args /\
    decrypt_deposit 2 (eph_pub_x args) (eph_pub_y_parity args) (ea_ciphertext args) (ea_nonce args)
      (ea_tag args) 9 0 = Some (mkDecrypted proof 77 88).
Proof.
  destruct (encrypt_deposit 1 (replicate 12 5) 2 2 77 88 9 0) as [args|] eqn:E; [|by vm_compute in E].
  destruct (deposit_roundtrip curve3_laws (cipher_laws sum) 2 1 (replicate 12 5) 2 2 77 88 9 0 args key2
    ltac:(by vm_compute) wire2 ltac:(lia) ltac:(lia) E) as (proof & Hd & _).
  - vm_compute in E. injection E as <-. by vm_compute.
  - by exists args, proof.
Defined.

Lemma withdrawal_roundtrip_witness :
  exists out, encrypt_authenticated_withdrawal_with_material (2 :: be_bytes 32 2) 55 66 1 (replicate 12 5)
                = Some out /\ decrypt_authenticated_withdrawal 2 out = Some (55, 66).
Proof.
  destruct (encrypt_authenticated_withdrawal_with_material (2 :: be_bytes 32 2) 55 66 1 (replicate 12 5))
    as [out|] eqn:E; [|by vm_compute in E].
  exists out. split; [done|].
  exact (proj2 (withdrawal_roundtrip curve3_laws (cipher_laws sum) 2 (2 :: be_bytes 32 2) 55 66 1
    (replicate 12 5) out key2 ltac:(by vm_compute) eq_refl ltac:(by vm_compute) ltac:(lia) ltac:(lia) E)).
Defined.
End EciesExamples.
