(* ===== verification/PrepareBlock.v ===== *)
(** * Preparing an L1 block for the payload builder

    Models [L1BlockDeposits::prepare] of src/crates/l1/src/block.rs: every
    deposit of the block becomes a queued deposit; an encrypted one is
    decrypted, its recipient checked against the token's policy, and given
    the decryption data the inbox contract verifies.  The ABI encoding of the
    deposit structs is a parameter; the policy provider is PolicyProvider.v
    and the decryption Ecies.v. *)

From S2P Require Import Prelude.
From S2P Require Import Policy.
From S2P Require Import PolicyCache.
From S2P Require Import PolicyProvider.
From S2P Require Import L1State.
From S2P Require Import DepositQueue.
From S2P Require Import Ecies.
From S2P Require Import EciesProofs.
#[local] Open Scope Z_scope.

Record QueuedDeposit := mkQueued {
  q_depositType : DepositType; q_depositData : list Z; q_rejected : bool
}.
Record DecryptionData := mkDecryption {
  dd_sharedSecret : Z; dd_sharedSecretYParity : Z; dd_s : Z; dd_c : Z
}.

Record PreparedL1Block := mkPrepared {
  pb_header : SealedHeader;
  queued_deposits : list QueuedDeposit;
  decryptions : list DecryptionData;
  pb_enabled_tokens : list EnabledToken
}.

Section prepare.
Context {CV : Curve} {PR : Primitives}.
Context (abi_encode_deposit : AbiDeposit -> list Z) (abi_encode_encrypted_deposit : AbiEncryptedDeposit -> list Z).
Context (rpc : L1Rpc) (sequencer_key portal_address : Z).

Definition to_decryption (p : EcdhProofResult) : DecryptionData :=
  mkDecryption (shared_secret p) (shared_secret_y_parity p) (cp_proof_s p) (cp_proof_c p).

(** Used when the ephemeral key is not a point: the contract bounces the
    deposit back. *)
Definition zeroed_decryption : DecryptionData := mkDecryption 0 0x02 0 0.

Definition reject (q : QueuedDeposit) : QueuedDeposit :=
  mkQueued (q_depositType q) (q_depositData q) true.

(** One turn of the loop: what it pushes on the two lists. *)
Definition prepare_deposit (l1_block_number : Z) (deposit : L1Deposit)
    : P (QueuedDeposit * option DecryptionData) :=
  match deposit with
  | Regular d => mret (mkQueued TyRegular (abi_encode_deposit (abi_deposit d)) false, None)
  | Encrypted d =>
      let queued := mkQueued TyEncrypted (abi_encode_encrypted_deposit (abi_encrypted d)) false in
      let dec := decrypt_deposit sequencer_key (e_ephemeral_pubkey_x d) (e_ephemeral_pubkey_y_parity d)
                   (e_ciphertext d) (e_nonce d) (e_tag d) portal_address (e_key_index d) in
      match dec with
      | Some dec =>
          authorized ← provider_is_authorized rpc (e_token d) (dec_to dec) l1_block_number MintRecipient;
          if negb authorized then mret (reject queued, None)
          else mret (queued, Some (to_decryption (dec_proof dec)))
      | None =>
          match compute_ecdh_proof sequencer_key (e_ephemeral_pubkey_x d) (e_ephemeral_pubkey_y_parity d) with
          | Some proof => mret (queued, Some (to_decryption proof))
          | None => mret (queued, Some zeroed_decryption)
          end
      end
  end.

Fixpoint prepare_loop (l1_block_number : Z) (deposits : list L1Deposit)
    (queued : list QueuedDeposit) (decs : list DecryptionData)
    : P (list QueuedDeposit * list DecryptionData) :=
  match deposits with
  | [] => mret (queued, decs)
  | deposit :: deposits' =>
      '(q, dec) ← prepare_deposit l1_block_number deposit;
      prepare_loop l1_block_number deposits' (queued ++ [q]) (decs ++ option_list dec)
  end.

Definition prepare (b : L1BlockDeposits) : P PreparedL1Block :=
  let l1_block_number := h_number (header b) in
  '(queued, decs) ← prepare_loop l1_block_number (deposits (events b)) [] [];
  mret (mkPrepared (header b) queued decs (enabled_tokens (events b))).

(** ** What a prepared deposit must be *)

Definition decrypts (d : EncryptedDeposit) : option DecryptedDeposit :=
  decrypt_deposit sequencer_key (e_ephemeral_pubkey_x d) (e_ephemeral_pubkey_y_parity d)
    (e_ciphertext d) (e_nonce d) (e_tag d) portal_address (e_key_index d).

Section spec.
Context (T : L1Policies) (n : Z).

(** The recipient an encrypted deposit decrypts to is forbidden by L1. *)
Definition forbidden (d : EncryptedDeposit) : bool :=
  match decrypts d with
  | Some dec => negb (l1_authorized T (PolicyProvider.t_token T (e_token d)) (dec_to dec) MintRecipient)
  | None => false
  end.

Definition decryption_of (d : EncryptedDeposit) : DecryptionData :=
  match compute_ecdh_proof sequencer_key (e_ephemeral_pubkey_x d) (e_ephemeral_pubkey_y_parity d) with
  | Some proof => to_decryption proof
  | None => zeroed_decryption
  end.

Definition spec_queued (deposit : L1Deposit) : QueuedDeposit :=
  match deposit with
  | Regular d => mkQueued TyRegular (abi_encode_deposit (abi_deposit d)) false
  | Encrypted d => mkQueued TyEncrypted (abi_encode_encrypted_deposit (abi_encrypted d)) (forbidden d)
  end.

Definition spec_decryption (deposit : L1Deposit) : option DecryptionData :=
  match deposit with
  | Regular _ => None
  | Encrypted d => if forbidden d then None else Some (decryption_of d)
  end.

Lemma decrypts_proof d dec :
  decrypts d = Some dec ->
  compute_ecdh_proof sequencer_key (e_ephemeral_pubkey_x d) (e_ephemeral_pubkey_y_parity d)
    = Some (dec_proof dec).
Proof.
  unfold decrypts, decrypt_deposit. intros (proof & E & H)%bind_Some. cbv zeta in H.
  destruct (decrypt_aes_gcm _ _ _ _ _) as [plaintext valid].
  destruct (negb valid || _); [done|]. injection H as <-. exact E.
Qed.

Context (HT : Truthful T n rpc) (HW : L1_wf T).
Abbreviation triple := (triple T n rpc).

Lemma triple_prepare_deposit deposit :
  triple (prepare_deposit n deposit)
    (fun r => r = (spec_queued deposit, spec_decryption deposit)).
Proof.
  destruct deposit as [d|d]; cbn [prepare_deposit spec_queued spec_decryption]; [by apply triple_ret|].
  cbv zeta. fold (decrypts d). unfold forbidden, decryption_of.
  destruct (decrypts d) as [dec|] eqn:Ed.
  - eapply triple_bind; [by apply triple_is_authorized|]. intros a ->. rewrite (decrypts_proof d dec Ed).
    destruct (l1_authorized T _ _ MintRecipient); cbn; by apply triple_ret.
  - destruct (compute_ecdh_proof _ _ _); by apply triple_ret.
Qed.

Lemma triple_prepare_loop ds queued decs :
  triple (prepare_loop n ds queued decs)
    (fun r => r = (queued ++ (spec_queued <$> ds), decs ++ concat ((fun d => option_list (spec_decryption d)) <$> ds))).
Proof.
  revert queued decs. induction ds as [|d ds IH]; intros queued decs; cbn [prepare_loop].
  { apply triple_ret. cbn. by rewrite !app_nil_r. }
  eapply triple_bind; [apply triple_prepare_deposit|]. intros r ->.
  intros c Hc. destruct (IH (queued ++ [spec_queued d]) (decs ++ option_list (spec_decryption d)) c Hc) as [H1 H2].
  split; [done|]. destruct (prepare_loop _ _ _ _ _).1; [|done]. cbn. rewrite H2. cbn. by rewrite <- !app_assoc.
Qed.

(** C16. With a policy cache that is true of L1 at the block ([Agree]; an update
    recorded ahead of the block would break it, see
    [future_update_answers_past_query]), preparing a block keeps every deposit, in order and with its own data,
    rejects exactly the encrypted ones that decrypt to a recipient the
    token's mint policy forbids on L1, and attaches one decryption record to
    each encrypted deposit that is not rejected, in order.  The only error is
    an unanswered L1 query, so a forbidden deposit is never let through
    because L1 is unreachable. *)
Theorem prepare_correct b c :
  Agree T n c -> h_number (header b) = n ->
  let ds := deposits (events b) in
  match (prepare b c).1 with
  | Ok pb =>
      queued_deposits pb = spec_queued <$> ds /\
      decryptions pb = concat ((fun d => option_list (spec_decryption d)) <$> ds) /\
      pb_header pb = header b /\ pb_enabled_tokens pb = enabled_tokens (events b)
  | Err e => e = RpcFailed /\ ~ Answering n rpc
  end.
Proof.
  intros Hc Hn. unfold prepare. cbv zeta. rewrite Hn.
  destruct (triple_prepare_loop (deposits (events b)) [] [] c Hc) as [_ H].
  unfold mbind, P_bind. destruct (prepare_loop n (deposits (events b)) [] [] c) as [[r|e] c']; [|done].
  cbn [fst] in H. by subst r.
Qed.

(** The decryption records of a prepared list, one per encrypted deposit that
    is not rejected. *)
Definition needs_decryption (q : QueuedDeposit) : bool :=
  match q_depositType q with TyEncrypted => negb (q_rejected q) | TyRegular => false end.

Lemma decryption_per_deposit ds :
  length (concat ((fun d => option_list (spec_decryption d)) <$> ds)) =
  length (List.filter needs_decryption (spec_queued <$> ds)).
Proof.
  induction ds as [|d ds IH]; [done|]. cbn [fmap list_fmap concat List.filter].
  rewrite length_app, IH. destruct d as [d|d]; [done|]. cbn. by destruct (forbidden d).
Qed.

(** The inbox finds the decryption data it expects: a prepared block has
    exactly as many records as encrypted deposits not marked rejected, and
    every record belongs to a deposit whose ephemeral key is a point (its
    proof is accepted by the on-chain verifier against the sequencer's public
    key) or is the zero record of an invalid key. *)
Theorem decryptions_verify b c pb pub_x pub_tag :
  CurveLaws -> wire (smul sequencer_key generator) pub_x pub_tag ->
  Agree T n c -> h_number (header b) = n -> (prepare b c).1 = Ok pb ->
  length (decryptions pb) = length (List.filter needs_decryption (queued_deposits pb)) /\
  forall dd, dd ∈ decryptions pb ->
    exists d, Encrypted d ∈ deposits (events b) /\
      (dd = zeroed_decryption \/
       verify_chaum_pedersen (e_ephemeral_pubkey_x d) (e_ephemeral_pubkey_y_parity d)
         (dd_sharedSecret dd) (dd_sharedSecretYParity dd) pub_x pub_tag (dd_s dd) (dd_c dd) = true).
Proof.
  intros CL Hw Hc Hn Hpb.
  assert (Hq : queued_deposits pb = spec_queued <$> deposits (events b) /\
    decryptions pb = concat ((fun d => option_list (spec_decryption d)) <$> deposits (events b))).
  { destruct (triple_prepare_loop (deposits (events b)) [] [] c Hc) as [_ H].
    unfold prepare in Hpb. cbv zeta in Hpb. rewrite Hn in Hpb. unfold mbind, P_bind in Hpb.
    destruct (prepare_loop n (deposits (events b)) [] [] c) as [[r|e] c']; [|done].
    cbn [fst] in *. subst r. by injection Hpb as <-. }
  destruct Hq as [-> ->]. split; [apply decryption_per_deposit|].
  intros dd (xs & Hxs & Hdd)%list_elem_of_In%in_concat.
  apply list_elem_of_In, list_elem_of_fmap in Hxs as (x & -> & Hx). apply list_elem_of_In in Hdd.
  destruct x as [d|d]; cbn in Hdd; [by apply not_elem_of_nil in Hdd|].
  destruct (forbidden d); cbn in Hdd; [by apply not_elem_of_nil in Hdd|].
  apply list_elem_of_singleton in Hdd as ->. exists d. split; [done|]. unfold decryption_of.
  destruct (compute_ecdh_proof _ _ _) as [proof|] eqn:E; [right|by left].
  apply (verified_proof CL sequencer_key (e_ephemeral_pubkey_x d)
    (e_ephemeral_pubkey_y_parity d) proof pub_x pub_tag Hw E).
Qed.
End spec.
End prepare.

(** ** Witnesses: a block with a plain, an allowed and a forbidden deposit *)

Module PrepareExamples.
Import PolicyProviderExamples.
Import EciesExamples.
#[local] Existing Instance curve3.
#[local] Existing Instance prims0.

(** Token 6 is governed by a blacklist that holds user 13. *)
Definition l1b : L1Policies := mkL1Policies
  (fun t => if t =? 6 then 9 else 1) (fun _ => BLACKLIST) (fun _ => compound7)
  (fun id user => (id =? 9) && (user =? 13)).
Definition askb : L1Rpc := mkL1Rpc
  (fun t _ => Some (PolicyProvider.t_token l1b t)) (fun id _ => Some (t_type l1b id))
  (fun id _ => Some (t_compound l1b id)) (fun id user _ => Some (l1_simple l1b id user))
  (fun _ _ => Some true).
Lemma askb_truthful : Truthful l1b 10 askb.
Proof. split; cbn; intros; congruence. Defined.
Lemma l1b_wf : L1_wf l1b.
Proof. by split. Defined.

Definition enc_dep (to : Z) : L1Deposit :=
  match encrypt_deposit 1 (replicate 12 5) 2 2 to 88 9 0 with
  | Some a => Encrypted (mkEncrypted 6 3 50 1 3 0 (eph_pub_x a) (eph_pub_y_parity a) (ea_ciphertext a)
                           (ea_nonce a) (ea_tag a))
  | None => Regular (mkDeposit 0 0 0 0 0 0 0)
  end.
Definition block10 : L1BlockDeposits :=
  mkBlock (mkHeader 10 1000 900)
    (from_deposits [Regular (mkDeposit 6 3 4 100 1 3 0); enc_dep 12; enc_dep 13]) [] 0 0.
Abbreviation prep := (prepare (fun _ => []) (fun _ => [1]) askb 2 9 block10 cache_default).

Lemma prepare_correct_witness :
  match prep.1 with
  | Ok pb => q_rejected <$> queued_deposits pb = [false; false; true] /\
             queued_deposits pb = spec_queued (fun _ => []) (fun _ => [1]) 2 9 l1b <$> deposits (events block10)
  | Err _ => False
  end.
Proof.
  pose proof (prepare_correct (fun _ => []) (fun _ => [1]) askb 2 9 l1b 10 askb_truthful l1b_wf
    block10 cache_default (agree_default l1b 10) eq_refl) as H.
  assert (Hr : (match prep.1 with Ok pb => q_rejected <$> queued_deposits pb | Err _ => [] end)
               = [false; false; true]) by (vm_compute; reflexivity).
  destruct prep.1 as [pb|e]; [|done]. split; [done|]. apply H.
Defined.

Lemma decryptions_verify_witness :
  exists pb, prep.1 = Ok pb /\ length (decryptions pb) = 1%nat /\
    length (decryptions pb) = length (List.filter needs_decryption (queued_deposits pb)).
Proof.
  destruct prep.1 as [pb|e] eqn:E; [|by vm_compute in E].
  exists pb. split; [done|].
  pose proof (decryptions_verify (fun _ => []) (fun _ => [1]) askb 2 9 l1b 10 askb_truthful l1b_wf
    block10 cache_default pb 2 2 curve3_laws wire2 (agree_default l1b 10) eq_refl E) as [H _].
  split; [|exact H]. vm_compute in E. injection E as <-. done.
Defined.
End PrepareExamples.
