(* ===== verification/Withdrawals.v ===== *)
(** * The withdrawal queue and its processor

    Models src/crates/sequencer/src/withdrawals.rs: the in-memory store of
    withdrawal batches and the task that drains the portal's queue on L1;
    [queue_hash] of contracts/src/precompiles/zone_portal.rs and
    [find_processed_offset] of sequencer/src/settlement.rs.  The portal's
    queue is the reference contract's
    (specs/ref-impls/src/libraries/WithdrawalQueueLib.sol).

    L1 is shared: before every request of the processor other parties act
    (the monitor submits batches and stores them, transactions broadcast
    earlier land), and every request has a fate (answered, failed, a
    transaction lost, mined unseen, reverted for lack of gas).  The [oracle]
    of the world says which; no assumption is made on it.  What a failed
    cycle already did stays done.  Keccak-256 and the ABI encoding of a
    withdrawal with the rest of its queue are parameters. *)

From S2P Require Import Prelude.
From S2P Require Import BTree.
#[local] Open Scope Z_scope.

Definition EMPTY_SENTINEL : Z := U256_MAX.
Definition NO_QUEUE_INDEX : Z := U256_MAX.
Definition WITHDRAWAL_QUEUE_CAPACITY : Z := 100.
Definition MAX_WITHDRAWAL_GAS_LIMIT : Z := 10000000.
Definition PROCESS_WITHDRAWAL_CALLBACK_OVERHEAD_GAS : Z := 2000000.

Record Withdrawal := mkWithdrawal {
  w_token : Z; w_senderTag : Z; w_to : Z; w_amount : Z; w_fee : Z; w_memo : Z;
  w_gasLimit : Z; w_fallbackRecipient : Z;
  w_callbackData : list Z; w_encryptedSender : list Z
}.

(** ** The portal's ring buffer *)

Record WithdrawalQueue := mkQueue { q_head : Z; q_tail : Z; q_slots : gmap Z Z }.

Definition slot_at (q : WithdrawalQueue) (i : Z) : Z := default 0 (q_slots q !! i).

Inductive QueueError := NoWithdrawalsInQueue | InvalidWithdrawalHash | WithdrawalQueueFull.

Definition q_enqueue (q : WithdrawalQueue) (withdrawalQueueHash : Z)
    : result QueueError (Z * WithdrawalQueue) :=
  if withdrawalQueueHash =? 0 then Ok (NO_QUEUE_INDEX, q)
  else
    let tail := q_tail q in
    if WITHDRAWAL_QUEUE_CAPACITY <=? tail - q_head q then Err WithdrawalQueueFull
    else Ok (tail, mkQueue (q_head q) (tail + 1)
                     (<[tail mod WITHDRAWAL_QUEUE_CAPACITY := withdrawalQueueHash]> (q_slots q))).

(** ** The store *)

Abbreviation WithdrawalStore := (btree (list Withdrawal)).

Definition add_withdrawal (s : WithdrawalStore) (batch_index : Z) (w : Withdrawal) : WithdrawalStore :=
  bt_update [] (fun b => b ++ [w]) batch_index s.
Definition add_batch (s : WithdrawalStore) (batch_index : Z) (ws : list Withdrawal) : WithdrawalStore :=
  bt_insert batch_index ws s.
Definition replace_batches (_ : WithdrawalStore) (batches : WithdrawalStore) : WithdrawalStore := batches.
Definition get_batch (s : WithdrawalStore) (batch_index : Z) : option (list Withdrawal) :=
  bt_lookup batch_index s.
Definition remove_batch (s : WithdrawalStore) (batch_index : Z) : WithdrawalStore :=
  sel (fun k => negb (k =? batch_index)) s.
Definition has_batch (s : WithdrawalStore) (batch_index : Z) : bool :=
  bool_decide (is_Some (bt_lookup batch_index s)).
Definition batch_count (s : WithdrawalStore) : nat := length s.

Definition slot_range (s : WithdrawalStore) : option (Z * Z) :=
  first ← fst <$> head s; last ← fst <$> last s; Some (first, last).

Definition summary (s : WithdrawalStore) : nat * option Z * option Z :=
  match slot_range s with
  | Some (first, last) => (batch_count s, Some first, Some last)
  | None => (batch_count s, None, None)
  end.

Definition neighboring_slots (s : WithdrawalStore) (slot : Z) : option Z * option Z :=
  (fst <$> last_lt slot s, fst <$> head (remove_lt (saturating_add U64_MAX slot 1) s)).

Record StoreSnapshot := mkSnapshot {
  ss_batch_count : nat; ss_first_slot : option Z; ss_last_slot : option Z;
  ss_prev_slot : option Z; ss_next_slot : option Z;
  ss_withdrawals : option (list Withdrawal)
}.

Definition capture_store_snapshot (s : WithdrawalStore) (slot : Z) : StoreSnapshot :=
  let '(batch_count, first_slot, last_slot) := summary s in
  let '(prev_slot, next_slot) := neighboring_slots s slot in
  mkSnapshot batch_count first_slot last_slot prev_slot next_slot (get_batch s slot).

(** ** Gas of a [processWithdrawal] transaction *)

Definition eip150_cushion (gas_limit : Z) : Z :=
  gas_limit / 63 + (if gas_limit mod 63 =? 0 then 0 else 1).

Definition process_withdrawal_tx_gas_limit (callback_gas_limit : Z) : Z :=
  let bounded_callback_gas :=
    if MAX_WITHDRAWAL_GAS_LIMIT <? callback_gas_limit then MAX_WITHDRAWAL_GAS_LIMIT
    else callback_gas_limit in
  bounded_callback_gas + PROCESS_WITHDRAWAL_CALLBACK_OVERHEAD_GAS +
    eip150_cushion bounded_callback_gas.

(** ** L1 and the world of the processor *)

(** A broadcast [processWithdrawal(withdrawal, remainingQueue)]; [None] leaves
    the gas to the node's estimate. *)
Record Tx := mkTx { tx_withdrawal : Withdrawal; tx_remaining : Z; tx_gas : option Z }.

(** A broadcast [submitBatch]; [stx_withdrawals] is what the queue hash
    commits to, which the portal does not see.  [stx_legacy] marks a call of
    the selector without deposit numbers, which the portal does not have. *)
Record SubmitTx := mkSubmitTx {
  stx_from : Z; stx_tempoBlockNumber : Z; stx_recentTempoBlockNumber : Z;
  stx_prevBlockHash : Z; stx_nextBlockHash : Z;
  stx_prevProcessedHash : Z; stx_nextProcessedHash : Z;
  stx_prevDepositNumber : Z; stx_nextDepositNumber : Z;
  stx_withdrawalQueueHash : Z; stx_verifierConfig : list Z; stx_proof : list Z;
  stx_legacy : bool; stx_withdrawals : list Withdrawal
}.

(** The rest of the portal's state, the number of the latest L1 block, the
    block hashes EIP-2935 serves at a block, the verifier contract (over the
    anchor's number and hash, the expected batch index, the sequencer and the
    call's arguments), and the submissions broadcast and not yet mined. *)
Record Portal := mkPortal {
  p_sequencer : Z; p_genesisTempoBlockNumber : Z;
  p_verifier : Z -> Z -> Z -> Z -> SubmitTx -> bool; p_eip2935 : Z -> Z -> Z;
  p_withdrawalBatchIndex : Z; p_blockHash : Z; p_depositCount : Z;
  p_lastProcessedDepositNumber : Z; p_lastSyncedTempoBlockNumber : Z;
  p_tip : Z; p_pending : list SubmitTx
}.

(** [submitted] lists the batches enqueued so far and [paid] the withdrawals
    dequeued so far: the history of the portal. *)
Record L1 := mkL1 {
  queue : WithdrawalQueue;
  submitted : list (list Withdrawal);
  paid : list Withdrawal;
  mempool : list Tx;
  portal : Portal
}.

Inductive EnvAction :=
| SubmitBatch (ws : list Withdrawal)   (** a batch accepted by the portal *)
| StoreBatch (index : nat)             (** the monitor stores a submitted batch *)
| SendTx (tx : Tx)                     (** a [processWithdrawal] is broadcast *)
| LandTx (i : nat)                     (** a broadcast transaction is mined *)
| LandSubmit (i : nat)                 (** a broadcast [submitBatch] is mined *)
| DropBatch (slot : Z)                 (** the data of a drained slot is dropped *)
| NewBlock (deposits : Z).             (** L1 advances, with new deposits *)

Inductive Fate :=
| Fine         (** answered; a transaction is mined and its receipt seen *)
| Fails        (** the request fails, a transaction is not broadcast *)
| Lost         (** broadcast, no receipt in time; it may land later *)
| MinedUnseen  (** mined, but no receipt in time *)
| OutOfGas.    (** mined and reverted, whatever its data *)

(** [t_tail_first]: of two concurrent reads, the second is served first. *)
Record Turn := mkTurn { t_env : list EnvAction; t_fate : Fate; t_tail_first : bool }.
Definition calm : Turn := mkTurn [] Fine false.

Record World := mkWorld {
  l1 : L1; store : WithdrawalStore; repair_requested : bool; oracle : list Turn
}.

(** Errors of the sequencer's tasks; those from [NoBatchEvent] on are raised
    when the store is rebuilt (Settlement.v), those from [BelowGenesis] on by
    the monitor (Monitor.v). *)
Inductive ProcessError :=
| RpcError | HeadOverflow | TailOverflow | OutOfFuel
| NoBatchEvent (slot : Z) | NoWithdrawalData (slot : Z) | SlotHashMismatch (slot : Z)
| NoProcessedOffset (slot : Z) | QueueChanged
| IndexOverflow | DuplicateBatchEvent (index : Z) | ZoneBlockNotFound (hash : Z)
| MissingTransactionHash | NoBoundary | NotOnBoundary | SeveralBoundaries
| MissingFinalizeTx | UndecodableFinalizeTx | SenderCountMismatch | BatchHashMismatch
| BelowGenesis | WithdrawalQueueIsFull | NotYetConfirmed | HeaderNotFound (n : Z)
| ParentHashBroken (n : Z) | ProofRefused | SubmitReverted | MissingEvent
| BatchIndexOverflow | BatchIndexMismatch | ZoneBlockMissing | QueueIndexOverflow
| RetriesExhausted.

(** Requests and local writes survive an error. *)
Definition W (A : Type) : Type := World -> result ProcessError A * World.
#[export] Instance W_ret : MRet W := fun A a w => (Ok a, w).
#[export] Instance W_bind : MBind W := fun A B f m w =>
  match m w with
  | (Ok a, w') => f a w'
  | (Err e, w') => (Err e, w')
  end.
Definition w_fail {A} (e : ProcessError) : W A := fun w => (Err e, w).
Definition w_read {A} (f : World -> A) : W A := fun w => (Ok (f w), w).
Definition w_modify (f : World -> World) : W unit := fun w => (Ok tt, f w).

Definition with_l1 (f : L1 -> L1) (w : World) : World :=
  mkWorld (f (l1 w)) (store w) (repair_requested w) (oracle w).
Definition with_store (f : WithdrawalStore -> WithdrawalStore) (w : World) : World :=
  mkWorld (l1 w) (f (store w)) (repair_requested w) (oracle w).
(** [repair_notify.notify_one()] *)
Definition notify_repair (w : World) : World := mkWorld (l1 w) (store w) true (oracle w).

Inductive SubmitOutcome := Confirmed | Reverted | Unconfirmed.

Section processor.
Context (keccak256 : list Z -> Z) (abi_encode_params : Withdrawal -> Z -> list Z).

(** [keccak256((w, rest).abi_encode_params())] *)
Definition hash_link (w : Withdrawal) (rest : Z) : Z := keccak256 (abi_encode_params w rest).

Definition queue_hash (withdrawals : list Withdrawal) : Z :=
  match withdrawals with
  | [] => 0
  | _ => foldl (fun hash w => hash_link w hash) EMPTY_SENTINEL (reverse withdrawals)
  end.

Definition compute_remaining_queue (withdrawals : list Withdrawal) (processed_count : nat) : Z :=
  if (length withdrawals <=? processed_count)%nat then 0
  else queue_hash (drop processed_count withdrawals).

(** The loop over [0..=withdrawals.len()], from [offset] on. *)
Fixpoint find_offset_from (withdrawals : list Withdrawal) (offset : nat) (current_slot_hash : Z)
    : option nat :=
  if queue_hash withdrawals =? current_slot_hash then Some offset
  else
    match withdrawals with
    | [] => None
    | _ :: rest => find_offset_from rest (S offset) current_slot_hash
    end.

Definition find_processed_offset (withdrawals : list Withdrawal) (current_slot_hash : Z) : option nat :=
  find_offset_from withdrawals 0 current_slot_hash.

Definition q_dequeue (q : WithdrawalQueue) (withdrawal : Withdrawal) (remainingQueue : Z)
    : result QueueError WithdrawalQueue :=
  let head := q_head q in
  if head =? q_tail q then Err NoWithdrawalsInQueue
  else
    let slotIndex := head mod WITHDRAWAL_QUEUE_CAPACITY in
    let currentSlot := slot_at q slotIndex in
    if (currentSlot =? EMPTY_SENTINEL) || (remainingQueue =? EMPTY_SENTINEL)
    then Err InvalidWithdrawalHash
    else
      let expectedRemainingQueue := if remainingQueue =? 0 then EMPTY_SENTINEL else remainingQueue in
      if negb (hash_link withdrawal expectedRemainingQueue =? currentSlot)
      then Err InvalidWithdrawalHash
      else if remainingQueue =? 0
      then Ok (mkQueue (head + 1) (q_tail q) (<[slotIndex := EMPTY_SENTINEL]> (q_slots q)))
      else Ok (mkQueue head (q_tail q) (<[slotIndex := remainingQueue]> (q_slots q))).

(** A mined [processWithdrawal]: [None] is a revert. *)
Definition exec_tx (l : L1) (tx : Tx) : option L1 :=
  match q_dequeue (queue l) (tx_withdrawal tx) (tx_remaining tx) with
  | Ok q => Some (mkL1 q (submitted l) (paid l ++ [tx_withdrawal tx]) (mempool l) (portal l))
  | Err _ => None
  end.

Definition submit_hash (l : L1) (ws : list Withdrawal) : L1 :=
  match q_enqueue (queue l) (queue_hash ws) with
  | Ok (_, q) =>
      mkL1 q (if queue_hash ws =? 0 then submitted l else submitted l ++ [ws]) (paid l) (mempool l)
        (portal l)
  | Err _ => l
  end.

(** [getBlockHash(anchor)], or 0 when the anchor's number is refused. *)
Definition anchor_of (block_number : Z) (p : Portal) (tx : SubmitTx) : option (Z * Z) :=
  if stx_recentTempoBlockNumber tx =? 0 then
    if block_number <? stx_tempoBlockNumber tx then None
    else Some (stx_tempoBlockNumber tx, p_eip2935 p block_number (stx_tempoBlockNumber tx))
  else if stx_recentTempoBlockNumber tx <=? stx_tempoBlockNumber tx then None
  else if block_number <? stx_recentTempoBlockNumber tx then None
  else Some (stx_recentTempoBlockNumber tx, p_eip2935 p block_number (stx_recentTempoBlockNumber tx)).

(** A mined [submitBatch], in the block after the tip: the queue index the
    portal assigns, and L1 after it; [None] is a revert. *)
Definition submitBatch (l : L1) (tx : SubmitTx) : option (Z * L1) :=
  let p := portal l in
  let block_number := p_tip p + 1 in
  if stx_legacy tx || negb (stx_from tx =? p_sequencer p) ||
     negb (stx_prevBlockHash tx =? p_blockHash p) ||
     (stx_tempoBlockNumber tx <? p_genesisTempoBlockNumber p) then None
  else
    '(anchorBlockNumber, anchorBlockHash) ← anchor_of block_number p tx;
    if (anchorBlockHash =? 0) ||
       negb (stx_prevDepositNumber tx =? p_lastProcessedDepositNumber p) ||
       (stx_nextDepositNumber tx <? stx_prevDepositNumber tx) ||
       (p_depositCount p <? stx_nextDepositNumber tx) then None
    else
      expectedIndex ← checked_add U64_MAX (p_withdrawalBatchIndex p) 1;
      if negb (p_verifier p anchorBlockNumber anchorBlockHash expectedIndex (p_sequencer p) tx) then None
      else
        match q_enqueue (queue l) (stx_withdrawalQueueHash tx) with
        | Err _ => None
        | Ok (assignedQueueIndex, q) =>
            let p' := mkPortal (p_sequencer p) (p_genesisTempoBlockNumber p) (p_verifier p) (p_eip2935 p)
                        expectedIndex (stx_nextBlockHash tx) (p_depositCount p)
                        (stx_nextDepositNumber tx) (stx_tempoBlockNumber tx) block_number (p_pending p) in
            let submitted' := if stx_withdrawalQueueHash tx =? 0 then submitted l
                              else submitted l ++ [stx_withdrawals tx] in
            Some (assignedQueueIndex, mkL1 q submitted' (paid l) (mempool l) p')
        end.

Definition with_pending (f : list SubmitTx -> list SubmitTx) (l : L1) : L1 :=
  let p := portal l in
  mkL1 (queue l) (submitted l) (paid l) (mempool l)
    (mkPortal (p_sequencer p) (p_genesisTempoBlockNumber p) (p_verifier p) (p_eip2935 p)
       (p_withdrawalBatchIndex p) (p_blockHash p) (p_depositCount p) (p_lastProcessedDepositNumber p)
       (p_lastSyncedTempoBlockNumber p) (p_tip p) (f (p_pending p))).

Definition new_block (deposits : Z) (l : L1) : L1 :=
  let p := portal l in
  mkL1 (queue l) (submitted l) (paid l) (mempool l)
    (mkPortal (p_sequencer p) (p_genesisTempoBlockNumber p) (p_verifier p) (p_eip2935 p)
       (p_withdrawalBatchIndex p) (p_blockHash p) (p_depositCount p + Z.max 0 deposits)
       (p_lastProcessedDepositNumber p) (p_lastSyncedTempoBlockNumber p) (p_tip p + 1) (p_pending p)).

Definition with_mempool (f : list Tx -> list Tx) (l : L1) : L1 :=
  mkL1 (queue l) (submitted l) (paid l) (f (mempool l)) (portal l).

Definition env_step (w : World) (a : EnvAction) : World :=
  match a with
  | SubmitBatch ws => with_l1 (fun l => submit_hash l ws) w
  | StoreBatch i =>
      match submitted (l1 w) !! i with
      | Some ws => with_store (fun s => add_batch s (Z.of_nat i) ws) w
      | None => w
      end
  | SendTx tx => with_l1 (with_mempool (fun m => m ++ [tx])) w
  | LandTx i =>
      match mempool (l1 w) !! i with
      | Some tx =>
          let l := with_mempool (delete i) (l1 w) in
          with_l1 (fun _ => default l (exec_tx l tx)) w
      | None => w
      end
  | LandSubmit i =>
      match p_pending (portal (l1 w)) !! i with
      | Some tx =>
          let l := with_pending (delete i) (l1 w) in
          with_l1 (fun _ => default l (snd <$> submitBatch l tx)) w
      | None => w
      end
  | DropBatch slot =>
      if slot <? q_head (queue (l1 w)) then with_store (fun s => remove_batch s slot) w else w
  | NewBlock deposits => with_l1 (new_block deposits) w
  end.

(** The others act, then the request meets its fate. *)
Definition next_turn : W Turn := fun w =>
  let t := default calm (head (oracle w)) in
  let w' := foldl env_step w (t_env t) in
  (Ok t, mkWorld (l1 w') (store w') (repair_requested w') (tail (oracle w))).

Definition l1_read {A} (f : WithdrawalQueue -> A) : W A :=
  t ← next_turn;
  match t_fate t with
  | Fine => w_read (fun w => f (queue (l1 w)))
  | _ => w_fail RpcError
  end.

(** [try_join!] of the reads of the head and of the tail. *)
Definition read_head_tail : W (Z * Z) :=
  first ← w_read (fun w => t_tail_first (default calm (head (oracle w))));
  if first : bool then
    tail ← l1_read q_tail; head ← l1_read q_head; mret (head, tail)
  else
    head ← l1_read q_head; tail ← l1_read q_tail; mret (head, tail).

Definition tx_of (withdrawal : Withdrawal) (remaining_queue : Z) : Tx :=
  mkTx withdrawal remaining_queue
    (if 0 <? w_gasLimit withdrawal then Some (process_withdrawal_tx_gas_limit (w_gasLimit withdrawal))
     else None).

Definition submit_and_confirm (withdrawal : Withdrawal) (remaining_queue : Z) : W SubmitOutcome :=
  t ← next_turn;
  let tx := tx_of withdrawal remaining_queue in
  match t_fate t with
  | Fails => mret Unconfirmed
  | Lost =>
      w_modify (with_l1 (with_mempool (fun m => m ++ [tx])));;
      mret Unconfirmed
  | MinedUnseen => w_modify (with_l1 (fun l => default l (exec_tx l tx)));; mret Unconfirmed
  | OutOfGas => mret Reverted
  | Fine =>
      r ← w_read (fun w => exec_tx (l1 w) tx);
      match r with
      | Some l => w_modify (with_l1 (fun _ => l));; mret Confirmed
      | None => mret Reverted
      end
  end.

(** The loop over [remaining.iter().enumerate()], from index [i] on: the
    first outcome that is not [Confirmed], if any. *)
Fixpoint submit_loop (remaining : list Withdrawal) (i : nat) (todo : list Withdrawal)
    : W SubmitOutcome :=
  match todo with
  | [] => mret Confirmed
  | withdrawal :: todo' =>
      let remaining_queue := compute_remaining_queue remaining (i + 1) in
      outcome ← submit_and_confirm withdrawal remaining_queue;
      match outcome with
      | Confirmed => submit_loop remaining (S i) todo'
      | _ => mret outcome
      end
  end.

(** One round of the [loop] of [process_queue]; [true] asks for the next. *)
Definition process_slot : W bool :=
  '(head, tail) ← read_head_tail;
  head_val ← match try_from U64_MAX head with Some h => mret h | None => w_fail HeadOverflow end;
  tail_val ← match try_from U64_MAX tail with Some t => mret t | None => w_fail TailOverflow end;
  snapshot ← w_read (fun w => capture_store_snapshot (store w) head_val);
  if head_val =? tail_val then mret false
  else
    match ss_withdrawals snapshot with
    | None | Some [] => w_modify notify_repair;; mret false
    | Some withdrawals =>
        slot_hash ← l1_read (fun q => slot_at q (head_val mod WITHDRAWAL_QUEUE_CAPACITY));
        if slot_hash =? EMPTY_SENTINEL then mret false
        else
          match find_processed_offset withdrawals slot_hash with
          | None => w_modify notify_repair;; mret false
          | Some offset =>
              let remaining := drop offset withdrawals in
              match remaining with
              | [] => w_modify (with_store (fun s => remove_batch s head_val));; mret false
              | _ =>
                  outcome ← submit_loop remaining 0 remaining;
                  match outcome with
                  | Reverted => w_modify notify_repair;; mret false
                  | Unconfirmed => mret false
                  | Confirmed => w_modify (with_store (fun s => remove_batch s head_val));; mret true
                  end
              end
          end
    end.

Fixpoint process_queue (fuel : nat) : W unit :=
  match fuel with
  | O => w_fail OutOfFuel
  | S fuel' => again ← process_slot; if again : bool then process_queue fuel' else mret tt
  end.
End processor.
