(* ===== verification/WithdrawalsProofs.v ===== *)
(** * Every withdrawal is paid once, in order, and the processor can resume

    The ring buffer of hashes stands for a list of unpaid withdrawals per
    slot.  Whatever the other parties and the network do, a cycle of the
    processor keeps that representation and never drops the data of a
    pending slot; undisturbed, it drains the queue. *)

From S2P Require Import Prelude.
From S2P Require Import BTree.
From S2P Require Import Withdrawals.
#[local] Open Scope Z_scope.

Section proofs.
Context (keccak256 : list Z -> Z) (abi_encode_params : Withdrawal -> Z -> list Z).
Abbreviation hash_link := (hash_link keccak256 abi_encode_params).
Abbreviation queue_hash := (queue_hash keccak256 abi_encode_params).
Abbreviation find_processed_offset := (find_processed_offset keccak256 abi_encode_params).
Abbreviation compute_remaining_queue := (compute_remaining_queue keccak256 abi_encode_params).
Abbreviation q_dequeue := (q_dequeue keccak256 abi_encode_params).
Abbreviation exec_tx := (exec_tx keccak256 abi_encode_params).
Abbreviation submit_hash := (submit_hash keccak256 abi_encode_params).
Abbreviation env_step := (env_step keccak256 abi_encode_params).
Abbreviation next_turn := (next_turn keccak256 abi_encode_params).
Abbreviation submit_and_confirm := (submit_and_confirm keccak256 abi_encode_params).
Abbreviation submit_loop := (submit_loop keccak256 abi_encode_params).
Abbreviation process_slot := (process_slot keccak256 abi_encode_params).
Abbreviation process_queue := (process_queue keccak256 abi_encode_params).

(** The hash of a withdrawal with the rest of its queue has no collisions and
    is none of the two reserved words. *)
Record HashLaws : Prop := mkHashLaws {
  link_inj : forall w r w' r', hash_link w r = hash_link w' r' -> w = w' /\ r = r';
  link_regular : forall w r, hash_link w r <> 0 /\ hash_link w r <> EMPTY_SENTINEL
}.
Context (HL : HashLaws).

(** ** The hash chain *)

Definition chain (ws : list Withdrawal) : Z := foldr hash_link EMPTY_SENTINEL ws.

Lemma foldl_chain ws :
  foldl (fun hash w => hash_link w hash) EMPTY_SENTINEL (reverse ws) = chain ws.
Proof. induction ws as [|w ws IH]; [done|]. by rewrite reverse_cons, foldl_snoc, IH. Qed.

Lemma queue_hash_chain ws : queue_hash ws = match ws with [] => 0 | _ => chain ws end.
Proof.
  unfold Withdrawals.queue_hash. destruct ws as [|w ws]; [done|]. apply foldl_chain.
Qed.

Lemma queue_hash_cons w ws : queue_hash (w :: ws) = hash_link w (chain ws).
Proof. by rewrite queue_hash_chain. Qed.

Lemma queue_hash_ne ws : ws <> [] -> queue_hash ws = chain ws /\ chain ws <> 0 /\ chain ws <> EMPTY_SENTINEL.
Proof.
  destruct ws as [|w ws]; [done|]. intros _. rewrite queue_hash_chain. split; [done|]. cbn.
  apply (link_regular HL).
Qed.

Lemma chain_inj a b : chain a = chain b -> a = b.
Proof.
  revert b. induction a as [|w a IH]; intros [|w' b]; cbn; [done| | |].
  - intros E. by destruct (link_regular HL w' (chain b)) as [_ []].
  - intros E. by destruct (link_regular HL w (chain a)) as [_ []].
  - intros [-> E]%(link_inj HL). by rewrite (IH b E).
Qed.

Lemma queue_hash_inj a b : queue_hash a = queue_hash b -> a = b.
Proof.
  destruct (decide (a = [])) as [->|Ha], (decide (b = [])) as [->|Hb].
  - done.
  - destruct (queue_hash_ne b Hb) as (-> & ? & _). by intros E.
  - destruct (queue_hash_ne a Ha) as (-> & ? & _). by intros E.
  - rewrite (proj1 (queue_hash_ne a Ha)), (proj1 (queue_hash_ne b Hb)). apply chain_inj.
Qed.

(** What the contract expects for an empty rest is the chain of nothing. *)
Lemma expected_chain ws :
  (if queue_hash ws =? 0 then EMPTY_SENTINEL else queue_hash ws) = chain ws.
Proof.
  destruct (decide (ws = [])) as [->|Hw]; [done|].
  destruct (queue_hash_ne ws Hw) as (-> & H0 & _). by rewrite (proj2 (Z.eqb_neq _ _) H0).
Qed.

Lemma find_offset_from_spec ws o h n :
  find_offset_from keccak256 abi_encode_params ws o h = Some n ->
  (o <= n)%nat /\ queue_hash (drop (n - o) ws) = h.
Proof.
  revert o. induction ws as [|w ws IH]; intros o; cbn [find_offset_from].
  - destruct (Z.eqb_spec (queue_hash []) h); [|done]. intros [= <-]. by rewrite drop_nil.
  - destruct (Z.eqb_spec (queue_hash (w :: ws)) h) as [E|_].
    + intros [= <-]. by rewrite Nat.sub_diag.
    + intros (Hle & E)%IH. split; [lia|]. by replace (n - o)%nat with (S (n - S o)) by lia.
Qed.

Lemma find_processed_offset_Some ws r n :
  find_processed_offset ws (queue_hash r) = Some n -> drop n ws = r.
Proof.
  intros [_ E]%find_offset_from_spec. rewrite Nat.sub_0_r in E. by apply queue_hash_inj.
Qed.

Lemma find_offset_from_suffix ws r o :
  r `suffix_of` ws ->
  is_Some (find_offset_from keccak256 abi_encode_params ws o (queue_hash r)).
Proof.
  revert o. induction ws as [|w ws IH]; intros o Hs; cbn [find_offset_from].
  - apply suffix_nil_inv in Hs as ->. by rewrite Z.eqb_refl.
  - destruct (Z.eqb_spec (queue_hash (w :: ws)) (queue_hash r)) as [|Hne]; [done|].
    apply IH. destruct Hs as [[|x k] E]; [by rewrite E in Hne|]. injection E as _ ->. by exists k.
Qed.

Lemma find_processed_offset_suffix ws r :
  r `suffix_of` ws -> exists n, find_processed_offset ws (queue_hash r) = Some n /\ drop n ws = r.
Proof.
  intros [n En]%(find_offset_from_suffix _ _ 0). exists n. split; [done|].
  by apply find_processed_offset_Some.
Qed.

(** ** The ring buffer stands for the unpaid withdrawals of each slot *)

(** A submission's queue hash is the hash of its withdrawals. *)
Definition commits (tx : SubmitTx) : Prop := stx_withdrawalQueueHash tx = queue_hash (stx_withdrawals tx).

Record Rep (l : L1) (rem : list (list Withdrawal)) : Prop := mkRep {
  r_head : 0 <= q_head (queue l);
  r_len : q_tail (queue l) - q_head (queue l) = Z.of_nat (length rem);
  r_cap : (length rem <= 100)%nat;
  r_tail : q_tail (queue l) = Z.of_nat (length (submitted l));
  r_paid : paid l ++ concat rem = concat (submitted l);
  r_slot : forall i r, rem !! i = Some r ->
    r <> [] /\ slot_at (queue l) ((q_head (queue l) + Z.of_nat i) mod WITHDRAWAL_QUEUE_CAPACITY)
               = queue_hash r /\
    exists b, submitted l !! (Z.to_nat (q_head (queue l)) + i)%nat = Some b /\ r `suffix_of` b;
  r_pending : Forall commits (p_pending (portal l))
}.

Lemma ring_neq a d : 0 < d < 100 -> (a + d) mod 100 <> a mod 100.
Proof.
  intros Hd E. pose proof (Z.div_mod (a + d) 100 ltac:(lia)). pose proof (Z.div_mod a 100 ltac:(lia)).
  lia.
Qed.

Lemma slot_at_insert h t s k v i :
  slot_at (mkQueue h t (<[k := v]> s)) i =
  if k =? i then v else slot_at (mkQueue h t s) i.
Proof.
  unfold slot_at. cbn. destruct (Z.eqb_spec k i) as [->|]; [by rewrite lookup_insert_eq|].
  by rewrite lookup_insert_ne.
Qed.

(** A mined transaction pops exactly the oldest unpaid withdrawal. *)
Definition popped (r : list Withdrawal) (rs : list (list Withdrawal)) : list (list Withdrawal) :=
  match r with [] => rs | _ => r :: rs end.

Definition after_pop (l : L1) (w : Withdrawal) (r : list Withdrawal) : L1 :=
  let q := queue l in
  let i := q_head q mod WITHDRAWAL_QUEUE_CAPACITY in
  mkL1 (match r with
        | [] => mkQueue (q_head q + 1) (q_tail q) (<[i := EMPTY_SENTINEL]> (q_slots q))
        | _ => mkQueue (q_head q) (q_tail q) (<[i := queue_hash r]> (q_slots q))
        end) (submitted l) (paid l ++ [w]) (mempool l) (portal l).

Lemma exec_tx_head l w r rs gas :
  Rep l ((w :: r) :: rs) -> exec_tx l (mkTx w (queue_hash r) gas) = Some (after_pop l w r).
Proof.
  intros R. destruct (r_slot _ _ R 0 (w :: r) eq_refl) as (_ & Hs & _).
  rewrite Z.add_0_r in Hs. pose proof (r_len _ _ R) as Hlen. cbn in Hlen.
  unfold Withdrawals.exec_tx, Withdrawals.q_dequeue. cbn [tx_withdrawal tx_remaining].
  rewrite (proj2 (Z.eqb_neq _ _)) by lia. rewrite Hs, queue_hash_cons, expected_chain, Z.eqb_refl.
  destruct (link_regular HL w (chain r)) as [_ He]. rewrite (proj2 (Z.eqb_neq _ _) He).
  unfold after_pop. destruct (decide (r = [])) as [->|Hr]; [done|].
  destruct (queue_hash_ne r Hr) as (Hq & H0 & H1). rewrite Hq.
  rewrite (proj2 (Z.eqb_neq _ _) H0), (proj2 (Z.eqb_neq _ _) H1). by destruct r.
Qed.

Lemma exec_tx_Some l rem tx l' :
  Rep l rem -> exec_tx l tx = Some l' ->
  exists r rs, rem = (tx_withdrawal tx :: r) :: rs /\ tx_remaining tx = queue_hash r /\
    l' = after_pop l (tx_withdrawal tx) r.
Proof.
  intros R E. pose proof (r_len _ _ R) as Hlen.
  assert (exists r rs w, rem = (w :: r) :: rs) as (r & rs & w & ->).
  { destruct rem as [|[|w r] rs]; [| |eauto].
    - unfold Withdrawals.exec_tx, Withdrawals.q_dequeue in E. cbn in Hlen.
      by rewrite (proj2 (Z.eqb_eq _ _)) in E by lia.
    - by destruct (r_slot _ _ R 0 [] eq_refl) as [? _]. }
  destruct (r_slot _ _ R 0 (w :: r) eq_refl) as (_ & Hs & _). rewrite Z.add_0_r, queue_hash_cons in Hs.
  pose proof E as E'. unfold Withdrawals.exec_tx, Withdrawals.q_dequeue in E'. rewrite Hs in E'.
  cbn in Hlen. rewrite (proj2 (Z.eqb_neq _ _)) in E' by lia.
  destruct (orb _ _) eqn:Eo; [done|]. apply orb_false_iff in Eo as [_ Eo%Z.eqb_neq].
  destruct (negb _) eqn:En; [done|]. apply negb_false_iff, Z.eqb_eq, (link_inj HL) in En as [Ew Ec].
  assert (tx_remaining tx = queue_hash r) as Er.
  { destruct (Z.eqb_spec (tx_remaining tx) 0) as [E0|].
    - destruct (decide (r = [])) as [->|Hr]; [done|].
      by destruct (queue_hash_ne r Hr) as (_ & _ & []).
    - destruct (decide (r = [])) as [->|Hr]; [done|]. by destruct (queue_hash_ne r Hr) as (-> & _). }
  exists r, rs. subst w. split; [done|]. split; [done|].
  pose proof (exec_tx_head l (tx_withdrawal tx) r rs (tx_gas tx) R) as Ex. rewrite <- Er in Ex.
  destruct tx. cbn in *. congruence.
Qed.

Lemma after_pop_tail l w r : q_tail (queue (after_pop l w r)) = q_tail (queue l).
Proof. by destruct r. Qed.

Lemma after_pop_head l w r :
  q_head (queue (after_pop l w r)) = q_head (queue l) + (if decide (r = []) then 1 else 0).
Proof. destruct r; case_decide; done || (cbn; lia). Qed.

Lemma Rep_rest l r0 rs i r :
  Rep l (r0 :: rs) -> rs !! i = Some r -> r <> [] /\
  slot_at (queue l) ((q_head (queue l) + 1 + Z.of_nat i) mod WITHDRAWAL_QUEUE_CAPACITY) = queue_hash r /\
  q_head (queue l) mod WITHDRAWAL_QUEUE_CAPACITY <>
    (q_head (queue l) + 1 + Z.of_nat i) mod WITHDRAWAL_QUEUE_CAPACITY /\
  exists b, submitted l !! (Z.to_nat (q_head (queue l)) + S i)%nat = Some b /\ r `suffix_of` b.
Proof.
  intros R Hi. destruct (r_slot _ _ R (S i) r Hi) as (Hr & Hs & Hb).
  replace (q_head (queue l) + 1 + Z.of_nat i) with (q_head (queue l) + Z.of_nat (S i)) by lia.
  split; [done|]. split; [done|]. split; [|done]. apply not_eq_sym, ring_neq.
  pose proof (r_cap _ _ R). apply lookup_lt_Some in Hi. cbn in *. lia.
Qed.

Lemma Rep_pop l w r rs : Rep l ((w :: r) :: rs) -> Rep (after_pop l w r) (popped r rs).
Proof.
  intros R. pose proof (r_head _ _ R). pose proof (r_len _ _ R) as Hlen. pose proof (r_cap _ _ R) as Hc.
  pose proof (r_paid _ _ R) as Hp. cbn -[Z.of_nat] in Hlen, Hp, Hc.
  assert (paid l ++ [w] ++ r ++ concat rs = concat (submitted l)) as Hp' by done.
  destruct (r_slot _ _ R 0 (w :: r) eq_refl) as (_ & _ & b & Hb & Hsuf).
  destruct (decide (r = [])) as [->|Hr]; cbn [popped].
  - split; cbn -[Z.of_nat]; try lia; [apply R|by rewrite <- app_assoc| |apply R].
    intros i r' Hi. destruct (Rep_rest _ _ _ _ _ R Hi) as (H1 & H2 & H3 & b' & Hb' & Hs').
    split; [done|]. rewrite slot_at_insert, (proj2 (Z.eqb_neq _ _) H3). split; [done|].
    exists b'. split; [|done]. by replace (Z.to_nat (q_head (queue l) + 1) + i)%nat
      with (Z.to_nat (q_head (queue l)) + S i)%nat by lia.
  - replace (popped r rs) with (r :: rs) by (by destruct r).
    assert (after_pop l w r = mkL1 (mkQueue (q_head (queue l)) (q_tail (queue l))
      (<[q_head (queue l) mod WITHDRAWAL_QUEUE_CAPACITY := queue_hash r]> (q_slots (queue l))))
      (submitted l) (paid l ++ [w]) (mempool l) (portal l)) as -> by (by destruct r).
    split; cbn -[Z.of_nat]; try lia; [apply R|by rewrite <- app_assoc| |apply R].
    intros [|i] r' Hi.
    + injection Hi as <-. rewrite Z.add_0_r, slot_at_insert, Z.eqb_refl. split; [done|]. split; [done|].
      exists b. split; [done|]. by apply suffix_cons_l in Hsuf.
    + destruct (Rep_rest _ _ _ _ _ R Hi) as (H1 & H2 & H3 & Hs').
      replace (q_head (queue l) + Z.of_nat (S i)) with (q_head (queue l) + 1 + Z.of_nat i) by lia.
      split; [done|]. rewrite slot_at_insert, (proj2 (Z.eqb_neq _ _) H3). by split.
Qed.

(** A submitted batch takes the next slot, or none when it is empty; a full
    ring refuses it. *)
Lemma submit_hash_cases l rem ws :
  Rep l rem ->
  submit_hash l ws = l \/
  ws <> [] /\ Rep (submit_hash l ws) (rem ++ [ws]) /\
  q_head (queue (submit_hash l ws)) = q_head (queue l) /\
  submitted (submit_hash l ws) = submitted l ++ [ws] /\ paid (submit_hash l ws) = paid l.
Proof.
  intros R. unfold Withdrawals.submit_hash, q_enqueue.
  destruct (decide (ws = [])) as [->|Hw]; [left; by destruct l|].
  destruct (queue_hash_ne ws Hw) as (Hq & H0 & _).
  rewrite Hq, (proj2 (Z.eqb_neq _ _) H0), <- Hq.
  destruct (Z.leb_spec WITHDRAWAL_QUEUE_CAPACITY (q_tail (queue l) - q_head (queue l))) as [|Hlt];
    [by left|]. right.
  unfold WITHDRAWAL_QUEUE_CAPACITY in Hlt. pose proof (r_head _ _ R) as Hh. pose proof (r_len _ _ R) as Hlen.
  pose proof (r_tail _ _ R) as Htl. split; [done|]. split; [|done].
  split; cbn -[Z.of_nat]; rewrite ?length_app; cbn -[Z.of_nat]; try lia; [| |apply R].
  - rewrite !concat_app, <- (r_paid _ _ R). cbn. by rewrite app_nil_r, app_assoc.
  - intros i r [Hi|[Hi Hi']]%lookup_app_Some.
    + destruct (r_slot _ _ R i r Hi) as (H1 & H2 & b & Hb & Hs). split; [done|].
      apply lookup_lt_Some in Hi. rewrite slot_at_insert. split.
      * destruct (Z.eqb_spec (q_tail (queue l) mod WITHDRAWAL_QUEUE_CAPACITY)
          ((q_head (queue l) + Z.of_nat i) mod WITHDRAWAL_QUEUE_CAPACITY)) as [E|]; [|done].
        exfalso. apply (ring_neq (q_head (queue l) + Z.of_nat i)
          (q_tail (queue l) - (q_head (queue l) + Z.of_nat i))); [lia|].
        rewrite Z.add_comm, Z.sub_add. exact E.
      * exists b. split; [|done]. by apply lookup_app_l_Some.
    + apply list_lookup_singleton_Some in Hi' as [Hi' <-]. split; [done|].
      assert (q_head (queue l) + Z.of_nat i = q_tail (queue l)) as -> by lia.
      rewrite slot_at_insert, Z.eqb_refl. split; [done|]. exists ws. split; [|done].
      apply lookup_app_Some. right. split; [lia|].
      by replace (Z.to_nat (q_head (queue l)) + i - length (submitted l))%nat with O by lia.
Qed.

(** ** What every step keeps *)

(** The data in the store ends with what is unpaid of its slot, and belongs
    to a submitted batch. *)
Definition store_ok (l : L1) (s : WithdrawalStore) (rem : list (list Withdrawal)) : Prop :=
  (forall i r ws, rem !! i = Some r -> get_batch s (q_head (queue l) + Z.of_nat i) = Some ws ->
     r `suffix_of` ws) /\
  (forall k ws, get_batch s k = Some ws -> k < q_tail (queue l)).

Definition Inv (w : World) : Prop := exists rem, Rep (l1 w) rem /\ store_ok (l1 w) (store w) rem.

(** One withdrawal is taken off a hash chain. *)
Definition peel (h h' : Z) : Prop := exists x, h = hash_link x h'.

Definition head_slot (w : World) : Z :=
  slot_at (queue (l1 w)) (q_head (queue (l1 w)) mod WITHDRAWAL_QUEUE_CAPACITY).

(** The portal only moves forward: while the head stays, its slot loses
    withdrawals from the front; and a slot that stays pending keeps its data
    in the store. *)
Record Forward (w w' : World) : Prop := mkForward {
  f_head : q_head (queue (l1 w)) <= q_head (queue (l1 w'));
  f_tail : q_tail (queue (l1 w)) <= q_tail (queue (l1 w'));
  f_submitted : submitted (l1 w) `prefix_of` submitted (l1 w');
  f_paid : paid (l1 w) `prefix_of` paid (l1 w');
  f_slot : q_head (queue (l1 w)) = q_head (queue (l1 w')) -> q_head (queue (l1 w)) < q_tail (queue (l1 w)) ->
    rtc peel (head_slot w) (head_slot w');
  f_store : forall k, q_head (queue (l1 w')) <= k < q_tail (queue (l1 w)) ->
    is_Some (get_batch (store w) k) -> is_Some (get_batch (store w') k)
}.

#[local] Instance Forward_preorder : PreOrder Forward.
Proof.
  split.
  - intros w. by split.
  - intros w1 w2 w3 [] []. split; [lia|lia|by etrans|by etrans| |].
    + intros E Hlt. etrans; [apply f_slot0|apply f_slot1]; lia.
    + intros k Hk Hs. auto with lia.
Qed.

Lemma Inv_paid w : Inv w -> paid (l1 w) `prefix_of` concat (submitted (l1 w)).
Proof. intros (rem & R & _). exists (concat rem). by rewrite (r_paid _ _ R). Qed.

Lemma store_ok_pop l s w r rs :
  Rep l ((w :: r) :: rs) -> store_ok l s ((w :: r) :: rs) -> store_ok (after_pop l w r) s (popped r rs).
Proof.
  intros R [Ha Hb]. split; [|by rewrite after_pop_tail]. intros i r' ws Hi. rewrite after_pop_head.
  case_decide as Hr; [subst r; cbn [popped] in Hi|].
  - replace (q_head (queue l) + 1 + Z.of_nat i) with (q_head (queue l) + Z.of_nat (S i)) by lia.
    by apply (Ha (S i)).
  - rewrite Z.add_0_r. replace (popped r rs) with (r :: rs) in Hi by (by destruct r).
    destruct i as [|i]; [|by apply (Ha (S i))]. injection Hi as <-. intros Hg.
    eapply suffix_cons_l. by apply (Ha O (w :: r)).
Qed.

(** A mined transaction, whoever sent it. *)
Lemma exec_keeps w tx l :
  Inv w -> exec_tx (l1 w) tx = Some l ->
  Inv (with_l1 (fun _ => l) w) /\ Forward w (with_l1 (fun _ => l) w) /\
  (tx_remaining tx = 0 -> q_head (queue (l1 w)) < q_head (queue l)).
Proof.
  intros (rem & R & S) E. destruct (exec_tx_Some _ _ _ _ R E) as (r & rs & -> & Er & ->).
  split_and!.
  - exists (popped r rs). split; [by apply Rep_pop|by apply store_ok_pop].
  - pose proof (after_pop_head (l1 w) (tx_withdrawal tx) r).
    split; cbn [l1 store with_l1]; rewrite ?after_pop_tail; try done; [case_decide; lia| |].
    { by exists [tx_withdrawal tx]. }
    intros Eh _. case_decide as Hr; [lia|]. apply rtc_once. exists (tx_withdrawal tx).
    destruct (r_slot _ _ R 0 _ eq_refl) as (_ & Hs & _). rewrite Z.add_0_r, queue_hash_cons in Hs.
    unfold head_slot. rewrite Hs. f_equal. cbn [l1 with_l1].
    destruct r as [|y r]; [done|]. cbn [after_pop queue q_head].
    by rewrite slot_at_insert, Z.eqb_refl, queue_hash_chain.
  - intros E0. rewrite after_pop_head. case_decide as Hr; [lia|].
    destruct (queue_hash_ne r Hr) as (Hq & H0 & _). congruence.
Qed.

Lemma Inv_mempool w m : Inv w ->
  let w' := with_l1 (with_mempool m) w in Inv w' /\ Forward w w'.
Proof. intros (rem & R & S). split; [|by split]. exists rem. by split; [destruct R; split|]. Qed.

Lemma Inv_add_batch w k ws :
  Inv w -> submitted (l1 w) !! k = Some ws ->
  let w' := with_store (fun s => add_batch s (Z.of_nat k) ws) w in Inv w' /\ Forward w w'.
Proof.
  intros (rem & R & Ha & Hb) Hk. unfold add_batch. split.
  - exists rem. split; [done|]. unfold get_batch in *. split; cbn.
    + intros i r ws'. intros Hi. rewrite bt_lookup_insert. case_match eqn:E; [|by apply Ha].
      destruct (r_slot _ _ R i r Hi) as (_ & _ & b & Hb' & Hs). intros [= <-].
      pose proof (r_head _ _ R). apply Z.eqb_eq in E.
      replace (Z.to_nat (q_head (queue (l1 w))) + i)%nat with k in Hb' by lia. congruence.
    + intros k' ws'. rewrite bt_lookup_insert. case_match eqn:E; [|by apply Hb].
      intros _. apply Z.eqb_eq in E. rewrite (r_tail _ _ R). apply lookup_lt_Some in Hk. lia.
  - split; try done. intros k' _ [ws' Hs]. cbn. unfold get_batch in *. rewrite bt_lookup_insert.
    case_match; eauto.
Qed.

Lemma Inv_submit w ws :
  Inv w -> let w' := with_l1 (fun l => submit_hash l ws) w in Inv w' /\ Forward w w'.
Proof.
  intros (rem & R & Ha & Hb). cbv zeta.
  destruct (submit_hash_cases _ _ ws R) as [E|(Hw & R' & Hh & Hs & Hp)].
  { split; [exists rem|]; unfold with_l1; rewrite E; by destruct w. }
  pose proof (r_len _ _ R). pose proof (r_len _ _ R') as Hlen. rewrite length_app in Hlen.
  cbn in Hlen. split.
  - exists (rem ++ [ws]). split; [done|]. split; cbn [l1 store with_l1].
    + intros i r ws' Hi Hg. rewrite Hh in Hg. apply lookup_app_Some in Hi as [Hi|[Hi _]]; [by eapply Ha|].
      apply Hb in Hg. lia.
    + intros k ws' Hg%Hb. lia.
  - split; cbn [l1 store with_l1]; [lia|lia|rewrite Hs; by eexists|by rewrite Hp| |done].
    intros _ Hlt. destruct rem as [|r rem]; [cbn in *; lia|].
    destruct (r_slot _ _ R 0 r eq_refl) as (_ & H1 & _), (r_slot _ _ R' 0 r eq_refl) as (_ & H2 & _).
    unfold head_slot. cbn [l1 with_l1]. rewrite Z.add_0_r in H1, H2. by rewrite H1, H2.
Qed.

(** Only the queue, the batches, the payments and the pending submissions
    matter. *)
Lemma Inv_same w f :
  let l := f (l1 w) in
  queue l = queue (l1 w) -> submitted l = submitted (l1 w) -> paid l = paid (l1 w) ->
  Forall commits (p_pending (portal l)) -> Inv w ->
  Inv (with_l1 f w) /\ Forward w (with_l1 f w).
Proof.
  cbv zeta. intros Hq Hs Hp Hc (rem & R & S). unfold Inv, store_ok, with_l1. cbn [l1 store]. split.
  - exists rem. rewrite Hq. split; [|done]. destruct R. split; by rewrite ?Hq, ?Hs, ?Hp.
  - split; unfold head_slot; cbn [l1 store]; by rewrite ?Hq, ?Hs, ?Hp.
Qed.

Lemma Inv_pending w : Inv w -> Forall commits (p_pending (portal (l1 w))).
Proof. intros (rem & R & _). apply R. Qed.

(** An accepted submission enqueues the batch its hash commits to. *)
Lemma submitBatch_enqueues l tx i l' :
  commits tx -> submitBatch l tx = Some (i, l') ->
  queue l' = queue (submit_hash l (stx_withdrawals tx)) /\
  submitted l' = submitted (submit_hash l (stx_withdrawals tx)) /\
  paid l' = paid (submit_hash l (stx_withdrawals tx)) /\ p_pending (portal l') = p_pending (portal l) /\
  (stx_withdrawalQueueHash tx <> 0 -> i = q_tail (queue l)).
Proof.
  unfold commits, submitBatch, Withdrawals.submit_hash. intros Hc. rewrite Hc.
  destruct (orb _ _); [done|]. destruct (anchor_of _ _ _) as [[an ah]|]; [|done]. cbn [mbind option_bind].
  destruct (orb _ _); [done|]. destruct (checked_add _ _ _); [|done]. cbn [mbind option_bind].
  destruct (negb _); [done|]. unfold q_enqueue.
  destruct (Z.eqb_spec (queue_hash (stx_withdrawals tx)) 0); [by intros [= <- <-]|].
  destruct (_ <=? _); [done|]. by intros [= <- <-].
Qed.

Lemma submitBatch_keeps w tx i l :
  Inv w -> commits tx -> submitBatch (l1 w) tx = Some (i, l) ->
  Inv (with_l1 (fun _ => l) w) /\ Forward w (with_l1 (fun _ => l) w).
Proof.
  intros HI Hc E. destruct (submitBatch_enqueues _ _ _ _ Hc E) as (Hq & Hs & Hp & Hpe & _).
  destruct (Inv_submit w (stx_withdrawals tx) HI) as [HI1 HF1].
  destruct (Inv_same (with_l1 (fun l => submit_hash l (stx_withdrawals tx)) w) (fun _ => l) Hq Hs Hp ltac:(cbv beta; rewrite Hpe; by apply Inv_pending) HI1) as [HI2 HF2].
  split; [exact HI2|]. by etrans.
Qed.

Lemma Inv_with_pending w f :
  Inv w -> Forall commits (f (p_pending (portal (l1 w)))) ->
  Inv (with_l1 (with_pending f) w) /\ Forward w (with_l1 (with_pending f) w).
Proof. intros HI Hc. by apply Inv_same. Qed.

(** Data is dropped only for a slot that is not pending. *)
Lemma Inv_drop w h :
  Inv w -> h < q_head (queue (l1 w)) \/ q_tail (queue (l1 w)) <= h ->
  let w' := with_store (fun s => remove_batch s h) w in Inv w' /\ Forward w w'.
Proof.
  intros (rem & R & Ha & Hb) Hh. cbv zeta.
  assert (Hg : forall k, get_batch (remove_batch (store w) h) k =
                         if k =? h then None else get_batch (store w) k).
  { intros k. unfold get_batch, remove_batch. rewrite bt_lookup_sel. by destruct (k =? h). }
  split.
  - exists rem. split; [done|]. split; cbn [l1 store with_store].
    + intros i r ws Hi. rewrite Hg. case_match; [done|]. by apply Ha.
    + intros k ws. rewrite Hg. case_match; [done|]. by apply Hb.
  - split; try done. cbn [l1 store with_store]. intros k Hk [ws Hs]. rewrite Hg.
    destruct (Z.eqb_spec k h); [lia|by exists ws].
Qed.

Lemma env_step_keeps w a : Inv w -> Inv (env_step w a) /\ Forward w (env_step w a).
Proof.
  intros HI. destruct a as [ws|i|tx|i|i|k|d]; cbn [Withdrawals.env_step].
  - by apply Inv_submit.
  - destruct (submitted (l1 w) !! i) as [ws|] eqn:E; [by apply Inv_add_batch|done].
  - by apply Inv_mempool.
  - destruct (mempool (l1 w) !! i) as [tx|]; [|done].
    destruct (Inv_mempool w (delete i) HI) as [HI' HF]. cbv zeta in *.
    set (w1 := with_l1 _ w) in HI', HF.
    destruct (exec_tx _ tx) as [l|] eqn:E; cbn [default]; [|done].
    destruct (exec_keeps w1 tx l HI' E) as (HI2 & HF2 & _). split; [exact HI2|]. by etrans.
  - destruct (p_pending (portal (l1 w)) !! i) as [tx|] eqn:Ei; [|done].
    pose proof (Inv_pending w HI) as Hc.
    destruct (Inv_with_pending w (delete i) HI) as [HI' HF].
    { rewrite delete_take_drop. apply Forall_app. split; [by apply Forall_take|by apply Forall_drop]. }
    cbv zeta. set (w1 := with_l1 _ w) in HI', HF.
    destruct (submitBatch _ tx) as [[q l]|] eqn:E; cbn [default fmap option_fmap option_map snd]; [|done].
    destruct (submitBatch_keeps w1 tx q l HI') as [HI2 HF2];
      [by eapply Forall_lookup_1|done|]. split; [exact HI2|]. by etrans.
  - destruct (Z.ltb_spec k (q_head (queue (l1 w)))); [|done]. apply Inv_drop; [done|by left].
  - apply Inv_same; try done. by apply Inv_pending.
Qed.

Lemma env_steps_keep acts w : Inv w -> Inv (foldl env_step w acts) /\ Forward w (foldl env_step w acts).
Proof.
  revert w. induction acts as [|a acts IH]; intros w HI; [done|]. cbn.
  destruct (env_step_keeps w a HI) as [HI1 HF1]. destruct (IH _ HI1) as [HI2 HF2].
  split; [done|]. by etrans.
Qed.

(** [safe P m Q]: from [P], [m] keeps what every step keeps, and establishes
    [Q] when it returns. *)
Definition safe {A} (P : World -> Prop) (m : W A) (Q : A -> World -> Prop) : Prop :=
  forall w, Inv w -> P w -> let '(r, w') := m w in
    Inv w' /\ Forward w w' /\ match r with Ok a => Q a w' | Err _ => True end.

Lemma safe_bind {A B} P (m : W A) Q (f : A -> W B) R :
  safe P m Q -> (forall a, safe (Q a) (f a) R) -> safe P (mbind f m) R.
Proof.
  intros Hm Hf w HI HP. specialize (Hm w HI HP). unfold mbind, W_bind.
  destruct (m w) as [[a|e] w1]; [|done]. destruct Hm as (HI1 & HF1 & HQ).
  specialize (Hf a w1 HI1 HQ). destruct (f a w1) as [r w2]. destruct Hf as (HI2 & HF2 & HR).
  split; [done|]. split; [by etrans|done].
Qed.

Lemma safe_ret {A} (a : A) (P : World -> Prop) (Q : A -> World -> Prop) :
  (forall w, P w -> Q a w) -> safe P (mret a) Q.
Proof. intros H w HI HP. cbn. split_and!; [done|done|by apply H]. Qed.

Lemma safe_fail {A} e P (Q : A -> World -> Prop) : safe P (w_fail e) Q.
Proof. by intros w HI HP. Qed.

Lemma safe_read {A} (f : World -> A) (P : World -> Prop) (Q : A -> World -> Prop) :
  (forall w, P w -> Q (f w) w) -> safe P (w_read f) Q.
Proof. intros H w HI HP. cbn. split_and!; [done|done|by apply H]. Qed.

Lemma safe_notify (P : World -> Prop) : safe P (w_modify notify_repair) (fun _ _ => True).
Proof. by intros w (rem & R & S) _; split; [exists rem|]. Qed.

(** What is true stays true as the portal moves on. *)
Definition stable (P : World -> Prop) : Prop := forall w w', Forward w w' -> P w -> P w'.

(** The head has reached [h]; heads never go back. *)
Definition reached (h : Z) (w : World) : Prop := h <= q_head (queue (l1 w)).

Lemma reached_stable h : stable (reached h).
Proof. intros w w' HF Hh. pose proof (f_head _ _ HF). unfold reached in *. lia. Qed.

Lemma safe_frame {A} P (m : W A) Q R :
  safe P m Q -> stable R -> safe (fun w => P w /\ R w) m (fun a w => Q a w /\ R w).
Proof.
  intros H HR w HI [HP Hw]. specialize (H w HI HP). destruct (m w) as [[a|e] w']; [|done].
  destruct H as (HI' & HF & HQ). split_and!; [done..|]. by eapply HR.
Qed.

Lemma safe_next_turn P : stable P -> safe P next_turn (fun _ => P).
Proof.
  intros HP w HI Hw. cbn -[env_step]. set (acts := t_env _).
  destruct (env_steps_keep acts w HI) as [[rem HI1] HF].
  assert (Forward w (mkWorld (l1 (foldl env_step w acts)) (store (foldl env_step w acts))
    (repair_requested (foldl env_step w acts)) (tail (oracle w)))) as HF' by (by destruct HF; split).
  split; [by exists rem|]. split; [done|]. by eapply HP.
Qed.

Lemma safe_l1_read {A} P (f : WithdrawalQueue -> A) :
  stable P -> safe P (l1_read keccak256 abi_encode_params f) (fun a w => P w /\ a = f (queue (l1 w))).
Proof.
  intros HP. eapply safe_bind; [by apply safe_next_turn|]. intros t.
  destruct (t_fate t); try apply safe_fail. by apply safe_read.
Qed.

(** Evaluates a run of the monad. *)
Ltac run_W := unfold mbind, W_bind, w_read, w_modify, w_fail, mret, W_ret; cbn.

Lemma safe_exec h tx :
  safe (reached h) (r ← w_read (fun w => exec_tx (l1 w) tx);
                    match r with
                    | Some l => w_modify (with_l1 (fun _ => l));; mret Confirmed
                    | None => mret Reverted
                    end)
    (fun o w => reached h w /\ (o = Confirmed -> tx_remaining tx = 0 -> h < q_head (queue (l1 w)))).
Proof.
  intros w HI Hh. run_W. destruct (exec_tx (l1 w) tx) as [l|] eqn:E; cbn; [|by split_and!].
  destruct (exec_keeps w tx l HI E) as (HI' & HF & H0). split; [done|]. split; [done|].
  pose proof (f_head _ _ HF). unfold reached in *. cbn in *. split; [lia|]. intros _ H1%H0. lia.
Qed.

Lemma safe_submit h w rq :
  safe (reached h) (submit_and_confirm w rq)
    (fun o w => reached h w /\ (o = Confirmed -> rq = 0 -> h < q_head (queue (l1 w)))).
Proof.
  eapply safe_bind; [apply safe_next_turn, reached_stable|]. intros t. destruct (t_fate t).
  - apply (safe_exec h (tx_of w rq)).
  - by apply safe_ret.
  - intros w' HI Hh. run_W. destruct (Inv_mempool w' (fun m => m ++ [tx_of w rq]) HI) as [? ?]. by split_and!.
  - intros w' HI Hh. run_W.
    change (with_l1 _ w') with (with_l1 (fun _ => default (l1 w') (exec_tx (l1 w') (tx_of w rq))) w').
    destruct (exec_tx (l1 w') (tx_of w rq)) as [l|] eqn:E; cbn [default].
    + destruct (exec_keeps w' _ l HI E) as (HI' & HF & _). split; [done|]. split; [done|].
      split; [|done]. pose proof (f_head _ _ HF). unfold reached in *. cbn in *. lia.
    + unfold with_l1. destruct w'. by split_and!.
  - by apply safe_ret.
Qed.

Lemma safe_conseq {A} (P P' : World -> Prop) (m : W A) (Q Q' : A -> World -> Prop) :
  safe P m Q -> (forall w, P' w -> P w) -> (forall a w, Q a w -> Q' a w) -> safe P' m Q'.
Proof.
  intros H HP HQ w HI Hw. specialize (H w HI (HP w Hw)). destruct (m w) as [[a|e] w']; [|done].
  destruct H as (? & ? & ?). auto.
Qed.

Lemma safe_remove h :
  safe (fun w => h < q_head (queue (l1 w)) \/ q_tail (queue (l1 w)) <= h)
    (w_modify (with_store (fun s => remove_batch s h))) (fun _ _ => True).
Proof. intros w HI Hh. cbn [w_modify]. destruct (Inv_drop w h HI Hh). by split_and!. Qed.

(** Once the last withdrawal of the slot is confirmed the head has moved. *)
Lemma safe_submit_loop h todo : forall before,
  safe (fun w => reached h w /\ (todo = [] -> h < q_head (queue (l1 w))))
    (submit_loop (before ++ todo) (length before) todo)
    (fun o w => o = Confirmed -> h < q_head (queue (l1 w))).
Proof.
  induction todo as [|x todo IH]; intros before; cbn [Withdrawals.submit_loop].
  { apply safe_ret. intros w [_ H] _. by apply H. }
  eapply safe_bind; [eapply safe_conseq; [apply (safe_submit h)|by intros w []|exact (fun _ _ H => H)]|].
  intros o. cbv beta. destruct o; [|by apply safe_ret|by apply safe_ret].
  specialize (IH (before ++ [x])). rewrite <- app_assoc, length_app, Nat.add_1_r in IH.
  eapply safe_conseq; [exact IH| |done]. intros w [Hr H]. split; [done|].
  intros ->. apply H; [done|]. unfold Withdrawals.compute_remaining_queue.
  rewrite length_app. cbn [length]. by rewrite Nat.leb_refl.
Qed.

Lemma safe_true {A} (m : W A) Q : safe (fun w => 0 <= q_tail (queue (l1 w))) m Q -> safe (fun _ => True) m Q.
Proof. intros H w HI _. apply H; [done|]. destruct HI as (rem & R & _). rewrite (r_tail _ _ R). lia. Qed.

Definition bounds_read (t0 : Z) (ht : Z * Z) (w : World) : Prop :=
  reached ht.1 w /\ ht.2 <= q_tail (queue (l1 w)) /\ t0 <= ht.2.

Lemma tail_stable t0 : stable (fun w => t0 <= q_tail (queue (l1 w))).
Proof. intros w w' HF H. pose proof (f_tail _ _ HF). lia. Qed.

Lemma bounds_stable t0 ht : stable (bounds_read t0 ht).
Proof.
  intros w w' HF (H1 & H2 & H3). split; [by eapply reached_stable|]. pose proof (f_tail _ _ HF). lia.
Qed.

(** Both orders of the two reads give bounds that the portal has reached. *)
Lemma safe_read_head_tail t0 :
  safe (fun w => t0 <= q_tail (queue (l1 w))) (read_head_tail keccak256 abi_encode_params) (bounds_read t0).
Proof.
  eapply safe_bind; [by apply (safe_read _ _ (fun _ w => t0 <= q_tail (queue (l1 w))))|].
  intros b. destruct b; (eapply safe_bind; [apply safe_l1_read, tail_stable|]).
  - intros t. eapply (safe_bind _ _ (fun h w => reached h w /\ t <= q_tail (queue (l1 w)) /\ t0 <= t)).
    + eapply safe_conseq; [apply (safe_l1_read (fun w => t <= q_tail (queue (l1 w)) /\ t0 <= t))| |].
      * intros w w' HF [H1 H2]. split; [by eapply (tail_stable t)|done].
      * intros w [H ->]. lia.
      * intros h w [H ->]. split; [unfold reached; lia|done].
    + intros h. by apply safe_ret.
  - intros h. eapply (safe_bind _ _ (fun t w => reached h w /\ t <= q_tail (queue (l1 w)) /\ t0 <= t)).
    + eapply safe_conseq; [apply (safe_l1_read (fun w => reached h w /\ t0 <= q_tail (queue (l1 w))))| |].
      * intros w w' HF [H1 H2]. split; [by eapply reached_stable|by eapply (tail_stable t0)].
      * intros w [H ->]. split; [unfold reached; lia|done].
      * intros t w [[H1 H2] ->]. split_and!; [done|lia|done].
    + intros t. by apply safe_ret.
Qed.

(** A pending slot holds the hash of something. *)
Lemma pending_slot_nonzero w h :
  Inv w -> reached h w -> slot_at (queue (l1 w)) (h mod WITHDRAWAL_QUEUE_CAPACITY) = 0 ->
  h < q_head (queue (l1 w)) \/ q_tail (queue (l1 w)) <= h.
Proof.
  intros (rem & R & _) Hr H0. unfold reached in Hr. pose proof (r_len _ _ R) as Hlen.
  destruct (decide (h < q_head (queue (l1 w)))) as [|Hge]; [by left|].
  assert (h = q_head (queue (l1 w))) as -> by lia. right.
  destruct rem as [|r rs]; [cbn in Hlen; lia|].
  destruct (r_slot _ _ R 0 r eq_refl) as (Hne & Hs & _). rewrite Z.add_0_r in Hs.
  destruct (queue_hash_ne r Hne) as (Hq & Hz & _). congruence.
Qed.

Lemma safe_process_slot : safe (fun _ => True) process_slot (fun _ _ => True).
Proof.
  apply safe_true. eapply safe_bind; [apply (safe_read_head_tail 0)|]. intros [head tl]. cbv beta iota.
  eapply (safe_bind _ _ (fun h => reached h)).
  { destruct (try_from U64_MAX head) as [h|] eqn:E; [|apply safe_fail].
    apply try_from_Some in E as [-> _]. apply safe_ret. by intros w []. }
  intros h. eapply (safe_bind _ _ (fun _ => reached h)).
  { destruct (try_from U64_MAX tl); [by apply safe_ret|apply safe_fail]. }
  intros t. eapply (safe_bind _ _ (fun _ => reached h)); [by apply safe_read|]. intros snap.
  destruct (h =? t); [by apply safe_ret|].
  assert (Hrep : forall P, safe P (w_modify notify_repair;; mret false) (fun _ _ => True)).
  { intros P. eapply safe_bind; [apply safe_notify|]. intros u. by apply safe_ret. }
  destruct (ss_withdrawals snap) as [[|x ws]|]; [apply Hrep| |apply Hrep].
  eapply safe_bind; [apply safe_l1_read, reached_stable|]. intros slot. destruct (slot =? EMPTY_SENTINEL); [by apply safe_ret|].
  destruct (find_processed_offset (x :: ws) slot) as [o|] eqn:Eo; [|apply Hrep].
  destruct (drop o (x :: ws)) as [|y rem] eqn:Ed.
  - apply find_offset_from_spec in Eo as [_ Eo]. rewrite Nat.sub_0_r, Ed in Eo. cbn in Eo. subst slot.
    eapply safe_bind; [|intros; by apply safe_ret]. intros w HI [Hr H0].
    apply (safe_remove h w HI). by apply pending_slot_nonzero.
  - eapply safe_bind; [eapply safe_conseq; [apply (safe_submit_loop h (y :: rem) [])| |exact (fun _ _ H => H)]|].
    { intros w [Hr _]. by split. }
    intros out. destruct out; [|apply Hrep|by apply safe_ret].
    eapply safe_bind; [eapply safe_conseq; [apply (safe_remove h)| |exact (fun _ _ H => H)]|].
    { intros w H. left. by apply H. }
    intros u. by apply safe_ret.
Qed.

Lemma safe_process_queue fuel : safe (fun _ => True) (process_queue fuel) (fun _ _ => True).
Proof.
  induction fuel as [|fuel IH]; [apply safe_fail|].
  eapply safe_bind; [apply safe_process_slot|]. intros [|]; [exact IH|by apply safe_ret].
Qed.

(** ** Undisturbed, a cycle drains the queue *)

Lemma next_turn_calm w : oracle w = [] -> next_turn w = (Ok calm, w).
Proof. intros E. unfold Withdrawals.next_turn. rewrite E. cbn. by destruct w; cbn in *; subst. Qed.

Lemma l1_read_calm {A} (f : WithdrawalQueue -> A) w :
  oracle w = [] -> l1_read keccak256 abi_encode_params f w = (Ok (f (queue (l1 w))), w).
Proof. intros E. unfold l1_read, mbind, W_bind. by rewrite next_turn_calm. Qed.

Lemma read_head_tail_calm w :
  oracle w = [] -> read_head_tail keccak256 abi_encode_params w =
    (Ok (q_head (queue (l1 w)), q_tail (queue (l1 w))), w).
Proof.
  intros E. unfold read_head_tail, mbind, W_bind, w_read. rewrite E. cbn.
  by rewrite !l1_read_calm.
Qed.

Lemma remaining_queue_next before x todo :
  compute_remaining_queue (before ++ x :: todo) (length before + 1) = queue_hash todo.
Proof.
  unfold Withdrawals.compute_remaining_queue. rewrite length_app. cbn [length].
  rewrite <- drop_drop, drop_app_length. cbn [drop].
  destruct todo as [|y todo]; [by rewrite Nat.leb_refl|].
  by rewrite (proj2 (Nat.leb_gt _ _)) by (cbn; lia).
Qed.

Lemma submit_calm w x r rs :
  oracle w = [] -> Rep (l1 w) ((x :: r) :: rs) ->
  submit_and_confirm x (queue_hash r) w = (Ok Confirmed, with_l1 (fun l => after_pop l x r) w).
Proof.
  intros E R. unfold Withdrawals.submit_and_confirm. unfold mbind at 1, W_bind at 1.
  rewrite next_turn_calm by done. run_W. unfold tx_of. by rewrite (exec_tx_head _ _ _ _ _ R).
Qed.

Lemma submit_loop_calm rs todo : forall before w,
  oracle w = [] -> Rep (l1 w) (popped todo rs) ->
  exists l, submit_loop (before ++ todo) (length before) todo w = (Ok Confirmed, with_l1 (fun _ => l) w) /\
    Rep l rs /\ submitted l = submitted (l1 w).
Proof.
  induction todo as [|x todo IH]; intros before w Hc R; cbn [Withdrawals.submit_loop].
  { exists (l1 w). by destruct w. }
  cbn [popped] in R. rewrite remaining_queue_next. unfold mbind, W_bind.
  rewrite (submit_calm _ _ _ rs) by done.
  destruct (IH (before ++ [x]) (with_l1 (fun l => after_pop l x todo) w)) as (l & El & Rl & Hs);
    [done|by apply Rep_pop|].
  rewrite <- app_assoc, length_app, Nat.add_1_r in El. exists l. by split; [exact El|].
Qed.

Lemma process_slot_calm w r rs :
  oracle w = [] -> Rep (l1 w) (r :: rs) -> store_ok (l1 w) (store w) (r :: rs) ->
  is_Some (get_batch (store w) (q_head (queue (l1 w)))) -> q_tail (queue (l1 w)) <= U64_MAX ->
  exists l, process_slot w = (Ok true, mkWorld l (remove_batch (store w) (q_head (queue (l1 w))))
                                          (repair_requested w) []) /\
    Rep l rs /\ submitted l = submitted (l1 w) /\ q_head (queue l) = q_head (queue (l1 w)) + 1.
Proof.
  intros Hc R [Ha _] [ws Hg] Hmax. pose proof (r_len _ _ R) as Hlen. cbn -[Z.of_nat] in Hlen.
  destruct (r_slot _ _ R 0 r eq_refl) as (Hne & Hs & _). rewrite Z.add_0_r in Hs.
  pose proof (Ha O r ws eq_refl ltac:(by rewrite Z.add_0_r)) as Hsuf.
  destruct (find_processed_offset_suffix ws r Hsuf) as (o & Eo & Ed).
  assert (ws <> []) as Hws by (intros ->; apply suffix_nil_inv in Hsuf as ->; done).
  destruct (submit_loop_calm rs r [] w Hc) as (l & El & Rl & Hsub); [by destruct r|].
  exists l. split_and!; [|done|done|].
  2: { pose proof (r_len _ _ Rl). pose proof (r_tail _ _ Rl) as Ht. rewrite Hsub, <- (r_tail _ _ R) in Ht. lia. }
  unfold Withdrawals.process_slot, mbind, W_bind. rewrite read_head_tail_calm by done.
  unfold try_from. rewrite !(proj2 (Z.leb_le _ _)) by lia. run_W.
  rewrite (proj2 (Z.eqb_neq _ _)) by lia.
  replace (ss_withdrawals (capture_store_snapshot (store w) (q_head (queue (l1 w))))) with (Some ws)
    by (unfold capture_store_snapshot; by destruct (summary _) as [[? ?] ?], (neighboring_slots _ _)).
  destruct ws as [|w0 ws]; [done|]. rewrite l1_read_calm by done. rewrite Hs.
  destruct (queue_hash_ne r Hne) as (Hq & H0 & H1). rewrite Hq, (proj2 (Z.eqb_neq _ _) H1), <- Hq, Eo, Ed.
  destruct r as [|y r]; [done|]. cbn [app length] in El. rewrite El. by destruct w; cbn in *; subst.
Qed.

Definition drained (w w' : World) : Prop :=
  submitted (l1 w') = submitted (l1 w) /\ paid (l1 w') = concat (submitted (l1 w)) /\
  q_head (queue (l1 w')) = q_tail (queue (l1 w')) /\ repair_requested w' = repair_requested w /\
  forall k, get_batch (store w') k =
    if (q_head (queue (l1 w)) <=? k) && (k <? q_tail (queue (l1 w))) then None else get_batch (store w) k.

Lemma process_queue_calm rem : forall w fuel,
  oracle w = [] -> Rep (l1 w) rem -> store_ok (l1 w) (store w) rem ->
  (forall k, q_head (queue (l1 w)) <= k < q_tail (queue (l1 w)) -> is_Some (get_batch (store w) k)) ->
  q_tail (queue (l1 w)) <= U64_MAX -> (length rem < fuel)%nat ->
  exists w', process_queue fuel w = (Ok tt, w') /\ drained w w'.
Proof.
  induction rem as [|r rs IH]; intros w [|fuel] Hc R Hs Hall Hmax Hf; [lia| |lia|]; cbn [Withdrawals.process_queue];
    pose proof (r_len _ _ R) as Hlen; pose proof (r_head _ _ R) as Hhd; cbn -[Z.of_nat] in Hlen, Hf.
  { exists w. unfold Withdrawals.process_slot, mbind, W_bind. rewrite read_head_tail_calm by done.
    unfold try_from. rewrite !(proj2 (Z.leb_le _ _)) by lia. run_W.
    rewrite (proj2 (Z.eqb_eq _ _)) by lia. split; [done|]. pose proof (r_paid _ _ R) as Hp.
    rewrite app_nil_r in Hp. split_and!; [done|done|lia|done|]. intros k.
    destruct (Z.leb_spec (q_head (queue (l1 w))) k), (Z.ltb_spec k (q_tail (queue (l1 w)))); done || lia. }
  destruct (process_slot_calm w r rs Hc R Hs) as (l & El & Rl & Hsub & Hh); [apply Hall; lia|done|].
  assert (q_tail (queue l) = q_tail (queue (l1 w))) as Htl
    by (rewrite (r_tail _ _ Rl), (r_tail _ _ R), Hsub; done).
  set (w1 := mkWorld _ _ _ _) in El.
  assert (Hg : forall k, get_batch (store w1) k =
    if k =? q_head (queue (l1 w)) then None else get_batch (store w) k).
  { intros k. cbn. unfold get_batch, remove_batch. rewrite bt_lookup_sel. by destruct (k =? _). }
  destruct (IH w1 fuel) as (w' & Ew & D); [done|done| | |cbn; lia|lia|].
  - split; change (l1 w1) with l; rewrite ?Hh.
    + intros i r' ws Hi. rewrite Hg. case_match; [done|].
      replace (q_head (queue (l1 w)) + 1 + Z.of_nat i) with (q_head (queue (l1 w)) + Z.of_nat (S i)) by lia.
      by apply (proj1 Hs (S i)).
    + intros k ws. rewrite Hg, Htl. case_match; [done|]. apply (proj2 Hs).
  - change (l1 w1) with l. intros k Hk. rewrite Hg, (proj2 (Z.eqb_neq _ _)) by lia. apply Hall. lia.
  - exists w'. unfold mbind, W_bind. rewrite El. split; [done|].
    destruct D as (D1 & D2 & D3 & D4 & D5). change (l1 w1) with l in *. change (repair_requested w1) with (repair_requested w) in D4.
    split_and!; [congruence|congruence|done|done|]. intros k. rewrite D5, Hg, Hh, Htl.
    destruct (Z.leb_spec (q_head (queue (l1 w)) + 1) k), (Z.ltb_spec k (q_tail (queue (l1 w)))),
      (Z.leb_spec (q_head (queue (l1 w))) k), (Z.eqb_spec k (q_head (queue (l1 w)))); done || lia.
Qed.

(** ** Runs of the processor *)

(** A cycle with what the others and the network do during it; the fuel is
    how many slots the cycle may take. *)
Definition cycle (w : World) (c : list Turn * nat) : World :=
  (process_queue c.2 (mkWorld (l1 w) (store w) (repair_requested w) c.1)).2.

(** A portal just deployed. *)
Definition fresh_portal (p : Portal) : Prop := p_withdrawalBatchIndex p = 0 /\ p_pending p = [].
Definition genesis (p : Portal) : World := mkWorld (mkL1 (mkQueue 0 0 ∅) [] [] [] p) [] false [].

Lemma genesis_Inv p : fresh_portal p -> Inv (genesis p).
Proof.
  intros [_ Hp]. exists [].
  split; [split; cbn; [done|done|lia|done|done| |by rewrite Hp]|split; [|done]]; intros i r; by rewrite lookup_nil.
Qed.

Lemma cycle_keeps w c : Inv w -> Inv (cycle w c) /\ Forward w (cycle w c).
Proof.
  intros (rem & R & S). unfold cycle. set (w0 := mkWorld _ _ _ _).
  assert (Inv w0) as HI by (exists rem; done).
  pose proof (safe_process_queue c.2 w0 HI I) as H. destruct (process_queue c.2 w0) as [r w'].
  destruct H as (HI' & [] & _). split; [done|]. by split.
Qed.

Lemma pending_resumable w k ws :
  Inv w -> q_head (queue (l1 w)) <= k < q_tail (queue (l1 w)) -> get_batch (store w) k = Some ws ->
  exists n, find_processed_offset ws (slot_at (queue (l1 w)) (k mod WITHDRAWAL_QUEUE_CAPACITY)) = Some n /\
    (n < length ws)%nat.
Proof.
  intros (rem & R & Ha & _) Hk Hg. pose proof (r_len _ _ R).
  destruct (lookup_lt_is_Some_2 rem (Z.to_nat (k - q_head (queue (l1 w))))) as [r Hr]; [lia|].
  destruct (r_slot _ _ R _ _ Hr) as (Hne & Hs & _).
  replace (q_head (queue (l1 w)) + Z.of_nat (Z.to_nat (k - q_head (queue (l1 w))))) with k in Hs by lia.
  destruct (find_processed_offset_suffix ws r) as (n & En & Ed).
  { eapply Ha; [done|]. by replace (q_head (queue (l1 w)) + _) with k by lia. }
  exists n. rewrite Hs. split; [done|]. destruct (decide (n < length ws)%nat); [done|].
  rewrite drop_ge in Ed by lia. by subst r.
Qed.
End proofs.

(** The gas sent with a callback withdrawal is enough: of what the fixed
    overhead leaves, the part a call may forward under the 63/64 rule covers
    the (capped) gas the user asked for; and the transaction stays below half
    of a 30M-gas block, whatever the user asked for. *)
Theorem callback_gas_sufficient callback_gas_limit :
  in_u64 callback_gas_limit ->
  let available := process_withdrawal_tx_gas_limit callback_gas_limit
                   - PROCESS_WITHDRAWAL_CALLBACK_OVERHEAD_GAS in
  Z.min callback_gas_limit MAX_WITHDRAWAL_GAS_LIMIT <= available - available / 64 /\
  process_withdrawal_tx_gas_limit callback_gas_limit < 15000000.
Proof.
  intros [H0 _]. unfold process_withdrawal_tx_gas_limit, PROCESS_WITHDRAWAL_CALLBACK_OVERHEAD_GAS,
    MAX_WITHDRAWAL_GAS_LIMIT. cbv zeta.
  assert (Hc : forall g, 0 <= g <= 10000000 ->
    g <= (g + eip150_cushion g) - (g + eip150_cushion g) / 64 /\ eip150_cushion g <= 200000).
  { intros g Hg. unfold eip150_cushion.
    destruct (Z.eqb_spec (g mod 63) 0); Z.div_mod_to_equations; lia. }
  destruct (Z.ltb_spec 10000000 callback_gas_limit).
  - destruct (Hc 10000000 ltac:(lia)) as [H1 H2].
    replace (10000000 + 2000000 + eip150_cushion 10000000 - 2000000)
      with (10000000 + eip150_cushion 10000000) by lia. lia.
  - destruct (Hc callback_gas_limit ltac:(lia)) as [H1 H2].
    replace (callback_gas_limit + 2000000 + eip150_cushion callback_gas_limit - 2000000)
      with (callback_gas_limit + eip150_cushion callback_gas_limit) by lia. lia.
Qed.

(** ** A concrete hash *)

Module WithdrawalsExamples.
Definition enc (w : Withdrawal) (r : Z) : list Z :=
  w_token w :: w_senderTag w :: w_to w :: w_amount w :: w_fee w :: w_memo w :: w_gasLimit w ::
  w_fallbackRecipient w :: r :: Z.of_nat (length (w_callbackData w)) ::
  w_callbackData w ++ w_encryptedSender w.
Definition keccak (l : list Z) : Z := U256_MAX + 1 + Z.pos (encode l).

Lemma enc_laws : HashLaws keccak enc.
Proof.
  split.
  - intros w r w' r' E. unfold hash_link, keccak in E.
    assert (enc w r = enc w' r') as E' by (apply (inj encode); lia). clear E.
    destruct w, w'. unfold enc in E'. cbn in E'. injection E' as -> -> -> -> -> -> -> -> -> Hl E'.
    apply app_inj_1 in E' as [-> ->]; [done|lia].
  - intros w r. unfold hash_link, keccak, EMPTY_SENTINEL, U256_MAX. lia.
Qed.

Definition wd (n gas : Z) : Withdrawal := mkWithdrawal 1 n 2 (100 * n) 1 0 gas 3 [] [].

Lemma callback_gas_sufficient_witness :
  process_withdrawal_tx_gas_limit 50000 = 2050794 /\
  50000 <= 50794 - 50794 / 64.
Proof.
  destruct (callback_gas_sufficient 50000) as [H _]; [by vm_compute|].
  split; [by vm_compute|]. exact H.
Defined.
End WithdrawalsExamples.
