(* ===== verification/Settlement.v ===== *)
(** * Rebuilding the withdrawal store from the chains

    Models the restore path of src/crates/sequencer/src/settlement.rs
    ([fetch_pending_withdrawals] and what it calls) and of monitor.rs
    ([restore_pending_withdrawals_from_chain] and its failure branch in
    [resync_from_portal]), with [Withdrawal::from_requested_event] of
    contracts/src/precompiles/zone_portal.rs.

    Requests to L1 take a turn of the world of Withdrawals.v, so other
    parties act between any two of them.  The portal's logs, the L1 block
    number, and the zone node (blocks, logs, transactions) are parameters;
    [None] is a failed request. *)

From S2P Require Import Prelude.
From S2P Require Import BTree.
From S2P Require Import Withdrawals.
#[local] Open Scope Z_scope.

#[export] Instance result_ret {E} : MRet (result E) := fun A a => Ok a.
#[export] Instance result_bind {E} : MBind (result E) := fun A B f m =>
  match m with Ok a => f a | Err e => Err e end.

Definition LOG_QUERY_BLOCK_CHUNK : Z := 5000.

Record BatchSubmitted := mkBatchSubmitted {
  bs_withdrawalBatchIndex : Z; bs_withdrawalQueueIndex : Z;
  bs_nextProcessedDepositQueueHash : Z; bs_nextBlockHash : Z;
  bs_withdrawalQueueHash : Z; bs_lastProcessedDepositNumber : Z
}.

Record WithdrawalRequested := mkRequested {
  wr_withdrawalIndex : Z; wr_sender : Z; wr_token : Z; wr_to : Z; wr_amount : Z; wr_fee : Z;
  wr_memo : Z; wr_gasLimit : Z; wr_fallbackRecipient : Z; wr_data : list Z; wr_revealTo : list Z
}.

(** The position of a log in the chain, as the node reports it. *)
Record LogPos := mkLogPos {
  lp_block_number : option Z; lp_transaction_index : option Z; lp_log_index : option Z;
  lp_transaction_hash : option Z
}.

Record RequestedWithdrawalLog := mkRequestedLog {
  rw_block_number : Z; rw_tx_index : Z; rw_log_index : Z; rw_tx_hash : Z;
  rw_event : WithdrawalRequested
}.

Record FinalizedBatchLog := mkFinalizedLog {
  fb_block_number : Z; fb_tx_index : Z; fb_log_index : Z; fb_tx_hash : Z;
  fb_withdrawal_queue_hash : Z; fb_withdrawal_batch_index : Z
}.

Record FinalizedBatch := mkFinalizedBatch {
  finalized_hash : Z; finalized_index : Z; fin_withdrawals : list Withdrawal
}.

(** What L1 answers about blocks and [BatchSubmitted] logs in a block range,
    filtered by queue index. *)
Record PortalLogs := mkPortalLogs {
  pl_block_number : L1 -> Z;
  pl_batch_submitted : L1 -> Z -> Z -> list Z -> list BatchSubmitted
}.

(** The zone node: the number of the block with a hash (if there is one),
    logs of a block range, and the encrypted senders in the calldata of a
    [finalizeWithdrawalBatch] transaction (not found, not decodable). *)
Record ZoneNode := mkZoneNode {
  zn_block_by_hash : Z -> option (option Z);
  zn_withdrawal_requested : Z -> Z -> option (list (WithdrawalRequested * LogPos));
  zn_batch_finalized : Z -> Z -> option (list (Z * Z * LogPos));
  zn_finalize_tx : Z -> option (option (option (list (list Z))))
}.

(** ** Ranges of log queries *)

Definition backward_log_query_start (hi floor : Z) : Z :=
  Z.max (saturating_sub hi (LOG_QUERY_BLOCK_CHUNK - 1)) floor.

(** [log_query_ranges], the iterator unrolled [fuel] times. *)
Definition range_end (start to : Z) : Z :=
  Z.min (saturating_add U64_MAX start (LOG_QUERY_BLOCK_CHUNK - 1)) to.

Fixpoint log_query_ranges (fuel : nat) (start to : Z) : list (Z * Z) :=
  match fuel with
  | O => []
  | S fuel' =>
      let end_ := range_end start to in
      (start, end_) ::
      (if to <=? end_ then []
       else match checked_add U64_MAX end_ 1 with
            | Some start' => log_query_ranges fuel' start' to
            | None => []
            end)
  end.

(** ** Sorting logs by their position: [sort_by_key] is stable *)

Definition Key : Type := Z * Z * Z.
Definition key_leb (a b : Key) : bool :=
  let '(a1, a2, a3) := a in
  let '(b1, b2, b3) := b in
  (a1 <? b1) || (a1 =? b1) && ((a2 <? b2) || (a2 =? b2) && (a3 <=? b3)).

Fixpoint insert_by {A} (key : A -> Key) (x : A) (l : list A) : list A :=
  match l with
  | [] => [x]
  | y :: l' => if key_leb (key x) (key y) then x :: l else y :: insert_by key x l'
  end.
Definition sort_by_key {A} (key : A -> Key) (l : list A) : list A := foldr (insert_by key) [] l.

Definition requested_key (r : RequestedWithdrawalLog) : Key :=
  (rw_block_number r, rw_tx_index r, rw_log_index r).
Definition finalized_key (b : FinalizedBatchLog) : Key :=
  (fb_block_number b, fb_tx_index b, fb_log_index b).

Section settlement.
Context (keccak256 : list Z -> Z) (abi_encode_params : Withdrawal -> Z -> list Z).
Context (zone : ZoneNode) (logs : PortalLogs) (genesis_tempo_block_number : Z).

Definition rpc_answer {A} (o : option A) : result ProcessError A :=
  match o with Some a => Ok a | None => Err RpcError end.

Definition authenticated_sender_plaintext (sender tx_hash : Z) : list Z :=
  be_bytes 20 sender ++ be_bytes 32 tx_hash.

Definition sender_tag (sender tx_hash : Z) : Z :=
  keccak256 (authenticated_sender_plaintext sender tx_hash).

Definition from_requested_event (event : WithdrawalRequested) (tx_hash : Z)
    (encrypted_sender : list Z) : Withdrawal :=
  let tag := if (wr_sender event =? 0) && (wr_fallbackRecipient event =? 0) then sender_tag 0 0
             else sender_tag (wr_sender event) tx_hash in
  mkWithdrawal (wr_token event) tag (wr_to event) (wr_amount event) (wr_fee event) (wr_memo event)
    (wr_gasLimit event) (wr_fallbackRecipient event) (wr_data event) encrypted_sender.

Definition to_requested_log (el : WithdrawalRequested * LogPos) : result ProcessError RequestedWithdrawalLog :=
  let '(event, log) := el in
  match lp_transaction_hash log with
  | Some tx_hash =>
      Ok (mkRequestedLog (default 0 (lp_block_number log)) (default 0 (lp_transaction_index log))
            (default 0 (lp_log_index log)) tx_hash event)
  | None => Err MissingTransactionHash
  end.

Definition to_finalized_log (el : Z * Z * LogPos) : result ProcessError FinalizedBatchLog :=
  let '(queue_hash, batch_index, log) := el in
  match lp_transaction_hash log with
  | Some tx_hash =>
      Ok (mkFinalizedLog (default 0 (lp_block_number log)) (default 0 (lp_transaction_index log))
            (default 0 (lp_log_index log)) tx_hash queue_hash batch_index)
  | None => Err MissingTransactionHash
  end.

(** [collect::<Result<Vec<_>>>()] *)
Fixpoint collect {A B} (f : A -> result ProcessError B) (l : list A) : result ProcessError (list B) :=
  match l with
  | [] => Ok []
  | a :: l' => b ← f a; bs ← collect f l'; Ok (b :: bs)
  end.

Definition fetch_requested_withdrawal_logs (from to : Z) : result ProcessError (list RequestedWithdrawalLog) :=
  raw ← rpc_answer (zn_withdrawal_requested zone from to);
  requests ← collect to_requested_log raw;
  Ok (sort_by_key requested_key requests).

Definition fetch_finalized_batch_logs (from to : Z) : result ProcessError (list FinalizedBatchLog) :=
  raw ← rpc_answer (zn_batch_finalized zone from to);
  batches ← collect to_finalized_log raw;
  Ok (sort_by_key finalized_key batches).

Definition at_block (to : Z) (b : FinalizedBatchLog) : Prop := fb_block_number b = to.
#[local] Instance at_block_dec to b : Decision (at_block to b).
Proof. unfold at_block. apply _. Defined.

(** [rposition(|batch| batch.block_number == to)]: the last such batch, with
    the batches before it. *)
Fixpoint rposition (to : Z) (before batches : list FinalizedBatchLog)
    : option (list FinalizedBatchLog * FinalizedBatchLog) :=
  match batches with
  | [] => None
  | b :: rest =>
      match rposition to (before ++ [b]) rest with
      | Some r => Some r
      | None => if decide (at_block to b) then Some (before, b) else None
      end
  end.

Definition fetch_finalized_batch (from to : Z) : result ProcessError FinalizedBatch :=
  finalized_batches ← fetch_finalized_batch_logs from to;
  match finalized_batches with
  | [] => Err NoBoundary
  | _ =>
      let finalized_batches := sort_by_key finalized_key finalized_batches in
      match rposition to [] finalized_batches with
      | None => Err NotOnBoundary
      | Some (before, target) =>
          if negb (length (filter (at_block to) finalized_batches) =? 1)%nat then Err SeveralBoundaries
          else
            let previous_boundary := match last before with
                                     | Some b => fb_block_number b
                                     | None => saturating_sub from 1
                                     end in
            let request_from := saturating_add U64_MAX previous_boundary 1 in
            requests ← (if request_from <=? to then fetch_requested_withdrawal_logs request_from to
                        else Ok []);
            finalize_tx ← rpc_answer (zn_finalize_tx zone (fb_tx_hash target));
            calldata ← match finalize_tx with Some c => Ok c | None => Err MissingFinalizeTx end;
            encrypted_senders ← match calldata with Some s => Ok s | None => Err UndecodableFinalizeTx end;
            if negb (length encrypted_senders =? length requests)%nat then Err SenderCountMismatch
            else
              let withdrawals := zip_with (fun request encrypted_sender =>
                from_requested_event (rw_event request) (rw_tx_hash request) encrypted_sender)
                requests encrypted_senders in
              if negb (queue_hash keccak256 abi_encode_params withdrawals =?
                       fb_withdrawal_queue_hash target) then Err BatchHashMismatch
              else Ok (mkFinalizedBatch (fb_withdrawal_queue_hash target)
                         (fb_withdrawal_batch_index target) withdrawals)
      end
  end.

Definition fetch_slot_withdrawals (from to : Z) : result ProcessError (list Withdrawal) :=
  batch ← fetch_finalized_batch from to; Ok (fin_withdrawals batch).

(** The body of the loop over [head..tail], with the result so far. *)
Definition resolve_slot (head : Z) (events : btree BatchSubmitted)
    (slot_withdrawals : WithdrawalStore) (head_slot_hash portal_slot : Z) (acc : WithdrawalStore)
    : result ProcessError WithdrawalStore :=
  match bt_lookup portal_slot events with
  | None => Err (NoBatchEvent portal_slot)
  | Some event =>
      match bt_lookup portal_slot slot_withdrawals with
      | None => Err (NoWithdrawalData portal_slot)
      | Some withdrawals =>
          if bool_decide (withdrawals = []) ||
             negb (queue_hash keccak256 abi_encode_params withdrawals =? bs_withdrawalQueueHash event)
          then Err (SlotHashMismatch portal_slot)
          else if portal_slot =? head then
            match find_processed_offset keccak256 abi_encode_params withdrawals head_slot_hash with
            | Some offset =>
                match drop offset withdrawals with
                | [] => Ok acc
                | remaining => Ok (bt_insert portal_slot remaining acc)
                end
            | None => Err (NoProcessedOffset portal_slot)
            end
          else Ok (bt_insert portal_slot withdrawals acc)
      end
  end.

(** [for x in l { acc = f(x, acc)?; }] *)
Fixpoint for_each {A B} (f : A -> B -> result ProcessError B) (l : list A) (acc : B)
    : result ProcessError B :=
  match l with
  | [] => Ok acc
  | x :: l' => acc ← f x acc; for_each f l' acc
  end.

Definition resolve_pending_slots (head tail : Z) (events : btree BatchSubmitted)
    (slot_withdrawals : WithdrawalStore) (head_slot_hash : Z) : result ProcessError WithdrawalStore :=
  for_each (resolve_slot head events slot_withdrawals head_slot_hash) (seqZ head (tail - head)) [].

(** ** Requests to L1 *)

Definition w_lift {A} (r : result ProcessError A) : W A := fun w => (r, w).

Definition l1_query {A} (f : L1 -> A) : W A :=
  t ← next_turn keccak256 abi_encode_params;
  match t_fate t with
  | Fine => w_read (fun w => f (l1 w))
  | _ => w_fail RpcError
  end.

(** [read_portal_withdrawal_queue_head] joined with [.._tail]. *)
Definition read_queue_bounds : W (Z * Z) :=
  '(head, tail) ← read_head_tail keccak256 abi_encode_params;
  head ← w_lift (match try_from U64_MAX head with Some h => Ok h | None => Err HeadOverflow end);
  tail ← w_lift (match try_from U64_MAX tail with Some t => Ok t | None => Err TailOverflow end);
  mret (head, tail).

Definition insert_event (event : BatchSubmitted) (found : btree BatchSubmitted)
    : result ProcessError (btree BatchSubmitted) :=
  match try_from U64_MAX (bs_withdrawalQueueIndex event) with
  | None => Err IndexOverflow
  | Some index =>
      match bt_lookup index found with
      | Some _ => Err (DuplicateBatchEvent index)
      | None => Ok (bt_insert index event found)
      end
  end.

Fixpoint find_events_loop (fuel : nat) (topics : list Z) (hi : Z) (found : btree BatchSubmitted)
    : W (btree BatchSubmitted) :=
  match fuel with
  | O => w_fail OutOfFuel
  | S fuel' =>
      if (genesis_tempo_block_number <=? hi) && (length found <? length topics)%nat then
        let lo := backward_log_query_start hi genesis_tempo_block_number in
        events ← l1_query (fun l => pl_batch_submitted logs l lo hi topics);
        found ← w_lift (for_each insert_event events found);
        if lo =? genesis_tempo_block_number then mret found
        else find_events_loop fuel' topics (lo - 1) found
      else mret found
  end.

(** The fuel is one more than the number of blocks since genesis. *)
Definition find_batch_events_by_index (first_index tail : Z) : W (btree BatchSubmitted) :=
  if tail <=? first_index then mret []
  else
    let index_topics := seqZ first_index (tail - first_index) in
    hi ← l1_query (pl_block_number logs);
    find_events_loop (S (Z.to_nat (hi - genesis_tempo_block_number + 1))) index_topics hi [].

Definition resolve_zone_end (pe : Z * BatchSubmitted) (acc : btree Z) : result ProcessError (btree Z) :=
  let '(portal_slot, event) := pe in
  block ← rpc_answer (zn_block_by_hash zone (bs_nextBlockHash event));
  match block with
  | Some number => Ok (bt_insert portal_slot number acc)
  | None => Err (ZoneBlockNotFound (bs_nextBlockHash event))
  end.

Definition fetch_slot (events : btree BatchSubmitted) (zone_end_by_slot : btree Z) (portal_slot : Z)
    (acc : WithdrawalStore) : result ProcessError WithdrawalStore :=
  match bt_lookup portal_slot events with
  | None => Ok acc
  | Some _ =>
      let zone_end := default 0 (bt_lookup portal_slot zone_end_by_slot) in
      let zone_start :=
        if portal_slot =? 0 then Some 1
        else (fun prev_end => prev_end + 1) <$> bt_lookup (portal_slot - 1) zone_end_by_slot in
      match zone_start with
      | None => Ok acc
      | Some zone_start =>
          withdrawals ← fetch_slot_withdrawals zone_start zone_end;
          Ok (bt_insert portal_slot withdrawals acc)
      end
  end.

Definition fetch_pending_withdrawals : W WithdrawalStore :=
  '(head, tail) ← read_queue_bounds;
  if tail <=? head then mret []
  else
    events ← find_batch_events_by_index (saturating_sub head 1) tail;
    zone_end_by_slot ← w_lift (for_each resolve_zone_end events []);
    slot_withdrawals ← w_lift (for_each (fetch_slot events zone_end_by_slot) (seqZ head (tail - head)) []);
    head_slot_hash ← l1_read keccak256 abi_encode_params
                       (fun q => slot_at q (head mod WITHDRAWAL_QUEUE_CAPACITY));
    '(head2, tail2) ← read_queue_bounds;
    if negb (head2 =? head) || negb (tail2 =? tail) then w_fail QueueChanged
    else w_lift (resolve_pending_slots head tail events slot_withdrawals head_slot_hash).

(** The notification of the processor and the log lines are left out. *)
Definition restore_pending_withdrawals_from_chain : W unit :=
  pending ← fetch_pending_withdrawals;
  w_modify (with_store (fun s => replace_batches s pending)).

(** The end of [resync_from_portal]: a store that cannot be rebuilt is
    cleared. *)
Definition resync_store : W unit := fun w =>
  match restore_pending_withdrawals_from_chain w with
  | (Ok tt, w') => (Ok tt, w')
  | (Err _, w') => (Ok tt, with_store (fun s => replace_batches s []) w')
  end.
End settlement.
