(* ===== verification/SettlementProofs.v ===== *)
(** * The withdrawal path end to end

    The restore path rebuilds a store that matches the portal, whatever the
    other parties do meanwhile; over any run of cycles and resyncs every
    withdrawal is paid once and in order; and log queries cover their range. *)

From S2P Require Import Prelude.
From S2P Require Import BTree.
From S2P Require Import Withdrawals.
From S2P Require Import WithdrawalsProofs.
From S2P Require Import Settlement.
#[local] Open Scope Z_scope.

Section proofs.
Context (keccak256 : list Z -> Z) (abi_encode_params : Withdrawal -> Z -> list Z).
Context (HL : HashLaws keccak256 abi_encode_params).
Context (zone : ZoneNode) (logs : PortalLogs) (genesis_block : Z).
Abbreviation queue_hash := (queue_hash keccak256 abi_encode_params).
Abbreviation find_processed_offset := (find_processed_offset keccak256 abi_encode_params).
Abbreviation Rep := (Rep keccak256 abi_encode_params).
Abbreviation Inv := (Inv keccak256 abi_encode_params).
Abbreviation Forward := (Forward keccak256 abi_encode_params).
Abbreviation peel := (peel keccak256 abi_encode_params).
Abbreviation safe := (safe keccak256 abi_encode_params).
Abbreviation resolve_slot := (resolve_slot keccak256 abi_encode_params).
Abbreviation resolve_pending_slots := (resolve_pending_slots keccak256 abi_encode_params).
Abbreviation read_queue_bounds := (read_queue_bounds keccak256 abi_encode_params).
Abbreviation l1_query := (l1_query keccak256 abi_encode_params).
Abbreviation fetch_pending_withdrawals :=
  (fetch_pending_withdrawals keccak256 abi_encode_params zone logs genesis_block).
Abbreviation restore := (restore_pending_withdrawals_from_chain keccak256 abi_encode_params zone logs genesis_block).
Abbreviation resync_store := (resync_store keccak256 abi_encode_params zone logs genesis_block).
Abbreviation process_queue := (process_queue keccak256 abi_encode_params).

(** The portal emits, for a batch that takes a queue index, that index and
    the hash enqueued under it; a query by index returns such logs. *)
Definition LogsTrue : Prop := forall l lo hi topics e,
  e ∈ pl_batch_submitted logs l lo hi topics ->
  0 <= bs_withdrawalQueueIndex e /\
  exists b, submitted l !! Z.to_nat (bs_withdrawalQueueIndex e) = Some b /\
    bs_withdrawalQueueHash e = queue_hash b.

(** ** What resolving the slots returns *)

Lemma for_each_app {A B} (f : A -> B -> result ProcessError B) l1 l2 acc b :
  for_each f (l1 ++ l2) acc = Ok b <-> exists m, for_each f l1 acc = Ok m /\ for_each f l2 m = Ok b.
Proof.
  revert acc. induction l1 as [|x l1 IH]; intros acc; cbn.
  - naive_solver.
  - destruct (f x acc) as [acc'|e]; unfold mbind, result_bind; [apply IH|]. naive_solver.
Qed.

(** An invariant of a fallible loop. *)
Lemma for_each_ind {A B} (f : A -> B -> result ProcessError B) (P : list A -> B -> Prop) l acc b :
  P [] acc -> (forall before x acc acc', before ++ [x] `prefix_of` l -> P before acc ->
                 f x acc = Ok acc' -> P (before ++ [x]) acc') ->
  for_each f l acc = Ok b -> P l b.
Proof.
  intros H0 Hstep. revert b. induction l as [|x l IH] using rev_ind; intros b.
  - cbn. by intros [= <-].
  - intros (m & Hm & Hx)%for_each_app. cbn in Hx. unfold mbind, result_bind in Hx.
    destruct (f x m) as [b'|] eqn:E; [|done]. injection Hx as <-.
    eapply Hstep; [done| |done]. apply IH; [|done].
    intros before y a a' Hp. apply Hstep. by apply prefix_app_r.
Qed.

(** A slot of the result: the data hashes to the event's hash, the head's
    data to the slot's current hash. *)
Definition resolved (head : Z) (events : btree BatchSubmitted) (v : Z) (m : WithdrawalStore) (k : Z) : Prop :=
  exists e ws, bt_lookup k events = Some e /\ queue_hash ws = bs_withdrawalQueueHash e /\
    match bt_lookup k m with
    | Some ws' => if k =? head then queue_hash ws' = v else ws' = ws
    | None => k = head /\ v = 0
    end.

Lemma resolve_slot_Ok head events sw v k acc acc' :
  resolve_slot head events sw v k acc = Ok acc' -> bt_lookup k acc = None ->
  resolved head events v acc' k /\ forall k', k' <> k -> bt_lookup k' acc' = bt_lookup k' acc.
Proof.
  unfold Settlement.resolve_slot. intros E Hk.
  destruct (bt_lookup k events) as [e|] eqn:Ee; [|done].
  destruct (bt_lookup k sw) as [ws|]; [|done].
  destruct (orb _ _) eqn:Eo; [done|]. apply orb_false_iff in Eo as [_ Eo%negb_false_iff%Z.eqb_eq].
  destruct (Z.eqb_spec k head) as [->|Hne].
  - destruct (find_processed_offset ws v) as [o|] eqn:Ef; [|done].
    apply find_offset_from_spec in Ef as [_ Ef]. rewrite Nat.sub_0_r in Ef.
    destruct (drop o ws) as [|y rem] eqn:Ed; injection E as <-.
    + split; [|done]. exists e, ws. rewrite Hk. by split_and!.
    + split; [exists e, ws|].
      * by rewrite bt_lookup_insert, !Z.eqb_refl.
      * intros k' Hne. by rewrite bt_lookup_insert, (proj2 (Z.eqb_neq _ _)).
  - injection E as <-. split; [exists e, ws|].
    + by rewrite bt_lookup_insert, Z.eqb_refl, (proj2 (Z.eqb_neq _ _) Hne).
    + intros k' Hne'. by rewrite bt_lookup_insert, (proj2 (Z.eqb_neq _ _)).
Qed.

Lemma resolve_pending_slots_Ok head tail events sw v m :
  resolve_pending_slots head tail events sw v = Ok m ->
  (forall k, head <= k < tail -> resolved head events v m k) /\
  (forall k ws, bt_lookup k m = Some ws -> head <= k < tail).
Proof.
  intros E. pose proof (NoDup_seqZ head (tail - head)) as Hnd.
  assert ((forall k, k ∈ seqZ head (tail - head) -> resolved head events v m k) /\
          (forall k ws, bt_lookup k m = Some ws -> k ∈ seqZ head (tail - head))) as [H1 H2].
  { revert E. apply (for_each_ind _ (fun l m => (forall k, k ∈ l -> resolved head events v m k) /\
      (forall k ws, bt_lookup k m = Some ws -> k ∈ l))).
    - split; [intros k Hk; by apply not_elem_of_nil in Hk|done].
    - intros before k acc acc' [rest Hp] [I1 I2] Ek.
      assert (k ∉ before) as Hnk.
      { rewrite Hp, <- app_assoc in Hnd. apply NoDup_app in Hnd as (_ & Hd & _). intros Hin.
        apply (Hd k Hin). set_solver. }
      destruct (resolve_slot_Ok _ _ _ _ _ _ _ Ek) as [R1 R2].
      { destruct (bt_lookup k acc) eqn:El; [by apply I2 in El|done]. }
      split.
      + intros k' [Hk'| ->%list_elem_of_singleton]%elem_of_app; [|done].
        unfold resolved. rewrite R2 by (intros ->; done). by apply I1.
      + intros k' ws Hl. destruct (decide (k' = k)) as [->|Hne]; [set_solver|].
        rewrite R2 in Hl by done. apply I2 in Hl. set_solver. }
  split; intros k; [intros Hk; apply H1, elem_of_seqZ; lia|].
  intros ws Hl%H2%elem_of_seqZ. lia.
Qed.

(** ** Restoring is safe while others act *)

Context (HT : LogsTrue).

Lemma safe_lift {A} (r : result ProcessError A) P : safe P (w_lift r) (fun a w => P w /\ r = Ok a).
Proof. intros w HI HP. cbn. by destruct r. Qed.

Lemma safe_l1_query {A} P (f : L1 -> A) :
  stable keccak256 abi_encode_params P -> safe P (l1_query f) (fun a w => P w /\ a = f (l1 w)).
Proof.
  intros HP. eapply safe_bind; [by apply safe_next_turn|]. intros t.
  destruct (t_fate t); try apply safe_fail. by apply safe_read.
Qed.

Lemma safe_read_queue_bounds t0 :
  safe (fun w => t0 <= q_tail (queue (l1 w))) read_queue_bounds (bounds_read t0).
Proof.
  eapply safe_bind; [by apply safe_read_head_tail|]. intros [h t]. cbv beta iota.
  eapply safe_bind; [apply safe_lift|]. intros h'. eapply safe_bind; [apply safe_lift|]. intros t'.
  apply safe_ret. intros w [[H Eh] Et].
  destruct (try_from U64_MAX h) eqn:E1; [|done]. destruct (try_from U64_MAX t) eqn:E2; [|done].
  apply try_from_Some in E1 as [-> _], E2 as [-> _]. injection Eh as <-. by injection Et as <-.
Qed.

(** Events carry the hash of the batch submitted under their index. *)
Definition events_ok (events : btree BatchSubmitted) (w : World) : Prop :=
  forall k e, bt_lookup k events = Some e -> 0 <= k /\
    exists b, submitted (l1 w) !! Z.to_nat k = Some b /\ bs_withdrawalQueueHash e = queue_hash b.

Lemma events_ok_stable events : stable keccak256 abi_encode_params (events_ok events).
Proof.
  intros w w' HF H k e He. destruct (H k e He) as (Hk & b & Hb & Eb). split; [done|].
  exists b. split; [|done]. eapply prefix_lookup_Some; [done|]. apply HF.
Qed.

Lemma insert_events_ok es l lo hi topics found found' w :
  l = l1 w -> es ⊆ pl_batch_submitted logs l lo hi topics -> events_ok found w ->
  for_each insert_event es found = Ok found' -> events_ok found' w.
Proof.
  intros -> Hes H0. apply (for_each_ind _ (fun _ f => events_ok f w)); [done|].
  intros before e acc acc' [rest Hp] Hacc. unfold insert_event.
  destruct (try_from U64_MAX _) as [index|] eqn:Ei; [|done]. apply try_from_Some in Ei as [-> _].
  destruct (bt_lookup _ acc); [done|]. intros [= <-]. intros k e'. rewrite bt_lookup_insert.
  destruct (Z.eqb_spec k (bs_withdrawalQueueIndex e)) as [->|]; [|apply Hacc]. intros [= <-].
  apply (HT (l1 w) lo hi topics), Hes. rewrite Hp. set_solver.
Qed.

Lemma safe_find_events fuel topics : forall hi found,
  safe (events_ok found)
    (find_events_loop keccak256 abi_encode_params logs genesis_block fuel topics hi found) events_ok.
Proof.
  induction fuel as [|fuel IH]; intros hi found; cbn [find_events_loop]; [apply safe_fail|].
  destruct (andb _ _); [|by apply safe_ret].
  eapply safe_bind; [apply safe_l1_query, events_ok_stable|]. intros es.
  eapply (safe_bind _ _ _ _ (fun f w => events_ok f w)).
  - eapply safe_conseq; [apply safe_lift|exact (fun _ H => H)|]. intros f w [[H ->] E].
    by eapply insert_events_ok.
  - intros f. destruct (_ =? _); [by apply safe_ret|apply IH].
Qed.

Lemma safe_find_batch_events first tail :
  safe (fun _ => True) (find_batch_events_by_index keccak256 abi_encode_params logs genesis_block first tail)
    events_ok.
Proof.
  unfold find_batch_events_by_index. destruct (tail <=? first); [by apply safe_ret|].
  eapply safe_bind; [by apply safe_l1_query|]. intros hi.
  eapply safe_conseq; [apply safe_find_events|by intros w _ k e|done].
Qed.

(** The slot of [head] had hash [v]; since then it only lost withdrawals. *)
Definition slot_was (head v : Z) (w : World) : Prop :=
  q_head (queue (l1 w)) = head -> head < q_tail (queue (l1 w)) -> rtc peel v (head_slot w).

Lemma slot_was_stable head v :
  stable keccak256 abi_encode_params (fun w => reached head w /\ head < q_tail (queue (l1 w)) /\ slot_was head v w).
Proof.
  intros w w' HF (Hr & Hlt & Hs). pose proof (f_head _ _ _ _ HF). pose proof (f_tail _ _ _ _ HF).
  unfold reached in *. split_and!; [lia|lia|]. intros Eh _.
  etrans; [apply Hs; lia|]. apply (f_slot _ _ _ _ HF); lia.
Qed.

Lemma peel_suffix a r : rtc peel (queue_hash a) (queue_hash r) -> r <> [] -> r `suffix_of` a.
Proof.
  intros H Hr. remember (queue_hash a) as h eqn:Ea. revert a Ea.
  remember (queue_hash r) as hr eqn:Er. induction H as [h|h1 h2 h3 [x Hx] H2 IH]; intros a Ea; subst.
  - apply (queue_hash_inj _ _ HL) in Ea as ->. done.
  - destruct a as [|y a]; [by destruct (link_regular _ _ HL x h2) as [[] _]|].
    rewrite queue_hash_cons in Ea. apply (link_inj _ _ HL) in Ea as [_ Ea]. apply suffix_cons_r.
    destruct (decide (a = [])) as [->|Ha].
    + exfalso. destruct (queue_hash_ne _ _ HL r Hr) as (Hq & _ & He). cbn in Ea. subst h2.
      inversion H2 as [? E|? ? ? [z Hz]]; [congruence|].
      by destruct (link_regular _ _ HL z y0) as [_ []].
    + apply IH; [done|]. by destruct (queue_hash_ne _ _ HL a Ha) as (-> & _).
Qed.

(** The rebuilt data matches the portal, and no slot pending up to [t0] is
    missing. *)
Definition rebuilt (t0 : Z) (m : WithdrawalStore) (w : World) : Prop :=
  Inv (with_store (fun _ => m) w) /\
  forall k, q_head (queue (l1 w)) <= k < t0 -> is_Some (get_batch m k).

Lemma rebuilt_empty t0 w : Inv w -> t0 <= q_head (queue (l1 w)) -> rebuilt t0 [] w.
Proof.
  intros (rem & R & _) H. split; [|intros k Hk; lia]. exists rem. split; [done|]. by split.
Qed.

Lemma resolve_rebuilds head tail events sw v m t0 w :
  Inv w -> reached head w -> tail <= q_tail (queue (l1 w)) -> t0 <= tail -> slot_was head v w ->
  events_ok events w -> resolve_pending_slots head tail events sw v = Ok m -> rebuilt t0 m w.
Proof.
  intros (rem & R & _) Hr Ht Ht0 Hslot Hev [H1 H2]%resolve_pending_slots_Ok. unfold reached in Hr.
  pose proof (r_len _ _ _ _ R) as Hlen. pose proof (r_head _ _ _ _ R) as H0. split.
  - exists rem. split; [done|]. split; cbn [l1 store with_store].
    + intros i r ws Hi Hg. destruct (r_slot _ _ _ _ R i r Hi) as (Hne & Hs & b & Hb & Hsuf).
      pose proof (H2 _ _ Hg) as Hk. destruct (H1 _ Hk) as (e & ws0 & He & Hq & Hm).
      unfold get_batch in Hg. rewrite Hg in Hm. case_match eqn:Eh.
      * assert (i = O) as -> by lia. rewrite Z.add_0_r in *. apply Z.eqb_eq in Eh.
        apply peel_suffix; [|done]. rewrite Hm, <- Hs. apply Hslot; lia.
      * subst ws0. destruct (Hev _ _ He) as (_ & b' & Hb' & Eb'). rewrite Eb' in Hq.
        apply (queue_hash_inj _ _ HL) in Hq as ->.
        replace (Z.to_nat (q_head (queue (l1 w)) + Z.of_nat i))
          with (Z.to_nat (q_head (queue (l1 w))) + i)%nat in Hb' by lia. congruence.
    + intros k ws Hg%H2. lia.
  - intros k Hk. destruct (H1 k ltac:(lia)) as (e & ws & _ & _ & Hm). unfold get_batch.
    destruct (bt_lookup k m); [done|]. destruct Hm as [-> ->]. exfalso.
    destruct rem as [|r rem]; [cbn in Hlen; lia|].
    destruct (r_slot _ _ _ _ R 0 r eq_refl) as (Hne & Hs & _). rewrite Z.add_0_r in Hs.
    assert (rtc peel (queue_hash []) (queue_hash r)) as Hp%peel_suffix; [|by apply suffix_nil_inv in Hp|done].
    rewrite <- Hs. apply Hslot; lia.
Qed.

Lemma safe_fetch t0 :
  safe (fun w => t0 <= q_tail (queue (l1 w))) fetch_pending_withdrawals (rebuilt t0).
Proof.
  eapply safe_bind; [apply safe_read_queue_bounds|]. intros [head tl]. cbv beta iota.
  destruct (Z.leb_spec tl head) as [Hle|Hlt].
  { intros w HI (H1 & _ & H3). cbn in *. unfold reached in H1. split_and!; [done|done|].
    apply rebuilt_empty; [done|lia]. }
  set (B := bounds_read t0 (head, tl)).
  assert (HB : stable keccak256 abi_encode_params B) by apply bounds_stable.
  eapply safe_bind; [eapply safe_conseq; [eapply safe_frame; [apply safe_find_batch_events|exact HB]|by split|
    exact (fun _ _ H => H)]|]. intros events.
  eapply safe_bind; [apply safe_lift|]. intros zend. eapply safe_bind; [apply safe_lift|]. intros sw.
  eapply (safe_bind _ _ _ _ (fun v w => events_ok events w /\ B w /\
    reached head w /\ head < q_tail (queue (l1 w)) /\ slot_was head v w)).
  { eapply safe_conseq; [apply (safe_l1_read _ _ HL (fun w => events_ok events w /\ B w))| |].
    - intros w w' HF [Ha Hb]. split; [by eapply events_ok_stable|by eapply HB].
    - by intros w [[[? ?] ?] ?].
    - intros v w [[He Hw] ->]. pose proof Hw as (Hr & Ht & _). cbn in Hr, Ht.
      split_and!; [done|done|done|lia|]. intros <- _. done. }
  intros v. eapply (safe_bind _ _ _ _ (fun _ w => events_ok events w /\ B w /\
    reached head w /\ head < q_tail (queue (l1 w)) /\ slot_was head v w)).
  { eapply safe_conseq; [eapply safe_frame; [apply (safe_read_queue_bounds t0)|]| |].
    - instantiate (1 := fun w => events_ok events w /\ B w /\
        reached head w /\ head < q_tail (queue (l1 w)) /\ slot_was head v w).
      intros w w' HF (Ha & Hb & Hc). split; [by eapply events_ok_stable|]. split; [by eapply HB|].
      by eapply slot_was_stable.
    - intros w H. split; [|done]. destruct H as (_ & (_ & Ht & H3) & _). cbn in *. lia.
    - by intros a w [_ H]. }
  intros [h2 t2]. cbv beta iota. destruct (orb _ _); [apply safe_fail|].
  intros w HI (He & (_ & Ht & Ht0) & Hr & _ & Hs). cbn.
  destruct (resolve_pending_slots head tl events sw v) as [m|] eqn:E; [|done].
  split_and!; [done|done|]. by eapply resolve_rebuilds.
Qed.

Lemma restore_keeps w :
  Inv w -> let '(r, w') := restore w in Inv w' /\ Forward w w' /\
    (r = Ok tt -> forall k, q_head (queue (l1 w')) <= k < q_tail (queue (l1 w)) ->
       is_Some (get_batch (store w') k)).
Proof.
  intros HI. unfold restore_pending_withdrawals_from_chain, mbind, W_bind.
  pose proof (safe_fetch (q_tail (queue (l1 w))) w HI (Z.le_refl _)) as H.
  destruct (fetch_pending_withdrawals w) as [[m|e] w1]; [|by destruct H as (? & ? & _)].
  destruct H as (_ & HF & HI' & Hall). cbn. split; [exact HI'|]. split; [|done].
  destruct HF. split; try done. intros k Hk _. by apply Hall.
Qed.

(** ** Runs of the processor and of the monitor's resync *)

Inductive Op :=
| Cycle (turns : list Turn) (slots : nat)
| Resync (turns : list Turn).

Definition with_oracle (turns : list Turn) (w : World) : World :=
  mkWorld (l1 w) (store w) (repair_requested w) turns.

Definition step (w : World) (op : Op) : World :=
  match op with
  | Cycle turns slots => (process_queue slots (with_oracle turns w)).2
  | Resync turns => (resync_store (with_oracle turns w)).2
  end.

Definition run (p : Portal) (ops : list Op) : World := foldl step (genesis p) ops.

Lemma Inv_oracle turns w : Inv w -> Inv (with_oracle turns w).
Proof. intros (rem & H). by exists rem. Qed.

Lemma resync_keeps w :
  Inv w -> let w' := (resync_store w).2 in Inv w' /\ paid (l1 w) `prefix_of` paid (l1 w') /\
  (store w' = [] \/ forall k, q_head (queue (l1 w')) <= k < q_tail (queue (l1 w)) ->
                    is_Some (get_batch (store w') k)).
Proof.
  intros HI. unfold Settlement.resync_store. pose proof (restore_keeps w HI) as H.
  destruct (restore w) as [[[]|e] w1]; destruct H as (HI1 & HF & Hall); cbn; split_and!;
    [done|apply HF|right; by apply Hall| |apply HF|by left].
  destruct HI1 as (rem & R & _). exists rem. split; [done|]. by split.
Qed.

Lemma step_Inv w op : Inv w -> Inv (step w op) /\ paid (l1 w) `prefix_of` paid (l1 (step w op)).
Proof.
  intros HI. destruct op as [turns slots|turns].
  - destruct (cycle_keeps _ _ HL w (turns, slots) HI) as [? HF]. split; [done|]. apply HF.
  - destruct (resync_keeps (with_oracle turns w)) as (? & ? & _); [by apply Inv_oracle|]. done.
Qed.

Lemma run_Inv p ops : fresh_portal p -> Inv (run p ops).
Proof.
  intros Hp. unfold run. pose proof (genesis_Inv keccak256 abi_encode_params p Hp) as HI. revert HI.
  generalize (genesis p). induction ops as [|op ops IH]; intros w HI; [done|]. cbn. apply IH.
  by apply step_Inv.
Qed.

Lemma resumable w k :
  Inv w -> q_head (queue (l1 w)) <= k < q_tail (queue (l1 w)) -> is_Some (get_batch (store w) k) ->
  exists ws n, get_batch (store w) k = Some ws /\
    find_processed_offset ws (slot_at (queue (l1 w)) (k mod WITHDRAWAL_QUEUE_CAPACITY)) = Some n /\
    (n < length ws)%nat.
Proof.
  intros HI Hk [ws Hg]. exists ws. destruct (pending_resumable _ _ HL w k ws HI Hk Hg) as (n & H).
  by exists n.
Qed.

(** C11. Every withdrawal is paid at most once and in the order submitted, whatever
    happens on L1 and on the network during any number of cycles and resyncs
    (batches submitted meanwhile, transactions lost, landing late, mined
    unseen or reverted, reads failing or served out of order); and a cycle
    never gives up the data of a slot that is still pending: it stays in the
    store and still matches the portal, so the next cycle resumes where the
    portal is. *)
Theorem paid_once_in_order p ops turns slots :
  fresh_portal p ->
  let w := run p ops in
  let w' := step w (Cycle turns slots) in
  paid (l1 w) `prefix_of` paid (l1 w') /\ paid (l1 w') `prefix_of` concat (submitted (l1 w')) /\
  forall k, q_head (queue (l1 w')) <= k < q_tail (queue (l1 w)) -> has_batch (store w) k = true ->
    exists ws n, get_batch (store w') k = Some ws /\
      find_processed_offset ws (slot_at (queue (l1 w')) (k mod WITHDRAWAL_QUEUE_CAPACITY)) = Some n /\
      (n < length ws)%nat.
Proof.
  cbv zeta. intros Hp. destruct (cycle_keeps _ _ HL (run p ops) (turns, slots) (run_Inv p ops Hp)) as [HI HF].
  change (step (run p ops) (Cycle turns slots)) with (cycle keccak256 abi_encode_params (run p ops) (turns, slots)).
  split; [apply HF|]. split; [by apply (Inv_paid _ _ _ HI)|]. intros k Hk Hb%bool_decide_eq_true.
  pose proof (f_tail _ _ _ _ HF). apply resumable; [done|lia|].
  by apply (f_store _ _ _ _ HF).
Qed.

(** A resync leaves a store the processor can work with: while other parties
    act, and whatever data the zone node returns, either every slot that was
    pending and still is has data that matches the portal, also when some of
    its withdrawals were paid during the resync, or the rebuild failed and
    the store is empty; nothing is paid out of order. *)
Theorem resync_rebuilds p ops turns :
  fresh_portal p ->
  let w := run p ops in
  let w' := step w (Resync turns) in
  paid (l1 w') `prefix_of` concat (submitted (l1 w')) /\
  (store w' = [] \/
   forall k, q_head (queue (l1 w')) <= k < q_tail (queue (l1 w)) ->
     exists ws n, get_batch (store w') k = Some ws /\
       find_processed_offset ws (slot_at (queue (l1 w')) (k mod WITHDRAWAL_QUEUE_CAPACITY)) = Some n /\
       (n < length ws)%nat).
Proof.
  cbv zeta. intros Hp. destruct (resync_keeps (with_oracle turns (run p ops))) as (HI & _ & Hs);
    [by apply Inv_oracle, run_Inv|]. split; [by apply (Inv_paid _ _ _ HI)|].
  destruct Hs as [Hs|Hs]; [by left|]. right. intros k Hk.
  destruct (Hs k Hk) as [ws Hg]. apply resumable; [done| |by exists ws].
  destruct HI as (rem & R & Ha & Hb). split; [apply Hk|]. by eapply Hb.
Qed.

(** ** Undisturbed, a resync succeeds *)

(** A fallible loop whose rounds insert fresh keys. *)
Lemma for_each_inserts {A V} (f : A -> btree V -> result ProcessError (btree V)) key val l : forall acc,
  (forall x acc, x ∈ l -> bt_lookup (key x) acc = None -> f x acc = Ok (bt_insert (key x) (val x) acc)) ->
  NoDup (key <$> l) -> (forall x, x ∈ l -> bt_lookup (key x) acc = None) -> sorted acc ->
  exists m, for_each f l acc = Ok m /\ sorted m /\
    forall k v, bt_lookup k m = Some v <->
      bt_lookup k acc = Some v \/ exists x, x ∈ l /\ key x = k /\ val x = v.
Proof.
  induction l as [|x l IH]; intros acc Hf Hnd Hfr Hs.
  { exists acc. split_and!; [done..|]. intros k v. split; [by left|].
    intros [H|(x & Hx & _)]; [done|by apply not_elem_of_nil in Hx]. }
  rewrite fmap_cons in Hnd. apply NoDup_cons in Hnd as [Hx Hnd].
  cbn. unfold mbind, result_bind. rewrite Hf by (set_solver || apply Hfr; set_solver).
  destruct (IH (bt_insert (key x) (val x) acc)) as (m & Em & Sm & Hm); [| |  |by apply bt_insert_sorted|].
  - intros y acc' Hy. apply Hf. set_solver.
  - done.
  - intros y Hy. rewrite bt_lookup_insert. destruct (Z.eqb_spec (key y) (key x)) as [E|].
    + destruct Hx. rewrite <- E. by apply list_elem_of_fmap_2.
    + apply Hfr. set_solver.
  - exists m. split_and!; [done..|]. intros k v. rewrite Hm, bt_lookup_insert. split.
    + intros [H|(y & Hy & H)]; [|right; exists y; set_solver].
      destruct (Z.eqb_spec k (key x)) as [->|]; [|by left]. injection H as <-. right. exists x. set_solver.
    + intros [H|(y & [->|Hy]%elem_of_cons & E & Ev)].
      * left. destruct (Z.eqb_spec k (key x)) as [->|]; [|done]. rewrite Hfr in H by set_solver. done.
      * left. by rewrite E, Z.eqb_refl, Ev.
      * right. by exists y.
Qed.

(** ** The zone's logs *)

(** The outbox's logs on the zone chain, in chain order, and the encrypted
    senders in the calldata of the transaction of each finalization. *)
Record ZoneHistory := mkZoneHistory {
  zh_requests : list RequestedWithdrawalLog;
  zh_finalized : list FinalizedBatchLog;
  zh_senders : FinalizedBatchLog -> list (list Z)
}.

(** The block of the last finalization in [before], the genesis block if there
    is none. *)
Definition prev_end (before : list FinalizedBatchLog) : Z :=
  match last before with Some G => fb_block_number G | None => 0 end.

(** The requests that finalization [F] closes, coming after those in [before],
    and its withdrawals. *)
Definition requests_closed (H : ZoneHistory) (before : list FinalizedBatchLog) (F : FinalizedBatchLog)
    : list RequestedWithdrawalLog :=
  filter (fun r => prev_end before < rw_block_number r <= fb_block_number F) (zh_requests H).
Definition batch_closed (H : ZoneHistory) (before : list FinalizedBatchLog) (F : FinalizedBatchLog) : list Withdrawal :=
  zip_with (fun r sender => from_requested_event keccak256 (rw_event r) (rw_tx_hash r) sender)
    (requests_closed H before F) (zh_senders H F).

(** Logs the way a node reports them. *)
Definition requested_raw (r : RequestedWithdrawalLog) : WithdrawalRequested * LogPos :=
  (rw_event r, mkLogPos (Some (rw_block_number r)) (Some (rw_tx_index r)) (Some (rw_log_index r)) (Some (rw_tx_hash r))).
Definition finalized_raw (F : FinalizedBatchLog) : Z * Z * LogPos :=
  (fb_withdrawal_queue_hash F, fb_withdrawal_batch_index F,
   mkLogPos (Some (fb_block_number F)) (Some (fb_tx_index F)) (Some (fb_log_index F)) (Some (fb_tx_hash F))).

Definition log_before (a b : Key) : Prop := key_leb b a = false.

(** The node holds history [H]: a query gives the logs of its block range, in
    any order; no block but the genesis block has number 0, a block has at most
    one finalization, and a finalization carries one encrypted sender per
    request it closes and logs the queue hash of its withdrawals. *)
Record ZoneHolds (H : ZoneHistory) : Prop := mkZoneHolds {
  zh_requested_query : forall lo hi, exists raw, zn_withdrawal_requested zone lo hi = Some raw /\
    raw ≡ₚ requested_raw <$> filter (fun r => lo <= rw_block_number r <= hi) (zh_requests H);
  zh_finalized_query : forall lo hi, exists raw, zn_batch_finalized zone lo hi = Some raw /\
    raw ≡ₚ finalized_raw <$> filter (fun F => lo <= fb_block_number F <= hi) (zh_finalized H);
  zh_finalize_tx : forall F, F ∈ zh_finalized H -> zn_finalize_tx zone (fb_tx_hash F) = Some (Some (Some (zh_senders H F)));
  zh_requests_order : StronglySorted (fun r r' => log_before (requested_key r) (requested_key r')) (zh_requests H);
  zh_finalized_order : StronglySorted (fun F F' => fb_block_number F < fb_block_number F') (zh_finalized H);
  zh_blocks : forall F, F ∈ zh_finalized H -> 1 <= fb_block_number F <= U64_MAX;
  zh_closed : forall before F after, zh_finalized H = before ++ F :: after ->
    length (zh_senders H F) = length (requests_closed H before F) /\
    fb_withdrawal_queue_hash F = queue_hash (batch_closed H before F)
}.

Lemma key_leb_total a b : key_leb a b = false -> key_leb b a = true.
Proof. destruct a as [[a1 a2] a3], b as [[b1 b2] b3]. unfold key_leb. lia. Qed.
Lemma key_leb_trans a b c : key_leb a b = true -> key_leb b c = true -> key_leb a c = true.
Proof. destruct a as [[a1 a2] a3], b as [[b1 b2] b3], c as [[c1 c2] c3]. unfold key_leb. lia. Qed.

Lemma StronglySorted_impl {A} (R R' : A -> A -> Prop) l :
  (forall x y, R x y -> R' x y) -> StronglySorted R l -> StronglySorted R' l.
Proof. intros HR. induction 1 as [|x l Hs IH Hx]; constructor; [done|]. eapply Forall_impl; [exact Hx|]. apply HR. Qed.
Lemma StronglySorted_filter {A} (R : A -> A -> Prop) (P : A -> Prop) `{forall x, Decision (P x)} l :
  StronglySorted R l -> StronglySorted R (filter P l).
Proof.
  induction 1 as [|x l Hs IH Hx]; [constructor|]. rewrite filter_cons. destruct (decide (P x)); [|done].
  constructor; [done|]. rewrite Forall_forall in Hx. apply Forall_forall. intros y [_ Hy]%list_elem_of_filter. by apply Hx.
Qed.

Section sorting.
Context {A : Type} (key : A -> Key).
Abbreviation le := (fun x y : A => key_leb (key x) (key y) = true).

Lemma insert_by_perm x l : insert_by key x l ≡ₚ x :: l.
Proof.
  induction l as [|y l IH]; cbn; [done|]. destruct (key_leb _ _); [done|]. rewrite IH. apply Permutation_swap.
Qed.
Lemma sort_by_key_perm l : sort_by_key key l ≡ₚ l.
Proof. induction l as [|x l IH]; cbn; [done|]. by rewrite insert_by_perm, IH. Qed.
Lemma insert_by_sorted x l : StronglySorted le l -> StronglySorted le (insert_by key x l).
Proof.
  induction 1 as [|y l Hs IH Hy]; cbn; [repeat constructor|]. destruct (key_leb (key x) (key y)) eqn:E.
  - constructor; [by constructor|]. constructor; [done|]. eapply Forall_impl; [exact Hy|]. cbn. eauto using key_leb_trans.
  - constructor; [done|]. rewrite insert_by_perm. constructor; [by apply key_leb_total|done].
Qed.
Lemma sort_by_key_sorted l : StronglySorted le (sort_by_key key l).
Proof. induction l as [|x l IH]; cbn; [constructor|by apply insert_by_sorted]. Qed.

(** Whatever order the logs come in, sorting gives chain order. *)
Lemma sort_by_key_unique raw l :
  StronglySorted (fun x y => log_before (key x) (key y)) l -> raw ≡ₚ l -> sort_by_key key raw = l.
Proof.
  intros Hl Hp. apply (StronglySorted_unique_strong le).
  - intros x y Hx Hy Hxy Hyx. rewrite sort_by_key_perm, Hp in Hx. revert Hx Hy Hxy Hyx. clear Hp.
    induction Hl as [|z l Hs IH Hz]; [by intros ?%not_elem_of_nil|]. rewrite Forall_forall in Hz.
    intros [->|Hx]%elem_of_cons [->|Hy]%elem_of_cons Hxy Hyx; [done| | |by apply IH].
    + pose proof (Hz _ Hy) as Hlt. unfold log_before in Hlt. congruence.
    + pose proof (Hz _ Hx) as Hlt. unfold log_before in Hlt. congruence.
  - apply sort_by_key_sorted.
  - eapply (StronglySorted_impl (fun x y => log_before (key x) (key y))); [|exact Hl]. intros x y. apply key_leb_total.
  - by rewrite sort_by_key_perm.
Qed.
End sorting.

Lemma collect_raw {A B} (f : A -> result ProcessError B) (g : B -> A) l :
  (forall b, f (g b) = Ok b) -> collect f (g <$> l) = Ok l.
Proof. intros Hf. induction l as [|b l IH]; [done|]. cbn. unfold mbind, result_bind. by rewrite Hf, IH. Qed.

Lemma filter_nothing {A} (P : A -> Prop) `{forall x, Decision (P x)} l : (forall x, x ∈ l -> ~ P x) -> filter P l = [].
Proof. induction l as [|x l IH]; intros Hn; [done|]. rewrite filter_cons_False by set_solver. apply IH. set_solver. Qed.

#[local] Existing Instance at_block_dec.

Section zone_logs.
Context (H : ZoneHistory) (ZH : ZoneHolds H).

Lemma requested_logs_exact lo hi :
  fetch_requested_withdrawal_logs zone lo hi = Ok (filter (fun r => lo <= rw_block_number r <= hi) (zh_requests H)).
Proof.
  destruct (zh_requested_query _ ZH lo hi) as (raw & E & Hp). unfold fetch_requested_withdrawal_logs.
  rewrite E. apply Permutation_map_inv in Hp as (l & -> & Hl). cbn.
  unfold mbind, result_bind. rewrite (collect_raw to_requested_log requested_raw) by (by intros []). f_equal.
  apply sort_by_key_unique; [|done]. apply StronglySorted_filter, (zh_requests_order _ ZH).
Qed.

Lemma block_lt_key F F' : fb_block_number F < fb_block_number F' -> log_before (finalized_key F) (finalized_key F').
Proof. intros Hlt. unfold log_before, key_leb, finalized_key. lia. Qed.

Lemma finalized_logs_exact lo hi :
  let l := filter (fun F => lo <= fb_block_number F <= hi) (zh_finalized H) in
  fetch_finalized_batch_logs zone lo hi = Ok l /\ sort_by_key finalized_key l = l.
Proof.
  cbv zeta. destruct (zh_finalized_query _ ZH lo hi) as (raw & E & Hp). unfold fetch_finalized_batch_logs.
  rewrite E. apply Permutation_map_inv in Hp as (l & -> & Hl). cbn.
  unfold mbind, result_bind. rewrite (collect_raw to_finalized_log finalized_raw) by (by intros []).
  assert (Hs : StronglySorted (fun F F' => log_before (finalized_key F) (finalized_key F'))
                 (filter (fun F => lo <= fb_block_number F <= hi) (zh_finalized H))).
  { apply StronglySorted_filter. eapply (StronglySorted_impl (fun F F' => fb_block_number F < fb_block_number F'));
      [apply block_lt_key|apply (zh_finalized_order _ ZH)]. }
  split; [f_equal|]; by apply sort_by_key_unique.
Qed.

Lemma rposition_last to F l : forall acc, fb_block_number F = to -> rposition to acc (l ++ [F]) = Some (acc ++ l, F).
Proof.
  induction l as [|G l IH]; intros acc HF; cbn [app rposition].
  - rewrite decide_True by done. by rewrite app_nil_r.
  - rewrite IH by done. by rewrite <-app_assoc.
Qed.

(** The finalizations around [F]. *)
Lemma around before F after :
  zh_finalized H = before ++ F :: after ->
  (forall G, G ∈ before -> 1 <= fb_block_number G < fb_block_number F) /\
  (forall G, G ∈ after -> fb_block_number F < fb_block_number G) /\
  (forall G, G ∈ before -> fb_block_number G <= prev_end before) /\ 0 <= prev_end before < fb_block_number F.
Proof.
  intros E. pose proof (zh_finalized_order _ ZH) as Hs. pose proof (zh_blocks _ ZH) as Hb. rewrite E in Hs, Hb.
  pose proof (Hb F ltac:(set_solver)). assert (Hbf : forall G, G ∈ before -> 1 <= fb_block_number G < fb_block_number F).
  { intros G HG. split; [apply Hb; set_solver|]. eapply (StronglySorted_app_1_elem_of _ _ _ _ _ Hs); set_solver. }
  split; [done|]. split.
  { apply StronglySorted_app_1_r, StronglySorted_inv in Hs as [_ Hs]. by rewrite Forall_forall in Hs. }
  apply StronglySorted_app_1_l in Hs. unfold prev_end. destruct before as [|G l] using rev_ind; [set_solver by lia|].
  rewrite last_snoc. split; [|pose proof (Hbf G ltac:(set_solver)); lia].
  intros G' [HG| ->%list_elem_of_singleton]%elem_of_app; [|lia].
  enough (fb_block_number G' < fb_block_number G) by lia. eapply (StronglySorted_app_1_elem_of _ _ _ _ _ Hs); set_solver.
Qed.

(** The boundary the code finds before [F] in a range that reaches back at
    least to the previous one. *)
Lemma previous_boundary_exact before from to :
  (forall G, G ∈ before -> fb_block_number G <= prev_end before /\ fb_block_number G <= to) ->
  1 <= from -> ((forall G, G ∈ before -> fb_block_number G < from) -> prev_end before = from - 1) ->
  match last (filter (fun G => from <= fb_block_number G <= to) before) with
  | Some G => fb_block_number G
  | None => saturating_sub from 1
  end = prev_end before.
Proof.
  intros Hb Hf Hp. destruct before as [|G l _] using rev_ind.
  { rewrite Hp by set_solver. cbn. unfold saturating_sub. lia. }
  assert (Hl : prev_end (l ++ [G]) = fb_block_number G) by (unfold prev_end; by rewrite last_snoc).
  rewrite filter_app, filter_cons, filter_nil. destruct (Hb G ltac:(set_solver)) as [_ HG].
  destruct (decide (from <= fb_block_number G)) as [Hge|Hlt].
  - rewrite decide_True by done. by rewrite last_snoc.
  - rewrite decide_False by lia. rewrite app_nil_r.
    assert (Hall : forall G', G' ∈ l ++ [G] -> fb_block_number G' < from) by (intros G' HG'; destruct (Hb _ HG'); lia).
    destruct (filter _ l) as [|G' l'] eqn:E; [rewrite Hp by done; cbn; unfold saturating_sub; lia|]. exfalso.
    assert (HG' : G' ∈ filter (fun G => from <= fb_block_number G <= to) l) by (rewrite E; set_solver).
    apply list_elem_of_filter in HG' as [Hr HG']. pose proof (Hall G' ltac:(set_solver)). lia.
Qed.

(** What the sequencer rebuilds for the range that ends with [F] is what the
    outbox finalized there. *)
Lemma fetch_batch_exact before F after from :
  zh_finalized H = before ++ F :: after -> 1 <= from <= fb_block_number F ->
  ((forall G, G ∈ before -> fb_block_number G < from) -> prev_end before = from - 1) ->
  fetch_slot_withdrawals keccak256 abi_encode_params zone from (fb_block_number F) = Ok (batch_closed H before F).
Proof.
  intros E Hf Hp. destruct (around _ _ _ E) as (Hb & Ha & Hl & Hpe). destruct (zh_closed _ ZH _ _ _ E) as [Hlen Hh].
  destruct (finalized_logs_exact from (fb_block_number F)) as [Hlogs Hsort]. pose proof (zh_blocks _ ZH F ltac:(rewrite E; set_solver)).
  assert (Hfin : filter (fun G => from <= fb_block_number G <= fb_block_number F) (zh_finalized H) =
                 filter (fun G => from <= fb_block_number G <= fb_block_number F) before ++ [F]).
  { rewrite E, filter_app, filter_cons_True by lia. f_equal. f_equal. apply filter_nothing.
    intros G HG. specialize (Ha G HG). lia. }
  rewrite Hfin in Hlogs, Hsort. unfold fetch_slot_withdrawals, fetch_finalized_batch, mbind, result_bind.
  rewrite Hlogs, Hsort, rposition_last by done. cbn [app].
  remember (filter (fun G => from <= fb_block_number G <= fb_block_number F) before ++ [F]) as fin eqn:Efin.
  destruct fin as [|G0 l0]; [by destruct (filter _ before)|]. rewrite Efin.
  assert (Hone : filter (at_block (fb_block_number F)) (filter (fun G => from <= fb_block_number G <= fb_block_number F) before ++ [F]) = [F]).
  { rewrite filter_app, filter_cons_True, filter_nil by done. rewrite filter_nothing; [done|].
    intros G [_ HG]%list_elem_of_filter. specialize (Hb G HG). unfold at_block. lia. }
  rewrite Hone, previous_boundary_exact;
    [|intros G HG; specialize (Hb G HG); specialize (Hl G HG); lia|lia|done].
  cbn [length Nat.eqb negb]. assert (Hsat : saturating_add U64_MAX (prev_end before) 1 = prev_end before + 1)
    by (unfold saturating_add; lia).
  rewrite Hsat, (proj2 (Z.leb_le _ _)), requested_logs_exact by lia.
  assert (Hreq : filter (fun r => prev_end before + 1 <= rw_block_number r <= fb_block_number F) (zh_requests H) =
                 requests_closed H before F) by (apply list_filter_iff; lia).
  rewrite Hreq, (zh_finalize_tx _ ZH) by (rewrite E; set_solver). cbn [rpc_answer]. rewrite Hlen, Nat.eqb_refl. cbn [negb].
  fold (batch_closed H before F). by rewrite Hh, Z.eqb_refl.
Qed.
End zone_logs.

(** What the chains hold about the batches of [l]: [taken] lists the
    [BatchSubmitted] logs of batches that took a queue index, with their L1
    block; the zone has their last block ([zend] by queue index), and batch [k]
    is what the zone's outbox finalized in that block. *)
Record ChainsAgree (l : L1) (taken : list (Z * BatchSubmitted)) (zend : Z -> Z) (H : ZoneHistory) : Prop := mkChainsAgree {
  ca_query : forall lo hi topics, pl_batch_submitted logs l lo hi topics =
    snd <$> filter (fun p => lo <= p.1 <= hi /\ bs_withdrawalQueueIndex p.2 ∈ topics) taken;
  ca_blocks : forall p, p ∈ taken -> genesis_block <= p.1 <= pl_block_number logs l;
  ca_once : NoDup ((fun p => bs_withdrawalQueueIndex p.2) <$> taken);
  ca_all : forall k, 0 <= k < q_tail (queue l) -> exists p, p ∈ taken /\ bs_withdrawalQueueIndex p.2 = k;
  ca_only : forall p, p ∈ taken -> 0 <= bs_withdrawalQueueIndex p.2 < q_tail (queue l);
  ca_genesis : 0 <= genesis_block;
  ca_end : forall p, p ∈ taken ->
    zn_block_by_hash zone (bs_nextBlockHash p.2) = Some (Some (zend (bs_withdrawalQueueIndex p.2)));
  ca_zone : ZoneHolds H;
  ca_batch : forall k b, submitted l !! Z.to_nat k = Some b -> 0 <= k ->
    exists before F after, zh_finalized H = before ++ F :: after /\ fb_block_number F = zend k /\
      b = batch_closed H before F;
  ca_order : forall k, 1 <= k -> is_Some (submitted l !! Z.to_nat k) -> zend (k - 1) < zend k
}.

(** So the restore path fetches, for a slot, the batch submitted under it. *)
Lemma slot_fetched l taken zend H k b :
  ChainsAgree l taken zend H -> submitted l !! Z.to_nat k = Some b -> 0 <= k ->
  fetch_slot_withdrawals keccak256 abi_encode_params zone (if k =? 0 then 1 else zend (k - 1) + 1) (zend k) = Ok b.
Proof.
  intros CA Hb Hk. pose proof (ca_zone _ _ _ _ CA) as ZH.
  destruct (ca_batch _ _ _ _ CA k b Hb Hk) as (before & F & after & E & HF & ->). rewrite <-HF.
  destruct (around H ZH _ _ _ E) as (H1 & H2 & H3 & H4). apply (fetch_batch_exact H ZH before F after); [done|..].
  - destruct (Z.eqb_spec k 0) as [->|]; [lia|]. pose proof (ca_order _ _ _ _ CA k ltac:(lia) ltac:(eauto)).
    destruct (lookup_lt_is_Some_2 (submitted l) (Z.to_nat (k - 1))) as [b' Hb'].
    { apply lookup_lt_Some in Hb. lia. }
    destruct (ca_batch _ _ _ _ CA (k - 1) b' Hb' ltac:(lia)) as (bf & F' & af & E' & HF' & _).
    pose proof (zh_blocks _ ZH F' ltac:(rewrite E'; set_solver)). lia.
  - destruct (Z.eqb_spec k 0) as [->|]; intros Hall.
    + destruct before as [|G l0]; [done|]. pose proof (Hall G ltac:(set_solver)). pose proof (H1 G ltac:(set_solver)). lia.
    + pose proof (ca_order _ _ _ _ CA k ltac:(lia) ltac:(eauto)) as Ho.
      destruct (lookup_lt_is_Some_2 (submitted l) (Z.to_nat (k - 1))) as [b' Hb'].
      { apply lookup_lt_Some in Hb. lia. }
      destruct (ca_batch _ _ _ _ CA (k - 1) b' Hb' ltac:(lia)) as (bf & F' & af & E' & HF' & _).
      assert (HF'in : F' ∈ before).
      { assert (HF'0 : F' ∈ before ++ F :: after) by (rewrite <-E, E'; set_solver).
        apply elem_of_app in HF'0 as [?|[->|Ha]%elem_of_cons]; [done|lia|]. specialize (H2 _ Ha). lia. }
      pose proof (H3 _ HF'in). unfold prev_end in *. destruct (last before) as [G|] eqn:El.
      * apply last_Some_elem_of in El. pose proof (Hall G El). lia.
      * apply last_None in El as ->. by apply not_elem_of_nil in HF'in.
Qed.

Section recovery.
Context (w : World) (taken : list (Z * BatchSubmitted)) (zend : Z -> Z) (hist : ZoneHistory).
Context (Hcalm : oracle w = []) (CA : ChainsAgree (l1 w) taken zend hist).
Context (Hmax : q_tail (queue (l1 w)) <= U64_MAX).
Abbreviation index p := (bs_withdrawalQueueIndex (snd p)).

Lemma l1_query_calm {A} (f : L1 -> A) : l1_query f w = (Ok (f (l1 w)), w).
Proof. unfold Settlement.l1_query, mbind, W_bind. by rewrite next_turn_calm. Qed.

(** The logs found so far: those of a wanted index above block [hi]. *)
Definition found_above (topics : list Z) (hi : Z) (found : btree BatchSubmitted) : Prop :=
  sorted found /\ forall k e, bt_lookup k found = Some e <->
    exists b, (b, e) ∈ taken /\ bs_withdrawalQueueIndex e = k /\ k ∈ topics /\ hi < b.

Lemma taken_inj p q : p ∈ taken -> q ∈ taken -> index p = index q -> p = q.
Proof.
  intros [i Hi]%list_elem_of_lookup [j Hj]%list_elem_of_lookup E.
  assert (i = j) as ->; [|congruence].
  eapply (NoDup_lookup _ i j (index p) (ca_once _ _ _ _ CA)); rewrite list_lookup_fmap, ?Hi, ?Hj; cbn; congruence.
Qed.

Lemma insert_events_calm topics lo hi found :
  lo <= hi + 1 -> found_above topics hi found ->
  exists found', for_each insert_event (pl_batch_submitted logs (l1 w) lo hi topics) found = Ok found' /\
    found_above topics (lo - 1) found'.
Proof.
  intros Hlo [Hs Hf]. rewrite (ca_query _ _ _ _ CA).
  set (P := fun p : Z * BatchSubmitted => lo <= p.1 <= hi /\ bs_withdrawalQueueIndex p.2 ∈ topics).
  destruct (for_each_inserts insert_event bs_withdrawalQueueIndex id (snd <$> filter P taken) found)
    as (m & Em & Sm & Hm).
  - intros e acc ([b e'] & -> & [_ Ht]%list_elem_of_filter)%list_elem_of_fmap Hfr. unfold insert_event.
    unfold try_from. pose proof (ca_only _ _ _ _ CA _ Ht).
    rewrite (proj2 (Z.leb_le _ _)) by lia. by rewrite Hfr.
  - rewrite <- list_fmap_compose. eapply sublist_NoDup; [apply (ca_once _ _ _ _ CA)|].
    apply fmap_sublist, sublist_filter.
  - intros e ([b e'] & -> & [[Hb _] Ht]%list_elem_of_filter)%list_elem_of_fmap.
    destruct (bt_lookup _ found) as [e|] eqn:E; [|done]. exfalso.
    apply Hf in E as (b2 & Ht2 & Ei & _ & Hb2).
    enough ((b2, e) = (b, e')) by (simplify_eq; cbn in *; lia).
    by apply taken_inj.
  - done.
  - exists m. split; [done|]. split; [done|]. intros k e. rewrite Hm, Hf. split.
    + intros [(b & ? & ? & ? & ?)|(e' & ([b e''] & -> & [[Hb Hi] Ht]%list_elem_of_filter)%list_elem_of_fmap
        & <- & <-)]; [exists b; split_and!; (done || lia)|]. exists b. cbn in *. split_and!; (done || lia).
    + intros (b & Ht & <- & Hi & Hb). destruct (decide (hi < b)); [left; by exists b|]. right.
      exists e. split; [|done]. apply list_elem_of_fmap. exists (b, e). split; [done|].
      apply list_elem_of_filter. split; [|done]. split; [cbn; lia|done].
Qed.

Lemma found_lower topics hi found :
  found_above topics hi found -> (forall k, k ∈ topics -> is_Some (bt_lookup k found)) \/ hi < genesis_block ->
  found_above topics (genesis_block - 1) found.
Proof.
  intros [Hs Hf] Hor. split; [done|]. intros k e. rewrite Hf. split.
  - intros (b & Ht & Hi & Hk & _). exists b. split_and!; [done..|]. pose proof (ca_blocks _ _ _ _ CA _ Ht). cbn in *. lia.
  - intros (b & Ht & <- & Hk & _). exists b. split_and!; [done..|].
    destruct Hor as [Hall|?]; [|pose proof (ca_blocks _ _ _ _ CA _ Ht); cbn in *; lia].
    destruct (Hall _ Hk) as [e' He']. apply Hf in He' as (b' & Ht' & E & _ & Hb').
    assert ((b', e') = (b, e)) by (by apply taken_inj). by simplify_eq.
Qed.

(** As many distinct keys as topics: all topics. *)
Lemma found_enough topics hi found :
  NoDup topics -> found_above topics hi found -> (length topics <= length found)%nat ->
  forall k, k ∈ topics -> is_Some (bt_lookup k found).
Proof.
  intros Hnd [Hs Hf] Hlen k Hk.
  pose proof (sorted_NoDup_keys found Hs) as Hnk.
  assert (found.*1 ⊆+ topics) as Hsub.
  { apply NoDup_submseteq; [done|]. intros x ([x' e] & -> & Hp)%list_elem_of_fmap.
    apply (bt_lookup_elem x' e found Hs) in Hp. apply Hf in Hp as (b & _ & _ & Ht & _). done. }
  apply submseteq_length_Permutation in Hsub; [|by rewrite length_fmap].
  rewrite <- Hsub in Hk. apply list_elem_of_fmap in Hk as ([k' e] & -> & Hp). exists e.
  by apply bt_lookup_elem.
Qed.

Lemma find_events_calm topics fuel : forall hi found,
  NoDup topics -> found_above topics hi found -> (Z.to_nat (hi - genesis_block + 1) < fuel)%nat ->
  exists found', find_events_loop keccak256 abi_encode_params logs genesis_block fuel topics hi found w =
    (Ok found', w) /\ found_above topics (genesis_block - 1) found'.
Proof.
  induction fuel as [|fuel IH]; intros hi found Hnd Hf Hfu.
  { lia. }
  cbn [find_events_loop]. destruct (andb _ _) eqn:Ec.
  - apply andb_true_iff in Ec as [Hge%Z.leb_le _]. set (lo := backward_log_query_start hi genesis_block).
    assert (genesis_block <= lo <= hi) as Hlo.
    { subst lo. unfold backward_log_query_start, saturating_sub, LOG_QUERY_BLOCK_CHUNK.
      pose proof (ca_genesis _ _ _ _ CA). lia. }
    destruct (insert_events_calm topics lo hi found) as (f' & Ef & Hf'); [lia|done|].
    unfold mbind, W_bind. rewrite l1_query_calm. unfold w_lift. rewrite Ef.
    destruct (Z.eqb_spec lo genesis_block) as [El|_].
    + exists f'. by rewrite El in Hf'.
    + apply IH; [done|done|lia].
  - exists found. split; [done|]. apply (found_lower topics hi); [done|].
    apply andb_false_iff in Ec as [Ec%Z.leb_gt|Ec%Nat.ltb_ge]; [by right|left].
    by apply (found_enough topics hi).
Qed.

Abbreviation q := (queue (l1 w)).

Lemma read_queue_bounds_calm :
  0 <= q_head q <= q_tail q -> read_queue_bounds w = (Ok (q_head q, q_tail q), w).
Proof.
  intros H. unfold Settlement.read_queue_bounds, mbind, W_bind. rewrite read_head_tail_calm by done.
  unfold w_lift, try_from. by rewrite !(proj2 (Z.leb_le _ _)) by lia.
Qed.

Lemma find_batch_events_calm first tl :
  0 <= first < tl -> tl <= q_tail q ->
  exists events, find_batch_events_by_index keccak256 abi_encode_params logs genesis_block first tl w =
    (Ok events, w) /\ sorted events /\
    forall k e, bt_lookup k events = Some e <->
      exists b, (b, e) ∈ taken /\ bs_withdrawalQueueIndex e = k /\ first <= k < tl.
Proof.
  intros Hf Ht. unfold find_batch_events_by_index. rewrite (proj2 (Z.leb_gt _ _)) by lia.
  unfold mbind, W_bind. rewrite l1_query_calm.
  destruct (find_events_calm (seqZ first (tl - first)) (S (Z.to_nat (pl_block_number logs (l1 w) - genesis_block + 1)))
    (pl_block_number logs (l1 w)) []) as (events & Ee & Hs & He); [apply NoDup_seqZ| |lia|].
  - split; [constructor|]. intros k e. split; [done|]. intros (b & Hb & _ & _ & Hlt).
    pose proof (ca_blocks _ _ _ _ CA _ Hb). cbn in *. lia.
  - exists events. split_and!; [done..|]. intros k e. rewrite He. split.
    + intros (b & Hb & Hi & Hk%elem_of_seqZ & _). exists b. split_and!; (done || lia).
    + intros (b & Hb & Hi & Hk). exists b. split_and!; [done|done|apply elem_of_seqZ; lia|].
      pose proof (ca_blocks _ _ _ _ CA _ Hb). cbn in *. lia.
Qed.

Lemma zone_ends_calm events :
  sorted events -> (forall k e, bt_lookup k events = Some e -> exists b, (b, e) ∈ taken /\ bs_withdrawalQueueIndex e = k) ->
  exists ends, for_each (resolve_zone_end zone) events [] = Ok ends /\
    forall k, is_Some (bt_lookup k events) -> bt_lookup k ends = Some (zend k).
Proof.
  intros Hs He.
  destruct (for_each_inserts (resolve_zone_end zone) fst (fun p => zend p.1) events []) as (m & Em & _ & Hm);
    [| |done|constructor|].
  - intros [k e] acc Hk%(bt_lookup_elem _ _ _ Hs) _. destruct (He _ _ Hk) as (b & Hb & Ei). cbn.
    pose proof (ca_end _ _ _ _ CA _ Hb) as Ez. cbn in Ez. rewrite Ez. cbn. by rewrite Ei.
  - by apply sorted_NoDup_keys.
  - exists m. split; [done|]. intros k [e Hk]. apply Hm. right. exists (k, e).
    by rewrite <- (bt_lookup_elem _ _ _ Hs).
Qed.

Lemma event_hash b e batch :
  (b, e) ∈ taken -> submitted (l1 w) !! Z.to_nat (bs_withdrawalQueueIndex e) = Some batch ->
  bs_withdrawalQueueHash e = queue_hash batch.
Proof.
  intros Hb Hs. destruct (HT (l1 w) b b [bs_withdrawalQueueIndex e] e) as (_ & batch' & Hs' & E); [|congruence].
  rewrite (ca_query _ _ _ _ CA). apply list_elem_of_fmap. exists (b, e). split; [done|].
  apply list_elem_of_filter. split; [|done]. cbn. set_solver by lia.
Qed.

Context (HI : Inv w).

(** A pending slot's batch, and what is left of it. *)
Lemma pending_batch k :
  q_head q <= k < q_tail q ->
  exists r b, r <> [] /\ r `suffix_of` b /\ submitted (l1 w) !! Z.to_nat k = Some b /\
    slot_at q (k mod WITHDRAWAL_QUEUE_CAPACITY) = queue_hash r.
Proof.
  intros Hk. destruct HI as (rem & R & _). pose proof (r_len _ _ _ _ R). pose proof (r_head _ _ _ _ R).
  destruct (lookup_lt_is_Some_2 rem (Z.to_nat (k - q_head q))) as [r Hr]; [lia|].
  destruct (r_slot _ _ _ _ R _ _ Hr) as (Hne & Hs & b & Hb & Hsuf). exists r, b.
  replace (q_head q + Z.of_nat (Z.to_nat (k - q_head q))) with k in Hs by lia.
  replace (Z.to_nat (q_head q) + Z.to_nat (k - q_head q))%nat with (Z.to_nat k) in Hb by lia. done.
Qed.

Definition batch_of (k : Z) : list Withdrawal := default [] (submitted (l1 w) !! Z.to_nat k).

Lemma slots_calm events ends :
  0 <= q_head q ->
  (forall k, saturating_sub (q_head q) 1 <= k < q_tail q -> is_Some (bt_lookup k events)) ->
  (forall k, is_Some (bt_lookup k events) -> bt_lookup k ends = Some (zend k)) ->
  exists sw, for_each (fetch_slot keccak256 abi_encode_params zone events ends)
      (seqZ (q_head q) (q_tail q - q_head q)) [] = Ok sw /\
    forall k, q_head q <= k < q_tail q -> bt_lookup k sw = Some (batch_of k).
Proof.
  intros H0 Hev Hends. unfold saturating_sub in Hev.
  destruct (for_each_inserts (fetch_slot keccak256 abi_encode_params zone events ends) id batch_of
    (seqZ (q_head q) (q_tail q - q_head q)) []) as (m & Em & _ & Hm); [| |done|constructor|].
  - intros k acc Hk%elem_of_seqZ _. unfold fetch_slot. destruct (Hev k ltac:(lia)) as [e He].
    rewrite He, (Hends k) by by exists e. cbn [default].
    destruct (pending_batch k ltac:(lia)) as (r & b & _ & _ & Hb & _).
    unfold batch_of. pose proof (slot_fetched _ _ _ _ k b CA Hb ltac:(lia)) as Ez. rewrite Hb.
    destruct (Z.eqb_spec k 0) as [->|]; unfold mbind, result_bind; [cbn -[fetch_slot_withdrawals]; by rewrite Ez|].
    rewrite (Hends (k - 1)) by (apply Hev; lia). cbn -[fetch_slot_withdrawals]. by rewrite Ez.
  - rewrite list_fmap_id. apply NoDup_seqZ.
  - exists m. split; [done|]. intros k Hk. apply Hm. right. exists k. split_and!; [|done|done].
    apply elem_of_seqZ. lia.
Qed.

Lemma resolve_calm events sw :
  (forall k, q_head q <= k < q_tail q -> exists b e, bt_lookup k events = Some e /\
     (b, e) ∈ taken /\ bs_withdrawalQueueIndex e = k) ->
  (forall k, q_head q <= k < q_tail q -> bt_lookup k sw = Some (batch_of k)) ->
  exists m, resolve_pending_slots (q_head q) (q_tail q) events sw
      (slot_at q (q_head q mod WITHDRAWAL_QUEUE_CAPACITY)) = Ok m /\
    forall k, q_head q <= k < q_tail q -> is_Some (bt_lookup k m).
Proof.
  intros Hev Hsw.
  set (v := slot_at q (q_head q mod WITHDRAWAL_QUEUE_CAPACITY)).
  set (val := fun k => if k =? q_head q
    then drop (default O (find_processed_offset (batch_of k) v)) (batch_of k) else batch_of k).
  destruct (for_each_inserts (resolve_slot (q_head q) events sw v) id val
    (seqZ (q_head q) (q_tail q - q_head q)) []) as (m & Em & _ & Hm); [| |done|constructor|].
  - intros k acc Hk%elem_of_seqZ _. unfold Settlement.resolve_slot.
    destruct (Hev k ltac:(lia)) as (bl & e & -> & Ht & Ei). rewrite (Hsw k ltac:(lia)).
    destruct (pending_batch k ltac:(lia)) as (r & b & Hr & Hsuf & Hb & Hs).
    unfold val, batch_of. rewrite Hb. cbn [default].
    rewrite (bool_decide_eq_false_2 (b = [])) by (intros ->; apply suffix_nil_inv in Hsuf; done).
    rewrite <- Ei in Hb. rewrite (event_hash _ _ _ Ht Hb), Z.eqb_refl. cbn [negb orb].
    destruct (Z.eqb_spec k (q_head q)) as [->|]; [|done].
    change (slot_at q _) with v in Hs. rewrite Hs. unfold id.
    destruct (find_processed_offset_suffix _ _ HL b r Hsuf) as (o & -> & Ed). cbn [default]. rewrite Ed. by destruct r.
  - rewrite list_fmap_id. apply NoDup_seqZ.
  - exists m. split; [done|]. intros k Hk. exists (val k). apply Hm. right. exists k.
    split_and!; [|done|done]. apply elem_of_seqZ. lia.
Qed.

Lemma restore_calm :
  exists m, restore w = (Ok tt, mkWorld (l1 w) m (repair_requested w) []) /\
    forall k, q_head q <= k < q_tail q -> is_Some (get_batch m k).
Proof.
  destruct HI as (rem & R & _). pose proof (r_len _ _ _ _ R). pose proof (r_head _ _ _ _ R) as H0.
  assert (exists m, fetch_pending_withdrawals w = (Ok m, w) /\
    forall k, q_head q <= k < q_tail q -> is_Some (get_batch m k)) as (m & Em & Hm).
  2: { exists m. unfold restore_pending_withdrawals_from_chain, mbind, W_bind. rewrite Em.
       split; [|done]. rewrite <- Hcalm. done. }
  unfold Settlement.fetch_pending_withdrawals, mbind, W_bind. rewrite read_queue_bounds_calm by lia.
  destruct (Z.leb_spec (q_tail q) (q_head q)); [exists []; split; [done|intros; lia]|].
  destruct (find_batch_events_calm (saturating_sub (q_head q) 1) (q_tail q)) as (events & Ee & Hs & He);
    [unfold saturating_sub; lia|lia|]. rewrite Ee.
  destruct (zone_ends_calm events Hs) as (ends & En & Hn).
  { intros k e (b & Hb & Hi & _)%He. by exists b. }
  assert (Hev : forall k, saturating_sub (q_head q) 1 <= k < q_tail q -> exists b e,
    bt_lookup k events = Some e /\ (b, e) ∈ taken /\ bs_withdrawalQueueIndex e = k).
  { intros k Hk. destruct (ca_all _ _ _ _ CA k) as ([b e] & Hp & Ei); [unfold saturating_sub in Hk; lia|].
    exists b, e. split; [|done]. apply He. by exists b. }
  unfold w_lift at 1. rewrite En.
  destruct (slots_calm events ends H0) as (sw & Ew & Hw); [|done|].
  { intros k Hk. destruct (Hev k Hk) as (b & e & -> & _). done. }
  unfold w_lift at 1. rewrite Ew, l1_read_calm, read_queue_bounds_calm by (done || lia).
  rewrite !Z.eqb_refl. cbn [negb orb].
  destruct (resolve_calm events sw) as (m & Em & Hm); [|done|].
  { intros k Hk. apply Hev. unfold saturating_sub. lia. }
  exists m. unfold w_lift. by rewrite Em.
Qed.

End recovery.

(** Undisturbed, one cycle pays out everything: from any state the processor
    can get into, if the store has data for every pending slot, a cycle in
    which L1 answers returns normally, has paid exactly the submitted
    withdrawals in order (also those of a slot left half processed), has
    moved the head to the tail, asked for no repair, and removed exactly the
    batches of the drained slots. *)
Theorem calm_cycle_drains p ops slots :
  fresh_portal p ->
  let w := with_oracle [] (run p ops) in
  (forall k, q_head (queue (l1 w)) <= k < q_tail (queue (l1 w)) -> has_batch (store w) k = true) ->
  q_tail (queue (l1 w)) <= U64_MAX ->
  q_tail (queue (l1 w)) - q_head (queue (l1 w)) < Z.of_nat slots ->
  exists w', process_queue slots w = (Ok tt, w') /\ drained w w'.
Proof.
  cbv zeta. intros Hp Hall Hmax Hf. destruct (Inv_oracle [] _ (run_Inv p ops Hp)) as (rem & R & S).
  apply (process_queue_calm _ _ HL rem); try done.
  - intros k Hk%Hall. by apply bool_decide_eq_true in Hk.
  - pose proof (r_len _ _ _ _ R). lia.
Qed.

(** C12. Recovery: whatever happened before, with whatever is left of the store,
    once L1 answers with the portal's logs and the zone node with the outbox's
    logs and transactions of the blocks asked for, and each batch on L1 is what
    the outbox finalized in the batch's last block, one resync followed by one
    cycle pays out every submitted withdrawal, in order, and empties the
    portal's queue. *)
Theorem recovery_drains p ops taken zend hist slots :
  fresh_portal p ->
  let w := run p ops in
  ChainsAgree (l1 w) taken zend hist -> q_tail (queue (l1 w)) <= U64_MAX ->
  q_tail (queue (l1 w)) - q_head (queue (l1 w)) < Z.of_nat slots ->
  let w' := step (step w (Resync [])) (Cycle [] slots) in
  submitted (l1 w') = submitted (l1 w) /\ paid (l1 w') = concat (submitted (l1 w)) /\
  q_head (queue (l1 w')) = q_tail (queue (l1 w')).
Proof.
  cbv zeta. intros Hp CA Hmax Hf. pose proof (Inv_oracle [] _ (run_Inv p ops Hp)) as HI.
  destruct (restore_calm (with_oracle [] (run p ops)) taken zend hist eq_refl CA Hmax HI) as (m & Em & Hm).
  cbn [step]. unfold Settlement.resync_store. rewrite Em. cbn [snd].
  pose proof (restore_keeps _ HI) as H. rewrite Em in H. destruct H as (HI' & _ & _).
  set (w1 := with_oracle [] _). destruct HI' as (rem & R & S).
  destruct (process_queue_calm _ _ HL rem w1 slots) as (w' & E & D); try done.
  - cbn in *. pose proof (r_len _ _ _ _ R). cbn in *. lia.
  - rewrite E. destruct D as (D1 & D2 & D3 & _). done.
Qed.
End proofs.

(** ** Log queries *)

(** A block range is queried in windows that cover each of its blocks exactly
    once, in order, each of at most 5000 blocks; the iterator ends after at
    most one window per block. *)
Theorem log_query_ranges_cover fuel from to :
  0 <= from <= to -> to <= U64_MAX -> to - from < Z.of_nat fuel ->
  let ranges := log_query_ranges fuel from to in
  (forall n, from <= n <= to <-> exists r, r ∈ ranges /\ r.1 <= n <= r.2) /\
  Forall (fun r => r.1 <= r.2 /\ r.2 - r.1 < LOG_QUERY_BLOCK_CHUNK) ranges /\
  StronglySorted (fun r r' => r.2 < r'.1) ranges /\
  forall more, log_query_ranges (fuel + more) from to = ranges.
Proof.
  cbv zeta. revert from. induction fuel as [|fuel IH]; intros from Hft Hto Hf; [lia|].
  cbn [log_query_ranges Nat.add]. set (e := range_end from to).
  assert (from <= e <= to /\ e - from < 5000 /\ (e < to -> e = from + 4999)) as (He & Hc & Hn).
  { unfold e, range_end, saturating_add, LOG_QUERY_BLOCK_CHUNK. lia. }
  destruct (Z.leb_spec to e) as [Hle|Hlt].
  - assert (e = to) as -> by lia. 
    split_and!; [|apply Forall_singleton; cbn; unfold LOG_QUERY_BLOCK_CHUNK; lia|repeat constructor|done].
    intros n. split; [intros H; exists (from, to); cbn; set_solver|].
    by intros (r & ->%list_elem_of_singleton & H).
  - destruct (checked_add U64_MAX e 1) as [start|] eqn:Es.
    2: { unfold checked_add in Es. destruct (Z.leb_spec (e + 1) U64_MAX); [done|lia]. }
    apply checked_add_Some in Es as [-> _].
    destruct (IH (e + 1) ltac:(lia) Hto ltac:(lia)) as (H1 & H2 & H3 & H4). split_and!.
    + intros n. split.
      * intros H. destruct (decide (n <= e)); [exists (from, e); cbn; set_solver by lia|].
        destruct (proj1 (H1 n) ltac:(lia)) as (r & Hr & ?). exists r. set_solver.
      * intros (r & [->|Hr]%elem_of_cons & H); [cbn in H; lia|].
        pose proof (proj2 (H1 n) (ex_intro _ r (conj Hr H))). lia.
    + constructor; [cbn; unfold LOG_QUERY_BLOCK_CHUNK; lia|done].
    + constructor; [done|]. rewrite Forall_forall in H2. apply Forall_forall. intros r Hr. cbn.
      destruct (H2 r Hr) as [Hle _].
      assert (e + 1 <= r.1 <= to) by (apply H1; exists r; split; [done|lia]). lia.
    + intros more. by rewrite H4.
Qed.

(** ** Witnesses: a cycle cut short by an unseen receipt, a lost store, recovery *)

Module SettlementExamples.
Import WithdrawalsExamples.

Definition batch0 : list Withdrawal := [wd 1 0; wd 2 0].
Definition request (n gas : Z) : WithdrawalRequested :=
  mkRequested n 7 1 2 (100 * n) 1 0 gas 3 [] [].
(** The withdrawals the zone logs give back carry the sender tag. *)
Definition from_log (n gas : Z) : Withdrawal := from_requested_event keccak (request n gas) n [].
Definition batch1 : list Withdrawal := [from_log 3 50000].

(** Two batches arrive and are stored; the first transaction is mined but its
    receipt is not seen. *)
Definition history : list Op :=
  [Cycle [mkTurn [SubmitBatch batch0; StoreBatch 0; SubmitBatch batch1; StoreBatch 1] Fine true;
          calm; calm; mkTurn [] MinedUnseen false] 3].

(** An L1 and a zone node that hold nothing: no request about them is made. *)
Definition no_zone : ZoneNode :=
  mkZoneNode (fun _ => None) (fun _ _ => None) (fun _ _ => None) (fun _ => None).
Definition no_logs : PortalLogs := mkPortalLogs (fun _ => 0) (fun _ _ _ _ => []).
Lemma no_logs_true : LogsTrue keccak enc no_logs.
Proof. intros l lo hi topics e He. by apply not_elem_of_nil in He. Qed.

(** A portal whose verifier accepts everything and whose EIP-2935 knows every
    block. *)
Definition portal0 : Portal :=
  mkPortal 9 0 (fun _ _ _ _ _ => true) (fun _ n => n + 1) 0 0 0 0 0 100 [].
Lemma portal0_fresh : fresh_portal portal0.
Proof. done. Qed.

Abbreviation run_ex := (run keccak enc no_zone no_logs 0 portal0).
Abbreviation step_ex := (step keccak enc no_zone no_logs 0).

Lemma paid_once_in_order_witness :
  let turns := [calm; calm; calm; mkTurn [SubmitBatch []] OutOfGas false] in
  let w := run_ex history in
  let w' := step_ex w (Cycle turns 3) in
  paid (l1 w) = [wd 1 0] /\ paid (l1 w') `prefix_of` concat (submitted (l1 w')) /\
  exists ws n, get_batch (store w') 0 = Some ws /\
    find_processed_offset keccak enc ws (slot_at (queue (l1 w')) (0 mod WITHDRAWAL_QUEUE_CAPACITY)) = Some n /\
    (n < length ws)%nat.
Proof.
  cbv zeta. split; [by vm_compute|].
  destruct (paid_once_in_order keccak enc enc_laws no_zone no_logs 0 no_logs_true portal0 history
    [calm; calm; calm; mkTurn [SubmitBatch []] OutOfGas false] 3 portal0_fresh) as (_ & H & Hk).
  split; [exact H|]. apply Hk; by vm_compute.
Defined.

Lemma calm_cycle_drains_witness :
  let w := with_oracle [] (run_ex history) in
  exists w', process_queue keccak enc 3 w = (Ok tt, w') /\
    paid (l1 w') = batch0 ++ batch1 /\ get_batch (store w') 0 = None.
Proof.
  cbv zeta.
  destruct (calm_cycle_drains keccak enc enc_laws no_zone no_logs 0 no_logs_true portal0 history 3 portal0_fresh) as (w' & E & D).
  - assert (q_head (queue (l1 (with_oracle [] (run_ex history)))) = 0 /\
            q_tail (queue (l1 (with_oracle [] (run_ex history)))) = 2) as [-> ->] by by vm_compute.
    intros k Hk. assert (k = 0 \/ k = 1) as [->| ->] by lia; by vm_compute.
  - by vm_compute.
  - by vm_compute.
  - exists w'. split; [exact E|]. destruct D as (_ & Hp & _ & _ & Hs). rewrite Hp, Hs.
    clear. split; vm_compute; reflexivity.
Defined.

(** The second batch arrives while nothing is stored (the process restarted):
    one batch on L1, whose withdrawals the zone has in its logs. *)
Definition submitted_event (l : L1) : list BatchSubmitted :=
  match submitted l with
  | b :: _ => [mkBatchSubmitted 1 0 0 55 (queue_hash keccak enc b) 0]
  | [] => []
  end.
Definition event1 : BatchSubmitted := mkBatchSubmitted 1 0 0 55 (queue_hash keccak enc batch1) 0.
Definition l1_logs : PortalLogs :=
  mkPortalLogs (fun _ => 9000) (fun l lo hi topics =>
    if (lo <=? 10) && (10 <=? hi) && bool_decide (0 ∈ topics) then submitted_event l else []).
(** The zone: an empty batch in block 2, a request in block 3, its batch in
    block 5, and a node that answers for the blocks it is asked about. *)
Definition zone_history : ZoneHistory :=
  mkZoneHistory [mkRequestedLog 3 0 0 3 (request 3 50000)]
    [mkFinalizedLog 2 0 0 2 (queue_hash keccak enc []) 1; mkFinalizedLog 5 0 0 5 (queue_hash keccak enc batch1) 2]
    (fun F => if fb_block_number F =? 5 then [[]] else []).
Definition zone_node : ZoneNode :=
  mkZoneNode (fun h => if h =? 55 then Some (Some 5) else Some None)
    (fun lo hi => Some (requested_raw <$> filter (fun r => lo <= rw_block_number r <= hi) (zh_requests zone_history)))
    (fun lo hi => Some (finalized_raw <$> filter (fun F => lo <= fb_block_number F <= hi) (zh_finalized zone_history)))
    (fun h => Some (Some (Some (if h =? 5 then [[]] else [])))).
Definition restarted : list Op :=
  [Cycle [mkTurn [SubmitBatch batch1] Fine false] 1].

Lemma l1_logs_true : LogsTrue keccak enc l1_logs.
Proof.
  intros l lo hi topics e. cbn. destruct (_ && _); [|by intros ?%not_elem_of_nil].
  unfold submitted_event. destruct (submitted l) as [|b bs]; [by intros ?%not_elem_of_nil|].
  intros ->%list_elem_of_singleton. split; [done|]. by exists b.
Qed.

Abbreviation run_re := (run keccak enc zone_node l1_logs 0 portal0).
Abbreviation step_re := (step keccak enc zone_node l1_logs 0).

Lemma resync_rebuilds_witness :
  let w := run_re restarted in
  let w' := step_re w (Resync [mkTurn [SubmitBatch batch0] Fine false]) in
  (store w' = [] \/
   forall k, q_head (queue (l1 w')) <= k < q_tail (queue (l1 w)) ->
     exists ws n, get_batch (store w') k = Some ws /\
       find_processed_offset keccak enc ws (slot_at (queue (l1 w')) (k mod WITHDRAWAL_QUEUE_CAPACITY)) = Some n /\
       (n < length ws)%nat).
Proof.
  apply (resync_rebuilds keccak enc enc_laws zone_node l1_logs 0 l1_logs_true portal0 restarted
    [mkTurn [SubmitBatch batch0] Fine false] portal0_fresh).
Defined.

Lemma zone_holds : ZoneHolds keccak enc zone_node zone_history.
Proof.
  split.
  - intros lo hi. by eexists.
  - intros lo hi. by eexists.
  - intros F [-> | ->%list_elem_of_singleton]%elem_of_cons; reflexivity.
  - repeat constructor.
  - repeat constructor.
  - intros F [-> | ->%list_elem_of_singleton]%elem_of_cons; by vm_compute.
  - intros [|G [|G' [|G'' before]]] F after E; simplify_eq/=; split; by vm_compute.
Qed.

Lemma chains_agree :
  ChainsAgree keccak enc zone_node l1_logs 0 (l1 (run_re restarted)) [(10, event1)]
    (fun _ => 5) zone_history.
Proof.
  assert (submitted (l1 (run_re restarted)) = [batch1] /\ q_tail (queue (l1 (run_re restarted))) = 1)
    as [Hs Ht] by by vm_compute. revert Hs Ht. generalize (l1 (run_re restarted)). intros l Hs Ht.
  split; rewrite ?Hs, ?Ht.
  - intros lo hi topics. cbn [l1_logs pl_batch_submitted]. unfold submitted_event. rewrite Hs. fold event1.
    rewrite filter_cons, filter_nil. cbn [fst snd]. change (bs_withdrawalQueueIndex event1) with 0.
    destruct (Z.leb_spec lo 10), (Z.leb_spec 10 hi); cbn [andb]; try (case_decide; [lia|done]).
    case_bool_decide; case_decide; [done|tauto|tauto|done].
  - intros p ->%list_elem_of_singleton. cbn. lia.
  - apply NoDup_singleton.
  - intros k Hk. exists (10, event1). split; [set_solver|]. cbn. lia.
  - intros p ->%list_elem_of_singleton. cbn. lia.
  - done.
  - by intros p ->%list_elem_of_singleton.
  - apply zone_holds.
  - intros k b Hk H0. apply list_lookup_singleton_Some in Hk as [Hk <-].
    eexists [_], _, []. split; [reflexivity|]. split; [done|by vm_compute].
  - intros k Hk [b Hb]. apply list_lookup_singleton_Some in Hb as [Hb _]. lia.
Qed.

Lemma recovery_drains_witness :
  paid (l1 (step_re (step_re (run_re restarted) (Resync [])) (Cycle [] 2))) = batch1 /\
  store (run_re restarted) = [].
Proof.
  split; [|by vm_compute].
  destruct (recovery_drains keccak enc enc_laws zone_node l1_logs 0 l1_logs_true portal0 restarted
    [(10, event1)] (fun _ => 5) zone_history 2 portal0_fresh chains_agree) as (_ & -> & _); [by vm_compute..|by vm_compute].
Defined.

Lemma log_query_ranges_cover_witness :
  let ranges := log_query_ranges (Z.to_nat 20001) 0 20000 in
  ranges = [(0, 4999); (5000, 9999); (10000, 14999); (15000, 19999); (20000, 20000)] /\
  StronglySorted (fun r r' => r.2 < r'.1) ranges.
Proof.
  cbv zeta. split; [by vm_compute|].
  apply (log_query_ranges_cover (Z.to_nat 20001) 0 20000); by vm_compute.
Defined.
End SettlementExamples.
