(* ===== verification/Monitor.v ===== *)
(** * The zone monitor and the batch submitter

    Models src/crates/sequencer/src/monitor.rs (the whole of [ZoneMonitor])
    and the submitting half of settlement.rs ([BatchSubmitter::submit_batch]
    and what it calls).  The portal on L1 is the reference contract's
    [submitBatch] (Withdrawals.v).

    Requests to L1 take a turn of the world of Withdrawals.v: other parties
    act in between, and each request has a fate.  A [submitBatch] may be lost
    and land later, or be mined without its receipt being seen.  The zone node
    is a parameter of every operation; [None] is a failed request.  Also
    parameters: the proof provider, the L1 headers with their RLP encoding,
    Keccak-256 and the ABI encoding of withdrawals.  Metrics, log lines,
    delays and the notification of the processor are left out. *)

From S2P Require Import Prelude.
From S2P Require Import BTree.
From S2P Require Import Withdrawals.
From S2P Require Import Settlement.
#[local] Open Scope Z_scope.

Definition MAX_RETRIES : nat := 3.
Definition DEFAULT_EIP2935_HISTORY_WINDOW : Z := 8192 - 1.
Definition DEFAULT_EIP2935_SAFETY_MARGIN : Z := 360.

Definition crossed_batch_boundary (last_submitted latest interval_blocks : Z) : bool :=
  let n := Z.max interval_blocks 1 in
  last_submitted / n <? latest / n.

(** ** Anchors *)

Record BatchAnchorConfig := mkAnchorConfig { history_window : Z; safety_margin : Z }.

Inductive AnchorConfigError := ZeroHistoryWindow | MarginTooLarge.

Definition anchor_config_new (history_window safety_margin : Z) : result AnchorConfigError BatchAnchorConfig :=
  if history_window =? 0 then Err ZeroHistoryWindow
  else if history_window <=? safety_margin then Err MarginTooLarge
  else Ok (mkAnchorConfig history_window safety_margin).

Definition anchor_config_default : BatchAnchorConfig :=
  mkAnchorConfig DEFAULT_EIP2935_HISTORY_WINDOW DEFAULT_EIP2935_SAFETY_MARGIN.

Definition effective_window (c : BatchAnchorConfig) : Z := history_window c - safety_margin c.

Inductive AnchorMode :=
| Direct
| Ancestry (anchor_block : Z) (ancestry_headers : list (list Z)).

Definition recent_block_number (m : AnchorMode) : Z :=
  match m with Direct => 0 | Ancestry anchor_block _ => anchor_block end.

(** ** Batches *)

(** [bd_withdrawals] is what the queue hash commits to; the submitter does
    not look at it. *)
Record BatchData := mkBatchData {
  bd_tempo_block_number : Z; bd_prev_block_hash : Z; bd_next_block_hash : Z;
  bd_prev_processed_deposit_hash : Z; bd_next_processed_deposit_hash : Z;
  bd_prev_deposit_number : Z; bd_next_deposit_number : Z;
  bd_withdrawal_queue_hash : Z; bd_withdrawals : list Withdrawal
}.

Record BatchPublicInputs := mkPublicInputs {
  pi_portal_address : Z; pi_sequencer_address : Z;
  pi_tempo_block_number : Z; pi_recent_tempo_block_number : Z;
  pi_prev_block_hash : Z; pi_next_block_hash : Z;
  pi_prev_processed_deposit_hash : Z; pi_next_processed_deposit_hash : Z;
  pi_prev_deposit_number : Z; pi_next_deposit_number : Z;
  pi_withdrawal_queue_hash : Z; pi_expected_withdrawal_batch_index : Z
}.

(** The state read by [preflight_report]; the batch's own fields are not
    repeated. *)
Record SubmitBatchPreflight := mkPreflight {
  pf_current_l1_block : Z; pf_portal_block_hash : Z; pf_sequencer : Z;
  pf_withdrawal_batch_index : Z; pf_last_processed_deposit_number : Z;
  pf_last_synced_tempo_block_number : Z;
  pf_withdrawal_queue_head : Z; pf_withdrawal_queue_tail : Z
}.

(** A log of a receipt: the current event, the event of portals before the
    queue index, or another. *)
Inductive ReceiptLog :=
| ModernLog (event : BatchSubmitted)
| LegacyLog (withdrawalBatchIndex nextProcessedDepositQueueHash nextBlockHash
             withdrawalQueueHash lastProcessedDepositNumber : Z)
| OtherLog.

(** What the zone node answers to the monitor. *)
Record MonitorNode := mkMonitorNode {
  mn_zone : ZoneNode;
  mn_block_number : option Z;
  mn_tempo_block_number : Z -> option Z;
  mn_processed_deposit_hash : Z -> option Z;
  mn_processed_deposit_number : Z -> option Z;
  mn_block_hash : Z -> option (option Z)
}.

Record ZoneBlockSnapshot := mkBlockSnapshot {
  zs_tempo_block_number : Z; zs_processed_deposit_hash : Z;
  zs_processed_deposit_number : Z; zs_block_hash : Z
}.

Definition fetch_block_snapshot (node : MonitorNode) (to : Z) : result ProcessError ZoneBlockSnapshot :=
  tempo_block_number ← rpc_answer (mn_tempo_block_number node to);
  processed_deposit_hash ← rpc_answer (mn_processed_deposit_hash node to);
  processed_deposit_number ← rpc_answer (mn_processed_deposit_number node to);
  block ← rpc_answer (mn_block_hash node to);
  match block with
  | Some hash => Ok (mkBlockSnapshot tempo_block_number processed_deposit_hash processed_deposit_number hash)
  | None => Err ZoneBlockMissing
  end.

(** [dedup()]: runs of equal elements. *)
Fixpoint dedup (l : list Z) : list Z :=
  match l with
  | x :: (y :: _) as l' => if x =? y then dedup l' else x :: dedup l'
  | _ => l
  end.

Definition fetch_finalized_batch_boundaries (node : MonitorNode) (from to : Z) : result ProcessError (list Z) :=
  if to <? from then Ok []
  else
    logs ← rpc_answer (zn_batch_finalized (mn_zone node) from to);
    Ok (dedup (merge_sort Z.le ((fun l : Z * Z * LogPos => default 0 (lp_block_number l.2)) <$> logs))).

(** The loop over the ranges: the first range that fails ends it. *)
Fixpoint any_pending (node : MonitorNode) (ranges : list (Z * Z)) : bool :=
  match ranges with
  | [] => false
  | (chunk_from, chunk_to) :: ranges' =>
      match zn_batch_finalized (mn_zone node) chunk_from chunk_to with
      | Some events =>
          if existsb (fun e : Z * Z * LogPos => negb (e.1.1 =? 0)) events then true
          else any_pending node ranges'
      | None => false
      end
  end.

Definition has_pending_withdrawals (node : MonitorNode) (last_submitted latest_block : Z) : bool :=
  let from := last_submitted + 1 in
  any_pending node (log_query_ranges (S (Z.to_nat (latest_block - from))) from latest_block).

Definition resolve_zone_block_number (node : MonitorNode) (zone_block_hash : Z) : Z :=
  if zone_block_hash =? 0 then 0
  else match zn_block_by_hash (mn_zone node) zone_block_hash with
       | Some (Some number) => number
       | Some None => 0
       | None => 0
       end.

Definition read_processed_deposit_hash_at_block (node : MonitorNode) (zone_block_number fallback : Z) : Z :=
  if zone_block_number =? 0 then 0
  else default fallback (mn_processed_deposit_hash node zone_block_number).

Definition read_processed_deposit_number_at_block (node : MonitorNode) (zone_block_number : Z) : Z :=
  if zone_block_number =? 0 then 0
  else default 0 (mn_processed_deposit_number node zone_block_number).

(** ** The monitor's own state, beside the world *)

Record Monitor := mkMonitor {
  last_submitted_zone_block : Z;
  prev_processed_deposit_hash : Z;
  prev_processed_deposit_number : Z;
  prev_zone_block_hash : Z
}.

Record MWorld := mkMWorld { world : World; monitor : Monitor }.

Definition MW (A : Type) : Type := MWorld -> result ProcessError A * MWorld.
#[export] Instance MW_ret : MRet MW := fun A a w => (Ok a, w).
#[export] Instance MW_bind : MBind MW := fun A B f m w =>
  match m w with
  | (Ok a, w') => f a w'
  | (Err e, w') => (Err e, w')
  end.
Definition mw_fail {A} (e : ProcessError) : MW A := fun w => (Err e, w).
Definition mw_get : MW Monitor := fun w => (Ok (monitor w), w).
Definition mw_put (m : Monitor) : MW unit := fun w => (Ok tt, mkMWorld (world w) m).
Definition on_world {A} (m : W A) : MW A := fun w =>
  let '(r, w') := m (world w) in (r, mkMWorld w' (monitor w)).
(** The result of a request, error or not. *)
Definition attempt {A} (m : W A) : MW (result ProcessError A) := fun w =>
  let '(r, w') := m (world w) in (Ok r, mkMWorld w' (monitor w)).

Section monitor.
Context (keccak256 : list Z -> Z) (abi_encode_params : Withdrawal -> Z -> list Z).
Context (logs : PortalLogs).
(** L1 headers by number, with their parent hash and RLP encoding. *)
Context {Header : Type} (parent_hash : Header -> Z) (encode_header : Header -> list Z)
  (header_by_number : L1 -> Z -> option Header).
(** The proof provider: it may refuse. *)
Context (build_proof : BatchPublicInputs -> option (list Z * list Z)) (allows_unverified_ancestry : bool).
Context (portal_address genesis_tempo_block_number : Z) (anchor_config : BatchAnchorConfig).

Abbreviation query := (l1_query keccak256 abi_encode_params).
Abbreviation turn := (next_turn keccak256 abi_encode_params).
Abbreviation queue_bounds := (read_queue_bounds keccak256 abi_encode_params).

Definition read_portal_block_hash : W Z := query (fun l => p_blockHash (portal l)).
Definition read_portal_sequencer : W Z := query (fun l => p_sequencer (portal l)).
Definition read_portal_withdrawal_batch_index : W Z := query (fun l => p_withdrawalBatchIndex (portal l)).
Definition read_portal_last_processed_deposit_number : W Z :=
  query (fun l => p_lastProcessedDepositNumber (portal l)).
Definition read_portal_last_synced_tempo_block_number : W Z :=
  query (fun l => p_lastSyncedTempoBlockNumber (portal l)).
Definition get_block_number : W Z := query (fun l => p_tip (portal l)).

Definition read_portal_withdrawal_queue_tail : W Z :=
  tail ← query (fun l => q_tail (queue l));
  w_lift (match try_from U64_MAX tail with Some t => Ok t | None => Err TailOverflow end).

Definition check_withdrawal_queue_capacity : W unit :=
  '(head, tail) ← queue_bounds;
  if WITHDRAWAL_QUEUE_CAPACITY <=? saturating_sub tail head then w_fail WithdrawalQueueIsFull
  else mret tt.

(** A revert of the view stands for a portal without it. *)
Definition portal_supports_deposit_numbers : W bool :=
  t ← turn;
  match t_fate t with
  | Fine => mret true
  | OutOfGas => mret false
  | _ => w_fail RpcError
  end.

Definition get_header_by_number (n : Z) : W Header :=
  header ← query (fun l => header_by_number l n);
  match header with Some h => mret h | None => w_fail (HeaderNotFound n) end.

(** The loop over the fetched headers: each must extend the hash before it. *)
Fixpoint fetch_headers (numbers : list Z) (prev_hash : Z) : W (list (list Z)) :=
  match numbers with
  | [] => mret []
  | block_number :: numbers' =>
      header ← get_header_by_number block_number;
      if negb (parent_hash header =? prev_hash) then w_fail (ParentHashBroken block_number)
      else
        let buf := encode_header header in
        headers ← fetch_headers numbers' (keccak256 buf);
        mret (buf :: headers)
  end.

Definition fetch_ancestry_headers (from to : Z) : W (list (list Z)) :=
  if to <=? from then mret []
  else
    base_header ← get_header_by_number from;
    fetch_headers (seqZ (from + 1) (to - from)) (keccak256 (encode_header base_header)).

Definition resolve_anchor_mode (tempo_block_number : Z) : W AnchorMode :=
  current_l1_block ← get_block_number;
  if current_l1_block <=? tempo_block_number then w_fail NotYetConfirmed
  else
    let gap := saturating_sub current_l1_block tempo_block_number in
    if gap <? effective_window anchor_config then mret Direct
    else
      let anchor_block := saturating_sub current_l1_block (safety_margin anchor_config) in
      ancestry_headers ← (if allows_unverified_ancestry then mret []
                          else fetch_ancestry_headers tempo_block_number anchor_block);
      mret (Ancestry anchor_block ancestry_headers).

Definition preflight_report : W SubmitBatchPreflight :=
  current_l1_block ← get_block_number;
  portal_block_hash ← read_portal_block_hash;
  sequencer ← read_portal_sequencer;
  _ ← query (fun _ => tt);
  withdrawal_batch_index ← read_portal_withdrawal_batch_index;
  last_processed_deposit_number ← read_portal_last_processed_deposit_number;
  last_synced_tempo_block_number ← read_portal_last_synced_tempo_block_number;
  '(head, tail) ← queue_bounds;
  mret (mkPreflight current_l1_block portal_block_hash sequencer withdrawal_batch_index
          last_processed_deposit_number last_synced_tempo_block_number head tail).

Definition inputs_of (batch : BatchData) (sequencer recent_tempo_block_number withdrawal_batch_index : Z)
    : BatchPublicInputs :=
  mkPublicInputs portal_address sequencer (bd_tempo_block_number batch) recent_tempo_block_number
    (bd_prev_block_hash batch) (bd_next_block_hash batch)
    (bd_prev_processed_deposit_hash batch) (bd_next_processed_deposit_hash batch)
    (bd_prev_deposit_number batch) (bd_next_deposit_number batch) (bd_withdrawal_queue_hash batch)
    (saturating_add U64_MAX withdrawal_batch_index 1).

Definition public_inputs (pf : SubmitBatchPreflight) (batch : BatchData) (recent_tempo_block_number : Z)
    : BatchPublicInputs :=
  inputs_of batch (pf_sequencer pf) recent_tempo_block_number (pf_withdrawal_batch_index pf).

(** The call of [submitBatch], or of its selector before deposit numbers. *)
Definition submit_call (batch : BatchData) (from recent : Z) (verifier_config proof : list Z) (legacy : bool)
    : SubmitTx :=
  mkSubmitTx from (bd_tempo_block_number batch) recent (bd_prev_block_hash batch) (bd_next_block_hash batch)
    (bd_prev_processed_deposit_hash batch) (bd_next_processed_deposit_hash batch)
    (bd_prev_deposit_number batch) (bd_next_deposit_number batch) (bd_withdrawal_queue_hash batch)
    verifier_config proof legacy (bd_withdrawals batch).

Definition decode_modern (l : Z * ReceiptLog) : option BatchSubmitted :=
  match l with
  | (a, ModernLog event) => if a =? portal_address then Some event else None
  | _ => None
  end.

Definition decode_batch_submitted (receipt_logs : list (Z * ReceiptLog)) : option BatchSubmitted :=
  head (omap decode_modern receipt_logs).

Definition decode_legacy (withdrawal_queue_index : Z) (l : Z * ReceiptLog) : option BatchSubmitted :=
  match l with
  | (a, LegacyLog index deposit_hash block_hash queue_hash number) =>
      if a =? portal_address
      then Some (mkBatchSubmitted index withdrawal_queue_index deposit_hash block_hash queue_hash number)
      else None
  | _ => None
  end.

Definition decode_legacy_batch_submitted (receipt_logs : list (Z * ReceiptLog)) (withdrawal_queue_index : Z)
    : option BatchSubmitted :=
  head (omap (decode_legacy withdrawal_queue_index) receipt_logs).

(** The logs of an accepted [submitBatch]. *)
Definition submit_logs (queue_index : Z) (l : L1) (tx : SubmitTx) : list (Z * ReceiptLog) :=
  [(portal_address, ModernLog (mkBatchSubmitted (p_withdrawalBatchIndex (portal l)) queue_index
      (stx_nextProcessedHash tx) (p_blockHash (portal l)) (stx_withdrawalQueueHash tx)
      (p_lastProcessedDepositNumber (portal l))))].

Definition decode_receipt (receipt_logs : list (Z * ReceiptLog)) (legacy_queue_index : option Z)
    : result ProcessError BatchSubmitted :=
  match decode_batch_submitted receipt_logs with
  | Some event => Ok event
  | None =>
      match legacy_queue_index with
      | None => Err MissingEvent
      | Some queue_index =>
          match decode_legacy_batch_submitted receipt_logs queue_index with
          | Some event => Ok event
          | None => Err MissingEvent
          end
      end
  end.

Definition send_submit_batch_transaction (tx : SubmitTx) (legacy_queue_index : option Z) : W BatchSubmitted :=
  t ← turn;
  match t_fate t with
  | Fails => w_fail RpcError
  | Lost => w_modify (with_l1 (with_pending (fun p => p ++ [tx])));; w_fail RpcError
  | MinedUnseen => w_modify (with_l1 (fun l => default l (snd <$> submitBatch l tx)));; w_fail RpcError
  | OutOfGas => w_fail SubmitReverted
  | Fine =>
      r ← w_read (fun w => submitBatch (l1 w) tx);
      match r with
      | None => w_fail SubmitReverted
      | Some (queue_index, l) =>
          w_modify (with_l1 (fun _ => l));;
          w_lift (decode_receipt (submit_logs queue_index l tx) legacy_queue_index)
      end
  end.

Definition submit_legacy_batch (batch : BatchData) (recent_tempo_block_number : Z) : W BatchSubmitted :=
  _ ← read_portal_block_hash;
  sequencer ← read_portal_sequencer;
  withdrawal_batch_index ← read_portal_withdrawal_batch_index;
  withdrawal_queue_tail ← read_portal_withdrawal_queue_tail;
  match build_proof (inputs_of batch sequencer recent_tempo_block_number withdrawal_batch_index) with
  | None => w_fail ProofRefused
  | Some (verifier_config, proof) =>
      let legacy_queue_index := if bd_withdrawal_queue_hash batch =? 0 then NO_QUEUE_INDEX
                                else withdrawal_queue_tail in
      send_submit_batch_transaction
        (submit_call batch sequencer recent_tempo_block_number verifier_config proof true)
        (Some legacy_queue_index)
  end.

Definition submit_batch (batch : BatchData) : W BatchSubmitted :=
  if bd_tempo_block_number batch <? genesis_tempo_block_number then w_fail BelowGenesis
  else
    (if bd_withdrawal_queue_hash batch =? 0 then mret tt else check_withdrawal_queue_capacity);;
    anchor_mode ← resolve_anchor_mode (bd_tempo_block_number batch);
    let recent_tempo_block_number := recent_block_number anchor_mode in
    supported ← portal_supports_deposit_numbers;
    if negb supported then submit_legacy_batch batch recent_tempo_block_number
    else
      preflight ← preflight_report;
      match build_proof (public_inputs preflight batch recent_tempo_block_number) with
      | None => w_fail ProofRefused
      | Some (verifier_config, proof) =>
          send_submit_batch_transaction
            (submit_call batch (pf_sequencer preflight) recent_tempo_block_number verifier_config proof false)
            None
      end.

(** ** The monitor *)

Abbreviation resync_withdrawals node :=
  (resync_store keccak256 abi_encode_params (mn_zone node) logs genesis_tempo_block_number).
Abbreviation restore_withdrawals node :=
  (restore_pending_withdrawals_from_chain keccak256 abi_encode_params (mn_zone node) logs
     genesis_tempo_block_number).

Definition resync_from_portal (node : MonitorNode) : MW unit :=
  r ← attempt read_portal_block_hash;
  match r with
  | Err _ => mret tt
  | Ok portal_hash =>
      m ← mw_get;
      let last := resolve_zone_block_number node portal_hash in
      let deposit_hash := read_processed_deposit_hash_at_block node last (prev_processed_deposit_hash m) in
      let deposit_number := read_processed_deposit_number_at_block node last in
      mw_put (mkMonitor last deposit_hash deposit_number portal_hash);;
      on_world (resync_withdrawals node)
  end.

Definition repair_missing_withdrawal_slot (node : MonitorNode) : MW unit := resync_from_portal node.

(** The branch of [submit_batch_with_retry] after a confirmed submission. *)
Definition on_submitted (event : BatchSubmitted) (batch_data : BatchData) (last_zone_block : Z)
    (withdrawals : list Withdrawal) : MW unit :=
  portal_index ← (if bs_withdrawalQueueIndex event =? NO_QUEUE_INDEX then mret None
                  else match try_from U64_MAX (bs_withdrawalQueueIndex event) with
                       | Some i => mret (Some i)
                       | None => mw_fail QueueIndexOverflow
                       end);
  mw_put (mkMonitor last_zone_block (bd_next_processed_deposit_hash batch_data)
            (bd_next_deposit_number batch_data) (bd_next_block_hash batch_data));;
  match portal_index with
  | Some portal_index =>
      if bool_decide (withdrawals = []) then mret tt
      else on_world (w_modify (with_store (fun s => add_batch s portal_index withdrawals)))
  | None => mret tt
  end.

(** The loop over [attempt in 1..=MAX_RETRIES]. *)
Fixpoint submit_attempts (n : nat) (node : MonitorNode) (batch_data : BatchData) (last_zone_block : Z)
    (withdrawals : list Withdrawal) : MW unit :=
  match n with
  | O => resync_from_portal node;; mw_fail RetriesExhausted
  | S n' =>
      r ← attempt (submit_batch batch_data);
      match r with
      | Ok event => on_submitted event batch_data last_zone_block withdrawals
      | Err _ => submit_attempts n' node batch_data last_zone_block withdrawals
      end
  end.

Definition submit_batch_with_retry (node : MonitorNode) (batch_data : BatchData) (last_zone_block : Z)
    (withdrawals : list Withdrawal) : MW unit :=
  r ← attempt read_portal_block_hash;
  match r with
  | Ok portal_hash =>
      if negb (portal_hash =? bd_prev_block_hash batch_data) then resync_from_portal node
      else submit_attempts MAX_RETRIES node batch_data last_zone_block withdrawals
  | Err _ => submit_attempts MAX_RETRIES node batch_data last_zone_block withdrawals
  end.

Definition process_finalized_batch (node : MonitorNode) (from to : Z) : MW unit :=
  finalized_batch ← on_world (w_lift (fetch_finalized_batch keccak256 abi_encode_params (mn_zone node) from to));
  end_state ← on_world (w_lift (fetch_block_snapshot node to));
  index ← on_world read_portal_withdrawal_batch_index;
  match checked_add U64_MAX index 1 with
  | None => mw_fail BatchIndexOverflow
  | Some expected_l2_index =>
      if negb (finalized_index finalized_batch =? expected_l2_index) then mw_fail BatchIndexMismatch
      else
        m ← mw_get;
        let batch_data :=
          mkBatchData (zs_tempo_block_number end_state) (prev_zone_block_hash m) (zs_block_hash end_state)
            (prev_processed_deposit_hash m) (zs_processed_deposit_hash end_state)
            (prev_processed_deposit_number m) (zs_processed_deposit_number end_state)
            (finalized_hash finalized_batch) (fin_withdrawals finalized_batch) in
        submit_batch_with_retry node batch_data to (fin_withdrawals finalized_batch)
  end.

(** The walk over the boundaries. *)
Fixpoint walk_boundaries (node : MonitorNode) (boundaries : list Z) : MW unit :=
  match boundaries with
  | [] => mret tt
  | boundary :: boundaries' =>
      m ← mw_get;
      let before_submit := last_submitted_zone_block m in
      if boundary <=? before_submit then walk_boundaries node boundaries'
      else
        process_finalized_batch node (before_submit + 1) boundary;;
        m' ← mw_get;
        if last_submitted_zone_block m' <=? before_submit then mret tt
        else walk_boundaries node boundaries'
  end.

Definition process_block_range (node : MonitorNode) (from to : Z) : MW bool :=
  boundaries ← on_world (w_lift (fetch_finalized_batch_boundaries node from to));
  match boundaries with
  | [] => mret false
  | _ => walk_boundaries node boundaries;; mret true
  end.

(** One poll of [run]; errors are logged and the loop goes on. *)
Definition poll (batch_interval_blocks : Z) (node : MonitorNode) : MW unit :=
  match mn_block_number node with
  | None => mret tt
  | Some latest_zone_block =>
      m ← mw_get;
      if latest_zone_block <=? last_submitted_zone_block m then mret tt
      else if negb (crossed_batch_boundary (last_submitted_zone_block m) latest_zone_block batch_interval_blocks) &&
              negb (has_pending_withdrawals node (last_submitted_zone_block m) latest_zone_block)
      then mret tt
      else
        fun w => match process_block_range node (last_submitted_zone_block m + 1) latest_zone_block w with
                 | (_, w') => (Ok tt, w')
                 end
  end.

(** [new_with_provider]: a new process takes its state from the portal. *)
Definition startup (node : MonitorNode) : W Monitor :=
  _ ← query (fun l => p_genesisTempoBlockNumber (portal l));
  prev_zone_block_hash ← read_portal_block_hash;
  let last := resolve_zone_block_number node prev_zone_block_hash in
  let deposit_hash := read_processed_deposit_hash_at_block node last 0 in
  let deposit_number := read_processed_deposit_number_at_block node last in
  restore_withdrawals node;;
  mret (mkMonitor last deposit_hash deposit_number prev_zone_block_hash).
End monitor.
