(* ===== verification/MonitorProofs.v ===== *)
(** * The portal follows the zone

    The zone's history is a sequence of finalized batches.  Whatever is lost,
    late or mined unseen, and however often the monitor polls, resyncs or is
    restarted, the portal moves along that sequence one batch at a time, and
    what L1 pays out is what those batches ask for, in order. *)

From S2P Require Import Prelude.
From S2P Require Import BTree.
From S2P Require Import Withdrawals.
From S2P Require Import WithdrawalsProofs.
From S2P Require Import Settlement.
From S2P Require Import SettlementProofs.
From S2P Require Import Monitor.
#[local] Open Scope Z_scope.

(** A batch the zone finalized: its last block and what holds there. *)
Record ZoneBatch := mkZoneBatch {
  zb_number : Z; zb_hash : Z; zb_tempo : Z; zb_deposit_hash : Z; zb_deposit_number : Z;
  zb_withdrawals : list Withdrawal
}.

(** The hash of the zone after [k] batches, from the genesis hash on. *)
Definition hash_after (genesis_hash : Z) (chain : list ZoneBatch) (k : nat) : option Z :=
  match k with O => Some genesis_hash | S i => zb_hash <$> chain !! i end.

Definition deposits_after (chain : list ZoneBatch) (k : nat) : Z :=
  match k with O => 0 | S i => from_option zb_deposit_number 0 (chain !! i) end.

Definition number_after (chain : list ZoneBatch) (k : nat) : Z :=
  match k with O => 0 | S i => from_option zb_number 0 (chain !! i) end.

(** Batches without withdrawals take no slot of the portal's queue. *)
Definition nonempty_batches (bs : list ZoneBatch) : list (list Withdrawal) :=
  filter (fun ws => ws <> []) (zb_withdrawals <$> bs).

Lemma concat_nonempty bs : concat (nonempty_batches bs) = concat (zb_withdrawals <$> bs).
Proof.
  unfold nonempty_batches. induction bs as [|b bs IH]; [done|]. cbn [fmap list_fmap].
  rewrite filter_cons. case_decide as H; cbn [concat]; [by rewrite IH|].
  by rewrite H.
Qed.

Lemma nonempty_snoc bs b :
  nonempty_batches (bs ++ [b]) =
    nonempty_batches bs ++ (if decide (zb_withdrawals b = []) then [] else [zb_withdrawals b]).
Proof.
  unfold nonempty_batches. rewrite fmap_app, filter_app. f_equal. cbn [fmap list_fmap].
  rewrite filter_cons, filter_nil. by repeat case_decide.
Qed.

(** ** Logs keep their origin *)

Lemma insert_by_elem {A} (key : A -> Key) x l y : y ∈ insert_by key x l -> y = x \/ y ∈ l.
Proof.
  induction l as [|z l IH]; cbn; [by intros ->%list_elem_of_singleton; left|].
  destruct (key_leb _ _); [set_solver|]. intros [->|H]%elem_of_cons; [set_solver|].
  destruct (IH H); set_solver.
Qed.

Lemma sort_by_key_elem {A} (key : A -> Key) l y : y ∈ sort_by_key key l -> y ∈ l.
Proof.
  induction l as [|z l IH]; cbn; [done|]. intros [->|H]%insert_by_elem; set_solver.
Qed.

Lemma collect_elem {A B} (f : A -> result ProcessError B) l l' b :
  collect f l = Ok l' -> b ∈ l' -> exists a, a ∈ l /\ f a = Ok b.
Proof.
  revert l'. induction l as [|a l IH]; intros l'; cbn; [by intros [= <-] ?%not_elem_of_nil|].
  unfold mbind, result_bind. destruct (f a) as [b0|] eqn:E; [|done].
  destruct (collect f l) as [bs|]; [|done]. intros [= <-] [->|Hb]%elem_of_cons; [exists a; set_solver|].
  destruct (IH bs eq_refl Hb) as (a' & Ha & E'). exists a'. set_solver.
Qed.

Lemma rposition_elem to l : forall before before' t,
  rposition to before l = Some (before', t) -> t ∈ l /\ fb_block_number t = to.
Proof.
  induction l as [|b l IH]; intros before before' t; cbn; [done|].
  destruct (rposition to (before ++ [b]) l) as [[b1 t1]|] eqn:E.
  - intros [= <- <-]. destruct (IH _ _ _ E). split; [set_solver|done].
  - case_decide as H; [|done]. intros [= <- <-]. split; [set_solver|done].
Qed.

(** What the others may do besides the monitor: processing withdrawals,
    mining, depositing. *)
Definition not_monitor (a : EnvAction) : Prop :=
  match a with SubmitBatch _ | StoreBatch _ => False | _ => True end.
Definition quiet_turn (t : Turn) : Prop := Forall not_monitor (t_env t).

Section lockstep.
Context (keccak256 : list Z -> Z) (abi_encode_params : Withdrawal -> Z -> list Z).
Context (HL : HashLaws keccak256 abi_encode_params).
Context (chain : list ZoneBatch) (genesis_hash : Z).
(** Hashes identify the zone's blocks. *)
Context (Hnd : NoDup (genesis_hash :: (zb_hash <$> chain))).

Abbreviation queue_hash := (queue_hash keccak256 abi_encode_params).
Abbreviation Inv := (Inv keccak256 abi_encode_params).
Abbreviation commits := (commits keccak256 abi_encode_params).
Abbreviation env_step := (env_step keccak256 abi_encode_params).
Abbreviation hash_at := (hash_after genesis_hash chain).

Lemma hash_at_inj i j h : hash_at i = Some h -> hash_at j = Some h -> i = j.
Proof.
  assert (forall k, hash_at k = (genesis_hash :: (zb_hash <$> chain)) !! k) as E.
  { intros [|k]; [done|]. cbn [hash_after]. rewrite <- list_lookup_fmap. done. }
  rewrite !E. by apply NoDup_lookup.
Qed.

(** A submission is about one batch, and was made when the portal was not
    behind what it extends. *)
Definition fair (k : nat) (tx : SubmitTx) : Prop :=
  commits tx /\ exists j i b, hash_at j = Some (stx_prevBlockHash tx) /\ chain !! i = Some b /\
    (j <= i <= k)%nat /\ stx_nextBlockHash tx = zb_hash b /\ stx_tempoBlockNumber tx = zb_tempo b /\
    stx_nextDepositNumber tx = zb_deposit_number b /\ stx_withdrawals tx = zb_withdrawals b.

(** The portal has taken the first [k] batches. *)
Record Lock (l : L1) (k : nat) : Prop := mkLock {
  lk_index : p_withdrawalBatchIndex (portal l) = Z.of_nat k;
  lk_hash : hash_at k = Some (p_blockHash (portal l));
  lk_deposits : p_lastProcessedDepositNumber (portal l) = deposits_after chain k;
  lk_submitted : submitted l = nonempty_batches (take k chain);
  lk_pending : Forall (fair k) (p_pending (portal l))
}.

Lemma fair_mono k k' tx : (k <= k')%nat -> fair k tx -> fair k' tx.
Proof.
  intros Hk (Hc & j & i & b & H1 & H2 & H3 & H). split; [done|]. exists j, i, b. destruct_and! H.
  split_and!; (done || lia).
Qed.

(** What an accepted submission did. *)
Lemma submitBatch_Some l tx q l' :
  submitBatch l tx = Some (q, l') ->
  stx_prevBlockHash tx = p_blockHash (portal l) /\
  p_withdrawalBatchIndex (portal l') = p_withdrawalBatchIndex (portal l) + 1 /\
  p_blockHash (portal l') = stx_nextBlockHash tx /\
  p_lastProcessedDepositNumber (portal l') = stx_nextDepositNumber tx /\
  p_pending (portal l') = p_pending (portal l) /\
  submitted l' = (if stx_withdrawalQueueHash tx =? 0 then submitted l else submitted l ++ [stx_withdrawals tx]) /\
  q = (if stx_withdrawalQueueHash tx =? 0 then NO_QUEUE_INDEX else q_tail (queue l)).
Proof.
  unfold submitBatch. destruct (orb _ _) eqn:E1; [done|].
  repeat match goal with H : (_ || _)%bool = false |- _ => apply orb_false_iff in H as [H ?] end.
  destruct (anchor_of _ _ _) as [[an ah]|]; [|done]. cbn [mbind option_bind].
  destruct (orb _ _); [done|]. destruct (checked_add _ _ _) as [e|] eqn:Ec; [|done]. cbn [mbind option_bind].
  destruct (negb (p_verifier _ _ _ _ _ _)); [done|].
  apply checked_add_Some in Ec as [-> _]. unfold q_enqueue.
  assert (stx_prevBlockHash tx = p_blockHash (portal l)) as ->.
  { by apply Z.eqb_eq, negb_false_iff. }
  destruct (Z.eqb_spec (stx_withdrawalQueueHash tx) 0); [by intros [= <- <-]|].
  destruct (_ <=? _); [done|]. by intros [= <- <-].
Qed.

Lemma submitBatch_lock l k tx q l' :
  Lock l k -> fair k tx -> submitBatch l tx = Some (q, l') ->
  Lock l' (S k) /\ hash_at (S k) = Some (stx_nextBlockHash tx) /\
  (q <> NO_QUEUE_INDEX -> stx_withdrawals tx <> [] -> q = Z.of_nat (length (submitted l)) ->
     submitted l' !! Z.to_nat q = Some (stx_withdrawals tx)).
Proof.
  intros L (Hc & j & i & b & Hj & Hi & Hij & Hn & Ht & Hd & Hw) E.
  destruct (submitBatch_Some _ _ _ _ E) as (Hp & E1 & E2 & E3 & E4 & E5 & E6).
  rewrite Hp in Hj. pose proof (hash_at_inj _ _ _ Hj (lk_hash _ _ L)) as ->.
  assert (i = k) as -> by lia.
  assert (stx_withdrawalQueueHash tx = 0 <-> stx_withdrawals tx = []) as Hz.
  { rewrite Hc. split; [|by intros ->]. intros H0. destruct (decide (stx_withdrawals tx = [])) as [|Hne]; [done|].
    destruct (queue_hash_ne _ _ HL _ Hne) as (Hq & H1 & _). congruence. }
  assert (hash_at (S k) = Some (stx_nextBlockHash tx)) as Hk by (cbn; by rewrite Hi, Hn).
  split_and!; [|done|].
  - split.
    + rewrite E1, (lk_index _ _ L). lia.
    + by rewrite E2.
    + rewrite E3, Hd. cbn. by rewrite Hi.
    + rewrite E5, (take_S_r _ _ _ Hi), nonempty_snoc, (lk_submitted _ _ L), <- Hw.
      destruct (Z.eqb_spec (stx_withdrawalQueueHash tx) 0) as [H0|H0].
      * rewrite decide_True by tauto. by rewrite app_nil_r.
      * rewrite decide_False by tauto. done.
    + rewrite E4. eapply Forall_impl; [apply L|]. intros tx'. apply fair_mono. lia.
  - intros _ Hne ->. rewrite E5. destruct (Z.eqb_spec (stx_withdrawalQueueHash tx) 0); [tauto|].
    rewrite Nat2Z.id, lookup_app_r by lia. by rewrite Nat.sub_diag.
Qed.

(** Everything but the portal and the batches may change. *)
Lemma Lock_same l l' k :
  Lock l k -> submitted l' = submitted l -> p_withdrawalBatchIndex (portal l') = p_withdrawalBatchIndex (portal l) ->
  p_blockHash (portal l') = p_blockHash (portal l) ->
  p_lastProcessedDepositNumber (portal l') = p_lastProcessedDepositNumber (portal l) ->
  Forall (fair k) (p_pending (portal l')) -> Lock l' k.
Proof. intros L E1 E2 E3 E4 E5. split; [by rewrite E2, (lk_index _ _ L)|rewrite E3; apply L|rewrite E4; apply L|rewrite E1; apply L|done]. Qed.

Lemma exec_tx_portal l tx l' :
  exec_tx keccak256 abi_encode_params l tx = Some l' -> submitted l' = submitted l /\ portal l' = portal l.
Proof. unfold exec_tx. destruct (q_dequeue _ _ _ _ _); [|done]. by intros [= <-]. Qed.

Lemma Lock_exec l tx k : Lock l k -> Lock (default l (exec_tx keccak256 abi_encode_params l tx)) k.
Proof.
  intros L. destruct (exec_tx _ _ l tx) as [l'|] eqn:E; [|done]. cbn.
  destruct (exec_tx_portal _ _ _ E) as [E1 E2]. apply (Lock_same l); rewrite ?E1, ?E2; try done. apply L.
Qed.

Lemma Lock_submit l tx k :
  Lock l k -> fair k tx ->
  exists k', (k <= k')%nat /\ Lock (default l (snd <$> submitBatch l tx)) k'.
Proof.
  intros L Hf. destruct (submitBatch l tx) as [[q l']|] eqn:E; cbn; [|by exists k].
  exists (S k). split; [lia|]. by destruct (submitBatch_lock _ _ _ _ _ L Hf E).
Qed.

Lemma Lock_env w a k :
  Lock (l1 w) k -> not_monitor a -> exists k', (k <= k')%nat /\ Lock (l1 (env_step w a)) k'.
Proof.
  intros L Ha. destruct a as [ws|i|tx|i|i|h|d]; try done; cbn [Withdrawals.env_step].
  - exists k. split; [done|]. apply (Lock_same (l1 w)); try done. apply L.
  - exists k. split; [done|]. destruct (mempool (l1 w) !! i) as [tx|]; [|done].
    cbn [l1 with_l1]. apply Lock_exec, (Lock_same (l1 w)); try done. apply L.
  - destruct (p_pending (portal (l1 w)) !! i) as [tx|] eqn:Ei; [|by exists k]. cbn [l1 with_l1].
    pose proof (lk_pending _ _ L) as Hf. apply Lock_submit; [|by eapply Forall_lookup_1].
    apply (Lock_same (l1 w)); try done. cbn. rewrite delete_take_drop.
    apply Forall_app. split; [by apply Forall_take|by apply Forall_drop].
  - exists k. destruct (_ <? _); done.
  - exists k. split; [done|]. apply (Lock_same (l1 w)); try done. apply L.
Qed.

Lemma Lock_envs acts : forall w k,
  Lock (l1 w) k -> Forall not_monitor acts -> exists k', (k <= k')%nat /\ Lock (l1 (foldl env_step w acts)) k'.
Proof.
  induction acts as [|a acts IH]; intros w k L Ha; [by exists k|]. apply Forall_cons in Ha as [Ha Has].
  destruct (Lock_env w a k L Ha) as (k1 & H1 & L1). destruct (IH _ _ L1 Has) as (k2 & H2 & L2).
  exists k2. split; [lia|done].
Qed.

(** [follows m]: the portal moves along the chain while [m] runs. *)
Definition follows {A} (m : W A) : Prop := forall w k,
  Lock (l1 w) k -> Forall quiet_turn (oracle w) ->
  exists k', (k <= k')%nat /\ Lock (l1 (m w).2) k' /\ Forall quiet_turn (oracle (m w).2).

Lemma follows_bind {A B} (m : W A) (f : A -> W B) :
  follows m -> (forall a, follows (f a)) -> follows (mbind f m).
Proof.
  intros Hm Hf w k L Hq. unfold mbind, W_bind. destruct (Hm w k L Hq) as (k1 & H1 & L1 & Q1).
  destruct (m w) as [[a|e] w1]; [|by exists k1]. destruct (Hf a w1 k1 L1 Q1) as (k2 & H2 & L2 & Q2).
  exists k2. split_and!; [lia|done|done].
Qed.

Lemma follows_pure {A} (m : W A) :
  (forall w, l1 (m w).2 = l1 w /\ oracle (m w).2 = oracle w) -> follows m.
Proof. intros H w k L Q. destruct (H w) as [E1 E2]. exists k. by rewrite E1, E2. Qed.

Lemma follows_ret {A} (a : A) : follows (mret a).
Proof. by apply follows_pure. Qed.
Lemma follows_fail {A} e : follows (w_fail (A:=A) e).
Proof. by apply follows_pure. Qed.
Lemma follows_read {A} (f : World -> A) : follows (w_read f).
Proof. by apply follows_pure. Qed.
Lemma follows_lift {A} (r : result ProcessError A) : follows (w_lift r).
Proof. by apply follows_pure. Qed.
Lemma follows_store f : follows (w_modify (with_store f)).
Proof. by apply follows_pure. Qed.
Lemma follows_notify : follows (w_modify notify_repair).
Proof. by apply follows_pure. Qed.

Lemma follows_modify f :
  (forall l k, Lock l k -> exists k', (k <= k')%nat /\ Lock (f l) k') -> follows (w_modify (with_l1 f)).
Proof. intros H w k L Q. destruct (H _ _ L) as (k' & Hk & L'). by exists k'. Qed.

Lemma follows_turn : follows (next_turn keccak256 abi_encode_params).
Proof.
  intros w k L Q. cbn [next_turn snd l1 oracle].
  assert (quiet_turn (default calm (head (oracle w))) /\ Forall quiet_turn (tail (oracle w))) as [Q1 Q2].
  { destruct Q; cbn; [|done]. by split; [apply Forall_nil|]. }
  destruct (Lock_envs _ w k L Q1) as (k' & Hk & L'). by exists k'.
Qed.

Create HintDb follows.
#[local] Hint Resolve @follows_ret @follows_fail @follows_read @follows_lift follows_store follows_notify
  follows_turn : follows.

(** Walks through a program of requests. *)
Ltac follow :=
  repeat first
    [ progress eauto with follows
    | apply follows_bind; intros
    | match goal with
      | |- follows (match ?x with _ => _ end) => destruct x
      | |- follows (if ?x then _ else _) => destruct x
      | |- follows (let '(_, _) := ?x in _) => destruct x
      end ].

Lemma follows_l1_read {A} (f : WithdrawalQueue -> A) : follows (l1_read keccak256 abi_encode_params f).
Proof. unfold l1_read. follow. Qed.
Lemma follows_query {A} (f : L1 -> A) : follows (l1_query keccak256 abi_encode_params f).
Proof. unfold l1_query. follow. Qed.
#[local] Hint Resolve @follows_l1_read @follows_query : follows.

Lemma follows_read_head_tail : follows (read_head_tail keccak256 abi_encode_params).
Proof. unfold read_head_tail. follow. Qed.
#[local] Hint Resolve follows_read_head_tail : follows.
Lemma follows_queue_bounds : follows (read_queue_bounds keccak256 abi_encode_params).
Proof. unfold read_queue_bounds. follow. Qed.
#[local] Hint Resolve follows_queue_bounds : follows.

Lemma follows_find_events logs g fuel topics : forall hi found,
  follows (find_events_loop keccak256 abi_encode_params logs g fuel topics hi found).
Proof. induction fuel as [|fuel IH]; intros hi found; cbn [find_events_loop]; follow. Qed.
#[local] Hint Resolve follows_find_events : follows.

Lemma follows_restore zone logs g :
  follows (restore_pending_withdrawals_from_chain keccak256 abi_encode_params zone logs g).
Proof.
  unfold restore_pending_withdrawals_from_chain, fetch_pending_withdrawals, find_batch_events_by_index. follow.
Qed.
#[local] Hint Resolve follows_restore : follows.

(** The processor does not touch the portal's anchor. *)
Lemma follows_submit_and_confirm w r : follows (submit_and_confirm keccak256 abi_encode_params w r).
Proof.
  apply follows_bind; [apply follows_turn|]. intros t. destruct (t_fate t); try apply follows_ret.
  - intros w' k L Q. unfold mbind, W_bind, w_read.
    pose proof (Lock_exec (l1 w') (tx_of w r) k L) as L'.
    destruct (exec_tx _ _ (l1 w') (tx_of w r)); cbn in *; by exists k.
  - apply follows_bind; [|intros; apply follows_ret]. apply follows_modify. intros l k L. exists k.
    split; [done|]. apply (Lock_same l); try done. apply L.
  - apply follows_bind; [|intros; apply follows_ret]. apply follows_modify. intros l k L. exists k.
    split; [done|]. by apply Lock_exec.
Qed.
#[local] Hint Resolve follows_submit_and_confirm : follows.

Lemma follows_submit_loop rem : forall todo i, follows (submit_loop keccak256 abi_encode_params rem i todo).
Proof. induction todo as [|w todo IH]; intros i; cbn [submit_loop]; follow. Qed.
#[local] Hint Resolve follows_submit_loop : follows.

Lemma follows_process_queue fuel : follows (process_queue keccak256 abi_encode_params fuel).
Proof. induction fuel as [|fuel IH]; cbn [process_queue]; [follow|]. unfold process_slot. follow. Qed.

(** ** Triples for the monitor's requests

    [P] and [Q] speak of how far the portal is and of the world. *)
Definition mtriple {A} (P : nat -> World -> Prop) (m : W A) (Q : A -> nat -> World -> Prop) : Prop :=
  forall w k, Inv w -> Lock (l1 w) k -> Forall quiet_turn (oracle w) -> P k w ->
    let '(r, w') := m w in exists k', (k <= k')%nat /\ Inv w' /\ Lock (l1 w') k' /\
      Forall quiet_turn (oracle w') /\ match r with Ok a => Q a k' w' | Err _ => True end.

(** What is true of a position of the portal stays true as it moves on. *)
Definition mono (P : nat -> World -> Prop) : Prop :=
  forall k k' w w', (k <= k')%nat -> P k w -> P k' w'.

Lemma mtriple_bind {A B} P (m : W A) Q (f : A -> W B) R :
  mtriple P m Q -> (forall a, mtriple (Q a) (f a) R) -> mtriple P (mbind f m) R.
Proof.
  intros Hm Hf w k HI L HQ HP. specialize (Hm w k HI L HQ HP). unfold mbind, W_bind.
  destruct (m w) as [[a|e] w1]; [|done]. destruct Hm as (k1 & H1 & HI1 & L1 & Q1 & Ha).
  specialize (Hf a w1 k1 HI1 L1 Q1 Ha). destruct (f a w1) as [r w2].
  destruct Hf as (k2 & H2 & HI2 & L2 & Q2 & Hr). exists k2. split_and!; (done || lia).
Qed.

Lemma mtriple_conseq {A} P P' (m : W A) Q Q' :
  mtriple P m Q -> (forall k w, P' k w -> P k w) -> (forall a k w, Q a k w -> Q' a k w) -> mtriple P' m Q'.
Proof.
  intros H HP HQ w k HI L Hq Hw. specialize (H w k HI L Hq (HP _ _ Hw)). destruct (m w) as [r w'].
  destruct H as (k' & H1 & H2 & H3 & H4 & H5). exists k'. split_and!; [done..|]. destruct r; [by apply HQ|done].
Qed.

Lemma mtriple_ret {A} (a : A) (P : nat -> World -> Prop) : mtriple P (mret a) (fun x k w => P k w /\ x = a).
Proof. intros w k HI L Hq HP. cbn. exists k. by split_and!. Qed.

Lemma mtriple_fail {A} e P (Q : A -> nat -> World -> Prop) : mtriple P (w_fail e) Q.
Proof. intros w k HI L Hq HP. cbn. exists k. by split_and!. Qed.

Lemma mtriple_lift {A} (r : result ProcessError A) P : mtriple P (w_lift r) (fun a k w => P k w /\ r = Ok a).
Proof. intros w k HI L Hq HP. cbn. exists k. split_and!; [done..|]. by destruct r. Qed.

Lemma mtriple_turn P : mono P -> mtriple P (next_turn keccak256 abi_encode_params) (fun _ => P).
Proof.
  intros HP w k HI L Hq Hw. destruct (follows_turn w k L Hq) as (k' & Hk & L' & Q').
  destruct (safe_next_turn _ _ HL (fun _ => True) ltac:(done) w HI I) as (HI' & _). cbn in *.
  exists k'. split_and!; [done..|]. by eapply HP.
Qed.

Lemma mtriple_query {A} P (f : L1 -> A) :
  mono P -> mtriple P (l1_query keccak256 abi_encode_params f) (fun a k w => P k w /\ a = f (l1 w)).
Proof.
  intros HP. eapply mtriple_bind; [by apply mtriple_turn|]. intros t.
  destruct (t_fate t); try apply mtriple_fail. intros w k HI L Hq Hw. cbn. exists k. by split_and!.
Qed.

(** Requests whose answers do not matter for the chain. *)
Definition idle {A} (m : W A) : Prop := forall P, mono P -> mtriple P m (fun _ => P).

Lemma idle_bind {A B} (m : W A) (f : A -> W B) : idle m -> (forall a, idle (f a)) -> idle (mbind f m).
Proof. intros Hm Hf P HP. eapply mtriple_bind; [by apply Hm|]. intros a. by apply Hf. Qed.
Lemma idle_ret {A} (a : A) : idle (mret a).
Proof. intros P HP. eapply mtriple_conseq; [apply mtriple_ret|done|]. by intros ? ? ? []. Qed.
Lemma idle_fail {A} e : idle (w_fail (A:=A) e).
Proof. intros P HP. apply mtriple_fail. Qed.
Lemma idle_lift {A} (r : result ProcessError A) : idle (w_lift r).
Proof. intros P HP. eapply mtriple_conseq; [apply mtriple_lift|done|]. by intros ? ? ? []. Qed.
Lemma idle_read {A} (f : World -> A) : idle (w_read f).
Proof. intros P HP w k HI L Hq Hw. exists k. by split_and!. Qed.
Lemma idle_turn : idle (next_turn keccak256 abi_encode_params).
Proof. intros P HP. by apply mtriple_turn. Qed.

Create HintDb idle.
#[local] Hint Resolve @idle_ret @idle_fail @idle_lift @idle_read idle_turn : idle.

Ltac idles :=
  repeat first
    [ progress eauto with idle
    | apply idle_bind; intros
    | match goal with
      | |- idle (match ?x with _ => _ end) => destruct x
      | |- idle (if ?x then _ else _) => destruct x
      | |- idle (let '(_, _) := ?x in _) => destruct x
      end ].

Lemma idle_query {A} (f : L1 -> A) : idle (l1_query keccak256 abi_encode_params f).
Proof. unfold l1_query. idles. Qed.
Lemma idle_l1_read {A} (f : WithdrawalQueue -> A) : idle (l1_read keccak256 abi_encode_params f).
Proof. unfold l1_read. idles. Qed.
#[local] Hint Resolve @idle_query @idle_l1_read : idle.
Lemma idle_queue_bounds : idle (read_queue_bounds keccak256 abi_encode_params).
Proof. unfold read_queue_bounds, read_head_tail. idles. Qed.
#[local] Hint Resolve idle_queue_bounds : idle.

(** ** What the zone node says about a batch *)

(** The node's answers are about the zone's history; it may not answer. *)
Record NodeTrue (node : MonitorNode) : Prop := mkNodeTrue {
  nt_batches : forall from to ls h i pos,
    zn_batch_finalized (mn_zone node) from to = Some ls -> (h, i, pos) ∈ ls ->
    exists n z, chain !! n = Some z /\ i = Z.of_nat (S n) /\ h = queue_hash (zb_withdrawals z) /\
      lp_block_number pos = Some (zb_number z) /\ from <= zb_number z <= to;
  nt_tempo : forall z t, z ∈ chain -> mn_tempo_block_number node (zb_number z) = Some t -> t = zb_tempo z;
  nt_deposits : forall z d, z ∈ chain ->
    mn_processed_deposit_number node (zb_number z) = Some d -> d = zb_deposit_number z;
  nt_hash : forall z h, z ∈ chain -> mn_block_hash node (zb_number z) = Some (Some h) -> h = zb_hash z
}.

Lemma finalized_log_true node from to ls b :
  NodeTrue node -> fetch_finalized_batch_logs (mn_zone node) from to = Ok ls -> b ∈ ls ->
  exists n z, chain !! n = Some z /\ fb_withdrawal_batch_index b = Z.of_nat (S n) /\
    fb_withdrawal_queue_hash b = queue_hash (zb_withdrawals z) /\ fb_block_number b = zb_number z.
Proof.
  intros HN. unfold fetch_finalized_batch_logs, mbind, result_bind, rpc_answer.
  destruct (zn_batch_finalized (mn_zone node) from to) as [raw|] eqn:Er; [|done].
  destruct (collect to_finalized_log raw) as [bs|] eqn:Ec; [|done]. intros [= <-] Hb%sort_by_key_elem.
  destruct (collect_elem _ _ _ _ Ec Hb) as ([[h i] pos] & Hin & E). cbn in E.
  destruct (nt_batches _ HN _ _ _ _ _ _ Er Hin) as (n & z & Hn & Hi & Hh & Hp & _).
  destruct (lp_transaction_hash pos); [|done]. injection E as <-. cbn. rewrite Hp. cbn.
  by exists n, z.
Qed.

Lemma finalized_batch_true node from to fb :
  NodeTrue node -> fetch_finalized_batch keccak256 abi_encode_params (mn_zone node) from to = Ok fb ->
  exists n z, chain !! n = Some z /\ zb_number z = to /\ finalized_index fb = Z.of_nat (S n) /\
    finalized_hash fb = queue_hash (zb_withdrawals z) /\ fin_withdrawals fb = zb_withdrawals z.
Proof.
  intros HN. unfold fetch_finalized_batch, mbind, result_bind.
  destruct (fetch_finalized_batch_logs _ from to) as [ls|] eqn:El; [|done].
  destruct ls as [|b0 ls0] eqn:Els; [done|]. rewrite <- Els in *. clear b0 ls0 Els.
  destruct (rposition to [] _) as [[before t]|] eqn:Er; [|done].
  apply rposition_elem in Er as [Ht%sort_by_key_elem Hto].
  destruct (finalized_log_true _ _ _ _ _ HN El Ht) as (n & z & Hn & Hi & Hh & Hz).
  destruct (negb _); [done|]. destruct (if _ <=? _ then _ else _) as [rs|]; [|done].
  destruct (rpc_answer _) as [ftx|]; [|done]. destruct ftx as [calldata|]; [|done].
  destruct calldata as [senders|]; [|done]. destruct (negb _); [done|].
  destruct (negb _) eqn:E; [done|]. apply negb_false_iff, Z.eqb_eq in E. intros [= <-]. cbn.
  exists n, z. split_and!; [done|congruence|done|done|].
  apply (queue_hash_inj _ _ HL). by rewrite E, Hh.
Qed.

Lemma snapshot_true node z s :
  NodeTrue node -> z ∈ chain -> fetch_block_snapshot node (zb_number z) = Ok s ->
  zs_block_hash s = zb_hash z /\ zs_tempo_block_number s = zb_tempo z /\
  zs_processed_deposit_number s = zb_deposit_number z.
Proof.
  intros HN Hz. unfold fetch_block_snapshot, mbind, result_bind, rpc_answer.
  destruct (mn_tempo_block_number node _) eqn:E1; [|done]. destruct (mn_processed_deposit_hash node _); [|done].
  destruct (mn_processed_deposit_number node _) eqn:E2; [|done].
  destruct (mn_block_hash node _) as [[h|]|] eqn:E3; [|done..]. intros [= <-]. cbn.
  split_and!; [by eapply nt_hash|by eapply nt_tempo|by eapply nt_deposits].
Qed.

(** ** Submitting a batch *)

Context (logs : PortalLogs) (HT : LogsTrue keccak256 abi_encode_params logs).
Context {Header : Type} (parent_hash : Header -> Z) (encode_header : Header -> list Z)
  (header_by_number : L1 -> Z -> option Header).
Context (build_proof : BatchPublicInputs -> option (list Z * list Z)) (allows_unverified_ancestry : bool).
Context (portal_address genesis_tempo : Z) (anchor_config : BatchAnchorConfig).

Abbreviation resolve_anchor_mode := (resolve_anchor_mode keccak256 abi_encode_params parent_hash encode_header
  header_by_number allows_unverified_ancestry anchor_config).
Abbreviation submit_batch := (submit_batch keccak256 abi_encode_params parent_hash encode_header
  header_by_number build_proof allows_unverified_ancestry portal_address genesis_tempo anchor_config).
Abbreviation send := (send_submit_batch_transaction keccak256 abi_encode_params portal_address).

Lemma idle_get_header n : idle (get_header_by_number keccak256 abi_encode_params header_by_number n).
Proof. unfold get_header_by_number. idles. Qed.
#[local] Hint Resolve idle_get_header : idle.
Lemma idle_fetch_headers ns : forall h,
  idle (fetch_headers keccak256 abi_encode_params parent_hash encode_header header_by_number ns h).
Proof. induction ns as [|n ns IH]; intros h; cbn [fetch_headers]; idles. Qed.
#[local] Hint Resolve idle_fetch_headers : idle.
Lemma idle_resolve_anchor n : idle (resolve_anchor_mode n).
Proof. unfold Monitor.resolve_anchor_mode, get_block_number, fetch_ancestry_headers. idles. Qed.
Lemma idle_preflight : idle (preflight_report keccak256 abi_encode_params).
Proof. unfold preflight_report, get_block_number, read_portal_block_hash, read_portal_sequencer,
  read_portal_withdrawal_batch_index, read_portal_last_processed_deposit_number,
  read_portal_last_synced_tempo_block_number. idles. Qed.
Lemma idle_capacity : idle (check_withdrawal_queue_capacity keccak256 abi_encode_params).
Proof. unfold check_withdrawal_queue_capacity. idles. Qed.
Lemma idle_supports : idle (portal_supports_deposit_numbers keccak256 abi_encode_params).
Proof. unfold portal_supports_deposit_numbers. idles. Qed.
Lemma idle_queue_tail : idle (read_portal_withdrawal_queue_tail keccak256 abi_encode_params).
Proof. unfold read_portal_withdrawal_queue_tail. idles. Qed.
#[local] Hint Resolve idle_resolve_anchor idle_preflight idle_capacity idle_supports idle_queue_tail : idle.

(** A batch the monitor makes: one batch of the chain, extending a hash the
    portal had at that time or before. *)
Definition batch_fair (k : nat) (b : BatchData) : Prop :=
  bd_withdrawal_queue_hash b = queue_hash (bd_withdrawals b) /\
  exists j i z, hash_at j = Some (bd_prev_block_hash b) /\ chain !! i = Some z /\ (j <= i <= k)%nat /\
    bd_next_block_hash b = zb_hash z /\ bd_tempo_block_number b = zb_tempo z /\
    bd_next_deposit_number b = zb_deposit_number z /\ bd_withdrawals b = zb_withdrawals z.

Lemma batch_fair_mono b : mono (fun k _ => batch_fair k b).
Proof.
  intros k k' _ _ Hk (Hc & j & i & z & H1 & H2 & H3 & H). split; [done|]. exists j, i, z.
  destruct_and! H. split_and!; (done || lia).
Qed.

(** A confirmed submission: the portal has the batch, and the queue index
    names its withdrawals. *)
Definition confirmed (b : BatchData) (event : BatchSubmitted) (k : nat) (w : World) : Prop :=
  (exists j, (j <= k)%nat /\ hash_at j = Some (bd_next_block_hash b)) /\
  (bs_withdrawalQueueIndex event <> NO_QUEUE_INDEX ->
     0 <= bs_withdrawalQueueIndex event /\
     submitted (l1 w) !! Z.to_nat (bs_withdrawalQueueIndex event) = Some (bd_withdrawals b)).

(** The receipt of an accepted submission always has the event. *)
Lemma decode_own q l tx qi :
  decode_receipt portal_address (submit_logs portal_address q l tx) qi =
    Ok (mkBatchSubmitted (p_withdrawalBatchIndex (portal l)) q (stx_nextProcessedHash tx)
          (p_blockHash (portal l)) (stx_withdrawalQueueHash tx) (p_lastProcessedDepositNumber (portal l))).
Proof. unfold decode_receipt, decode_batch_submitted, submit_logs. cbn. by rewrite Z.eqb_refl. Qed.

Lemma send_triple b from recent config proof legacy qi :
  mtriple (fun k _ => batch_fair k b) (send (submit_call b from recent config proof legacy) qi) (confirmed b).
Proof.
  set (tx := submit_call b from recent config proof legacy).
  assert (Hfair : forall k, batch_fair k b -> fair k tx) by done.
  eapply mtriple_bind; [apply mtriple_turn, batch_fair_mono|]. intros t. destruct (t_fate t);
    try apply mtriple_fail; intros w k HI L Hq Hb; unfold mbind, W_bind, w_read, w_modify, w_fail.
  - destruct (submitBatch (l1 w) tx) as [[q l]|] eqn:E; [|exists k; by split_and!].
    destruct (submitBatch_lock _ _ _ _ _ L (Hfair _ Hb) E) as (L' & Hn & Hs).
    destruct (submitBatch_keeps _ _ HL w tx q l HI (proj1 (Hfair _ Hb)) E) as [HI' _].
    unfold w_lift. rewrite decode_own. exists (S k). split_and!; [lia|done|done|done|]. split; cbn.
    + by exists (S k).
    + intros Hq0. destruct (submitBatch_Some _ _ _ _ E) as (_ & _ & _ & _ & _ & _ & Eq).
      destruct HI as (rem & R & _).
      assert (stx_withdrawalQueueHash tx <> 0) as Hz.
      { intros H0. rewrite H0 in Eq. done. }
      rewrite (proj2 (Z.eqb_neq _ _) Hz) in Eq. rewrite (r_tail _ _ _ _ R) in Eq. split; [lia|].
      apply Hs; [done| |done]. intros H0. apply Hz. destruct (Hfair _ Hb) as [Hc _].
      unfold WithdrawalsProofs.commits in Hc. by rewrite Hc, H0.
  - destruct (Inv_with_pending _ _ w (fun p => p ++ [tx]) HI) as [HI' _].
    { apply Forall_app. split; [by eapply Inv_pending|]. apply Forall_singleton. exact (proj1 (Hfair _ Hb)). }
    exists k. split_and!; [done|done| |done|done]. apply (Lock_same (l1 w)); try done. cbn.
    apply Forall_app. split; [apply L|]. apply Forall_singleton. by apply Hfair.
  - destruct (Lock_submit (l1 w) tx k L (Hfair _ Hb)) as (k' & Hk & L').
    exists k'. split_and!; [done| |done|done|done]. unfold with_l1.
    destruct (submitBatch (l1 w) tx) as [[q l]|] eqn:E; cbn; [|by destruct w].
    by destruct (submitBatch_keeps _ _ HL w tx q l HI (proj1 (Hfair _ Hb)) E) as [HI' _].
Qed.

Lemma submit_batch_triple b : mtriple (fun k _ => batch_fair k b) (submit_batch b) (confirmed b).
Proof.
  pose proof (batch_fair_mono b) as Hm. unfold Monitor.submit_batch.
  destruct (_ <? _); [apply mtriple_fail|].
  eapply (mtriple_bind _ _ (fun _ k _ => batch_fair k b)).
  { destruct (_ =? 0); [by apply idle_ret|by apply idle_capacity]. }
  intros _.
  eapply mtriple_bind; [by apply idle_resolve_anchor|]. intros mode. cbv zeta.
  eapply mtriple_bind; [by apply idle_supports|]. intros [|]; cbn [negb].
  - eapply mtriple_bind; [by apply idle_preflight|]. intros pf.
    destruct (build_proof _) as [[config proof]|]; [apply send_triple|apply mtriple_fail].
  - unfold submit_legacy_batch. do 3 (eapply mtriple_bind; [by apply idle_query|]; intros ?).
    eapply mtriple_bind; [by apply idle_queue_tail|]. intros tl.
    destruct (build_proof _) as [[config proof]|]; [apply send_triple|apply mtriple_fail].
Qed.

(** ** Triples for the monitor *)

(** The monitor extends a hash the portal has or had. *)
Definition anchored (k : nat) (m : Monitor) : Prop :=
  exists j, (j <= k)%nat /\ hash_at j = Some (prev_zone_block_hash m).

Definition MInv (k : nat) (w : MWorld) : Prop :=
  Inv (world w) /\ Lock (l1 (world w)) k /\ Forall quiet_turn (oracle (world w)) /\ anchored k (monitor w).

Definition mwtriple {A} (P : nat -> MWorld -> Prop) (m : MW A) (Q : A -> nat -> MWorld -> Prop) : Prop :=
  forall w k, MInv k w -> P k w -> let '(r, w') := m w in
    exists k', (k <= k')%nat /\ MInv k' w' /\ match r with Ok a => Q a k' w' | Err _ => True end.

Lemma anchored_mono k k' m : (k <= k')%nat -> anchored k m -> anchored k' m.
Proof. intros Hk (j & Hj & H). exists j. split; [lia|done]. Qed.

Lemma mwtriple_bind {A B} P (m : MW A) Q (f : A -> MW B) R :
  mwtriple P m Q -> (forall a, mwtriple (Q a) (f a) R) -> mwtriple P (mbind f m) R.
Proof.
  intros Hm Hf w k HI HP. specialize (Hm w k HI HP). unfold mbind, MW_bind.
  destruct (m w) as [[a|e] w1]; [|done]. destruct Hm as (k1 & H1 & HI1 & Ha).
  specialize (Hf a w1 k1 HI1 Ha). destruct (f a w1) as [r w2]. destruct Hf as (k2 & H2 & HI2 & Hr).
  exists k2. split; [lia|done].
Qed.

Lemma mwtriple_ret {A} (a : A) P (Q : A -> nat -> MWorld -> Prop) :
  (forall k w, P k w -> Q a k w) -> mwtriple P (mret a) Q.
Proof. intros H w k HI HP. exists k. split; [done|]. split; [done|]. by apply H. Qed.

Lemma mwtriple_fail {A} e P (Q : A -> nat -> MWorld -> Prop) : mwtriple P (mw_fail e) Q.
Proof. intros w k HI HP. by exists k. Qed.

Lemma mwtriple_get P : mwtriple P mw_get (fun m k w => P k w /\ monitor w = m).
Proof. intros w k HI HP. by exists k. Qed.

Lemma mwtriple_put m (P : nat -> MWorld -> Prop) (Q : unit -> nat -> MWorld -> Prop) :
  (forall k w, P k w -> anchored k m /\ Q tt k (mkMWorld (world w) m)) -> mwtriple P (mw_put m) Q.
Proof.
  intros H w k (HI & L & Hq & Ha) HP. destruct (H _ _ HP) as [Hm HQ]. exists k. by split_and!.
Qed.

(** A request, with what is known of the monitor kept. *)
Lemma mwtriple_attempt {A} P (m : W A) Q (R : Monitor -> Prop) :
  mtriple P m Q ->
  mwtriple (fun k w => P k (world w) /\ R (monitor w)) (attempt m)
    (fun r k w => R (monitor w) /\ match r with Ok a => Q a k (world w) | Err _ => True end).
Proof.
  intros H w k (HI & L & Hq & Ha) [HP HR]. specialize (H (world w) k HI L Hq HP). unfold attempt.
  destruct (m (world w)) as [r w']. destruct H as (k' & Hk & HI' & L' & Q' & Hr). exists k'.
  split; [done|]. split; [|done]. split_and!; [done..|]. by eapply anchored_mono.
Qed.

Lemma mwtriple_world {A} P (m : W A) Q (R : Monitor -> Prop) :
  mtriple P m Q ->
  mwtriple (fun k w => P k (world w) /\ R (monitor w)) (on_world m)
    (fun a k w => Q a k (world w) /\ R (monitor w)).
Proof.
  intros H w k HI HP. pose proof (mwtriple_attempt P m Q R H w k HI HP) as H'. unfold attempt, on_world in *.
  destruct (m (world w)) as [[a|e] w']; destruct H' as (k' & ? & ? & ? & ?); by exists k'.
Qed.

Lemma mwtriple_conseq {A} P P' (m : MW A) Q Q' :
  mwtriple P m Q -> (forall k w, P' k w -> P k w) -> (forall a k w, Q a k w -> Q' a k w) -> mwtriple P' m Q'.
Proof.
  intros H HP HQ w k HI Hw. specialize (H w k HI (HP _ _ Hw)). destruct (m w) as [r w'].
  destruct H as (k' & H1 & H2 & H3). exists k'. split_and!; [done..|]. destruct r; [by apply HQ|done].
Qed.

(** A program that only keeps the invariant. *)
Definition keeps {A} (m : MW A) : Prop := mwtriple (fun _ _ => True) m (fun _ _ _ => True).

Lemma mtriple_post {A} P (m : W A) (Q Q' : A -> nat -> World -> Prop) :
  mtriple P m Q -> (forall a k w, Inv w -> Lock (l1 w) k -> Q a k w -> Q' a k w) -> mtriple P m Q'.
Proof.
  intros H HQ w k HI L Hq Hw. specialize (H w k HI L Hq Hw). destruct (m w) as [r w'].
  destruct H as (k' & H1 & H2 & H3 & H4 & H5). exists k'. split_and!; [done..|]. destruct r; [by apply HQ|done].
Qed.

Lemma read_hash_triple :
  mtriple (fun _ _ => True) (read_portal_block_hash keccak256 abi_encode_params)
    (fun h k _ => hash_at k = Some h).
Proof.
  eapply mtriple_post; [by apply mtriple_query|]. intros h k w _ L [_ ->]. apply L.
Qed.

Lemma read_index_triple P : mono P ->
  mtriple P (read_portal_withdrawal_batch_index keccak256 abi_encode_params)
    (fun i k w => P k w /\ i = Z.of_nat k).
Proof.
  intros HP. eapply mtriple_post; [by apply mtriple_query|]. intros i k w _ L [Hp ->].
  split; [done|]. apply L.
Qed.

Lemma restore_triple zone :
  mtriple (fun _ _ => True) (restore_pending_withdrawals_from_chain keccak256 abi_encode_params zone logs genesis_tempo)
    (fun _ _ _ => True).
Proof.
  intros w k HI L Hq _. pose proof (restore_keeps _ _ HL zone logs genesis_tempo HT w HI) as H.
  destruct (follows_restore zone logs genesis_tempo w k L Hq) as (k' & Hk & L' & Q').
  destruct (restore_pending_withdrawals_from_chain _ _ _ _ _ w) as [r w']. destruct H as (HI' & _).
  exists k'. split_and!; [done..|]. by destruct r.
Qed.

Lemma resync_store_triple zone :
  mtriple (fun _ _ => True) (resync_store keccak256 abi_encode_params zone logs genesis_tempo) (fun _ _ _ => True).
Proof.
  intros w k HI L Hq _. pose proof (restore_triple zone w k HI L Hq I) as H. unfold resync_store.
  destruct (restore_pending_withdrawals_from_chain _ _ _ _ _ w) as [[[]|e] w']; [exact H|].
  destruct H as (k' & Hk & HI' & L' & Q' & _). exists k'. split_and!; try done.
  destruct HI' as (rem & R & _). exists rem. split; [done|]. by split.
Qed.

Abbreviation resync_from_portal := (resync_from_portal keccak256 abi_encode_params logs genesis_tempo).
Abbreviation submit_attempts := (submit_attempts keccak256 abi_encode_params logs parent_hash encode_header
  header_by_number build_proof allows_unverified_ancestry portal_address genesis_tempo anchor_config).
Abbreviation submit_batch_with_retry := (submit_batch_with_retry keccak256 abi_encode_params logs parent_hash
  encode_header header_by_number build_proof allows_unverified_ancestry portal_address genesis_tempo anchor_config).
Abbreviation process_finalized_batch := (process_finalized_batch keccak256 abi_encode_params logs parent_hash
  encode_header header_by_number build_proof allows_unverified_ancestry portal_address genesis_tempo anchor_config).
Abbreviation walk_boundaries := (walk_boundaries keccak256 abi_encode_params logs parent_hash
  encode_header header_by_number build_proof allows_unverified_ancestry portal_address genesis_tempo anchor_config).
Abbreviation process_block_range := (process_block_range keccak256 abi_encode_params logs parent_hash
  encode_header header_by_number build_proof allows_unverified_ancestry portal_address genesis_tempo anchor_config).
Abbreviation poll := (poll keccak256 abi_encode_params logs parent_hash
  encode_header header_by_number build_proof allows_unverified_ancestry portal_address genesis_tempo anchor_config).
Abbreviation startup := (startup keccak256 abi_encode_params logs genesis_tempo).

Lemma resync_keeps_chain node : keeps (resync_from_portal node).
Proof.
  eapply mwtriple_bind.
  { eapply mwtriple_conseq; [apply (mwtriple_attempt _ _ _ (fun _ => True) read_hash_triple)|done|
      exact (fun _ _ _ H => H)]. }
  intros [h|e]; [|by apply mwtriple_ret]. eapply mwtriple_bind; [apply mwtriple_get|]. intros m. cbv zeta.
  eapply mwtriple_bind.
  { apply (mwtriple_put _ _ (fun _ _ _ => True)). intros k w [[_ H] _]. split; [|done]. by exists k. }
  intros []. eapply mwtriple_conseq; [apply (mwtriple_world _ _ _ (fun _ => True) (resync_store_triple _))|done|done].
Qed.

Lemma on_submitted_keeps b event last :
  mwtriple (fun k w => confirmed b event k (world w))
    (on_submitted event b last (bd_withdrawals b)) (fun _ _ _ => True).
Proof.
  unfold on_submitted. eapply (mwtriple_bind _ _ (fun i k w => confirmed b event k (world w) /\
    match i with Some i => i = bs_withdrawalQueueIndex event /\ i <> NO_QUEUE_INDEX | None => True end)).
  { destruct (Z.eqb_spec (bs_withdrawalQueueIndex event) NO_QUEUE_INDEX); [by apply mwtriple_ret|].
    destruct (try_from _ _) as [i|] eqn:E; [|apply mwtriple_fail]. apply try_from_Some in E as [-> _].
    by apply mwtriple_ret. }
  intros i. eapply mwtriple_bind.
  { apply (mwtriple_put _ _ (fun _ k w => confirmed b event k (world w) /\
      match i with Some i => i = bs_withdrawalQueueIndex event /\ i <> NO_QUEUE_INDEX | None => True end)).
    intros k w [[H1 H2] H3]. split; [|done]. destruct H1 as (j & Hj & H1). by exists j. }
  intros []. destruct i as [i|]; [|by apply mwtriple_ret].
  destruct (bool_decide _); [by apply mwtriple_ret|].
  intros w k (HI & L & Hq & Ha) [[_ Hs] [-> Hne]]. destruct (Hs Hne) as [H0 Hsub].
  destruct (Inv_add_batch _ _ (world w) _ _ HI Hsub) as [HI' _]. rewrite Z2Nat.id in HI' by done.
  cbn. exists k. split; [done|]. split; [|done]. by split_and!.
Qed.

Lemma attempts_keep n node b last :
  mwtriple (fun k _ => batch_fair k b) (submit_attempts n node b last (bd_withdrawals b)) (fun _ _ _ => True).
Proof.
  induction n as [|n IH]; cbn [Monitor.submit_attempts].
  { eapply mwtriple_bind; [eapply mwtriple_conseq; [apply resync_keeps_chain|done|done]|].
    intros []. apply mwtriple_fail. }
  intros w k HM Hb. revert w k HM Hb.
  eapply (mwtriple_bind _ _ (fun r k w => batch_fair k b /\
    match r with Ok e => confirmed b e k (world w) | Err _ => True end)).
  - intros w k (HI & L & Hq & Ha) Hb. pose proof (submit_batch_triple b (world w) k HI L Hq Hb) as H.
    unfold attempt. destruct (submit_batch b (world w)) as [r w'].
    destruct H as (k' & Hk & HI' & L' & Q' & Hr). exists k'. split; [done|]. split.
    + split_and!; [done..|]. by eapply anchored_mono.
    + split; [by eapply (batch_fair_mono b k k' w' w')|done].
  - intros [e|e]; eapply mwtriple_conseq; [apply on_submitted_keeps| |done|apply IH| |done]; naive_solver.
Qed.

Lemma with_retry_keeps node b last :
  mwtriple (fun k _ => batch_fair k b) (submit_batch_with_retry node b last (bd_withdrawals b)) (fun _ _ _ => True).
Proof.
  unfold Monitor.submit_batch_with_retry. eapply (mwtriple_bind _ _ (fun _ k _ => batch_fair k b)).
  - intros w k (HI & L & Hq & Ha) Hb. pose proof (read_hash_triple (world w) k HI L Hq I) as H.
    unfold attempt. destruct (read_portal_block_hash _ _ (world w)) as [r w'].
    destruct H as (k' & Hk & HI' & L' & Q' & Hr). exists k'. split; [done|]. split.
    + split_and!; [done..|]. by eapply anchored_mono.
    + by eapply (batch_fair_mono b k k' w' w').
  - intros [h|e]; [destruct (negb _)|]; [|apply attempts_keep..].
    eapply mwtriple_conseq; [apply resync_keeps_chain|done|done].
Qed.

Lemma mwtriple_lift {A} (r : result ProcessError A) P :
  mwtriple P (on_world (w_lift r)) (fun a k w => P k w /\ r = Ok a).
Proof. intros w k HI HP. cbn. exists k. destruct w. split_and!; [done..|]. by destruct r. Qed.

Lemma process_batch_keeps node from to : NodeTrue node -> keeps (process_finalized_batch node from to).
Proof.
  intros HN. eapply mwtriple_bind; [apply mwtriple_lift|]. intros fb.
  eapply mwtriple_bind; [apply mwtriple_lift|]. intros s.
  intros w k HM [[_ Hf] Hs]. revert w k HM.
  destruct (finalized_batch_true _ _ _ _ HN Hf) as (n & z & Hn & <- & Hi & Hh & Hw).
  destruct (snapshot_true _ _ _ HN (list_elem_of_lookup_2 _ _ _ Hn) Hs) as (S1 & S2 & S3).
  enough (keeps (index ← on_world (read_portal_withdrawal_batch_index keccak256 abi_encode_params);
    match checked_add U64_MAX index 1 with
    | None => mw_fail BatchIndexOverflow
    | Some e => if negb (finalized_index fb =? e) then mw_fail BatchIndexMismatch
        else m ← mw_get; submit_batch_with_retry node (mkBatchData (zs_tempo_block_number s)
          (prev_zone_block_hash m) (zs_block_hash s) (prev_processed_deposit_hash m)
          (zs_processed_deposit_hash s) (prev_processed_deposit_number m) (zs_processed_deposit_number s)
          (finalized_hash fb) (fin_withdrawals fb)) (zb_number z) (fin_withdrawals fb)
    end)) as H by (intros w k HM; exact (H w k HM I)).
  eapply mwtriple_bind.
  { eapply mwtriple_conseq; [apply (mwtriple_world _ _ _ (fun _ => True) (read_index_triple (fun _ _ => True)
      ltac:(done)))|done|exact (fun _ _ _ H => H)]. }
  intros i. destruct (checked_add _ i 1) as [e|] eqn:Ee; [|apply mwtriple_fail].
  apply checked_add_Some in Ee as [-> _].
  destruct (Z.eqb_spec (finalized_index fb) (i + 1)) as [Ei|]; [|apply mwtriple_fail]. cbn [negb].
  intros w k HM [[_ Hik] _]. unfold mbind, MW_bind, mw_get. cbn iota beta.
  apply (with_retry_keeps node (mkBatchData _ _ _ _ _ _ _ _ (fin_withdrawals fb))); [done|].
  pose proof HM as (_ & _ & _ & j & Hj & Hhj). split; [cbn; congruence|].
  exists j, n, z. cbn. split_and!; [done|done|lia|lia|done..].
Qed.

Lemma walk_keeps node bs : NodeTrue node -> keeps (walk_boundaries node bs).
Proof.
  intros HN. induction bs as [|b bs IH]; cbn [Monitor.walk_boundaries]; [by apply mwtriple_ret|].
  eapply mwtriple_bind; [apply mwtriple_get|]. intros m. cbv zeta.
  assert (forall P, mwtriple P (walk_boundaries node bs) (fun _ _ _ => True)) as IH'
    by (intros P; eapply mwtriple_conseq; [apply IH|done|done]).
  destruct (_ <=? _); [apply IH'|].
  eapply mwtriple_bind; [eapply mwtriple_conseq; [by apply process_batch_keeps|done|exact (fun _ _ _ H => H)]|].
  intros []. eapply mwtriple_bind; [apply mwtriple_get|]. intros m'.
  destruct (_ <=? _); [by apply mwtriple_ret|apply IH'].
Qed.

Lemma poll_keeps node interval : NodeTrue node -> keeps (poll interval node).
Proof.
  intros HN. unfold Monitor.poll. destruct (mn_block_number node) as [latest|]; [|by apply mwtriple_ret].
  eapply mwtriple_bind; [apply mwtriple_get|]. intros m.
  destruct (_ <=? _); [by apply mwtriple_ret|]. destruct (_ && _); [by apply mwtriple_ret|].
  assert (keeps (process_block_range node (last_submitted_zone_block m + 1) latest)) as H.
  { eapply mwtriple_bind; [apply mwtriple_lift|]. intros bs.
    destruct bs as [|b bs]; [by apply mwtriple_ret|].
    eapply mwtriple_bind; [|intros ?; by apply mwtriple_ret].
    eapply mwtriple_conseq; [by apply walk_keeps|done|exact (fun _ _ _ H => H)]. }
  intros w k HM _. specialize (H w k HM I). destruct (process_block_range _ _ _ w) as [r w'].
  destruct H as (k' & Hk & HM' & _). by exists k'.
Qed.

Lemma startup_triple node :
  mtriple (fun _ _ => True) (startup node) (fun m k _ => anchored k m).
Proof.
  eapply mtriple_bind; [by apply (idle_query _ (fun _ _ => True))|]. intros g.
  eapply mtriple_bind; [apply read_hash_triple|]. intros h. cbv zeta.
  eapply (mtriple_bind _ _ (fun _ k _ => exists j, (j <= k)%nat /\ hash_at j = Some h)).
  - intros w k HI L Hq Hh. pose proof (restore_triple (mn_zone node) w k HI L Hq I) as H.
    destruct (restore_pending_withdrawals_from_chain _ _ _ _ _ w) as [r w'].
    destruct H as (k' & Hk & HI' & L' & Q' & _). exists k'. split_and!; [done..|].
    destruct r; [by exists k|done].
  - intros u. eapply mtriple_conseq; [apply mtriple_ret|exact (fun _ _ H => H)|]. by intros m k w [H ->].
Qed.

(** ** The sequencer's run *)

(** The processor and, while its process is up, the monitor. *)
Record System := mkSystem { sys_world : World; sys_monitor : option Monitor }.

Inductive SysOp :=
| Poll (node : MonitorNode) (turns : list Turn)
| Repair (node : MonitorNode) (turns : list Turn)
| Restart (node : MonitorNode) (turns : list Turn)
| Process (turns : list Turn) (slots : nat).

Definition on_monitor (m : MW unit) (turns : list Turn) (s : System) : System :=
  match sys_monitor s with
  | None => s
  | Some mon =>
      let w' := (m (mkMWorld (with_oracle turns (sys_world s)) mon)).2 in
      mkSystem (world w') (Some (monitor w'))
  end.

Definition sys_step (interval : Z) (s : System) (op : SysOp) : System :=
  match op with
  | Poll node turns => on_monitor (poll interval node) turns s
  | Repair node turns => on_monitor (resync_from_portal node) turns s
  | Restart node turns =>
      match startup node (with_oracle turns (sys_world s)) with
      | (Ok mon, w') => mkSystem w' (Some mon)
      | (Err _, w') => mkSystem w' None
      end
  | Process turns slots =>
      mkSystem (process_queue keccak256 abi_encode_params slots (with_oracle turns (sys_world s))).2 (sys_monitor s)
  end.

Definition sys_run (interval : Z) (p : Portal) (ops : list SysOp) : System :=
  foldl (sys_step interval) (mkSystem (genesis p) None) ops.

(** The zone node tells the truth, and nobody else submits batches. *)
Definition op_ok (op : SysOp) : Prop :=
  match op with
  | Poll node turns | Repair node turns | Restart node turns => NodeTrue node /\ Forall quiet_turn turns
  | Process turns _ => Forall quiet_turn turns
  end.

Definition SysInv (k : nat) (s : System) : Prop :=
  Inv (sys_world s) /\ Lock (l1 (sys_world s)) k /\
  match sys_monitor s with Some m => anchored k m | None => True end.

Lemma on_monitor_keeps m turns s k :
  keeps m -> Forall quiet_turn turns -> SysInv k s ->
  exists k', (k <= k')%nat /\ SysInv k' (on_monitor m turns s).
Proof.
  intros Hm Hq (HI & L & Ha). unfold on_monitor. destruct (sys_monitor s) as [mon|] eqn:Em.
  - set (w := mkMWorld _ mon). assert (MInv k w) as HM by (split_and!; [by apply Inv_oracle|done..]).
    specialize (Hm w k HM I). destruct (m w) as [r w']. destruct Hm as (k' & Hk & (HI' & L' & _ & Ha') & _).
    exists k'. by split_and!.
  - exists k. split; [done|]. unfold SysInv. by rewrite Em.
Qed.

Lemma step_keeps interval op s k :
  op_ok op -> SysInv k s -> exists k', (k <= k')%nat /\ SysInv k' (sys_step interval s op).
Proof.
  intros Hok HS. destruct op as [node turns|node turns|node turns|turns slots]; cbn [sys_step op_ok] in *.
  - apply on_monitor_keeps; [apply poll_keeps|..]; tauto.
  - apply on_monitor_keeps; [apply resync_keeps_chain|..]; tauto.
  - destruct Hok as [_ Hq]. destruct HS as (HI & L & _).
    pose proof (startup_triple node (with_oracle turns (sys_world s)) k) as H.
    destruct (startup node _) as [[m|e] w']; (destruct H as (k' & Hk & HI' & L' & _ & Ha);
      [by apply Inv_oracle|done|done|done|]); exists k'; by split_and!.
  - destruct HS as (HI & L & Ha).
    destruct (follows_process_queue slots (with_oracle turns (sys_world s)) k L Hok) as (k' & Hk & L' & _).
    destruct (cycle_keeps _ _ HL (sys_world s) (turns, slots) HI) as [HI' _].
    exists k'. split; [done|]. split_and!; [exact HI'|exact L'|].
    cbn. destruct (sys_monitor s); [by eapply anchored_mono|done].
Qed.

Lemma run_keeps interval p ops :
  fresh_portal p -> p_blockHash p = genesis_hash -> p_lastProcessedDepositNumber p = 0 ->
  Forall op_ok ops -> exists k, SysInv k (sys_run interval p ops).
Proof.
  intros Hp Hh Hd. unfold sys_run. assert (SysInv 0 (mkSystem (genesis p) None)) as HS.
  { split_and!; [by apply genesis_Inv| |done]. destruct Hp as [Hi Hpe].
    split; cbn; [by rewrite Hi|by rewrite Hh|done|done|by rewrite Hpe]. }
  revert HS. generalize O (mkSystem (genesis p) None). induction ops as [|op ops IH]; intros k s HS Hok.
  - by exists k.
  - apply Forall_cons in Hok as [H1 H2]. destruct (step_keeps interval op s k H1 HS) as (k' & _ & HS').
    by apply (IH k').
Qed.

(** C8. The portal follows the zone, end to end.  After any run of polls,
    repairs, restarts and withdrawal cycles, with submissions lost, landing
    late or mined unseen and the zone node failing at any request: the portal
    has taken the zone's first [k] finalized batches, each once and in order,
    its block hash and deposit count are those after batch [k], and what L1
    has paid out is a prefix of what these batches ask for, in order.  The
    next operation keeps all of it and never takes a batch back. *)
Theorem portal_follows_zone interval p ops op :
  fresh_portal p -> p_blockHash p = genesis_hash -> p_lastProcessedDepositNumber p = 0 ->
  Forall op_ok (ops ++ [op]) ->
  let position s k :=
    let l := l1 (sys_world s) in
    p_withdrawalBatchIndex (portal l) = Z.of_nat k /\
    hash_at k = Some (p_blockHash (portal l)) /\
    p_lastProcessedDepositNumber (portal l) = deposits_after chain k /\
    submitted l = nonempty_batches (take k chain) /\
    paid l `prefix_of` concat (zb_withdrawals <$> take k chain) in
  let s := sys_run interval p ops in
  exists k k', position s k /\ position (sys_step interval s op) k' /\ (k <= k')%nat.
Proof.
  intros Hp Hh Hd [Hok [Hop _]%Forall_cons]%Forall_app. cbv zeta.
  assert (Hpos : forall s k, SysInv k s -> paid (l1 (sys_world s)) `prefix_of` concat (zb_withdrawals <$> take k chain)).
  { intros s k (HI & L & _). rewrite <- concat_nonempty, <- (lk_submitted _ _ L). by apply (Inv_paid _ _ _ HI). }
  destruct (run_keeps interval p ops Hp Hh Hd Hok) as (k & HS).
  destruct (step_keeps interval op _ k Hop HS) as (k' & Hk & HS').
  exists k, k'. pose proof HS as (_ & L & _). pose proof HS' as (_ & L' & _).
  destruct L, L'. split_and!; auto.
Qed.
End lockstep.
