(* ===== verification/MonitorLiveness.v ===== *)
(** * When the monitor makes progress

    The anchor the submitter chooses is one the portal accepts for a while;
    ancestry headers form a hash chain; undisturbed, a poll brings the portal
    up to the zone; and a monitor whose anchor is behind the portal never
    catches up by polling. *)

From S2P Require Import Prelude.
From S2P Require Import BTree.
From S2P Require Import Withdrawals.
From S2P Require Import WithdrawalsProofs.
From S2P Require Import Settlement.
From S2P Require Import SettlementProofs.
From S2P Require Import Monitor.
From S2P Require Import MonitorProofs.
#[local] Open Scope Z_scope.

(** ** Sorted block numbers *)

Lemma dedup_sorted l : StronglySorted Z.lt l -> dedup l = l.
Proof.
  induction 1 as [|x l Hs IH Hx]; [done|]. cbn [dedup]. destruct l as [|y l]; [done|].
  apply Forall_cons in Hx as [Hx _]. rewrite (proj2 (Z.eqb_neq _ _)) by lia. by rewrite IH.
Qed.

Lemma dedup_elem l x : x ∈ dedup l <-> x ∈ l.
Proof.
  induction l as [|a l IH]; [done|]. cbn [dedup]. destruct l as [|b l]; [done|].
  destruct (Z.eqb_spec a b) as [->|]; [rewrite IH; set_solver|]. rewrite !elem_of_cons, IH. set_solver.
Qed.

Lemma dedup_least l x : Sorted Z.le l -> head (dedup l) = Some x -> forall y, y ∈ l -> x <= y.
Proof.
  intros Hs%Sorted_StronglySorted; [|intros ? ? ?; lia]. induction Hs as [|a l Hs IH Ha]; [done|].
  cbn [dedup]. destruct l as [|b l].
  - intros [= <-] y ->%list_elem_of_singleton. done.
  - rewrite Forall_forall in Ha. destruct (Z.eqb_spec a b) as [->|].
    + intros Hx y [->|Hy]%elem_of_cons; [apply IH; [done|set_solver]|by apply IH].
    + intros [= <-] y [->|Hy]%elem_of_cons; [done|by apply Ha].
Qed.

(** What sorting and deduplicating makes of block numbers in any order. *)
Lemma sorted_numbers ns l :
  StronglySorted Z.lt l -> ns ≡ₚ l -> dedup (merge_sort Z.le ns) = l.
Proof.
  intros Hl Hp. replace (merge_sort Z.le ns) with l; [by apply dedup_sorted|].
  symmetry. apply (Sorted_unique Z.le).
  - apply Sorted_merge_sort. intros ? ?; lia.
  - apply StronglySorted_Sorted. clear -Hl. induction Hl as [|x l Hs IH Hx]; constructor; [done|].
    eapply Forall_impl; [done|]. cbn. lia.
  - by rewrite merge_sort_Permutation.
Qed.

Lemma strongly_sorted_lookup {A} (R : A -> A -> Prop) l i j x y :
  StronglySorted R l -> l !! i = Some x -> l !! j = Some y -> (i < j)%nat -> R x y.
Proof.
  intros Hs. revert i j. induction Hs as [|a l Hs IH Ha]; intros i j Hi Hj Hij; [done|].
  destruct j as [|j]; [lia|]. destruct i as [|i]; cbn in *; [|by apply (IH i j); [done..|lia]].
  injection Hi as ->. rewrite Forall_forall in Ha. by apply Ha, (list_elem_of_lookup_2 _ j).
Qed.

Section liveness.
Context (keccak256 : list Z -> Z) (abi_encode_params : Withdrawal -> Z -> list Z).
Context (HL : HashLaws keccak256 abi_encode_params).
Context (logs : PortalLogs).
Context {Header : Type} (parent_hash : Header -> Z) (encode_header : Header -> list Z)
  (header_by_number : L1 -> Z -> option Header).
Context (build_proof : BatchPublicInputs -> option (list Z * list Z)) (allows_unverified_ancestry : bool).
Context (portal_address genesis_tempo : Z) (anchor_config : BatchAnchorConfig).

Abbreviation queue_hash := (queue_hash keccak256 abi_encode_params).
Abbreviation resolve_anchor_mode := (resolve_anchor_mode keccak256 abi_encode_params parent_hash encode_header
  header_by_number allows_unverified_ancestry anchor_config).
Abbreviation fetch_ancestry_headers := (fetch_ancestry_headers keccak256 abi_encode_params parent_hash encode_header
  header_by_number).
Abbreviation fetch_headers := (fetch_headers keccak256 abi_encode_params parent_hash encode_header header_by_number).
Abbreviation submit_batch := (submit_batch keccak256 abi_encode_params parent_hash encode_header
  header_by_number build_proof allows_unverified_ancestry portal_address genesis_tempo anchor_config).
Abbreviation process_finalized_batch := (process_finalized_batch keccak256 abi_encode_params logs parent_hash
  encode_header header_by_number build_proof allows_unverified_ancestry portal_address genesis_tempo anchor_config).
Abbreviation walk_boundaries := (walk_boundaries keccak256 abi_encode_params logs parent_hash
  encode_header header_by_number build_proof allows_unverified_ancestry portal_address genesis_tempo anchor_config).
Abbreviation process_block_range := (process_block_range keccak256 abi_encode_params logs parent_hash
  encode_header header_by_number build_proof allows_unverified_ancestry portal_address genesis_tempo anchor_config).
Abbreviation poll := (poll keccak256 abi_encode_params logs parent_hash
  encode_header header_by_number build_proof allows_unverified_ancestry portal_address genesis_tempo anchor_config).
Abbreviation sys_step := (sys_step keccak256 abi_encode_params logs parent_hash
  encode_header header_by_number build_proof allows_unverified_ancestry portal_address genesis_tempo anchor_config).

Lemma query_calm {A} (f : L1 -> A) w :
  oracle w = [] -> l1_query keccak256 abi_encode_params f w = (Ok (f (l1 w)), w).
Proof. intros E. unfold l1_query, mbind, W_bind. by rewrite next_turn_calm. Qed.

(** ** Anchors *)

(** The window in which EIP-2935 has a block's hash. *)
Definition in_history (window block_number n : Z) : Prop := block_number - window <= n < block_number.

(** C39. The anchor is one the portal accepts: if the safety margin is less than
    half of the history window (the configuration allows more), whatever the age of the batch, and for as
    many L1 blocks as the safety margin, the portal finds the anchor's number
    valid and its hash in the window, and the anchor is the batch's Tempo
    block or a later one. *)
Theorem anchor_accepted tempo w mode w' tx block_number :
  in_u64 tempo -> 0 <= safety_margin anchor_config ->
  2 * safety_margin anchor_config < history_window anchor_config ->
  oracle w = [] -> resolve_anchor_mode tempo w = (Ok mode, w') ->
  stx_tempoBlockNumber tx = tempo -> stx_recentTempoBlockNumber tx = recent_block_number mode ->
  p_tip (portal (l1 w)) < block_number <= p_tip (portal (l1 w)) + safety_margin anchor_config ->
  exists anchor, anchor_of block_number (portal (l1 w)) tx =
      Some (anchor, p_eip2935 (portal (l1 w)) block_number anchor) /\
    in_history (history_window anchor_config) block_number anchor /\ tempo <= anchor /\
    (mode = Direct -> anchor = tempo).
Proof.
  intros [Ht0 _] Hm Hc Ho E Htx Hr Hb. unfold Monitor.resolve_anchor_mode, get_block_number, mbind, W_bind in E.
  rewrite query_calm in E by done. set (tip := p_tip (portal (l1 w))) in *.
  destruct (Z.leb_spec tip tempo) as [|Htip]; [done|].
  unfold saturating_sub, effective_window in E. unfold anchor_of, in_history. rewrite Htx, Hr.
  destruct (Z.ltb_spec (Z.max 0 (tip - tempo)) (history_window anchor_config - safety_margin anchor_config)) as [Hg|Hg].
  - injection E as <- <-. cbn. rewrite (proj2 (Z.ltb_ge _ _)) by lia.
    exists tempo. split_and!; (done || lia).
  - destruct (if allows_unverified_ancestry then _ else _) as [[hs|e] w1]; [|done].
    injection E as <- <-. cbn. rewrite (proj2 (Z.eqb_neq _ _)), (proj2 (Z.leb_gt _ _)), (proj2 (Z.ltb_ge _ _)) by lia.
    eexists. split; [done|]. split_and!; [lia|lia|lia|done].
Qed.

(** A chain of headers, each naming the hash of the one before. *)
Fixpoint linked_headers (prev_hash : Z) (headers : list Header) : Prop :=
  match headers with
  | [] => True
  | h :: headers' => parent_hash h = prev_hash /\ linked_headers (keccak256 (encode_header h)) headers'
  end.

Lemma fetch_headers_linked ns : forall prev w hs w',
  fetch_headers ns prev w = (Ok hs, w') ->
  exists headers, hs = encode_header <$> headers /\ length headers = length ns /\ linked_headers prev headers.
Proof.
  induction ns as [|n ns IH]; intros prev w hs w'; cbn [Monitor.fetch_headers].
  { intros [= <- <-]. by exists []. }
  unfold mbind, W_bind. destruct (get_header_by_number _ _ _ n w) as [[h|e] w1]; [|done].
  destruct (Z.eqb_spec (parent_hash h) prev) as [Hp|]; [|done]. cbn [negb].
  destruct (fetch_headers ns _ w1) as [[hs1|e] w2] eqn:E; [|done]. intros [= <- <-].
  destruct (IH _ _ _ _ E) as (headers & -> & Hl & Hk). exists (h :: headers). cbn. by rewrite Hl.
Qed.

(** Ancestry headers prove the anchor's ancestry: whatever L1 answers at each
    request, a successful fetch returns one header for each block after the
    base up to the anchor, in order, each naming the hash of the one before,
    from the base on. *)
Theorem ancestry_headers_linked from to w hs w' :
  fetch_ancestry_headers from to w = (Ok hs, w') -> from < to ->
  exists base headers, hs = encode_header <$> headers /\ Z.of_nat (length headers) = to - from /\
    linked_headers (keccak256 (encode_header base)) headers.
Proof.
  unfold Monitor.fetch_ancestry_headers. intros E H. rewrite (proj2 (Z.leb_gt _ _)) in E by done.
  unfold mbind, W_bind in E. destruct (get_header_by_number _ _ _ from w) as [[base|e] w1]; [|done].
  destruct (fetch_headers_linked _ _ _ _ _ E) as (headers & Hs & Hl & Hk). exists base, headers.
  rewrite Hl, length_seqZ. split_and!; [done|lia|done].
Qed.

(** ** A stale anchor *)

Context (chain : list ZoneBatch) (genesis_hash : Z).
Context (Hinc : StronglySorted Z.lt (0 :: (zb_number <$> chain))).

Abbreviation NodeTrue := (NodeTrue keccak256 abi_encode_params chain).

(** The node also leaves no batch of a range out. *)
Definition NodeComplete (node : MonitorNode) : Prop :=
  NodeTrue node /\ forall from to ls z,
    zn_batch_finalized (mn_zone node) from to = Some ls -> z ∈ chain -> from <= zb_number z <= to ->
    exists h i pos, (h, i, pos) ∈ ls /\ lp_block_number pos = Some (zb_number z).

Lemma numbers_lookup i : (i <= length chain)%nat -> (0 :: (zb_number <$> chain)) !! i = Some (number_after chain i).
Proof.
  intros Hi. destruct i as [|i]; [done|]. cbn [number_after].
  destruct (lookup_lt_is_Some_2 chain i) as [z Hz]; [lia|].
  change ((zb_number <$> chain) !! i = Some (from_option zb_number 0 (chain !! i))).
  by rewrite list_lookup_fmap, Hz.
Qed.

Lemma number_after_lt i j : (i < j <= length chain)%nat -> number_after chain i < number_after chain j.
Proof.
  intros H. eapply (strongly_sorted_lookup Z.lt _ i j); [done|apply numbers_lookup; lia..|lia].
Qed.

Lemma batch_number n z : chain !! n = Some z -> zb_number z = number_after chain (S n).
Proof. intros H. cbn. by rewrite H. Qed.

(** The first boundary after batch [j] is batch [j + 1]. *)
Lemma first_boundary node latest b bs j :
  NodeComplete node -> (j < length chain)%nat ->
  fetch_finalized_batch_boundaries node (number_after chain j + 1) latest = Ok (b :: bs) ->
  number_after chain j < b /\ forall n z, chain !! n = Some z -> zb_number z = b -> n = j.
Proof.
  intros [HN HC] Hj. unfold fetch_finalized_batch_boundaries. destruct (_ <? _); [done|].
  unfold mbind, result_bind, rpc_answer.
  destruct (zn_batch_finalized (mn_zone node) _ latest) as [ls|] eqn:E; [|done]. intros [= Eb].
  set (ns := _ <$> ls) in Eb. set (srt := merge_sort Z.le ns) in Eb.
  assert (forall y, y ∈ srt <-> y ∈ ns) as Hin by (intros y; unfold srt; by rewrite merge_sort_Permutation).
  assert (b ∈ ns) as Hb by (apply Hin, dedup_elem; rewrite Eb; set_solver).
  apply list_elem_of_fmap in Hb as ([[h i] pos] & Eb' & Hl).
  destruct (nt_batches _ _ _ _ HN _ _ _ _ _ _ E Hl) as (n0 & z0 & Hn0 & _ & _ & Hp & Hr).
  cbn in Eb'. rewrite Hp in Eb'. cbn in Eb'. subst b.
  assert (forall n z, chain !! n = Some z -> zb_number z = zb_number z0 -> n = n0) as Huniq.
  { intros n z Hn En. rewrite (batch_number _ _ Hn), (batch_number _ _ Hn0) in En.
    apply lookup_lt_Some in Hn, Hn0. destruct (lt_eq_lt_dec n n0) as [[Hlt|]|Hlt]; [|done|].
    - pose proof (number_after_lt (S n) (S n0)). lia.
    - pose proof (number_after_lt (S n0) (S n)). lia. }
  split; [lia|]. intros n z Hn En. rewrite (Huniq n z Hn En). clear n z Hn En.
  pose proof (lookup_lt_Some _ _ _ Hn0) as Hlt0. rewrite (batch_number _ _ Hn0) in *.
  destruct (lt_eq_lt_dec n0 j) as [[Hlt|]|Hlt]; [|done|]; exfalso.
  - pose proof (number_after_lt (S n0) j). destruct (decide (S n0 = j)); [subst; lia|]. lia.
  - pose proof (number_after_lt (S j) (S n0) ltac:(lia)). pose proof (number_after_lt j (S j) ltac:(lia)).
    destruct (lookup_lt_is_Some_2 chain j Hj) as [z Hz].
    destruct (HC _ _ _ z E (list_elem_of_lookup_2 _ _ _ Hz)) as (h' & i' & pos' & Hl' & Hp').
    { rewrite (batch_number _ _ Hz). lia. }
    assert (number_after chain (S n0) <= zb_number z) as Hle; [|rewrite (batch_number _ _ Hz) in Hle; lia].
    eapply (dedup_least srt); [apply Sorted_merge_sort; intros ? ?; lia|by rewrite Eb|].
    apply Hin, list_elem_of_fmap. exists (h', i', pos'). cbn. by rewrite Hp'.
Qed.

Lemma on_world_lift {A} (r : result ProcessError A) w : on_world (w_lift r) w = (r, w).
Proof. by destruct w. Qed.

Lemma read_index_calm w :
  oracle (world w) = [] ->
  on_world (read_portal_withdrawal_batch_index keccak256 abi_encode_params) w =
    (Ok (p_withdrawalBatchIndex (portal (l1 (world w)))), w).
Proof. intros E. unfold on_world, read_portal_withdrawal_batch_index. rewrite query_calm by done. by destruct w. Qed.

(** Another batch than the portal's next is refused before anything is sent. *)
Lemma process_mismatch node from b w :
  NodeTrue node -> oracle (world w) = [] ->
  (forall n z, chain !! n = Some z -> zb_number z = b ->
     Z.of_nat n <> p_withdrawalBatchIndex (portal (l1 (world w)))) ->
  exists e, process_finalized_batch node from b w = (Err e, w).
Proof.
  intros HN Ho Hne. unfold Monitor.process_finalized_batch, mbind, MW_bind. rewrite on_world_lift.
  destruct (fetch_finalized_batch _ _ _ from b) as [fb|e] eqn:Ef; [|by exists e].
  rewrite on_world_lift. destruct (fetch_block_snapshot node b) as [s|e]; [|by exists e].
  rewrite read_index_calm by done.
  destruct (checked_add _ _ 1) as [x|] eqn:Ex; [|by eexists]. apply checked_add_Some in Ex as [-> _].
  destruct (finalized_batch_true _ _ HL _ _ _ _ _ HN Ef) as (n & z & Hn & Hz & Hi & _).
  specialize (Hne n z Hn Hz). rewrite (proj2 (Z.eqb_neq _ _)) by lia. by eexists.
Qed.

Lemma stale_poll interval node w j k :
  NodeComplete node -> oracle (world w) = [] -> (j < k <= length chain)%nat ->
  last_submitted_zone_block (monitor w) = number_after chain j ->
  p_withdrawalBatchIndex (portal (l1 (world w))) = Z.of_nat k ->
  poll interval node w = (Ok tt, w).
Proof.
  intros HC Ho Hjk Hl Hi. unfold Monitor.poll. destruct (mn_block_number node) as [latest|]; [|done].
  unfold mbind at 1, MW_bind at 1, mw_get. cbn iota beta.
  destruct (_ <=? _); [done|]. destruct (_ && _); [done|]. unfold Monitor.process_block_range.
  unfold mbind at 1, MW_bind at 1. rewrite on_world_lift, Hl.
  destruct (fetch_finalized_batch_boundaries node _ latest) as [bs|] eqn:E; [|done].
  destruct bs as [|b bs]; [done|]. destruct (first_boundary node latest b bs j HC ltac:(lia) E) as [Hb Hn].
  unfold mbind at 1, MW_bind at 1. cbn [Monitor.walk_boundaries].
  unfold mbind at 1, MW_bind at 1, mw_get at 1. cbn iota beta. rewrite Hl, (proj2 (Z.leb_gt _ _)) by done.
  unfold mbind at 1, MW_bind at 1.
  destruct (process_mismatch node (number_after chain j + 1) b w (proj1 HC) Ho) as [e ->]; [|done].
  intros n z Hz Ez. rewrite (Hn n z Hz Ez). lia.
Qed.

(** A monitor behind the portal never catches up: once the portal has taken a
    batch the monitor does not know of (a submission that landed after the
    resync read the portal, or a failed block lookup during it), no poll,
    however many, with a zone node that answers everything, changes anything:
    each ends with a batch index mismatch before the check that would
    resync. *)
Theorem stale_anchor_stays_stale interval s m j k nodes :
  sys_monitor s = Some m -> oracle (sys_world s) = [] -> (j < k <= length chain)%nat ->
  last_submitted_zone_block m = number_after chain j ->
  p_withdrawalBatchIndex (portal (l1 (sys_world s))) = Z.of_nat k ->
  Forall NodeComplete nodes ->
  foldl (sys_step interval) s ((fun node => Poll node []) <$> nodes) = s.
Proof.
  intros Hm Ho Hjk Hl Hi Hn. induction Hn as [|node nodes HC _ IH]; [done|].
  rewrite fmap_cons. cbn [foldl MonitorProofs.sys_step].
  replace (on_monitor _ [] s) with s; [done|]. unfold on_monitor. rewrite Hm.
  assert (with_oracle [] (sys_world s) = sys_world s) as Ew.
  { unfold with_oracle. destruct s as [[l st r o] m']. cbn in *. by subst. }
  rewrite Ew, (stale_poll interval node _ j k) by done. cbn. rewrite <- Hm. by destruct s.
Qed.

(** ** Undisturbed, a poll catches up *)

Abbreviation hash_at := (hash_after genesis_hash chain).

(** The portal has taken [k] batches and the monitor knows it. *)
Record Synced (w : MWorld) (k : nat) : Prop := mkSynced {
  sy_calm : oracle (world w) = [];
  sy_index : p_withdrawalBatchIndex (portal (l1 (world w))) = Z.of_nat k;
  sy_hash : hash_at k = Some (p_blockHash (portal (l1 (world w))));
  sy_deposits : p_lastProcessedDepositNumber (portal (l1 (world w))) = deposits_after chain k;
  sy_prev : prev_zone_block_hash (monitor w) = p_blockHash (portal (l1 (world w)));
  sy_last : last_submitted_zone_block (monitor w) = number_after chain k;
  sy_number : prev_processed_deposit_number (monitor w) = deposits_after chain k;
  sy_queue : 0 <= q_head (queue (l1 (world w))) <= q_tail (queue (l1 (world w)));
  sy_tail : q_tail (queue (l1 (world w))) = Z.of_nat (length (submitted (l1 (world w))))
}.

(** The portal would take batches [k] to [n]: recent enough, deposits made,
    room in the queue, proofs accepted. *)
Record Willing (l : L1) (k n : nat) : Prop := mkWilling {
  wi_length : (n <= length chain)%nat;
  wi_index : Z.of_nat n <= U64_MAX;
  wi_room : q_tail (queue l) - q_head (queue l) + Z.of_nat (n - k) <= WITHDRAWAL_QUEUE_CAPACITY;
  wi_max : q_tail (queue l) + Z.of_nat (n - k) <= U64_MAX;
  wi_verifier : forall a b c d tx, p_verifier (portal l) a b c d tx = true;
  wi_batch : forall i z, (k <= i < n)%nat -> chain !! i = Some z ->
    genesis_tempo <= zb_tempo z /\ p_genesisTempoBlockNumber (portal l) <= zb_tempo z /\
    zb_tempo z < p_tip (portal l) /\
    p_tip (portal l) + Z.of_nat (n - k) - zb_tempo z < effective_window anchor_config /\
    deposits_after chain i <= zb_deposit_number z <= p_depositCount (portal l) /\
    forall t, zb_tempo z < t <= p_tip (portal l) + Z.of_nat (n - k) -> p_eip2935 (portal l) t (zb_tempo z) <> 0
}.

Lemma submitBatch_frame l tx q l' :
  submitBatch l tx = Some (q, l') ->
  p_tip (portal l') = p_tip (portal l) + 1 /\ p_sequencer (portal l') = p_sequencer (portal l) /\
  p_genesisTempoBlockNumber (portal l') = p_genesisTempoBlockNumber (portal l) /\
  p_verifier (portal l') = p_verifier (portal l) /\ p_eip2935 (portal l') = p_eip2935 (portal l) /\
  p_depositCount (portal l') = p_depositCount (portal l) /\ q_head (queue l') = q_head (queue l) /\
  q_tail (queue l') = q_tail (queue l) + (if stx_withdrawalQueueHash tx =? 0 then 0 else 1).
Proof.
  unfold submitBatch. destruct (orb _ _); [done|].
  destruct (anchor_of _ _ _) as [[an ah]|]; [|done]. cbn [mbind option_bind].
  destruct (orb _ _); [done|]. destruct (checked_add _ _ _) as [e|]; [|done]. cbn [mbind option_bind].
  destruct (negb (p_verifier _ _ _ _ _ _)); [done|]. unfold q_enqueue.
  destruct (Z.eqb_spec (stx_withdrawalQueueHash tx) 0); [intros [= <- <-]; cbn; split_and!; (done || lia)|].
  destruct (_ <=? _); [done|]. intros [= <- <-]. cbn. by split_and!.
Qed.

Lemma Willing_next l tx q l' k n :
  submitBatch l tx = Some (q, l') -> Willing l k n -> (k < n)%nat -> Willing l' (S k) n.
Proof.
  intros E Wi Hk. destruct (submitBatch_frame _ _ _ _ E) as (F1 & F2 & F3 & F4 & F5 & F6 & F7 & F8).
  destruct Wi as [W1 W2 W3 W4 W5 W6].
  split; rewrite ?F1, ?F3, ?F4, ?F5, ?F6, ?F7, ?F8; try done; try (case_match; lia).
  intros i z Hi Hz. destruct (W6 i z ltac:(lia) Hz) as (H1 & H2 & H3 & H4 & H5 & H6).
  split_and!; [lia|lia|lia|lia|lia|lia|]. intros t Ht. apply H6. lia.
Qed.

(** The batch that takes the zone from [k] to [k + 1]. *)
Definition next_batch (m : Monitor) (z : ZoneBatch) : BatchData :=
  mkBatchData (zb_tempo z) (prev_zone_block_hash m) (zb_hash z) (prev_processed_deposit_hash m)
    (zb_deposit_hash z) (prev_processed_deposit_number m) (zb_deposit_number z)
    (queue_hash (zb_withdrawals z)) (zb_withdrawals z).

Lemma submitBatch_accepts w k n z config proof :
  Synced w k -> Willing (l1 (world w)) k n -> (k < n)%nat -> chain !! k = Some z ->
  exists q l, submitBatch (l1 (world w)) (submit_call (next_batch (monitor w) z)
    (p_sequencer (portal (l1 (world w)))) 0 config proof false) = Some (q, l).
Proof.
  intros Sy Wi Hk Hz. destruct (wi_batch _ _ _ Wi k z ltac:(lia) Hz) as (H1 & H2 & H3 & H4 & H5 & H6).
  pose proof (wi_index _ _ _ Wi). pose proof (wi_room _ _ _ Wi) as Hroom.
  unfold submitBatch. cbn [submit_call next_batch stx_legacy stx_from stx_prevBlockHash bd_prev_block_hash
    stx_tempoBlockNumber bd_tempo_block_number orb].
  rewrite (sy_prev _ _ Sy), !Z.eqb_refl, (proj2 (Z.ltb_ge _ _)) by lia. cbn [negb orb].
  unfold anchor_of. cbn [stx_recentTempoBlockNumber stx_tempoBlockNumber submit_call next_batch bd_tempo_block_number].
  rewrite Z.eqb_refl, (proj2 (Z.ltb_ge (_ + 1) (zb_tempo z))) by lia. cbn [mbind option_bind].
  rewrite (proj2 (Z.eqb_neq (p_eip2935 _ _ _) 0)) by (apply H6; lia).
  cbn [stx_prevDepositNumber stx_nextDepositNumber submit_call next_batch bd_prev_deposit_number bd_next_deposit_number].
  rewrite (sy_number _ _ Sy), (sy_deposits _ _ Sy), Z.eqb_refl, !(proj2 (Z.ltb_ge _ _)) by lia. cbn [negb orb].
  rewrite (sy_index _ _ Sy). unfold checked_add. rewrite (proj2 (Z.leb_le _ _)) by lia. cbn [mbind option_bind].
  rewrite (wi_verifier _ _ _ Wi). cbn [negb]. unfold q_enqueue.
  destruct (_ =? 0); [by eexists _, _|]. rewrite (proj2 (Z.leb_gt _ _)) by (unfold WITHDRAWAL_QUEUE_CAPACITY in *; lia).
  by eexists _, _.
Qed.

Lemma bounds_calm w :
  oracle w = [] -> 0 <= q_head (queue (l1 w)) <= q_tail (queue (l1 w)) -> q_tail (queue (l1 w)) <= U64_MAX ->
  read_queue_bounds keccak256 abi_encode_params w = (Ok (q_head (queue (l1 w)), q_tail (queue (l1 w))), w).
Proof.
  intros Ho H Hm. unfold read_queue_bounds, mbind, W_bind. rewrite read_head_tail_calm by done.
  unfold w_lift, try_from. by rewrite !(proj2 (Z.leb_le _ _)) by lia.
Qed.

Context (Hproof : forall inputs, is_Some (build_proof inputs)).

Lemma submit_batch_calm w k n z :
  Synced w k -> Willing (l1 (world w)) k n -> (k < n)%nat -> chain !! k = Some z ->
  exists q l event tx, submitBatch (l1 (world w)) tx = Some (q, l) /\
    submit_batch (next_batch (monitor w) z) (world w) = (Ok event, with_l1 (fun _ => l) (world w)) /\
    bs_withdrawalQueueIndex event = q /\
    stx_nextBlockHash tx = zb_hash z /\ stx_nextDepositNumber tx = zb_deposit_number z /\
    stx_withdrawalQueueHash tx = queue_hash (zb_withdrawals z) /\ stx_withdrawals tx = zb_withdrawals z.
Proof.
  intros Sy Wi Hk Hz. destruct (wi_batch _ _ _ Wi k z ltac:(lia) Hz) as (H1 & H2 & H3 & H4 & H5 & H6).
  pose proof (sy_calm _ _ Sy) as Ho. pose proof (sy_queue _ _ Sy) as Hq. pose proof (wi_max _ _ _ Wi) as Hmax.
  pose proof (wi_room _ _ _ Wi) as Hroom.
  assert (Hb : read_queue_bounds keccak256 abi_encode_params (world w) = _) by (apply bounds_calm; (done || lia)).
  unfold Monitor.submit_batch. cbn [bd_tempo_block_number next_batch].
  rewrite (proj2 (Z.ltb_ge _ _)) by lia.
  assert (Hc : forall h, (if h =? 0 then mret tt
      else check_withdrawal_queue_capacity keccak256 abi_encode_params : W unit) (world w) = (Ok tt, world w)).
  { intros h. destruct (h =? 0); [done|]. unfold check_withdrawal_queue_capacity, mbind, W_bind. rewrite Hb.
    unfold saturating_sub. rewrite (proj2 (Z.leb_gt _ _)) by (unfold WITHDRAWAL_QUEUE_CAPACITY in *; lia). done. }
  unfold mbind at 1, W_bind at 1. rewrite Hc.
  unfold mbind at 1, W_bind at 1. unfold Monitor.resolve_anchor_mode, get_block_number.
  unfold mbind at 1, W_bind at 1. rewrite query_calm by done.
  rewrite (proj2 (Z.leb_gt _ _)) by lia. unfold saturating_sub. rewrite (proj2 (Z.ltb_lt _ _)) by lia.
  cbn [mret W_ret recent_block_number]. unfold mbind at 1, W_bind at 1.
  unfold portal_supports_deposit_numbers. unfold mbind at 1, W_bind at 1. rewrite next_turn_calm by done.
  cbn [t_fate calm mret W_ret negb]. unfold mbind at 1, W_bind at 1.
  assert (exists pf, preflight_report keccak256 abi_encode_params (world w) = (Ok pf, world w) /\
    pf_sequencer pf = p_sequencer (portal (l1 (world w)))) as (pf & -> & Hpf).
  { unfold preflight_report, get_block_number, read_portal_block_hash, read_portal_sequencer,
      read_portal_withdrawal_batch_index, read_portal_last_processed_deposit_number,
      read_portal_last_synced_tempo_block_number, mbind, W_bind.
    rewrite !query_calm, Hb by done. by eexists. }
  destruct (Hproof (public_inputs portal_address pf (next_batch (monitor w) z) 0)) as [[config proof] ->].
  rewrite Hpf. destruct (submitBatch_accepts w k n z config proof Sy Wi Hk Hz) as (q & l & E).
  set (tx := submit_call _ _ _ _ _ _) in *.
  exists q, l. unfold send_submit_batch_transaction, mbind, W_bind. rewrite next_turn_calm by done.
  cbn [t_fate calm]. unfold w_read. rewrite E. unfold w_modify, w_lift. rewrite decode_own.
  eexists _, tx. split; [exact E|]. split; [done|]. by split_and!.
Qed.

(** The monitor and the store after the batch. *)
Lemma process_batch_calm node w k n z :
  Synced w k -> Willing (l1 (world w)) k n -> (k < n)%nat -> chain !! k = Some z ->
  fetch_finalized_batch keccak256 abi_encode_params (mn_zone node) (number_after chain k + 1) (zb_number z) =
    Ok (mkFinalizedBatch (queue_hash (zb_withdrawals z)) (Z.of_nat (S k)) (zb_withdrawals z)) ->
  fetch_block_snapshot node (zb_number z) =
    Ok (mkBlockSnapshot (zb_tempo z) (zb_deposit_hash z) (zb_deposit_number z) (zb_hash z)) ->
  exists w', process_finalized_batch node (number_after chain k + 1) (zb_number z) w = (Ok tt, w') /\
    Synced w' (S k) /\ Willing (l1 (world w')) (S k) n /\
    submitted (l1 (world w')) = submitted (l1 (world w)) ++
      (if decide (zb_withdrawals z = []) then [] else [zb_withdrawals z]) /\
    (forall i ws, get_batch (store (world w)) i = Some ws -> i < q_tail (queue (l1 (world w))) ->
       get_batch (store (world w')) i = Some ws) /\
    (zb_withdrawals z <> [] ->
       get_batch (store (world w')) (q_tail (queue (l1 (world w)))) = Some (zb_withdrawals z)).
Proof.
  intros Sy Wi Hk Hz Hf Hs. pose proof (sy_calm _ _ Sy) as Ho. pose proof (wi_index _ _ _ Wi) as Hidx.
  destruct (submit_batch_calm w k n z Sy Wi Hk Hz) as (q & l & ev & tx & E & Es & Ev & T1 & T2 & T3 & T4).
  destruct (submitBatch_Some _ _ _ _ E) as (_ & P1 & P2 & P3 & _ & P5 & P6).
  destruct (submitBatch_frame _ _ _ _ E) as (_ & _ & _ & _ & _ & _ & F7 & F8).
  pose proof (Willing_next _ _ _ _ _ _ E Wi Hk) as Wi'.
  assert (queue_hash (zb_withdrawals z) = 0 <-> zb_withdrawals z = []) as Hz0.
  { split; [|by intros ->]. intros H0. destruct (decide (zb_withdrawals z = [])) as [|Hne]; [done|].
    destruct (queue_hash_ne _ _ HL _ Hne) as (Hq & H1 & _). congruence. }
  rewrite T3 in *. rewrite T4 in *.
  set (m' := mkMonitor (zb_number z) (zb_deposit_hash z) (zb_deposit_number z) (zb_hash z)).
  set (st' := if decide (zb_withdrawals z = []) then store (world w)
              else add_batch (store (world w)) (q_tail (queue (l1 (world w)))) (zb_withdrawals z)).
  exists (mkMWorld (mkWorld l st' (repair_requested (world w)) []) m'). split.
  - unfold Monitor.process_finalized_batch, mbind, MW_bind. rewrite on_world_lift, Hf, on_world_lift, Hs.
    rewrite read_index_calm by done. rewrite (sy_index _ _ Sy). unfold checked_add.
    rewrite (proj2 (Z.leb_le _ _)) by lia. cbn [finalized_index].
    rewrite (proj2 (Z.eqb_eq _ _)) by lia. cbn [negb]. unfold mw_get. cbn iota beta.
    cbn [zs_tempo_block_number zs_block_hash zs_processed_deposit_hash zs_processed_deposit_number
      finalized_hash fin_withdrawals].
    change (mkBatchData _ _ _ _ _ _ _ _ _) with (next_batch (monitor w) z).
    unfold submit_batch_with_retry, mbind, MW_bind, attempt at 1, read_portal_block_hash. rewrite query_calm by done.
    cbn [bd_prev_block_hash next_batch]. rewrite (sy_prev _ _ Sy), Z.eqb_refl. cbn [negb].
    unfold MAX_RETRIES. cbn [submit_attempts]. unfold mbind, MW_bind, attempt. cbn [world].
    replace (mkMWorld (world w) (monitor w)) with w by (by destruct w). rewrite Es.
    unfold on_submitted, mbind, MW_bind. rewrite Ev, P6.
    pose proof (sy_queue _ _ Sy) as Hqu. pose proof (wi_max _ _ _ Wi) as Hmx.
    destruct (Z.eqb_spec (queue_hash (zb_withdrawals z)) 0) as [H0|H0].
    + rewrite Z.eqb_refl. cbn. unfold st', with_l1. rewrite decide_True by tauto. by rewrite Ho.
    + rewrite (proj2 (Z.eqb_neq _ _)) by (unfold NO_QUEUE_INDEX, U256_MAX, U64_MAX in *; lia).
      unfold try_from. rewrite (proj2 (Z.leb_le _ _)) by lia. cbn.
      rewrite bool_decide_eq_false_2 by tauto. unfold st', with_l1, with_store. rewrite decide_False by tauto.
      cbn. by rewrite Ho.
  - cbn [world l1 store monitor]. split_and!; [|done| | |].
    + pose proof (sy_queue _ _ Sy). pose proof (sy_tail _ _ Sy).
      split; cbn [world l1 oracle monitor m' prev_zone_block_hash last_submitted_zone_block prev_processed_deposit_number];
        rewrite ?P1, ?P2, ?P3, ?F7, ?F8, ?T1, ?T2; cbn [hash_after deposits_after number_after]; rewrite ?Hz; try done.
      * rewrite (sy_index _ _ Sy). lia.
      * destruct (_ =? 0); lia.
      * rewrite P5. destruct (_ =? 0); rewrite ?length_app; cbn; lia.
    + rewrite P5. destruct (Z.eqb_spec (queue_hash (zb_withdrawals z)) 0) as [H0|H0].
      * rewrite decide_True by tauto. by rewrite app_nil_r.
      * by rewrite decide_False by tauto.
    + intros i ws Hi Hlt. unfold st'. case_decide; [done|]. unfold get_batch, add_batch.
      rewrite bt_lookup_insert, (proj2 (Z.eqb_neq _ _)) by lia. done.
    + intros Hne. unfold st'. rewrite decide_False by done. unfold get_batch, add_batch.
      by rewrite bt_lookup_insert, Z.eqb_refl.
Qed.

(** What a poll brings about, from [k] to [n] batches. *)
Record caught_up (w w' : MWorld) (k n : nat) : Prop := mkCaughtUp {
  cu_synced : Synced w' n;
  cu_submitted : submitted (l1 (world w')) =
    submitted (l1 (world w)) ++ nonempty_batches (take (n - k) (drop k chain));
  cu_kept : forall i ws, get_batch (store (world w)) i = Some ws -> i < q_tail (queue (l1 (world w))) ->
    get_batch (store (world w')) i = Some ws;
  cu_stored : forall i ws, (length (submitted (l1 (world w))) <= i)%nat ->
    submitted (l1 (world w')) !! i = Some ws -> get_batch (store (world w')) (Z.of_nat i) = Some ws
}.

Definition serves (node : MonitorNode) (i : nat) (z : ZoneBatch) : Prop :=
  fetch_finalized_batch keccak256 abi_encode_params (mn_zone node) (number_after chain i + 1) (zb_number z) =
    Ok (mkFinalizedBatch (queue_hash (zb_withdrawals z)) (Z.of_nat (S i)) (zb_withdrawals z)) /\
  fetch_block_snapshot node (zb_number z) =
    Ok (mkBlockSnapshot (zb_tempo z) (zb_deposit_hash z) (zb_deposit_number z) (zb_hash z)).

Lemma walk_calm node n d : forall k w,
  (n - k = d)%nat -> (k <= n)%nat -> Synced w k -> Willing (l1 (world w)) k n ->
  (forall i z, (k <= i < n)%nat -> chain !! i = Some z -> serves node i z) ->
  exists w', walk_boundaries node (zb_number <$> take d (drop k chain)) w = (Ok tt, w') /\ caught_up w w' k n.
Proof.
  induction d as [|d IH]; intros k w Hd Hk Sy Wi Hserves.
  { exists w. split; [done|]. assert (k = n) as -> by lia.
    split; [done|by rewrite Nat.sub_diag, app_nil_r|done|]. intros i ws Hi Hl%lookup_lt_Some. lia. }
  destruct (lookup_lt_is_Some_2 chain k) as [z Hz]; [pose proof (wi_length _ _ _ Wi); lia|].
  destruct (Hserves k z ltac:(lia) Hz) as [Hf Hs].
  destruct (process_batch_calm node w k n z Sy Wi ltac:(lia) Hz Hf Hs) as (w1 & E1 & Sy1 & Wi1 & Hsub & Hkeep & Hnew).
  destruct (IH (S k) w1) as (w' & E' & C); [lia|lia|done|done|intros; apply Hserves; (done || lia)|].
  assert (number_after chain k < zb_number z) as Hlt.
  { rewrite (batch_number _ _ Hz). apply number_after_lt. apply lookup_lt_Some in Hz. lia. }
  exists w'. split.
  - rewrite (drop_S _ _ _ Hz). cbn [take fmap list_fmap Monitor.walk_boundaries].
    unfold mbind at 1, MW_bind at 1, mw_get at 1. cbn iota beta. rewrite (sy_last _ _ Sy), (proj2 (Z.leb_gt _ _)) by done.
    unfold mbind at 1, MW_bind at 1. rewrite E1. unfold mbind at 1, MW_bind at 1, mw_get at 1. cbn iota beta.
    rewrite (sy_last _ _ Sy1), <- (batch_number _ _ Hz), (proj2 (Z.leb_gt _ _)) by done. exact E'.
  - pose proof (sy_tail _ _ Sy) as Ht. pose proof (sy_tail _ _ Sy1) as Ht1.
    assert (length (submitted (l1 (world w))) <= length (submitted (l1 (world w1))))%nat as Hlen
      by (rewrite Hsub, length_app; lia).
    destruct C as [C1 C2 C3 C4]. split; [done| | |].
    + rewrite C2, Hsub, <- app_assoc. f_equal. rewrite Hd, (drop_S _ _ _ Hz).
      replace (n - S k)%nat with d by lia. cbn [take]. change (z :: take d (drop (S k) chain))
        with ([z] ++ take d (drop (S k) chain)). unfold nonempty_batches.
      rewrite fmap_app, filter_app. f_equal. cbn [fmap list_fmap]. rewrite filter_cons, filter_nil.
      by repeat case_decide.
    + intros i ws Hi Hlt'. apply C3; [by apply Hkeep|]. lia.
    + intros i ws Hi Hl. destruct (decide (length (submitted (l1 (world w1))) <= i)%nat) as [|Hge]; [by apply C4|].
      rewrite Hsub, length_app in Hge, Hlen, Ht1.
      destruct (decide (zb_withdrawals z = [])) as [|Hne]; [cbn in Hge; lia|]. cbn in Hge, Ht1.
      assert (Z.of_nat i = q_tail (queue (l1 (world w)))) as -> by lia.
      rewrite C2, lookup_app_l in Hl by (rewrite Hsub, length_app; cbn; lia).
      rewrite Hsub, lookup_app_r in Hl by lia.
      replace (i - length (submitted (l1 (world w))))%nat with O in Hl by lia. injection Hl as <-.
      apply C3; [by apply Hnew|]. lia.
Qed.

(** C13. Undisturbed, one poll brings the portal up to the zone: when the portal
    would take the batches the zone has finalized (recent enough, room in the
    queue, proofs accepted) and the zone node serves them, the poll submits
    every one of them, in order; afterwards the portal and the monitor are at
    the zone's last batch, the withdrawals of each new batch are in the store
    under the portal's queue index, and nothing stored for a pending slot is
    lost. *)
Theorem calm_poll_catches_up interval node latest w k n ls :
  Synced w k -> Willing (l1 (world w)) k n -> (k < n)%nat ->
  mn_block_number node = Some latest -> number_after chain k < latest ->
  crossed_batch_boundary (number_after chain k) latest interval = true \/
    has_pending_withdrawals node (number_after chain k) latest = true ->
  zn_batch_finalized (mn_zone node) (number_after chain k + 1) latest = Some ls ->
  (fun l : Z * Z * LogPos => default 0 (lp_block_number l.2)) <$> ls
    ≡ₚ zb_number <$> take (n - k) (drop k chain) ->
  (forall i z, (k <= i < n)%nat -> chain !! i = Some z -> serves node i z) ->
  exists w', poll interval node w = (Ok tt, w') /\ caught_up w w' k n.
Proof.
  intros Sy Wi Hk Hlat Hlt Hgate Hls Hperm Hserves.
  destruct (walk_calm node n (n - k) k w eq_refl ltac:(lia) Sy Wi Hserves) as (w' & E & C).
  exists w'. split; [|done]. unfold Monitor.poll. rewrite Hlat.
  unfold mbind at 1, MW_bind at 1, mw_get. cbn iota beta. rewrite (sy_last _ _ Sy), (proj2 (Z.leb_gt _ _)) by done.
  replace (_ && _)%bool with false by (destruct Hgate as [->| ->]; [done|by rewrite andb_false_r]).
  unfold Monitor.process_block_range. unfold mbind at 1, MW_bind at 1. rewrite on_world_lift.
  unfold fetch_finalized_batch_boundaries. rewrite (proj2 (Z.ltb_ge _ _)) by lia.
  unfold mbind at 1, result_bind at 1, rpc_answer. rewrite Hls.
  rewrite (sorted_numbers _ (zb_number <$> take (n - k) (drop k chain))); [|clear -Hinc|done].
  - destruct (zb_number <$> take (n - k) (drop k chain)) as [|b bs] eqn:Eb.
    + apply (f_equal length) in Eb. rewrite length_fmap, length_take, length_drop in Eb. cbn in Eb.
      pose proof (wi_length _ _ _ Wi). lia.
    + unfold mbind at 1, MW_bind at 1. by rewrite E.
  - inversion Hinc as [|? ? Hs _]. clear -Hs.
    assert (zb_number <$> take (n - k) (drop k chain) = take (n - k) (drop k (zb_number <$> chain))) as ->
      by by rewrite fmap_take, fmap_drop.
    rewrite <- (take_drop k (zb_number <$> chain)) in Hs. apply StronglySorted_app in Hs as (_ & _ & Hs).
    rewrite <- (take_drop (n - k) (drop k (zb_number <$> chain))) in Hs.
    by apply StronglySorted_app in Hs as (_ & Hs & _).
Qed.
End liveness.
