(* ===== verification/MonitorWitness.v ===== *)
(** * The monitor on concrete runs

    A zone with two batches, a submission that is lost and lands between two
    attempts, one that lands after the resync, and an undisturbed poll. *)

From S2P Require Import Prelude.
From S2P Require Import BTree.
From S2P Require Import Withdrawals.
From S2P Require Import WithdrawalsProofs.
From S2P Require Import Settlement.
From S2P Require Import SettlementProofs.
From S2P Require Import Monitor.
From S2P Require Import MonitorProofs.
From S2P Require Import MonitorLiveness.
Import WithdrawalsExamples SettlementExamples.
#[local] Open Scope Z_scope.

Definition pos (n : Z) : LogPos := mkLogPos (Some n) (Some 0) (Some 0) (Some n).

(** Batch 1 ends in block 5 with one withdrawal, batch 2 in block 9 with none. *)
Definition z1 : ZoneBatch := mkZoneBatch 5 105 90 0 0 batch1.
Definition z2 : ZoneBatch := mkZoneBatch 9 109 95 0 0 [].
Definition zone_chain : list ZoneBatch := [z1; z2].

Definition zone_logs : list (Z * Z * LogPos) :=
  [(queue_hash keccak enc batch1, 1, pos 5); (0, 2, pos 9)].
Definition in_range (from to : Z) (l : Z * Z * LogPos) : Prop :=
  from <= default 0 (lp_block_number l.2) <= to.
#[local] Instance in_range_dec from to l : Decision (in_range from to l).
Proof. unfold in_range. apply _. Defined.

Definition node : MonitorNode :=
  mkMonitorNode
    (mkZoneNode (fun h => Some (if h =? 105 then Some 5 else if h =? 109 then Some 9 else None))
       (fun from to => Some (if (from <=? 3) && (3 <=? to) then [(request 3 50000, pos 3)] else []))
       (fun from to => Some (filter (in_range from to) zone_logs))
       (fun tx => Some (Some (Some (if tx =? 5 then [[]] else [])))))
    (Some 10)
    (fun n => Some (if n =? 5 then 90 else 95)) (fun _ => Some 0) (fun _ => Some 0)
    (fun n => Some (Some (100 + n))).

Lemma node_complete : NodeComplete keccak enc zone_chain node.
Proof.
  split; [split|].
  - intros from to ls h i p [= <-] [Hr Hin]%list_elem_of_filter.
    apply elem_of_cons in Hin as [[= -> -> ->]|Hin].
    { exists O, z1. repeat (split; [reflexivity|]). exact Hr. }
    apply list_elem_of_singleton in Hin as [= -> -> ->]. exists 1%nat, z2. repeat (split; [reflexivity|]). exact Hr.
  - intros z t [->|Hz]%elem_of_cons; [by intros [= <-]|]. apply list_elem_of_singleton in Hz as ->.
    by intros [= <-].
  - intros z t [->|Hz]%elem_of_cons; [by intros [= <-]|]. apply list_elem_of_singleton in Hz as ->.
    by intros [= <-].
  - intros z t [->|Hz]%elem_of_cons; [by intros [= <-]|]. apply list_elem_of_singleton in Hz as ->.
    by intros [= <-].
  - intros from to ls z [= <-] [->|Hz]%elem_of_cons Hr.
    + exists (queue_hash keccak enc batch1), 1, (pos 5). split; [|done].
      apply list_elem_of_filter. split; [done|]. unfold zone_logs. set_solver.
    + apply list_elem_of_singleton in Hz as ->. exists 0, 2, (pos 9). split; [|done].
      apply list_elem_of_filter. split; [done|]. unfold zone_logs. set_solver.
Qed.

Lemma hashes_distinct : NoDup (0 :: (zb_hash <$> zone_chain)).
Proof. by apply (bool_decide_unpack _); vm_compute. Qed.

Definition prove (_ : BatchPublicInputs) : option (list Z * list Z) := Some ([1], [2]).
(** Headers of L1: header [n] names the hash of header [n - 1]. *)
Definition header_parent (n : Z) : Z := keccak [n - 1].
Definition header_at (_ : L1) (n : Z) : option Z := Some n.

Abbreviation run_m := (sys_run keccak enc no_logs header_parent (fun n => [n]) header_at prove true 7 0
  anchor_config_default 1 portal0).
Abbreviation step_m := (sys_step keccak enc no_logs header_parent (fun n => [n]) header_at prove true 7 0
  anchor_config_default 1).

(** The first submission is lost and lands while the second is prepared. *)
Definition late_landing : list Turn :=
  replicate 15 calm ++ [mkTurn [] Lost false; mkTurn [LandSubmit 0] Fine false].
Definition sys_history : list SysOp := [Restart node []; Poll node late_landing].

Lemma calm_quiet n : Forall quiet_turn (replicate n calm).
Proof. apply Forall_replicate. by constructor. Qed.

Lemma late_quiet : Forall quiet_turn late_landing.
Proof.
  apply Forall_app_2; [apply calm_quiet|]. apply Forall_cons_2; [constructor|].
  apply Forall_cons_2; [|constructor]. by apply Forall_cons_2; [|constructor].
Qed.

Lemma history_ok : Forall (op_ok keccak enc zone_chain) (sys_history ++ [Poll node []]).
Proof.
  apply Forall_cons_2; [split; [apply node_complete|constructor]|].
  apply Forall_cons_2; [split; [apply node_complete|apply late_quiet]|].
  apply Forall_cons_2; [split; [apply node_complete|constructor]|]. constructor.
Qed.

Lemma portal_follows_zone_witness :
  let s := run_m sys_history in
  let s' := step_m s (Poll node []) in
  p_withdrawalBatchIndex (portal (l1 (sys_world s))) = 1 /\
  p_withdrawalBatchIndex (portal (l1 (sys_world s'))) = 2 /\
  exists k, p_withdrawalBatchIndex (portal (l1 (sys_world s'))) = Z.of_nat k /\
    hash_after 0 zone_chain k = Some (p_blockHash (portal (l1 (sys_world s')))) /\
    submitted (l1 (sys_world s')) = nonempty_batches (take k zone_chain).
Proof.
  cbv zeta. split; [by vm_compute|]. split; [by vm_compute|].
  destruct (portal_follows_zone keccak enc enc_laws zone_chain 0 hashes_distinct no_logs no_logs_true
    header_parent (fun n => [n]) header_at prove true 7 0 anchor_config_default 1 portal0 sys_history
    (Poll node []) portal0_fresh eq_refl eq_refl) as (k & k' & _ & (H1 & H2 & _ & H4 & _) & _).
  - exact history_ok.
  - exists k'. split_and!; [exact H1|exact H2|exact H4].
Defined.

(** A zone whose only batch is empty: its three submissions are lost, and the
    first lands after the resync has read the portal. *)
Definition ze : ZoneBatch := mkZoneBatch 9 109 95 0 0 [].
Definition empty_chain : list ZoneBatch := [ze].
Definition empty_logs : list (Z * Z * LogPos) := [(0, 1, pos 9)].
Definition empty_node : MonitorNode :=
  mkMonitorNode
    (mkZoneNode (fun h => Some (if h =? 109 then Some 9 else None)) (fun _ _ => Some [])
       (fun from to => Some (filter (in_range from to) empty_logs)) (fun _ => Some (Some (Some []))))
    (Some 10) (fun _ => Some 95) (fun _ => Some 0) (fun _ => Some 0) (fun _ => Some (Some 109)).

Lemma empty_node_complete : NodeComplete keccak enc empty_chain empty_node.
Proof.
  split; [split|].
  - intros from to ls h i p [= <-] [Hr Hin]%list_elem_of_filter.
    apply list_elem_of_singleton in Hin as [= -> -> ->]. exists O, ze. repeat (split; [reflexivity|]). exact Hr.
  - intros z t ->%list_elem_of_singleton. by intros [= <-].
  - intros z t ->%list_elem_of_singleton. by intros [= <-].
  - intros z t ->%list_elem_of_singleton. by intros [= <-].
  - intros from to ls z [= <-] ->%list_elem_of_singleton Hr. exists 0, 1, (pos 9). split; [|done].
    apply list_elem_of_filter. split; [done|]. by apply list_elem_of_singleton.
Qed.

Definition lost_thrice : list Turn :=
  replicate 13 calm ++ [mkTurn [] Lost false] ++ replicate 11 calm ++ [mkTurn [] Lost false] ++
  replicate 11 calm ++ [mkTurn [] Lost false] ++ [calm; mkTurn [LandSubmit 0] Fine false].
Definition stale_history : list SysOp := [Restart empty_node []; Poll empty_node lost_thrice; Process [] 1].

Lemma stale_anchor_stays_stale_witness :
  let s := run_m stale_history in
  p_withdrawalBatchIndex (portal (l1 (sys_world s))) = 1 /\
  last_submitted_zone_block <$> sys_monitor s = Some 0 /\ repair_requested (sys_world s) = false /\
  foldl step_m s [Poll empty_node []; Poll empty_node []] = s.
Proof.
  cbv zeta. split; [by vm_compute|]. split; [by vm_compute|]. split; [by vm_compute|].
  apply (stale_anchor_stays_stale keccak enc enc_laws no_logs header_parent (fun n => [n]) header_at prove true 7 0
    anchor_config_default empty_chain ltac:(repeat constructor) 1 (run_m stale_history)
    (mkMonitor 0 0 0 0) 0 1 [empty_node; empty_node]).
  - by vm_compute.
  - by vm_compute.
  - cbn. lia.
  - by vm_compute.
  - by vm_compute.
  - repeat (apply Forall_cons_2; [apply empty_node_complete|]). constructor.
Defined.

(** An undisturbed poll right after the start takes both batches. *)
Definition start_world : MWorld := mkMWorld (genesis portal0) (mkMonitor 0 0 0 0).

Lemma calm_poll_catches_up_witness :
  exists w', poll keccak enc no_logs header_parent (fun n => [n]) header_at prove true 7 0 anchor_config_default
      1 node start_world = (Ok tt, w') /\
    p_withdrawalBatchIndex (portal (l1 (world w'))) = 2 /\ get_batch (store (world w')) 0 = Some batch1.
Proof.
  destruct (calm_poll_catches_up keccak enc enc_laws no_logs header_parent (fun n => [n]) header_at prove true 7 0
    anchor_config_default zone_chain 0 ltac:(repeat constructor) ltac:(by eexists) 1 node 10 start_world 0 2 zone_logs)
    as (w' & E & [C1 C2 C3 C4]).
  - split; try reflexivity. cbn. lia.
  - split; try (cbn; lia); try (vm_compute; done).
    intros i z Hi. destruct i as [|[|i]]; [| |lia]; intros [= <-]; (split_and!; [vm_compute; done..|]); done.
  - lia.
  - reflexivity.
  - by vm_compute.
  - by left.
  - by vm_compute.
  - reflexivity.
  - intros i z Hi. destruct i as [|[|i]]; [| |lia]; intros [= <-]; split; by vm_compute.
  - exists w'. split; [exact E|]. split; [apply C1|]. apply (C4 O); [cbn; lia|]. by rewrite C2.
Defined.

(** A batch older than the window is anchored by ancestry. *)
Definition old_portal : Portal :=
  mkPortal 9 0 (fun _ _ _ _ _ => true) (fun _ n => n + 1) 0 0 0 0 0 20000 [].
Definition old_call : SubmitTx := mkSubmitTx 9 1000 19640 0 1 0 0 0 0 0 [] [] false [].

Lemma anchor_accepted_witness :
  anchor_of 20100 old_portal old_call = Some (19640, 19641) /\ in_history 8191 20100 19640.
Proof.
  split; [by vm_compute|].
  destruct (anchor_accepted keccak enc header_parent (fun n => [n]) header_at true anchor_config_default
    1000 (genesis old_portal) (Ancestry 19640 []) (genesis old_portal) old_call 20100) as (a & E & H & _);
    [vm_compute; done..|].
  assert (a = 19640) as <-; [|exact H]. vm_compute in E. by injection E.
Defined.

Lemma ancestry_headers_linked_witness :
  exists base headers, [[11]; [12]] = (fun n => [n]) <$> headers /\
    linked_headers keccak header_parent (fun n => [n]) (keccak [base]) headers.
Proof.
  destruct (ancestry_headers_linked keccak enc header_parent (fun n => [n]) header_at 10 12 (genesis old_portal)
    [[11]; [12]] (genesis old_portal)) as (base & headers & H1 & _ & H2); [by vm_compute|lia|].
  by exists base, headers.
Defined.
