(* ===== verification/RpcAuth.v ===== *)
(** * Private RPC: authorization tokens and authentication

    Models src/crates/rpc/src/auth/token.rs, auth/eip712.rs, error.rs, the
    authentication half of server.rs and the client of provider.rs: the 29-byte token suffix, its two signing
    digests, the checks of the fields against the server's configuration and
    clock, and the recovery of the authenticated caller.

    A byte is a number below 256; a [B256] or an address is its big-endian
    value.  Keccak-256, the decoder of the hex crate, the signatures of the
    tempo crates and the keychain lookup of the node are parameters.  The two
    readings of the system clock are arguments ([now], [now']). *)

From stdpp Require Import strings.
From S2P Require Import Prelude.
From S2P Require Import Ecies.
#[local] Open Scope Z_scope.

(** ** error.rs *)

Inductive AuthError :=
  | Missing
  | InvalidHex
  | TooShort
  | UnsupportedVersion (version : Z)
  | ZoneIdMismatch
  | ChainIdMismatch
  | WindowTooLarge
  | Expired
  | IssuedInFuture
  | InvalidSignature
  | UnauthorizedKeychainKey
  | RevokedKeychainKey
  | ExpiredKeychainKey
  | KeychainSignatureTypeMismatch.

(** Failures of the caller's credentials, and of the server. *)
Inductive AuthenticateError :=
  | Invalid (e : AuthError)
  | Internal.

Definition is_invalid (e : AuthenticateError) : bool :=
  match e with Invalid _ => true | Internal => false end.

Definition status_code (e : AuthenticateError) : Z :=
  match e with
  | Invalid Missing => 401
  | Invalid _ => 403
  | Internal => 500
  end.

(** ** token.rs: data *)

Definition VERSION_RAW : Z := 0.
Definition VERSION_EIP712 : Z := 1.
Definition TOKEN_FIELDS_LEN : nat := 1 + 4 + 8 + 8 + 8.
Definition DEFAULT_MAX_AUTH_TOKEN_VALIDITY_SECS : Z := 2592000.

(** The loop writes the string at the start of a zeroed 32-byte buffer. *)
Definition TEMPO_ZONE_RPC_MAGIC : list Z := pad_to 32 (ascii_bytes "TempoZoneRPC").

Record AuthContext := mkAuth {
  auth_caller : Z;
  auth_expires_at : Z;
  auth_keychain_key_id : option Z
}.

Record AuthorizationToken := mkToken {
  t_version : Z;
  t_zone_id : Z;
  t_chain_id : Z;
  t_issued_at : Z;
  t_expires_at : Z;
  t_signature : list Z;
  t_digest : Z
}.

(** The fields a token is made of, apart from its signature and digest. *)
Definition token_fields (t : AuthorizationToken) : Z * Z * Z * Z * Z :=
  (t_version t, t_zone_id t, t_chain_id t, t_issued_at t, t_expires_at t).

(** The part of [PrivateRpcConfig] that authentication reads. *)
Record RpcAuthConfig := mkAuthConfig {
  c_zone_id : Z;
  c_chain_id : Z;
  c_max_auth_token_validity : Z
}.

(** [&fields[a..b]] *)
Definition slice (a b : nat) (l : list Z) : list Z := take (b - a) (drop a l).

Section Digests.
Context (keccak256 : list Z -> Z).

(** ** eip712.rs *)

Definition EIP712_DOMAIN_NAME : list Z := ascii_bytes "TempoZoneRPC".
Definition EIP712_DOMAIN_VERSION : list Z := ascii_bytes "1".
Definition EIP712_DOMAIN_TYPE_HASH : Z :=
  0xc2f8787176b8ac6bf7215b4adcc1e069bf4ab82d9ab1df05a57a91d425935b6e.
Definition ZONE_RPC_AUTH_TYPE_HASH : Z :=
  0x233c6ebf0d655a3a06683eaf1a4002d4e6b8407efec9bee487dfea782cd238bf.

Definition domain_message (chain_id : Z) : list Z :=
  be_bytes 32 EIP712_DOMAIN_TYPE_HASH ++ be_bytes 32 (keccak256 EIP712_DOMAIN_NAME) ++
  be_bytes 32 (keccak256 EIP712_DOMAIN_VERSION) ++ be_bytes 32 chain_id.
Definition domain_separator (chain_id : Z) : Z := keccak256 (domain_message chain_id).

Definition struct_message (zone_id issued_at expires_at : Z) : list Z :=
  be_bytes 32 ZONE_RPC_AUTH_TYPE_HASH ++ be_bytes 32 zone_id ++ be_bytes 32 issued_at ++
  be_bytes 32 expires_at.
Definition struct_hash (zone_id issued_at expires_at : Z) : Z :=
  keccak256 (struct_message zone_id issued_at expires_at).

Definition eip712_message (zone_id chain_id issued_at expires_at : Z) : list Z :=
  [0x19; 0x01] ++ be_bytes 32 (domain_separator chain_id) ++
  be_bytes 32 (struct_hash zone_id issued_at expires_at).
Definition digest (zone_id chain_id issued_at expires_at : Z) : Z :=
  keccak256 (eip712_message zone_id chain_id issued_at expires_at).

(** ** token.rs: parsing, validation, building *)

Definition raw_message (version zone_id chain_id issued_at expires_at : Z) : list Z :=
  TEMPO_ZONE_RPC_MAGIC ++ [version] ++ be_bytes 4 zone_id ++ be_bytes 8 chain_id ++
  be_bytes 8 issued_at ++ be_bytes 8 expires_at.

Definition token_digest (version zone_id chain_id issued_at expires_at : Z) : Z :=
  if version =? VERSION_RAW then
    keccak256 (raw_message version zone_id chain_id issued_at expires_at)
  else if version =? VERSION_EIP712 then digest zone_id chain_id issued_at expires_at
  else 0.

Definition parse (blob : list Z) : result AuthError AuthorizationToken :=
  if (length blob <? TOKEN_FIELDS_LEN + 1)%nat then Err TooShort else
  let fields_start := (length blob - TOKEN_FIELDS_LEN)%nat in
  let fields := drop fields_start blob in
  let version := default 0 (fields !! 0%nat) in
  let zone_id := from_be (slice 1 5 fields) in
  let chain_id := from_be (slice 5 13 fields) in
  let issued_at := from_be (slice 13 21 fields) in
  let expires_at := from_be (slice 21 29 fields) in
  Ok (mkToken version zone_id chain_id issued_at expires_at (take fields_start blob)
        (token_digest version zone_id chain_id issued_at expires_at)).

Definition validate_with_max_auth_token_validity (now : Z) (t : AuthorizationToken)
    (expected_zone_id expected_chain_id max_auth_token_validity : Z) : result AuthError unit :=
  if negb (t_version t =? VERSION_RAW) && negb (t_version t =? VERSION_EIP712) then
    Err (UnsupportedVersion (t_version t))
  else if negb (t_zone_id t =? 0) && negb (t_zone_id t =? expected_zone_id) then
    Err ZoneIdMismatch
  else if negb (t_chain_id t =? expected_chain_id) then Err ChainIdMismatch
  else if max_auth_token_validity <? saturating_sub (t_expires_at t) (t_issued_at t) then
    Err WindowTooLarge
  else if t_expires_at t <=? now then Err Expired
  else if now + 60 <? t_issued_at t then Err IssuedInFuture
  else Ok tt.

Definition validate (now : Z) (t : AuthorizationToken) (expected_zone_id expected_chain_id : Z)
    : result AuthError unit :=
  validate_with_max_auth_token_validity now t expected_zone_id expected_chain_id
    DEFAULT_MAX_AUTH_TOKEN_VALIDITY_SECS.

(** The 29 bytes the two builders copy into place. *)
Definition layout (version zone_id chain_id issued_at expires_at : Z) : list Z :=
  [version] ++ be_bytes 4 zone_id ++ be_bytes 8 chain_id ++ be_bytes 8 issued_at ++
  be_bytes 8 expires_at.

Definition build_token_fields (zone_id chain_id issued_at expires_at : Z) : list Z * Z :=
  let fields := layout VERSION_RAW zone_id chain_id issued_at expires_at in
  (fields, keccak256 (TEMPO_ZONE_RPC_MAGIC ++ fields)).

Definition build_eip712_token_fields (zone_id chain_id issued_at expires_at : Z) : list Z * Z :=
  (layout VERSION_EIP712 zone_id chain_id issued_at expires_at,
   digest zone_id chain_id issued_at expires_at).

Section Header.
Context (hex_decode : string -> option (list Z)).

(** [s.strip_prefix("0x").unwrap_or(s)] *)
Definition strip_0x (s : string) : string :=
  if String.prefix "0x" s then String.substring 2 (String.length s - 2) s else s.

Definition parse_auth_header (header_value : string) : result AuthError AuthorizationToken :=
  match hex_decode (strip_0x header_value) with
  | None => Err InvalidHex
  | Some blob => parse blob
  end.
End Header.

(** ** server.rs: authentication *)

(** The prefix of [personal_sign]: byte 0x19, the text, a line feed, "32". *)
Definition EIP191_PREFIX : list Z :=
  [0x19] ++ ascii_bytes "Ethereum Signed Message:" ++ [10] ++ ascii_bytes "32".
Definition eip191_hash (d : Z) : Z := keccak256 (EIP191_PREFIX ++ be_bytes 32 d).
End Digests.

Inductive SignatureType := Secp256k1 | P256 | WebAuthn.
#[export] Instance SignatureType_eq_dec : EqDecision SignatureType.
Proof. solve_decision. Defined.

(** [IAccountKeychain.KeyInfo] *)
Record KeyInfo := mkKeyInfo {
  k_signatureType : SignatureType;
  k_keyId : Z;
  k_expiry : Z;
  k_isRevoked : bool
}.

(** The signatures of the tempo crates: [TempoSignature::from_bytes],
    [recover_signer], and the keychain variant's [key_id] and inner type. *)
Inductive TempoSignature (P K : Type) :=
  | Primitive (p : P)
  | Keychain (k : K).
Arguments Primitive {P K}.
Arguments Keychain {P K}.

Record SignatureLib := mkSigLib {
  PrimitiveSig : Type;
  KeychainSig : Type;
  from_bytes : list Z -> option (TempoSignature PrimitiveSig KeychainSig);
  recover_signer : TempoSignature PrimitiveSig KeychainSig -> Z -> option Z;
  key_id : KeychainSig -> Z -> option Z;
  signature_type : KeychainSig -> SignatureType
}.

Definition validate_keychain_key_info (now : Z) (info : KeyInfo) : result AuthenticateError unit :=
  if k_isRevoked info then Err (Invalid RevokedKeychainKey)
  else if k_keyId info =? 0 then Err (Invalid UnauthorizedKeychainKey)
  else if k_expiry info <=? now then Err (Invalid ExpiredKeychainKey)
  else Ok tt.

Section Authenticate.
Context (keccak256 : list Z -> Z) (hex_decode : string -> option (list Z)).
Context (L : SignatureLib).
(** [ZoneRpcApi::get_keychain_key]; [None] is an error of the node. *)
Context (get_keychain_key : Z -> Z -> option KeyInfo).

Definition validate_keychain_signature (now : Z) (caller : Z) (ks : KeychainSig L) (d : Z)
    : result AuthenticateError Z :=
  match key_id L ks d with
  | None => Err (Invalid InvalidSignature)
  | Some kid =>
    match get_keychain_key caller kid with
    | None => Err Internal
    | Some info =>
      match validate_keychain_key_info now info with
      | Err e => Err e
      | Ok _ =>
        if decide (k_signatureType info = signature_type L ks) then Ok kid
        else Err (Invalid KeychainSignatureTypeMismatch)
      end
    end
  end.

(** Recovery over the digest, else over its [personal_sign] hash. *)
Definition recover_caller (sig : TempoSignature (PrimitiveSig L) (KeychainSig L)) (d : Z) : option Z :=
  match recover_signer L sig d with
  | Some a => Some a
  | None => recover_signer L sig (eip191_hash keccak256 d)
  end.

Definition authenticate_token (now now' : Z) (token_value : string) (config : RpcAuthConfig)
    : result AuthenticateError AuthContext :=
  match parse_auth_header keccak256 hex_decode token_value with
  | Err e => Err (Invalid e)
  | Ok token =>
    let max_auth_token_validity :=
      Z.min (c_max_auth_token_validity config) DEFAULT_MAX_AUTH_TOKEN_VALIDITY_SECS in
    match validate_with_max_auth_token_validity now token (c_zone_id config) (c_chain_id config)
            max_auth_token_validity with
    | Err e => Err (Invalid e)
    | Ok _ =>
      match from_bytes L (t_signature token) with
      | None => Err (Invalid InvalidSignature)
      | Some sig =>
        match recover_caller sig (t_digest token) with
        | None => Err (Invalid InvalidSignature)
        | Some caller =>
          match sig with
          | Keychain ks =>
            match validate_keychain_signature now' caller ks (t_digest token) with
            | Err e => Err e
            | Ok kid => Ok (mkAuth caller (t_expires_at token) (Some kid))
            end
          | Primitive _ => Ok (mkAuth caller (t_expires_at token) None)
          end
        end
      end
    end
  end.

(** [headers.get(X_AUTHORIZATION_TOKEN)], as text. *)
Definition authenticate (now now' : Z) (header : option string) (config : RpcAuthConfig)
    : result AuthenticateError AuthContext :=
  match header with
  | None => Err (Invalid Missing)
  | Some v => authenticate_token now now' v config
  end.
End Authenticate.

(** ** provider.rs: the client that keeps a token *)

Definition REFRESH_BUFFER_SECS : Z := 30.

Record ZoneProviderConfig := mkProviderConfig { zp_zone_id : Z; zp_chain_id : Z; zp_token_ttl : Z }.

(** A provider is the token it sends. *)
Record CachedState := mkCachedState { cs_provider : string; cs_expires_at : Z }.

Section Client.
Context (keccak256 : list Z -> Z) (hex_encode : list Z -> string).
(** The signer's [r], [s] and parity. *)
Context (sign_hash_sync : Z -> option (Z * Z * bool)).
Context (config : ZoneProviderConfig).

Definition signature_bytes (sig : Z * Z * bool) : list Z :=
  be_bytes 32 sig.1.1 ++ be_bytes 32 sig.1.2 ++ [if sig.2 then 1 else 0].

(** [client_built] is whether the HTTP client could be made. *)
Definition build_provider_with_token (now : Z) (client_built : bool) : option (string * Z) :=
  let expires_at := wrapping_add U64_MAX now (zp_token_ttl config) in
  let '(fields, d) := build_token_fields keccak256 (zp_zone_id config) (zp_chain_id config) now expires_at in
  match sign_hash_sync d with
  | None => None
  | Some sig =>
    let blob := signature_bytes sig ++ fields in
    if client_built then Some (hex_encode blob, expires_at) else None
  end.

Definition zone_provider_new (now : Z) (client_built : bool) : option CachedState :=
  match build_provider_with_token now client_built with
  | Some (provider, expires_at) => Some (mkCachedState provider expires_at)
  | None => None
  end.

(** The clock is read again when a token is built ([now']). *)
Definition zone_provider (now now' : Z) (client_built : bool) (state : CachedState) : string * CachedState :=
  if now + REFRESH_BUFFER_SECS <? cs_expires_at state then (cs_provider state, state)
  else match build_provider_with_token now' client_built with
  | Some (provider, expires_at) => (provider, mkCachedState provider expires_at)
  | None => (cs_provider state, state)
  end.

Fixpoint provider_run (calls : list (Z * Z)) (state : CachedState) : list string :=
  match calls with
  | [] => []
  | (now, now') :: calls => let '(p, state) := zone_provider now now' true state in p :: provider_run calls state
  end.
End Client.
