(* ===== verification/RpcAuthProofs.v ===== *)
(** * Private RPC authentication: proofs

    The token layout round-trips, a digest determines the fields it was signed
    for (up to an explicit Keccak collision), and a request is authenticated
    as exactly the account its token proves. *)

From Stdlib Require Import Ascii.
From stdpp Require Import strings.
From S2P Require Import Prelude.
From S2P Require Import Ecies.
From S2P Require Import EciesProofs.
From S2P Require Import RpcAuth.
#[local] Open Scope Z_scope.

(** ** Bytes *)

Definition is_byte (b : Z) : Prop := 0 <= b < 256.

Lemma from_be_bound l : Forall is_byte l -> 0 <= from_be l < 256 ^ Z.of_nat (length l).
Proof.
  induction l as [|b l IH] using rev_ind; intros H; [cbn; lia|].
  apply Forall_app in H as [H1 H2]. rewrite Forall_singleton in H2. unfold is_byte in H2.
  rewrite from_be_app, length_app, Nat2Z.inj_add, Z.pow_add_r by lia.
  specialize (IH H1). change (256 ^ Z.of_nat (length [b])) with 256. lia.
Qed.

Lemma be_bytes_from_be n l : Forall is_byte l -> length l = n -> be_bytes n (from_be l) = l.
Proof.
  revert l. induction n as [|n IH]; intros l Hb Hl.
  { by destruct l. }
  destruct l as [|b l _] using rev_ind; [done|].
  rewrite length_app in Hl. cbn [length] in Hl.
  apply Forall_app in Hb as [H1 H2]. rewrite Forall_singleton in H2. unfold is_byte in H2.
  rewrite from_be_app. set (x := from_be l).
  change (be_bytes (S n) (x * 256 + b)) with (be_bytes n ((x * 256 + b) / 256) ++ [(x * 256 + b) mod 256]).
  rewrite Z.div_add_l, (Z.div_small b), Z.add_0_r by lia.
  rewrite (Z.add_comm _ b), Z.mod_add, (Z.mod_small b) by lia.
  unfold x. rewrite IH by (done || lia). done.
Qed.

Lemma slice_length a b l : (a <= b <= length l)%nat -> length (slice a b l) = (b - a)%nat.
Proof. intros H. unfold slice. rewrite length_take, length_drop. lia. Qed.

Lemma slice_bytes a b l : Forall is_byte l -> Forall is_byte (slice a b l).
Proof. intros H. unfold slice. by apply Forall_take, Forall_drop. Qed.

Lemma drop_slice a b l : (a <= b)%nat -> drop a l = slice a b l ++ drop b l.
Proof.
  intros H. unfold slice. rewrite <-(take_drop (b - a) (drop a l)) at 1.
  rewrite drop_drop. repeat f_equal. lia.
Qed.

(** Two concatenations of 32-byte words are equal word by word. *)
Lemma word_cons_inj n x y l1 l2 :
  0 <= x < 256 ^ Z.of_nat n -> 0 <= y < 256 ^ Z.of_nat n ->
  be_bytes n x ++ l1 = be_bytes n y ++ l2 -> x = y /\ l1 = l2.
Proof.
  intros Hx Hy H. apply app_inj_1 in H as [H ->]; [|by rewrite !be_bytes_length].
  split; [|done]. by apply (be_bytes_inj n).
Qed.

Lemma word_inj n x y :
  0 <= x < 256 ^ Z.of_nat n -> 0 <= y < 256 ^ Z.of_nat n -> be_bytes n x = be_bytes n y -> x = y.
Proof. apply be_bytes_inj. Qed.

(** ** The layout *)

Definition fields_in_range (version zone_id chain_id issued_at expires_at : Z) : Prop :=
  is_byte version /\ 0 <= zone_id <= U32_MAX /\ in_u64 chain_id /\ in_u64 issued_at /\ in_u64 expires_at.

Lemma layout_length v z c i e : length (layout v z c i e) = TOKEN_FIELDS_LEN.
Proof. unfold layout. rewrite !length_app, !be_bytes_length. done. Qed.

Lemma slice_app_skip a b l1 l2 :
  (length l1 <= a)%nat -> slice a b (l1 ++ l2) = slice (a - length l1) (b - length l1) l2.
Proof.
  intros H. unfold slice. rewrite drop_app_ge by done. f_equal. lia.
Qed.

Lemma slice_word n x l m : m = n -> slice 0 m (be_bytes n x ++ l) = be_bytes n x.
Proof.
  intros ->. unfold slice. rewrite drop_0, Nat.sub_0_r. apply be_bytes_app_take.
Qed.

Lemma slice_last n x m : m = n -> slice 0 m (be_bytes n x) = be_bytes n x.
Proof. intros ->. rewrite <-(app_nil_r (be_bytes n x)) at 1. by apply slice_word. Qed.

Ltac slice_step :=
  first [ rewrite slice_word by reflexivity
        | rewrite slice_last by reflexivity
        | rewrite slice_app_skip by (rewrite ?be_bytes_length; cbn [length]; lia);
          rewrite ?be_bytes_length; cbn [length Nat.sub] ].

Lemma slice_layout v z c i e :
  slice 1 5 (layout v z c i e) = be_bytes 4 z /\ slice 5 13 (layout v z c i e) = be_bytes 8 c /\
  slice 13 21 (layout v z c i e) = be_bytes 8 i /\ slice 21 29 (layout v z c i e) = be_bytes 8 e.
Proof. unfold layout. repeat split; repeat slice_step; done. Qed.

Section Layout.
Context (keccak256 : list Z -> Z).

(** Parsing what was laid out gives the fields back. *)
Lemma parse_layout sig v z c i e :
  sig <> [] -> fields_in_range v z c i e ->
  parse keccak256 (sig ++ layout v z c i e) =
  Ok (mkToken v z c i e sig (token_digest keccak256 v z c i e)).
Proof.
  intros Hs (Hv & Hz & Hc & Hi & He). unfold parse.
  rewrite length_app, layout_length.
  replace (length sig + TOKEN_FIELDS_LEN - TOKEN_FIELDS_LEN)%nat with (length sig) by lia.
  assert (length sig <> 0%nat) by (by destruct sig).
  destruct (Nat.ltb_spec (length sig + TOKEN_FIELDS_LEN) (TOKEN_FIELDS_LEN + 1)); [lia|].
  rewrite drop_app_length, take_app_length. cbv zeta.
  destruct (slice_layout v z c i e) as (-> & -> & -> & ->).
  change (default 0 (layout v z c i e !! 0%nat)) with v.
  unfold U32_MAX, in_u64, U64_MAX in *.
  rewrite !from_be_bytes; [done|..]; cbn; lia.
Qed.

(** Whatever parses is its signature followed by the layout of its fields. *)
Lemma parse_inv blob t :
  Forall is_byte blob -> parse keccak256 blob = Ok t ->
  t_signature t <> [] /\
  fields_in_range (t_version t) (t_zone_id t) (t_chain_id t) (t_issued_at t) (t_expires_at t) /\
  blob = t_signature t ++
    layout (t_version t) (t_zone_id t) (t_chain_id t) (t_issued_at t) (t_expires_at t) /\
  t_digest t =
    token_digest keccak256 (t_version t) (t_zone_id t) (t_chain_id t) (t_issued_at t) (t_expires_at t).
Proof.
  intros Hb. unfold parse. destruct (Nat.ltb_spec (length blob) (TOKEN_FIELDS_LEN + 1)) as [|Hl]; [done|].
  set (n := (length blob - TOKEN_FIELDS_LEN)%nat). intros [= <-]. cbn [t_signature t_version t_zone_id
    t_chain_id t_issued_at t_expires_at t_digest].
  set (f := drop n blob).
  assert (Hfb : Forall is_byte f) by by apply Forall_drop.
  assert (Hfl : length f = 29%nat) by (unfold f, n, TOKEN_FIELDS_LEN in *; rewrite length_drop; lia).
  assert (Hr : forall a b, (a <= b <= 29)%nat -> 0 <= from_be (slice a b f) < 256 ^ Z.of_nat (b - a)).
  { intros a b Hab. rewrite <-(slice_length a b f) by lia. apply from_be_bound. by apply slice_bytes. }
  destruct f as [|v f'] eqn:Ef; [done|]. cbn [lookup list_lookup default].
  inversion Hfb as [|? ? Hv Hf']; subst.
  split; [|split; [|split]]; [| | |done].
  - intros E. apply (f_equal length) in E. rewrite length_take in E. unfold n, TOKEN_FIELDS_LEN in *. cbn in E. lia.
  - pose proof (Hr 1%nat 5%nat ltac:(lia)). pose proof (Hr 5%nat 13%nat ltac:(lia)).
    pose proof (Hr 13%nat 21%nat ltac:(lia)). pose proof (Hr 21%nat 29%nat ltac:(lia)).
    unfold fields_in_range, in_u64, U32_MAX, U64_MAX. cbn in *. repeat split; unfold is_byte in *; lia.
  - rewrite <-(take_drop n blob) at 1. f_equal. fold f. rewrite Ef. unfold layout.
    rewrite !be_bytes_from_be by (try apply slice_bytes; try rewrite slice_length; rewrite ?Hfl; done || lia).
    change (v :: f') with ([v] ++ f') at 1. f_equal.
    change f' with (drop 1 (v :: f')) at 1.
    rewrite (drop_slice 1 5), (drop_slice 5 13), (drop_slice 13 21), (drop_slice 21 29) by lia.
    rewrite (drop_ge _ 29) by (rewrite Hfl; lia). by rewrite app_nil_r.
Qed.
End Layout.

(** Both builders round-trip through [parse], digest included; and parsing
    loses nothing: the blob is rebuilt from the parsed token. *)
Theorem token_roundtrip (keccak256 : list Z -> Z) :
  (forall sig z c i e,
     sig <> [] -> fields_in_range 0 z c i e ->
     (let '(fields, d) := build_token_fields keccak256 z c i e in
      parse keccak256 (sig ++ fields) = Ok (mkToken VERSION_RAW z c i e sig d)) /\
     (let '(fields, d) := build_eip712_token_fields keccak256 z c i e in
      parse keccak256 (sig ++ fields) = Ok (mkToken VERSION_EIP712 z c i e sig d))) /\
  (forall blob t,
     Forall is_byte blob -> parse keccak256 blob = Ok t ->
     blob = t_signature t ++
       layout (t_version t) (t_zone_id t) (t_chain_id t) (t_issued_at t) (t_expires_at t)).
Proof.
  split.
  - intros sig z c i e Hs Hr. cbn [build_token_fields build_eip712_token_fields].
    assert (fields_in_range 1 z c i e).
    { destruct Hr as (? & ?). split; [unfold is_byte in *; lia|done]. }
    by rewrite !parse_layout.
  - intros blob t Hb Hp. by apply (parse_inv keccak256).
Qed.

(** ** Digests bind the fields *)

Section Binding.
Context (keccak256 : list Z -> Z).
Hypothesis keccak_word : forall m, 0 <= keccak256 m < 2 ^ 256.

(** The messages hashed on the way to a token's digest. *)
Definition hashed (version zone_id chain_id issued_at expires_at : Z) : list (list Z) :=
  if version =? VERSION_RAW then [raw_message version zone_id chain_id issued_at expires_at]
  else [domain_message keccak256 chain_id; struct_message zone_id issued_at expires_at;
        eip712_message keccak256 zone_id chain_id issued_at expires_at].

(** Two different messages, one hashed for each token, with one hash. *)
Definition collision (ms1 ms2 : list (list Z)) : Prop :=
  exists m1 m2, m1 ∈ ms1 /\ m2 ∈ ms2 /\ m1 <> m2 /\ keccak256 m1 = keccak256 m2.

Lemma collision_or m1 m2 ms1 ms2 :
  m1 ∈ ms1 -> m2 ∈ ms2 -> keccak256 m1 = keccak256 m2 -> m1 = m2 \/ collision ms1 ms2.
Proof.
  intros H1 H2 He. destruct (decide (m1 = m2)) as [->|Hn]; [by left|].
  right. exists m1, m2. done.
Qed.

Lemma raw_message_inj v z c i e v' z' c' i' e' :
  fields_in_range v z c i e -> fields_in_range v' z' c' i' e' ->
  raw_message v z c i e = raw_message v' z' c' i' e' -> (v, z, c, i, e) = (v', z', c', i', e').
Proof.
  unfold fields_in_range, in_u64, U32_MAX, U64_MAX. intros (Hv & Hz & Hc & Hi & He) (Hv' & Hz' & Hc' & Hi' & He').
  unfold raw_message. intros H. apply app_inv_head in H. apply app_inj_1 in H as [[= ->] H]; [|done].
  apply word_cons_inj in H as [-> H]; [|cbn; lia..].
  apply word_cons_inj in H as [-> H]; [|cbn; lia..].
  apply word_cons_inj in H as [-> H]; [|cbn; lia..].
  apply word_inj in H as ->; [done|cbn; lia..].
Qed.

Lemma eip712_message_inj v z c i e v' z' c' i' e' ms1 ms2 :
  fields_in_range v z c i e -> fields_in_range v' z' c' i' e' ->
  domain_message keccak256 c ∈ ms1 -> domain_message keccak256 c' ∈ ms2 ->
  struct_message z i e ∈ ms1 -> struct_message z' i' e' ∈ ms2 ->
  eip712_message keccak256 z c i e = eip712_message keccak256 z' c' i' e' ->
  (z, c, i, e) = (z', c', i', e') \/ collision ms1 ms2.
Proof.
  unfold fields_in_range, in_u64, U32_MAX, U64_MAX. intros (Hv & Hz & Hc & Hi & He) (Hv' & Hz' & Hc' & Hi' & He').
  intros Hd1 Hd2 Hs1 Hs2 H. unfold eip712_message in H. apply app_inv_head in H.
  apply word_cons_inj in H as [Hd Hs]; [|apply keccak_word..].
  apply word_inj in Hs; [|apply keccak_word..].
  destruct (collision_or _ _ _ _ Hd1 Hd2 Hd) as [Ed|]; [|by right].
  destruct (collision_or _ _ _ _ Hs1 Hs2 Hs) as [Es|]; [|by right].
  left. unfold domain_message in Ed. do 3 apply app_inv_head in Ed.
  apply word_inj in Ed as ->; [|cbn; lia..].
  unfold struct_message in Es. apply app_inv_head in Es.
  apply word_cons_inj in Es as [-> Es]; [|cbn; lia..].
  apply word_cons_inj in Es as [-> Es]; [|cbn; lia..].
  apply word_inj in Es as ->; [done|cbn; lia..].
Qed.

Lemma raw_message_length v z c i e : length (raw_message v z c i e) = 61%nat.
Proof. unfold raw_message. rewrite !length_app, !be_bytes_length. done. Qed.
Lemma eip712_message_length z c i e : length (eip712_message keccak256 z c i e) = 66%nat.
Proof. unfold eip712_message. rewrite !length_app, !be_bytes_length. done. Qed.

Lemma digest_binds v z c i e v' z' c' i' e' :
  fields_in_range v z c i e -> fields_in_range v' z' c' i' e' ->
  v = 0 \/ v = 1 -> v' = 0 \/ v' = 1 ->
  token_digest keccak256 v z c i e = token_digest keccak256 v' z' c' i' e' ->
  (v, z, c, i, e) = (v', z', c', i', e') \/ collision (hashed v z c i e) (hashed v' z' c' i' e').
Proof.
  intros Hr Hr' Hv Hv' H.
  destruct Hv as [-> | ->], Hv' as [-> | ->]; unfold hashed; cbn [Z.eqb VERSION_RAW]; cbn in H;
    unfold digest in H.
  - destruct (collision_or _ _ [raw_message 0 z c i e] [raw_message 0 z' c' i' e']
      ltac:(auto with zone) ltac:(auto with zone) H) as [E|]; [|by right].
    left. by apply raw_message_inj in E.
  - right. eexists _, _. split_and!; [| | |exact H]; [auto with zone..|].
    intros E. apply (f_equal length) in E. by rewrite raw_message_length, eip712_message_length in E.
  - right. eexists _, _. split_and!; [| | |exact H]; [auto with zone..|].
    intros E. apply (f_equal length) in E. by rewrite raw_message_length, eip712_message_length in E.
  - set (ms1 := [_; _; _]). set (ms2 := [_; _; _]).
    destruct (collision_or (eip712_message keccak256 z c i e) (eip712_message keccak256 z' c' i' e')
      ms1 ms2 ltac:(subst ms1; auto with zone) ltac:(subst ms2; auto with zone) H)
      as [E|]; [|by right].
    destruct (eip712_message_inj 1 z c i e 1 z' c' i' e' ms1 ms2) as [[= -> -> -> ->]|];
      [done|done|subst ms1 ms2; auto with zone..|done|by left|by right].
Qed.
End Binding.

(** A digest commits to the fields it was signed for: two parsed tokens of
    supported versions with one digest have the same fields, or two different
    messages hashed for them collide under Keccak. *)
Theorem token_digest_binds (keccak256 : list Z -> Z) blob1 blob2 t1 t2 :
  (forall m, 0 <= keccak256 m < 2 ^ 256) ->
  Forall is_byte blob1 -> Forall is_byte blob2 ->
  parse keccak256 blob1 = Ok t1 -> parse keccak256 blob2 = Ok t2 ->
  t_version t1 = 0 \/ t_version t1 = 1 -> t_version t2 = 0 \/ t_version t2 = 1 ->
  t_digest t1 = t_digest t2 ->
  token_fields t1 = token_fields t2 \/
  collision keccak256
    (hashed keccak256 (t_version t1) (t_zone_id t1) (t_chain_id t1) (t_issued_at t1) (t_expires_at t1))
    (hashed keccak256 (t_version t2) (t_zone_id t2) (t_chain_id t2) (t_issued_at t2) (t_expires_at t2)).
Proof.
  intros Hk Hb1 Hb2 Hp1 Hp2 Hv1 Hv2 Hd.
  apply parse_inv in Hp1 as (_ & Hr1 & _ & E1); [|done].
  apply parse_inv in Hp2 as (_ & Hr2 & _ & E2); [|done].
  rewrite E1, E2 in Hd. by apply digest_binds.
Qed.

(** ** Validation *)

Lemma validate_Ok now t zid cid maxv :
  validate_with_max_auth_token_validity now t zid cid maxv = Ok tt <->
  (t_version t = 0 \/ t_version t = 1) /\ (t_zone_id t = 0 \/ t_zone_id t = zid) /\
  t_chain_id t = cid /\ saturating_sub (t_expires_at t) (t_issued_at t) <= maxv /\
  now < t_expires_at t /\ t_issued_at t <= now + 60.
Proof.
  unfold validate_with_max_auth_token_validity, VERSION_RAW, VERSION_EIP712.
  destruct (Z.eqb_spec (t_version t) 0), (Z.eqb_spec (t_version t) 1), (Z.eqb_spec (t_zone_id t) 0),
    (Z.eqb_spec (t_zone_id t) zid), (Z.eqb_spec (t_chain_id t) cid),
    (Z.ltb_spec maxv (saturating_sub (t_expires_at t) (t_issued_at t))),
    (Z.leb_spec (t_expires_at t) now), (Z.ltb_spec (now + 60) (t_issued_at t)); cbn;
    (split; [intros Hx|intros (? & ? & ? & ? & ? & ?)]); try discriminate; try tauto; try lia; split_and!; auto; lia.
Qed.

(** ** Authentication *)

Section Authentic.
Context (keccak256 : list Z -> Z) (hex_decode : string -> option (list Z)).
Context (L : SignatureLib) (get_keychain_key : Z -> Z -> option KeyInfo).

(** The key an account registered for this signature is usable at [now]. *)
Definition key_active (now caller kid : Z) (ks : KeychainSig L) : Prop :=
  exists info, get_keychain_key caller kid = Some info /\ k_isRevoked info = false /\
    k_keyId info <> 0 /\ now < k_expiry info /\ k_signatureType info = signature_type L ks.

(** What a caller has to show: a token for this zone and chain, in its
    validity window, signed by the caller or by an active key of the caller. *)
Definition authentic (now now' : Z) (value : string) (config : RpcAuthConfig) (ctx : AuthContext) : Prop :=
  exists blob t sig,
    hex_decode (strip_0x value) = Some blob /\ parse keccak256 blob = Ok t /\
    (t_version t = 0 \/ t_version t = 1) /\
    (t_zone_id t = 0 \/ t_zone_id t = c_zone_id config) /\ t_chain_id t = c_chain_id config /\
    saturating_sub (t_expires_at t) (t_issued_at t) <= c_max_auth_token_validity config /\
    saturating_sub (t_expires_at t) (t_issued_at t) <= DEFAULT_MAX_AUTH_TOKEN_VALIDITY_SECS /\
    now < t_expires_at t /\ t_issued_at t <= now + 60 /\
    from_bytes L (t_signature t) = Some sig /\
    recover_caller keccak256 L sig (t_digest t) = Some (auth_caller ctx) /\
    auth_expires_at ctx = t_expires_at t /\
    match sig with
    | Primitive _ => auth_keychain_key_id ctx = None
    | Keychain ks => exists kid, auth_keychain_key_id ctx = Some kid /\
        key_id L ks (t_digest t) = Some kid /\ key_active now' (auth_caller ctx) kid ks
    end.

Lemma validate_keychain_signature_Ok now caller ks d kid :
  validate_keychain_signature L get_keychain_key now caller ks d = Ok kid <->
  key_id L ks d = Some kid /\ key_active now caller kid ks.
Proof.
  unfold validate_keychain_signature, key_active, validate_keychain_key_info. split.
  - destruct (key_id L ks d) as [k|]; [|done].
    destruct (get_keychain_key caller k) as [info|] eqn:Eg; [|done].
    destruct (k_isRevoked info) eqn:?; [done|]. destruct (Z.eqb_spec (k_keyId info) 0); [done|].
    destruct (Z.leb_spec (k_expiry info) now); [done|]. destruct (decide _); [|done].
    intros [= <-]. eauto 10.
  - intros (-> & info & -> & -> & Hk & He & ->).
    destruct (Z.eqb_spec (k_keyId info) 0); [done|].
    destruct (Z.leb_spec (k_expiry info) now); [lia|]. by rewrite decide_True.
Qed.

Lemma authenticate_token_sound now now' value config ctx :
  authenticate_token keccak256 hex_decode L get_keychain_key now now' value config = Ok ctx ->
  authentic now now' value config ctx.
Proof.
  unfold authenticate_token, parse_auth_header, authentic.
  destruct (hex_decode _) as [blob|]; [|done].
  destruct (parse keccak256 blob) as [t|] eqn:Ep; [|done].
  destruct (validate_with_max_auth_token_validity _ _ _ _ _) as [[]|] eqn:Ev; [|done].
  apply validate_Ok in Ev as (? & ? & ? & ? & ? & ?).
  destruct (from_bytes L _) as [sig|] eqn:Es; [|done].
  destruct (recover_caller keccak256 L sig _) as [a|] eqn:Er; [|done].
  intros Herr. exists blob, t, sig. repeat (split; [done || lia|]).
  destruct sig as [p|ks].
  - injection Herr as <-. done.
  - destruct (validate_keychain_signature _ _ _ _ _ _) as [kid|] eqn:Ek; [|done].
    injection Herr as <-. cbn. apply validate_keychain_signature_Ok in Ek. split; [done|split; [done|]].
    by exists kid.
Qed.

Lemma authenticate_token_complete now now' value config ctx :
  authentic now now' value config ctx ->
  authenticate_token keccak256 hex_decode L get_keychain_key now now' value config = Ok ctx.
Proof.
  intros (blob & t & sig & Hh & Hp & Hv & Hz & Hc & Hm & Hd & Hn & Hi & Hs & Hr & He & Hk).
  unfold authenticate_token, parse_auth_header. rewrite Hh, Hp.
  rewrite (proj2 (validate_Ok _ _ _ _ _)) by (repeat (split; [done|]); split; lia).
  rewrite Hs, Hr. destruct ctx as [a x k]; cbn in *. subst x. destruct sig as [p|ks].
  - by subst k.
  - destruct Hk as (kid & -> & Hk). by rewrite (proj2 (validate_keychain_signature_Ok _ _ _ _ _) Hk).
Qed.
End Authentic.

(** C18. A request is served as [caller] exactly when its token shows that it may:
    the token parses, is for this chain and zone (or unscoped), is inside its
    validity window, which is at most the configured and the protocol maximum,
    and its signature recovers [caller]; a keychain signature also needs a key
    of [caller] that is registered, unrevoked, unexpired and of that type.
    Every other request gets 401 (no header), 403 (credentials) or 500 (the
    keychain lookup failed). *)
Theorem authenticated_iff keccak256 hex_decode L get_keychain_key now now' value config :
  (forall ctx,
    authenticate keccak256 hex_decode L get_keychain_key now now' (Some value) config = Ok ctx <->
    authentic keccak256 hex_decode L get_keychain_key now now' value config ctx) /\
  (forall header e,
    authenticate keccak256 hex_decode L get_keychain_key now now' header config = Err e ->
    (status_code e = 401 <-> header = None) /\
    (status_code e = 500 -> exists caller kid, get_keychain_key caller kid = None)).
Proof.
  split.
  - intros ctx. split; [apply authenticate_token_sound|apply authenticate_token_complete].
  - intros [v|] e; cbn [authenticate]; [|intros [= <-]; by split].
    unfold authenticate_token, parse_auth_header, parse, validate_keychain_signature, validate_keychain_key_info,
      validate_with_max_auth_token_validity.
    intros H. repeat case_match; simplify_eq; cbn; split; try (split; discriminate); try discriminate; eauto.
Qed.

(** A token cannot outlive its window: if it authenticates at [now1] and again
    at [now2], the two moments are less than the maximum validity, capped by
    the protocol's 30 days, plus the 60 seconds of clock skew apart. *)
Theorem token_lifetime keccak256 hex_decode L gk1 gk2 now1 now1' now2 now2' value config c1 c2 :
  authenticate_token keccak256 hex_decode L gk1 now1 now1' value config = Ok c1 ->
  authenticate_token keccak256 hex_decode L gk2 now2 now2' value config = Ok c2 ->
  auth_caller c1 = auth_caller c2 /\
  now2 < now1 + 60 + Z.max 0 (Z.min (c_max_auth_token_validity config) DEFAULT_MAX_AUTH_TOKEN_VALIDITY_SECS).
Proof.
  intros H1 H2. apply authenticate_token_sound in H1, H2.
  destruct H1 as (b1 & t1 & s1 & Hh1 & Hp1 & _ & _ & _ & ? & ? & ? & ? & Hs1 & Hr1 & _).
  destruct H2 as (b2 & t2 & s2 & Hh2 & Hp2 & _ & _ & _ & ? & ? & ? & ? & Hs2 & Hr2 & _).
  simplify_eq. rewrite Hp1 in Hp2. simplify_eq. split; [done|]. unfold saturating_sub in *. lia.
Qed.

(** ** The client's tokens *)

Lemma be_bytes_is_byte n x : Forall is_byte (be_bytes n x).
Proof.
  revert x. induction n as [|n IH]; intros x; [constructor|].
  change (be_bytes (S n) x) with (be_bytes n (x / 256) ++ [x mod 256]). apply Forall_app. split; [apply IH|].
  constructor; [|constructor]. unfold is_byte. apply Z.mod_pos_bound. lia.
Qed.

Lemma signature_is_bytes sig : Forall is_byte (signature_bytes sig).
Proof.
  unfold signature_bytes. rewrite !Forall_app. split_and!; [apply be_bytes_is_byte..|].
  constructor; [|constructor]. unfold is_byte. destruct sig.2; lia.
Qed.

Lemma layout_is_bytes v z c i e : is_byte v -> Forall is_byte (layout v z c i e).
Proof. intros Hv. unfold layout. rewrite !Forall_app. split_and!; [by constructor|apply be_bytes_is_byte..]. Qed.

Section ClientTokens.
Context (keccak256 : list Z -> Z) (hex_encode : list Z -> string) (hex_decode : string -> option (list Z)).
Context (sign : Z -> option (Z * Z * bool)) (L : SignatureLib) (gk : Z -> Z -> option KeyInfo) (signer : Z).
Context (client : ZoneProviderConfig) (server : RpcAuthConfig).
Context (Hhex : forall b, Forall is_byte b -> hex_decode (strip_0x (hex_encode b)) = Some b).
Context (Hsign : forall d, exists sig p, sign d = Some sig /\ from_bytes L (signature_bytes sig) = Some (Primitive p) /\
                   recover_signer L (Primitive p) d = Some signer).
Context (Hzone : 0 <= zp_zone_id client <= U32_MAX) (Hchain : in_u64 (zp_chain_id client)).
Context (Hz : zp_zone_id client = 0 \/ zp_zone_id client = c_zone_id server) (Hc : zp_chain_id client = c_chain_id server).
Context (Httl : REFRESH_BUFFER_SECS < zp_token_ttl client <= Z.min (c_max_auth_token_validity server) DEFAULT_MAX_AUTH_TOKEN_VALIDITY_SECS).

(** The state holds the token built at [i]. *)
Definition issued (i : Z) (st : CachedState) : Prop :=
  build_provider_with_token keccak256 hex_encode sign client i true = Some (cs_provider st, cs_expires_at st) /\
  0 <= i /\ i + zp_token_ttl client <= U64_MAX.

Lemma build_some i : 0 <= i -> i + zp_token_ttl client <= U64_MAX ->
  exists p, build_provider_with_token keccak256 hex_encode sign client i true = Some (p, i + zp_token_ttl client).
Proof.
  intros H0 H1. unfold build_provider_with_token, build_token_fields, wrapping_add.
  unfold REFRESH_BUFFER_SECS in Httl. rewrite Z.mod_small by (unfold U64_MAX in *; lia).
  destruct (Hsign (keccak256 (TEMPO_ZONE_RPC_MAGIC ++ layout VERSION_RAW (zp_zone_id client) (zp_chain_id client) i (i + zp_token_ttl client))))
    as (sig & p & -> & _). eauto.
Qed.

(** A token of the client is accepted from a minute before its issue until it
    expires, for the signer. *)
Lemma issued_accepted i st now now' :
  issued i st -> i - 60 <= now -> now < cs_expires_at st ->
  cs_expires_at st = i + zp_token_ttl client /\
  authenticate keccak256 hex_decode L gk now now' (Some (cs_provider st)) server = Ok (mkAuth signer (cs_expires_at st) None).
Proof.
  intros (Hb & H0 & H1) Hlo Hhi. unfold REFRESH_BUFFER_SECS in Httl.
  unfold build_provider_with_token, build_token_fields, wrapping_add in Hb.
  rewrite Z.mod_small in Hb by (unfold U64_MAX in *; lia).
  set (e := i + zp_token_ttl client) in *.
  set (d := keccak256 (TEMPO_ZONE_RPC_MAGIC ++ layout VERSION_RAW (zp_zone_id client) (zp_chain_id client) i e)) in *.
  destruct (Hsign d) as (sig & q & Es & Ef & Er). rewrite Es in Hb.
  remember (signature_bytes sig ++ layout VERSION_RAW (zp_zone_id client) (zp_chain_id client) i e) as blob eqn:Eblob.
  injection Hb as Hp He. split; [done|].
  apply authenticate_token_complete. eexists _, _, (Primitive q). rewrite <-Hp. split.
  { apply Hhex. rewrite Eblob. apply Forall_app. split; [apply signature_is_bytes|by apply layout_is_bytes]. }
  rewrite Eblob. split.
  { apply parse_layout; [|unfold fields_in_range, is_byte, in_u64, VERSION_RAW in *; lia].
    unfold signature_bytes. intros E. apply (f_equal length) in E. rewrite !length_app, !be_bytes_length in E. done. }
  cbn [t_version t_zone_id t_chain_id t_issued_at t_expires_at t_signature t_digest auth_caller auth_expires_at auth_keychain_key_id].
  unfold saturating_sub. split_and!; try done; try lia; [by left|].
  unfold recover_caller. change (token_digest keccak256 VERSION_RAW (zp_zone_id client) (zp_chain_id client) i e) with d.
  by rewrite Er.
Qed.

(** Calls with their two readings of a clock that does not go back. *)
Fixpoint ascending (i : Z) (calls : list (Z * Z)) : Prop :=
  match calls with
  | [] => True
  | (now, now') :: calls => i <= now <= now' /\ now' + zp_token_ttl client <= U64_MAX /\ ascending now' calls
  end.

Lemma ascending_weaken i j calls : i <= j -> ascending j calls -> ascending i calls.
Proof. destruct calls as [|[n n'] calls]; [done|]. cbn. intros Hij (H1 & H2 & H3). split; [lia|done]. Qed.

(** Whenever the client asks for a provider, its token authenticates it as the
    signer at once and for half a minute, also to a server whose clock is up to
    a minute behind. *)
Theorem client_stays_authenticated i st calls :
  issued i st -> ascending i calls ->
  Forall2 (fun c p => forall now now', c.2 - 60 <= now <= c.1 + REFRESH_BUFFER_SECS ->
             exists expiry, authenticate keccak256 hex_decode L gk now now' (Some p) server = Ok (mkAuth signer expiry None))
    calls (provider_run keccak256 hex_encode sign client calls st).
Proof.
  revert i st. induction calls as [|[n n'] calls IH]; intros i st Hi Ha; [constructor|].
  destruct Ha as (Hn & Hmax & Ha). cbn [provider_run]. unfold zone_provider.
  destruct (Z.ltb_spec (n + REFRESH_BUFFER_SECS) (cs_expires_at st)) as [Hlt|Hge].
  - constructor; [|apply (IH i); [done|]; apply (ascending_weaken i n'); [lia|done]].
    cbn [fst snd]. intros now now' Hw. exists (cs_expires_at st). eapply (issued_accepted i); [done|lia|lia].
  - destruct (build_some n' ltac:(destruct Hi; lia) Hmax) as [p Hb]. rewrite Hb.
    assert (Hi' : issued n' (mkCachedState p (n' + zp_token_ttl client))) by (split; [done|]; destruct Hi; lia).
    constructor; [|by apply (IH n')]. cbn [fst snd]. intros now now' Hw. unfold REFRESH_BUFFER_SECS in *.
    eexists. apply (issued_accepted n' (mkCachedState p (n' + zp_token_ttl client))); cbn [cs_expires_at]; [done|lia|lia].
Qed.
End ClientTokens.

(** A client and a server of one zone, with the lowercase hex encoding. *)
Module ClientExamples.
Definition digit (n : Z) : ascii := ascii_of_N (Z.to_N (if n <? 10 then 48 + n else 87 + n)).
Definition digit_value (a : ascii) : option Z :=
  let n := Z.of_N (N_of_ascii a) in
  if (48 <=? n) && (n <=? 57) then Some (n - 48) else if (97 <=? n) && (n <=? 102) then Some (n - 87) else None.
Fixpoint hex (b : list Z) : string :=
  match b with [] => EmptyString | x :: b => String (digit (x / 16)) (String (digit (x mod 16)) (hex b)) end.
Fixpoint unhex (s : string) : option (list Z) :=
  match s with
  | EmptyString => Some []
  | String a (String b s) => x ← digit_value a; y ← digit_value b; l ← unhex s; Some (x * 16 + y :: l)
  | String _ EmptyString => None
  end.

Lemma digit_ok n : 0 <= n < 16 -> digit_value (digit n) = Some n /\ digit n <> "x"%char.
Proof.
  assert (H : Forall (fun n => digit_value (digit n) = Some n /\ digit n <> "x"%char) (seqZ 0 16))
    by (vm_compute; repeat (constructor; [split; [reflexivity|discriminate]|]); constructor).
  intros Hn. rewrite Forall_forall in H. apply H. by apply elem_of_seqZ.
Qed.

Lemma unhex_hex b : Forall is_byte b -> unhex (hex b) = Some b.
Proof.
  induction 1 as [|x b Hx _ IH]; [done|]. unfold is_byte in Hx. cbn [hex unhex].
  destruct (digit_ok (x / 16)) as [-> _]; [split; [apply Z.div_pos; lia|apply Z.div_lt_upper_bound; lia]|].
  destruct (digit_ok (x mod 16)) as [-> _]; [apply Z.mod_pos_bound; lia|]. rewrite IH. cbn. do 2 f_equal.
  pose proof (Z.div_mod x 16). lia.
Qed.

Lemma hex_roundtrip b : Forall is_byte b -> unhex (strip_0x (hex b)) = Some b.
Proof.
  intros Hb. rewrite <-(unhex_hex b Hb). f_equal. destruct Hb as [|x b Hx _]; [done|].
  destruct (digit_ok (x mod 16)) as [_ Hd]; [apply Z.mod_pos_bound; lia|].
  cbn [hex]. unfold strip_0x. cbn [String.prefix]. destruct (ascii_dec "0" _); [|done]. by destruct (ascii_dec "x" _).
Qed.

(** Signatures name their signer. *)
Definition named : SignatureLib :=
  mkSigLib Z Z (fun bytes => Some (Primitive (from_be (take 32 bytes))))
    (fun sig _ => match sig with Primitive s | Keychain s => Some s end) (fun s _ => Some s) (fun _ => P256).
Definition config : ZoneProviderConfig := mkProviderConfig 5 9 600.
Definition no_hash (m : list Z) : Z := 0.
Definition sign42 (d : Z) : option (Z * Z * bool) := Some (42, 7, true).
Definition calls : list (Z * Z) := [(1000, 1000); (1500, 1501); (1580, 1582); (3000, 3000)].

Lemma client_stays_authenticated_witness :
  match zone_provider_new no_hash hex sign42 config 1000 true with
  | Some st =>
    Forall2 (fun c p => forall now now', c.2 - 60 <= now <= c.1 + 30 ->
      exists expiry, authenticate no_hash unhex named (fun _ _ => None) now now' (Some p) (mkAuthConfig 5 9 3600) = Ok (mkAuth 42 expiry None))
      calls (provider_run no_hash hex sign42 config calls st)
  | None => False
  end.
Proof.
  destruct (zone_provider_new no_hash hex sign42 config 1000 true) as [st|] eqn:E; [|by vm_compute in E].
  apply (client_stays_authenticated no_hash hex unhex sign42 named (fun _ _ => None) 42 config (mkAuthConfig 5 9 3600) hex_roundtrip)
    with (i := 1000).
  - intros d. exists (42, 7, true), 42. split; [reflexivity|]. by vm_compute.
  - by vm_compute.
  - by vm_compute.
  - by right.
  - done.
  - by vm_compute.
  - unfold issued. split; [|by vm_compute]. unfold zone_provider_new in E.
    destruct (build_provider_with_token _ _ _ _ _ _) as [[p e]|]; [|done]. by injection E as <-.
  - by vm_compute.
Defined.
End ClientExamples.
