(* ===== verification/RpcLogs.v ===== *)
(** * Private RPC: which logs a caller may see

    Models src/crates/rpc/src/filter.rs and the visibility and filter-scoping
    half of src/crates/rpc/src/darkpool.rs: the per-event party rule, the
    filtering of logs and receipts with their ordering fields renumbered, and
    the narrowing of a user's log filter before it reaches the node.

    A topic is the value of its 32 bytes, so the left-padded word of an address
    is the address.  A [FilterSet] is a finite set.  The Bloom filter of a
    receipt is a parameter. *)

From stdpp Require Import gmap sets.
From S2P Require Import Prelude.
#[local] Open Scope Z_scope.

(** ** Logs *)

Record Log := mkLog {
  log_address : Z;
  log_topics : list Z;
  log_data : list Z;
  log_block_hash : option Z;
  log_block_number : option Z;
  log_block_timestamp : option Z;
  log_transaction_hash : option Z;
  log_transaction_index : option Z;
  log_index : option Z;
  log_removed : bool
}.

Definition topic0 (l : Log) : option Z := log_topics l !! 0%nat.

(** [log.transaction_index = Some(ti); log.log_index = Some(li)] *)
Definition set_ordering (ti li : Z) (l : Log) : Log :=
  mkLog (log_address l) (log_topics l) (log_data l) (log_block_hash l) (log_block_number l)
    (log_block_timestamp l) (log_transaction_hash l) (Some ti) (Some li) (log_removed l).

(** ** filter.rs: topics *)

Definition TRANSFER_TOPIC : Z :=
  0xddf252ad1be2c89b69c2b068fc378daa952ba7f163c4a11628f55a4df523b3ef.
Definition APPROVAL_TOPIC : Z :=
  0x8c5be1e5ebec7d5bd14f71427d1e84f3dd0314c0f7b2291e5b200ac8c7c3b925.
Definition TRANSFER_WITH_MEMO_TOPIC : Z :=
  0x57bc7354aa85aed339e000bccffabbc529466af35f0772c8f8ee1145927de7f0.
Definition MINT_TOPIC : Z :=
  0x0f6798a560793a54c3bcfe86a93cde1e73087d944c0ea20544137d4121396885.
Definition BURN_TOPIC : Z :=
  0xcc16f5dbb4873280815c1ee09dbd06736cffcc184412cf7a71a0fdb75d397ca5.

Definition WHITELISTED_TOPICS : list Z :=
  [TRANSFER_TOPIC; APPROVAL_TOPIC; TRANSFER_WITH_MEMO_TOPIC; MINT_TOPIC; BURN_TOPIC].
Definition TWO_PARTY_TOPICS : list Z := [TRANSFER_TOPIC; APPROVAL_TOPIC; TRANSFER_WITH_MEMO_TOPIC].

(** ** darkpool.rs: events
    [SIGNATURE_HASH] is the Keccak-256 of the event's signature. *)

Definition DARKPOOL_ADDRESS : Z := 0x0B00000000000000000000000000000000000001.
Definition SUBMITTED_TOPIC : Z :=
  0xa36fd2e001ec79b95f5d4cf7ae398394de11536fc63b53d394290b5edb9fbdcd.
Definition PLACED_TOPIC : Z :=
  0x3880219e0fb1e5efc39b08c0cbf4c75dcf92e3be7a64629b209922204624929f.
Definition FILLED_TOPIC : Z :=
  0xfd9472932a63534f036338b09b81c59283a1ea90daac629fb28ea9684d8b3d92.
Definition CANCELLED_TOPIC : Z :=
  0x0b2850e2807d8c93b8f8fd9d713df4365e82b5991f476e9fdc458a077ab5db23.
Definition DARKPOOL_TOPICS : list Z := [SUBMITTED_TOPIC; PLACED_TOPIC; FILLED_TOPIC; CANCELLED_TOPIC].

(** [slice.contains(&x)] *)
Definition contains (l : list Z) (x : Z) : bool := bool_decide (x ∈ l).

(** [B256::left_padding_from(addr.as_slice())] *)
Definition topic_for_address (addr : Z) : Z := addr.

(** [topics.get(i) == Some(&word)] *)
Definition topic_is (l : Log) (i : nat) (word : Z) : bool := bool_decide (log_topics l !! i = Some word).

Definition caller_is_maker (log : Log) (caller : Z) : bool :=
  match topic0 log with
  | None => false
  | Some t0 => if negb (contains DARKPOOL_TOPICS t0) then false
               else topic_is log 2 (topic_for_address caller)
  end.

Definition caller_is_taker (log : Log) (caller : Z) : bool :=
  match topic0 log with
  | None => false
  | Some t0 => if negb (t0 =? FILLED_TOPIC) then false
               else topic_is log 3 (topic_for_address caller)
  end.

Definition caller_is_party (log : Log) (caller : Z) : bool :=
  caller_is_maker log caller || caller_is_taker log caller.

(** ** filter.rs: visibility *)

Definition is_caller_eligible (log : Log) (caller : Z) : bool :=
  match topic0 log with
  | None => false
  | Some t0 =>
    let caller_word := topic_for_address caller in
    if (t0 =? TRANSFER_TOPIC) || (t0 =? APPROVAL_TOPIC) || (t0 =? TRANSFER_WITH_MEMO_TOPIC) then
      topic_is log 1 caller_word || topic_is log 2 caller_word
    else if (t0 =? MINT_TOPIC) || (t0 =? BURN_TOPIC) then topic_is log 1 caller_word
    else false
  end.

Definition is_log_visible (log : Log) (caller : Z) : bool :=
  (match topic0 log with Some t => contains WHITELISTED_TOPICS t | None => false end
   && is_caller_eligible log caller)
  || ((log_address log =? DARKPOOL_ADDRESS) && caller_is_party log caller).

(** ** filter.rs: redaction *)

Record LogOrderingRedactor := mkRedactor { current_tx : option Z; next_index : Z }.
Definition redactor_default : LogOrderingRedactor := mkRedactor None 0.

Definition redact (r : LogOrderingRedactor) (log : Log) : Log * LogOrderingRedactor :=
  let r := if bool_decide (current_tx r = log_transaction_hash log) then r
           else mkRedactor (log_transaction_hash log) 0 in
  (set_ordering 0 (next_index r) log, mkRedactor (current_tx r) (next_index r + 1)).

(** [.map(|log| redactor.redact(log))] *)
Fixpoint redact_all (r : LogOrderingRedactor) (logs : list Log) : list Log :=
  match logs with
  | [] => []
  | log :: rest => let '(log', r') := redact r log in log' :: redact_all r' rest
  end.

(** [.filter(|log| is_log_visible(log, caller))] *)
Definition visible_logs (logs : list Log) (caller : Z) : list Log :=
  filter (fun log => is_log_visible log caller = true) logs.

Definition filter_logs (logs : list Log) (caller : Z) : list Log :=
  redact_all redactor_default (visible_logs logs caller).

(** ** Receipts *)

Section Receipts.
Context {Bloom : Type} (bloom : list Log -> Bloom).

Record TempoTransactionReceipt := mkReceipt {
  r_from : Z;
  r_to : option Z;
  r_transaction_hash : Z;
  r_transaction_index : option Z;
  r_block_hash : option Z;
  r_block_number : option Z;
  r_success : bool;
  r_gas_used : Z;
  r_cumulative_gas_used : Z;
  r_effective_gas_price : Z;
  r_contract_address : option Z;
  r_fee_token : option Z;
  r_fee_payer : Z;
  r_logs : list Log;
  r_logs_bloom : Bloom
}.

Definition filter_receipt_logs (receipt : TempoTransactionReceipt) : TempoTransactionReceipt :=
  let caller := r_from receipt in
  let logs := filter_logs (r_logs receipt) caller in
  mkReceipt (r_from receipt) (r_to receipt) (r_transaction_hash receipt) (Some 0)
    (r_block_hash receipt) (r_block_number receipt) (r_success receipt) (r_gas_used receipt)
    (r_gas_used receipt) (r_effective_gas_price receipt) (r_contract_address receipt)
    (r_fee_token receipt) (r_fee_payer receipt) logs (bloom logs).
End Receipts.

(** ** Filters *)

Inductive BlockNumberOrTag :=
  | Latest | Finalized | Safe | Earliest | Pending
  | Number (n : Z).

Inductive FilterBlockOption :=
  | Range (from_block to_block : option BlockNumberOrTag)
  | AtBlockHash (hash : Z).

Record Filter := mkFilter {
  f_block : FilterBlockOption;
  f_address : gset Z;
  f_topic0 : gset Z;
  f_topic1 : gset Z;
  f_topic2 : gset Z;
  f_topic3 : gset Z
}.

Definition filter_default : Filter := mkFilter (Range None None) ∅ ∅ ∅ ∅ ∅.

Definition set_address (s : gset Z) (f : Filter) : Filter :=
  mkFilter (f_block f) s (f_topic0 f) (f_topic1 f) (f_topic2 f) (f_topic3 f).
Definition set_topic0 (s : gset Z) (f : Filter) : Filter :=
  mkFilter (f_block f) (f_address f) s (f_topic1 f) (f_topic2 f) (f_topic3 f).
Definition set_topic1 (s : gset Z) (f : Filter) : Filter :=
  mkFilter (f_block f) (f_address f) (f_topic0 f) s (f_topic2 f) (f_topic3 f).
Definition set_topic2 (s : gset Z) (f : Filter) : Filter :=
  mkFilter (f_block f) (f_address f) (f_topic0 f) (f_topic1 f) s (f_topic3 f).
Definition set_topic3 (s : gset Z) (f : Filter) : Filter :=
  mkFilter (f_block f) (f_address f) (f_topic0 f) (f_topic1 f) (f_topic2 f) s.

(** The reasons of the [invalid_params] errors of the two scoping functions. *)
Inductive ScopeError :=
  | InvalidFilterAddress
  | CallerNotInFilter
  | DarkpoolTopicsOnly
  | DarkpoolAddressOnly
  | DarkpoolOwnerMissing
  | Topic3OnlyForFills
  | ForeignOwner
  | FillsMixedTopics.

Definition scope_filter_addresses (f : Filter) (zone_tokens : list Z) : result ScopeError Filter :=
  if decide (f_address f = ∅) then Ok (set_address (list_to_set zone_tokens) f)
  else if decide (set_Forall (fun a => a ∈ zone_tokens) (f_address f)) then Ok f
  else Err InvalidFilterAddress.

Definition scope_filter (f : Filter) : Filter :=
  let user_topic0 := f_topic0 f in
  let scoped_topic0 : gset Z :=
    if decide (user_topic0 = ∅) then list_to_set WHITELISTED_TOPICS
    else filter (fun t => t ∈ WHITELISTED_TOPICS) user_topic0 in
  if decide (scoped_topic0 = ∅) then set_topic0 {[ 0 ]} f
  else set_topic0 scoped_topic0 f.

Definition scope_filter_for_caller (f : Filter) (caller : Z) : result ScopeError Filter :=
  let f := scope_filter f in
  if (Nat.eqb (size (f_topic0 f)) 1) && bool_decide (0 ∈ f_topic0 f) then Ok f
  else
    let caller_word := topic_for_address caller in
    if decide (caller_word ∈ f_topic1 f) then Ok (set_topic1 {[ caller_word ]} f)
    else
      let topic0 := filter (fun t => t ∈ TWO_PARTY_TOPICS) (f_topic0 f) in
      if decide (caller_word ∈ f_topic2 f /\ topic0 <> ∅) then
        Ok (set_topic2 {[ caller_word ]} (set_topic0 topic0 f))
      else Err CallerNotInFilter.

(** [Ok(true)] is a scoped darkpool filter, [Ok(false)] the filter untouched. *)
Definition scope_darkpool_event_filter (f : Filter) (caller : Z) : result ScopeError (bool * Filter) :=
  let requested_topics := f_topic0 f in
  let requested_addresses := f_address f in
  let requests_darkpool :=
    bool_decide (DARKPOOL_ADDRESS ∈ requested_addresses) ||
    bool_decide (set_Exists (fun t => t ∈ DARKPOOL_TOPICS) requested_topics) in
  if negb requests_darkpool then Ok (false, f)
  else if bool_decide (requested_topics = ∅) ||
          bool_decide (set_Exists (fun t => t ∉ DARKPOOL_TOPICS) requested_topics) then
    Err DarkpoolTopicsOnly
  else if decide (set_Exists (fun a => a <> DARKPOOL_ADDRESS) requested_addresses) then
    Err DarkpoolAddressOnly
  else
    let caller_topic := topic_for_address caller in
    let maker_requested := bool_decide (caller_topic ∈ f_topic2 f) in
    let taker_requested := bool_decide (caller_topic ∈ f_topic3 f) in
    if negb maker_requested && negb taker_requested then Err DarkpoolOwnerMissing
    else if taker_requested &&
            bool_decide (set_Exists (fun t => t <> FILLED_TOPIC) requested_topics) then
      Err Topic3OnlyForFills
    else if decide (set_Exists (fun t => t <> caller_topic) (f_topic2 f)) then Err ForeignOwner
    else
      let f := if maker_requested then set_topic2 {[ caller_topic ]} f else f in
      if decide (set_Exists (fun t => t <> caller_topic) (f_topic3 f)) then Err ForeignOwner
      else
        let f := if taker_requested then set_topic3 {[ caller_topic ]} f else f in
        Ok (true, set_topic0 requested_topics (set_address {[ DARKPOOL_ADDRESS ]} f)).

Definition scope_maker_fill_subscription (f : Filter) (caller : Z) : result ScopeError (bool * Filter) :=
  let requested_topics := f_topic0 f in
  if negb (bool_decide (FILLED_TOPIC ∈ requested_topics)) then Ok (false, f)
  else if negb (Nat.eqb (size requested_topics) 1) then Err FillsMixedTopics
  else scope_darkpool_event_filter f caller.

(** ** The documented meaning of [eth_getLogs] address and topic filters
    An empty set matches everything; otherwise the position must hold one of
    its members. *)

Definition topic_matches (s : gset Z) (t : option Z) : Prop :=
  s = ∅ \/ exists x, t = Some x /\ x ∈ s.

Definition matches (f : Filter) (log : Log) : Prop :=
  (f_address f = ∅ \/ log_address log ∈ f_address f) /\
  topic_matches (f_topic0 f) (log_topics log !! 0%nat) /\
  topic_matches (f_topic1 f) (log_topics log !! 1%nat) /\
  topic_matches (f_topic2 f) (log_topics log !! 2%nat) /\
  topic_matches (f_topic3 f) (log_topics log !! 3%nat).

#[export] Instance topic_matches_dec s t : Decision (topic_matches s t).
Proof.
  unfold topic_matches. destruct t as [x|].
  - destruct (decide (s = ∅)) as [E|E]; [by left; left|].
    destruct (decide (x ∈ s)) as [E'|E']; [left; right; by exists x|].
    right. intros [|(y & [= ->] & ?)]; done.
  - destruct (decide (s = ∅)) as [E|E]; [by left; left|].
    right. intros [|(y & ? & ?)]; done.
Defined.
#[export] Instance matches_dec f log : Decision (matches f log).
Proof. unfold matches. apply _. Defined.
