(* ===== verification/RpcLogsProofs.v ===== *)
(** * Private RPC log visibility: proofs

    Only parties to an event see it; what a caller sees does not depend on the
    logs of others, not even through the ordering fields; a scoped filter asks
    the node only for the caller's logs. *)

From stdpp Require Import gmap sets.
From S2P Require Import Prelude.
From S2P Require Import RpcLogs.
#[local] Open Scope Z_scope.

(** ** Parties *)

(** The accounts an event is about. *)
Definition party (log : Log) (caller : Z) : Prop :=
  exists t0, topic0 log = Some t0 /\
    ((t0 ∈ TWO_PARTY_TOPICS /\ (log_topics log !! 1%nat = Some caller \/ log_topics log !! 2%nat = Some caller)) \/
     (t0 ∈ [MINT_TOPIC; BURN_TOPIC] /\ log_topics log !! 1%nat = Some caller) \/
     (log_address log = DARKPOOL_ADDRESS /\
      ((t0 ∈ DARKPOOL_TOPICS /\ log_topics log !! 2%nat = Some caller) \/
       (t0 = FILLED_TOPIC /\ log_topics log !! 3%nat = Some caller)))).

Lemma contains_true l x : contains l x = true <-> x ∈ l.
Proof. apply bool_decide_eq_true. Qed.
Lemma topic_is_true l i w : topic_is l i w = true <-> log_topics l !! i = Some w.
Proof. apply bool_decide_eq_true. Qed.
#[export] Hint Rewrite contains_true topic_is_true andb_true_iff orb_true_iff Z.eqb_eq : zone.

Lemma caller_is_party_true log caller :
  caller_is_party log caller = true <->
  exists t0, topic0 log = Some t0 /\
    ((t0 ∈ DARKPOOL_TOPICS /\ log_topics log !! 2%nat = Some caller) \/
     (t0 = FILLED_TOPIC /\ log_topics log !! 3%nat = Some caller)).
Proof.
  unfold caller_is_party, caller_is_maker, caller_is_taker, topic_for_address.
  destruct (topic0 log) as [t0|]; [|split; [done|intros (? & ? & _); done]].
  rewrite orb_true_iff.
  destruct (contains DARKPOOL_TOPICS t0) eqn:Ec, (Z.eqb_spec t0 FILLED_TOPIC) as [Ef|Ef]; cbn [negb];
    rewrite ?topic_is_true.
  all: try apply contains_true in Ec.
  all: try (assert (Hn : t0 ∉ DARKPOOL_TOPICS) by (intros Hc; apply contains_true in Hc; congruence)).
  all: split; [intros H; exists t0; split; [done|]; intuition congruence|].
  all: intros (? & [= <-] & H); intuition congruence.
Qed.

Lemma eligible_true log caller :
  is_caller_eligible log caller = true <->
  exists t0, topic0 log = Some t0 /\
    ((t0 ∈ TWO_PARTY_TOPICS /\ (log_topics log !! 1%nat = Some caller \/ log_topics log !! 2%nat = Some caller)) \/
     (t0 ∈ [MINT_TOPIC; BURN_TOPIC] /\ log_topics log !! 1%nat = Some caller)).
Proof.
  unfold is_caller_eligible, topic_for_address.
  destruct (topic0 log) as [t0|]; [|split; [done|intros (? & ? & _); done]].
  assert (H1 : (t0 =? TRANSFER_TOPIC) || (t0 =? APPROVAL_TOPIC) || (t0 =? TRANSFER_WITH_MEMO_TOPIC) = true <->
               t0 ∈ TWO_PARTY_TOPICS).
  { unfold TWO_PARTY_TOPICS. rewrite !orb_true_iff, !Z.eqb_eq. set_solver. }
  assert (H2 : (t0 =? MINT_TOPIC) || (t0 =? BURN_TOPIC) = true <-> t0 ∈ [MINT_TOPIC; BURN_TOPIC]).
  { rewrite !orb_true_iff, !Z.eqb_eq. set_solver. }
  assert (Hd : t0 ∈ TWO_PARTY_TOPICS -> t0 ∈ [MINT_TOPIC; BURN_TOPIC] -> False).
  { unfold TWO_PARTY_TOPICS. rewrite !elem_of_cons, !elem_of_nil. intros ? ?.
    repeat match goal with H : _ \/ _ |- _ => destruct H end; subst; done. }
  set (b1 := _ || _ || _) in *. set (b2 := _ || _) in H2 |- *.
  destruct b1 eqn:E1; [|destruct b2 eqn:E2]; rewrite ?orb_true_iff, ?topic_is_true.
  - split; [intros H; exists t0; split; [done|]; left; by rewrite <-H1|].
    intros (? & [= <-] & [[_ ?]|[? _]]); [done|]. exfalso. apply Hd; [by apply H1|done].
  - split; [intros H; exists t0; split; [done|]; right; by rewrite <-H2|].
    intros (? & [= <-] & [[Ht _]|[_ ?]]); [|done]. apply H1 in Ht. congruence.
  - split; [done|]. intros (? & [= <-] & [[Ht _]|[Ht _]]); [apply H1 in Ht|apply H2 in Ht]; congruence.
Qed.

Lemma visible_party log caller : is_log_visible log caller = true <-> party log caller.
Proof.
  unfold is_log_visible, party. rewrite orb_true_iff, !andb_true_iff, Z.eqb_eq, caller_is_party_true, eligible_true.
  split.
  - intros [[_ (t0 & ? & [?|?])]|[? (t0 & ? & ?)]]; exists t0; (split; [done|]); tauto.
  - intros (t0 & Ht & [Hp|[Hp|Hp]]).
    + left. split; [|by exists t0; split; [|left]]. rewrite Ht, contains_true. destruct Hp as [Hp _].
      unfold WHITELISTED_TOPICS, TWO_PARTY_TOPICS in *. set_solver.
    + left. split; [|by exists t0; split; [|right]]. rewrite Ht, contains_true. destruct Hp as [Hp _].
      unfold WHITELISTED_TOPICS. set_solver.
    + right. split; [tauto|]. exists t0. split; [done|]. tauto.
Qed.

(** ** Redaction *)

(** A log without its position in the block. *)
Definition hide (l : Log) : Log := set_ordering 0 0 l.

Lemma visible_hide l caller : is_log_visible (hide l) caller = is_log_visible l caller.
Proof. done. Qed.

Lemma set_ordering_hide ti li l : set_ordering ti li (hide l) = set_ordering ti li l.
Proof. done. Qed.

(** The renumbered logs are a function of the hidden ones. *)
Lemma redact_all_hide r l1 l2 : hide <$> l1 = hide <$> l2 -> redact_all r l1 = redact_all r l2.
Proof.
  revert r l2. induction l1 as [|a l1 IH]; intros r [|b l2] H; try done.
  cbn [fmap list_fmap] in H. injection H as H0 H. fold (hide a) in H0.
  assert (Ht : log_transaction_hash a = log_transaction_hash b).
  { change (log_transaction_hash (hide a) = log_transaction_hash (hide b)). unfold hide, set_ordering. cbn. congruence. }
  assert (Ho : forall n, set_ordering 0 n a = set_ordering 0 n b).
  { intros n. unfold set_ordering. congruence. }
  cbn [redact_all]. unfold redact. rewrite Ht, Ho. f_equal. by apply IH.
Qed.

Lemma hide_redact_all r ls : hide <$> redact_all r ls = hide <$> ls.
Proof.
  revert r. induction ls as [|l ls IH]; intros r; [done|].
  cbn [redact_all redact]. cbn. by rewrite IH.
Qed.

(** Equal hashes are next to each other, as in a block. *)
Fixpoint grouped (hs : list (option Z)) : Prop :=
  match hs with
  | [] => True
  | h :: rest => (h ∉ rest \/ head rest = Some h) /\ grouped rest
  end.

Definition log_id (l : Log) : option Z * option Z := (log_transaction_hash l, log_index l).

Lemma redact_ids r ls h i :
  (h, i) ∈ log_id <$> redact_all r ls -> h ∈ log_transaction_hash <$> ls.
Proof.
  intros (l & [= -> ->] & Hl)%list_elem_of_fmap.
  apply (list_elem_of_fmap_2 hide) in Hl. rewrite hide_redact_all in Hl.
  apply list_elem_of_fmap in Hl as (l' & E & Hl'). apply (f_equal log_transaction_hash) in E.
  cbn in E. rewrite E. by apply list_elem_of_fmap_2.
Qed.

(** The identifiers given to [l :: ls]. *)
Lemma redact_ids_cons r l ls :
  log_id <$> redact_all r (l :: ls) =
  let n := if bool_decide (current_tx r = log_transaction_hash l) then next_index r else 0 in
  (log_transaction_hash l, Some n) :: (log_id <$> redact_all (mkRedactor (log_transaction_hash l) (n + 1)) ls).
Proof. cbn [redact_all redact]. case_bool_decide as Hc; cbn; [|done]. by rewrite Hc. Qed.

Lemma redact_ids_unique r ls :
  grouped (log_transaction_hash <$> ls) ->
  NoDup (log_id <$> redact_all r ls) /\
  (head (log_transaction_hash <$> ls) = Some (current_tx r) \/ current_tx r ∉ log_transaction_hash <$> ls ->
   forall i, (current_tx r, Some i) ∈ log_id <$> redact_all r ls -> next_index r <= i).
Proof.
  revert r. induction ls as [|l ls IH]; intros r Hg; [split; [apply NoDup_nil_2|intros _ i Hi; cbn in Hi; set_solver]|].
  rewrite redact_ids_cons. cbv zeta. set (n := if bool_decide _ then _ else _).
  destruct Hg as [Hl Hg].
  destruct (IH (mkRedactor (log_transaction_hash l) (n + 1)) Hg) as [IH1 IH2].
  assert (Hl' : head (log_transaction_hash <$> ls) = Some (log_transaction_hash l) \/
                log_transaction_hash l ∉ log_transaction_hash <$> ls) by (destruct Hl; auto).
  cbn [current_tx next_index] in IH2. specialize (IH2 Hl'). split.
  - apply NoDup_cons_2; [|done]. intros Hi. apply IH2 in Hi. lia.
  - intros Hr i Hi. subst n. case_bool_decide as Hc.
    + apply elem_of_cons in Hi as [E|Hi]; [injection E; intros; lia|].
      rewrite Hc in Hi. apply IH2 in Hi. lia.
    + apply elem_of_cons in Hi as [E|Hi]; [congruence|]. exfalso. apply redact_ids in Hi.
      destruct Hr as [Hr|Hr]; [cbn in Hr; congruence|]. apply Hr. by right.
Qed.

Lemma grouped_filter (P : Log -> Prop) `{!forall l, Decision (P l)} ls :
  grouped (log_transaction_hash <$> ls) -> grouped (log_transaction_hash <$> filter P ls).
Proof.
  induction ls as [|l ls IH]; [done|]. cbn [fmap list_fmap grouped]. intros [Hl Hg].
  fold (fmap log_transaction_hash ls) in *.
  rewrite filter_cons. destruct (decide (P l)); [|by apply IH].
  cbn [fmap list_fmap grouped]. fold (fmap log_transaction_hash (filter P ls)). split; [|by apply IH].
  clear IH. destruct (decide (log_transaction_hash l ∈ log_transaction_hash <$> filter P ls)) as [Hi|]; [|by left].
  right. destruct Hl as [Hl|Hl].
  { exfalso. apply Hl. apply list_elem_of_fmap in Hi as (x & -> & Hx). apply list_elem_of_fmap_2.
    by apply list_elem_of_filter in Hx as [_ ?]. }
  revert Hl Hi. generalize (log_transaction_hash l) as h. intros h.
  induction ls as [|a ls IH]; [done|]. cbn [fmap list_fmap head]. intros [= <-].
  rewrite filter_cons. destruct (decide (P a)); [done|]. cbn [grouped fmap list_fmap] in Hg.
  fold (fmap log_transaction_hash ls) in *. destruct Hg as [Ha Hg]. intros Hi.
  destruct Ha as [Ha|Ha]; [|by apply IH].
  exfalso. apply Ha. apply list_elem_of_fmap in Hi as (x & Ex & Hx). rewrite Ex. apply list_elem_of_fmap_2.
  by apply list_elem_of_filter in Hx as [_ ?].
Qed.

(** C19. Log privacy.  A caller is shown exactly the events it is a party to
    (sender, receiver, owner, spender, maker or taker), in order and with
    everything but their position unchanged; what is shown is a function of
    those events alone, so that other accounts' logs, which shift every
    position in a block, cannot be noticed; and the identifiers shown,
    (transaction, index), are unique when the logs of a transaction are
    contiguous. *)
Theorem log_privacy caller :
  (forall logs, hide <$> filter_logs logs caller =
                hide <$> filter (fun l => is_log_visible l caller = true) logs) /\
  (forall logs l, l ∈ filter_logs logs caller -> party l caller) /\
  (forall logs l, l ∈ logs -> party l caller -> hide l ∈ hide <$> filter_logs logs caller) /\
  (forall logs1 logs2,
     hide <$> visible_logs logs1 caller = hide <$> visible_logs logs2 caller ->
     filter_logs logs1 caller = filter_logs logs2 caller) /\
  (forall logs, grouped (log_transaction_hash <$> logs) -> NoDup (log_id <$> filter_logs logs caller)).
Proof.
  assert (Hh : forall logs, hide <$> filter_logs logs caller = hide <$> visible_logs logs caller).
  { intros logs. apply hide_redact_all. }
  split; [exact Hh|]. split; [|split; [|split]].
  - intros logs l Hl. apply (list_elem_of_fmap_2 hide) in Hl. rewrite Hh in Hl.
    apply list_elem_of_fmap in Hl as (x & E & Hx). apply list_elem_of_filter in Hx as [Hx _].
    apply visible_party. by rewrite <-visible_hide, E, visible_hide.
  - intros logs l Hl Hp. rewrite Hh. apply list_elem_of_fmap_2, list_elem_of_filter. by rewrite visible_party.
  - intros l1 l2 H. by apply redact_all_hide.
  - intros logs Hg. by apply redact_ids_unique, grouped_filter.
Qed.

(** ** Receipts *)

(** Two receipts of one transaction that differ in the logs of others, in the
    position in the block and in the gas used before them look alike. *)
Lemma receipt_redacted {Bloom} (bloom : list Log -> Bloom) r1 r2 :
  r_from r1 = r_from r2 -> r_to r1 = r_to r2 -> r_transaction_hash r1 = r_transaction_hash r2 ->
  r_block_hash r1 = r_block_hash r2 -> r_block_number r1 = r_block_number r2 ->
  r_success r1 = r_success r2 -> r_gas_used r1 = r_gas_used r2 ->
  r_effective_gas_price r1 = r_effective_gas_price r2 -> r_contract_address r1 = r_contract_address r2 ->
  r_fee_token r1 = r_fee_token r2 -> r_fee_payer r1 = r_fee_payer r2 ->
  hide <$> visible_logs (r_logs r1) (r_from r1) = hide <$> visible_logs (r_logs r2) (r_from r2) ->
  filter_receipt_logs bloom r1 = filter_receipt_logs bloom r2.
Proof.
  intros Hf Ht Hh Hb Hn Hs Hg Hp Hc Hft Hfp Hl.
  assert (E : filter_logs (r_logs r1) (r_from r1) = filter_logs (r_logs r2) (r_from r2)).
  { by apply redact_all_hide. }
  unfold filter_receipt_logs. cbv zeta. by rewrite E, Hf, Ht, Hh, Hb, Hn, Hs, Hg, Hp, Hc, Hft, Hfp.
Qed.

(** ** Scoping *)

Lemma topic_matches_sub s1 s2 t :
  s1 ⊆ s2 -> s1 <> ∅ -> topic_matches s1 t -> topic_matches s2 t.
Proof. intros Hs Hn [->|(x & -> & Hx)]; [done|]. right. exists x. set_solver. Qed.

Lemma topic_matches_singleton x t : topic_matches {[ x ]} t <-> t = Some x.
Proof.
  split.
  - intros [E|(y & -> & Hy)]; [exfalso; set_solver|]. f_equal. set_solver.
  - intros ->. right. exists x. set_solver.
Qed.

Lemma topic_matches_Some s t : s <> ∅ -> topic_matches s t -> exists x, t = Some x /\ x ∈ s.
Proof. by intros Hn [?|?]. Qed.

(** The first topics a scoped filter asks for. *)
Lemma scope_filter_topic0 f :
  f_topic0 (scope_filter f) = {[ 0 ]} \/
  (f_topic0 (scope_filter f) <> ∅ /\ (forall t, t ∈ f_topic0 (scope_filter f) -> t ∈ WHITELISTED_TOPICS) /\
   (f_topic0 f = ∅ \/ f_topic0 (scope_filter f) ⊆ f_topic0 f)).
Proof.
  unfold scope_filter. cbv zeta. set (s := if decide (f_topic0 f = ∅) then _ else _).
  destruct (decide (s = ∅)) as [E|E]; [by left|right].
  cbn [f_topic0 set_topic0]. split; [done|]. subst s.
  destruct (decide (f_topic0 f = ∅)) as [E0|E0].
  - split; [|by left]. intros t Ht. by apply elem_of_list_to_set in Ht.
  - split; [|right; set_solver]. intros t Ht. by apply elem_of_filter in Ht as [? _].
Qed.

Lemma scope_filter_rest f :
  f_address (scope_filter f) = f_address f /\ f_topic1 (scope_filter f) = f_topic1 f /\
  f_topic2 (scope_filter f) = f_topic2 f /\ f_topic3 (scope_filter f) = f_topic3 f.
Proof. unfold scope_filter. cbv zeta. set (s := if decide (f_topic0 f = ∅) then _ else _).
  by destruct (decide (s = ∅)). Qed.

Lemma whitelisted_topic1 log t caller :
  topic0 log = Some t -> t ∈ WHITELISTED_TOPICS -> log_topics log !! 1%nat = Some caller -> party log caller.
Proof.
  intros Ht Hw H1. exists t. split; [done|]. unfold WHITELISTED_TOPICS, TWO_PARTY_TOPICS in *. set_solver.
Qed.

Lemma scope_filter_for_caller_sound f caller f' log :
  scope_filter_for_caller f caller = Ok f' -> matches f' log ->
  topic0 log = Some 0 \/ (matches f log /\ party log caller).
Proof.
  unfold scope_filter_for_caller.
  destruct (scope_filter_rest f) as (Ea & E1 & E2 & E3).
  destruct (scope_filter_topic0 f) as [E0|(Hn & Hw & Hs)].
  { rewrite E0. rewrite size_singleton, bool_decide_true by set_solver. cbn.
    intros [= <-] (_ & H0 & _). left. rewrite E0 in H0. by apply topic_matches_singleton in H0. }
  assert (H0 : forall s, s ⊆ f_topic0 (scope_filter f) -> s <> ∅ ->
    topic_matches s (topic0 log) -> topic_matches (f_topic0 f) (topic0 log)).
  { intros s Hs1 Hs2 Hm. destruct Hs as [->|Hs]; [by left|]. eapply topic_matches_sub; [|exact Hs2|exact Hm]. set_solver. }
  destruct (_ && _) eqn:Ez.
  { apply andb_true_iff in Ez as [_ Ez]. apply bool_decide_eq_true in Ez. apply Hw in Ez.
    exfalso. unfold WHITELISTED_TOPICS in Ez. rewrite !elem_of_cons, elem_of_nil in Ez.
    repeat destruct Ez as [Ez|Ez]; done. }
  destruct (decide (topic_for_address caller ∈ f_topic1 (scope_filter f))) as [H1|H1].
  - intros [= <-] (Ma & M0 & M1 & M2 & M3). cbn in *. rewrite Ea, E2, E3 in *. right.
    apply topic_matches_singleton in M1.
    destruct (topic_matches_Some _ _ Hn M0) as (t & Ht & Hti). split.
    + split; [done|]. split; [by eapply H0|]. split; [|done]. right. rewrite E1 in H1. by exists caller.
    + eapply whitelisted_topic1; [exact Ht|by apply Hw|done].
  - destruct (decide (_ /\ _)) as [[H2 H2']|]; [|done].
    intros [= <-] (Ma & M0 & M1 & M2 & M3). cbn in *. rewrite Ea, E1, E3 in *. right.
    apply topic_matches_singleton in M2.
    destruct (topic_matches_Some _ _ H2' M0) as (t & Ht & Hti). apply elem_of_filter in Hti as [Ht2 Hti]. split.
    + split; [done|]. split; [eapply H0; [|exact H2'|exact M0]; set_solver|]. split; [done|]. split; [|done].
      right. rewrite E2 in H2. by exists caller.
    + exists t. split; [done|]. left. auto.
Qed.

Lemma not_exists_ne (s : gset Z) x : ~ set_Exists (fun t => t <> x) s -> forall y, y ∈ s -> y = x.
Proof. intros H y Hy. destruct (decide (y = x)); [done|]. exfalso. apply H. by exists y. Qed.

Lemma only_member (s : gset Z) x : x ∈ s -> (forall y, y ∈ s -> y = x) -> s = {[ x ]}.
Proof. intros Hx H. apply set_eq. intros y. rewrite elem_of_singleton. split; [apply H|by intros ->]. Qed.

(** Either the filter is left alone and does not name the darkpool, or it is
    what was asked for, on the darkpool alone, with the caller as its owner. *)
Lemma scope_darkpool_inv f caller b f' :
  scope_darkpool_event_filter f caller = Ok (b, f') ->
  (b = false /\ f' = f /\ DARKPOOL_ADDRESS ∉ f_address f) \/
  (b = true /\ f' = set_address {[ DARKPOOL_ADDRESS ]} f /\
   (f_address f = ∅ \/ f_address f = {[ DARKPOOL_ADDRESS ]}) /\
   f_topic0 f <> ∅ /\ (forall t, t ∈ f_topic0 f -> t ∈ DARKPOOL_TOPICS) /\
   (f_topic2 f = {[ caller ]} \/
    (f_topic3 f = {[ caller ]} /\ forall t, t ∈ f_topic0 f -> t = FILLED_TOPIC))).
Proof.
  unfold scope_darkpool_event_filter, topic_for_address.
  destruct (_ || _) eqn:Er at 1; cbn [negb]; [|].
  2: { intros [= <- <-]. left. split; [done|]. split; [done|].
       apply orb_false_iff in Er as [Er _]. by apply bool_decide_eq_false in Er. }
  clear Er. destruct (_ || _) eqn:Et; [done|]. apply orb_false_iff in Et as [Et1 Et2].
  apply bool_decide_eq_false in Et1, Et2.
  destruct (decide _) as [|Ea]; [done|].
  destruct (negb _ && negb _) eqn:Eo; [done|].
  destruct (_ && _) eqn:E3 in |- *; [done|].
  destruct (decide _) as [|E2]; [done|]. 
  assert (Ht : forall t, t ∈ f_topic0 f -> t ∈ DARKPOOL_TOPICS).
  { intros t Hi. destruct (decide (t ∈ DARKPOOL_TOPICS)); [done|]. exfalso. apply Et2. by exists t. }
  pose proof (not_exists_ne _ _ Ea) as Ha. pose proof (not_exists_ne _ _ E2) as H2.
  destruct (bool_decide (caller ∈ f_topic2 f)) eqn:Em; cbn [f_topic3 set_topic2];
    (destruct (decide _) as [|E3']; [done|]); pose proof (not_exists_ne _ _ E3') as H3;
    destruct (bool_decide (caller ∈ f_topic3 f)) eqn:Ek; try done; intros [= <- <-]; right;
    rewrite ?bool_decide_eq_true in *.
  all: split; [done|].
  all: assert (Haddr : f_address f = ∅ \/ f_address f = {[ DARKPOOL_ADDRESS ]})
         by (destruct (decide (f_address f = ∅)); [by left|right; apply only_member; [|done];
             destruct (set_choose_L (f_address f) ltac:(done)) as [y Hy]; by rewrite <-(Ha y Hy)]).
  1,2: assert (Hs : f_topic2 f = {[ caller ]}) by (by apply only_member).
  1,3: assert (Hs3 : f_topic3 f = {[ caller ]}) by (by apply only_member).
  all: split; [destruct f; cbn in *; subst; done|].
  all: repeat (split; [done|]).
  all: try (left; exact Hs).
  right. split; [exact Hs3|]. cbn in E3. apply bool_decide_eq_false in E3. by apply not_exists_ne.
Qed.

Lemma scope_darkpool_party f caller f' log :
  scope_darkpool_event_filter f caller = Ok (true, f') -> matches f' log ->
  log_address log = DARKPOOL_ADDRESS /\ caller_is_party log caller = true /\ matches f log.
Proof.
  intros [(? & _)|(_ & -> & Ha & Hn & Ht & Ho)]%scope_darkpool_inv (Ma & M0 & M1 & M2 & M3); [done|].
  cbn in *. assert (Hd : log_address log = DARKPOOL_ADDRESS) by (destruct Ma as [E|E]; set_solver).
  split; [done|]. split.
  - destruct (topic_matches_Some _ _ Hn M0) as (t & E0 & Hi). apply caller_is_party_true. exists t. split; [done|].
    destruct Ho as [E2|[E3 Hf]].
    + left. split; [by apply Ht|]. by rewrite E2, topic_matches_singleton in M2.
    + right. split; [by apply Hf|]. by rewrite E3, topic_matches_singleton in M3.
  - split; [|done]. destruct Ha as [->| ->]; [by left|right; set_solver].
Qed.

(** Scoping is what keeps a user filter from probing other accounts: when the
    node accepts a filter for log retrieval (TIP-20 or darkpool), every log
    that its scoped form can match was asked for by the user and is about the
    caller -- or it has the zero topic that stands for "nothing".  A darkpool
    filter keeps every darkpool log the user asked for. *)
Theorem scoped_filters_disclose_only_own f caller :
  (forall f' log, scope_filter_for_caller f caller = Ok f' -> matches f' log ->
     topic0 log = Some 0 \/ (matches f log /\ party log caller)) /\
  (forall f' log, scope_darkpool_event_filter f caller = Ok (true, f') ->
     (matches f' log <-> matches f log /\ log_address log = DARKPOOL_ADDRESS) /\
     (matches f' log -> party log caller)) /\
  (forall f', scope_darkpool_event_filter f caller = Ok (false, f') ->
     f' = f /\ DARKPOOL_ADDRESS ∉ f_address f) /\
  (forall f' log, scope_maker_fill_subscription f caller = Ok (true, f') -> matches f' log ->
     log_address log = DARKPOOL_ADDRESS /\ topic0 log = Some FILLED_TOPIC /\ party log caller).
Proof.
  assert (Hp : forall log, log_address log = DARKPOOL_ADDRESS -> caller_is_party log caller = true -> party log caller).
  { intros log Ha Hc. apply visible_party. unfold is_log_visible. rewrite Ha, Hc. apply orb_true_iff. by right. }
  split; [|split; [|split]].
  - intros f' log. apply scope_filter_for_caller_sound.
  - intros f' log Hs. split; [split|].
    + intros Hm. by destruct (scope_darkpool_party _ _ _ _ Hs Hm) as (? & _ & ?).
    + apply scope_darkpool_inv in Hs as [(? & _)|(_ & -> & _)]; [done|].
      intros [(_ & Hm) Ha]. split; [|exact Hm]. right. cbn. set_solver.
    + intros Hm. destruct (scope_darkpool_party _ _ _ _ Hs Hm) as (? & ? & _). by apply Hp.
  - intros f' Hs. by apply scope_darkpool_inv in Hs as [(_ & ? & ?)|(? & _)].
  - intros f' log. unfold scope_maker_fill_subscription.
    destruct (bool_decide (FILLED_TOPIC ∈ _)) eqn:Ef; cbn [negb]; [|done]. apply bool_decide_eq_true in Ef.
    destruct (Nat.eqb_spec (size (f_topic0 f)) 1) as [Es|]; cbn [negb]; [|done].
    intros Hs Hm. destruct (scope_darkpool_party _ _ _ _ Hs Hm) as (Ha & Hc & (_ & M0 & _)).
    split; [done|]. split; [|by apply Hp].
    apply size_1_elem_of in Es as [x Hx]. apply leibniz_equiv in Hx. rewrite Hx in Ef, M0.
    apply elem_of_singleton in Ef as <-. by apply topic_matches_singleton in M0.
Qed.

(** The renumbered index of a log depends on the filter that fetched it: of
    one transaction with an approval and a transfer of the caller, the receipt
    numbers the transfer 1, while a query for transfers alone numbers it 0, the
    identifier the receipt gives to the approval. *)
Theorem log_index_depends_on_query :
  let caller := 7 in
  let log t i := mkLog 0x20C0 [t; caller; 9] [] None (Some 3) None (Some 100) (Some 0) (Some i) false in
  let receipt := [log APPROVAL_TOPIC 4; log TRANSFER_TOPIC 5] in
  let query := set_topic0 {[ TRANSFER_TOPIC ]} (set_topic1 {[ caller ]} filter_default) in
  scope_filter_for_caller query caller = Ok query /\
  ((fun l => (topic0 l, log_id l)) <$> filter_logs receipt caller) =
    [(Some APPROVAL_TOPIC, (Some 100, Some 0)); (Some TRANSFER_TOPIC, (Some 100, Some 1))] /\
  ((fun l => (topic0 l, log_id l)) <$> filter_logs (filter (matches query) receipt) caller) =
    [(Some TRANSFER_TOPIC, (Some 100, Some 0))].
Proof. vm_compute. done. Qed.
