(* ===== verification/RpcHistory.v ===== *)
(** * Private RPC: owner-scoped order, fill and transfer history

    Models the history half of src/crates/rpc/src/darkpool.rs and the handlers
    [zone_get_my_orders], [zone_get_my_fills], [zone_get_my_transfers] and
    [zone_get_order] of src/crates/node/src/rpc.rs.

    Parameters: the log store of the node ([eth_logs], [None] is its error),
    the ABI decoder that the [sol!] events generate ([decode_log], the event
    that the log's first topic selects) and the address parser of the alloy
    crates.  [BTreeMap] is the sorted association list of [BTree]; [sort_by]
    is stable, as Rust's. *)

From stdpp Require Import gmap sets strings.
From S2P Require Import Prelude.
From S2P Require Import BTree.
From S2P Require Import OrderbookModel.
From S2P Require Import RpcLogs.
From S2P Require Import Ecies.
#[local] Open Scope Z_scope.

(** ** Data *)

Inductive Side := Bid | Ask.
Inductive OrderKind := Limit | Market.
Inductive TimeInForce := Gtc | Ioc | Fok.
Inductive CancelReason := User | IocRemainder.
Inductive OrderStatus := Open | PartiallyFilled | Filled | Cancelled.
Inductive FillRole := Maker | Taker.
Inductive TransferDirection := In | Out.

#[export] Instance OrderStatus_eq_dec : EqDecision OrderStatus.
Proof. solve_decision. Defined.
#[export] Instance FillRole_eq_dec : EqDecision FillRole.
Proof. solve_decision. Defined.

Definition kind_from_abi (value : Z) : option OrderKind :=
  if value =? ORDER_KIND_LIMIT then Some Limit
  else if value =? ORDER_KIND_MARKET then Some Market else None.
Definition tif_from_abi (value : Z) : option TimeInForce :=
  if value =? TIME_IN_FORCE_GTC then Some Gtc
  else if value =? TIME_IN_FORCE_IOC then Some Ioc
  else if value =? TIME_IN_FORCE_FOK then Some Fok else None.
Definition reason_from_abi (value : Z) : option CancelReason :=
  if value =? CANCEL_REASON_USER then Some User
  else if value =? CANCEL_REASON_IOC_REMAINDER then Some IocRemainder else None.

Record OrderEntry := mkOrderEntry {
  oe_order_id : Z;
  oe_side : Side;
  oe_order_kind : OrderKind;
  oe_time_in_force : TimeInForce;
  oe_status : OrderStatus;
  oe_base_token : Z;
  oe_quote_token : Z;
  oe_amount : Z;
  oe_remaining : Z;
  oe_filled : Z;
  oe_price_limit : Z;
  oe_cancelled : Z;
  oe_cancel_reason : option CancelReason;
  oe_created_at_block : Z;
  oe_updated_at_block : Z;
  oe_created_tx_hash : Z;
  oe_cancel_tx_hash : option Z
}.

Record FillEntry := mkFillEntry {
  fe_order_id : Z;
  fe_role : FillRole;
  fe_side : Side;
  fe_order_kind : OrderKind;
  fe_time_in_force : TimeInForce;
  fe_base_token : Z;
  fe_quote_token : Z;
  fe_amount_filled : Z;
  fe_price : Z;
  fe_block_number : Z;
  fe_tx_hash : Z;
  fe_log_index : Z
}.

Record TransferEntry := mkTransferEntry {
  te_token : Z;
  te_counterparty : Z;
  te_amount : Z;
  te_direction : TransferDirection;
  te_block_number : Z;
  te_tx_hash : Z;
  te_log_index : Z
}.

Record Page (T : Type) := mkPage { items : list T; next_cursor : option string }.
Arguments mkPage {T}. Arguments items {T}. Arguments next_cursor {T}.

Record HistoryQuery := mkHistoryQuery {
  q_account : option Z;
  q_pair : option string;
  q_status : option OrderStatus;
  q_cursor : option string;
  q_limit : option Z
}.

Record TransferQuery := mkTransferQuery {
  tq_account : option Z;
  tq_cursor : option string;
  tq_limit : option Z
}.

(** The errors of these methods. *)
Inductive HistoryError :=
  | AccountMismatch
  | MalformedCursor
  | MalformedPair
  | InternalError.

(** ** Access, limits, cursors *)

Definition MAX_PAGE_LIMIT : Z := 500.
Definition DEFAULT_PAGE_LIMIT : Z := 100.

Definition require_owner (requested : option Z) (caller : Z) : result HistoryError Z :=
  match requested with
  | Some addr => if addr =? caller then Ok caller else Err AccountMismatch
  | None => Ok caller
  end.

Definition clamp_limit (limit : option Z) : Z :=
  Z.max 1 (Z.min MAX_PAGE_LIMIT (default DEFAULT_PAGE_LIMIT limit)).

(** Decimal digits as [format!] prints a [u64] (at most 20 of them). *)
Fixpoint digits (fuel : nat) (n : Z) : list Z :=
  match fuel with
  | O => []
  | S fuel' => if n <? 10 then [n] else digits fuel' (n / 10) ++ [n mod 10]
  end.
Definition digit_char (d : Z) : Ascii.ascii := Ascii.ascii_of_N (Z.to_N (48 + d)).
Definition u64_to_string (n : Z) : string := String.string_of_list_ascii (digit_char <$> digits 20 n).

(** [str::parse::<u64>]: an optional plus sign, then decimal digits. *)
Definition digit_of (a : Ascii.ascii) : option Z :=
  let c := Z.of_N (Ascii.N_of_ascii a) in
  if (48 <=? c) && (c <=? 57) then Some (c - 48) else None.
Definition push_digit (acc : option Z) (a : Ascii.ascii) : option Z :=
  n ← acc; d ← digit_of a;
  let m := n * 10 + d in
  if m <=? U64_MAX then Some m else None.
Definition parse_u64 (s : string) : option Z :=
  let cs := String.list_ascii_of_string s in
  let cs := match cs with
            | c :: rest => if bool_decide (c = Ascii.ascii_of_N 43) then rest else cs
            | [] => []
            end in
  match cs with
  | [] => None
  | _ => foldl push_digit (Some 0) cs
  end.

(** [s.split_once(c)] on characters *)
Fixpoint split_once (c : Ascii.ascii) (cs : list Ascii.ascii) : option (list Ascii.ascii * list Ascii.ascii) :=
  match cs with
  | [] => None
  | x :: rest => if bool_decide (x = c) then Some ([], rest)
                 else '(a, b) ← split_once c rest; Some (x :: a, b)
  end.

Record Cursor := mkCursor { cur_block_number : Z; cur_log_index : Z }.

Definition COLON : Ascii.ascii := Ascii.ascii_of_N 58.
Definition SLASH : Ascii.ascii := Ascii.ascii_of_N 47.

Definition cursor_encode (c : Cursor) : string :=
  String.append (u64_to_string (cur_block_number c))
    (String.String COLON (u64_to_string (cur_log_index c))).

Definition cursor_decode (s : string) : result HistoryError Cursor :=
  match split_once COLON (String.list_ascii_of_string s) with
  | None => Err MalformedCursor
  | Some (block, idx) =>
    match parse_u64 (String.string_of_list_ascii block) with
    | None => Err MalformedCursor
    | Some block_number =>
      match parse_u64 (String.string_of_list_ascii idx) with
      | None => Err MalformedCursor
      | Some log_index => Ok (mkCursor block_number log_index)
      end
    end
  end.

Definition includes_older (c : Cursor) (block_number log_index : Z) : bool :=
  (block_number <? cur_block_number c) ||
  ((block_number =? cur_block_number c) && (log_index <? cur_log_index c)).

(** [query.cursor.as_deref().map(Cursor::decode).transpose()?] *)
Definition decode_opt_cursor (s : option string) : result HistoryError (option Cursor) :=
  match s with
  | None => Ok None
  | Some s => match cursor_decode s with Ok c => Ok (Some c) | Err e => Err e end
  end.

(** ** Filters *)

Definition to_block (n : Z) (f : Filter) : Filter :=
  mkFilter (match f_block f with Range from _ => Range from (Some (Number n)) | AtBlockHash _ => Range None (Some (Number n)) end)
    (f_address f) (f_topic0 f) (f_topic1 f) (f_topic2 f) (f_topic3 f).

(** [Filter::default().from_block(start)], [start] from the cursor. *)
Definition start_filter (cursor : option Cursor) : Filter :=
  mkFilter (Range (Some (match cursor with Some c => Number (cur_block_number c) | None => Earliest end)) None)
    ∅ ∅ ∅ ∅ ∅.

Definition build_darkpool_filter (topic0 : list Z) (maker_topic : option Z) (cursor : option Cursor) : Filter :=
  let f := set_topic0 (list_to_set topic0) (set_address {[ RpcLogs.DARKPOOL_ADDRESS ]} (start_filter cursor)) in
  match maker_topic with Some t => set_topic2 {[ t ]} f | None => f end.

Definition build_darkpool_history_filter (topic0 : list Z) (maker_topic : option Z) (cursor : option Cursor)
    : Filter :=
  let f := build_darkpool_filter topic0 maker_topic None in
  match cursor with Some c => to_block (cur_block_number c) f | None => f end.

Definition order_id_topic (order_id : Z) : Z := order_id.

Definition build_order_filter (order_id owner : Z) : Filter :=
  mkFilter (Range (Some Earliest) None) {[ RpcLogs.DARKPOOL_ADDRESS ]} (list_to_set DARKPOOL_TOPICS)
    {[ order_id_topic order_id ]} {[ topic_for_address owner ]} ∅.

Definition build_tip20_filter (topic0 : list Z) (owner_topic : option Z) (cursor : option Cursor) (as_from : bool)
    : Filter :=
  let f := set_topic0 (list_to_set topic0) (start_filter cursor) in
  match owner_topic with
  | Some t => if as_from then set_topic1 {[ t ]} f else set_topic2 {[ t ]} f
  | None => f
  end.

Definition build_tip20_history_filter (topic0 : list Z) (owner_topic : option Z) (cursor : option Cursor)
    (as_from : bool) : Filter :=
  let f := build_tip20_filter topic0 owner_topic None as_from in
  match cursor with Some c => to_block (cur_block_number c) f | None => f end.

(** ** Sorting and deduplication of vectors *)

Section Vec.
Context {A : Type}.

Fixpoint insert_by (le : A -> A -> bool) (x : A) (l : list A) : list A :=
  match l with
  | [] => [x]
  | y :: r => if le x y then x :: l else y :: insert_by le x r
  end.
Definition sort_by (le : A -> A -> bool) (l : list A) : list A := foldr (insert_by le) [] l.

(** [v.dedup_by(same)]: drop an element equal to the last one kept. *)
Fixpoint dedup_from (same : A -> A -> bool) (kept : A) (l : list A) : list A :=
  match l with
  | [] => []
  | x :: r => if same x kept then dedup_from same kept r else x :: dedup_from same x r
  end.
Definition dedup_by (same : A -> A -> bool) (l : list A) : list A :=
  match l with [] => [] | x :: r => x :: dedup_from same x r end.

(** [v.retain(p)] *)
Definition retain (p : A -> bool) (l : list A) : list A := filter (fun x => p x = true) l.
End Vec.

(** Lexicographic order on pairs of numbers. *)
Definition pair_le (p q : Z * Z) : bool := (p.1 <? q.1) || ((p.1 =? q.1) && (p.2 <=? q.2)).

(** [(l.block_number.unwrap_or(0), l.log_index.unwrap_or(0))] *)
Definition log_key (l : Log) : Z * Z := (default 0 (log_block_number l), default 0 (log_index l)).
Definition sort_logs : list Log -> list Log := sort_by (fun a b => pair_le (log_key a) (log_key b)).
Definition same_log (a b : Log) : bool :=
  bool_decide (log_transaction_hash a = log_transaction_hash b) && bool_decide (log_index a = log_index b).

(** ** Reconstruction of orders *)

Definition side_of (is_bid : bool) : Side := if is_bid then Bid else Ask.

(** The entry that [or_insert_with] creates. *)
Definition new_entry (id : Z) (is_bid : bool) (kind : OrderKind) (tif : TimeInForce)
    (base quote amount price_limit block tx_hash : Z) : OrderEntry :=
  mkOrderEntry id (side_of is_bid) kind tif Open base quote amount amount 0 price_limit 0 None
    block block tx_hash None.

Definition touch (block : Z) (e : OrderEntry) : OrderEntry :=
  mkOrderEntry (oe_order_id e) (oe_side e) (oe_order_kind e) (oe_time_in_force e) (oe_status e)
    (oe_base_token e) (oe_quote_token e) (oe_amount e) (oe_remaining e) (oe_filled e) (oe_price_limit e)
    (oe_cancelled e) (oe_cancel_reason e) (oe_created_at_block e) block (oe_created_tx_hash e)
    (oe_cancel_tx_hash e).

Definition set_progress (status : OrderStatus) (amount remaining filled block : Z) (e : OrderEntry) : OrderEntry :=
  mkOrderEntry (oe_order_id e) (oe_side e) (oe_order_kind e) (oe_time_in_force e) status
    (oe_base_token e) (oe_quote_token e) amount remaining filled (oe_price_limit e)
    (oe_cancelled e) (oe_cancel_reason e) (oe_created_at_block e) block (oe_created_tx_hash e)
    (oe_cancel_tx_hash e).

Definition on_placed (amount block : Z) (e : OrderEntry) : OrderEntry :=
  let remaining := amount in
  let amount := if oe_amount e <? remaining then remaining else oe_amount e in
  let filled := saturating_sub amount remaining in
  let status := if filled =? 0 then Open else if 0 <? remaining then PartiallyFilled else Filled in
  set_progress status amount remaining filled block e.

Definition on_filled (amount_filled block : Z) (e : OrderEntry) : OrderEntry :=
  let filled := saturating_add U128_MAX (oe_filled e) amount_filled in
  let remaining := saturating_sub (oe_amount e) filled in
  let status := if remaining =? 0 then Filled else PartiallyFilled in
  set_progress status (oe_amount e) remaining filled block e.

Definition on_cancelled (cancelled_amount reason block tx_hash : Z) (e : OrderEntry) : OrderEntry :=
  mkOrderEntry (oe_order_id e) (oe_side e) (oe_order_kind e) (oe_time_in_force e) Cancelled
    (oe_base_token e) (oe_quote_token e) (oe_amount e) 0 (oe_filled e) (oe_price_limit e)
    cancelled_amount (reason_from_abi reason) (oe_created_at_block e) block (oe_created_tx_hash e)
    (Some tx_hash).

(** [if let Some(entry) = by_id.get_mut(&id) { f(entry) }] *)
Definition update_existing (id : Z) (f : OrderEntry -> OrderEntry) (m : btree OrderEntry) : btree OrderEntry :=
  match bt_lookup id m with
  | Some e => bt_insert id (f e) m
  | None => m
  end.

(** One decoded event folded into the map. *)
Definition apply_event (m : btree OrderEntry) (block tx_hash : Z) (ev : Event) : btree OrderEntry :=
  match ev with
  | OrderSubmitted id _ base quote amount price_limit is_bid kind tif =>
    match kind_from_abi kind, tif_from_abi tif with
    | Some kind, Some tif =>
      let entry := default (new_entry id is_bid kind tif base quote amount price_limit block tx_hash)
                     (bt_lookup id m) in
      bt_insert id (touch block entry) m
    | _, _ => m
    end
  | OrderPlaced id _ base quote amount price is_bid =>
    let entry := default (new_entry id is_bid Limit Gtc base quote amount price block tx_hash)
                   (bt_lookup id m) in
    bt_insert id (on_placed amount block entry) m
  | OrderFilled maker_id _ _ taker_id amount_filled _ =>
    update_existing taker_id (on_filled amount_filled block)
      (update_existing maker_id (on_filled amount_filled block) m)
  | OrderCancelled id _ cancelled reason => update_existing id (on_cancelled cancelled reason block tx_hash) m
  end.

Definition event_topic (ev : Event) : Z :=
  match ev with
  | OrderSubmitted _ _ _ _ _ _ _ _ _ => SUBMITTED_TOPIC
  | OrderPlaced _ _ _ _ _ _ _ => PLACED_TOPIC
  | OrderFilled _ _ _ _ _ _ => FILLED_TOPIC
  | OrderCancelled _ _ _ _ => CANCELLED_TOPIC
  end.

Section History.
Context (decode_log : Log -> option Event).

(** The event of a log, decoded as its first topic says. *)
Definition event_of (log : Log) : option Event :=
  t0 ← topic0 log; ev ← decode_log log;
  if t0 =? event_topic ev then Some ev else None.

Definition reconstruct_step (m : btree OrderEntry) (log : Log) : btree OrderEntry :=
  match event_of log with
  | None => m
  | Some ev => apply_event m (default 0 (log_block_number log)) (default 0 (log_transaction_hash log)) ev
  end.

Definition reconstruct_orders (logs : list Log) : list OrderEntry :=
  snd <$> foldl reconstruct_step [] (sort_logs logs).

Definition fill_references_order (log : Log) (order_id : Z) : bool :=
  match event_of log with
  | Some (OrderFilled maker_id _ _ taker_id _ _) => (maker_id =? order_id) || (taker_id =? order_id)
  | _ => false
  end.

(** ** Fills *)

Record OrderContext := mkOrderContext {
  ctx_base : Z; ctx_quote : Z; ctx_side : Side; ctx_order_kind : OrderKind; ctx_time_in_force : TimeInForce
}.

Definition index_step (owner : Z) (index : btree OrderContext) (log : Log) : btree OrderContext :=
  match event_of log with
  | Some (OrderSubmitted id _ base quote _ _ is_bid kind tif) =>
    if negb (caller_is_maker log owner) then index
    else match kind_from_abi kind, tif_from_abi tif with
         | Some kind, Some tif => bt_insert id (mkOrderContext base quote (side_of is_bid) kind tif) index
         | _, _ => index
         end
  | _ => index
  end.
Definition build_pair_index (logs : list Log) (owner : Z) : btree OrderContext :=
  foldl (index_step owner) [] logs.

Definition fill_entry_from_log (log : Log) (role : FillRole) (index : btree OrderContext) : option FillEntry :=
  match event_of log with
  | Some (OrderFilled maker_id _ _ taker_id amount_filled price) =>
    let order_id := match role with Maker => maker_id | Taker => taker_id end in
    c ← bt_lookup order_id index;
    Some (mkFillEntry order_id role (ctx_side c) (ctx_order_kind c) (ctx_time_in_force c)
            (ctx_base c) (ctx_quote c) amount_filled price (default 0 (log_block_number log))
            (default 0 (log_transaction_hash log)) (default 0 (log_index log)))
  | _ => None
  end.

(** ** Transfers *)

Definition ADDRESS_BITS : Z := 2 ^ 160.

Definition transfer_entry_from_log (log : Log) (owner : Z) : option TransferEntry :=
  t0 ← topic0 log;
  let owner_topic := topic_for_address owner in
  '(counterparty_topic, direction) ←
    (if topic_is log 1 owner_topic then Some (default 0 (log_topics log !! 2%nat), Out)
     else if topic_is log 2 owner_topic then Some (default 0 (log_topics log !! 1%nat), In)
     else if (t0 =? MINT_TOPIC) && topic_is log 1 owner_topic then Some (0, In)
     else if (t0 =? BURN_TOPIC) && topic_is log 1 owner_topic then Some (0, Out)
     else None);
  let amount := if (32 <=? length (log_data log))%nat then from_be (take 32 (log_data log)) else 0 in
  Some (mkTransferEntry (log_address log) (counterparty_topic mod ADDRESS_BITS) amount direction
          (default 0 (log_block_number log)) (default 0 (log_transaction_hash log))
          (default 0 (log_index log))).

(** ** Next-page cursors *)

(** The cursor at the last item of the page, when more items follow. *)
Definition next_cursor_by {A} (key : A -> Cursor) (l : list A) (limit : Z) : option string :=
  if Z.of_nat (length l) <=? limit then None
  else x ← l !! Z.to_nat (limit - 1); Some (cursor_encode (key x)).

(** [block.try_into().unwrap_or(0)] *)
Definition to_u64_or_0 (x : Z) : Z := default 0 (try_from U64_MAX x).

Definition next_order_cursor : list OrderEntry -> Z -> option string :=
  next_cursor_by (fun o => mkCursor (to_u64_or_0 (oe_updated_at_block o)) 0).
Definition next_fill_cursor : list FillEntry -> Z -> option string :=
  next_cursor_by (fun f => mkCursor (to_u64_or_0 (fe_block_number f)) (to_u64_or_0 (fe_log_index f))).
Definition next_transfer_cursor : list TransferEntry -> Z -> option string :=
  next_cursor_by (fun t => mkCursor (to_u64_or_0 (te_block_number t)) (to_u64_or_0 (te_log_index t))).

(** ** Handlers *)

Section Handlers.
Context (eth_logs : Filter -> option (list Log)) (parse_address : string -> option Z).

Definition parse_pair_filter (pair : option string) : result HistoryError (option (Z * Z)) :=
  match pair with
  | None => Ok None
  | Some p =>
    match split_once SLASH (String.list_ascii_of_string p) with
    | None => Err MalformedPair
    | Some (base, quote) =>
      match parse_address (String.string_of_list_ascii base) with
      | None => Err MalformedPair
      | Some base =>
        match parse_address (String.string_of_list_ascii quote) with
        | None => Err MalformedPair
        | Some quote => Ok (Some (base, quote))
        end
      end
    end
  end.

Definition retain_opt {A B} (o : option B) (p : B -> A -> bool) (l : list A) : list A :=
  match o with Some b => retain (p b) l | None => l end.

Definition order_le (a b : OrderEntry) : bool :=
  pair_le (oe_updated_at_block b, oe_order_id b) (oe_updated_at_block a, oe_order_id a).

(** The body of [zone_get_my_orders] after its parameters are parsed. *)
Definition my_orders (owner limit : Z) (cursor : option Cursor) (pair : option (Z * Z))
    (status : option OrderStatus) : result HistoryError (Page OrderEntry) :=
  let owner_topic := topic_for_address owner in
  let lifecycle_filter := build_darkpool_history_filter
    [SUBMITTED_TOPIC; PLACED_TOPIC; CANCELLED_TOPIC] (Some owner_topic) cursor in
  let maker_fill_filter := build_darkpool_history_filter [FILLED_TOPIC] (Some owner_topic) cursor in
  let taker_fill_filter := set_topic3 {[ owner_topic ]}
    (build_darkpool_history_filter [FILLED_TOPIC] None cursor) in
  match eth_logs lifecycle_filter, eth_logs maker_fill_filter, eth_logs taker_fill_filter with
  | Some lifecycle_logs, Some maker_fill_logs, Some taker_fill_logs =>
    let logs := dedup_by same_log (sort_logs (lifecycle_logs ++ maker_fill_logs ++ taker_fill_logs)) in
    let orders := reconstruct_orders (retain (fun l => caller_is_party l owner) logs) in
    let orders := retain_opt pair
      (fun p o => (oe_base_token o =? p.1) && (oe_quote_token o =? p.2)) orders in
    let orders := retain_opt status (fun s o => bool_decide (oe_status o = s)) orders in
    let orders := sort_by order_le orders in
    Ok (mkPage (take (Z.to_nat limit) orders) (next_order_cursor orders limit))
  | _, _, _ => Err InternalError
  end.

Definition zone_get_my_orders (query : HistoryQuery) (caller : Z) : result HistoryError (Page OrderEntry) :=
  match require_owner (q_account query) caller with
  | Err e => Err e
  | Ok owner =>
    match decode_opt_cursor (q_cursor query) with
    | Err e => Err e
    | Ok cursor =>
      match parse_pair_filter (q_pair query) with
      | Err e => Err e
      | Ok pair_filter => my_orders owner (clamp_limit (q_limit query)) cursor pair_filter (q_status query)
      end
    end
  end.

Definition fill_key (f : FillEntry) : Z * Z := (fe_block_number f, fe_log_index f).
Definition same_fill (a b : FillEntry) : bool :=
  (fe_tx_hash a =? fe_tx_hash b) && (fe_log_index a =? fe_log_index b) &&
  bool_decide (fe_role a = fe_role b).

Definition my_fills (owner limit : Z) (cursor : option Cursor) (pair : option (Z * Z))
    : result HistoryError (Page FillEntry) :=
  let owner_topic := topic_for_address owner in
  let submitted_filter := build_darkpool_filter [SUBMITTED_TOPIC] (Some owner_topic) None in
  let maker_filter := build_darkpool_history_filter [FILLED_TOPIC] (Some owner_topic) cursor in
  let taker_filter := set_topic3 {[ owner_topic ]}
    (build_darkpool_history_filter [FILLED_TOPIC] None cursor) in
  match eth_logs submitted_filter, eth_logs maker_filter, eth_logs taker_filter with
  | Some submitted_logs, Some maker_logs, Some taker_logs =>
    let index := build_pair_index submitted_logs owner in
    let fills :=
      omap (fun l => fill_entry_from_log l Maker index) (retain (fun l => caller_is_maker l owner) maker_logs) ++
      omap (fun l => fill_entry_from_log l Taker index) (retain (fun l => caller_is_taker l owner) taker_logs) in
    let fills := retain_opt pair
      (fun p f => (fe_base_token f =? p.1) && (fe_quote_token f =? p.2)) fills in
    let fills := retain_opt cursor
      (fun c f => includes_older c (fe_block_number f) (fe_log_index f)) fills in
    let fills := sort_by (fun a b => pair_le (fill_key b) (fill_key a)) fills in
    let fills := dedup_by same_fill fills in
    Ok (mkPage (take (Z.to_nat limit) fills) (next_fill_cursor fills limit))
  | _, _, _ => Err InternalError
  end.

Definition zone_get_my_fills (query : HistoryQuery) (caller : Z) : result HistoryError (Page FillEntry) :=
  match require_owner (q_account query) caller with
  | Err e => Err e
  | Ok owner =>
    match decode_opt_cursor (q_cursor query) with
    | Err e => Err e
    | Ok cursor =>
      match parse_pair_filter (q_pair query) with
      | Err e => Err e
      | Ok pair_filter => my_fills owner (clamp_limit (q_limit query)) cursor pair_filter
      end
    end
  end.

Definition TRANSFER_TOPICS : list Z := [TRANSFER_TOPIC; TRANSFER_WITH_MEMO_TOPIC; MINT_TOPIC; BURN_TOPIC].
Definition transfer_key (t : TransferEntry) : Z * Z := (te_block_number t, te_log_index t).
Definition same_transfer (a b : TransferEntry) : bool :=
  (te_tx_hash a =? te_tx_hash b) && (te_log_index a =? te_log_index b).

Definition my_transfers (owner limit : Z) (cursor : option Cursor) : result HistoryError (Page TransferEntry) :=
  let owner_topic := topic_for_address owner in
  let from_filter := build_tip20_history_filter TRANSFER_TOPICS (Some owner_topic) cursor true in
  let to_filter := build_tip20_history_filter TRANSFER_TOPICS (Some owner_topic) cursor false in
  match eth_logs from_filter, eth_logs to_filter with
  | Some from_logs, Some to_logs =>
    let transfers := omap (fun l => transfer_entry_from_log l owner)
      (retain (fun l => is_log_visible l owner) (from_logs ++ to_logs)) in
    let transfers := retain_opt cursor
      (fun c t => includes_older c (te_block_number t) (te_log_index t)) transfers in
    let transfers := sort_by (fun a b => pair_le (transfer_key b) (transfer_key a)) transfers in
    let transfers := dedup_by same_transfer transfers in
    Ok (mkPage (take (Z.to_nat limit) transfers) (next_transfer_cursor transfers limit))
  | _, _ => Err InternalError
  end.

Definition zone_get_my_transfers (query : TransferQuery) (caller : Z)
    : result HistoryError (Page TransferEntry) :=
  match require_owner (tq_account query) caller with
  | Err e => Err e
  | Ok owner =>
    match decode_opt_cursor (tq_cursor query) with
    | Err e => Err e
    | Ok cursor => my_transfers owner (clamp_limit (tq_limit query)) cursor
    end
  end.

(** [None] is the JSON null. *)
Definition zone_get_order (order_id caller : Z) : result HistoryError (option OrderEntry) :=
  let owner := caller in
  let filter := build_order_filter order_id owner in
  let taker_fill_filter := set_topic3 {[ topic_for_address owner ]}
    (build_darkpool_history_filter [FILLED_TOPIC] None None) in
  match eth_logs filter, eth_logs taker_fill_filter with
  | Some logs, Some taker_fills =>
    let logs := logs ++ retain (fun l => fill_references_order l order_id) taker_fills in
    let logs := dedup_by same_log (sort_logs logs) in
    let orders := reconstruct_orders (retain (fun l => caller_is_party l owner) logs) in
    match last orders with
    | Some order => if oe_order_id order =? order_id then Ok (Some order) else Ok None
    | None => Ok None
    end
  | _, _ => Err InternalError
  end.
End Handlers.
End History.
