(* ===== verification/RpcHistoryBook.v ===== *)
(** * The order history agrees with the orderbook

    [reconstruct_orders] (src/crates/rpc/src/darkpool.rs) folds the events of
    the orderbook precompile into one entry per order.  This file shows that
    over the events of any reachable orderbook state the entry of an order is
    what the book itself holds: the resting quantity while it is live, filled
    or cancelled exactly once it has left the book. *)

From stdpp Require Import gmap sets.
From S2P Require Import Prelude.
From S2P Require Import BTree.
From S2P Require Import OrderbookModel.
From S2P Require Import OrderbookArith.
From S2P Require Import OrderbookRep.
From S2P Require Import OrderbookInv.
From S2P Require Import OrderbookMatching.
From S2P Require Import OrderbookFunding.
From S2P Require Import OrderbookOps.
From S2P Require Import OrderbookSafety.
From S2P Require Import RpcHistory.
#[local] Open Scope Z_scope.

(** ** One order's view of the events *)

(** An event with the block number and transaction hash of its log. *)
Definition stamped : Type := Z * Z * Event.

Definition step_id (id : Z) (o : option OrderEntry) (s : stamped) : option OrderEntry :=
  let '(block, tx, ev) := s in
  match ev with
  | OrderSubmitted i _ bs qt amount limit is_bid kind tif =>
    if i =? id then
      match kind_from_abi kind, tif_from_abi tif with
      | Some kind, Some tif => Some (touch block (default (new_entry i is_bid kind tif bs qt amount limit block tx) o))
      | _, _ => o
      end
    else o
  | OrderPlaced i _ bs qt amount price is_bid =>
    if i =? id then Some (on_placed amount block (default (new_entry i is_bid Limit Gtc bs qt amount price block tx) o))
    else o
  | OrderFilled mi _ _ ti f _ =>
    let o := if mi =? id then on_filled f block <$> o else o in
    if ti =? id then on_filled f block <$> o else o
  | OrderCancelled i _ c r => if i =? id then on_cancelled c r block tx <$> o else o
  end.

Definition view (id : Z) (evs : list stamped) : option OrderEntry := foldl (step_id id) None evs.

Lemma view_app id evs1 evs2 : view id (evs1 ++ evs2) = foldl (step_id id) (view id evs1) evs2.
Proof. apply foldl_app. Qed.

Lemma view_post id (evs pre ss post : list stamped) o :
  view id (evs ++ pre ++ ss) = o -> view id (evs ++ pre ++ ss ++ post) = foldl (step_id id) o post.
Proof. intros <-. rewrite <-view_app. by rewrite <-!app_assoc. Qed.

Definition replay (evs : list stamped) : btree OrderEntry :=
  foldl (fun m s => apply_event m s.1.1 s.1.2 s.2) [] evs.

Lemma lookup_update_existing id i f m :
  bt_lookup id (update_existing i f m) = if i =? id then f <$> bt_lookup id m else bt_lookup id m.
Proof.
  unfold update_existing. destruct (Z.eqb_spec i id) as [->|Hn].
  - destruct (bt_lookup id m) as [e|] eqn:E; [|by rewrite E]. by rewrite bt_lookup_insert, Z.eqb_refl.
  - destruct (bt_lookup i m); [|done]. rewrite bt_lookup_insert. by destruct (Z.eqb_spec id i); [congruence|].
Qed.

Lemma lookup_apply_event id m s :
  bt_lookup id (apply_event m s.1.1 s.1.2 s.2) = step_id id (bt_lookup id m) s.
Proof.
  destruct s as [[block tx] ev]. cbn [fst snd]. destruct ev as [i|i|mi ? ? ti|i]; cbn [apply_event step_id].
  - destruct (kind_from_abi orderKind), (tif_from_abi timeInForce); try (by destruct (i =? id)).
    rewrite bt_lookup_insert, (Z.eqb_sym id i). by destruct (Z.eqb_spec i id) as [->|].
  - rewrite bt_lookup_insert, (Z.eqb_sym id i). by destruct (Z.eqb_spec i id) as [->|].
  - rewrite !lookup_update_existing. done.
  - by rewrite lookup_update_existing.
Qed.

Lemma lookup_replay id evs : bt_lookup id (replay evs) = view id evs.
Proof.
  unfold replay, view. change (@None OrderEntry) with (bt_lookup id (@nil (Z * OrderEntry))).
  generalize (@nil (Z * OrderEntry)) as m. induction evs as [|s evs IH]; intros m; [done|].
  cbn [foldl]. by rewrite IH, lookup_apply_event.
Qed.

Lemma update_existing_sorted id f m : sorted m -> sorted (update_existing id f m).
Proof. intros H. unfold update_existing. case_match; auto with zone. Qed.

Lemma replay_sorted evs : sorted (replay evs).
Proof.
  unfold replay. assert (Hs : sorted (@nil (Z * OrderEntry))) by constructor. revert Hs.
  generalize (@nil (Z * OrderEntry)) as m. induction evs as [|s evs IH]; intros m Hs; [done|].
  cbn [foldl]. apply IH. destruct s as [[block tx] [i|i|mi ? ? ti|i]]; cbn [apply_event fst snd].
  - repeat case_match; auto with zone.
  - auto with zone.
  - by do 2 apply update_existing_sorted.
  - by apply update_existing_sorted.
Qed.

(** Who an event makes the owner of an order. *)
Definition owned (ev : Event) (id a : Z) : Prop :=
  match ev with
  | OrderSubmitted i m _ _ _ _ _ _ _ | OrderPlaced i m _ _ _ _ _ | OrderCancelled i m _ _ => i = id /\ m = a
  | OrderFilled mi m t ti _ _ => (mi = id /\ m = a) \/ (ti = id /\ t = a)
  end.

Lemma step_id_untouched id o s : (forall a, ~ owned s.2 id a) -> step_id id o s = o.
Proof.
  destruct s as [[block tx] ev]. cbn [snd]. intros H.
  destruct ev as [i m|i m|mi m t ti|i m]; cbn [step_id owned] in *.
  - destruct (Z.eqb_spec i id); [|done]. exfalso. by apply (H m).
  - destruct (Z.eqb_spec i id); [|done]. exfalso. by apply (H m).
  - destruct (Z.eqb_spec mi id); [exfalso; apply (H m); auto|].
    destruct (Z.eqb_spec ti id); [exfalso; apply (H t); auto|done].
  - destruct (Z.eqb_spec i id); [|done]. exfalso. by apply (H m).
Qed.

Lemma foldl_untouched id o evs :
  (forall s a, s ∈ evs -> ~ owned s.2 id a) -> foldl (step_id id) o evs = o.
Proof.
  revert o. induction evs as [|s evs IH]; intros o H; [done|]. cbn [foldl].
  rewrite step_id_untouched by (intros a; apply H; auto with zone). apply IH. intros s' a Hs. apply H. auto with zone.
Qed.

(** Events about other orders can be dropped. *)
Lemma view_filter id (P : stamped -> Prop) `{!forall s, Decision (P s)} evs :
  (forall s a, s ∈ evs -> owned s.2 id a -> P s) -> view id (filter P evs) = view id evs.
Proof.
  unfold view. generalize (@None OrderEntry) as o. induction evs as [|s evs IH]; intros o Hown; [done|].
  rewrite filter_cons. destruct (decide (P s)) as [Hp|Hp]; cbn [foldl].
  - apply IH. intros s' a Hs. apply Hown. auto with zone.
  - rewrite IH by (intros s' a Hs; apply Hown; auto with zone).
    rewrite (step_id_untouched id o s); [done|]. intros a Ho. apply Hp. apply (Hown s a); auto with zone.
Qed.

(** ** Abstract matching and the fills it makes *)

Abbreviation fill_ids fs := ((fun ef : Entry * Z => e_id ef.1) <$> fs).

Record Consumed (l l' : list Entry) (fs : list (Entry * Z)) : Prop := mkConsumed {
  cs_nodup : NoDup (fill_ids fs);
  cs_from : forall x, x ∈ l' -> e_id x ∈ ids l;
  cs_fill : forall e f, (e, f) ∈ fs -> e ∈ l /\ 0 < f <= e_qty e;
  cs_gone : forall e, (e, e_qty e) ∈ fs -> e_id e ∉ ids l';
  cs_less : forall e f, (e, f) ∈ fs -> f < e_qty e ->
    mkEntry (e_id e) (e_maker e) (e_price e) (e_qty e - f) ∈ l';
  cs_kept : forall e, e ∈ l -> e_id e ∉ fill_ids fs -> e ∈ l'
}.

Lemma Consumed_nil l : Consumed l l [].
Proof.
  split; cbn; try (by intros ? ? ?%not_elem_of_nil); try (by intros ? ?%not_elem_of_nil); try done.
  - apply NoDup_nil_2.
  - intros x Hx. by apply list_elem_of_fmap_2.
Qed.

Lemma fill_ids_sub l l' fs : Consumed l l' fs -> forall i, i ∈ fill_ids fs -> i ∈ ids l.
Proof.
  intros C i ([e f] & -> & He)%list_elem_of_fmap. apply (cs_fill _ _ _ C) in He as [He _].
  by apply list_elem_of_fmap_2.
Qed.

Lemma amatch_consumed b limit rem l l' r fs :
  NoDup (ids l) -> Forall entry_ok l -> 0 <= rem -> amatch b limit rem l = (l', r, fs) -> Consumed l l' fs.
Proof.
  revert rem l' r fs. induction l as [|e l IH]; intros rem l' r fs Hnd Hok Hr Hm; cbn [amatch] in Hm.
  { injection Hm as <- <- <-. apply Consumed_nil. }
  destruct (Z.eqb_spec rem 0) as [->|Hr0]; cbn [orb] in Hm; [injection Hm as <- <- <-; apply Consumed_nil|].
  destruct (crosses b limit e); cbn [negb] in Hm; [|injection Hm as <- <- <-; apply Consumed_nil].
  rewrite Forall_cons in Hok. destruct Hok as [He Hok]. unfold ids in Hnd. rewrite fmap_cons, NoDup_cons in Hnd.
  destruct Hnd as [Hfresh Hnd]. assert (Hq : 0 < e_qty e) by apply He.
  destruct (Z.leb_spec (e_qty e) rem) as [Hle|Hgt].
  - destruct (amatch b limit (rem - e_qty e) l) as [[l2 r2] fs2] eqn:E. injection Hm as <- <- <-.
    pose proof (IH (rem - e_qty e) l2 r2 fs2 Hnd Hok ltac:(lia) E) as C. pose proof (fill_ids_sub _ _ _ C) as Hsub.
    destruct C as [C1 C2 C3 C4 C5 C6]. split.
    + rewrite fmap_cons, NoDup_cons. split; [|done]. intros Hi. apply Hfresh, Hsub, Hi.
    + intros x Hx. right. by apply C2.
    + intros e' f' [[= -> ->]|Hin]%elem_of_cons; [split; [left|lia]|]. apply C3 in Hin as [? ?]. split; [by right|done].
    + intros e' [[= ->]|Hin]%elem_of_cons; [|by apply C4].
      intros (x & Ex & Hx)%list_elem_of_fmap. apply Hfresh. fold (ids l). rewrite Ex. by apply C2.
    + intros e' f' [[= -> ->]|Hin]%elem_of_cons; [lia|]. by apply C5.
    + intros e' [->|Hin]%elem_of_cons Hn; [exfalso; apply Hn; left|]. apply C6; [done|]. intros Hi. apply Hn. by right.
  - injection Hm as <- <- <-. unfold rest. destruct (Z.eqb_spec rem (e_qty e)); [lia|]. split.
    + apply NoDup_singleton.
    + intros x [->|Hx]%elem_of_cons; [left|right]. by apply list_elem_of_fmap_2.
    + intros e' f' [[= -> ->]|[]%not_elem_of_nil]%elem_of_cons. split; [left|lia].
    + intros e' [E|[]%not_elem_of_nil]%elem_of_cons. injection E as -> Eq. lia.
    + intros e' f' [[= -> ->]|[]%not_elem_of_nil]%elem_of_cons _. left.
    + intros e' [->|Hin]%elem_of_cons Hn; [exfalso; apply Hn; left|by right].
Qed.

(** ** Folding the fills of one match *)

(** The fields of an entry that no later event changes. *)
Definition static (o : OrderEntry) (id : Z) (is_bid : bool) (bs qt amount limit kind tif : Z) : Prop :=
  oe_order_id o = id /\ oe_side o = side_of is_bid /\ oe_base_token o = bs /\ oe_quote_token o = qt /\
  oe_amount o = amount /\ oe_price_limit o = limit /\ kind_from_abi kind = Some (oe_order_kind o) /\
  tif_from_abi tif = Some (oe_time_in_force o).

Definition stamps (evs : list stamped) : list Event := snd <$> evs.

Lemma fills_other tid taker x o ss fs :
  stamps ss = fill_event tid taker <$> fs -> x <> tid -> x ∉ fill_ids fs -> foldl (step_id x) o ss = o.
Proof.
  intros Hs Hx Hn. apply foldl_untouched. intros s a Hin Ho.
  assert (He : s.2 ∈ fill_event tid taker <$> fs) by (rewrite <-Hs; by apply list_elem_of_fmap_2).
  apply list_elem_of_fmap in He as ([e f] & E & Hf). rewrite E in Ho. cbn in Ho.
  destruct Ho as [[E1 _]|[E1 _]]; [|congruence]. apply Hn. rewrite <-E1.
  by apply (list_elem_of_fmap_2 (fun ef : Entry * Z => e_id ef.1)) in Hf.
Qed.

Lemma fills_maker tid taker o ss fs e f :
  stamps ss = fill_event tid taker <$> fs -> NoDup (fill_ids fs) -> e_id e <> tid -> (e, f) ∈ fs ->
  exists block, foldl (step_id (e_id e)) o ss = on_filled f block <$> o.
Proof.
  revert o ss. induction fs as [|[e' f'] fs IH]; intros o ss Hs Hnd Hx Hin; [by apply not_elem_of_nil in Hin|].
  destruct ss as [|[[block tx] ev] ss]; [done|]. unfold stamps in Hs. rewrite !fmap_cons in Hs.
  injection Hs as -> Hs. rewrite fmap_cons, NoDup_cons in Hnd. destruct Hnd as [Hf Hnd].
  cbn [foldl step_id fill_event fst snd]. rewrite (proj2 (Z.eqb_neq tid (e_id e))) by congruence.
  apply elem_of_cons in Hin as [[= -> ->]|Hin].
  - rewrite Z.eqb_refl. exists block. by apply (fills_other tid taker _ _ ss fs).
  - assert (Hne : e_id e' <> e_id e).
    { intros E. cbn in Hf. apply Hf. rewrite E. by apply (list_elem_of_fmap_2 (fun ef : Entry * Z => e_id ef.1)) in Hin. }
    rewrite (proj2 (Z.eqb_neq _ _) Hne). by apply IH.
Qed.

Lemma on_filled_fields f block o :
  0 <= f -> 0 <= oe_filled o -> oe_filled o + f <= oe_amount o <= U128_MAX ->
  oe_filled (on_filled f block o) = oe_filled o + f /\
  oe_remaining (on_filled f block o) = oe_amount o - (oe_filled o + f) /\
  oe_cancelled (on_filled f block o) = oe_cancelled o /\
  oe_amount (on_filled f block o) = oe_amount o /\
  oe_status (on_filled f block o) =
    (if oe_amount o - (oe_filled o + f) =? 0 then Filled else PartiallyFilled).
Proof.
  intros Hf H0 Ha. unfold on_filled, saturating_add, saturating_sub. cbn.
  rewrite Z.min_r, Z.max_r by lia. done.
Qed.

Lemma on_filled_static f block o id ib bs qt am li ki ti :
  static o id ib bs qt am li ki ti -> static (on_filled f block o) id ib bs qt am li ki ti.
Proof. done. Qed.

(** The taker's entry collects all its fills. *)
Lemma fills_taker tid taker o ss fs id ib bs qt am li ki ti :
  stamps ss = fill_event tid taker <$> fs -> tid ∉ fill_ids fs -> (forall ef, ef ∈ fs -> 0 < ef.2) ->
  static o id ib bs qt am li ki ti -> am <= U128_MAX ->
  0 <= oe_filled o -> oe_filled o + sumZ snd fs <= am ->
  exists o', foldl (step_id tid) (Some o) ss = Some o' /\ static o' id ib bs qt am li ki ti /\
    oe_filled o' = oe_filled o + sumZ snd fs /\ oe_cancelled o' = oe_cancelled o /\
    (fs <> [] -> oe_remaining o' = am - oe_filled o' /\
                 oe_status o' = if am - oe_filled o' =? 0 then Filled else PartiallyFilled).
Proof.
  revert o ss. induction fs as [|[e f] fs IH]; intros o ss Hs Hn Hpos Hst Ham H0 Hsum.
  { destruct ss; [|done]. exists o. rewrite Z.add_0_r. done. }
  destruct ss as [|[[block tx] ev] ss]; [done|]. unfold stamps in Hs. rewrite !fmap_cons in Hs.
  injection Hs as -> Hs. rewrite sumZ_cons in *. cbn [snd fst] in *.
  assert (Hf : 0 < f) by (apply (Hpos (e, f)); auto with zone).
  assert (Hrest : 0 <= sumZ snd fs).
  { apply sumZ_nonneg. intros ef Hef. specialize (Hpos ef). assert (0 < ef.2) by auto with zone. lia. }
  cbn [foldl step_id fill_event fst snd].
  rewrite (proj2 (Z.eqb_neq (e_id e) tid)), Z.eqb_refl by (intros E; apply Hn; rewrite <-E; left).
  cbn [fmap option_fmap option_map].
  destruct (on_filled_fields f block o) as (F1 & F2 & F3 & F4 & F5);
    [lia|lia|destruct Hst as (_ & _ & _ & _ & -> & _); lia|].
  destruct (IH (on_filled f block o) ss Hs) as (o' & Ev & Hst' & Hfil & Hc & Hne).
  - intros Hi. apply Hn. by right.
  - intros ef Hef. apply Hpos. by right.
  - done.
  - done.
  - lia.
  - lia.
  - exists o'. split; [done|]. split; [done|]. split; [lia|]. split; [congruence|]. intros _.
    destruct fs as [|ef fs]; [|by apply Hne].
    destruct ss; [|done]. cbn in Ev. injection Ev as <-.
    destruct Hst as (_ & _ & _ & _ & Eam & _). rewrite Eam in *. by rewrite F1.
Qed.

(** ** The invariant *)

(** The entry of an order that rests on the book, and of one that left it. *)
Definition live_entry (o : OrderEntry) (q : Z) : Prop :=
  0 < q <= oe_amount o /\ oe_remaining o = q /\ oe_filled o = oe_amount o - q /\ oe_cancelled o = 0 /\
  oe_status o = if oe_filled o =? 0 then Open else PartiallyFilled.

Definition done_entry (o : OrderEntry) : Prop :=
  oe_remaining o = 0 /\ 0 <= oe_filled o /\ oe_filled o + oe_cancelled o = oe_amount o /\
  ((oe_status o = Filled /\ oe_cancelled o = 0) \/ (oe_status o = Cancelled /\ 0 < oe_cancelled o)).

Section Agreement.
Context (keccak256 : list Z -> Z).
Abbreviation key := (compute_book_key keccak256).

Definition Tracked (B : Queues) (evs : list stamped) (id : Z) : Prop :=
  exists o mk bs qt amount limit is_bid kind tif,
    view id evs = Some o /\
    OrderSubmitted id mk bs qt amount limit is_bid kind tif ∈ stamps evs /\
    static o id is_bid bs qt amount limit kind tif /\ 0 < amount <= U128_MAX /\
    ((exists e, e ∈ B (key bs qt) is_bid /\ e_id e = id /\ e_maker e = mk /\ e_price e = limit /\
        kind = ORDER_KIND_LIMIT /\ tif = TIME_IN_FORCE_GTC /\ live_entry o (e_qty e)) \/
     ((forall k b e, e ∈ B k b -> e_id e <> id) /\ done_entry o)).

Record Agree (n : Z) (B : Queues) (evs : list stamped) : Prop := mkAgree {
  ag_tracked : forall id, 1 <= id < n -> Tracked B evs id;
  ag_ids : forall ev id a, ev ∈ stamps evs -> owned ev id a -> 1 <= id < n;
  ag_owner : forall ev1 ev2 id a1 a2, ev1 ∈ stamps evs -> ev2 ∈ stamps evs ->
    owned ev1 id a1 -> owned ev2 id a2 -> a1 = a2
}.

(** An entry's id fixes its queue and the entry. *)
Definition uniq (B : Queues) : Prop := forall k b e k' b' e',
  e ∈ B k b -> e' ∈ B k' b' -> e_id e = e_id e' -> k = k' /\ b = b' /\ e = e'.

Lemma Rep_uniq s B : Rep s B -> uniq B.
Proof.
  intros R k b e k' b' e' He He' Hi.
  destruct (seg_lookup _ _ _ _ _ _ _ (rep_seg _ _ R k b) He) as (p & m & E).
  destruct (seg_lookup _ _ _ _ _ _ _ (rep_seg _ _ R k' b') He') as (p' & m' & E').
  rewrite Hi in E. rewrite E in E'. unfold concr in E'. injection E'. intros.
  destruct e, e'; cbn in *. subst. done.
Qed.

(** What an order operation does to the queues: fills [fs] of resting orders,
    and possibly a new order [tid]. *)
Record Transition (B B' : Queues) (tid : Z) (fs : list (Entry * Z)) : Prop := mkTransition {
  tr_nodup : NoDup (fill_ids fs);
  tr_from : forall k b x, x ∈ B' k b -> e_id x = tid \/ exists y, y ∈ B k b /\ e_id y = e_id x;
  tr_fill : forall e f, (e, f) ∈ fs -> 0 < f <= e_qty e /\ exists k b, e ∈ B k b;
  tr_gone : forall e, (e, e_qty e) ∈ fs -> forall k b x, x ∈ B' k b -> e_id x <> e_id e;
  tr_less : forall e f k b, (e, f) ∈ fs -> f < e_qty e -> e ∈ B k b ->
    mkEntry (e_id e) (e_maker e) (e_price e) (e_qty e - f) ∈ B' k b;
  tr_kept : forall k b e, e ∈ B k b -> e_id e ∉ fill_ids fs -> e ∈ B' k b
}.

(** Filling a resting order in part, or in full. *)
Lemma live_filled o q f block :
  live_entry o q -> oe_amount o <= U128_MAX -> 0 < f -> f < q -> live_entry (on_filled f block o) (q - f).
Proof.
  intros (Hq & Hr & Hf & Hc & Hs) Ha Hf0 Hlt.
  destruct (on_filled_fields f block o) as (F1 & F2 & F3 & F4 & F5); [lia|lia|lia|].
  unfold live_entry. rewrite F1, F2, F3, F4, F5. repeat split; try lia.
  rewrite (proj2 (Z.eqb_neq _ 0)), (proj2 (Z.eqb_neq _ 0)) by lia. done.
Qed.

Lemma live_consumed o q block :
  live_entry o q -> oe_amount o <= U128_MAX -> done_entry (on_filled q block o).
Proof.
  intros (Hq & Hr & Hf & Hc & Hs) Ha.
  destruct (on_filled_fields q block o) as (F1 & F2 & F3 & F4 & F5); [lia|lia|lia|].
  unfold done_entry. rewrite F1, F2, F3, F4, F5. repeat split; try lia. left. split; [|done].
  by rewrite (proj2 (Z.eqb_eq _ 0)) by lia.
Qed.

(** Orders placed before keep track of the book through an operation. *)
Lemma Tracked_old n B B' evs pre ss post fs tid taker id :
  Agree n B evs -> uniq B -> Transition B B' tid fs -> n <= tid ->
  stamps ss = fill_event tid taker <$> fs ->
  (forall s a, s ∈ pre -> ~ owned s.2 id a) -> (forall s a, s ∈ post -> ~ owned s.2 id a) ->
  1 <= id < n -> Tracked B' (evs ++ pre ++ ss ++ post) id.
Proof.
  intros A U T Hn Hs Hpre Hpost Hid.
  destruct (ag_tracked _ _ _ A id Hid) as (o & mk & bs & qt & am & li & ib & ki & ti & Hv & Hsub & Hst & Ham & Hcase).
  assert (Hview : view id (evs ++ pre ++ ss ++ post) = foldl (step_id id) (Some o) ss).
  { unfold view in *. rewrite !foldl_app, Hv, (foldl_untouched id (Some o) pre) by done.
    by apply foldl_untouched. }
  assert (Hsub' : OrderSubmitted id mk bs qt am li ib ki ti ∈ stamps (evs ++ pre ++ ss ++ post)).
  { unfold stamps. rewrite fmap_app, elem_of_app. by left. }
  assert (Eam : oe_amount o = am) by apply Hst.
  destruct Hcase as [(e & He & Hei & Hmk & Hpr & Hki & Hti & Hlive)|[Hgone Hdone]].
  - destruct (decide (id ∈ fill_ids fs)) as [Hi|Hi].
    + apply list_elem_of_fmap in Hi as ([e' f] & Ei & Hf). cbn [fst] in Ei.
      destruct (tr_fill _ _ _ _ T _ _ Hf) as [Hf0 (k' & b' & He')].
      destruct (U _ _ _ _ _ _ He He') as (<- & <- & <-); [congruence|].
      destruct (fills_maker tid taker (Some o) ss fs e f Hs (tr_nodup _ _ _ _ T)) as (block & Hb); [lia|done|].
      rewrite <-Ei in Hb. rewrite Hb in Hview.
      exists (on_filled f block o), mk, bs, qt, am, li, ib, ki, ti. repeat (split; [done|]).
      destruct (decide (f = e_qty e)) as [->|Hlt].
      * right. split; [|by apply live_consumed; [done|lia]].
        intros k b x Hx. rewrite Ei. by apply (tr_gone _ _ _ _ T e Hf k b).
      * left. eexists. split; [apply (tr_less _ _ _ _ T e f _ _ Hf ltac:(lia) He)|].
        cbn [e_id e_maker e_price e_qty]. repeat (split; [done|]). by apply live_filled; [done|lia|lia|lia].
    + exists o, mk, bs, qt, am, li, ib, ki, ti. rewrite Hview, (fills_other tid taker id _ ss fs) by (done || lia).
      repeat (split; [done|]). left. exists e. split; [|done]. apply (tr_kept _ _ _ _ T); [done|congruence].
  - assert (Hi : id ∉ fill_ids fs).
    { intros ([e f] & Ei & Hf)%list_elem_of_fmap. destruct (tr_fill _ _ _ _ T _ _ Hf) as [_ (k & b & He)].
      by apply (Hgone k b e). }
    exists o, mk, bs, qt, am, li, ib, ki, ti. rewrite Hview, (fills_other tid taker id _ ss fs) by (done || lia).
    repeat (split; [done|]). right. split; [|done]. intros k b x Hx Ex.
    destruct (tr_from _ _ _ _ T k b x Hx) as [E|(y & Hy & Ey)]; [lia|]. apply (Hgone k b y Hy). congruence.
Qed.

(** ** Owners *)

Lemma live_owner n B evs k b e ev a :
  Agree n B evs -> uniq B -> e ∈ B k b -> 1 <= e_id e < n ->
  ev ∈ stamps evs -> owned ev (e_id e) a -> a = e_maker e.
Proof.
  intros A U He Hid Hev Ho.
  destruct (ag_tracked _ _ _ A _ Hid) as (o & mk & bs & qt & am & li & ib & ki & ti & _ & Hsub & _ & _ & Hcase).
  destruct Hcase as [(e' & He' & Ei & <- & _)|[Hgone _]]; [|by exfalso; apply (Hgone k b e)].
  destruct (U _ _ _ _ _ _ He He') as (_ & _ & <-); [done|].
  apply (ag_owner _ _ _ A ev _ (e_id e) a (e_maker e) Hev Hsub Ho). done.
Qed.

(** The events of one operation speak of the new order, for its sender, and
    of resting orders, for their makers. *)
Definition speaks_of (n : Z) (B : Queues) (sender : Z) (new : list stamped) : Prop :=
  forall ev id a, ev ∈ stamps new -> owned ev id a ->
    (id = n /\ a = sender) \/ (exists k b e, e ∈ B k b /\ e_id e = id /\ e_maker e = a).

Lemma Agree_extend n n' B B' evs new sender :
  Agree n B evs -> uniq B -> (forall k b e, e ∈ B k b -> 1 <= e_id e < n) ->
  speaks_of n B sender new -> 1 <= n -> n <= n' ->
  (forall ev a, ev ∈ stamps new -> owned ev n a -> n < n') ->
  (forall id, 1 <= id < n' -> Tracked B' (evs ++ new) id) -> Agree n' B' (evs ++ new).
Proof.
  intros A U Hids Hsp Hn Hn' Hlast Htr. split; [done| |].
  - intros ev id a. unfold stamps. rewrite fmap_app, elem_of_app. intros [Hev|Hev] Ho.
    + pose proof (ag_ids _ _ _ A _ _ _ Hev Ho). lia.
    + destruct (Hsp _ _ _ Hev Ho) as [[-> ->]|(k & b & e & He & <- & _)].
      * pose proof (Hlast _ _ Hev Ho). lia.
      * specialize (Hids _ _ _ He). lia.
  - assert (Hmix : forall ev1 ev2 id a1 a2, ev1 ∈ stamps evs -> ev2 ∈ stamps new ->
      owned ev1 id a1 -> owned ev2 id a2 -> a1 = a2).
    { intros ev1 ev2 id a1 a2 H1 H2 Ho1 Ho2. pose proof (ag_ids _ _ _ A _ _ _ H1 Ho1).
      destruct (Hsp _ _ _ H2 Ho2) as [[-> _]|(k & b & e & He & <- & <-)]; [lia|].
      eapply live_owner; [exact A|exact U|exact He|by apply (Hids k b)|exact H1|exact Ho1]. }
    intros ev1 ev2 id a1 a2. unfold stamps. rewrite fmap_app, !elem_of_app. intros [H1|H1] [H2|H2] Ho1 Ho2.
    + by apply (ag_owner _ _ _ A ev1 ev2 id).
    + by apply (Hmix ev1 ev2 id).
    + symmetry. by apply (Hmix ev2 ev1 id).
    + destruct (Hsp _ _ _ H1 Ho1) as [[E1 ->]|(k & b & e & He & Ei & <-)],
        (Hsp _ _ _ H2 Ho2) as [[E2 ->]|(k2 & b2 & e2 & He2 & Ei2 & <-)]; [done| | |].
      * specialize (Hids _ _ _ He2). lia.
      * specialize (Hids _ _ _ He). lia.
      * destruct (U _ _ _ _ _ _ He He2) as (_ & _ & ->); [congruence|done].
Qed.

Lemma speaks_of_match n B sender fs pre ss post tid :
  stamps ss = fill_event tid sender <$> fs -> tid = n ->
  (forall e f, (e, f) ∈ fs -> exists k b, e ∈ B k b) ->
  (forall ev id a, ev ∈ stamps pre -> owned ev id a -> id = n /\ a = sender) ->
  (forall ev id a, ev ∈ stamps post -> owned ev id a -> id = n /\ a = sender) ->
  speaks_of n B sender (pre ++ ss ++ post).
Proof.
  intros Hs -> Hfs Hpre Hpost ev id a. unfold stamps in *. rewrite !fmap_app, !elem_of_app.
  intros [Hev|[Hev|Hev]] Ho; [left; by eapply Hpre| |left; by eapply Hpost].
  rewrite Hs in Hev. apply list_elem_of_fmap in Hev as ([e f] & -> & Hf). cbn in Ho.
  destruct Ho as [[<- <-]|[<- <-]]; [right|by left].
  destruct (Hfs _ _ Hf) as (k & b & He). eauto 10.
Qed.

(** ** The entry of the order just submitted *)

Lemma view_new n B evs tid sender bs qt amount limit is_bid kind tif block tx :
  Agree n B evs -> n <= tid -> kind_from_abi kind <> None -> tif_from_abi tif <> None ->
  exists o, view tid (evs ++ [(block, tx, OrderSubmitted tid sender bs qt amount limit is_bid kind tif)]) = Some o /\
    static o tid is_bid bs qt amount limit kind tif /\ oe_filled o = 0 /\ oe_cancelled o = 0.
Proof.
  intros A Hn Hk Ht. unfold view. rewrite foldl_app.
  rewrite (foldl_untouched tid None evs).
  - cbn [foldl step_id]. rewrite Z.eqb_refl.
    destruct (kind_from_abi kind) as [k|] eqn:Ek; [|done]. destruct (tif_from_abi tif) as [t|] eqn:Et; [|done].
    eexists. split; [reflexivity|]. by repeat split.
  - intros s a Hs Ho. pose proof (ag_ids _ _ _ A s.2 tid a) as Hi.
    specialize (Hi ltac:(by apply list_elem_of_fmap_2) Ho). lia.
Qed.

Lemma taker_view n B evs tid sender bs qt amount limit is_bid kind tif block tx ss fs :
  Agree n B evs -> n <= tid -> kind_from_abi kind <> None -> tif_from_abi tif <> None ->
  0 < amount <= U128_MAX -> stamps ss = fill_event tid sender <$> fs -> tid ∉ fill_ids fs ->
  (forall ef, ef ∈ fs -> 0 < ef.2) -> sumZ snd fs <= amount ->
  exists o, view tid (evs ++ [(block, tx, OrderSubmitted tid sender bs qt amount limit is_bid kind tif)] ++ ss) = Some o /\
    static o tid is_bid bs qt amount limit kind tif /\ oe_filled o = sumZ snd fs /\ oe_cancelled o = 0 /\
    (sumZ snd fs = amount -> done_entry o).
Proof.
  intros A Hn Hk Ht Ham Hs Hfresh Hpos Hsum.
  destruct (view_new n B evs tid sender bs qt amount limit is_bid kind tif block tx A Hn Hk Ht)
    as (o & Ho & Hst & Hf & Hc).
  destruct (fills_taker tid sender o ss fs tid is_bid bs qt amount limit kind tif Hs Hfresh Hpos Hst)
    as (o' & Hv & Hst' & Hf' & Hc' & Hne); [lia|lia|lia|].
  exists o'. split.
  { rewrite (app_assoc evs [_] ss), view_app, <-Hv. f_equal. exact Ho. }
  split; [done|].
  split; [lia|]. split; [congruence|]. intros Hfull.
  destruct Hne as [Hr Hstat]; [intros ->; cbn in Hfull; lia|].
  unfold done_entry. destruct Hst' as (_ & _ & _ & _ & -> & _). rewrite Hr, Hc', Hc, Hf'.
  repeat split; try lia. left. rewrite Hstat. by rewrite (proj2 (Z.eqb_eq _ 0)) by lia.
Qed.

(** ** Operations *)

Lemma Transition_match B B' k b limit amount rem fs n tid :
  uniq B -> (forall k b e, e ∈ B k b -> 1 <= e_id e < n) -> n <= tid ->
  NoDup (ids (B k b)) -> Forall entry_ok (B k b) -> 0 <= amount ->
  amatch b limit amount (B k b) = (B' k b, rem, fs) ->
  (forall k' b' x, ~ (k' = k /\ b' = b) -> x ∈ B' k' b' -> e_id x = tid \/ x ∈ B k' b') ->
  (forall k' b' x, ~ (k' = k /\ b' = b) -> x ∈ B k' b' -> x ∈ B' k' b') ->
  Transition B B' tid fs.
Proof.
  intros U Hids Hn Hnd Hok Ham Hm Hfrom Hto.
  destruct (amatch_consumed b limit amount _ _ _ _ Hnd Hok Ham Hm) as [C1 C2 C3 C4 C5 C6]. split.
  - done.
  - intros k' b' x Hx. destruct (decide (k' = k /\ b' = b)) as [[-> ->]|Hne].
    + right. apply C2 in Hx as (y & Ey & Hy)%list_elem_of_fmap. by exists y.
    + destruct (Hfrom _ _ _ Hne Hx) as [?|?]; [by left|right; by exists x].
  - intros e f Hf. apply C3 in Hf as [? ?]. eauto.
  - intros e Hf k' b' x Hx Ex. destruct (C3 _ _ Hf) as [He _].
    destruct (decide (k' = k /\ b' = b)) as [[-> ->]|Hne].
    + apply (C4 _ Hf). rewrite <-Ex. by apply list_elem_of_fmap_2.
    + destruct (Hfrom _ _ _ Hne Hx) as [E|Hx'].
      * specialize (Hids _ _ _ He). lia.
      * destruct (U _ _ _ _ _ _ Hx' He Ex) as (-> & -> & _). by apply Hne.
  - intros e f k' b' Hf Hlt He'. destruct (C3 _ _ Hf) as [He _].
    destruct (U _ _ _ _ _ _ He He' eq_refl) as (<- & <- & _). by apply C5.
  - intros k' b' e He Hn'. destruct (decide (k' = k /\ b' = b)) as [[-> ->]|Hne]; [by apply C6|by apply Hto].
Qed.

Lemma order_agree n B B' evs sender bs qt amount limit is_bid kind tif block tx ss post fs :
  let s0 := (block, tx, OrderSubmitted n sender bs qt amount limit is_bid kind tif) in
  Agree n B evs -> uniq B -> (forall k b e, e ∈ B k b -> 1 <= e_id e < n) -> 1 <= n ->
  Transition B B' n fs -> stamps ss = fill_event n sender <$> fs ->
  (forall ev id a, ev ∈ stamps post -> owned ev id a -> id = n /\ a = sender) ->
  Tracked B' (evs ++ [s0] ++ ss ++ post) n ->
  Agree (n + 1) B' (evs ++ [s0] ++ ss ++ post).
Proof.
  intros s0 A U Hids Hn T Hs Hpost Htn.
  assert (Hpre : forall ev id a, ev ∈ stamps [s0] -> owned ev id a -> id = n /\ a = sender).
  { intros ev id a [->|[]%not_elem_of_nil]%elem_of_cons [<- <-]. done. }
  apply (Agree_extend n _ B _ _ _ sender); try done; try lia.
  - apply (speaks_of_match n B sender fs [s0] ss post n); try done.
    intros e f Hf. by apply (tr_fill _ _ _ _ T) in Hf as [_ ?].
  - intros id Hid. destruct (decide (id = n)) as [->|Hne]; [done|].
    apply (Tracked_old n B B' evs [s0] ss post fs n sender); try done; try lia.
    + intros s a Hin Ho. destruct (Hpre s.2 id a); [by apply list_elem_of_fmap_2|done|lia].
    + intros s a Hin Ho. destruct (Hpost s.2 id a); [by apply list_elem_of_fmap_2|done|lia].
Qed.

Lemma fresh_fill n B fs B' :
  (forall k b e, e ∈ B k b -> 1 <= e_id e < n) -> Transition B B' n fs -> n ∉ fill_ids fs.
Proof.
  intros Hids T ([e f] & E & Hf)%list_elem_of_fmap. cbn in E.
  destruct (tr_fill _ _ _ _ T _ _ Hf) as [_ (k & b & He)]. specialize (Hids _ _ _ He). lia.
Qed.

(** Splitting a stamped list like its events. *)
Lemma stamps_app_inv new l1 l2 :
  stamps new = l1 ++ l2 -> exists n1 n2, new = n1 ++ n2 /\ stamps n1 = l1 /\ stamps n2 = l2.
Proof. intros (n1 & n2 & -> & -> & ->)%fmap_app_inv. eauto. Qed.

Lemma stamps_cons_inv new ev l :
  stamps new = ev :: l -> exists block tx n2, new = (block, tx, ev) :: n2 /\ stamps n2 = l.
Proof. destruct new as [|[[block tx] ev'] n2]; [done|]. intros [= -> <-]. eauto. Qed.

Lemma on_placed_live o rem block id is_bid bs qt amount limit kind tif :
  static o id is_bid bs qt amount limit kind tif -> 0 < rem <= amount -> oe_cancelled o = 0 ->
  static (on_placed rem block o) id is_bid bs qt amount limit kind tif /\ live_entry (on_placed rem block o) rem.
Proof.
  intros Hst Hr Hc. assert (Ea : oe_amount o = amount) by apply Hst.
  unfold on_placed. rewrite Ea, (proj2 (Z.ltb_ge amount rem)) by lia.
  split; [by destruct Hst as (? & ? & ? & ? & ? & ? & ? & ?)|].
  unfold live_entry, saturating_sub. cbn. rewrite Z.max_r by lia.
  rewrite (proj2 (Z.ltb_lt 0 rem)) by lia. repeat split; lia || done.
Qed.
End Agreement.

Section Reach.
Context {L : Type} {T20 : Tip20 L} {T20L : Tip20Laws L}.
Context (keccak256 : list Z -> Z) (decode : list Z -> option Call).
Implicit Types (w : World L).
Hypothesis decode_wf : forall calldata c, decode calldata = Some c -> call_wf c.
Hypothesis book_key_inj : forall a b c d,
  is_tip20 a -> is_tip20 b -> is_tip20 c -> is_tip20 d ->
  compute_book_key keccak256 a b = compute_book_key keccak256 c d -> a = c /\ b = d.
Abbreviation Inv := (Inv keccak256 is_tip20).
Abbreviation Agree := (Agree keccak256).
Abbreviation Tracked := (Tracked keccak256).
Abbreviation key := (compute_book_key keccak256).
Abbreviation next_id w := (Z.max (next_order_id (ob w)) 1).

Lemma Inv_ids s B k b e : Inv s B -> e ∈ B k b -> 1 <= e_id e < Z.max (next_order_id s) 1.
Proof.
  intros I He. pose proof (inv_ids _ _ _ _ I k b e He). pose proof (rep_pos _ _ (inv_rep _ _ _ _ I) k b e He). lia.
Qed.

Lemma Inv_uniq s B : Inv s B -> uniq B.
Proof. intros I. eapply Rep_uniq, I. Qed.

(** Matching against one queue, with a possible new order on the other. *)
Lemma Inv_transition w B B' k (b : bool) limit amount rem fs :
  Inv (ob w) B -> 0 <= amount -> 
  amatch b limit amount (B k b) = (B' k b, rem, fs) ->
  (forall k' b' x, ~ (k' = k /\ b' = b) -> x ∈ B' k' b' -> e_id x = next_id w \/ x ∈ B k' b') ->
  (forall k' b' x, ~ (k' = k /\ b' = b) -> x ∈ B k' b' -> x ∈ B' k' b') ->
  Transition B B' (next_id w) fs.
Proof.
  intros I Ha Hm H1 H2.
  apply (Transition_match B B' k b limit amount rem fs (next_id w) (next_id w)); try done; try lia.
  - by eapply Inv_uniq.
  - intros k' b' e. by eapply Inv_ids.
  - apply (rep_nodup _ _ (inv_rep _ _ _ _ I)).
  - apply Forall_forall, (inv_entry _ _ _ _ I).
Qed.

Lemma amatch_rem_nonneg b limit rem l l' r fs :
  0 <= rem -> amatch b limit rem l = (l', r, fs) -> 0 <= r.
Proof.
  revert rem l' r fs. induction l as [|e l IH]; intros rem l' r fs Hr Hm; cbn [amatch] in Hm; [by simplify_eq|].
  destruct (_ || _); [by simplify_eq|]. destruct (Z.leb_spec (e_qty e) rem) as [Hle|]; [|by simplify_eq].
  destruct (amatch b limit (rem - e_qty e) l) as [[l2 r2] fs2] eqn:E. simplify_eq.
  by eapply (IH (rem - e_qty e)); [lia|].
Qed.

(** A queue entry not under the new id was there before. *)
Lemma Inv_not_new w B B' k (b : bool) limit amount rem fs k' b' x :
  Inv (ob w) B -> amatch b limit amount (B k b) = (B' k b, rem, fs) ->
  (forall k' b' x, ~ (k' = k /\ b' = b) -> x ∈ B' k' b' -> x ∈ B k' b') ->
  x ∈ B' k' b' -> e_id x <> next_id w.
Proof.
  intros I Hm Hfrom Hx Ei. assert (Hy : exists y, y ∈ B k' b' /\ e_id y = e_id x).
  { destruct (decide (k' = k /\ b' = b)) as [[-> ->]|Hne]; [|by eauto].
    destruct (amatch_from _ _ _ _ _ _ _ Hm x Hx) as (c & Hc & -> & _). eauto. }
  destruct Hy as (y & Hy & Ey). pose proof (Inv_ids _ _ _ _ _ I Hy). lia.
Qed.

Lemma match_sum s B k b limit amount l' rem fs :
  Inv s B -> 0 <= amount -> 0 <= limit -> amatch b limit amount (B k b) = (l', rem, fs) ->
  sumZ snd fs = amount - rem /\ 0 <= rem <= amount /\ forall ef, ef ∈ fs -> 0 < ef.2.
Proof.
  intros I Ha Hl Hm.
  destruct (amatch_fills b limit amount (B k b) l' rem fs
    (proj2 (Forall_forall _ _) (inv_entry _ _ _ _ I k b)) Ha Hl Hm) as (Hall & Hs & _).
  assert (Hpos : forall ef, ef ∈ fs -> 0 < ef.2).
  { intros ef Hef. rewrite Forall_forall in Hall. apply Hall in Hef. lia. }
  split; [done|]. split; [|done]. pose proof (amatch_rem_nonneg _ _ _ _ _ _ _ Ha Hm).
  assert (0 <= sumZ snd fs) by (apply sumZ_nonneg; intros ef Hef; apply Hpos in Hef; lia). lia.
Qed.

Lemma placed_agree sender bs qt amount price is_bid tif w B id w' evs new :
  Inv (ob w) B -> Placed keccak256 sender bs qt amount price is_bid tif w B id w' ->
  tif = TIME_IN_FORCE_GTC -> MIN_ORDER_AMOUNT <= amount <= U128_MAX -> 0 <= price ->
  Agree (next_id w) B evs -> stamps evs = logs w -> stamps (evs ++ new) = logs w' ->
  exists B', Inv (ob w') B' /\ Agree (next_id w') B' (evs ++ new).
Proof.
  intros I [P -> Pn _] -> Ham Hp A Hl Hl'. unfold MIN_ORDER_AMOUNT in Ham.
  destruct P as (B' & rem & fs & I' & Hm & Hside & Hother & Hlogs). exists B'. split; [done|].
  replace (next_id w') with (next_id w + 1) by lia.
  unfold stamps in Hl'. rewrite fmap_app in Hl'. fold (stamps evs) in Hl'. rewrite Hl, Hlogs in Hl'.
  apply app_inv_head in Hl'. fold (stamps new) in Hl'. cbn [app] in Hl'.
  apply stamps_cons_inv in Hl' as (block & tx & n2 & -> & Hl').
  apply stamps_app_inv in Hl' as (ss & post & -> & Hs & Hpost).
  assert (T : Transition B B' (next_id w) fs).
  { apply (Inv_transition w B B' (key bs qt) (negb is_bid) price amount rem fs); try done; try lia.
    - intros k' b' x Hne Hx. destruct (decide (k' = key bs qt)) as [->|Hk]; [|right; by rewrite <-Hother].
      assert (b' = is_bid) as -> by (destruct b', is_bid; cbn in Hne; tauto).
      rewrite Hside in Hx. destruct (0 <? rem); [|by right]. apply elem_of_ins in Hx as [->|?]; [by left|by right].
    - intros k' b' x Hne Hx. destruct (decide (k' = key bs qt)) as [->|Hk]; [|by rewrite Hother].
      assert (b' = is_bid) as -> by (destruct b', is_bid; cbn in Hne; tauto).
      rewrite Hside. destruct (0 <? rem); [|done]. apply elem_of_ins. by right. }
  destruct (match_sum (ob w) B (key bs qt) (negb is_bid) price amount _ rem fs I ltac:(lia) Hp Hm) as (Hsum & Hrem & Hpos).
  pose proof (fun k b e => Inv_ids (ob w) B k b e I) as Hids.
  pose proof (fresh_fill _ _ _ _ Hids T) as Hfresh.
  destruct (taker_view keccak256 (next_id w) B evs (next_id w) sender bs qt amount price is_bid ORDER_KIND_LIMIT
    TIME_IN_FORCE_GTC block tx ss fs A) as (o & Hv & Hst & Hf & Hc & Hfull); try done; try lia.
  apply (order_agree keccak256 (next_id w) B B' evs sender bs qt amount price is_bid ORDER_KIND_LIMIT
    TIME_IN_FORCE_GTC block tx ss post fs); try done; try lia.
  - by eapply Inv_uniq.
  - intros ev id a Hev Ho. rewrite Hpost in Hev. destruct (0 <? rem); [|by apply not_elem_of_nil in Hev].
    apply elem_of_cons in Hev as [->|[]%not_elem_of_nil]. by destruct Ho as [<- <-].
  - destruct (Z.ltb_spec 0 rem) as [Hr|Hr].
    + apply stamps_cons_inv in Hpost as (block' & tx' & p2 & -> & Hp2). destruct p2; [|done].
      destruct (on_placed_live o rem block' _ _ _ _ _ _ _ _ Hst) as [Hst' Hlive]; [lia|done|].
      eexists (on_placed rem block' o), sender, bs, qt, amount, price, is_bid, ORDER_KIND_LIMIT, TIME_IN_FORCE_GTC.
      split.
      { rewrite (view_post _ _ _ _ _ _ Hv). cbn [foldl step_id default]. by rewrite Z.eqb_refl. }
      split; [unfold stamps; rewrite !fmap_app, !elem_of_app; right; left; left|].
      split; [done|]. split; [lia|]. left. eexists. split; [rewrite Hside; apply elem_of_ins; by left|]. done.
    + destruct post; [|done].
      eexists o, sender, bs, qt, amount, price, is_bid, ORDER_KIND_LIMIT, TIME_IN_FORCE_GTC.
      rewrite app_nil_r. split; [done|].
      split; [unfold stamps; rewrite !fmap_app, !elem_of_app; right; left; left|].
      split; [done|]. split; [lia|]. right. split; [|apply Hfull; lia].
      intros k b e He. eapply (Inv_not_new w B B'); [exact I|exact Hm| |exact He].
      intros k' b' x Hne Hx. destruct (decide (k' = key bs qt)) as [->|Hk]; [|by rewrite <-Hother].
      assert (b' = is_bid) as -> by (destruct b', is_bid; cbn in Hne; tauto). by rewrite <-Hside.
Qed.

Lemma on_cancelled_done o c r block tx id is_bid bs qt amount limit kind tif :
  static o id is_bid bs qt amount limit kind tif -> 0 <= oe_filled o -> 0 < c -> oe_filled o + c = amount ->
  static (on_cancelled c r block tx o) id is_bid bs qt amount limit kind tif /\ done_entry (on_cancelled c r block tx o).
Proof.
  intros Hst Hf Hc Hs. split; [done|]. unfold done_entry. cbn. assert (oe_amount o = amount) by apply Hst.
  repeat split; try lia. right. split; [done|lia].
Qed.

Lemma marketed_agree sender bs qt amount limit is_bid tif w B id filled total w' evs new :
  Inv (ob w) B -> Marketed keccak256 sender bs qt amount limit is_bid tif w B id filled total w' ->
  tif_from_abi tif <> None -> MIN_ORDER_AMOUNT <= amount <= U128_MAX -> 0 <= limit ->
  Agree (next_id w) B evs -> stamps evs = logs w -> stamps (evs ++ new) = logs w' ->
  exists B', Inv (ob w') B' /\ Agree (next_id w') B' (evs ++ new).
Proof.
  intros I [P Hfilled _ _ -> Pn _] Htif Ham Hp A Hl Hl'. unfold MIN_ORDER_AMOUNT in Ham.
  destruct P as (B' & fs & I' & Hm & Hother & _ & Hlogs). exists B'. split; [done|].
  replace (next_id w') with (next_id w + 1) by lia.
  unfold stamps in Hl'. rewrite fmap_app in Hl'. fold (stamps evs) in Hl'. rewrite Hl, Hlogs in Hl'.
  apply app_inv_head in Hl'. fold (stamps new) in Hl'. cbn [app] in Hl'.
  apply stamps_cons_inv in Hl' as (block & tx & n2 & -> & Hl').
  apply stamps_app_inv in Hl' as (ss & post & -> & Hs & Hpost).
  assert (Hoth : forall k' b', ~ (k' = key bs qt /\ b' = negb is_bid) -> B' k' b' = B k' b').
  { intros k' b' Hne. apply Hother. naive_solver. }
  assert (T : Transition B B' (next_id w) fs).
  { apply (Inv_transition w B B' (key bs qt) (negb is_bid) limit amount (amount - filled) fs); try done; try lia.
    - intros k' b' x Hne Hx. right. by rewrite <-Hoth.
    - intros k' b' x Hne Hx. by rewrite Hoth. }
  destruct (match_sum (ob w) B (key bs qt) (negb is_bid) limit amount _ (amount - filled) fs I ltac:(lia) Hp Hm)
    as (Hsum & _ & Hpos).
  pose proof (fun k b e => Inv_ids (ob w) B k b e I) as Hids.
  pose proof (fresh_fill _ _ _ _ Hids T) as Hfresh.
  destruct (taker_view keccak256 (next_id w) B evs (next_id w) sender bs qt amount limit is_bid ORDER_KIND_MARKET
    tif block tx ss fs A) as (o & Hv & Hst & Hf & Hc & Hfull); try done; try lia.
  assert (Hgone : forall k b e, e ∈ B' k b -> e_id e <> next_id w).
  { intros k b e He. eapply (Inv_not_new w B B'); [exact I|exact Hm| |exact He].
    intros k' b' x Hne Hx. by rewrite <-Hoth. }
  apply (order_agree keccak256 (next_id w) B B' evs sender bs qt amount limit is_bid ORDER_KIND_MARKET
    tif block tx ss post fs); try done; try lia.
  - by eapply Inv_uniq.
  - intros ev id a Hev Ho. rewrite Hpost in Hev. destruct (filled <? amount); [|by apply not_elem_of_nil in Hev].
    apply elem_of_cons in Hev as [->|[]%not_elem_of_nil]. by destruct Ho as [<- <-].
  - assert (Hsub : forall post, OrderSubmitted (next_id w) sender bs qt amount limit is_bid ORDER_KIND_MARKET tif ∈
      stamps (evs ++ [(block, tx, OrderSubmitted (next_id w) sender bs qt amount limit is_bid ORDER_KIND_MARKET tif)]
              ++ ss ++ post)).
    { intros p. unfold stamps. rewrite !fmap_app, !elem_of_app. right; left; left. }
    destruct (Z.ltb_spec filled amount) as [Hr|Hr].
    + apply stamps_cons_inv in Hpost as (block' & tx' & p2 & -> & Hp2). destruct p2; [|done].
      destruct (on_cancelled_done o (amount - filled) CANCEL_REASON_IOC_REMAINDER block' tx' _ _ _ _ _ _ _ _ Hst)
        as [Hst' Hdone]; [lia|lia|lia|].
      eexists _, sender, bs, qt, amount, limit, is_bid, ORDER_KIND_MARKET, tif.
      split; [rewrite (view_post _ _ _ _ _ _ Hv); cbn [foldl step_id]; by rewrite Z.eqb_refl|].
      split; [apply Hsub|]. split; [exact Hst'|]. split; [lia|]. by right.
    + destruct post; [|done].
      eexists o, sender, bs, qt, amount, limit, is_bid, ORDER_KIND_MARKET, tif.
      split; [by rewrite app_nil_r|]. split; [apply Hsub|].
      split; [done|]. split; [lia|]. right. split; [done|]. apply Hfull; lia.
Qed.

(** Removing a live order under its own cancellation event. *)
Lemma cancelled_agree k b l1 e l2 w w' B evs new :
  Inv (ob w) B -> B k b = l1 ++ e :: l2 ->
  Agree (next_id w) B evs ->
  stamps new = [OrderCancelled (e_id e) (e_maker e) (e_qty e) CANCEL_REASON_USER] ->
  next_order_id (ob w') = next_order_id (ob w) ->
  Agree (next_id w') (upd_queue B k b (l1 ++ l2)) (evs ++ new).
Proof.
  intros I EB A Hnew Hnext. rewrite Hnext.
  assert (He : e ∈ B k b) by (rewrite EB; apply elem_of_app; right; left).
  pose proof (Inv_ids _ _ _ _ _ I He) as Hid. pose proof (Inv_uniq _ _ I) as U.
  assert (Hin : forall k' b' x, x ∈ upd_queue B k b (l1 ++ l2) k' b' <-> x ∈ B k' b' /\ e_id x <> e_id e).
  { pose proof (rep_nodup _ _ (inv_rep _ _ _ _ I) k b) as Hnd. rewrite EB in Hnd. unfold ids in Hnd.
    rewrite fmap_app, fmap_cons in Hnd. apply NoDup_app in Hnd as (_ & Hd1 & [Hd2 _]%NoDup_cons).
    intros k' b' x. destruct (decide (k = k' /\ b = b')) as [[<- <-]|Hne].
    - rewrite upd_queue_eq, EB, !elem_of_app, elem_of_cons. split.
      + intros [Hx|Hx]; (split; [tauto|]); intros Ex.
        * apply (Hd1 (e_id x)); [by apply list_elem_of_fmap_2|]. rewrite Ex. left.
        * apply Hd2. rewrite <-Ex. by apply list_elem_of_fmap_2.
      + intros [[Hx|[->|Hx]] Hn]; tauto.
    - rewrite upd_queue_ne by tauto. split; [|tauto]. intros Hx. split; [done|]. intros Ex.
      apply Hne. destruct (U _ _ _ _ _ _ He Hx) as (-> & -> & _); done. }
  apply (Agree_extend keccak256 (next_id w) _ B _ _ _ 0); try done; try lia.
  - intros k' b' x. by eapply Inv_ids.
  - intros ev id a Hev Ho. rewrite Hnew in Hev. apply elem_of_cons in Hev as [->|[]%not_elem_of_nil].
    destruct Ho as [<- <-]. right. eauto 10.
  - intros ev a Hev Ho. rewrite Hnew in Hev. apply elem_of_cons in Hev as [->|[]%not_elem_of_nil].
    destruct Ho as [Ho _]. lia.
  - intros id Hr. apply stamps_cons_inv in Hnew as (block & tx & n2 & -> & Hn2). destruct n2; [|done].
    destruct (ag_tracked _ _ _ _ A id Hr) as (o & mk & bs & qt & am & li & ib & ki & ti & Hv & Hsub & Hst & Ham & Hcase).
    assert (Hsub' : forall p, OrderSubmitted id mk bs qt am li ib ki ti ∈ stamps (evs ++ p)).
    { intros p. unfold stamps. rewrite fmap_app, elem_of_app. by left. }
    assert (Hview : view id (evs ++ [(block, tx, OrderCancelled (e_id e) (e_maker e) (e_qty e) CANCEL_REASON_USER)]) =
      if e_id e =? id then Some (on_cancelled (e_qty e) CANCEL_REASON_USER block tx o) else Some o).
    { rewrite view_app, Hv. cbn [foldl step_id]. by destruct (e_id e =? id). }
    destruct (Z.eqb_spec (e_id e) id) as [<-|Hne].
    + destruct Hcase as [(e' & He' & Ei & _ & _ & _ & _ & Hlive)|[Hgone _]]; [|by exfalso; apply (Hgone k b e)].
      destruct (U _ _ _ _ _ _ He He') as (_ & _ & <-); [done|].
      destruct Hlive as (Hq & Hrem & Hfil & Hcan & _). assert (oe_amount o = am) by apply Hst.
      destruct (on_cancelled_done o (e_qty e) CANCEL_REASON_USER block tx _ _ _ _ _ _ _ _ Hst) as [Hst' Hd]; [lia..|].
      eexists _, mk, bs, qt, am, li, ib, ki, ti. split; [exact Hview|]. split; [apply Hsub'|].
      split; [exact Hst'|]. split; [done|]. right. split; [|done]. intros k' b' x [_ Hx]%Hin. done.
    + exists o, mk, bs, qt, am, li, ib, ki, ti. split; [exact Hview|]. split; [apply Hsub'|].
      split; [done|]. split; [done|]. destruct Hcase as [(e' & He' & Ei & Hr')|[Hgone Hd]].
      * left. exists e'. split; [apply Hin; split; [done|congruence]|done].
      * right. split; [|done]. intros k' b' x [Hx _]%Hin. by apply (Hgone k' b').
Qed.

(** What every call maintains: the events of the state, however stamped,
    agree with its queues. *)
Definition agrees w : Prop :=
  forall evs, stamps evs = logs w -> exists B, Inv (ob w) B /\ Agree (next_id w) B evs.

(** A call that keeps queues, ids and log, and one that extends the log. *)
Lemma agrees_same w w' :
  agrees w -> (forall B, Inv (ob w) B -> Inv (ob w') B) -> logs w' = logs w ->
  next_order_id (ob w') = next_order_id (ob w) -> agrees w'.
Proof.
  intros A I El En evs Hs. destruct (A evs) as (B & HI & HA); [congruence|].
  exists B. rewrite En. split; [by apply I|done].
Qed.

Lemma agrees_extend w w' X :
  agrees w -> logs w' = logs w ++ X ->
  (forall B evs new, Inv (ob w) B -> stamps evs = logs w -> stamps (evs ++ new) = logs w' ->
     Agree (next_id w) B evs -> exists B', Inv (ob w') B' /\ Agree (next_id w') B' (evs ++ new)) ->
  agrees w'.
Proof.
  intros A El H evs' Hs. pose proof Hs as Hs'. rewrite El in Hs'.
  apply stamps_app_inv in Hs' as (evs & new & -> & He & _). destruct (A evs He) as (B & I & HA).
  by apply (H B).
Qed.

Lemma market_buy_guards sender bs qt amount p tif w r :
  market_buy keccak256 sender bs qt amount p tif w = Ok r ->
  (tif = TIME_IN_FORCE_IOC \/ tif = TIME_IN_FORCE_FOK) /\ MIN_ORDER_AMOUNT <= amount.
Proof.
  unfold market_buy, reject_if, mbind, M_bind, throw, mret, M_ret. intros E.
  destruct (Z.eqb_spec tif TIME_IN_FORCE_IOC), (Z.eqb_spec tif TIME_IN_FORCE_FOK); cbn in E; try done;
    destruct (bs =? qt); try done; destruct (Z.ltb_spec amount MIN_ORDER_AMOUNT); try done; auto.
Qed.

Lemma market_sell_guards sender bs qt amount p tif w r :
  market_sell keccak256 sender bs qt amount p tif w = Ok r ->
  (tif = TIME_IN_FORCE_IOC \/ tif = TIME_IN_FORCE_FOK) /\ MIN_ORDER_AMOUNT <= amount.
Proof.
  unfold market_sell, reject_if, mbind, M_bind, throw, mret, M_ret. intros E.
  destruct (Z.eqb_spec tif TIME_IN_FORCE_IOC), (Z.eqb_spec tif TIME_IN_FORCE_FOK); cbn in E; try done;
    destruct (bs =? qt); try done; destruct (Z.ltb_spec amount MIN_ORDER_AMOUNT); try done; auto.
Qed.

Lemma place_agrees sender bs qt amount price is_bid tif w id w' :
  agrees w -> next_id w < U128_MAX -> sender <> DARKPOOL_ADDRESS -> in_u128 amount -> in_u128 price ->
  place keccak256 sender bs qt amount price is_bid tif w = Ok (id, w') -> agrees w'.
Proof.
  intros A Hn Hu Ha Hp E.
  assert (Hspec : forall B, Inv (ob w) B -> Placed keccak256 sender bs qt amount price is_bid tif w B id w' /\
    tif = TIME_IN_FORCE_GTC /\ MIN_ORDER_AMOUNT <= amount /\ bs <> qt).
  { intros B I. pose proof (place_spec keccak256 book_key_inj sender bs qt amount price is_bid tif w B I Hn Hu Ha Hp) as S0.
    unfold run in S0. by rewrite E in S0. }
  destruct (A ((fun ev => (0, 0, ev)) <$> logs w)) as (B & I & _).
  { unfold stamps. rewrite <-list_fmap_compose. apply list_fmap_id. }
  destruct (Hspec B I) as ([(? & ? & ? & _ & _ & _ & _ & Hl) _ _ _] & _).
  eapply (agrees_extend w w'); [done|exact Hl|]. clear B I Hl. intros B evs new I Hs Hs' HA.
  destruct (Hspec B I) as (P & Ht & Hm & _). unfold in_u128 in *.
  by eapply placed_agree; [exact I|exact P|done|lia|lia|..].
Qed.

Lemma market_agrees sender bs qt amount limit is_bid tif w id f q w' :
  agrees w -> in_u128 amount -> in_u128 limit ->
  (forall B, Inv (ob w) B -> Marketed keccak256 sender bs qt amount limit is_bid tif w B id f q w') ->
  (tif = TIME_IN_FORCE_IOC \/ tif = TIME_IN_FORCE_FOK) /\ MIN_ORDER_AMOUNT <= amount -> agrees w'.
Proof.
  intros A Ha Hp Hspec [Ht Hm].
  destruct (A ((fun ev => (0, 0, ev)) <$> logs w)) as (B & I & _).
  { unfold stamps. rewrite <-list_fmap_compose. apply list_fmap_id. }
  destruct (Hspec B I) as [(? & ? & _ & _ & _ & _ & Hl) _ _ _ _ _ _].
  eapply (agrees_extend w w'); [done|exact Hl|]. clear B I Hl. intros B evs new I Hs Hs' HA. unfold in_u128 in *.
  eapply marketed_agree; [exact I|by apply Hspec| |lia|lia|done|done|done]. by destruct Ht as [-> | ->].
Qed.

Lemma cancel_agrees sender id w w' :
  agrees w -> cancel sender id w = Ok (tt, w') -> agrees w'.
Proof.
  intros A E evs' Hs.
  assert (Hspec : forall B, Inv (ob w) B -> run (cancel sender id) w (fun _ w' =>
    exists k b l1 e l2, B k b = l1 ++ e :: l2 /\ e_id e = id /\ e_maker e = sender /\
      Inv (ob w') (upd_queue B k b (l1 ++ l2)) /\ next_order_id (ob w') = next_order_id (ob w) /\
      logs w' = logs w ++ [OrderCancelled id sender (e_qty e) CANCEL_REASON_USER])).
  { intros B I. eapply run_mono; [by apply cancel_spec|].
    intros [] w1 (k & b & l1 & e & l2 & ? & ? & ? & ? & _ & ? & _ & _ & _ & ?). exists k, b, l1, e, l2. done. }
  destruct (A ((fun ev => (0, 0, ev)) <$> logs w)) as (B0 & I0 & _).
  { unfold stamps. rewrite <-list_fmap_compose. apply list_fmap_id. }
  pose proof (Hspec B0 I0) as S0. unfold run in S0. rewrite E in S0.
  destruct S0 as (k0 & b0 & l10 & e0 & l20 & _ & _ & _ & _ & _ & Hl0).
  pose proof Hs as Hs'. rewrite Hl0 in Hs'. apply stamps_app_inv in Hs' as (evs & new & -> & He & _).
  destruct (A evs He) as (B & I & HA). pose proof (Hspec B I) as S1. unfold run in S1. rewrite E in S1.
  destruct S1 as (k & b & l1 & e & l2 & EB & <- & <- & I' & Hn & Hl).
  exists (upd_queue B k b (l1 ++ l2)). split; [done|].
  apply (cancelled_agree k b l1 e l2 w w'); try done.
  unfold stamps in Hs. rewrite fmap_app, Hl in Hs. fold (stamps evs) in Hs. rewrite He in Hs.
  by apply app_inv_head in Hs.
Qed.

Lemma bind_ret_Ok {A C} (m : M (World L) fault A) (g : A -> C) w c w' :
  (x ← m; mret (g x)) w = Ok (c, w') -> exists a, m w = Ok (a, w').
Proof. unfold mbind, M_bind, mret, M_ret. destruct (m w) as [[a w1]|]; [|done]. intros [= _ <-]. eauto. Qed.

Lemma call_agrees calldata sender w out w' :
  agrees w -> (exists B, Inv (ob w) B) -> next_id w < U128_MAX -> sender <> DARKPOOL_ADDRESS ->
  call keccak256 decode calldata sender w = Ok (out, w') -> agrees w'.
Proof.
  intros A (B0 & I0) Hn Hu E. unfold call in E. destruct (decode calldata) as [c|] eqn:Ed; [|done].
  apply decode_wf in Ed. assert (Hview : w' = w -> agrees w') by (by intros ->).
  destruct c; cbn [call_wf] in Ed; repeat match goal with H : _ /\ _ |- _ => destruct H end;
    try (apply Hview; clear - E;
         unfold get_order, pair_at, pair_count, pair_exists, best_bid, best_ask, balance_of, orders_read,
           books_read, lift_option, reject_if, get, throw, mbind, M_bind, mret, M_ret in E;
         repeat case_match; simplify_eq; done).
  - apply bind_ret_Ok in E as (id & E). eapply place_agrees; [exact A|exact Hn|exact Hu| | |exact E]; done.
  - apply bind_ret_Ok in E as ([] & E). eapply cancel_agrees; [exact A|exact E].
  - apply bind_ret_Ok in E as ([] & E). unfold in_u128 in Ed.
    assert (Hd : forall B, Inv (ob w) B -> Funded sender token amount w w' /\ Inv (ob w') B).
    { intros B I. pose proof (deposit_spec keccak256 sender token amount w B I ltac:(lia)) as S0.
      unfold run in S0. by rewrite E in S0. }
    destruct (Hd B0 I0) as [F _]. eapply (agrees_same w); [exact A| |apply F|apply F]. intros B I. apply (Hd B I).
  - apply bind_ret_Ok in E as ([] & E). unfold in_u128 in Ed.
    assert (Hd : forall B, Inv (ob w) B -> logs w' = logs w /\ next_order_id (ob w') = next_order_id (ob w) /\ Inv (ob w') B).
    { intros B I. pose proof (withdraw_spec keccak256 sender token amount w B I ltac:(lia) Hu) as S0.
      unfold run in S0. rewrite E in S0. destruct S0 as (_ & (w1 & C & E1) & I' & El & _).
      split; [done|]. split; [|done]. rewrite E1. apply C. }
    destruct (Hd B0 I0) as (El & En & _). eapply (agrees_same w); [exact A| |done|done]. intros B I. apply (Hd B I).
  - apply Hview. unfold reject_if, mbind, M_bind, throw, mret, M_ret in E. destruct (negb _); [done|].
    rewrite (available_balance_of_spec _ _ user token w B0 I0) in E. by injection E.
  - apply bind_ret_Ok in E as (k & E).
    assert (Hd : forall B, Inv (ob w) B -> w' = set_ob (with_pair k base quote (ob w)) w /\ Inv (ob w') B).
    { intros B I. pose proof (create_pair_spec keccak256 book_key_inj base quote w B I) as S0.
      unfold run in S0. rewrite E in S0. by destruct S0 as (_ & _ & _ & ? & ?). }
    destruct (Hd B0 I0) as [-> _]. eapply (agrees_same w); [exact A| |done|done]. intros B I. apply (Hd B I).
  - unfold mbind, M_bind in E. destruct (market_buy _ _ _ _ _ _ _ w) as [[[[i f] q] w1]|] eqn:Em; [|done].
    unfold mret, M_ret in E. injection E as _ <-. eapply (market_agrees sender base quote amount maxPrice true timeInForce w i f q); try done.
    + intros B I. pose proof (market_buy_spec keccak256 book_key_inj sender base quote amount maxPrice timeInForce w B I) as S0.
      unfold run in S0. rewrite Em in S0. by apply S0.
    + by eapply market_buy_guards.
  - unfold mbind, M_bind in E. destruct (market_sell _ _ _ _ _ _ _ w) as [[[[i f] q] w1]|] eqn:Em; [|done].
    unfold mret, M_ret in E. injection E as _ <-. eapply (market_agrees sender base quote amount minPrice false timeInForce w i f q); try done.
    + intros B I. pose proof (market_sell_spec keccak256 book_key_inj sender base quote amount minPrice timeInForce w B I) as S0.
      unfold run in S0. rewrite Em in S0. by apply S0.
    + by eapply market_sell_guards.
Qed.

(** In every reachable state the event log determines the book. *)
Lemma reach_agrees n w : reach keccak256 decode n w -> Z.of_nat n < U128_MAX -> agrees w.
Proof.
  induction 1 as [l Hl | n w w' Hr IH Hs]; intros Hn.
  - intros evs He. exists (fun _ _ => []). split; [apply Inv_empty|]. cbn in *.
    destruct evs; [|done]. split.
    + intros id Hid. lia.
    + intros ev id a Hev. by apply not_elem_of_nil in Hev.
    + intros ev1 ev2 id a1 a2 Hev. by apply not_elem_of_nil in Hev.
  - destruct (reach_inv keccak256 decode decode_wf book_key_inj n w Hr ltac:(lia)) as ((B & I) & Hx & _).
    destruct Hs as [sender calldata out w' Hu E | l Hl].
    + eapply call_agrees; [apply IH; lia|by exists B|lia|exact Hu|exact E].
    + eapply (agrees_same w); [apply IH; lia|done|done|done].
Qed.
End Reach.
