(* ===== verification/RpcHistoryProofs.v ===== *)
(** * Private RPC history: proofs

    The history methods over a node whose log store answers as [eth_getLogs]
    documents: an order reported by [zone_get_order] or [zone_get_my_orders] is
    the order of the book, and the pages of fills and transfers cover the
    history once. *)

From stdpp Require Import gmap sets strings.
From S2P Require Import Prelude.
From S2P Require Import BTree.
From S2P Require Import OrderbookModel.
From S2P Require Import OrderbookRep.
From S2P Require Import OrderbookInv.
From S2P Require Import OrderbookFunding.
From S2P Require Import OrderbookOps.
From S2P Require Import OrderbookSafety.
From S2P Require Import RpcLogs.
From S2P Require Import RpcLogsProofs.
From S2P Require Import RpcHistory.
From S2P Require Import RpcHistoryBook.
#[local] Open Scope Z_scope.

(** ** Sorting and deduplication *)

Definition pair_lt (p q : Z * Z) : Prop := p.1 < q.1 \/ (p.1 = q.1 /\ p.2 < q.2).

Lemma pair_lt_irrefl p : ~ pair_lt p p.
Proof. unfold pair_lt. lia. Qed.
Lemma pair_lt_trans p q r : pair_lt p q -> pair_lt q r -> pair_lt p r.
Proof. unfold pair_lt. lia. Qed.
Lemma pair_le_true p q : pair_le p q = true <-> pair_lt p q \/ p = q.
Proof. destruct p, q. unfold pair_le, pair_lt. cbn. rewrite orb_true_iff, andb_true_iff, Z.ltb_lt, Z.eqb_eq, Z.leb_le.
  split; [|intros [?|[= -> ->]]; lia]. intros H. destruct (decide (z0 = z2)) as [->|], (decide (z = z1)) as [->|];
    (by right) || (left; lia). Qed.
Lemma pair_le_false p q : pair_le p q = false <-> pair_lt q p.
Proof. destruct p, q. unfold pair_le, pair_lt. cbn. rewrite orb_false_iff, andb_false_iff, Z.ltb_ge, Z.eqb_neq, Z.leb_gt. lia. Qed.

Section Sorting.
Context {A : Type} (key : A -> Z * Z).

(** Weakly and strictly increasing keys. *)
Definition weak : list A -> Prop := StronglySorted (fun a b => pair_le (key a) (key b) = true).
Definition strict : list A -> Prop := StronglySorted (fun a b => pair_lt (key a) (key b)).

Abbreviation le := (fun a b => pair_le (key a) (key b)).

Lemma elem_of_insert_by x y l : y ∈ insert_by le x l <-> y = x \/ y ∈ l.
Proof.
  induction l as [|z l IH]; cbn [insert_by].
  - by rewrite elem_of_cons.
  - destruct (le x z); rewrite !elem_of_cons; [done|]. rewrite IH. tauto.
Qed.

Lemma elem_of_sort_by y l : y ∈ sort_by le l <-> y ∈ l.
Proof.
  unfold sort_by. induction l as [|x l IH]; cbn [foldr]; [done|].
  by rewrite elem_of_insert_by, IH, elem_of_cons.
Qed.

Lemma insert_by_weak x l : weak l -> weak (insert_by le x l).
Proof.
  unfold weak. induction 1 as [|y l Hs IH Hall]; cbn [insert_by]; [repeat constructor|].
  rewrite Forall_forall in Hall. destruct (le x y) eqn:E.
  - constructor; [constructor; [done|by apply Forall_forall]|]. constructor; [done|]. apply Forall_forall.
    intros z Hz. apply Hall in Hz. apply pair_le_true. apply pair_le_true in E, Hz.
    destruct E as [E|E], Hz as [Hz|Hz]; [left; by eapply pair_lt_trans|left; by rewrite <-Hz|left; by rewrite E|right; congruence].
  - apply pair_le_false in E. constructor; [done|]. apply Forall_forall. intros z [->|Hz]%elem_of_insert_by.
    + apply pair_le_true. by left.
    + by apply Hall.
Qed.

Lemma sort_by_weak l : weak (sort_by le l).
Proof. unfold sort_by. induction l; cbn [foldr]; [constructor|by apply insert_by_weak]. Qed.

Lemma strict_ext l1 l2 : strict l1 -> strict l2 -> (forall x, x ∈ l1 <-> x ∈ l2) -> l1 = l2.
Proof.
  unfold strict. intros H1. revert l2. induction H1 as [|x l1 Hs IH Hx]; intros l2 H2 He.
  - destruct l2 as [|y l2]; [done|]. exfalso. apply (not_elem_of_nil y), He. left.
  - destruct H2 as [|y l2 Hs2 Hy].
    { exfalso. apply (not_elem_of_nil x), He. left. }
    rewrite Forall_forall in Hx, Hy.
    assert (x = y) as <-.
    { pose proof (proj1 (He x) ltac:(left)) as Hxy. apply elem_of_cons in Hxy as [|Hxy]; [done|].
      pose proof (proj2 (He y) ltac:(left)) as Hyx. apply elem_of_cons in Hyx as [|Hyx]; [done|].
      exfalso. apply (pair_lt_irrefl (key x)). eapply pair_lt_trans; [apply Hx, Hyx|apply Hy, Hxy]. }
    f_equal. apply IH; [done|]. intros z. split; intros Hz.
    + pose proof (proj1 (He z) ltac:(by right)) as Hz'. apply elem_of_cons in Hz' as [->|]; [|done].
      exfalso. by apply (pair_lt_irrefl (key x)), Hx.
    + pose proof (proj2 (He z) ltac:(by right)) as Hz'. apply elem_of_cons in Hz' as [->|]; [|done].
      exfalso. by apply (pair_lt_irrefl (key x)), Hy.
Qed.

Lemma strict_filter (P : A -> Prop) `{!forall x, Decision (P x)} l : strict l -> strict (filter P l).
Proof.
  unfold strict. induction 1 as [|x l Hs IH Hx]; [constructor|]. rewrite filter_cons.
  destruct (decide (P x)); [|done]. constructor; [done|]. rewrite Forall_forall in *.
  intros y [_ Hy]%list_elem_of_filter. by apply Hx.
Qed.

(** When elements that are the same are equal, and equal keys mean the same
    element, sorting and deduplicating gives the strictly sorted set. *)
Lemma dedup_from_strict (same : A -> A -> bool) kept l :
  (forall a b, a ∈ kept :: l -> b ∈ kept :: l -> same a b = true <-> a = b) ->
  (forall a b, a ∈ kept :: l -> b ∈ kept :: l -> key a = key b -> a = b) ->
  weak (kept :: l) ->
  strict (kept :: dedup_from same kept l) /\ (forall x, x ∈ kept :: dedup_from same kept l <-> x ∈ kept :: l).
Proof.
  revert kept. induction l as [|y l IH]; intros kept Hsame Hkey Hw; cbn [dedup_from].
  { split; [repeat constructor|done]. }
  inversion Hw as [|? ? Hw' Hall]; subst. rewrite Forall_forall in Hall.
  destruct (same y kept) eqn:E.
  - apply Hsame in E as ->; [|right; left|left].
    destruct (IH kept) as [H1 H2].
    + intros a b Ha Hb. apply Hsame; by right.
    + intros a b Ha Hb. apply Hkey; by right.
    + done.
    + split; [done|]. intros x. rewrite H2, !elem_of_cons. tauto.
  - destruct (IH y) as [H1 H2].
    + intros a b Ha Hb. apply Hsame; by right.
    + intros a b Ha Hb. apply Hkey; by right.
    + done.
    + split.
      * constructor; [done|]. apply Forall_forall. intros x Hx. apply H2 in Hx.
        pose proof (Hall x Hx) as Hle. apply pair_le_true in Hle as [|Ek]; [done|].
        apply Hkey in Ek as <-; [|left|by right].
        exfalso. assert (Hyk : y = kept).
        { apply elem_of_cons in Hx as [->|Hx]; [done|].
          inversion Hw' as [|? ? _ Hall']; subst. rewrite Forall_forall in Hall'.
          pose proof (Hall' _ Hx) as L1. pose proof (Hall y ltac:(left)) as L2.
          apply pair_le_true in L1, L2. destruct L1 as [L1|L1], L2 as [L2|L2].
          - exfalso. by eapply pair_lt_irrefl, pair_lt_trans.
          - apply Hkey; [right; left|left|done].
          - apply Hkey; [right; left|left|done].
          - apply Hkey; [right; left|left|done]. }
        assert (same y kept = true) by (apply Hsame; [right; left|left|done]). congruence.
      * intros x. rewrite elem_of_cons, H2. by rewrite (elem_of_cons (y :: l)).
Qed.

Lemma sort_dedup (same : A -> A -> bool) l :
  (forall a b, a ∈ l -> b ∈ l -> same a b = true <-> a = b) ->
  (forall a b, a ∈ l -> b ∈ l -> key a = key b -> a = b) ->
  strict (dedup_by same (sort_by le l)) /\ (forall x, x ∈ dedup_by same (sort_by le l) <-> x ∈ l).
Proof.
  intros Hsame Hkey. pose proof (sort_by_weak l) as Hw. pose proof (fun x => elem_of_sort_by x l) as He.
  destruct (sort_by le l) as [|x s]; cbn [dedup_by].
  { split; [constructor|done]. }
  destruct (dedup_from_strict same x s) as [H1 H2].
  - intros a b Ha Hb. apply Hsame; by apply He.
  - intros a b Ha Hb. apply Hkey; by apply He.
  - done.
  - split; [done|]. intros y. by rewrite H2, He.
Qed.

Lemma sort_by_strict_id l : strict l -> sort_by le l = l.
Proof.
  unfold strict, sort_by. induction 1 as [|x l Hs IH Hx]; [done|]. cbn [foldr]. rewrite IH.
  destruct l as [|y l]; [done|]. cbn [insert_by]. rewrite Forall_forall in Hx.
  assert (E : pair_le (key x) (key y) = true) by (apply pair_le_true; left; apply Hx; left). by rewrite E.
Qed.
End Sorting.

Lemma sort_by_Permutation {A} (le : A -> A -> bool) l : sort_by le l ≡ₚ l.
Proof.
  unfold sort_by. induction l as [|x l IH]; [done|]. cbn [foldr].
  assert (Hi : forall r, insert_by le x r ≡ₚ x :: r).
  { intros r. induction r as [|y r IHr]; [done|]. cbn [insert_by]. destruct (le x y); [done|].
    rewrite IHr. apply Permutation_swap. }
  by rewrite Hi, IH.
Qed.

(** Descending order is ascending order of the negated keys. *)
Definition neg (p : Z * Z) : Z * Z := (- p.1, - p.2).
Lemma pair_le_neg p q : pair_le (neg p) (neg q) = pair_le q p.
Proof.
  destruct p as [a b], q as [c d]. unfold pair_le, neg. cbn.
  destruct (Z.ltb_spec (- a) (- c)), (Z.ltb_spec c a), (Z.eqb_spec (- a) (- c)), (Z.eqb_spec c a),
    (Z.leb_spec (- b) (- d)), (Z.leb_spec d b); cbn; lia || done.
Qed.

Lemma sort_by_ext {A} (le1 le2 : A -> A -> bool) l : (forall a b, le1 a b = le2 a b) -> sort_by le1 l = sort_by le2 l.
Proof.
  intros H. unfold sort_by. induction l as [|x l IH]; [done|]. cbn [foldr]. rewrite IH.
  generalize (foldr (insert_by le2) [] l) as r. intros r. induction r as [|y r IHr]; [done|].
  cbn [insert_by]. rewrite H. by destruct (le2 x y); [|f_equal].
Qed.

Lemma sort_desc {A} (key : A -> Z * Z) l :
  sort_by (fun a b => pair_le (key b) (key a)) l =
  sort_by (fun a b => pair_le (neg (key a)) (neg (key b))) l.
Proof. apply sort_by_ext. intros a b. by rewrite pair_le_neg. Qed.

Lemma strict_inj {A} (key : A -> Z * Z) l a b : strict key l -> a ∈ l -> b ∈ l -> key a = key b -> a = b.
Proof.
  unfold strict. induction 1 as [|x l Hs IH Hx]; [by intros ?%not_elem_of_nil|]. rewrite Forall_forall in Hx.
  intros [->|Ha]%elem_of_cons [->|Hb]%elem_of_cons E; try done.
  - exfalso. apply (pair_lt_irrefl (key x)). rewrite E at 2. by apply Hx.
  - exfalso. apply (pair_lt_irrefl (key x)). rewrite <-E at 2. by apply Hx.
  - by apply IH.
Qed.

(** ** The chain's logs and the orderbook's events *)

(** [block_number <= to], for the bounds the history methods use. *)
Definition below (to : option BlockNumberOrTag) (l : Log) : Prop :=
  match to with
  | Some (Number n) => default 0 (log_block_number l) <= n
  | _ => True
  end.
#[export] Instance below_dec to l : Decision (below to l).
Proof. destruct to as [[]|]; cbn; apply _. Defined.

(** The log store answers a query from the first block on with the matching
    logs, in order. *)
Definition answers (eth_logs : Filter -> option (list Log)) (chain : list Log) : Prop :=
  forall f to, f_block f = Range (Some Earliest) to ->
    eth_logs f = Some (filter (fun l => matches f l /\ below to l) chain).

Section Chain.
Context (decode_log : Log -> option Event).

(** The log of an orderbook event: its address, its indexed fields as topics,
    and data that decodes to it. *)
Definition encodes (l : Log) (ev : Event) : Prop :=
  log_address l = RpcLogs.DARKPOOL_ADDRESS /\ decode_log l = Some ev /\
  match ev with
  | OrderSubmitted i m _ _ _ _ _ _ _ => log_topics l = [SUBMITTED_TOPIC; i; m]
  | OrderPlaced i m _ _ _ _ _ => log_topics l = [PLACED_TOPIC; i; m]
  | OrderFilled mi m t _ _ _ => log_topics l = [FILLED_TOPIC; mi; m; t]
  | OrderCancelled i m _ _ => log_topics l = [CANCELLED_TOPIC; i; m]
  end.

(** Logs in block order, identified by transaction and index, whose darkpool
    part is the orderbook's event log. *)
Record ChainOf (chain : list Log) (evs : list Event) : Prop := mkChainOf {
  ch_sorted : strict log_key chain;
  ch_ids : forall a b, a ∈ chain -> b ∈ chain -> log_id a = log_id b -> a = b;
  ch_events : Forall2 encodes (filter (fun l => log_address l = RpcLogs.DARKPOOL_ADDRESS) chain) evs
}.

Definition stamp_of (l : Log) : option stamped :=
  ev ← event_of decode_log l;
  Some (default 0 (log_block_number l), default 0 (log_transaction_hash l), ev).

Lemma event_of_encodes l ev : encodes l ev -> event_of decode_log l = Some ev.
Proof.
  intros (_ & Hd & Ht). unfold event_of, topic0. destruct ev; rewrite Ht; cbn; rewrite Hd; cbn; done.
Qed.

Lemma stamp_of_encodes l ev : encodes l ev -> exists s, stamp_of l = Some s /\ s.2 = ev.
Proof. intros H. unfold stamp_of. rewrite (event_of_encodes _ _ H). cbn. by eexists. Qed.

Lemma reconstruct_replay logs :
  strict log_key logs -> reconstruct_orders decode_log logs = snd <$> replay (omap stamp_of logs).
Proof.
  intros Hs. unfold reconstruct_orders, sort_logs. rewrite (sort_by_strict_id log_key) by done. f_equal.
  unfold replay. generalize (@nil (Z * OrderEntry)) as m. clear Hs.
  induction logs as [|l logs IH]; intros m; [done|]. cbn [foldl omap list_omap]. rewrite IH. clear IH.
  unfold reconstruct_step. assert (E : stamp_of l = ev ← event_of decode_log l;
    Some (default 0 (log_block_number l), default 0 (log_transaction_hash l), ev)) by done.
  rewrite E. by destruct (event_of decode_log l).
Qed.

Lemma stamps_all ls evs : Forall2 encodes ls evs -> stamps (omap stamp_of ls) = evs.
Proof.
  induction 1 as [|l ev ls evs He _ IH]; [done|]. cbn [omap list_omap].
  destruct (stamp_of_encodes _ _ He) as (s & -> & <-). unfold stamps in *. cbn. by rewrite IH.
Qed.

(** Queries merged, sorted and deduplicated are the chain's logs they select. *)
Lemma merged chain evs (Q : Log -> Prop) `{!forall l, Decision (Q l)} ls :
  ChainOf chain evs -> (forall l, l ∈ ls <-> l ∈ chain /\ Q l) ->
  dedup_by same_log (sort_logs ls) = filter Q chain.
Proof.
  intros C Hls. destruct (sort_dedup log_key same_log ls) as [H1 H2].
  - intros a b [Ha _]%Hls [Hb _]%Hls. unfold same_log.
    rewrite andb_true_iff, !bool_decide_eq_true. split; [|by intros ->].
    intros [E1 E2]. apply (ch_ids _ _ C); [done..|]. unfold log_id. congruence.
  - intros a b [Ha _]%Hls [Hb _]%Hls. by apply (strict_inj log_key chain); [apply C|..].
  - apply (strict_ext log_key); [done|apply strict_filter, C|].
    intros l. rewrite list_elem_of_filter. specialize (H2 l). specialize (Hls l). tauto.
Qed.

Lemma chain_encodes chain evs l :
  ChainOf chain evs -> l ∈ chain -> log_address l = RpcLogs.DARKPOOL_ADDRESS ->
  exists ev, ev ∈ evs /\ encodes l ev.
Proof.
  intros C Hl Ha.
  assert (Hd : l ∈ filter (fun l => log_address l = RpcLogs.DARKPOOL_ADDRESS) chain) by (by apply list_elem_of_filter).
  apply list_elem_of_lookup in Hd as [i Hi].
  destruct (Forall2_lookup_l _ _ _ _ _ (ch_events _ _ C) Hi) as (ev & Hev & He).
  exists ev. split; [by eapply list_elem_of_lookup_2|done].
Qed.

(** Dropping logs about other orders keeps an order's view. *)
Lemma view_select id (Q : Log -> Prop) `{!forall l, Decision (Q l)} ls :
  (forall l ev a, l ∈ ls -> event_of decode_log l = Some ev -> owned ev id a -> Q l) ->
  view id (omap stamp_of (filter Q ls)) = view id (omap stamp_of ls).
Proof.
  unfold view. generalize (@None OrderEntry) as o. induction ls as [|l ls IH]; intros o Hq; [done|].
  rewrite filter_cons. assert (IH' : forall o, foldl (step_id id) o (omap stamp_of (filter Q ls)) =
                                            foldl (step_id id) o (omap stamp_of ls)).
  { intros o'. apply IH. intros l' ev a Hl. apply Hq. by right. }
  destruct (decide (Q l)) as [Hp|Hp]; cbn [omap list_omap].
  - destruct (stamp_of l); cbn [foldl]; apply IH'.
  - rewrite IH'. destruct (stamp_of l) as [s|] eqn:Es; [|done]. unfold stamp_of in Es.
    destruct (event_of decode_log l) as [ev|] eqn:Ev; [|done]. injection Es as <-. cbn [foldl].
    rewrite step_id_untouched; [done|]. intros a Ho. apply Hp. eapply Hq; [left|done|exact Ho].
Qed.

(** Only a submission or a placement creates an entry. *)
Definition created (ev : Event) (id a : Z) : Prop :=
  match ev with
  | OrderSubmitted i m _ _ _ _ _ _ _ | OrderPlaced i m _ _ _ _ _ => i = id /\ m = a
  | _ => False
  end.

Lemma created_owned ev id a : created ev id a -> owned ev id a.
Proof. by destruct ev. Qed.

Lemma view_created id evs o : view id evs = Some o -> exists ev a, ev ∈ stamps evs /\ created ev id a.
Proof.
  revert o. induction evs as [|s evs IH] using rev_ind; [done|]. intros o. rewrite view_app. cbn [foldl].
  intros Hv. destruct (view id evs) as [o'|] eqn:E.
  - destruct (IH o' eq_refl) as (ev & a & He & Hc). exists ev, a. split; [|done].
    unfold stamps. rewrite fmap_app. by apply elem_of_app; left.
  - destruct s as [[block tx] ev]. assert (Hin : ev ∈ stamps (evs ++ [(block, tx, ev)])).
    { unfold stamps. rewrite fmap_app. apply elem_of_app; right. left. }
    destruct ev as [i m|i m|mi m t ti|i m]; cbn [step_id fmap option_fmap option_map] in Hv.
    + destruct (Z.eqb_spec i id); [|done]. eexists _, m. split; [exact Hin|done].
    + destruct (Z.eqb_spec i id); [|done]. eexists _, m. split; [exact Hin|done].
    + by destruct (mi =? id), (ti =? id).
    + by destruct (i =? id).
Qed.
End Chain.

Section Orders.
Context {L : Type} {T20 : Tip20 L} {T20L : Tip20Laws L}.
Context (keccak256 : list Z -> Z) (decode : list Z -> option Call).
Context (decode_log : Log -> option Event).
Implicit Types (w : World L).

(** The entry reported for an order of [caller] is what the orderbook's own
  view [get_order] says of it: the resting quantity while it rests, and once
  it does not, filled and cancelled quantities that add up. *)
Definition matches_book w (caller id : Z) (o : OrderEntry) : Prop :=
exists bs qt amount limit is_bid kind tif,
  OrderSubmitted id caller bs qt amount limit is_bid kind tif ∈ logs w /\
  static o id is_bid bs qt amount limit kind tif /\
  match get_order caller id w with
  | Ok (v, _) => v_orderId v = id /\ v_maker v = caller /\ v_isBid v = is_bid /\ v_price v = limit /\
                 live_entry o (v_quantity v)
  | Err _ => done_entry o
  end.

Definition submitted_by w (caller id : Z) : Prop :=
exists bs qt amount limit is_bid kind tif,
  OrderSubmitted id caller bs qt amount limit is_bid kind tif ∈ logs w.

Lemma get_order_eq caller id w :
get_order caller id w =
let o := order_at (ob w) id in
if maker o =? 0 then Err (Revert OrderDoesNotExist)
else if negb (maker o =? caller) then Err (Revert Unauthorized)
else let b := book_at (ob w) (o_book_key o) in
     Ok (mkOrderView (OrderbookModel.order_id o) (maker o) (base b) (quote b) (is_bid o) (price o) (quantity o)
           ORDER_KIND_LIMIT TIME_IN_FORCE_GTC, w).
Proof.
unfold get_order. rewrite bind_orders_read. cbv zeta. unfold reject_if, mbind, M_bind, throw, mret, M_ret.
destruct (maker (order_at (ob w) id) =? 0); [done|]. by destruct (negb _).
Qed.

Lemma tracked_book n w B evs caller id o :
Rep (ob w) B -> Agree keccak256 n B evs -> stamps evs = logs w -> caller <> 0 ->
submitted_by w caller id -> view id evs = Some o -> matches_book w caller id o.
Proof.
intros R A Hs Hc (bs0 & qt0 & am0 & li0 & ib0 & ki0 & ti0 & Hsub0) Hv. rewrite <-Hs in Hsub0.
destruct (ag_tracked _ _ _ _ A id) as (o' & mk & bs & qt & am & li & ib & ki & ti & Hv' & Hsub & Hst & Ham & Hcase).
{ eapply (ag_ids _ _ _ _ A _ id caller Hsub0). done. }
rewrite Hv in Hv'. injection Hv' as <-.
assert (mk = caller) as ->.
{ by apply (ag_owner _ _ _ _ A _ _ id mk caller Hsub Hsub0). }
rewrite Hs in Hsub. exists bs, qt, am, li, ib, ki, ti. split; [done|]. split; [done|].
rewrite get_order_eq. cbv zeta. destruct Hcase as [(e & He & Ei & Em & Ep & _ & _ & Hlive)|[Hgone Hd]].
- destruct (seg_lookup _ _ _ _ _ _ _ (rep_seg _ _ R (compute_book_key keccak256 bs qt) ib) He) as (p & m & Eo).
  rewrite Ei in Eo. rewrite (order_at_Some _ _ _ Eo). cbn [concr maker].
  rewrite Em, (proj2 (Z.eqb_neq caller 0) Hc), Z.eqb_refl. cbn. done.
- destruct (Z.eqb_spec (maker (order_at (ob w) id)) 0) as [|Hm]; [done|].
  destruct (order_at_queued _ B id R Hm) as (k & b & l1 & e & l2 & EB & Hid & _).
  exfalso. apply (Hgone k b e); [|done]. rewrite EB. apply elem_of_app. right. left.
Qed.

(** Replaying a selection of the chain that has all the events of the caller's
  orders in [wanted] and creates no others. *)
Lemma replay_select n w chain caller (wanted : Z -> Prop) (Q : Log -> Prop) `{!forall l, Decision (Q l)} :
(forall evs, stamps evs = logs w -> exists B, Rep (ob w) B /\ Agree keccak256 n B evs) ->
ChainOf decode_log chain (logs w) -> caller <> 0 ->
(forall l, Q l -> log_address l = RpcLogs.DARKPOOL_ADDRESS) ->
(forall l ev id, encodes decode_log l ev -> owned ev id caller -> wanted id -> Q l) ->
(forall l ev id a, encodes decode_log l ev -> Q l -> created ev id a -> a = caller /\ wanted id) ->
let m := replay (omap (stamp_of decode_log) (filter Q chain)) in
(forall id, wanted id -> submitted_by w caller id -> exists o, bt_lookup id m = Some o /\ matches_book w caller id o) /\
(forall id o, bt_lookup id m = Some o -> wanted id /\ submitted_by w caller id).
Proof.
intros HA C Hc Hdp Hall Hcre m.
set (dp := filter (fun l => log_address l = RpcLogs.DARKPOOL_ADDRESS) chain).
set (evs := omap (stamp_of decode_log) dp).
assert (Hs : stamps evs = logs w) by apply stamps_all, C. destruct (HA evs Hs) as (B & R & A).
assert (Hf : filter Q chain = filter Q dp).
{ unfold dp. rewrite list_filter_filter. apply list_filter_iff. intros l. specialize (Hdp l). tauto. }
assert (Hdpev : forall l ev, l ∈ dp -> event_of decode_log l = Some ev -> ev ∈ logs w /\ encodes decode_log l ev).
{ intros l ev [Ha Hl]%list_elem_of_filter Hev. destruct (chain_encodes _ _ _ _ C Hl Ha) as (ev' & Hin & He).
  rewrite (event_of_encodes _ _ _ He) in Hev. by injection Hev as <-. }
assert (Hview : forall id, wanted id -> submitted_by w caller id -> bt_lookup id m = view id evs).
{ intros id Hw (bs & qt & am & li & ib & ki & ti & Hsub). unfold m. rewrite lookup_replay, Hf.
  apply view_select. intros l ev a Hl Hev Ho. destruct (Hdpev _ _ Hl Hev) as [Hin He].
  apply (Hall l ev id); [done| |done]. rewrite <-Hs in Hin, Hsub.
  assert (a = caller) as <- by (by apply (ag_owner _ _ _ _ A ev _ id a caller Hin Hsub)). done. }
split.
- intros id Hw Hsub. rewrite (Hview id Hw Hsub). pose proof Hsub as (bs & qt & am & li & ib & ki & ti & Hin).
  rewrite <-Hs in Hin. destruct (ag_tracked _ _ _ _ A id) as (o & mk & ? & ? & ? & ? & ? & ? & ? & Hv & _).
  { by apply (ag_ids _ _ _ _ A _ id caller Hin). }
  exists o. split; [done|]. by eapply tracked_book.
- intros id o Ho. unfold m in Ho. rewrite lookup_replay, Hf in Ho.
  apply view_created in Ho as (ev & a & Hev & Hcr).
  apply list_elem_of_fmap in Hev as (s & -> & Hev). apply list_elem_of_omap in Hev as (l & Hl & Hst).
  apply list_elem_of_filter in Hl as [HQ Hl]. unfold stamp_of in Hst.
  destruct (event_of decode_log l) as [ev|] eqn:Ev; [|done]. injection Hst as <-. cbn in Hcr.
  destruct (Hdpev _ _ Hl Ev) as [Hin He]. destruct (Hcre _ _ _ _ He HQ Hcr) as [-> Hw]. split; [done|].
  apply created_owned in Hcr. rewrite <-Hs in Hin.
  destruct (ag_tracked _ _ _ _ A id) as (o' & mk & bs & qt & am & li & ib & ki & ti & _ & Hsub & _).
  { by apply (ag_ids _ _ _ _ A ev id caller Hin). }
  assert (mk = caller) as -> by (by apply (ag_owner _ _ _ _ A _ _ id mk caller Hsub Hin)).
  rewrite Hs in Hsub. by exists bs, qt, am, li, ib, ki, ti.
Qed.

Lemma matches_order_filter id owner l :
matches (build_order_filter id owner) l <->
log_address l = RpcLogs.DARKPOOL_ADDRESS /\ (exists t, topic0 l = Some t /\ t ∈ DARKPOOL_TOPICS) /\
log_topics l !! 1%nat = Some id /\ log_topics l !! 2%nat = Some owner.
Proof.
unfold matches, build_order_filter, order_id_topic, topic_for_address. cbn [f_address f_topic0 f_topic1 f_topic2 f_topic3].
rewrite !topic_matches_singleton. split.
- intros (Ha & H0 & H1 & H2 & _). split; [destruct Ha as [E|E]; set_solver|]. split; [|done].
  apply topic_matches_Some in H0 as (t & ? & Ht); [|by vm_compute].
  exists t. split; [done|]. by apply elem_of_list_to_set in Ht.
- intros (Ha & (t & Ht & Hi) & H1 & H2). split; [right; set_solver|]. split; [|split; [done|split; [done|by left]]].
  right. exists t. split; [done|]. by apply elem_of_list_to_set.
Qed.

Lemma matches_darkpool_filter topics maker cursor l :
topics <> [] ->
matches (build_darkpool_history_filter topics maker cursor) l <->
log_address l = RpcLogs.DARKPOOL_ADDRESS /\ (exists t, topic0 l = Some t /\ t ∈ topics) /\
(forall m, maker = Some m -> log_topics l !! 2%nat = Some m).
Proof.
intros Hne. assert (E : matches (build_darkpool_history_filter topics maker cursor) l <->
  matches (build_darkpool_filter topics maker None) l).
{ unfold build_darkpool_history_filter. by destruct cursor. }
rewrite E. clear E. unfold matches, build_darkpool_filter, start_filter.
assert (Hs : (list_to_set topics : gset Z) <> ∅) by (destruct topics; [done|set_solver]).
destruct maker as [mk|]; cbn [f_address f_topic0 f_topic1 f_topic2 f_topic3 set_topic0 set_topic2 set_address];
  rewrite ?topic_matches_singleton.
- split.
  + intros (Ha & H0 & _ & H2 & _). split; [destruct Ha as [E|E]; set_solver|]. split; [|by intros ? [= <-]].
    apply topic_matches_Some in H0 as (t & ? & Ht); [|done]. exists t. split; [done|]. by apply elem_of_list_to_set in Ht.
  + intros (Ha & (t & Ht & Hi) & H2). split; [right; set_solver|]. split.
    { right. exists t. split; [done|]. by apply elem_of_list_to_set. }
    split; [by left|]. split; [by apply H2|by left].
- split.
  + intros (Ha & H0 & _). split; [destruct Ha as [E|E]; set_solver|]. split; [|done].
    apply topic_matches_Some in H0 as (t & ? & Ht); [|done]. exists t. split; [done|]. by apply elem_of_list_to_set in Ht.
  + intros (Ha & (t & Ht & Hi) & _). split; [right; set_solver|]. split.
    { right. exists t. split; [done|]. by apply elem_of_list_to_set. }
    repeat split; by left.
Qed.

Lemma matches_taker_filter owner cursor l :
matches (set_topic3 {[ topic_for_address owner ]} (build_darkpool_history_filter [FILLED_TOPIC] None cursor)) l <->
log_address l = RpcLogs.DARKPOOL_ADDRESS /\ topic0 l = Some FILLED_TOPIC /\ log_topics l !! 3%nat = Some owner.
Proof.
set (f := build_darkpool_history_filter [FILLED_TOPIC] None cursor).
assert (E3 : f_topic3 f = ∅) by (unfold f, build_darkpool_history_filter; by destruct cursor).
assert (E : matches (set_topic3 {[ topic_for_address owner ]} f) l <->
  matches f l /\ log_topics l !! 3%nat = Some owner).
{ unfold matches, topic_for_address. cbn [f_address f_topic0 f_topic1 f_topic2 f_topic3 set_topic3].
  rewrite topic_matches_singleton, E3. unfold topic_matches at 7. tauto. }
rewrite E. unfold f. rewrite matches_darkpool_filter by done. split.
- intros ((Ha & (t & Ht & Hi) & _) & H3). split; [done|]. split; [|done]. apply elem_of_cons in Hi as [->|[]%not_elem_of_nil]. done.
- intros (Ha & H0 & H3). split; [|done]. split; [done|]. split; [|done]. exists FILLED_TOPIC. split; [done|]. left.
Qed.

(** ** [zone_get_order] *)

Lemma caller_is_party_owned l ev id caller :
encodes decode_log l ev -> owned ev id caller -> caller_is_party l caller = true.
Proof.
intros (_ & _ & Ht) Ho. apply caller_is_party_true. unfold topic0.
destruct ev; cbn in Ho; rewrite Ht; eexists; (split; [done|]); cbn [lookup list_lookup].
- left. destruct Ho as [_ ->]. split; [unfold DARKPOOL_TOPICS; set_solver|done].
- left. destruct Ho as [_ ->]. split; [unfold DARKPOOL_TOPICS; set_solver|done].
- destruct Ho as [[_ ->]|[_ ->]]; [left|right]; (split; [unfold DARKPOOL_TOPICS; set_solver|done]).
- left. destruct Ho as [_ ->]. split; [unfold DARKPOOL_TOPICS; set_solver|done].
Qed.

Lemma sorted_only id (o : OrderEntry) m :
sorted m -> (forall j v, bt_lookup j m = Some v -> j = id) -> bt_lookup id m = Some o -> m = [(id, o)].
Proof.
intros Hs Honly Hl. destruct m as [|[j v] m]; [done|].
assert (j = id) as -> by (apply (Honly j v); cbn; by rewrite Z.eqb_refl).
cbn in Hl. rewrite Z.eqb_refl in Hl. injection Hl as ->. f_equal.
destruct m as [|[j2 v2] m]; [done|]. inversion Hs as [|? ? Hs' Hall]; subst.
rewrite Forall_forall in Hall. specialize (Hall (j2, v2) ltac:(left)). cbn in Hall.
assert (j2 = id); [|lia]. apply (Honly j2 v2). cbn. rewrite Z.eqb_refl.
by rewrite (proj2 (Z.eqb_neq j2 id)) by lia.
Qed.

Lemma sorted_none (m : btree OrderEntry) : (forall j v, bt_lookup j m <> Some v) -> m = [].
Proof. destruct m as [|[j v] m]; [done|]. intros H. exfalso. apply (H j v). cbn. by rewrite Z.eqb_refl. Qed.

(** The logs that [zone_get_order] folds. *)
Definition order_logs (id caller : Z) (l : Log) : Prop :=
caller_is_party l caller = true /\
(matches (build_order_filter id caller) l \/
 (matches (set_topic3 {[ topic_for_address caller ]} (build_darkpool_history_filter [FILLED_TOPIC] None None)) l /\
  fill_references_order decode_log l id = true)).

Lemma zone_get_order_eq eth_logs chain evs id caller :
ChainOf decode_log chain evs -> answers eth_logs chain ->
zone_get_order decode_log eth_logs id caller =
Ok (match last (snd <$> replay (omap (stamp_of decode_log) (filter (order_logs id caller) chain))) with
    | Some order => if oe_order_id order =? id then Some order else None
    | None => None
    end).
Proof.
intros C Ha. unfold zone_get_order.
rewrite (Ha (build_order_filter id caller) None), (Ha (set_topic3 _ _) None) by done.
set (ls := _ ++ _). set (Q0 := fun l => matches (build_order_filter id caller) l \/
  (matches (set_topic3 {[ topic_for_address caller ]} (build_darkpool_history_filter [FILLED_TOPIC] None None)) l /\
   fill_references_order decode_log l id = true)).
rewrite (merged decode_log chain evs Q0 ls C).
2: { intros l. unfold ls, retain. rewrite elem_of_app, !list_elem_of_filter. unfold Q0. cbn [below]. tauto. }
unfold retain. rewrite list_filter_filter. rewrite reconstruct_replay by apply strict_filter, C.
unfold order_logs. destruct (last _) as [o|]; [|done]. by destruct (_ =? _).
Qed.

Lemma zone_get_order_agrees_core n w chain eth_logs id caller :
(forall evs, stamps evs = logs w -> exists B, Rep (ob w) B /\ Agree keccak256 n B evs) ->
ChainOf decode_log chain (logs w) -> answers eth_logs chain -> caller <> 0 ->
exists r, zone_get_order decode_log eth_logs id caller = Ok r /\
  match r with
  | Some o => matches_book w caller id o
  | None => ~ submitted_by w caller id
  end.
Proof.
intros HA C Ha Hc. eexists. split; [by eapply zone_get_order_eq|].
set (m := replay _).
destruct (replay_select n w chain caller (fun j => j = id) (order_logs id caller) HA C Hc) as [H1 H2].
- intros l [_ [Hm|[Hm _]]]; [apply matches_order_filter in Hm|apply matches_taker_filter in Hm]; apply Hm.
- intros l ev j He Ho ->. split; [by eapply caller_is_party_owned|].
  pose proof He as (Haddr & Hd & Ht). unfold order_logs. rewrite matches_order_filter, matches_taker_filter.
  unfold topic0. destruct ev; cbn in Ho; rewrite Ht; cbn [lookup list_lookup].
  all: try (destruct Ho as [-> ->]; left; split; [done|]; split; [eexists; split; [done|unfold DARKPOOL_TOPICS; set_solver]|done]).
  destruct Ho as [[-> ->]|[-> ->]].
  + left. split; [done|]. split; [eexists; split; [done|unfold DARKPOOL_TOPICS; set_solver]|done].
  + right. split; [done|]. unfold fill_references_order. rewrite (event_of_encodes _ _ _ He).
    apply orb_true_iff. right. apply Z.eqb_refl.
- intros l ev j a (_ & _ & Ht) [_ Hm] Hcr. rewrite matches_order_filter, matches_taker_filter in Hm. unfold topic0 in Hm.
  destruct ev; try done; cbn in Hcr; destruct Hcr as [-> ->]; rewrite Ht in Hm; cbn [lookup list_lookup] in Hm;
    (destruct Hm as [(_ & _ & [= ->] & [= ->])|[(_ & [=] & _) _]]; done).
- fold m in H1, H2. assert (Hsorted : sorted m) by apply replay_sorted.
  destruct (bt_lookup id m) as [o|] eqn:Eo.
  + destruct (H2 _ _ Eo) as [_ Hsub]. destruct (H1 id eq_refl Hsub) as (o' & Eo' & Hb).
    rewrite Eo in Eo'. injection Eo' as <-.
    rewrite (sorted_only id o m); [|done|intros j v Hj; by apply H2 in Hj as [? _]|done]. cbn.
    pose proof Hb as (? & ? & ? & ? & ? & ? & ? & _ & (Eid & _) & _). by rewrite Eid, Z.eqb_refl.
  + rewrite (sorted_none m); [cbn|].
    * intros Hsub. destruct (H1 id eq_refl Hsub) as (o & Eo' & _). congruence.
    * intros j v Hj. apply H2 in Hj as Hw. destruct Hw as [-> _]. congruence.
Qed.

(** ** [zone_get_my_orders] *)

Abbreviation LIFECYCLE := [SUBMITTED_TOPIC; PLACED_TOPIC; CANCELLED_TOPIC].

Definition my_logs (caller : Z) (l : Log) : Prop :=
caller_is_party l caller = true /\
(matches (build_darkpool_history_filter LIFECYCLE (Some (topic_for_address caller)) None) l \/
 matches (build_darkpool_history_filter [FILLED_TOPIC] (Some (topic_for_address caller)) None) l \/
 matches (set_topic3 {[ topic_for_address caller ]} (build_darkpool_history_filter [FILLED_TOPIC] None None)) l).

Lemma my_orders_eq eth_logs chain evs caller limit :
ChainOf decode_log chain evs -> answers eth_logs chain ->
let orders := sort_by order_le (snd <$> replay (omap (stamp_of decode_log) (filter (my_logs caller) chain))) in
my_orders decode_log eth_logs caller limit None None None =
Ok (mkPage (take (Z.to_nat limit) orders) (next_order_cursor orders limit)).
Proof.
intros C Ha. unfold my_orders.
rewrite (Ha (build_darkpool_history_filter LIFECYCLE _ None) None),
  (Ha (build_darkpool_history_filter [FILLED_TOPIC] (Some _) None) None), (Ha (set_topic3 _ _) None) by done.
set (ls := _ ++ _ ++ _).
set (Q0 := fun l => matches (build_darkpool_history_filter LIFECYCLE (Some (topic_for_address caller)) None) l \/
 matches (build_darkpool_history_filter [FILLED_TOPIC] (Some (topic_for_address caller)) None) l \/
 matches (set_topic3 {[ topic_for_address caller ]} (build_darkpool_history_filter [FILLED_TOPIC] None None)) l).
rewrite (merged decode_log chain evs Q0 ls C).
2: { intros l. unfold ls. rewrite !elem_of_app, !list_elem_of_filter. unfold Q0. cbn [below]. tauto. }
unfold retain. rewrite list_filter_filter. rewrite reconstruct_replay by apply strict_filter, C.
done.
Qed.

Lemma my_orders_agrees_core n w chain eth_logs caller limit :
(forall evs, stamps evs = logs w -> exists B, Rep (ob w) B /\ Agree keccak256 n B evs) ->
ChainOf decode_log chain (logs w) -> answers eth_logs chain -> caller <> 0 ->
exists orders, my_orders decode_log eth_logs caller limit None None None =
    Ok (mkPage (take (Z.to_nat limit) orders) (next_order_cursor orders limit)) /\
  NoDup (oe_order_id <$> orders) /\
  (forall o, o ∈ orders -> matches_book w caller (oe_order_id o) o) /\
  (forall id, submitted_by w caller id -> id ∈ oe_order_id <$> orders).
Proof.
intros HA C Ha Hc. eexists. split; [by eapply my_orders_eq|].
set (m := replay _).
destruct (replay_select n w chain caller (fun _ => True) (my_logs caller) HA C Hc) as [H1 H2].
- intros l [_ [Hm|[Hm|Hm]]].
  + rewrite matches_darkpool_filter in Hm by done. apply Hm.
  + rewrite matches_darkpool_filter in Hm by done. apply Hm.
  + apply matches_taker_filter in Hm. apply Hm.
- intros l ev j He Ho _. split; [by eapply caller_is_party_owned|].
  pose proof He as (Haddr & Hd & Ht). rewrite matches_taker_filter, !matches_darkpool_filter by done.
  unfold topic0, topic_for_address. destruct ev; cbn in Ho; rewrite Ht; cbn [lookup list_lookup].
  1,2,4: destruct Ho as [-> ->]; left; split; [done|]; split; [eexists; split; [done|set_solver]|by intros ? [= <-]].
  destruct Ho as [[-> ->]|[-> ->]].
  + right; left. split; [done|]. split; [eexists; split; [done|set_solver]|by intros ? [= <-]].
  + by right; right.
- intros l ev j a (_ & _ & Ht) [_ Hm] Hcr. split; [|done].
  rewrite matches_taker_filter, !matches_darkpool_filter in Hm by done. unfold topic0, topic_for_address in Hm.
  destruct ev; try done; cbn in Hcr; destruct Hcr as [-> ->]; rewrite Ht in Hm; cbn [lookup list_lookup] in Hm.
  + destruct Hm as [(_ & _ & H)|[(_ & _ & H)|(_ & [=] & _)]]; (specialize (H _ eq_refl); congruence).
  + destruct Hm as [(_ & _ & H)|[(_ & _ & H)|(_ & [=] & _)]]; (specialize (H _ eq_refl); congruence).
- fold m in H1, H2. assert (Hsorted : sorted m) by apply replay_sorted.
  assert (Hkey : forall id o, (id, o) ∈ m -> matches_book w caller id o /\ oe_order_id o = id).
  { intros id o Hin. apply (bt_lookup_elem _ _ _ Hsorted) in Hin. destruct (H2 _ _ Hin) as [_ Hsub].
    destruct (H1 id I Hsub) as (o' & Eo & Hb). rewrite Hin in Eo. injection Eo as <-. split; [done|].
    by destruct Hb as (? & ? & ? & ? & ? & ? & ? & _ & (Eid & _) & _). }
  assert (Hids : oe_order_id <$> m.*2 = m.*1).
  { rewrite <-list_fmap_compose. apply list_fmap_ext. intros i [id o] Hi. cbn.
    apply Hkey. by eapply list_elem_of_lookup_2. }
  split; [|split].
  + rewrite (sort_by_Permutation order_le), Hids. by apply sorted_NoDup_keys.
  + intros o Ho. rewrite (sort_by_Permutation order_le) in Ho.
    apply list_elem_of_fmap in Ho as ([id o'] & -> & Hin). cbn. destruct (Hkey _ _ Hin) as [Hb ->]. done.
  + intros id Hsub. rewrite (sort_by_Permutation order_le), Hids.
    destruct (H1 id I Hsub) as (o & Eo & _). apply (bt_lookup_elem _ _ _ Hsorted) in Eo.
    by apply (list_elem_of_fmap_2 fst) in Eo.
Qed.
End Orders.
