(* ===== verification/RpcPaging.v ===== *)
(** * Private RPC history: cursors and pages

    The cursor text round-trips; following the cursors of [zone_get_my_fills]
    and [zone_get_my_transfers] lists the history exactly once, newest first. *)

From stdpp Require Import gmap sets strings.
From S2P Require Import Prelude.
From S2P Require Import BTree.
From S2P Require Import OrderbookModel.
From S2P Require Import RpcLogs.
From S2P Require Import RpcLogsProofs.
From S2P Require Import RpcHistory.
From S2P Require Import RpcHistoryBook.
From S2P Require Import RpcHistoryProofs.
#[local] Open Scope Z_scope.

(** ** Decimal numbers *)

Lemma digit_roundtrip d : 0 <= d < 10 -> digit_of (digit_char d) = Some d.
Proof.
  intros H. assert (Hc : d ∈ [0; 1; 2; 3; 4; 5; 6; 7; 8; 9]).
  { rewrite !elem_of_cons. lia. }
  revert Hc. clear H. rewrite !elem_of_cons, elem_of_nil. intros Hc. repeat destruct Hc as [->|Hc]; done.
Qed.

Lemma digit_not c d : 0 <= d < 10 -> digit_of c = None -> digit_char d <> c.
Proof. intros H Hc <-. by rewrite digit_roundtrip in Hc. Qed.

Lemma digits_range fuel n : 0 <= n -> Forall (fun d => 0 <= d < 10) (digits fuel n).
Proof.
  revert n. induction fuel as [|fuel IH]; intros n Hn; [constructor|]. cbn [digits].
  destruct (Z.ltb_spec n 10); [by apply Forall_singleton|].
  apply Forall_app. split; [apply IH; apply Z.div_pos; lia|]. apply Forall_singleton. apply Z.mod_pos_bound. lia.
Qed.

Lemma digits_parse fuel n :
  0 <= n <= U64_MAX -> n < 10 ^ Z.of_nat fuel ->
  foldl push_digit (Some 0) (digit_char <$> digits fuel n) = Some n.
Proof.
  revert n. induction fuel as [|fuel IH]; intros n Hn Hf.
  { cbn in Hf. assert (n = 0) as -> by lia. done. }
  cbn [digits]. destruct (Z.ltb_spec n 10) as [Hs|Hs].
  - cbn [fmap list_fmap foldl]. unfold push_digit. cbn [mbind option_bind]. rewrite digit_roundtrip by lia.
    cbn [mbind option_bind]. rewrite Z.mul_0_l, Z.add_0_l. by rewrite (proj2 (Z.leb_le n U64_MAX)) by lia.
  - rewrite fmap_app, foldl_app. rewrite Nat2Z.inj_succ, Z.pow_succ_r in Hf by lia.
    rewrite IH; [|split; [apply Z.div_pos; lia|]|apply Z.div_lt_upper_bound; lia].
    2: { apply Z.div_le_upper_bound; lia. }
    pose proof (Z.mod_pos_bound n 10). pose proof (Z.div_mod n 10).
    cbn [fmap list_fmap foldl]. unfold push_digit. cbn [mbind option_bind]. rewrite digit_roundtrip by lia.
    cbn [mbind option_bind]. replace (n / 10 * 10 + n mod 10) with n by lia.
    by rewrite (proj2 (Z.leb_le n U64_MAX)) by lia.
Qed.

Lemma digits_nonempty fuel n : (0 < fuel)%nat -> digits fuel n <> [].
Proof. destruct fuel as [|fuel]; [lia|]. intros _. cbn [digits]. destruct (n <? 10); [done|]. by destruct (digits fuel _). Qed.

Lemma parse_u64_to_string n : in_u64 n -> parse_u64 (u64_to_string n) = Some n.
Proof.
  intros Hn. unfold in_u64 in Hn. unfold parse_u64, u64_to_string.
  rewrite String.list_ascii_of_string_of_list_ascii.
  pose proof (digits_parse 20 n ltac:(lia) ltac:(unfold U64_MAX in Hn; cbn; lia)) as Hp.
  pose proof (digits_nonempty 20 n ltac:(lia)) as Hne. pose proof (digits_range 20 n ltac:(lia)) as Hr.
  destruct (digits 20 n) as [|d ds]; [done|]. rewrite fmap_cons in *. rewrite Forall_cons in Hr.
  rewrite bool_decide_eq_false_2; [exact Hp|]. apply digit_not; [apply Hr|done].
Qed.

(** ** Cursors *)

Lemma list_ascii_append a b :
  String.list_ascii_of_string (String.append a b) =
  String.list_ascii_of_string a ++ String.list_ascii_of_string b.
Proof.
  induction a as [|c a IH]; [done|].
  change (String.append (String.String c a) b) with (String.String c (String.append a b)).
  cbn. by rewrite IH.
Qed.

Lemma split_once_digits ds rest :
  Forall (fun d => 0 <= d < 10) ds ->
  split_once COLON ((digit_char <$> ds) ++ COLON :: rest) = Some (digit_char <$> ds, rest).
Proof.
  induction 1 as [|d ds Hd _ IH]; [done|].
  cbn [fmap list_fmap app split_once]. rewrite bool_decide_eq_false_2 by (apply digit_not; done).
  fold (fmap digit_char ds). by rewrite IH.
Qed.

Definition cursor_in_range (c : Cursor) : Prop := in_u64 (cur_block_number c) /\ in_u64 (cur_log_index c).

Lemma cursor_decode_encode c : cursor_in_range c -> cursor_decode (cursor_encode c) = Ok c.
Proof.
  intros [Hb Hi]. unfold cursor_decode, cursor_encode. rewrite list_ascii_append. cbn [String.list_ascii_of_string].
  unfold u64_to_string at 1. rewrite String.list_ascii_of_string_of_list_ascii.
  rewrite split_once_digits by (apply digits_range; apply Hb).
  rewrite (String.string_of_list_ascii_of_string (u64_to_string (cur_log_index c))), (parse_u64_to_string _ Hi).
  fold (u64_to_string (cur_block_number c)). rewrite (parse_u64_to_string _ Hb). by destruct c.
Qed.

(** ** Following the cursors *)

Section Paging.
Context {A : Type} (key : A -> Z * Z).

Definition cursor_of (a : A) : Cursor := mkCursor (key a).1 (key a).2.
Definition older (c : Cursor) (a : A) : bool := includes_older c (key a).1 (key a).2.

(** What is left to list after a cursor. *)
Definition after (all : list A) (cursor : option Cursor) : list A :=
  match cursor with Some c => retain (older c) all | None => all end.

(** The items of a page and of the pages its cursor leads to. *)
Fixpoint collect (fuel : nat) (fetch : option Cursor -> result HistoryError (Page A)) (cursor : option Cursor)
    : option (list A) :=
  match fuel with
  | O => None
  | S fuel' =>
    match fetch cursor with
    | Err _ => None
    | Ok p =>
      match next_cursor p with
      | None => Some (items p)
      | Some s =>
        match cursor_decode s with
        | Err _ => None
        | Ok c => rest ← collect fuel' fetch (Some c); Some (items p ++ rest)
        end
      end
    end
  end.

Definition descending : list A -> Prop := strict (fun a => neg (key a)).

Lemma older_cursor_of x y : older (cursor_of x) y = true <-> pair_lt (neg (key x)) (neg (key y)).
Proof.
  unfold older, includes_older, cursor_of, pair_lt, neg. cbn.
  rewrite orb_true_iff, andb_true_iff, !Z.ltb_lt, Z.eqb_eq. lia.
Qed.

Lemma after_split pre x post :
  descending (pre ++ x :: post) -> after (pre ++ x :: post) (Some (cursor_of x)) = post.
Proof.
  intros Hd. cbn. unfold retain. rewrite filter_app, filter_cons.
  unfold descending, strict in Hd.
  assert (Hpre : forall y, y ∈ pre -> pair_lt (neg (key y)) (neg (key x))).
  { clear - Hd. intros y Hy. apply list_elem_of_split in Hy as (p1 & p2 & ->).
    rewrite <-app_assoc in Hd. cbn in Hd. induction p1 as [|z p1 IH]; inversion Hd as [|? ? Hs Hall]; subst.
    - rewrite Forall_forall in Hall. apply Hall. apply elem_of_app. right. left.
    - by apply IH. }
  assert (Hpost : forall y, y ∈ post -> pair_lt (neg (key x)) (neg (key y))).
  { clear - Hd. induction pre as [|z pre IH]; inversion Hd as [|? ? Hs Hall]; subst; [|by apply IH].
    rewrite Forall_forall in Hall. exact Hall. }
  rewrite filter_none, decide_False, filter_all; [done| | |].
  - intros y Hy. apply older_cursor_of. by apply Hpost.
  - rewrite older_cursor_of. apply pair_lt_irrefl.
  - intros y Hy. rewrite older_cursor_of. intros Hlt. apply Hpre in Hy. by eapply pair_lt_irrefl, pair_lt_trans.
Qed.

(** Pages that are prefixes of what is left, with the cursor of their last
    item, list everything. *)
Lemma collect_all all limit fetch :
  1 <= limit -> descending all -> (forall a, a ∈ all -> cursor_in_range (cursor_of a)) ->
  (forall cursor, fetch cursor =
     Ok (mkPage (take (Z.to_nat limit) (after all cursor)) (next_cursor_by cursor_of (after all cursor) limit))) ->
  forall fuel cursor pre post, all = pre ++ post -> after all cursor = post -> (length post < fuel)%nat ->
  collect fuel fetch cursor = Some post.
Proof.
  intros Hl Hd Hrange Hf. induction fuel as [|fuel IH]; intros cursor pre post Ha Hp Hlen; [lia|].
  cbn [collect]. rewrite Hf, Hp. cbn [next_cursor items]. unfold next_cursor_by.
  destruct (Z.leb_spec (Z.of_nat (length post)) limit) as [Hle|Hgt].
  - rewrite take_ge by lia. done.
  - destruct (lookup_lt_is_Some_2 post (Z.to_nat (limit - 1)) ltac:(lia)) as [x Hx]. rewrite Hx. cbn [mbind option_bind].
    rewrite cursor_decode_encode
      by (apply Hrange; rewrite Ha; apply elem_of_app; right; by eapply list_elem_of_lookup_2).
    pose proof (take_drop_middle _ _ _ Hx) as Hsplit.
    replace (S (Z.to_nat (limit - 1))) with (Z.to_nat limit) in Hsplit by lia.
    set (post' := drop (Z.to_nat limit) post) in *.
    rewrite (IH (Some (cursor_of x)) (pre ++ take (Z.to_nat (limit - 1)) post ++ [x]) post').
    + cbn [mbind option_bind]. f_equal. apply take_drop.
    + rewrite Ha, <-Hsplit at 1. by rewrite <-!app_assoc.
    + rewrite Ha, <-Hsplit at 1. rewrite app_assoc. apply after_split.
      rewrite <-app_assoc, Hsplit. by rewrite <-Ha.
    + unfold post'. rewrite length_drop. lia.
Qed.
End Paging.

(** ** Listings: rows sorted newest first, deduplicated, and cut into pages *)

Lemma next_cursor_by_ext {A} (k1 k2 : A -> Cursor) l limit :
  (forall a, a ∈ l -> k1 a = k2 a) -> next_cursor_by k1 l limit = next_cursor_by k2 l limit.
Proof.
  intros H. unfold next_cursor_by. destruct (_ <=? _); [done|].
  destruct (l !! _) as [x|] eqn:E; [|done]. cbn. by rewrite H by (by eapply list_elem_of_lookup_2).
Qed.

Lemma to_u64_or_0_id x : in_u64 x -> to_u64_or_0 x = x.
Proof. intros [? ?]. unfold to_u64_or_0, try_from. by rewrite (proj2 (Z.leb_le _ _)) by lia. Qed.

Lemma neg_inj p q : neg p = neg q -> p = q.
Proof. destruct p, q. unfold neg. cbn. intros [= ? ?]. f_equal; lia. Qed.

Section Listing.
Context {A : Type} (key : A -> Z * Z) (same : A -> A -> bool) (rows : option Cursor -> list A).
Hypothesis rows_after : forall c a, a ∈ rows (Some c) <-> a ∈ rows None /\ older key c a = true.
Hypothesis same_eq : forall a b, a ∈ rows None -> b ∈ rows None -> same a b = true <-> a = b.
Hypothesis key_inj : forall a b, a ∈ rows None -> b ∈ rows None -> key a = key b -> a = b.
Hypothesis rows_range : forall a, a ∈ rows None -> cursor_in_range (cursor_of key a).

Definition listing (cursor : option Cursor) : list A :=
  dedup_by same (sort_by (fun a b => pair_le (key b) (key a)) (rows cursor)).

Lemma rows_sub cursor a : a ∈ rows cursor -> a ∈ rows None.
Proof. destruct cursor; [|done]. by intros [? _]%rows_after. Qed.

Lemma listing_spec cursor :
  descending key (listing cursor) /\ (forall a, a ∈ listing cursor <-> a ∈ rows cursor).
Proof.
  unfold listing, descending. rewrite (sort_desc key). apply (sort_dedup (fun f => neg (key f))).
  - intros a b Ha%rows_sub Hb%rows_sub. by apply same_eq.
  - intros a b Ha%rows_sub Hb%rows_sub E%neg_inj. by apply key_inj.
Qed.

Lemma listing_after cursor : listing cursor = after key (listing None) cursor.
Proof.
  destruct cursor as [c|]; [|done].
  destruct (listing_spec (Some c)) as [S1 E1], (listing_spec None) as [S0 E0].
  apply (strict_ext (fun f => neg (key f))); [done|by apply strict_filter|].
  intros f. cbn [after]. unfold retain. rewrite list_elem_of_filter, E0, E1, rows_after. tauto.
Qed.

Lemma listing_collected limit fetch :
  1 <= limit ->
  (forall cursor, fetch cursor =
     Ok (mkPage (take (Z.to_nat limit) (listing cursor))
           (next_cursor_by (fun a => mkCursor (to_u64_or_0 (key a).1) (to_u64_or_0 (key a).2)) (listing cursor) limit))) ->
  collect (S (length (listing None))) fetch None = Some (listing None).
Proof.
  intros Hl Hf. destruct (listing_spec None) as [S0 E0].
  assert (Hr : forall a, a ∈ listing None -> cursor_in_range (cursor_of key a)).
  { intros a Ha. by apply rows_range, E0. }
  apply (collect_all key (listing None) limit fetch Hl S0 Hr) with (pre := []); [|done|done|lia].
  intros cursor. rewrite Hf, listing_after. f_equal. f_equal. apply next_cursor_by_ext. intros a Ha.
  assert (Hin : a ∈ listing None).
  { destruct cursor; [|done]. cbn in Ha. by apply list_elem_of_filter in Ha as [_ ?]. }
  destruct (Hr a Hin) as [Hb Hi]. unfold cursor_of in *. cbn in *. by rewrite !to_u64_or_0_id.
Qed.
End Listing.

(** Logs of mined blocks. *)
Definition mined (l : Log) : Prop :=
  exists b i t, log_block_number l = Some b /\ log_index l = Some i /\ log_transaction_hash l = Some t /\
    in_u64 b /\ in_u64 i.

Lemma mined_log_id a b :
  mined a -> mined b -> (log_key a).2 = (log_key b).2 ->
  default 0 (log_transaction_hash a) = default 0 (log_transaction_hash b) -> log_id a = log_id b.
Proof.
  intros (b1 & i1 & t1 & Eb1 & Ei1 & Et1 & _) (b2 & i2 & t2 & Eb2 & Ei2 & Et2 & _).
  unfold log_key, log_id. rewrite Ei1, Ei2, Et1, Et2. cbn. congruence.
Qed.

Lemma mined_range l : mined l -> in_u64 (log_key l).1 /\ in_u64 (log_key l).2.
Proof. intros (b & i & t & Eb & Ei & _ & Hb & Hi). unfold log_key. by rewrite Eb, Ei. Qed.

(** ** Fills *)

Section Fills.
Context (decode_log : Log -> option Event) (eth_logs : Filter -> option (list Log)).
Context (chain : list Log) (owner : Z) (pair : option (Z * Z)).
Hypothesis Hanswers : answers eth_logs chain.
Hypothesis Hsorted : strict log_key chain.
Hypothesis Hmined : forall l, l ∈ chain -> mined l.
Hypothesis Hids : forall a b, a ∈ chain -> b ∈ chain -> log_id a = log_id b -> a = b.

Definition index_of_chain : btree OrderContext :=
  build_pair_index decode_log
    (filter (fun l => matches (build_darkpool_filter [SUBMITTED_TOPIC] (Some (topic_for_address owner)) None) l /\
                      below None l) chain) owner.

(** The rows a log gives, for each role. *)
Definition maker_rows (ls : list Log) : list FillEntry :=
  omap (fun l => fill_entry_from_log decode_log l Maker index_of_chain)
    (retain (fun l => caller_is_maker l owner) ls).
Definition taker_rows (ls : list Log) : list FillEntry :=
  omap (fun l => fill_entry_from_log decode_log l Taker index_of_chain)
    (retain (fun l => caller_is_taker l owner) ls).

Abbreviation maker_filter := (build_darkpool_history_filter [FILLED_TOPIC] (Some (topic_for_address owner))).
Abbreviation taker_filter cursor :=
  (set_topic3 {[ topic_for_address owner ]} (build_darkpool_history_filter [FILLED_TOPIC] None cursor)).

Definition fill_rows (cursor : option Cursor) : list FillEntry :=
  let to := (fun c => Number (cur_block_number c)) <$> cursor in
  retain_opt cursor (fun c f => includes_older c (fe_block_number f) (fe_log_index f))
    (retain_opt pair (fun p f => (fe_base_token f =? p.1) && (fe_quote_token f =? p.2))
      (maker_rows (filter (fun l => matches (maker_filter cursor) l /\ below to l) chain) ++
       taker_rows (filter (fun l => matches (taker_filter cursor) l /\ below to l) chain))).

Abbreviation fill_list := (listing fill_key same_fill fill_rows).

Lemma my_fills_eq limit cursor :
  my_fills decode_log eth_logs owner limit cursor pair =
  Ok (mkPage (take (Z.to_nat limit) (fill_list cursor)) (next_fill_cursor (fill_list cursor) limit)).
Proof.
  unfold my_fills. rewrite (Hanswers (build_darkpool_filter _ _ None) None) by done.
  rewrite (Hanswers (maker_filter cursor) ((fun c => Number (cur_block_number c)) <$> cursor)),
    (Hanswers (taker_filter cursor) ((fun c => Number (cur_block_number c)) <$> cursor)) by (by destruct cursor).
  done.
Qed.

(** A row and the log it comes from. *)
Definition row_of (l : Log) (f : FillEntry) : Prop :=
  l ∈ chain /\ fill_entry_from_log decode_log l (fe_role f) index_of_chain = Some f /\
  match fe_role f with
  | Maker => caller_is_maker l owner = true /\ matches (maker_filter None) l
  | Taker => caller_is_taker l owner = true /\ matches (taker_filter None) l
  end.

Lemma fill_entry_role l r f :
  fill_entry_from_log decode_log l r index_of_chain = Some f ->
  fe_role f = r /\ fill_key f = log_key l /\ fe_tx_hash f = default 0 (log_transaction_hash l).
Proof.
  unfold fill_entry_from_log. destruct (event_of decode_log l) as [[]|]; try done.
  destruct (bt_lookup _ _); [|done]. cbn. by intros [= <-].
Qed.

Lemma matches_cursor_maker cursor l : matches (maker_filter cursor) l <-> matches (maker_filter None) l.
Proof. unfold build_darkpool_history_filter. by destruct cursor. Qed.
Lemma matches_cursor_taker cursor l : matches (taker_filter cursor) l <-> matches (taker_filter None) l.
Proof. unfold build_darkpool_history_filter. by destruct cursor. Qed.

Definition in_pair (f : FillEntry) : Prop :=
  match pair with Some p => (fe_base_token f =? p.1) && (fe_quote_token f =? p.2) = true | None => True end.

(** The rows behind a cursor are the older rows of the whole history. *)
Lemma elem_of_fill_rows cursor f :
  f ∈ fill_rows cursor <->
  (exists l, row_of l f) /\ in_pair f /\
  match cursor with Some c => includes_older c (fe_block_number f) (fe_log_index f) = true | None => True end.
Proof.
  set (to := (fun c => Number (cur_block_number c)) <$> cursor).
  assert (Hrows : f ∈ maker_rows (filter (fun l => matches (maker_filter cursor) l /\ below to l) chain) ++
      taker_rows (filter (fun l => matches (taker_filter cursor) l /\ below to l) chain) <->
    exists l, row_of l f /\ below to l).
  { unfold maker_rows, taker_rows, retain. rewrite elem_of_app, !list_elem_of_omap. split.
    - intros [(l & Hl & Hf)|(l & Hl & Hf)]; apply list_elem_of_filter in Hl as [Hm [[Hq Hb] Hl]%list_elem_of_filter];
        apply fill_entry_role in Hf as Hr; destruct Hr as [Hr _]; exists l; (split; [|done]);
        unfold row_of; rewrite Hr; [rewrite <-(matches_cursor_maker cursor)|rewrite <-(matches_cursor_taker cursor)]; done.
    - intros (l & (Hl & Hf & Hm) & Hb). destruct (fe_role f) eqn:Er; [left|right]; exists l; (split; [|done]);
        apply list_elem_of_filter; (split; [apply Hm|]); apply list_elem_of_filter; (split; [|done]); (split; [|done]);
        [rewrite matches_cursor_maker|rewrite matches_cursor_taker]; apply Hm. }
  unfold fill_rows, retain_opt, retain, in_pair. fold to. destruct cursor as [c|], pair as [p|];
    rewrite ?list_elem_of_filter, Hrows; cbn [to fmap option_fmap option_map below]; split.
  all: try (intros (Ho & Hp & l & Hr & _); by eauto).
  all: try (intros ((l & Hr) & Hp & Ho); repeat (split; [done|]); exists l; split; [done|]).
  all: try (intros (Ho & l & Hr & _); by eauto).
  all: try (intros (l & Hr & _); by eauto).
  all: try done.
  all: destruct Hr as (_ & Hf & _); apply fill_entry_role in Hf as (_ & Hk & _); injection Hk as Hk _;
    unfold to; cbn; rewrite <-Hk; unfold includes_older in Ho;
    rewrite orb_true_iff, andb_true_iff, Z.ltb_lt, Z.eqb_eq in Ho; lia.
Qed.

Lemma row_key_inj l1 l2 f1 f2 : row_of l1 f1 -> row_of l2 f2 -> fill_key f1 = fill_key f2 -> l1 = l2.
Proof.
  intros (H1 & Hf1 & _) (H2 & Hf2 & _) E.
  apply fill_entry_role in Hf1 as (_ & K1 & _), Hf2 as (_ & K2 & _).
  apply (strict_inj log_key chain); [done..|]. congruence.
Qed.

(** No fill has the owner on both sides. *)
Hypothesis Hself : forall l, l ∈ chain -> caller_is_maker l owner = true -> caller_is_taker l owner = true -> False.

Lemma row_inj l f1 f2 : row_of l f1 -> row_of l f2 -> f1 = f2.
Proof.
  intros (Hl & Hf1 & Hr1) (_ & Hf2 & Hr2).
  assert (E : fe_role f1 = fe_role f2).
  { destruct (fe_role f1), (fe_role f2); try done; exfalso;
      apply (Hself l Hl); apply Hr1 || apply Hr2. }
  rewrite E in Hf1. congruence.
Qed.

Lemma fills_collected limit :
  1 <= limit ->
  collect (S (length (fill_list None))) (fun c => my_fills decode_log eth_logs owner limit c pair) None =
    Some (fill_list None) /\
  descending fill_key (fill_list None) /\
  (forall f, f ∈ fill_list None <-> (exists l, row_of l f) /\ in_pair f).
Proof.
  intros Hl.
  assert (Hafter : forall c f, f ∈ fill_rows (Some c) <-> f ∈ fill_rows None /\ older fill_key c f = true).
  { intros c f. rewrite !elem_of_fill_rows. unfold older. cbn. tauto. }
  assert (Hsame : forall a b, a ∈ fill_rows None -> b ∈ fill_rows None -> same_fill a b = true <-> a = b).
  { intros a b Ha Hb. apply elem_of_fill_rows in Ha as ((la & Ra) & _), Hb as ((lb & Rb) & _).
    unfold same_fill. rewrite !andb_true_iff, !Z.eqb_eq, bool_decide_eq_true. split; [|by intros ->].
    intros ((Et & Ei) & Er). destruct Ra as (Ha & Hfa & Pa), Rb as (Hb & Hfb & Pb).
    assert (la = lb) as <-; [|rewrite Er in Hfa; congruence].
    apply fill_entry_role in Hfa as (_ & Ka & Ta), Hfb as (_ & Kb & Tb).
    apply Hids, mined_log_id; auto; [by rewrite <-Ka, <-Kb|congruence]. }
  assert (Hkey : forall a b, a ∈ fill_rows None -> b ∈ fill_rows None -> fill_key a = fill_key b -> a = b).
  { intros a b Ha Hb E. apply elem_of_fill_rows in Ha as ((la & Ra) & _), Hb as ((lb & Rb) & _).
    destruct (row_key_inj _ _ _ _ Ra Rb E). by eapply row_inj. }
  assert (Hrange : forall f, f ∈ fill_rows None -> cursor_in_range (cursor_of fill_key f)).
  { intros f Hf. apply elem_of_fill_rows in Hf as ((l & Hl' & Hf & _) & _).
    apply fill_entry_role in Hf as (_ & Hk & _). unfold cursor_of, cursor_in_range. rewrite Hk.
    by apply mined_range, Hmined. }
  destruct (listing_spec fill_key same_fill fill_rows Hafter Hsame Hkey None) as [S0 E0].
  split; [|split; [done|]].
  - apply (listing_collected fill_key same_fill fill_rows Hafter Hsame Hkey Hrange limit); [done|].
    intros cursor. apply my_fills_eq.
  - intros f. rewrite E0, elem_of_fill_rows. tauto.
Qed.
End Fills.

(** ** Transfers *)

Section Transfers.
Context (eth_logs : Filter -> option (list Log)) (chain : list Log) (owner : Z).
Hypothesis Hanswers : answers eth_logs chain.
Hypothesis Hsorted : strict log_key chain.
Hypothesis Hmined : forall l, l ∈ chain -> mined l.
Hypothesis Hids : forall a b, a ∈ chain -> b ∈ chain -> log_id a = log_id b -> a = b.

Abbreviation query cursor as_from :=
  (build_tip20_history_filter TRANSFER_TOPICS (Some (topic_for_address owner)) cursor as_from).

Definition transfer_rows (cursor : option Cursor) : list TransferEntry :=
  let to := (fun c => Number (cur_block_number c)) <$> cursor in
  retain_opt cursor (fun c t => includes_older c (te_block_number t) (te_log_index t))
    (omap (fun l => transfer_entry_from_log l owner)
      (retain (fun l => is_log_visible l owner)
        (filter (fun l => matches (query cursor true) l /\ below to l) chain ++
         filter (fun l => matches (query cursor false) l /\ below to l) chain))).

Abbreviation transfer_list := (listing transfer_key same_transfer transfer_rows).

Lemma my_transfers_eq limit cursor :
  my_transfers eth_logs owner limit cursor =
  Ok (mkPage (take (Z.to_nat limit) (transfer_list cursor)) (next_transfer_cursor (transfer_list cursor) limit)).
Proof.
  unfold my_transfers.
  rewrite (Hanswers (query cursor true) ((fun c => Number (cur_block_number c)) <$> cursor)),
    (Hanswers (query cursor false) ((fun c => Number (cur_block_number c)) <$> cursor)) by (by destruct cursor).
  done.
Qed.

Lemma transfer_entry_key l t :
  transfer_entry_from_log l owner = Some t ->
  transfer_key t = log_key l /\ te_tx_hash t = default 0 (log_transaction_hash l).
Proof.
  unfold transfer_entry_from_log. destruct (topic0 l); [|done]. cbn.
  repeat case_match; cbn; try done; by intros [= <-].
Qed.

(** The owner's TIP-20 transfers, mints and burns. *)
Definition transfer_of (l : Log) (t : TransferEntry) : Prop :=
  l ∈ chain /\ transfer_entry_from_log l owner = Some t /\ is_log_visible l owner = true /\
  (matches (query None true) l \/ matches (query None false) l).

Lemma elem_of_transfer_rows cursor t :
  t ∈ transfer_rows cursor <->
  (exists l, transfer_of l t) /\
  match cursor with Some c => includes_older c (te_block_number t) (te_log_index t) = true | None => True end.
Proof.
  set (to := (fun c => Number (cur_block_number c)) <$> cursor).
  assert (Hm : forall b l, matches (query cursor b) l <-> matches (query None b) l).
  { intros b l. unfold build_tip20_history_filter. by destruct cursor, b. }
  assert (Hrows : t ∈ omap (fun l => transfer_entry_from_log l owner)
      (retain (fun l => is_log_visible l owner)
        (filter (fun l => matches (query cursor true) l /\ below to l) chain ++
         filter (fun l => matches (query cursor false) l /\ below to l) chain)) <->
    exists l, transfer_of l t /\ below to l).
  { unfold retain. rewrite list_elem_of_omap. split.
    - intros (l & [Hv Hl]%list_elem_of_filter & Ht). exists l. unfold transfer_of. rewrite <-!Hm.
      apply elem_of_app in Hl as [[[? ?] ?]%list_elem_of_filter|[[? ?] ?]%list_elem_of_filter]; tauto.
    - intros (l & (Hl & Ht & Hv & Hq) & Hb). exists l. split; [|done]. apply list_elem_of_filter. split; [done|].
      rewrite elem_of_app, !list_elem_of_filter, !Hm. tauto. }
  unfold transfer_rows, retain_opt. fold to. destruct cursor as [c|]; rewrite ?Hrows.
  - unfold retain at 1. rewrite list_elem_of_filter, Hrows. split.
    + intros (Ho & l & Hr & _). eauto.
    + intros ((l & Hr) & Ho). split; [done|]. exists l. split; [done|].
      destruct Hr as (_ & Ht & _). apply transfer_entry_key in Ht as [Hk _]. injection Hk as Hk _.
      unfold to. cbn. rewrite <-Hk. unfold includes_older in Ho.
      rewrite orb_true_iff, andb_true_iff, Z.ltb_lt, Z.eqb_eq in Ho. lia.
  - split; [intros (l & Hr & _); eauto|intros ((l & Hr) & _); by exists l].
Qed.

Lemma transfers_collected limit :
  1 <= limit ->
  collect (S (length (transfer_list None))) (my_transfers eth_logs owner limit) None =
    Some (transfer_list None) /\
  descending transfer_key (transfer_list None) /\
  (forall t, t ∈ transfer_list None <-> exists l, transfer_of l t).
Proof.
  intros Hl.
  assert (Hafter : forall c t, t ∈ transfer_rows (Some c) <-> t ∈ transfer_rows None /\ older transfer_key c t = true).
  { intros c t. rewrite !elem_of_transfer_rows. unfold older. cbn. tauto. }
  assert (Hlog : forall a b la lb, transfer_of la a -> transfer_of lb b -> la = lb -> a = b).
  { intros a b la lb (_ & Ha & _) (_ & Hb & _) ->. congruence. }
  assert (Hsame : forall a b, a ∈ transfer_rows None -> b ∈ transfer_rows None -> same_transfer a b = true <-> a = b).
  { intros a b Ha Hb. apply elem_of_transfer_rows in Ha as ((la & Ra) & _), Hb as ((lb & Rb) & _).
    unfold same_transfer. rewrite !andb_true_iff, !Z.eqb_eq. split; [|by intros ->].
    intros (Et & Ei). eapply Hlog; [exact Ra|exact Rb|]. destruct Ra as (Ha & Hfa & _), Rb as (Hb & Hfb & _).
    apply transfer_entry_key in Hfa as (Ka & Ta), Hfb as (Kb & Tb).
    apply Hids, mined_log_id; auto; [by rewrite <-Ka, <-Kb|congruence]. }
  assert (Hkey : forall a b, a ∈ transfer_rows None -> b ∈ transfer_rows None -> transfer_key a = transfer_key b -> a = b).
  { intros a b Ha Hb E. apply elem_of_transfer_rows in Ha as ((la & Ra) & _), Hb as ((lb & Rb) & _).
    eapply Hlog; [exact Ra|exact Rb|]. destruct Ra as (Ha & Hfa & _), Rb as (Hb & Hfb & _).
    apply transfer_entry_key in Hfa as (Ka & _), Hfb as (Kb & _).
    apply (strict_inj log_key chain); [done..|congruence]. }
  assert (Hrange : forall t, t ∈ transfer_rows None -> cursor_in_range (cursor_of transfer_key t)).
  { intros t Ht. apply elem_of_transfer_rows in Ht as ((l & Hl' & Ht & _) & _).
    apply transfer_entry_key in Ht as (Hk & _). unfold cursor_of, cursor_in_range. rewrite Hk.
    by apply mined_range, Hmined. }
  destruct (listing_spec transfer_key same_transfer transfer_rows Hafter Hsame Hkey None) as [S0 E0].
  split; [|split; [done|]].
  - apply (listing_collected transfer_key same_transfer transfer_rows Hafter Hsame Hkey Hrange limit); [done|].
    intros cursor. apply my_transfers_eq.
  - intros t. rewrite E0, elem_of_transfer_rows. tauto.
Qed.
End Transfers.

(** C20. Following the cursors of [zone_get_my_fills] or [zone_get_my_transfers]
    from the first page ends, and the pages together are the owner's whole
    history, newest first, each row once: every fill of the owner that has an
    order of the owner behind it, and every visible transfer, mint and burn.
    For fills this needs that the owner never traded with itself. *)
Theorem history_pages_complete decode_log eth_logs chain owner limit :
  answers eth_logs chain -> strict log_key chain -> (forall l, l ∈ chain -> mined l) ->
  (forall a b, a ∈ chain -> b ∈ chain -> log_id a = log_id b -> a = b) -> 1 <= limit ->
  (exists ts, collect (S (length ts)) (my_transfers eth_logs owner limit) None = Some ts /\
     descending transfer_key ts /\ forall t, t ∈ ts <-> exists l, transfer_of chain owner l t) /\
  ((forall l, l ∈ chain -> caller_is_maker l owner = true -> caller_is_taker l owner = true -> False) ->
   exists fs, collect (S (length fs)) (fun c => my_fills decode_log eth_logs owner limit c None) None = Some fs /\
     descending fill_key fs /\ forall f, f ∈ fs <-> exists l, row_of decode_log chain owner l f).
Proof.
  intros Ha Hs Hm Hi Hl. split.
  - eexists. by apply transfers_collected.
  - intros Hself. eexists.
    destruct (fills_collected decode_log eth_logs chain owner None Ha Hs Hm Hi Hself limit Hl) as (H1 & H2 & H3).
    split; [exact H1|]. split; [exact H2|]. intros f. rewrite H3. unfold in_pair. tauto.
Qed.
