(* ===== verification/RpcWitness.v ===== *)
(** * Private RPC: end-to-end theorems and concrete runs

    The order history over every reachable orderbook, then runs on concrete
    chains: the chain of the orderbook run of [OrderbookWitness], on which the
    theorems are applied, and the runs in which a page repeats or drops rows. *)

From stdpp Require Import gmap sets strings.
From S2P Require Import Prelude.
From S2P Require Import BTree.
From S2P Require Import Ecies.
From S2P Require Import OrderbookModel.
From S2P Require Import OrderbookRep.
From S2P Require Import OrderbookInv.
From S2P Require Import OrderbookFunding.
From S2P Require Import OrderbookOps.
From S2P Require Import OrderbookSafety.
From S2P Require Import OrderbookWitness.
From S2P Require Import RpcAuth.
From S2P Require Import RpcAuthProofs.
From S2P Require Import RpcLogs.
From S2P Require Import RpcLogsProofs.
From S2P Require Import RpcHistory.
From S2P Require Import RpcHistoryBook.
From S2P Require Import RpcHistoryProofs.
From S2P Require Import RpcPaging.
#[local] Open Scope Z_scope.

Definition plain_query (account : option Z) (cursor : option string) (limit : option Z) : HistoryQuery :=
  mkHistoryQuery account None None cursor limit.

(** C17. The order history is the book.  In every state the orderbook reaches,
    with a log store that holds its events, [zone_get_order] answers an
    account's order with the entry the book has for it (resting quantity while
    it rests, otherwise filled and cancelled quantities that add up to the
    amount) and any other id with null, and the first page of an unrestricted
    [zone_get_my_orders] is a prefix, of the requested length, of all the
    account's orders, each of them as the book has it.  Pages behind a cursor
    repeat orders and show them as of an older block ([orders_page_repeats]). *)
Theorem order_history_matches_book {L : Type} {T20 : Tip20 L} {T20L : Tip20Laws L}
    (keccak256 : list Z -> Z) (decode : list Z -> option Call) (decode_log : Log -> option Event)
    eth_logs parse_address chain n (w : World L) caller :
  (forall calldata c, decode calldata = Some c -> call_wf c) ->
  (forall a b c d, is_tip20 a -> is_tip20 b -> is_tip20 c -> is_tip20 d ->
     compute_book_key keccak256 a b = compute_book_key keccak256 c d -> a = c /\ b = d) ->
  reach keccak256 decode n w -> Z.of_nat n < U128_MAX ->
  ChainOf decode_log chain (logs w) -> answers eth_logs chain -> caller <> 0 ->
  (forall id, exists r, zone_get_order decode_log eth_logs id caller = Ok r /\
     match r with
     | Some o => matches_book w caller id o
     | None => ~ submitted_by w caller id
     end) /\
  (forall account limit, account = None \/ account = Some caller ->
     exists orders,
       zone_get_my_orders decode_log eth_logs parse_address (plain_query account None limit) caller =
         Ok (mkPage (take (Z.to_nat (clamp_limit limit)) orders) (next_order_cursor orders (clamp_limit limit))) /\
       NoDup (oe_order_id <$> orders) /\
       (forall o, o ∈ orders -> matches_book w caller (oe_order_id o) o) /\
       (forall id, submitted_by w caller id -> id ∈ oe_order_id <$> orders)).
Proof.
  intros Hwf Hkey Hr Hn C Ha Hc.
  assert (HA : forall evs, stamps evs = logs w ->
    exists B, Rep (ob w) B /\ Agree keccak256 (Z.max (next_order_id (ob w)) 1) B evs).
  { intros evs Hs. destruct (reach_agrees keccak256 decode Hwf Hkey n w Hr Hn evs Hs) as (B & I & A).
    exists B. split; [apply I|done]. }
  split.
  - intros id. by eapply zone_get_order_agrees_core.
  - intros account limit Hacc. unfold zone_get_my_orders.
    assert (E : require_owner (q_account (plain_query account None limit)) caller = Ok caller).
    { destruct Hacc as [-> | ->]; [done|]. unfold plain_query, require_owner. cbn [q_account]. by rewrite Z.eqb_refl. }
    rewrite E. cbn [decode_opt_cursor parse_pair_filter q_cursor q_pair plain_query q_limit q_status].
    by eapply my_orders_agrees_core.
Qed.

(** ** A chain made of orderbook events *)

Definition topics_of (ev : Event) : list Z :=
  match ev with
  | OrderSubmitted i m _ _ _ _ _ _ _ => [SUBMITTED_TOPIC; i; m]
  | OrderPlaced i m _ _ _ _ _ => [PLACED_TOPIC; i; m]
  | OrderFilled mi m t _ _ _ => [FILLED_TOPIC; mi; m; t]
  | OrderCancelled i m _ _ => [CANCELLED_TOPIC; i; m]
  end.

(** One event per block; the data is the event's position. *)
Definition log_at (i : nat) (ev : Event) : Log :=
  mkLog RpcLogs.DARKPOOL_ADDRESS (topics_of ev) [Z.of_nat i] None (Some (10 + Z.of_nat i)) None
    (Some (100 + Z.of_nat i)) (Some 0) (Some 0) false.
Definition chain_of (evs : list Event) : list Log := imap log_at evs.
Definition decode_at (evs : list Event) (l : Log) : option Event :=
  match log_data l with [i] => evs !! Z.to_nat i | _ => None end.

Definition store (chain : list Log) (f : Filter) : option (list Log) :=
  Some (filter (fun l => matches f l /\ below (match f_block f with Range _ to => to | _ => None end) l) chain).

Lemma store_answers chain : answers (store chain) chain.
Proof. intros f to E. unfold store. by rewrite E. Qed.

Lemma chain_of_snoc evs ev : chain_of (evs ++ [ev]) = chain_of evs ++ [log_at (length evs) ev].
Proof. unfold chain_of. rewrite imap_app. cbn. by rewrite Nat.add_0_r. Qed.

Lemma elem_of_chain_of evs l : l ∈ chain_of evs <-> exists i ev, evs !! i = Some ev /\ l = log_at i ev.
Proof.
  unfold chain_of. rewrite list_elem_of_lookup. split.
  - intros [i Hi]. rewrite list_lookup_imap in Hi. destruct (evs !! i) as [ev|] eqn:E; [|done].
    injection Hi as <-. eauto.
  - intros (i & ev & Hi & ->). exists i. by rewrite list_lookup_imap, Hi.
Qed.

Lemma chain_of_strict evs : strict log_key (chain_of evs).
Proof.
  induction evs as [|ev evs IH] using rev_ind; [constructor|]. rewrite chain_of_snoc.
  unfold strict in *.
  assert (Hs : forall l, StronglySorted (fun a b => pair_lt (log_key a) (log_key b)) l ->
    (forall a, a ∈ l -> pair_lt (log_key a) (log_key (log_at (length evs) ev))) ->
    StronglySorted (fun a b => pair_lt (log_key a) (log_key b)) (l ++ [log_at (length evs) ev])).
  { induction 1 as [|x l Hl IHl Hx]; intros Hall; cbn [app]; [repeat constructor|].
    constructor; [apply IHl; intros a Ha; apply Hall; by right|].
    apply Forall_app. split; [done|]. rewrite Forall_singleton. apply Hall. left. }
  apply Hs; [done|]. intros a (i & ev' & Hi & ->)%elem_of_chain_of.
  apply lookup_lt_Some in Hi. unfold pair_lt. cbn. lia.
Qed.

Lemma chain_of_ids evs a b : a ∈ chain_of evs -> b ∈ chain_of evs -> log_id a = log_id b -> a = b.
Proof.
  intros (i & e1 & H1 & ->)%elem_of_chain_of (j & e2 & H2 & ->)%elem_of_chain_of E.
  unfold log_id in E. cbn in E. injection E as E. assert (i = j) as <- by lia. congruence.
Qed.

Lemma chain_of_mined evs l : (length evs < 1000)%nat -> l ∈ chain_of evs -> mined l.
Proof.
  intros Hlen (i & ev & Hi & ->)%elem_of_chain_of. apply lookup_lt_Some in Hi.
  eexists _, _, _. repeat (split; [reflexivity|]). unfold in_u64, U64_MAX. lia.
Qed.

Lemma ChainOf_events evs : ChainOf (decode_at evs) (chain_of evs) evs.
Proof.
  split; [apply chain_of_strict|apply chain_of_ids|].
  assert (Hf : filter (fun l => log_address l = RpcLogs.DARKPOOL_ADDRESS) (chain_of evs) = chain_of evs).
  { apply filter_all. by intros l (i & ev & Hi & ->)%elem_of_chain_of. }
  rewrite Hf. apply Forall2_lookup. intros i. unfold chain_of. rewrite list_lookup_imap.
  destruct (evs !! i) as [ev|] eqn:E; cbn; constructor.
  split; [done|]. split; [cbn; by rewrite Nat2Z.id|]. by destruct ev.
Qed.

(** ** The theorems on the run of [OrderbookWitness] *)

Definition events3 : list Event := Eval vm_compute in logs w3.

Lemma order_history_matches_book_witness :
  reach inj_hash decode 3 w3 /\ ChainOf (decode_at (logs w3)) (chain_of (logs w3)) (logs w3) /\
  exists r, zone_get_order (decode_at (logs w3)) (store (chain_of (logs w3))) 1 alice = Ok r /\
    match r with
    | Some o => matches_book w3 alice 1 o
    | None => ~ submitted_by w3 alice 1
    end.
Proof.
  split; [exact reach_w3|]. split; [apply ChainOf_events|].
  apply (order_history_matches_book inj_hash decode (decode_at (logs w3)) (store (chain_of (logs w3)))
           (fun _ => None) (chain_of (logs w3)) 3 w3 alice decode_wf inj_hash_book_key reach_w3 eq_refl
           (ChainOf_events _) (store_answers _)).
  discriminate.
Defined.

Example alice_order_1 :
  (fun r => match r with Ok (Some o) => Some (oe_status o, oe_remaining o, oe_filled o) | _ => None end)
    (zone_get_order (decode_at events3) (store (chain_of events3)) 1 alice) =
  Some (PartiallyFilled, 600, 400).
Proof. vm_compute. reflexivity. Qed.

Lemma history_pages_complete_witness :
  let chain := chain_of events3 in
  1 <= 1 /\
  exists ts, collect (S (length ts)) (my_transfers (store chain) bob 1) None = Some ts /\
    descending transfer_key ts /\ forall t, t ∈ ts <-> exists l, transfer_of chain bob l t.
Proof.
  intros chain. split; [lia|].
  apply (history_pages_complete (decode_at events3) (store chain) chain bob 1 (store_answers _) (chain_of_strict _)).
  - intros l. apply chain_of_mined. vm_compute. lia.
  - apply chain_of_ids.
  - lia.
Defined.

(** ** Pages that go wrong *)

(** The page of an account's orders asked for with the cursor of a previous
    page starts at the order that cursor was taken from: with one order per
    page the second page of Bob's two orders is the first page again, and so
    is every page after it. *)
Theorem orders_page_repeats :
  exists p c o,
    zone_get_my_orders (decode_at events3) (store (chain_of events3)) (fun _ => None)
      (plain_query None None (Some 1)) bob = Ok p /\
    items p = [o] /\ next_cursor p = Some c /\
    zone_get_my_orders (decode_at events3) (store (chain_of events3)) (fun _ => None)
      (plain_query None (Some c) (Some 1)) bob = Ok p /\
    exists all, zone_get_my_orders (decode_at events3) (store (chain_of events3)) (fun _ => None)
      (plain_query None None None) bob = Ok all /\ length (items all) = 2%nat.
Proof.
  eexists _, _, _. split; [vm_compute; reflexivity|]. split; [reflexivity|]. split; [reflexivity|].
  split; [vm_compute; reflexivity|]. eexists. split; [vm_compute; reflexivity|reflexivity].
Qed.

(** Bob sells 100 at 1.0 into his own bid: both sides of the fill are his. *)
Definition w4 := exec [1; BASE; QUOTE; 100; 1000000; 0; 0] bob w3.
Definition events4 : list Event := Eval vm_compute in logs w4.

Lemma reach_w4 : reach inj_hash decode 4 w4.
Proof. apply reach_exec; [exact reach_w3|done|vm_compute; reflexivity]. Qed.

(** The two rows of a fill with oneself share one cursor: paged one by one,
    the taker's row is never listed. *)
Example self_fill_row_lost :
  let fetch limit c := my_fills (decode_at events4) (store (chain_of events4)) bob limit c None in
  let roles := option_map (List.map (fun f => (fe_order_id f, fe_role f))) in
  roles (collect 5 (fetch 10) None) = Some [(3, Maker); (4, Taker); (2, Taker)] /\
  roles (collect 5 (fetch 1) None) = Some [(3, Maker); (2, Taker)].
Proof. vm_compute. done. Qed.

(** A mint to the owner is listed as an outgoing transfer to the zero address:
    the first test on topic 1 shadows the mint's own case. *)
Lemma mint_listed_outgoing log owner rest :
  log_topics log = MINT_TOPIC :: owner :: rest -> rest = [] ->
  exists t, transfer_entry_from_log log owner = Some t /\ te_direction t = Out /\ te_counterparty t = 0.
Proof.
  intros Ht ->. unfold transfer_entry_from_log, topic0, topic_is. rewrite Ht. cbn [lookup list_lookup mbind option_bind].
  rewrite bool_decide_eq_true_2 by done. eexists. done.
Qed.

(** ** Tokens *)

Definition sum_hash (m : list Z) : Z := (from_be m) mod 2 ^ 256.
Lemma sum_hash_word m : 0 <= sum_hash m < 2 ^ 256.
Proof. apply Z.mod_pos_bound. done. Qed.

(** A token of each version, for zone 5 on chain 9. *)
Definition blob (sig : list Z) (version : Z) : list Z := sig ++ layout version 5 9 1000 2000.
Definition token (sig : list Z) (version : Z) : AuthorizationToken :=
  mkToken version 5 9 1000 2000 sig (token_digest sum_hash version 5 9 1000 2000).

Lemma token_same_digest : t_digest (token [1; 2] 1) = t_digest (token [3] 1).
Proof. cbn [t_digest token]. generalize (token_digest sum_hash 1 5 9 1000 2000). reflexivity. Qed.

Lemma token_digest_binds_witness :
  t_digest (token [1; 2] 1) = t_digest (token [3] 1) /\
  (token_fields (token [1; 2] 1) = token_fields (token [3] 1) \/
   collision sum_hash (hashed sum_hash 1 5 9 1000 2000) (hashed sum_hash 1 5 9 1000 2000)).
Proof.
  split; [exact token_same_digest|].
  apply (token_digest_binds sum_hash (blob [1; 2] 1) (blob [3] 1) (token [1; 2] 1) (token [3] 1) sum_hash_word).
  - vm_compute. repeat (constructor; [split; [discriminate|reflexivity]|]). constructor.
  - vm_compute. repeat (constructor; [split; [discriminate|reflexivity]|]). constructor.
  - vm_compute. reflexivity.
  - vm_compute. reflexivity.
  - by right.
  - by right.
  - exact token_same_digest.
Defined.

(** Signatures are a single byte, the signer's number. *)
Definition toy_signatures : SignatureLib :=
  mkSigLib Z Z
    (fun bytes => match bytes with [s] => Some (Primitive s) | [1; s] => Some (Keychain s) | _ => None end)
    (fun sig _ => match sig with Primitive s | Keychain s => Some s end)
    (fun s _ => Some (s + 100)) (fun _ => P256).

Definition toy_header (sig : list Z) (s : string) : option (list Z) :=
  if String.eqb s "t" then Some (blob sig 0) else None.

Definition toy_config : RpcAuthConfig := mkAuthConfig 5 9 3600.

Lemma token_lifetime_witness :
  let run now := authenticate_token sum_hash (toy_header [42]) toy_signatures (fun _ _ => None) now now "0xt" toy_config in
  run 1000 = Ok (mkAuth 42 2000 None) /\ run 1999 = Ok (mkAuth 42 2000 None) /\
  (auth_caller (mkAuth 42 2000 None) = auth_caller (mkAuth 42 2000 None) /\ 1999 < 1000 + 60 + 3600).
Proof.
  intros run. assert (H1 : run 1000 = Ok (mkAuth 42 2000 None)) by (vm_compute; reflexivity).
  assert (H2 : run 1999 = Ok (mkAuth 42 2000 None)) by (vm_compute; reflexivity).
  split; [exact H1|]. split; [exact H2|].
  exact (token_lifetime _ _ _ _ _ _ _ _ _ _ _ _ _ H1 H2).
Defined.

(** Rejections: expired, and a key of the keychain that is revoked. *)
Example token_rejections :
  let run sig now info := authenticate_token sum_hash (toy_header sig) toy_signatures (fun _ _ => info) now now "t" toy_config in
  run [42] 2000 None = Err (Invalid Expired) /\
  run [42] 939 None = Err (Invalid IssuedInFuture) /\
  run [1; 42] 1500 (Some (mkKeyInfo P256 142 9999 true)) = Err (Invalid RevokedKeychainKey) /\
  run [1; 42] 1500 (Some (mkKeyInfo P256 142 9999 false)) = Ok (mkAuth 42 2000 (Some 142)) /\
  run [1; 42] 1500 (Some (mkKeyInfo WebAuthn 142 9999 false)) = Err (Invalid KeychainSignatureTypeMismatch) /\
  run [1; 42] 1500 None = Err Internal.
Proof. vm_compute. done. Qed.
