(* ===== verification/RpcTypes.v ===== *)
(** * Private RPC: errors, responses and the method table

    rpc/src/types.rs: the JSON-RPC errors and their codes, responses, and
    [classify_method], which decides who may call what. *)

From stdpp Require Import base list strings.
From S2P Require Import Prelude.
#[local] Open Scope Z_scope.
#[local] Open Scope string_scope.

(** ** Errors

    The optional [data] of an error is never set by these constructors. *)

Record JsonRpcError := mkError { code : Z; message : string }.
#[export] Instance JsonRpcError_eq_dec : EqDecision JsonRpcError.
Proof. solve_decision. Defined.

Definition method_not_found : JsonRpcError := mkError (-32601) "Method not found".
Definition method_disabled : JsonRpcError := mkError (-32006) "Method disabled".
Definition sequencer_only : JsonRpcError := mkError (-32005) "Sequencer only".
Definition invalid_params (msg : string) : JsonRpcError := mkError (-32602) msg.
Definition transaction_rejected : JsonRpcError := mkError (-32003) "Transaction rejected".
Definition account_mismatch : JsonRpcError := mkError (-32004) "Account mismatch".
Definition unsupported_account_method (method : string) : JsonRpcError :=
  mkError (-32004)
    (method +:+ (" is not supported: the private zone RPC does not hold " +:+
     ("caller signing keys. Sign the transaction client-side and " +:+
      "submit it via eth_sendRawTransaction or eth_sendRawTransactionSync."))).
Definition parse_error (msg : string) : JsonRpcError := mkError (-32700) msg.
Definition internal (msg : string) : JsonRpcError := mkError (-32603) msg.

(** ** Responses

    [Value] is the JSON value of a request id, [Raw] serialized JSON. *)

Record JsonRpcResponse (Value Raw : Type) := mkResponse {
  response_result : option Raw;
  response_error : option JsonRpcError;
  response_id : Value
}.
Arguments mkResponse {Value Raw}.
Arguments response_result {Value Raw}.
Arguments response_error {Value Raw}.
Arguments response_id {Value Raw}.

Definition success {Value Raw} (id : Value) (result : Raw) : JsonRpcResponse Value Raw :=
  mkResponse (Some result) None id.
Definition error {Value Raw} (id : Value) (e : JsonRpcError) : JsonRpcResponse Value Raw :=
  mkResponse None (Some e) id.

(** ** Method tiers *)

Inductive MethodTier := Public | Restricted | Disabled | UnsupportedAccountManagement.
#[export] Instance MethodTier_eq_dec : EqDecision MethodTier.
Proof. solve_decision. Defined.

Definition PUBLIC_METHODS : list string :=
  ["eth_blockNumber"; "eth_chainId"; "eth_gasPrice"; "eth_getBalance"; "eth_getTransactionCount";
   "eth_call"; "eth_estimateGas"; "eth_feeHistory"; "eth_maxPriorityFeePerGas";
   "eth_getBlockByNumber"; "eth_getBlockByHash"; "eth_syncing"; "eth_coinbase"; "net_version";
   "net_listening"; "web3_clientVersion"; "web3_sha3"; "zone_getAuthorizationTokenInfo";
   "zone_getZoneInfo"; "zone_getDepositStatus"; "zone_getWithdrawalStatus"; "zone_listBatches";
   "zone_getBatch"; "zone_searchBatch"; "zone_getMarketConfig"; "zone_getReferencePrice";
   "zone_getTopOfBook"; "zone_getMidpointHistory"; "zone_getMyOrders"; "zone_getMyFills";
   "zone_getMyTransfers"; "zone_getMyActivity"; "zone_getOrder";
   "eth_getTransactionByHash"; "eth_getTransactionReceipt"; "eth_getLogs"; "eth_getFilterLogs";
   "eth_getFilterChanges"; "eth_newFilter"; "eth_newBlockFilter"; "eth_uninstallFilter";
   "eth_fillTransaction"; "eth_sendRawTransaction"; "eth_sendRawTransactionSync"].

Definition UNSUPPORTED_METHODS : list string := ["eth_sendTransaction"; "eth_signTransaction"].

Definition RESTRICTED_METHODS : list string :=
  ["eth_getCode"; "eth_getStorageAt"; "eth_getBlockReceipts"; "debug_traceTransaction";
   "debug_traceBlockByNumber"; "debug_traceBlockByHash"; "eth_createAccessList";
   "eth_getBlockTransactionCountByNumber"; "eth_getBlockTransactionCountByHash";
   "eth_getTransactionByBlockNumberAndIndex"; "eth_getTransactionByBlockHashAndIndex";
   "eth_getUncleCountByBlockNumber"; "eth_getUncleCountByBlockHash"].

Definition DISABLED_METHODS : list string :=
  ["eth_getProof"; "eth_newPendingTransactionFilter"; "eth_getUncleByBlockNumberAndIndex";
   "eth_getUncleByBlockHashAndIndex"; "eth_mining"; "eth_hashrate"; "eth_getWork";
   "eth_submitWork"; "eth_submitHashrate"; "eth_subscribe"; "eth_unsubscribe"].

Definition classify_method (method : string) : option MethodTier :=
  if bool_decide (method ∈ PUBLIC_METHODS) then Some Public
  else if bool_decide (method ∈ UNSUPPORTED_METHODS) then Some UnsupportedAccountManagement
  else if bool_decide (method ∈ RESTRICTED_METHODS) then Some Restricted
  else if bool_decide (method ∈ DISABLED_METHODS) then Some Disabled
  else if String.prefix "admin_" method then Some Restricted
  else if String.prefix "debug_" method then Some Restricted
  else if String.prefix "txpool_" method then Some Restricted
  else None.
