(* ===== verification/RpcPolicy.v ===== *)
(** * Private RPC: request policy

    rpc/src/policy.rs, and [apply_public_fee_policy] of node/src/rpc.rs: what a
    simulated, filled or submitted transaction may ask for.  The fields of a
    request no rule looks at are one opaque value. *)

From stdpp Require Import base list strings.
From S2P Require Import Prelude.
From S2P Require Import TempoState.
From S2P Require Import RpcAuth.
From S2P Require Import RpcTypes.
#[local] Open Scope Z_scope.

Inductive TxKind := TxCall (to : Z) | TxCreate.

Definition is_create (k : TxKind) : bool := match k with TxCreate => true | TxCall _ => false end.

(** A call of a Tempo AA transaction. *)
Record TempoCall := mkTempoCall { tc_to : TxKind; tc_value : Z; tc_input : list Z }.

Record TempoTransactionRequest (Rest : Type) := mkRequest {
  rq_from : option Z;
  rq_to : option TxKind;
  rq_input : option (list Z);
  rq_calls : list TempoCall;
  rq_transaction_type : option Z;
  rq_gas_price : option Z;
  rq_max_fee_per_gas : option Z;
  rq_max_priority_fee_per_gas : option Z;
  rq_max_fee_per_blob_gas : option Z;
  rq_has_eip4844_fields : bool;
  rq_rest : Rest
}.
Arguments mkRequest {Rest}.
Arguments rq_from {Rest}.
Arguments rq_to {Rest}.
Arguments rq_input {Rest}.
Arguments rq_calls {Rest}.
Arguments rq_transaction_type {Rest}.
Arguments rq_gas_price {Rest}.
Arguments rq_max_fee_per_gas {Rest}.
Arguments rq_max_priority_fee_per_gas {Rest}.
Arguments rq_max_fee_per_blob_gas {Rest}.
Arguments rq_has_eip4844_fields {Rest}.
Arguments rq_rest {Rest}.

(** [ZoneInbox::refundsCall::SELECTOR], of refunds(address,address). *)
Definition REFUNDS_SELECTOR : list Z := [0x85; 0x7e; 0x85; 0xf8].

Definition CONTRACT_DEPLOYER_ALLOWLIST : list Z := [].

Section Policy.
Context {Rest : Type}.
Abbreviation Request := (TempoTransactionRequest Rest).

Definition set_from (a : Z) (r : Request) : Request :=
  mkRequest (Some a) (rq_to r) (rq_input r) (rq_calls r) (rq_transaction_type r) (rq_gas_price r)
    (rq_max_fee_per_gas r) (rq_max_priority_fee_per_gas r) (rq_max_fee_per_blob_gas r)
    (rq_has_eip4844_fields r) (rq_rest r).

Definition set_fees (gas_price max_fee max_priority max_blob : option Z) (r : Request) : Request :=
  mkRequest (rq_from r) (rq_to r) (rq_input r) (rq_calls r) (rq_transaction_type r) gas_price
    max_fee max_priority max_blob (rq_has_eip4844_fields r) (rq_rest r).

(** ** policy.rs *)

Definition enforce_from (r : Request) (auth : AuthContext) : result JsonRpcError Request :=
  match rq_from r with
  | Some from => if negb (from =? auth_caller auth) then Err account_mismatch else Ok r
  | None => Ok (set_from (auth_caller auth) r)
  end.

Definition enforce_no_contract_creation (r : Request) : result JsonRpcError unit :=
  let outer_create := match rq_to r with Some k => is_create k | None => false end in
  let implicit_plain_create :=
    match rq_calls r, rq_to r with [], None => true | _, _ => false end in
  let tempo_create := existsb (fun c => is_create (tc_to c)) (rq_calls r) in
  if outer_create || implicit_plain_create || tempo_create then
    Err (invalid_params "contract creation not supported on zones")
  else Ok tt.

Definition enforce_contract_creation_with_allowlist (r : Request) (caller : Z) (allowlist : list Z)
    : result JsonRpcError unit :=
  if bool_decide (caller ∈ allowlist) then Ok tt else enforce_no_contract_creation r.

Definition enforce_contract_creation (r : Request) (caller : Z) : result JsonRpcError unit :=
  enforce_contract_creation_with_allowlist r caller CONTRACT_DEPLOYER_ALLOWLIST.

Section Refunds.
(** [ZoneInbox::refundsCall::abi_decode]: the owner argument. *)
Context (decode_refunds : list Z -> option Z).

Definition starts_with (prefix l : list Z) : bool := bool_decide (prefix = take (length prefix) l).

Definition refunds_owner_mismatch (caller : Z) (to : option Z) (input : option (list Z)) : option Z :=
  if bool_decide (to <> Some ZONE_INBOX_ADDRESS) then None
  else
    input ← input;
    if negb (starts_with REFUNDS_SELECTOR input) then None
    else
      owner ← decode_refunds input;
      if negb (owner =? caller) then Some owner else None.

Definition call_target (k : TxKind) : option Z := match k with TxCall to => Some to | TxCreate => None end.

(** [Iterator::find_map] *)
Fixpoint find_map {A B} (f : A -> option B) (l : list A) : option B :=
  match l with
  | [] => None
  | x :: l' => match f x with Some b => Some b | None => find_map f l' end
  end.

Definition zone_inbox_refunds_mismatched_owner (r : Request) (caller : Z) : option Z :=
  match refunds_owner_mismatch caller (rq_to r ≫= call_target) (rq_input r) with
  | Some owner => Some owner
  | None =>
    find_map (fun c => refunds_owner_mismatch caller (call_target (tc_to c)) (Some (tc_input c))) (rq_calls r)
  end.

Definition enforce_zone_inbox_refund_call_privacy (r : Request) (auth : AuthContext)
    (is_sequencer : result JsonRpcError bool) : result JsonRpcError unit :=
  match zone_inbox_refunds_mismatched_owner r (auth_caller auth) with
  | None => Ok tt
  | Some _ =>
    match is_sequencer with
    | Err e => Err e
    | Ok true => Ok tt
    | Ok false => Err account_mismatch
    end
  end.

(** The request comes back with its sender filled in. *)
Definition enforce_authorized (r : Request) (auth : AuthContext) (is_sequencer : result JsonRpcError bool)
    : result JsonRpcError Request :=
  match enforce_from r auth with
  | Err e => Err e
  | Ok r =>
    match enforce_contract_creation r (auth_caller auth) with
    | Err e => Err e
    | Ok _ =>
      match enforce_zone_inbox_refund_call_privacy r auth is_sequencer with
      | Err e => Err e
      | Ok _ => Ok r
      end
    end
  end.
End Refunds.

(** ** Submitted transactions *)

Section RawTx.
Context {Tx : Type} (decode_2718 : list Z -> option Tx) (tx_recover_signer : Tx -> option Z).

Definition verify_raw_tx_sender (data : list Z) (auth : AuthContext) : result JsonRpcError unit :=
  match decode_2718 data with
  | None => Err (invalid_params "failed to decode transaction")
  | Some tx =>
    match tx_recover_signer tx with
    | None => Err (invalid_params "invalid transaction signature")
    | Some sender => if negb (sender =? auth_caller auth) then Err transaction_rejected else Ok tt
    end
  end.
End RawTx.

(** ** Filled transactions *)

Section Fees.
Context (TEMPO_T0_BASE_FEE : Z).

Definition apply_public_fee_policy (r : Request) : Request :=
  let max_blob :=
    if rq_has_eip4844_fields r && bool_decide (rq_max_fee_per_blob_gas r = None) then Some 0
    else rq_max_fee_per_blob_gas r in
  match rq_gas_price r with
  | Some _ => set_fees (rq_gas_price r) (rq_max_fee_per_gas r) (rq_max_priority_fee_per_gas r) max_blob r
  | None =>
    if bool_decide (rq_transaction_type r = Some 0 \/ rq_transaction_type r = Some 1) then
      set_fees (Some TEMPO_T0_BASE_FEE) (rq_max_fee_per_gas r) (rq_max_priority_fee_per_gas r) max_blob r
    else
      let priority_fee := default 0 (rq_max_priority_fee_per_gas r) in
      let max_fee :=
        match rq_max_fee_per_gas r with
        | Some f => Some f
        | None => Some (wrapping_add U128_MAX TEMPO_T0_BASE_FEE priority_fee)
        end in
      set_fees None max_fee (Some priority_fee) max_blob r
  end.
End Fees.
End Policy.
