(* ===== verification/RpcDispatch.v ===== *)
(** * Private RPC: dispatch

    rpc/src/handlers.rs ([dispatch] and its handlers) and rpc/src/server.rs
    ([process_rpc_text], [handle_rpc]), for any implementation of the trait
    [ZoneRpcApi].  serde_json, which turns parameter text into typed values, is
    the record [Wire]; an API method is a step on the node's state that keeps
    its effects when it fails.  Metrics and logging are left out. *)

From stdpp Require Import base list strings.
From S2P Require Import Prelude.
From S2P Require Import RpcAuth.
From S2P Require Import RpcLogs.
From S2P Require Import RpcHistory.
From S2P Require Import RpcTypes.
From S2P Require Import RpcPolicy.
#[local] Open Scope string_scope.
#[local] Open Scope Z_scope.

(** ** Text *)

(** The number of bytes of the Unicode white space character a UTF-8 text
    starts with, zero if it starts with none. *)
Definition whitespace_len (l : list Z) : nat :=
  match l with
  | a :: rest =>
    if ((9 <=? a) && (a <=? 13)) || (a =? 32) then 1%nat
    else match rest with
    | b :: rest' =>
      if (a =? 0xC2) && ((b =? 0x85) || (b =? 0xA0)) then 2%nat
      else match rest' with
      | c :: _ =>
        if ((a =? 0xE1) && (b =? 0x9A) && (c =? 0x80)) ||
           ((a =? 0xE2) && (b =? 0x80) && (((0x80 <=? c) && (c <=? 0x8A)) || (c =? 0xA8) || (c =? 0xA9) || (c =? 0xAF))) ||
           ((a =? 0xE2) && (b =? 0x81) && (c =? 0x9F)) ||
           ((a =? 0xE3) && (b =? 0x80) && (c =? 0x80)) then 3%nat
        else 0%nat
      | [] => 0%nat
      end
    | [] => 0%nat
    end
  | [] => 0%nat
  end.

(** The same for the end of a text, whose bytes are given last first. *)
Definition whitespace_len_end (l : list Z) : nat :=
  match l with
  | a :: b :: c :: _ =>
    if Nat.eqb (whitespace_len [a]) 1 then 1
    else if Nat.eqb (whitespace_len [b; a]) 2 then 2
    else if Nat.eqb (whitespace_len [c; b; a]) 3 then 3 else 0
  | [a; b] => if Nat.eqb (whitespace_len [a]) 1 then 1 else if Nat.eqb (whitespace_len [b; a]) 2 then 2 else 0
  | [a] => whitespace_len [a]
  | [] => 0
  end%nat.

Fixpoint trim_bytes (len : list Z -> nat) (skip : nat) (l : list Z) : list Z :=
  match l with
  | [] => []
  | _ :: l' =>
    match skip with
    | S k => trim_bytes len k l'
    | O => match len l with O => l | S k => trim_bytes len k l' end
    end
  end.

Definition bytes_of (s : string) : list Z :=
  (fun a => Z.of_N (Ascii.N_of_ascii a)) <$> String.list_ascii_of_string s.
Definition of_bytes (l : list Z) : string :=
  String.string_of_list_ascii ((fun b => Ascii.ascii_of_N (Z.to_N b)) <$> l).
(** [str::trim_start] and [str::trim] *)
Definition trim_start (s : string) : string := of_bytes (trim_bytes whitespace_len 0 (bytes_of s)).
Definition trim (s : string) : string :=
  of_bytes (rev (trim_bytes whitespace_len_end 0 (rev (trim_bytes whitespace_len 0 (bytes_of s))))).

(** ** Parameters and queries *)

Record MarketPair := mkPair { pair_base : Z; pair_quote : Z }.
Record ListBatchesParams := mkListBatches { lb_limit : option Z; lb_cursor : option Z }.
Record ActivityQuery := mkActivityQuery { aq_cursor : option string; aq_limit : option Z }.
Inductive WithdrawalStatusQuery := TxHash (hash : Z) | WithdrawalIndex (index : Z).

Definition history_query_default : HistoryQuery := mkHistoryQuery None None None None None.
Definition transfer_query_default : TransferQuery := mkTransferQuery None None None.
Definition activity_query_default : ActivityQuery := mkActivityQuery None None.

Definition DEFAULT_MIDPOINT_HISTORY_LIMIT : Z := 500.
Definition MAX_MIDPOINT_HISTORY_LIMIT : Z := 5000.
Definition MAX_BATCH_SIZE : nat := 100.

(** What serde_json and the [FromStr] instances of the primitive types make of
    a text; [None] is a parse failure. *)
Record Wire := mkWire {
  Value : Type;
  Raw : Type;
  Rest : Type;
  StateOverride : Type;
  FilterId : Type;
  BlockId : Type;
  Percentiles : Type;
  value_null : Value;
  raw_bool : bool -> Raw;
  raw_string : string -> Raw;
  raw_hash : Z -> Raw;
  de_bytes : string -> option (list Z);
  de_number_bool : string -> option (BlockNumberOrTag * bool);
  de_hash_bool : string -> option (Z * bool);
  de_hash : string -> option Z;
  de_call : string -> option (TempoTransactionRequest Rest * option BlockId * option StateOverride);
  de_request : string -> option (TempoTransactionRequest Rest);
  de_fee_history : string -> option (Z * BlockNumberOrTag * option Percentiles);
  de_address_block : string -> option (Z * option BlockId);
  de_filter : string -> option Filter;
  de_filter_id : string -> option FilterId;
  de_string : string -> option string;
  de_pair : string -> option MarketPair;
  de_midpoint : string -> option (MarketPair * string * option Z * option string);
  de_history : string -> option (list (option HistoryQuery));
  de_transfers : string -> option (list (option TransferQuery));
  de_activity : string -> option (list (option ActivityQuery));
  de_list_batches : string -> option ListBatchesParams;
  de_limit_cursor : string -> option (option Z * option Z);
  u64_from_str : string -> option Z;
  u128_from_str : string -> option Z;
  b256_from_str : string -> option Z
}.

(** ** The trait *)

Definition Api (S A : Type) : Type := S -> result JsonRpcError A * S.

(** The monad of API methods: [?] on a [JsonRpcError] keeps the effects so far. *)
Definition aret {S A} (a : A) : Api S A := fun s => (Ok a, s).
Definition afail {S A} (e : JsonRpcError) : Api S A := fun s => (Err e, s).
Definition abind {S A B} (m : Api S A) (f : A -> Api S B) : Api S B := fun s =>
  match m s with
  | (Ok a, s') => f a s'
  | (Err e, s') => (Err e, s')
  end.
Declare Scope api_scope.
Delimit Scope api_scope with api.
Notation "x <- m ; f" := (abind m (fun x => f)) (at level 100, m at next level, right associativity) : api_scope.

Record ZoneRpcApi (W : Wire) (S : Type) := mkApi {
  block_number : Api S (Raw W);
  chain_id : Api S (Raw W);
  net_version : Api S (Raw W);
  syncing : Api S (Raw W);
  coinbase : Api S (Raw W);
  gas_price : Api S (Raw W);
  max_priority_fee_per_gas : Api S (Raw W);
  fee_history : Z -> BlockNumberOrTag -> option (Percentiles W) -> Api S (Raw W);
  get_balance : Z -> option (BlockId W) -> AuthContext -> Api S (Raw W);
  get_transaction_count : Z -> option (BlockId W) -> AuthContext -> Api S (Raw W);
  block_by_number : BlockNumberOrTag -> bool -> AuthContext -> Api S (Raw W);
  block_by_hash : Z -> bool -> AuthContext -> Api S (Raw W);
  transaction_by_hash : Z -> AuthContext -> Api S (Raw W);
  transaction_receipt : Z -> AuthContext -> Api S (Raw W);
  call : TempoTransactionRequest (Rest W) -> option (BlockId W) -> option (StateOverride W) -> AuthContext -> Api S (Raw W);
  estimate_gas : TempoTransactionRequest (Rest W) -> option (BlockId W) -> option (StateOverride W) -> AuthContext -> Api S (Raw W);
  send_raw_transaction : list Z -> AuthContext -> Api S (Raw W);
  send_raw_transaction_sync : list Z -> AuthContext -> Api S (Raw W);
  fill_transaction : TempoTransactionRequest (Rest W) -> AuthContext -> Api S (Raw W);
  get_logs : Filter -> AuthContext -> Api S (Raw W);
  new_filter : Filter -> AuthContext -> Api S (Raw W);
  get_filter_logs : FilterId W -> AuthContext -> Api S (Raw W);
  get_filter_changes : FilterId W -> AuthContext -> Api S (Raw W);
  new_block_filter : AuthContext -> Api S (Raw W);
  uninstall_filter : FilterId W -> AuthContext -> Api S (Raw W);
  zone_get_authorization_token_info : AuthContext -> Api S (Raw W);
  zone_get_zone_info : AuthContext -> Api S (Raw W);
  zone_get_deposit_status : Z -> AuthContext -> Api S (Raw W);
  zone_list_batches : ListBatchesParams -> AuthContext -> Api S (Raw W);
  zone_get_batch : Z -> AuthContext -> Api S (Raw W);
  zone_search_batch : string -> AuthContext -> Api S (Raw W);
  zone_get_market_config : AuthContext -> Api S (Raw W);
  zone_get_reference_price : Z -> Z -> AuthContext -> Api S (Raw W);
  zone_get_top_of_book : Z -> Z -> AuthContext -> Api S (Raw W);
  zone_get_midpoint_history : Z -> Z -> string -> Z -> option string -> AuthContext -> Api S (Raw W);
  api_get_my_orders : HistoryQuery -> AuthContext -> Api S (Raw W);
  api_get_my_fills : HistoryQuery -> AuthContext -> Api S (Raw W);
  api_get_my_transfers : TransferQuery -> AuthContext -> Api S (Raw W);
  zone_get_my_activity : ActivityQuery -> AuthContext -> Api S (Raw W);
  api_get_order : Z -> AuthContext -> Api S (Raw W);
  zone_get_withdrawal_status : WithdrawalStatusQuery -> AuthContext -> Api S (Raw W)
}.
Arguments block_number {W S}.
Arguments chain_id {W S}.
Arguments net_version {W S}.
Arguments syncing {W S}.
Arguments coinbase {W S}.
Arguments gas_price {W S}.
Arguments max_priority_fee_per_gas {W S}.
Arguments fee_history {W S}.
Arguments get_balance {W S}.
Arguments get_transaction_count {W S}.
Arguments block_by_number {W S}.
Arguments block_by_hash {W S}.
Arguments transaction_by_hash {W S}.
Arguments transaction_receipt {W S}.
Arguments call {W S}.
Arguments estimate_gas {W S}.
Arguments send_raw_transaction {W S}.
Arguments send_raw_transaction_sync {W S}.
Arguments fill_transaction {W S}.
Arguments get_logs {W S}.
Arguments new_filter {W S}.
Arguments get_filter_logs {W S}.
Arguments get_filter_changes {W S}.
Arguments new_block_filter {W S}.
Arguments uninstall_filter {W S}.
Arguments zone_get_authorization_token_info {W S}.
Arguments zone_get_zone_info {W S}.
Arguments zone_get_deposit_status {W S}.
Arguments zone_list_batches {W S}.
Arguments zone_get_batch {W S}.
Arguments zone_search_batch {W S}.
Arguments zone_get_market_config {W S}.
Arguments zone_get_reference_price {W S}.
Arguments zone_get_top_of_book {W S}.
Arguments zone_get_midpoint_history {W S}.
Arguments api_get_my_orders {W S}.
Arguments api_get_my_fills {W S}.
Arguments api_get_my_transfers {W S}.
Arguments zone_get_my_activity {W S}.
Arguments api_get_order {W S}.
Arguments zone_get_withdrawal_status {W S}.

Record JsonRpcRequest (W : Wire) := mkJsonRequest {
  req_method : string;
  req_params : option string;
  req_id : Value W
}.
Arguments mkJsonRequest {W}.
Arguments req_method {W}.
Arguments req_params {W}.
Arguments req_id {W}.

Section Dispatch.
Context {W : Wire} {S : Type}.
Abbreviation Response := (JsonRpcResponse (Value W) (Raw W)).
Abbreviation Handler := (S -> Response * S).

Definition respond (r : Response) : Handler := fun s => (r, s).

Definition api_result (id : Value W) (m : Api S (Raw W)) : Handler := fun s =>
  match m s with
  | (Ok v, s') => (success id v, s')
  | (Err e, s') => (error id e, s')
  end.

(** [parse_params], then the body of the handler. *)
Definition with_params {A} (id : Value W) (parsed : option A) (msg : string) (body : A -> Handler) : Handler :=
  match parsed with
  | Some a => body a
  | None => respond (error id (invalid_params msg))
  end.

Definition normalize_block_number (number : BlockNumberOrTag) : BlockNumberOrTag :=
  match number with Pending => Latest | _ => number end.

(** ** Handlers *)

Context (keccak256 : list Z -> Z) (api : ZoneRpcApi W S).

Section Handlers.
Context (id : Value W) (raw : string) (auth : AuthContext).

Definition handle_web3_sha3 : Handler :=
  with_params id (de_bytes W raw) "expected [data]" (fun data =>
  api_result id (fun s => (Ok (raw_hash W (keccak256 data)), s))).

Definition handle_get_block_by_number : Handler :=
  with_params id (de_number_bool W raw) "expected [blockNumberOrTag, full]" (fun '(number, full) =>
  let number := normalize_block_number number in
  if full : bool then respond (error id sequencer_only)
  else api_result id (block_by_number api number full auth)).

Definition handle_get_block_by_hash : Handler :=
  with_params id (de_hash_bool W raw) "expected [blockHash, full]" (fun '(hash, full) =>
  if full : bool then respond (error id sequencer_only)
  else api_result id (block_by_hash api hash full auth)).

Definition handle_get_transaction_by_hash : Handler :=
  with_params id (de_hash W raw) "expected [txHash]" (fun hash =>
  api_result id (transaction_by_hash api hash auth)).

Definition handle_get_transaction_receipt : Handler :=
  with_params id (de_hash W raw) "expected [txHash]" (fun hash =>
  api_result id (transaction_receipt api hash auth)).

Definition handle_call : Handler :=
  with_params id (de_call W raw) "expected [request, block?, stateOverride?]" (fun '(request, block, state_override) =>
  match state_override with
  | Some _ => respond (error id (invalid_params "state overrides not allowed"))
  | None => api_result id (call api request block state_override auth)
  end).

Definition handle_estimate_gas : Handler :=
  with_params id (de_call W raw) "expected [request, block?, stateOverride?]" (fun '(request, block, state_override) =>
  match state_override with
  | Some _ => respond (error id (invalid_params "state overrides not allowed"))
  | None => api_result id (estimate_gas api request block state_override auth)
  end).

Definition handle_fill_transaction : Handler :=
  with_params id (de_request W raw) "expected [request]" (fun request =>
  api_result id (fill_transaction api request auth)).

Definition handle_send_raw_transaction : Handler :=
  with_params id (de_bytes W raw) "expected [data]" (fun data =>
  api_result id (send_raw_transaction api data auth)).

Definition handle_send_raw_transaction_sync : Handler :=
  with_params id (de_bytes W raw) "expected [data]" (fun data =>
  api_result id (send_raw_transaction_sync api data auth)).

Definition handle_fee_history : Handler :=
  with_params id (de_fee_history W raw) "expected [blockCount, newestBlock, rewardPercentiles?]"
    (fun '(block_count, newest_block, reward_percentiles) =>
  api_result id (fee_history api block_count newest_block reward_percentiles)).

Definition handle_get_balance : Handler :=
  with_params id (de_address_block W raw) "expected [address, block?]" (fun '(address, block) =>
  api_result id (get_balance api address block auth)).

Definition handle_get_transaction_count : Handler :=
  with_params id (de_address_block W raw) "expected [address, block?]" (fun '(address, block) =>
  api_result id (get_transaction_count api address block auth)).

Definition handle_get_logs : Handler :=
  with_params id (de_filter W raw) "expected [filter]" (fun f => api_result id (get_logs api f auth)).

Definition handle_new_filter : Handler :=
  with_params id (de_filter W raw) "expected [filter]" (fun f => api_result id (new_filter api f auth)).

Definition handle_get_filter_logs : Handler :=
  with_params id (de_filter_id W raw) "expected [filterId]" (fun filter_id =>
  api_result id (get_filter_logs api filter_id auth)).

Definition handle_get_filter_changes : Handler :=
  with_params id (de_filter_id W raw) "expected [filterId]" (fun filter_id =>
  api_result id (get_filter_changes api filter_id auth)).

Definition handle_new_block_filter : Handler := api_result id (new_block_filter api auth).

Definition handle_uninstall_filter : Handler :=
  with_params id (de_filter_id W raw) "expected [filterId]" (fun filter_id =>
  api_result id (uninstall_filter api filter_id auth)).

Definition parse_list_batches_params : result string ListBatchesParams :=
  let trimmed := trim raw in
  if (String.length trimmed =? 0)%nat || bool_decide (trimmed = "[]") then Ok (mkListBatches None None)
  else match de_list_batches W raw with
  | Some params => Ok params
  | None =>
    match de_limit_cursor W raw with
    | Some (limit, cursor) => Ok (mkListBatches limit cursor)
    | None => Err "expected [] or [params] for zone_listBatches"
    end
  end.

Definition handle_zone_list_batches : Handler :=
  match parse_list_batches_params with
  | Ok params => api_result id (zone_list_batches api params auth)
  | Err msg => respond (error id (invalid_params msg))
  end.

Definition handle_zone_get_batch : Handler :=
  with_params id (de_string W raw) "expected [batchNumber]" (fun batch_number =>
  with_params id (u64_from_str W batch_number) "expected [batchNumber]" (fun batch_number =>
  api_result id (zone_get_batch api batch_number auth))).

Definition handle_zone_search_batch : Handler :=
  with_params id (de_string W raw) "expected [query]" (fun query =>
  api_result id (zone_search_batch api query auth)).

Definition handle_zone_get_top_of_book : Handler :=
  with_params id (de_pair W raw) "expected [{base, quote}]" (fun p =>
  api_result id (zone_get_top_of_book api (pair_base p) (pair_quote p) auth)).

Definition handle_zone_get_reference_price : Handler :=
  with_params id (de_pair W raw) "expected [{base, quote}]" (fun p =>
  api_result id (zone_get_reference_price api (pair_base p) (pair_quote p) auth)).

Definition handle_zone_get_midpoint_history : Handler :=
  with_params id (de_midpoint W raw) "expected [{base, quote}, interval, limit?, cursor?]"
    (fun '(p, interval, limit, cursor) =>
  let limit := Z.min (default DEFAULT_MIDPOINT_HISTORY_LIMIT limit) MAX_MIDPOINT_HISTORY_LIMIT in
  api_result id (zone_get_midpoint_history api (pair_base p) (pair_quote p) interval limit cursor auth)).

(** At most one element; absent or null is the default query. *)
Definition single_query {A} (parsed : option (list (option A))) (dflt : A) : option A :=
  match parsed with
  | Some [] => Some dflt
  | Some [q] => Some (default dflt q)
  | _ => None
  end.

Definition parse_history_query : option HistoryQuery := single_query (de_history W raw) history_query_default.
Definition parse_transfer_query : option TransferQuery := single_query (de_transfers W raw) transfer_query_default.

Definition handle_zone_get_my_orders : Handler :=
  with_params id parse_history_query "expected [query?]" (fun query =>
  api_result id (api_get_my_orders api query auth)).

Definition handle_zone_get_my_fills : Handler :=
  with_params id parse_history_query "expected [query?]" (fun query =>
  api_result id (api_get_my_fills api query auth)).

Definition handle_zone_get_my_transfers : Handler :=
  with_params id parse_transfer_query "expected [query?]" (fun query =>
  api_result id (api_get_my_transfers api query auth)).

Definition handle_zone_get_my_activity : Handler :=
  with_params id (single_query (de_activity W raw) activity_query_default) "expected [{cursor?, limit?}]" (fun query =>
  api_result id (zone_get_my_activity api query auth)).

Definition handle_zone_get_order : Handler :=
  with_params id (de_string W raw) "expected [orderId]" (fun order_id_hex =>
  with_params id (u128_from_str W order_id_hex) "orderId must be a hex quantity" (fun order_id =>
  api_result id (api_get_order api order_id auth))).

Definition handle_zone_get_deposit_status : Handler :=
  with_params id (de_string W raw) "expected [tempoBlockNumber]" (fun tempo_block_number =>
  with_params id (u64_from_str W tempo_block_number) "expected [tempoBlockNumber]" (fun tempo_block_number =>
  api_result id (zone_get_deposit_status api tempo_block_number auth))).

Definition is_ascii_hexdigit (b : Z) : bool :=
  ((48 <=? b) && (b <=? 57)) || ((65 <=? b) && (b <=? 70)) || ((97 <=? b) && (b <=? 102)).

Definition strip_hex_prefix (param : string) : option string :=
  if String.prefix "0x" param || String.prefix "0X" param
  then Some (String.substring 2 (String.length param - 2) param) else None.

Definition parse_withdrawal_status_query (param : string) : result JsonRpcError WithdrawalStatusQuery :=
  let as_index :=
    match u64_from_str W param with
    | Some v => Ok (WithdrawalIndex v)
    | None => Err (invalid_params "expected [txHashOrWithdrawalIndex]")
    end in
  match strip_hex_prefix param with
  | Some hex =>
    if (String.length hex =? 64)%nat && forallb is_ascii_hexdigit (bytes_of hex) then
      match b256_from_str W param with
      | Some hash => Ok (TxHash hash)
      | None => as_index
      end
    else as_index
  | None => as_index
  end.

Definition handle_zone_get_withdrawal_status : Handler :=
  with_params id (de_string W raw) "expected [txHashOrWithdrawalIndex]" (fun param =>
  match parse_withdrawal_status_query param with
  | Ok query => api_result id (zone_get_withdrawal_status api query auth)
  | Err e => respond (error id e)
  end).

(** The arms of the [match] on the method name. *)
Definition routes : list (string * Handler) :=
  [("eth_blockNumber", api_result id (block_number api));
   ("eth_chainId", api_result id (chain_id api));
   ("eth_gasPrice", api_result id (gas_price api));
   ("eth_maxPriorityFeePerGas", api_result id (max_priority_fee_per_gas api));
   ("net_version", api_result id (net_version api));
   ("net_listening", api_result id (fun s => (Ok (raw_bool W true), s)));
   ("eth_syncing", api_result id (syncing api));
   ("eth_coinbase", api_result id (coinbase api));
   ("web3_sha3", handle_web3_sha3);
   ("web3_clientVersion", api_result id (fun s => (Ok (raw_string W "tempo-zone/v0.1.0"), s)));
   ("eth_feeHistory", handle_fee_history);
   ("eth_getBalance", handle_get_balance);
   ("eth_getTransactionCount", handle_get_transaction_count);
   ("eth_getBlockByNumber", handle_get_block_by_number);
   ("eth_getBlockByHash", handle_get_block_by_hash);
   ("eth_getTransactionByHash", handle_get_transaction_by_hash);
   ("eth_getTransactionReceipt", handle_get_transaction_receipt);
   ("eth_call", handle_call);
   ("eth_estimateGas", handle_estimate_gas);
   ("eth_fillTransaction", handle_fill_transaction);
   ("eth_sendRawTransaction", handle_send_raw_transaction);
   ("eth_sendRawTransactionSync", handle_send_raw_transaction_sync);
   ("eth_getLogs", handle_get_logs);
   ("eth_newFilter", handle_new_filter);
   ("eth_getFilterLogs", handle_get_filter_logs);
   ("eth_getFilterChanges", handle_get_filter_changes);
   ("eth_newBlockFilter", handle_new_block_filter);
   ("eth_uninstallFilter", handle_uninstall_filter);
   ("zone_getAuthorizationTokenInfo", api_result id (zone_get_authorization_token_info api auth));
   ("zone_getZoneInfo", api_result id (zone_get_zone_info api auth));
   ("zone_getDepositStatus", handle_zone_get_deposit_status);
   ("zone_listBatches", handle_zone_list_batches);
   ("zone_getBatch", handle_zone_get_batch);
   ("zone_searchBatch", handle_zone_search_batch);
   ("zone_getMarketConfig", api_result id (zone_get_market_config api auth));
   ("zone_getReferencePrice", handle_zone_get_reference_price);
   ("zone_getTopOfBook", handle_zone_get_top_of_book);
   ("zone_getMidpointHistory", handle_zone_get_midpoint_history);
   ("zone_getMyOrders", handle_zone_get_my_orders);
   ("zone_getMyFills", handle_zone_get_my_fills);
   ("zone_getMyTransfers", handle_zone_get_my_transfers);
   ("zone_getMyActivity", handle_zone_get_my_activity);
   ("zone_getOrder", handle_zone_get_order);
   ("zone_getWithdrawalStatus", handle_zone_get_withdrawal_status)].

Fixpoint route (method : string) (l : list (string * Handler)) : option Handler :=
  match l with
  | [] => None
  | (name, h) :: l' => if bool_decide (method = name) then Some h else route method l'
  end.
End Handlers.

(** ** [dispatch] *)

Definition dispatch (req : JsonRpcRequest W) (auth : AuthContext) : Handler :=
  let id := req_id req in
  match classify_method (req_method req) with
  | None => respond (error id method_not_found)
  | Some Disabled => respond (error id method_disabled)
  | Some Restricted => respond (error id sequencer_only)
  | Some UnsupportedAccountManagement => respond (error id (unsupported_account_method (req_method req)))
  | Some Public =>
    let raw := default "[]" (req_params req) in
    match route (req_method req) (routes id raw auth) with
    | Some handler => handler
    | None => respond (error id (internal "method not yet implemented in private RPC"))
    end
  end.

(** ** server.rs *)

Inductive RpcResult := Single (r : Response) | Batch (rs : list Response).

Fixpoint dispatch_all (requests : list (JsonRpcRequest W)) (auth : AuthContext) (s : S) : list Response * S :=
  match requests with
  | [] => ([], s)
  | req :: requests' =>
    let '(r, s1) := dispatch req auth s in
    let '(rs, s2) := dispatch_all requests' auth s1 in
    (r :: rs, s2)
  end.

Section Server.
(** serde_json on a whole payload; the error is its text. *)
Context (de_requests : string -> result string (list (JsonRpcRequest W)))
        (de_one : string -> result string (JsonRpcRequest W)).

Definition process_rpc_text (text : string) (auth : AuthContext) : S -> RpcResult * S := fun s =>
  let trimmed := trim_start text in
  if String.prefix "[" trimmed then
    match de_requests trimmed with
    | Ok requests =>
      if (length requests =? 0)%nat then (Single (error (value_null W) (parse_error "empty batch")), s)
      else if (MAX_BATCH_SIZE <? length requests)%nat then
        (Single (error (value_null W) (invalid_params
           ("batch too large (" +:+ u64_to_string (Z.of_nat (length requests)) +:+ " > 100)"))), s)
      else let '(responses, s') := dispatch_all requests auth s in (Batch responses, s')
    | Err e => (Single (error (value_null W) (parse_error ("parse error: " +:+ e))), s)
    end
  else
    match de_one trimmed with
    | Ok request => let '(r, s') := dispatch request auth s in (Single r, s')
    | Err e => (Single (error (value_null W) (parse_error ("parse error: " +:+ e))), s)
    end.

(** An HTTP answer: a status with an empty or fixed body, or a payload. *)
Inductive HttpResponse := Status (status : Z) | Payload (r : RpcResult).

(** [authenticated] is the outcome of [authenticate]; [body] is [None] when the
    bytes are not UTF-8. *)
Definition handle_rpc (authenticated : result AuthenticateError AuthContext) (body : option string)
    : S -> HttpResponse * S := fun s =>
  match authenticated with
  | Err e => (Status (status_code e), s)
  | Ok auth =>
    match body with
    | None => (Status 400, s)
    | Some text => let '(r, s') := process_rpc_text text auth s in (Payload r, s')
    end
  end.
End Server.
End Dispatch.
