(* ===== verification/RpcAccessProofs.v ===== *)
(** * Private RPC access control: proofs

    The method table denies by default and every method it allows has a
    handler; the dispatcher reaches the node with the authenticated account
    only; the policy lets through exactly the requests of that account. *)

From stdpp Require Import base list strings.
From S2P Require Import Prelude.
From S2P Require Import TempoState.
From S2P Require Import RpcAuth.
From S2P Require Import RpcLogs.
From S2P Require Import RpcHistory.
From S2P Require Import RpcTypes.
From S2P Require Import RpcPolicy.
From S2P Require Import RpcDispatch.
#[local] Open Scope string_scope.
#[local] Open Scope Z_scope.

(** ** The method table *)

Lemma classify_public m : classify_method m = Some Public <-> m ∈ PUBLIC_METHODS.
Proof.
  unfold classify_method. case_bool_decide; [done|]. repeat case_match; naive_solver.
Qed.

(** The namespaces of raw state and administration. *)
Definition NAMESPACES : list string := ["admin_"; "debug_"; "txpool_"].

Lemma none_in_namespaces (l : list string) ns m :
  forallb (fun x => forallb (fun p => negb (String.prefix p x)) NAMESPACES) l = true ->
  m ∈ l -> ns ∈ NAMESPACES -> String.prefix ns m = false.
Proof.
  rewrite forallb_forall. intros H Hm%list_elem_of_In Hn%list_elem_of_In.
  specialize (H m Hm). rewrite forallb_forall in H. by apply negb_true_iff, H.
Qed.

Lemma classify_namespace ns m :
  ns ∈ NAMESPACES -> String.prefix ns m = true -> classify_method m = Some Restricted.
Proof.
  intros Hn Hp.
  assert (Hout : forall l, forallb (fun x => forallb (fun p => negb (String.prefix p x)) NAMESPACES) l = true -> m ∉ l).
  { intros l Hl Hm. pose proof (none_in_namespaces l ns m Hl Hm Hn). congruence. }
  unfold classify_method.
  rewrite (bool_decide_eq_false_2 (m ∈ PUBLIC_METHODS)), (bool_decide_eq_false_2 (m ∈ UNSUPPORTED_METHODS)),
    (bool_decide_eq_false_2 (m ∈ DISABLED_METHODS)) by (apply Hout; reflexivity).
  case_bool_decide; [done|].
  unfold NAMESPACES in Hn. rewrite !elem_of_cons, elem_of_nil in Hn.
  destruct Hn as [->|[->|[->|[]]]]; rewrite Hp; repeat case_match; done.
Qed.

(** ** Routing *)

Section Routing.
Context {W : Wire} {S : Type} (keccak256 : list Z -> Z).

Lemma route_in m (l : list (string * (S -> JsonRpcResponse (Value W) (Raw W) * S))) :
  (exists h, route m l = Some h) <-> m ∈ fst <$> l.
Proof.
  induction l as [|[name h] l IH]; cbn [route fmap list_fmap fst].
  - rewrite elem_of_nil. naive_solver.
  - rewrite elem_of_cons. case_bool_decide; naive_solver.
Qed.

(** Every allowed method has a handler, and only allowed methods have one. *)
Lemma routes_public (api : ZoneRpcApi W S) id raw auth m :
  m ∈ fst <$> routes keccak256 api id raw auth <-> m ∈ PUBLIC_METHODS.
Proof.
  assert (Hsub : forall l1 l2 : list string, forallb (fun x => bool_decide (x ∈ l2)) l1 = true -> m ∈ l1 -> m ∈ l2).
  { intros l1 l2. rewrite forallb_forall. intros H Hm%list_elem_of_In. by apply (bool_decide_eq_true_1 _ (H m Hm)). }
  split; apply Hsub; vm_compute; reflexivity.
Qed.
End Routing.

(** ** What a public method does *)

(** The handlers of the routing table, unfolded. *)
Ltac unfold_handlers :=
  cbv delta [handle_web3_sha3 handle_get_block_by_number handle_get_block_by_hash
    handle_get_transaction_by_hash handle_get_transaction_receipt handle_call handle_estimate_gas
    handle_fill_transaction handle_send_raw_transaction handle_send_raw_transaction_sync handle_fee_history
    handle_get_balance handle_get_transaction_count handle_get_logs handle_new_filter handle_get_filter_logs
    handle_get_filter_changes handle_new_block_filter handle_uninstall_filter handle_zone_list_batches
    handle_zone_get_batch handle_zone_search_batch handle_zone_get_top_of_book
    handle_zone_get_reference_price handle_zone_get_midpoint_history handle_zone_get_my_orders
    handle_zone_get_my_fills handle_zone_get_my_transfers handle_zone_get_my_activity
    handle_zone_get_order handle_zone_get_deposit_status handle_zone_get_withdrawal_status] beta.

Section Own.
Context {W : Wire} {S : Type} (keccak256 : list Z -> Z) (api : ZoneRpcApi W S) (auth : AuthContext).

(** The operation of the node a method names, asked for the account [auth],
    for some parameters; three methods are answered without the node. *)
Inductive own_operation : string -> Api S (Raw W) -> Prop :=
  | OwnEthBlockNumber : own_operation "eth_blockNumber" (block_number api)
  | OwnEthChainId : own_operation "eth_chainId" (chain_id api)
  | OwnEthGasPrice : own_operation "eth_gasPrice" (gas_price api)
  | OwnEthMaxPriorityFeePerGas : own_operation "eth_maxPriorityFeePerGas" (max_priority_fee_per_gas api)
  | OwnNetVersion : own_operation "net_version" (net_version api)
  | OwnNetListening : own_operation "net_listening" (fun s => (Ok (raw_bool W true), s))
  | OwnEthSyncing : own_operation "eth_syncing" (syncing api)
  | OwnEthCoinbase : own_operation "eth_coinbase" (coinbase api)
  | OwnWeb3Sha3 data : own_operation "web3_sha3" (fun s => (Ok (raw_hash W (keccak256 data)), s))
  | OwnWeb3ClientVersion : own_operation "web3_clientVersion" (fun s => (Ok (raw_string W "tempo-zone/v0.1.0"), s))
  | OwnEthFeeHistory n newest rewards : own_operation "eth_feeHistory" (fee_history api n newest rewards)
  | OwnEthGetBalance a b : own_operation "eth_getBalance" (get_balance api a b auth)
  | OwnEthGetTransactionCount a b : own_operation "eth_getTransactionCount" (get_transaction_count api a b auth)
  | OwnEthGetBlockByNumber n : own_operation "eth_getBlockByNumber" (block_by_number api n false auth)
  | OwnEthGetBlockByHash h : own_operation "eth_getBlockByHash" (block_by_hash api h false auth)
  | OwnEthGetTransactionByHash h : own_operation "eth_getTransactionByHash" (transaction_by_hash api h auth)
  | OwnEthGetTransactionReceipt h : own_operation "eth_getTransactionReceipt" (transaction_receipt api h auth)
  | OwnEthCall r b : own_operation "eth_call" (call api r b None auth)
  | OwnEthEstimateGas r b : own_operation "eth_estimateGas" (estimate_gas api r b None auth)
  | OwnEthFillTransaction r : own_operation "eth_fillTransaction" (fill_transaction api r auth)
  | OwnEthSendRawTransaction d : own_operation "eth_sendRawTransaction" (send_raw_transaction api d auth)
  | OwnEthSendRawTransactionSync d : own_operation "eth_sendRawTransactionSync" (send_raw_transaction_sync api d auth)
  | OwnEthGetLogs f : own_operation "eth_getLogs" (get_logs api f auth)
  | OwnEthNewFilter f : own_operation "eth_newFilter" (new_filter api f auth)
  | OwnEthGetFilterLogs i : own_operation "eth_getFilterLogs" (get_filter_logs api i auth)
  | OwnEthGetFilterChanges i : own_operation "eth_getFilterChanges" (get_filter_changes api i auth)
  | OwnEthNewBlockFilter : own_operation "eth_newBlockFilter" (new_block_filter api auth)
  | OwnEthUninstallFilter i : own_operation "eth_uninstallFilter" (uninstall_filter api i auth)
  | OwnZoneGetAuthorizationTokenInfo : own_operation "zone_getAuthorizationTokenInfo" (zone_get_authorization_token_info api auth)
  | OwnZoneGetZoneInfo : own_operation "zone_getZoneInfo" (zone_get_zone_info api auth)
  | OwnZoneGetDepositStatus n : own_operation "zone_getDepositStatus" (zone_get_deposit_status api n auth)
  | OwnZoneListBatches p : own_operation "zone_listBatches" (zone_list_batches api p auth)
  | OwnZoneGetBatch n : own_operation "zone_getBatch" (zone_get_batch api n auth)
  | OwnZoneSearchBatch q : own_operation "zone_searchBatch" (zone_search_batch api q auth)
  | OwnZoneGetMarketConfig : own_operation "zone_getMarketConfig" (zone_get_market_config api auth)
  | OwnZoneGetReferencePrice b q : own_operation "zone_getReferencePrice" (zone_get_reference_price api b q auth)
  | OwnZoneGetTopOfBook b q : own_operation "zone_getTopOfBook" (zone_get_top_of_book api b q auth)
  | OwnZoneGetMidpointHistory b q i l c : own_operation "zone_getMidpointHistory" (zone_get_midpoint_history api b q i l c auth)
  | OwnZoneGetMyOrders q : own_operation "zone_getMyOrders" (api_get_my_orders api q auth)
  | OwnZoneGetMyFills q : own_operation "zone_getMyFills" (api_get_my_fills api q auth)
  | OwnZoneGetMyTransfers q : own_operation "zone_getMyTransfers" (api_get_my_transfers api q auth)
  | OwnZoneGetMyActivity q : own_operation "zone_getMyActivity" (zone_get_my_activity api q auth)
  | OwnZoneGetOrder n : own_operation "zone_getOrder" (api_get_order api n auth)
  | OwnZoneGetWithdrawalStatus q : own_operation "zone_getWithdrawalStatus" (zone_get_withdrawal_status api q auth).

(** A request is answered by the operation of its method, or refused for its
    parameters with the node untouched. *)
Definition handled (id : Value W) (m : string) (answer : S -> JsonRpcResponse (Value W) (Raw W) * S) (s : S) : Prop :=
  (exists operation, own_operation m operation /\ answer s = api_result id operation s) \/
  (exists e, code e ∈ [-32602; -32005] /\ answer s = (error id e, s)).

Ltac refused := right; eexists; (split; [|reflexivity]); cbn; set_solver.
Ltac handled_by :=
  lazymatch goal with
  | |- handled _ _ (api_result _ _) _ => left; eexists; (split; [constructor|reflexivity])
  | |- handled _ _ (respond (error _ _)) _ => refused
  | |- handled _ _ (with_params _ ?p _ _) _ => destruct p; cbn [with_params]; handled_by
  | |- handled _ _ _ _ => case_match; subst; cbv beta zeta; handled_by
  end.

Lemma withdrawal_query_refused param e : parse_withdrawal_status_query (W:=W) param = Err e -> code e = -32602.
Proof. unfold parse_withdrawal_status_query. intros H. repeat case_match; simplify_eq; done. Qed.

Lemma routes_handled id raw s :
  Forall (fun r => handled id r.1 r.2 s) (routes keccak256 api id raw auth).
Proof.
  unfold routes. repeat (apply Forall_cons; split); [..|by apply Forall_nil]; cbn [fst snd].
  all: unfold_handlers.
  44: { destruct (de_string W raw) as [param|]; cbn [with_params]; [|refused].
        destruct (parse_withdrawal_status_query param) as [q|e] eqn:E; [handled_by|].
        right. exists e. rewrite (withdrawal_query_refused _ _ E). split; [set_solver|reflexivity]. }
  all: handled_by.
Qed.

Lemma route_elem m (l : list (string * (S -> JsonRpcResponse (Value W) (Raw W) * S))) h : route m l = Some h -> (m, h) ∈ l.
Proof.
  induction l as [|[name h'] l IH]; cbn [route]; [done|]. case_bool_decide; [intros [= <-]; subst; set_solver|].
  intros Hr%IH. set_solver.
Qed.

Lemma public_handled req s :
  req_method req ∈ PUBLIC_METHODS -> handled (req_id req) (req_method req) (dispatch keccak256 api req auth) s.
Proof.
  intros Hm. pose proof Hm as E%classify_public. unfold handled, dispatch. rewrite E.
  apply (routes_public keccak256 api (req_id req) (default "[]" (req_params req)) auth), route_in in Hm as (h & Hh).
  rewrite Hh. apply route_elem in Hh.
  pose proof (routes_handled (req_id req) (default "[]" (req_params req)) s) as Hall. rewrite Forall_forall in Hall.
  exact (Hall _ Hh).
Qed.
End Own.

(** ** Default deny *)

(** C28. A request whose method the method table lists as public is answered by the
    operation of the node that its method names, asked for the authenticated
    account, or is refused for its parameters.  Any other request is answered
    with an error that says why, without touching the node, and the
    administrative namespaces are closed as a whole, to every caller: the
    sequencer, for whom the documentation reserves them, is refused as well. *)
Theorem default_deny {W : Wire} {S : Type} (keccak256 : list Z -> Z) (api : ZoneRpcApi W S) auth :
  (forall req s, req_method req ∉ PUBLIC_METHODS ->
     exists e, dispatch keccak256 api req auth s = (error (req_id req) e, s) /\
       code e ∈ [-32601; -32006; -32005; -32004]) /\
  (forall req s, req_method req ∈ PUBLIC_METHODS ->
     handled keccak256 api auth (req_id req) (req_method req) (dispatch keccak256 api req auth) s) /\
  (forall ns m id params s, ns ∈ NAMESPACES -> String.prefix ns m = true ->
     dispatch keccak256 api (mkJsonRequest m params id) auth s = (error id sequencer_only, s)).
Proof.
  unfold dispatch. split; [|split].
  - intros req s Hm. destruct (classify_method (req_method req)) as [[]|] eqn:E.
    1: by apply classify_public in E.
    all: eexists; (split; [reflexivity|]); cbn [code method_not_found method_disabled sequencer_only
      unsupported_account_method]; set_solver.
  - intros req s. apply public_handled.
  - intros ns m id params s Hn Hp. cbn [req_method req_id]. by rewrite (classify_namespace ns).
Qed.

(** ** Confinement *)

(** Two implementations that cannot be told apart by the account [auth],
    asking for blocks without transactions and for no state override. *)
Record agree_for {W S} (auth : AuthContext) (a1 a2 : ZoneRpcApi W S) : Prop := {
  ag_block_number s : block_number a1 s = block_number a2 s;
  ag_chain_id s : chain_id a1 s = chain_id a2 s;
  ag_net_version s : net_version a1 s = net_version a2 s;
  ag_syncing s : syncing a1 s = syncing a2 s;
  ag_coinbase s : coinbase a1 s = coinbase a2 s;
  ag_gas_price s : gas_price a1 s = gas_price a2 s;
  ag_priority_fee s : max_priority_fee_per_gas a1 s = max_priority_fee_per_gas a2 s;
  ag_fee_history n b p s : fee_history a1 n b p s = fee_history a2 n b p s;
  ag_balance a b s : get_balance a1 a b auth s = get_balance a2 a b auth s;
  ag_count a b s : get_transaction_count a1 a b auth s = get_transaction_count a2 a b auth s;
  ag_block_at n s : block_by_number a1 n false auth s = block_by_number a2 n false auth s;
  ag_block_of h s : block_by_hash a1 h false auth s = block_by_hash a2 h false auth s;
  ag_tx h s : transaction_by_hash a1 h auth s = transaction_by_hash a2 h auth s;
  ag_receipt h s : transaction_receipt a1 h auth s = transaction_receipt a2 h auth s;
  ag_call r b s : call a1 r b None auth s = call a2 r b None auth s;
  ag_estimate r b s : estimate_gas a1 r b None auth s = estimate_gas a2 r b None auth s;
  ag_send d s : send_raw_transaction a1 d auth s = send_raw_transaction a2 d auth s;
  ag_send_sync d s : send_raw_transaction_sync a1 d auth s = send_raw_transaction_sync a2 d auth s;
  ag_fill r s : fill_transaction a1 r auth s = fill_transaction a2 r auth s;
  ag_logs f s : get_logs a1 f auth s = get_logs a2 f auth s;
  ag_new_filter f s : new_filter a1 f auth s = new_filter a2 f auth s;
  ag_filter_logs i s : get_filter_logs a1 i auth s = get_filter_logs a2 i auth s;
  ag_filter_changes i s : get_filter_changes a1 i auth s = get_filter_changes a2 i auth s;
  ag_new_block_filter s : new_block_filter a1 auth s = new_block_filter a2 auth s;
  ag_uninstall i s : uninstall_filter a1 i auth s = uninstall_filter a2 i auth s;
  ag_token_info s : zone_get_authorization_token_info a1 auth s = zone_get_authorization_token_info a2 auth s;
  ag_zone_info s : zone_get_zone_info a1 auth s = zone_get_zone_info a2 auth s;
  ag_deposit n s : zone_get_deposit_status a1 n auth s = zone_get_deposit_status a2 n auth s;
  ag_list_batches p s : zone_list_batches a1 p auth s = zone_list_batches a2 p auth s;
  ag_batch n s : zone_get_batch a1 n auth s = zone_get_batch a2 n auth s;
  ag_search q s : zone_search_batch a1 q auth s = zone_search_batch a2 q auth s;
  ag_market s : zone_get_market_config a1 auth s = zone_get_market_config a2 auth s;
  ag_ref_price b q s : zone_get_reference_price a1 b q auth s = zone_get_reference_price a2 b q auth s;
  ag_top b q s : zone_get_top_of_book a1 b q auth s = zone_get_top_of_book a2 b q auth s;
  ag_midpoint b q i l c s : l <= MAX_MIDPOINT_HISTORY_LIMIT ->
    zone_get_midpoint_history a1 b q i l c auth s = zone_get_midpoint_history a2 b q i l c auth s;
  ag_orders q s : api_get_my_orders a1 q auth s = api_get_my_orders a2 q auth s;
  ag_fills q s : api_get_my_fills a1 q auth s = api_get_my_fills a2 q auth s;
  ag_transfers q s : api_get_my_transfers a1 q auth s = api_get_my_transfers a2 q auth s;
  ag_activity q s : zone_get_my_activity a1 q auth s = zone_get_my_activity a2 q auth s;
  ag_order i s : api_get_order a1 i auth s = api_get_order a2 i auth s;
  ag_withdrawal q s : zone_get_withdrawal_status a1 q auth s = zone_get_withdrawal_status a2 q auth s
}.

Section Confined.
Context {W : Wire} {S : Type} (keccak256 : list Z -> Z).
Implicit Types api : ZoneRpcApi W S.

Lemma api_result_ext (id : Value W) (m1 m2 : Api S (Raw W)) s : m1 s = m2 s -> api_result id m1 s = api_result id m2 s.
Proof. unfold api_result. by intros ->. Qed.

Lemma with_params_ext {A} (id : Value W) (p : option A) msg (f1 f2 : A -> S -> JsonRpcResponse (Value W) (Raw W) * S) s :
  (forall a, f1 a s = f2 a s) -> with_params id p msg f1 s = with_params id p msg f2 s.
Proof. unfold with_params. destruct p; [auto|done]. Qed.

(** Routing is pointwise in the handlers. *)
Lemma route_ext m (l1 l2 : list (string * (S -> JsonRpcResponse (Value W) (Raw W) * S))) d s :
  Forall2 (fun x y => x.1 = y.1 /\ x.2 s = y.2 s) l1 l2 ->
  match route m l1 with Some h => h | None => d end s = match route m l2 with Some h => h | None => d end s.
Proof.
  induction 1 as [|[n1 h1] [n2 h2] l1 l2 [E1 E2] _ IH]; cbn in *; [done|].
  subst n2. by case_bool_decide.
Qed.

Lemma midpoint_limit l : Z.min l MAX_MIDPOINT_HISTORY_LIMIT <= MAX_MIDPOINT_HISTORY_LIMIT.
Proof. lia. Qed.

Ltac each_route :=
  lazymatch goal with
  | |- Forall2 _ (_ :: _) (_ :: _) => apply Forall2_cons_2; [split; [reflexivity|cbn [snd]]|each_route]
  | |- Forall2 _ [] [] => apply Forall2_nil_2
  end.

Ltac confined Ha :=
  lazymatch goal with
  | |- with_params _ _ _ _ _ = with_params _ _ _ _ _ => apply with_params_ext; intros ?; confined Ha
  | |- api_result _ _ _ = api_result _ _ _ =>
    apply api_result_ext; first [apply Ha; first [done|apply midpoint_limit]|reflexivity]
  | |- respond _ _ = respond _ _ => reflexivity
  | |- _ = _ => case_match; subst; cbv beta zeta; confined Ha
  end.

Lemma dispatch_ext auth (a1 a2 : ZoneRpcApi W S) req s :
  agree_for auth a1 a2 -> dispatch keccak256 a1 req auth s = dispatch keccak256 a2 req auth s.
Proof.
  intros Ha. unfold dispatch. destruct (classify_method _) as [[]|]; [|done..].
  set (raw := default _ _). generalize raw as r. intros r.
  apply route_ext.
  unfold routes. each_route.
  all: lazymatch goal with
         | |- api_result _ _ _ = _ => apply api_result_ext; first [apply Ha|reflexivity]
         | |- _ => idtac
         end.
  all: unfold_handlers.
  all: confined Ha.
Qed.
End Confined.

Lemma handle_rpc_ext {W : Wire} {S : Type} (keccak256 : list Z -> Z) auth (a1 a2 : ZoneRpcApi W S) :
  agree_for auth a1 a2 ->
  forall de_requests de_one body s,
    handle_rpc keccak256 a1 de_requests de_one (Ok auth) body s =
    handle_rpc keccak256 a2 de_requests de_one (Ok auth) body s.
Proof.
  intros Ha de_requests de_one [text|] s; [|reflexivity].
  assert (Hall : forall reqs s, dispatch_all keccak256 a1 reqs auth s = dispatch_all keccak256 a2 reqs auth s).
  { intros reqs. induction reqs as [|req reqs IH]; intros s'; [reflexivity|].
    cbn [dispatch_all]. rewrite (dispatch_ext keccak256 auth a1 a2 req s' Ha).
    destruct (dispatch _ a2 req auth s') as [r s1]. by rewrite IH. }
  unfold handle_rpc, process_rpc_text.
  destruct (String.prefix _ _).
  - destruct (de_requests _) as [reqs|]; [|reflexivity]. by rewrite Hall.
  - destruct (de_one _) as [req|]; [|reflexivity]. by rewrite (dispatch_ext keccak256 auth a1 a2 req s Ha).
Qed.

(** C29. The dispatcher never speaks for anyone but the authenticated account: it
    cannot tell apart two nodes that answer this account alike, whatever they
    would answer to others, to a request for full blocks or to a state
    override.  So an answer contains nothing the node does not give to this
    account. *)
Theorem dispatch_confined {W : Wire} {S : Type} (keccak256 : list Z -> Z) auth (a1 a2 : ZoneRpcApi W S) :
  agree_for auth a1 a2 ->
  forall de_requests de_one body s,
    handle_rpc keccak256 a1 de_requests de_one (Ok auth) body s =
    handle_rpc keccak256 a2 de_requests de_one (Ok auth) body s.
Proof. apply handle_rpc_ext. Qed.

(** ** Batches *)

(** An answer carries the id of its request, and a result or an error. *)
Definition answers_to {W : Wire} (id : Value W) (r : JsonRpcResponse (Value W) (Raw W)) : Prop :=
  response_id r = id /\ (is_Some (response_result r) <-> response_error r = None).

Section Batches.
Context {W : Wire} {S : Type} (keccak256 : list Z -> Z) (api : ZoneRpcApi W S).

Lemma success_answers (id : Value W) v : answers_to id (success id v).
Proof. split; [done|]. cbn. split; eauto. Qed.
Lemma error_answers (id : Value W) e : answers_to id (error id e).
Proof. split; [done|]. cbn. split; [intros [? ?]|]; done. Qed.

Lemma api_result_answers (id : Value W) (m : Api S (Raw W)) s : answers_to id (fst (api_result id m s)).
Proof. unfold api_result. destruct (m s) as [[v|e] s']; [apply success_answers|apply error_answers]. Qed.

Lemma with_params_answers {A} (id : Value W) (p : option A) msg body (s : S) :
  (forall a, answers_to id (fst (body a s))) -> answers_to id (fst (with_params id p msg body s)).
Proof. unfold with_params. destruct p; [auto|intros _; apply error_answers]. Qed.

Ltac answering :=
  lazymatch goal with
  | |- answers_to _ (fst (with_params _ _ _ _ _)) => apply with_params_answers; intros ?; answering
  | |- answers_to _ (fst (api_result _ _ _)) => apply api_result_answers
  | |- answers_to _ (fst (respond (error _ _) _)) => apply error_answers
  | |- _ => case_match; subst; cbv beta zeta; answering
  end.

Lemma route_answers m (id : Value W) (l : list (string * (S -> JsonRpcResponse (Value W) (Raw W) * S))) e s :
  Forall (fun x => answers_to id (fst (x.2 s))) l ->
  answers_to id (fst (match route m l with Some h => h | None => respond (error id e) end s)).
Proof.
  induction 1 as [|[n h] l H _ IH]; cbn in *; [apply error_answers|]. by case_bool_decide.
Qed.

Lemma dispatch_answers req auth s : answers_to (req_id req) (fst (dispatch keccak256 api req auth s)).
Proof.
  unfold dispatch. destruct (classify_method _) as [[]|]; [|apply error_answers..].
  set (raw := default _ _). generalize raw as r. intros r. apply route_answers. unfold routes.
  repeat lazymatch goal with |- Forall _ (_ :: _) => apply Forall_cons_2; [cbn [snd]|] end;
    lazymatch goal with |- Forall _ [] => apply Forall_nil_2 | |- _ => idtac end.
  all: lazymatch goal with
       | |- answers_to _ (fst (api_result _ _ _)) => apply api_result_answers
       | |- _ => unfold_handlers; answering
       end.
Qed.

Lemma dispatch_all_answers reqs auth s :
  Forall2 (fun req r => answers_to (req_id req) r) reqs (fst (dispatch_all keccak256 api reqs auth s)).
Proof.
  revert s. induction reqs as [|req reqs IH]; intros s; cbn [dispatch_all fst]; [constructor|].
  pose proof (dispatch_answers req auth s) as H. destruct (dispatch _ _ req auth s) as [r s1].
  specialize (IH s1). destruct (dispatch_all _ _ reqs auth s1) as [rs s2]. cbn [fst] in *. by constructor.
Qed.
End Batches.

(** A batch of 1 to 100 requests is answered request by request, in order and
    with their ids; an empty, oversized or unreadable one is refused as a whole
    and leaves the node as it was. *)
Theorem batch_answers {W : Wire} {S : Type} (keccak256 : list Z -> Z) (api : ZoneRpcApi W S) de_requests de_one text auth s :
  String.prefix "[" (trim_start text) = true ->
  match de_requests (trim_start text) with
  | Ok reqs =>
    if decide (1 <= Z.of_nat (length reqs) <= 100) then
      exists rs s', process_rpc_text keccak256 api de_requests de_one text auth s = (Batch rs, s') /\
        (rs, s') = dispatch_all keccak256 api reqs auth s /\
        Forall2 (fun req r => answers_to (req_id req) r) reqs rs
    else exists e, process_rpc_text keccak256 api de_requests de_one text auth s = (Single (error (value_null W) e), s)
  | Err _ => exists e, process_rpc_text keccak256 api de_requests de_one text auth s = (Single (error (value_null W) e), s)
  end.
Proof.
  intros Hp. unfold process_rpc_text. rewrite Hp.
  destruct (de_requests _) as [reqs|msg]; [|by eexists]. unfold MAX_BATCH_SIZE.
  destruct (Nat.eqb_spec (length reqs) 0), (Nat.ltb_spec 100 (length reqs)), (decide _); try lia; try by eexists.
  pose proof (dispatch_all_answers keccak256 api reqs auth s) as Hall.
  destruct (dispatch_all _ _ reqs auth s) as [rs s']. exists rs, s'. done.
Qed.

(** ** The request policy *)

Section Policy.
Context {Rest : Type} (decode_refunds : list Z -> option Z).
Implicit Types r : TempoTransactionRequest Rest.

(** A request that would create a contract. *)
Definition creates r : Prop :=
  rq_to r = Some TxCreate \/ (rq_to r = None /\ rq_calls r = []) \/ exists c, c ∈ rq_calls r /\ tc_to c = TxCreate.

(** The call data a request sends to an address, directly or in its calls. *)
Definition sends r (to : Z) (input : list Z) : Prop :=
  (rq_to r = Some (TxCall to) /\ rq_input r = Some input) \/
  exists c, c ∈ rq_calls r /\ tc_to c = TxCall to /\ tc_input c = input.

(** The request reads the refunds of [owner]. *)
Definition reads_refunds r (owner : Z) : Prop :=
  exists input, sends r ZONE_INBOX_ADDRESS input /\
    starts_with REFUNDS_SELECTOR input = true /\ decode_refunds input = Some owner.

Lemma no_creation_Ok r : enforce_no_contract_creation r = Ok tt <-> ~ creates r.
Proof.
  unfold enforce_no_contract_creation, creates.
  destruct (existsb _ _) eqn:Ex.
  - apply existsb_exists in Ex as (c & Hc%list_elem_of_In & E).
    rewrite !orb_true_r. split; [done|]. intros []. right. right. exists c. split; [done|].
    by destruct (tc_to c).
  - assert (Hno : forall c, c ∈ rq_calls r -> tc_to c <> TxCreate).
    { intros c Hc%list_elem_of_In E. enough (existsb (fun c => is_create (tc_to c)) (rq_calls r) = true) by congruence.
      apply existsb_exists. exists c. by rewrite E. }
    rewrite orb_false_r.
    destruct (rq_to r) as [[to|]|], (rq_calls r); cbn; (split; [|done || naive_solver]); naive_solver.
Qed.

Lemma refunds_mismatch_Some caller to input owner :
  refunds_owner_mismatch decode_refunds caller to input = Some owner <->
  to = Some ZONE_INBOX_ADDRESS /\ owner <> caller /\
  exists i, input = Some i /\ starts_with REFUNDS_SELECTOR i = true /\ decode_refunds i = Some owner.
Proof.
  unfold refunds_owner_mismatch. case_bool_decide as Et; [split; [done|intros (? & _); done]|].
  destruct input as [i|]; cbn [mbind option_bind]; [|split; [done|intros (_ & _ & ? & ? & _); done]].
  destruct (starts_with _ i) eqn:Es; cbn [negb]; [|split; [done|intros (_ & _ & ? & [= <-] & ? & _); congruence]].
  destruct (decode_refunds i) as [o|] eqn:Ed; cbn [mbind option_bind];
    [|split; [done|intros (_ & _ & ? & [= <-] & _ & ?); congruence]].
  destruct (Z.eqb_spec o caller) as [->|Hn]; cbn [negb].
  - split; [done|]. intros (_ & Hn & ? & [= <-] & _ & ?). congruence.
  - split; [intros [= ->]; eauto 10|]. intros (_ & _ & ? & [= <-] & _ & ?). congruence.
Qed.

Lemma find_map_None {A B} (f : A -> option B) l : find_map f l = None <-> forall x, x ∈ l -> f x = None.
Proof.
  induction l as [|x l IH]; cbn; [split; [set_solver|done]|].
  destruct (f x) eqn:E; [|rewrite IH]; set_solver.
Qed.

Lemma mismatched_None r caller :
  zone_inbox_refunds_mismatched_owner decode_refunds r caller = None <->
  forall owner, reads_refunds r owner -> owner = caller.
Proof.
  unfold zone_inbox_refunds_mismatched_owner, reads_refunds, sends.
  assert (Hm : forall to input, refunds_owner_mismatch decode_refunds caller to input = None <->
    forall o i, to = Some ZONE_INBOX_ADDRESS -> input = Some i -> starts_with REFUNDS_SELECTOR i = true ->
      decode_refunds i = Some o -> o = caller).
  { intros to input. destruct (refunds_owner_mismatch _ _ _ _) as [o|] eqn:E; split; intros H; try done.
    - apply refunds_mismatch_Some in E as (? & Hn & i & ? & ? & ?). by destruct Hn; eapply H.
    - intros o i -> -> Hs Hd. destruct (Z.eq_dec o caller) as [|Hn]; [done|].
      assert (refunds_owner_mismatch decode_refunds caller (Some ZONE_INBOX_ADDRESS) (Some i) = Some o) as E'
        by (apply refunds_mismatch_Some; naive_solver). congruence. }
  destruct (refunds_owner_mismatch _ _ _ _) as [o|] eqn:E.
  - split; [done|]. intros H. apply refunds_mismatch_Some in E as (Et & Hn & i & Ei & Hs & Hd).
    destruct Hn. apply H. exists i. split; [|done]. left. split; [|done].
    destruct (rq_to r) as [[]|]; naive_solver.
  - rewrite find_map_None. rewrite Hm in E. setoid_rewrite Hm. split.
    + intros H owner (i & [[Et Ei]|(c & Hc & Et & <-)] & Hs & Hd).
      * apply (E owner i); [by rewrite Et|done..].
      * apply (H c Hc owner (tc_input c)); [by rewrite Et|done..].
    + intros H c Hc o i Et [= <-] Hs Hd. apply H. exists (tc_input c). split; [|done]. right. exists c.
      split; [done|]. split; [|done]. destruct (tc_to c); naive_solver.
Qed.

Lemma set_from_same r a : rq_from r = Some a -> set_from a r = r.
Proof. destruct r; cbn. by intros ->. Qed.
Lemma creates_set_from a r : creates (set_from a r) <-> creates r.
Proof. done. Qed.
Lemma reads_set_from a r o : reads_refunds (set_from a r) o <-> reads_refunds r o.
Proof. done. Qed.
End Policy.

Lemma enforce_authorized_Ok {Rest : Type} (decode_refunds : list Z -> option Z) auth
    (r r' : TempoTransactionRequest Rest) is_sequencer :
  enforce_authorized decode_refunds r auth is_sequencer = Ok r' <->
  (rq_from r = None \/ rq_from r = Some (auth_caller auth)) /\ r' = set_from (auth_caller auth) r /\
  ~ creates r /\
  ((forall owner, reads_refunds decode_refunds r owner -> owner = auth_caller auth) \/ is_sequencer = Ok true).
Proof.
  unfold enforce_authorized, enforce_contract_creation,
    enforce_contract_creation_with_allowlist, CONTRACT_DEPLOYER_ALLOWLIST.
  rewrite bool_decide_eq_false_2 by apply not_elem_of_nil.
  assert (Hrest : forall r0, match enforce_no_contract_creation r0 with
      | Err e => Err e
      | Ok _ => match enforce_zone_inbox_refund_call_privacy decode_refunds r0 auth is_sequencer with
                | Err e => Err e | Ok _ => Ok r0 end end = Ok r' <->
    r' = r0 /\ ~ creates r0 /\
    ((forall owner, reads_refunds decode_refunds r0 owner -> owner = auth_caller auth) \/ is_sequencer = Ok true)).
  { intros r0. rewrite <-no_creation_Ok, <-mismatched_None.
    unfold enforce_zone_inbox_refund_call_privacy.
    destruct (enforce_no_contract_creation r0) as [[]|]; [|naive_solver].
    destruct (zone_inbox_refunds_mismatched_owner _ _ _), is_sequencer as [[]|]; naive_solver. }
  unfold enforce_from. destruct (rq_from r) as [from|] eqn:Ef.
  - destruct (Z.eqb_spec from (auth_caller auth)) as [->|]; cbn [negb]; [|naive_solver].
    rewrite Hrest, (set_from_same r (auth_caller auth) Ef). naive_solver.
  - rewrite Hrest, creates_set_from. setoid_rewrite reads_set_from. naive_solver.
Qed.

(** A simulated or filled transaction passes the policy exactly when it is the
    caller's: its sender is absent or the caller, it creates no contract, and it
    reads no refunds but the caller's, unless the caller is the sequencer.  It
    passes with the caller as its sender.  A submitted transaction passes
    exactly when it decodes and its signature is the caller's. *)
Theorem policy_admits_iff {Rest Tx : Type} (decode_refunds : list Z -> option Z)
    (decode_2718 : list Z -> option Tx) (recover : Tx -> option Z) auth :
  (forall (r r' : TempoTransactionRequest Rest) is_sequencer,
     enforce_authorized decode_refunds r auth is_sequencer = Ok r' <->
     (rq_from r = None \/ rq_from r = Some (auth_caller auth)) /\ r' = set_from (auth_caller auth) r /\
     ~ creates r /\
     ((forall owner, reads_refunds decode_refunds r owner -> owner = auth_caller auth) \/ is_sequencer = Ok true)) /\
  (forall data, verify_raw_tx_sender decode_2718 recover data auth = Ok tt <->
     exists tx, decode_2718 data = Some tx /\ recover tx = Some (auth_caller auth)).
Proof.
  split; [intros; apply enforce_authorized_Ok|].
  intros data. unfold verify_raw_tx_sender. destruct (decode_2718 data) as [tx|]; [|naive_solver].
  destruct (recover tx) as [a|] eqn:Er; [|naive_solver].
  destruct (Z.eqb_spec a (auth_caller auth)); cbn [negb]; naive_solver.
Qed.

(** The fees of a request are all given. *)
Definition fees_given {Rest : Type} (r : TempoTransactionRequest Rest) : Prop :=
  (is_Some (rq_gas_price r) \/ (is_Some (rq_max_fee_per_gas r) /\ is_Some (rq_max_priority_fee_per_gas r))) /\
  (rq_has_eip4844_fields r = true -> is_Some (rq_max_fee_per_blob_gas r)).

(** A filled request leaves no fee for the node to estimate from the activity
    of others, and keeps every fee the caller chose. *)
Lemma public_fees {Rest : Type} (base_fee : Z) (r : TempoTransactionRequest Rest) :
  let r' := apply_public_fee_policy base_fee r in
  fees_given r' /\
  (forall x, rq_gas_price r = Some x -> rq_gas_price r' = Some x) /\
  (forall x, rq_max_fee_per_gas r = Some x -> rq_max_fee_per_gas r' = Some x) /\
  (forall x, rq_max_priority_fee_per_gas r = Some x -> rq_max_priority_fee_per_gas r' = Some x) /\
  (forall x, rq_max_fee_per_blob_gas r = Some x -> rq_max_fee_per_blob_gas r' = Some x).
Proof.
  destruct r as [from to input calls ty gp mf mp mb has rest].
  unfold apply_public_fee_policy, fees_given; cbn [rq_from rq_to rq_input rq_calls rq_transaction_type rq_gas_price
    rq_max_fee_per_gas rq_max_priority_fee_per_gas rq_max_fee_per_blob_gas rq_has_eip4844_fields rq_rest].
  destruct gp as [gp|]; [|destruct (bool_decide (ty = Some 0 \/ ty = Some 1))]; cbn;
    destruct has, mb, mf, mp; cbn; rewrite ?bool_decide_eq_true_2 by done;
    repeat split; intros; simplify_eq; eauto.
Qed.
