(* ===== verification/NodeRpc.v ===== *)
(** * Private RPC: the node's handlers

    The methods of [ZoneRpcApi] in node/src/rpc.rs that serve Ethereum requests:
    scoped state reads, redacted blocks and fee histories, transactions and
    receipts, simulation, log queries, and filters with their owners.  reth's
    handlers, its filter registry and the L1 portal are the record [Eth].  A
    handler is one step: it holds no lock across the calls it makes, but every
    effect it has on the owner table is a single insertion or removal. *)

From stdpp Require Import gmap list strings.
From S2P Require Import Prelude.
From S2P Require Import RpcAuth.
From S2P Require Import RpcLogs.
From S2P Require Import RpcTypes.
From S2P Require Import RpcPolicy.
From S2P Require Import RpcDispatch.
#[local] Open Scope string_scope.
#[local] Open Scope Z_scope.
#[local] Open Scope api_scope.

(** ** Blocks and fees *)

Record Header := mkHeader {
  h_hash : Z;
  h_parent_hash : Z;
  h_number : Z;
  h_timestamp : Z;
  h_beneficiary : Z;
  h_gas_limit : Z;
  h_base_fee_per_gas : option Z;
  h_state_root : Z;
  h_transactions_root : Z;
  h_receipts_root : Z;
  h_withdrawals_root : option Z;
  h_extra_data : list Z;
  h_gas_used : Z;
  h_logs_bloom : Z;
  h_blob_gas_used : option Z;
  h_excess_blob_gas : option Z;
  h_size : option Z
}.

Inductive BlockTransactions := Hashes (hashes : list Z) | Full (txs : list Z).

Record Block := mkBlock {
  b_header : Header;
  b_transactions : BlockTransactions;
  b_withdrawals : option (list Z)
}.

Definition redact_header (h : Header) : Header :=
  mkHeader (h_hash h) (h_parent_hash h) (h_number h) (h_timestamp h) (h_beneficiary h) (h_gas_limit h)
    (h_base_fee_per_gas h) (h_state_root h) (h_transactions_root h) (h_receipts_root h)
    (h_withdrawals_root h) (h_extra_data h) 0 0 ((fun _ => 0) <$> h_blob_gas_used h)
    ((fun _ => 0) <$> h_excess_blob_gas h) ((fun _ => 0) <$> h_size h).

Definition redact_block (b : Block) : Block :=
  mkBlock (redact_header (b_header b)) (Hashes []) ((fun _ => []) <$> b_withdrawals b).

(** The ratios are [f64] values, given by their bits; [0.0] is zero. *)
Record FeeHistory := mkFeeHistory {
  fh_base_fee_per_gas : list Z;
  fh_gas_used_ratio : list Z;
  fh_base_fee_per_blob_gas : list Z;
  fh_blob_gas_used_ratio : list Z;
  fh_oldest_block : Z;
  fh_reward : option (list (list Z))
}.

(** [slice::fill] *)
Definition fill {A} (a : A) (l : list A) : list A := (fun _ => a) <$> l.

Definition redact_fee_history (TEMPO_T0_BASE_FEE : Z) (history : FeeHistory) : FeeHistory :=
  mkFeeHistory (fill TEMPO_T0_BASE_FEE (fh_base_fee_per_gas history)) (fill 0 (fh_gas_used_ratio history))
    (fill 0 (fh_base_fee_per_blob_gas history)) (fill 0 (fh_blob_gas_used_ratio history))
    (fh_oldest_block history) ((fun rewards : list (list Z) => fill 0 <$> rewards) <$> fh_reward history).

(** ** Transactions *)

Record Transaction := mkTransaction {
  tx_from : Z;
  tx_transaction_index : option Z;
  tx_block_hash : option Z;
  tx_block_number : option Z;
  tx_envelope : list Z
}.

Definition set_transaction_index (i : option Z) (tx : Transaction) : Transaction :=
  mkTransaction (tx_from tx) i (tx_block_hash tx) (tx_block_number tx) (tx_envelope tx).

Record AuthorizationTokenInfoResponse := mkTokenInfo { ti_account : Z; ti_expires_at : Z }.
Record ZoneInfoResponse := mkZoneInfo {
  zi_zone_id : Z; zi_zone_tokens : list Z; zi_sequencer : Z; zi_chain_id : Z
}.

(** ** What reth and L1 provide

    [C] is the chain data at one moment, [Reg] reth's registry of installed
    filters.  An error is the text [map_err(internal)] puts into the answer. *)

Inductive FilterSpec := LogFilter (f : Filter) | BlockFilter.
Inductive FilterChanges := Logs (logs : list Log) | BlockHashes (hashes : list Z) | Transactions | Empty.
Inductive EthFilterError := FilterNotFound | OtherFilterError (text : string).

Record Eth (W : Wire) (C Reg Bloom Filled Sync Tx : Type) := mkEth {
  eth_best_number : C -> result string Z;
  eth_chain_id : Z;
  eth_sync_status : C -> result string Sync;
  eth_gas_price : C -> result string Z;
  eth_suggested_priority_fee : C -> result string Z;
  eth_fee_history : C -> Z -> BlockNumberOrTag -> option (Percentiles W) -> result string FeeHistory;
  eth_balance : C -> Z -> option (BlockId W) -> result string Z;
  eth_transaction_count : C -> Z -> option (BlockId W) -> result string Z;
  eth_block_at : C -> BlockNumberOrTag -> bool -> result string (option Block);
  eth_block_of : C -> Z -> bool -> result string (option Block);
  eth_transaction_by_hash : C -> Z -> result string (option Transaction);
  eth_transaction_receipt : C -> Z -> result string (option (@TempoTransactionReceipt Bloom));
  eth_call : C -> TempoTransactionRequest (Rest W) -> option (BlockId W) -> result string (list Z);
  eth_estimate_gas_at : C -> TempoTransactionRequest (Rest W) -> BlockId W -> result string Z;
  eth_fill_transaction : C -> TempoTransactionRequest (Rest W) -> result string Filled;
  eth_send_raw : C -> list Z -> result string Z * C;
  eth_send_raw_sync : C -> list Z -> result string (@TempoTransactionReceipt Bloom) * C;
  eth_logs : C -> Filter -> result string (list Log);
  block_id_default : BlockId W;
  reg_new : Reg -> C -> FilterSpec -> result string (FilterId W) * Reg;
  reg_active : Reg -> FilterId W -> bool;
  reg_logs : Reg -> C -> FilterId W -> result EthFilterError (list Log);
  reg_changes : Reg -> C -> FilterId W -> result EthFilterError FilterChanges * Reg;
  reg_uninstall : Reg -> FilterId W -> result string bool * Reg;
  l1_enabled_tokens : C -> result string (list Z);
  l1_sequencer : C -> result string Z;
  logs_bloom_of : list Log -> Bloom;
  decode_2718 : list Z -> option Tx;
  tx_recover_signer : Tx -> option Z;
  decode_refunds : list Z -> option Z;
  TEMPO_T0_BASE_FEE : Z
}.
Arguments eth_best_number {W C Reg Bloom Filled Sync Tx}.
Arguments eth_chain_id {W C Reg Bloom Filled Sync Tx}.
Arguments eth_sync_status {W C Reg Bloom Filled Sync Tx}.
Arguments eth_gas_price {W C Reg Bloom Filled Sync Tx}.
Arguments eth_suggested_priority_fee {W C Reg Bloom Filled Sync Tx}.
Arguments eth_fee_history {W C Reg Bloom Filled Sync Tx}.
Arguments eth_balance {W C Reg Bloom Filled Sync Tx}.
Arguments eth_transaction_count {W C Reg Bloom Filled Sync Tx}.
Arguments eth_block_at {W C Reg Bloom Filled Sync Tx}.
Arguments eth_block_of {W C Reg Bloom Filled Sync Tx}.
Arguments eth_transaction_by_hash {W C Reg Bloom Filled Sync Tx}.
Arguments eth_transaction_receipt {W C Reg Bloom Filled Sync Tx}.
Arguments eth_call {W C Reg Bloom Filled Sync Tx}.
Arguments eth_estimate_gas_at {W C Reg Bloom Filled Sync Tx}.
Arguments eth_fill_transaction {W C Reg Bloom Filled Sync Tx}.
Arguments eth_send_raw {W C Reg Bloom Filled Sync Tx}.
Arguments eth_send_raw_sync {W C Reg Bloom Filled Sync Tx}.
Arguments eth_logs {W C Reg Bloom Filled Sync Tx}.
Arguments block_id_default {W C Reg Bloom Filled Sync Tx}.
Arguments reg_new {W C Reg Bloom Filled Sync Tx}.
Arguments reg_active {W C Reg Bloom Filled Sync Tx}.
Arguments reg_logs {W C Reg Bloom Filled Sync Tx}.
Arguments reg_changes {W C Reg Bloom Filled Sync Tx}.
Arguments reg_uninstall {W C Reg Bloom Filled Sync Tx}.
Arguments l1_enabled_tokens {W C Reg Bloom Filled Sync Tx}.
Arguments l1_sequencer {W C Reg Bloom Filled Sync Tx}.
Arguments logs_bloom_of {W C Reg Bloom Filled Sync Tx}.
Arguments decode_2718 {W C Reg Bloom Filled Sync Tx}.
Arguments tx_recover_signer {W C Reg Bloom Filled Sync Tx}.
Arguments decode_refunds {W C Reg Bloom Filled Sync Tx}.
Arguments TEMPO_T0_BASE_FEE {W C Reg Bloom Filled Sync Tx}.

(** Serialization of the answers ([to_raw]). *)
Record Ser (W : Wire) (Bloom Filled Sync : Type) := mkSer {
  raw_null : Raw W;
  raw_u256 : Z -> Raw W;
  raw_chain_id : option Z -> Raw W;
  raw_decimal : Z -> Raw W;
  raw_sync : Sync -> Raw W;
  raw_address : Z -> Raw W;
  raw_fee_history : FeeHistory -> Raw W;
  raw_block : Block -> Raw W;
  raw_transaction : Transaction -> Raw W;
  raw_receipt : @TempoTransactionReceipt Bloom -> Raw W;
  raw_bytes : list Z -> Raw W;
  raw_filled : Filled -> Raw W;
  raw_logs : list Log -> Raw W;
  raw_filter_id : FilterId W -> Raw W;
  raw_changes : FilterChanges -> Raw W;
  raw_token_info : AuthorizationTokenInfoResponse -> Raw W;
  raw_zone_info : ZoneInfoResponse -> Raw W
}.
Arguments raw_null {W Bloom Filled Sync}.
Arguments raw_u256 {W Bloom Filled Sync}.
Arguments raw_chain_id {W Bloom Filled Sync}.
Arguments raw_decimal {W Bloom Filled Sync}.
Arguments raw_sync {W Bloom Filled Sync}.
Arguments raw_address {W Bloom Filled Sync}.
Arguments raw_fee_history {W Bloom Filled Sync}.
Arguments raw_block {W Bloom Filled Sync}.
Arguments raw_transaction {W Bloom Filled Sync}.
Arguments raw_receipt {W Bloom Filled Sync}.
Arguments raw_bytes {W Bloom Filled Sync}.
Arguments raw_filled {W Bloom Filled Sync}.
Arguments raw_logs {W Bloom Filled Sync}.
Arguments raw_filter_id {W Bloom Filled Sync}.
Arguments raw_changes {W Bloom Filled Sync}.
Arguments raw_token_info {W Bloom Filled Sync}.
Arguments raw_zone_info {W Bloom Filled Sync}.

(** ** The node *)

Definition ZONE_TOKEN_ADDRESS : Z := 0x20C0000000000000000000000000000000000000.

Definition scope_error (e : ScopeError) : JsonRpcError :=
  invalid_params
    match e with
    | InvalidFilterAddress => "invalid filter address"
    | CallerNotInFilter => "private log filter must include authenticated caller in topic1 or topic2"
    | DarkpoolTopicsOnly => "darkpool log filters must specify only darkpool event topics"
    | DarkpoolAddressOnly => "darkpool log filters must target only the darkpool"
    | DarkpoolOwnerMissing => "darkpool log filters must include the authenticated account in topic2 or topic3"
    | Topic3OnlyForFills => "topic3 is only available for OrderFilled"
    | ForeignOwner => "darkpool log filters cannot include foreign owners"
    | FillsMixedTopics => "darkpool fill subscriptions cannot include other event topics"
    end.

Definition filter_not_found_error : JsonRpcError := invalid_params "filter not found".

Definition map_eth_filter_error (e : EthFilterError) : JsonRpcError :=
  match e with
  | FilterNotFound => filter_not_found_error
  | OtherFilterError text => internal text
  end.

Section Node.
Context {W : Wire} {C Reg Bloom Filled Sync Tx : Type}.
Context `{!EqDecision (FilterId W), !Countable (FilterId W)}.
Context (E : Eth W C Reg Bloom Filled Sync Tx) (R : Ser W Bloom Filled Sync).
Context (zone_id zone_chain_id zone_portal : Z).

Record Node := mkNode {
  n_chain : C;
  n_registry : Reg;
  n_filter_owners : gmap (FilterId W) Z
}.

Definition set_registry (r : Reg) (n : Node) : Node := mkNode (n_chain n) r (n_filter_owners n).
Definition set_owners (o : gmap (FilterId W) Z) (n : Node) : Node := mkNode (n_chain n) (n_registry n) o.
Definition set_chain (c : C) (n : Node) : Node := mkNode c (n_registry n) (n_filter_owners n).

(** A read of the chain, [map_err(internal)]. *)
Definition read {A} (q : C -> result string A) : Api Node A := fun n =>
  match q (n_chain n) with
  | Ok a => (Ok a, n)
  | Err text => (Err (internal text), n)
  end.
Definition lift {A} (r : result JsonRpcError A) : Api Node A := fun n => (r, n).
Definition lift_scope {A} (r : result ScopeError A) : Api Node A :=
  match r with Ok a => aret a | Err e => afail (scope_error e) end.

(** ** Portal reads *)

Definition zone_tokens : Api Node (list Z) :=
  if zone_portal =? 0 then aret [ZONE_TOKEN_ADDRESS] else read (l1_enabled_tokens E).

Definition zone_sequencer : Api Node Z :=
  if zone_portal =? 0 then aret 0 else read (l1_sequencer E).

(** [Ok(self.zone_sequencer().await? == caller)] *)
Definition is_sequencer (caller : Z) (n : Node) : result JsonRpcError bool :=
  match fst (zone_sequencer n) with
  | Ok a => Ok (a =? caller)
  | Err e => Err e
  end.

Definition node_enforce_authorized (request : TempoTransactionRequest (Rest W)) (auth : AuthContext)
    : Api Node (TempoTransactionRequest (Rest W)) := fun n =>
  (enforce_authorized (decode_refunds E) request auth (is_sequencer (auth_caller auth) n), n).

(** ** Public reads *)

Definition node_block_number : Api Node (Raw W) :=
  best <- read (eth_best_number E); aret (raw_u256 R best).
Definition node_chain_id : Api Node (Raw W) := aret (raw_chain_id R (Some (eth_chain_id E))).
Definition node_net_version : Api Node (Raw W) := aret (raw_decimal R (eth_chain_id E)).
Definition node_syncing : Api Node (Raw W) :=
  status <- read (eth_sync_status E); aret (raw_sync R status).
Definition node_coinbase : Api Node (Raw W) := a <- zone_sequencer; aret (raw_address R a).
Definition node_gas_price : Api Node (Raw W) := price <- read (eth_gas_price E); aret (raw_u256 R price).
Definition node_max_priority_fee_per_gas : Api Node (Raw W) :=
  fee <- read (eth_suggested_priority_fee E); aret (raw_u256 R fee).

Definition node_fee_history (block_count : Z) (newest_block : BlockNumberOrTag)
    (reward_percentiles : option (Percentiles W)) : Api Node (Raw W) :=
  history <- read (fun c => eth_fee_history E c block_count newest_block reward_percentiles);
  aret (raw_fee_history R (redact_fee_history (TEMPO_T0_BASE_FEE E) history)).

Definition node_block_by_number (number : BlockNumberOrTag) (full : bool) (_ : AuthContext) : Api Node (Raw W) :=
  block <- read (fun c => eth_block_at E c number full);
  match block with
  | None => aret (raw_null R)
  | Some block => aret (raw_block R (redact_block block))
  end.

Definition node_block_by_hash (hash : Z) (full : bool) (_ : AuthContext) : Api Node (Raw W) :=
  block <- read (fun c => eth_block_of E c hash full);
  match block with
  | None => aret (raw_null R)
  | Some block => aret (raw_block R (redact_block block))
  end.

(** ** Scoped reads *)

Definition raw_zero : Raw W := raw_u256 R 0.

Definition node_get_balance (address : Z) (block : option (BlockId W)) (auth : AuthContext) : Api Node (Raw W) :=
  if negb (address =? auth_caller auth) then aret raw_zero
  else balance <- read (fun c => eth_balance E c address block); aret (raw_u256 R balance).

Definition node_get_transaction_count (address : Z) (block : option (BlockId W)) (auth : AuthContext) : Api Node (Raw W) :=
  if negb (address =? auth_caller auth) then aret raw_zero
  else count <- read (fun c => eth_transaction_count E c address block); aret (raw_u256 R count).

Definition node_transaction_by_hash (hash : Z) (auth : AuthContext) : Api Node (Raw W) :=
  tx <- read (fun c => eth_transaction_by_hash E c hash);
  match tx with
  | None => aret (raw_null R)
  | Some tx =>
    if negb (tx_from tx =? auth_caller auth) then aret (raw_null R)
    else aret (raw_transaction R (set_transaction_index (Some 0) tx))
  end.

Definition node_transaction_receipt (hash : Z) (auth : AuthContext) : Api Node (Raw W) :=
  receipt <- read (fun c => eth_transaction_receipt E c hash);
  match receipt with
  | None => aret (raw_null R)
  | Some receipt =>
    if negb (r_from receipt =? auth_caller auth) then aret (raw_null R)
    else aret (raw_receipt R (filter_receipt_logs (logs_bloom_of E) receipt))
  end.

(** ** Simulation, preparation, submission *)

Definition node_call (request : TempoTransactionRequest (Rest W)) (block : option (BlockId W))
    (state_override : option (StateOverride W)) (auth : AuthContext) : Api Node (Raw W) :=
  match state_override with
  | Some _ => afail (invalid_params "state overrides not allowed")
  | None =>
    request <- node_enforce_authorized request auth;
    result <- read (fun c => eth_call E c request block);
    aret (raw_bytes R result)
  end.

Definition node_estimate_gas (request : TempoTransactionRequest (Rest W)) (block : option (BlockId W))
    (state_override : option (StateOverride W)) (auth : AuthContext) : Api Node (Raw W) :=
  match state_override with
  | Some _ => afail (invalid_params "state overrides not allowed")
  | None =>
    request <- node_enforce_authorized request auth;
    result <- read (fun c => eth_estimate_gas_at E c request (default (block_id_default E) block));
    aret (raw_u256 R result)
  end.

(** A submission changes the chain data. *)
Definition submit {A} (q : C -> result string A * C) : Api Node A := fun n =>
  match q (n_chain n) with
  | (Ok a, c') => (Ok a, set_chain c' n)
  | (Err text, c') => (Err (internal text), set_chain c' n)
  end.

Definition node_send_raw_transaction (data : list Z) (auth : AuthContext) : Api Node (Raw W) :=
  _ <- lift (verify_raw_tx_sender (decode_2718 E) (tx_recover_signer E) data auth);
  hash <- submit (fun c => eth_send_raw E c data);
  aret (raw_hash W hash).

Definition node_send_raw_transaction_sync (data : list Z) (auth : AuthContext) : Api Node (Raw W) :=
  _ <- lift (verify_raw_tx_sender (decode_2718 E) (tx_recover_signer E) data auth);
  receipt <- submit (fun c => eth_send_raw_sync E c data);
  aret (raw_receipt R (filter_receipt_logs (logs_bloom_of E) receipt)).

Definition node_fill_transaction (request : TempoTransactionRequest (Rest W)) (auth : AuthContext) : Api Node (Raw W) :=
  request <- node_enforce_authorized request auth;
  result <- read (fun c => eth_fill_transaction E c (apply_public_fee_policy (TEMPO_T0_BASE_FEE E) request));
  aret (raw_filled R result).

(** ** Logs and filters *)

(** The scoping that [get_logs] and [new_filter] share. *)
Definition scope_user_filter (f : Filter) (auth : AuthContext) : Api Node Filter :=
  scoped <- lift_scope (scope_darkpool_event_filter f (auth_caller auth));
  let '(darkpool_filter, f) := scoped : bool * Filter in
  if darkpool_filter then aret f
  else
    tokens <- zone_tokens;
    f <- lift_scope (scope_filter_addresses f tokens);
    lift_scope (scope_filter_for_caller f (auth_caller auth)).

Definition node_get_logs (f : Filter) (auth : AuthContext) : Api Node (Raw W) :=
  f <- scope_user_filter f auth;
  logs <- read (fun c => eth_logs E c f);
  aret (raw_logs R (filter_logs logs (auth_caller auth))).

Definition install (spec : FilterSpec) : Api Node (FilterId W) := fun n =>
  match reg_new E (n_registry n) (n_chain n) spec with
  | (Ok id, r) => (Ok id, set_registry r n)
  | (Err text, r) => (Err (internal text), set_registry r n)
  end.

Definition insert_owner (id : FilterId W) (owner : Z) : Api Node unit := fun n =>
  (Ok tt, set_owners (<[id := owner]> (n_filter_owners n)) n).
Definition remove_owner (id : FilterId W) : Api Node unit := fun n =>
  (Ok tt, set_owners (delete id (n_filter_owners n)) n).

Definition node_new_filter (f : Filter) (auth : AuthContext) : Api Node (Raw W) :=
  f <- scope_user_filter f auth;
  id <- install (LogFilter f);
  _ <- insert_owner id (auth_caller auth);
  aret (raw_filter_id R id).

Definition node_new_block_filter (auth : AuthContext) : Api Node (Raw W) :=
  id <- install BlockFilter;
  _ <- insert_owner id (auth_caller auth);
  aret (raw_filter_id R id).

Definition filter_is_active (id : FilterId W) (n : Node) : bool := reg_active E (n_registry n) id.

Definition ensure_filter_owner (id : FilterId W) (auth : AuthContext) : Api Node unit := fun n =>
  if bool_decide (n_filter_owners n !! id = Some (auth_caller auth)) then
    if filter_is_active id n then (Ok tt, n)
    else (Err filter_not_found_error, set_owners (delete id (n_filter_owners n)) n)
  else (Err filter_not_found_error, n).

Definition node_get_filter_logs (id : FilterId W) (auth : AuthContext) : Api Node (Raw W) :=
  _ <- ensure_filter_owner id auth;
  fun n =>
    match reg_logs E (n_registry n) (n_chain n) id with
    | Ok logs => (Ok (raw_logs R (filter_logs logs (auth_caller auth))), n)
    | Err e => (Err (map_eth_filter_error e), n)
    end.

Definition redact_changes (changes : FilterChanges) (caller : Z) : FilterChanges :=
  match changes with
  | Logs logs => Logs (filter_logs logs caller)
  | BlockHashes hashes => BlockHashes hashes
  | Transactions => Empty
  | Empty => Empty
  end.

Definition node_get_filter_changes (id : FilterId W) (auth : AuthContext) : Api Node (Raw W) :=
  _ <- ensure_filter_owner id auth;
  fun n =>
    match reg_changes E (n_registry n) (n_chain n) id with
    | (Ok changes, r) => (Ok (raw_changes R (redact_changes changes (auth_caller auth))), set_registry r n)
    | (Err e, r) => (Err (map_eth_filter_error e), set_registry r n)
    end.

Definition node_uninstall_filter (id : FilterId W) (auth : AuthContext) : Api Node (Raw W) :=
  _ <- ensure_filter_owner id auth;
  fun n =>
    match reg_uninstall E (n_registry n) id with
    | (Err text, r) => (Err (internal text), set_registry r n)
    | (Ok result, r) =>
      let n := set_registry r n in
      if result || negb (filter_is_active id n) then
        (Ok (raw_bool W result), set_owners (delete id (n_filter_owners n)) n)
      else (Ok (raw_bool W result), n)
    end.

(** The background task that forgets the owners of filters that are gone. *)
Definition stale_filter_owner_ids (owner_ids : list (FilterId W)) (r : Reg) : list (FilterId W) :=
  filter (fun id => reg_active E r id = false) owner_ids.

Definition prune_filter_owners (n : Node) : Node :=
  let stale := stale_filter_owner_ids (fst <$> map_to_list (n_filter_owners n)) (n_registry n) in
  set_owners (foldr delete (n_filter_owners n) stale) n.

(** ** Zone information *)

Definition node_token_info (auth : AuthContext) : Api Node (Raw W) :=
  aret (raw_token_info R (mkTokenInfo (auth_caller auth) (auth_expires_at auth))).

Definition node_zone_info (_ : AuthContext) : Api Node (Raw W) :=
  tokens <- zone_tokens;
  sequencer <- zone_sequencer;
  aret (raw_zone_info R (mkZoneInfo zone_id tokens sequencer zone_chain_id)).

(** ** The implementation of the trait

    [other] supplies the methods about deposits, withdrawals, batches, markets
    and histories. *)

Definition zone_rpc (other : ZoneRpcApi W Node) : ZoneRpcApi W Node :=
  mkApi W Node node_block_number node_chain_id node_net_version node_syncing node_coinbase node_gas_price
    node_max_priority_fee_per_gas node_fee_history node_get_balance node_get_transaction_count
    node_block_by_number node_block_by_hash node_transaction_by_hash node_transaction_receipt node_call
    node_estimate_gas node_send_raw_transaction node_send_raw_transaction_sync node_fill_transaction
    node_get_logs node_new_filter node_get_filter_logs node_get_filter_changes node_new_block_filter
    node_uninstall_filter node_token_info node_zone_info
    (zone_get_deposit_status other) (zone_list_batches other) (zone_get_batch other)
    (zone_search_batch other) (zone_get_market_config other) (zone_get_reference_price other)
    (zone_get_top_of_book other) (zone_get_midpoint_history other) (api_get_my_orders other)
    (api_get_my_fills other) (api_get_my_transfers other) (zone_get_my_activity other)
    (api_get_order other) (zone_get_withdrawal_status other).
End Node.
