(* ===== verification/NodeRpcProofs.v ===== *)
(** * Private RPC: noninterference

    What an account learns from the node's Ethereum methods is a function of
    public data and of its own data.  [same_view] says which chain data an
    account cannot tell apart; a run is a sequence of requests of any accounts,
    of chain updates and of filter evictions; the answers to one account do not
    change when the requests of others are added, removed or changed, or when
    chain data it has no view of differs. *)

From stdpp Require Import gmap list strings.
From S2P Require Import Prelude.
From S2P Require Import TempoState.
From S2P Require Import RpcAuth.
From S2P Require Import RpcLogs.
From S2P Require Import RpcLogsProofs.
From S2P Require Import RpcHistory.
From S2P Require Import RpcTypes.
From S2P Require Import RpcPolicy.
From S2P Require Import RpcDispatch.
From S2P Require Import RpcAccessProofs.
From S2P Require Import NodeRpc.
#[local] Open Scope string_scope.
#[local] Open Scope Z_scope.

(** ** Redaction *)

(** The part of a block that everyone may see. *)
Definition public_header (h : Header) :=
  (h_hash h, h_parent_hash h, h_number h, h_timestamp h, h_beneficiary h, h_gas_limit h, h_base_fee_per_gas h,
   (h_state_root h, h_transactions_root h, h_receipts_root h, h_withdrawals_root h, h_extra_data h),
   (bool_decide (is_Some (h_blob_gas_used h)), bool_decide (is_Some (h_excess_blob_gas h)),
    bool_decide (is_Some (h_size h)))).
Definition public_block (b : Block) := (public_header (b_header b), bool_decide (is_Some (b_withdrawals b))).

Lemma fill_option_shape {A} (a : A) (o1 o2 : option A) :
  (fun _ => a) <$> o1 = (fun _ => a) <$> o2 <-> bool_decide (is_Some o1) = bool_decide (is_Some o2).
Proof.
  destruct o1, o2; cbn; rewrite ?bool_decide_eq_true_2, ?bool_decide_eq_false_2 by (done || by intros [? ?]); done.
Qed.

(** Redaction shows this part and nothing else. *)
Lemma redact_block_public b1 b2 : redact_block b1 = redact_block b2 <-> public_block b1 = public_block b2.
Proof.
  destruct b1 as [[]], b2 as [[]]. unfold redact_block, redact_header, public_block, public_header. cbn.
  split.
  - intros [= -> -> -> -> -> -> -> -> -> -> -> -> ?%fill_option_shape ?%fill_option_shape ?%fill_option_shape
      ?%(fill_option_shape (A:=list Z))]. congruence.
  - intros [= -> -> -> -> -> -> -> -> -> -> -> -> ?%(fill_option_shape 0) ?%(fill_option_shape 0)
      ?%(fill_option_shape 0) ?%(fill_option_shape ([] : list Z))]. congruence.
Qed.

(** Of a fee history only its shape is public. *)
Definition fee_shape (h : FeeHistory) :=
  (length (fh_base_fee_per_gas h), length (fh_gas_used_ratio h), length (fh_base_fee_per_blob_gas h),
   length (fh_blob_gas_used_ratio h), fh_oldest_block h,
   (fun rewards : list (list Z) => length <$> rewards) <$> fh_reward h).

Lemma fill_length {A} (a : A) l1 l2 : length l1 = length l2 -> fill a l1 = fill a l2.
Proof.
  revert l2. induction l1 as [|x l1 IH]; intros [|y l2] [=]; [done|]. unfold fill in *. cbn. f_equal. by apply IH.
Qed.

Lemma redact_fee_history_shape base h1 h2 :
  fee_shape h1 = fee_shape h2 -> redact_fee_history base h1 = redact_fee_history base h2.
Proof.
  intros [= E1 E2 E3 E4 E5 E6]. unfold redact_fee_history. f_equal; try by apply fill_length.
  - done.
  - destruct (fh_reward h1) as [r1|], (fh_reward h2) as [r2|]; try done. injection E6 as E6. cbn. f_equal.
    revert r2 E6. induction r1 as [|x r1 IH]; intros [|y r2] [=]; [done|]. cbn. f_equal; [by apply fill_length|by apply IH].
Qed.

(** ** Views of transactions, receipts and logs *)

Definition result_map {E A B} (f : A -> B) (r : result E A) : result E B :=
  match r with Ok a => Ok (f a) | Err e => Err e end.

(** A transaction is visible to its sender, but for its position in the block. *)
Definition own_transaction (a : Z) (tx : option Transaction) : option Transaction :=
  tx ← tx; if tx_from tx =? a then Some (set_transaction_index None tx) else None.

(** A receipt is visible to the sender: everything but positions, and of the
    logs those the sender is a party to. *)
Definition own_receipt {Bloom} (a : Z) (r : option (@TempoTransactionReceipt Bloom)) :=
  r ← r;
  if r_from r =? a then
    Some (r_to r, r_transaction_hash r, r_block_hash r, r_block_number r, r_success r, r_gas_used r,
          r_effective_gas_price r, r_contract_address r, r_fee_token r, r_fee_payer r,
          hide <$> visible_logs (r_logs r) a)
  else None.

Lemma hide_idem l : hide (hide l) = hide l.
Proof. done. Qed.

(** A selection that does not look at positions commutes with hiding them. *)
Lemma filter_hide (P : Log -> Prop) `{!forall l, Decision (P l)} :
  (forall l, P (hide l) <-> P l) ->
  forall l1 l2 : list Log, hide <$> l1 = hide <$> l2 -> hide <$> filter P l1 = hide <$> filter P l2.
Proof.
  intros HP l1. induction l1 as [|x l1 IH]; intros [|y l2] E; cbn [fmap list_fmap] in E; try done.
  apply cons_eq_inj in E as [E1 E2]. apply IH in E2.
  assert (P x <-> P y) as Hxy by (rewrite <-(HP x), <-(HP y); by rewrite E1).
  rewrite !filter_cons. destruct (decide (P x)), (decide (P y)); try tauto. cbn [fmap list_fmap]. by f_equal.
Qed.

Lemma filter_logs_hide a l1 l2 : hide <$> l1 = hide <$> l2 -> filter_logs l1 a = filter_logs l2 a.
Proof.
  intros E. unfold filter_logs. apply redact_all_hide. unfold visible_logs. apply filter_hide; [|done].
  intros l. by rewrite visible_hide.
Qed.

Lemma filter_logs_visible a l1 l2 :
  hide <$> visible_logs l1 a = hide <$> visible_logs l2 a -> filter_logs l1 a = filter_logs l2 a.
Proof. intros E. unfold filter_logs. by apply redact_all_hide. Qed.

Lemma matches_hide f l : matches f (hide l) <-> matches f l.
Proof. done. Qed.

(** A filter that only asks for events of [a], or for the zero topic. *)
Definition scoped_for (a : Z) (f : Filter) : Prop :=
  forall log, matches f log -> topic0 log = Some 0 \/ party log a.

Lemma scope_user_filter_scoped a f tokens f' :
  (scope_darkpool_event_filter f a = Ok (true, f') \/
   exists f0, scope_filter_addresses f tokens = Ok f0 /\ scope_filter_for_caller f0 a = Ok f') ->
  scoped_for a f'.
Proof.
  intros [H|(f0 & _ & H)] log Hm.
  - right. apply (scope_darkpool_party _ _ _ _ H) in Hm as (Ha & Hp & _). apply visible_party.
    unfold is_log_visible. rewrite Ha, Hp. apply orb_true_iff. by right.
  - destruct (scope_filter_for_caller_sound _ _ _ _ H Hm) as [?|[_ ?]]; [by left|by right].
Qed.

(** ** What is assumed of reth

    A log query selects the matching logs of the chain in the block range, or is
    refused for a reason that depends on public data, the filter and the number
    of matches (reth's range and result limits).  The registry keeps one state
    per id: the filter and the block it was last polled at.  Ids come from a
    provider: [reg_draw] fixes the id it will hand out next. *)

Definition FilterState : Type := FilterSpec * Z.

Definition set_block (b : FilterBlockOption) (f : Filter) : Filter :=
  mkFilter b (f_address f) (f_topic0 f) (f_topic1 f) (f_topic2 f) (f_topic3 f).

Record RethLaws {W C Reg Bloom Filled Sync Tx} `{!EqDecision (FilterId W)} (E : Eth W C Reg Bloom Filled Sync Tx) := {
  Pub : Type;
  public : C -> Pub;
  chain_logs : C -> list Log;
  in_range : Pub -> FilterBlockOption -> Log -> bool;
  refused : Pub -> Filter -> nat -> option string;
  reg_get : Reg -> FilterId W -> option FilterState;
  reg_next : Reg -> FilterId W;
  reg_draw : FilterId W -> Reg -> Reg;
  reg_evict : FilterId W -> Reg -> Reg;
  new_refused : Pub -> FilterSpec -> option string;
  poll_range : Pub -> Z -> FilterBlockOption -> option FilterBlockOption;
  poll_block : Pub -> Z;
  poll_next : Pub -> Z -> Z;
  hashes_since : Pub -> Z -> result string (list Z);

  law_range_hide p b l : in_range p b (hide l) = in_range p b l;
  law_logs c f : eth_logs E c f =
    let sel := filter (fun l => matches f l /\ in_range (public c) (f_block f) l = true) (chain_logs c) in
    match refused (public c) f (length sel) with Some e => Err e | None => Ok sel end;
  law_active r id : reg_active E r id = bool_decide (is_Some (reg_get r id));
  law_new r c spec :
    match new_refused (public c) spec with
    | Some e => reg_new E r c spec = (Err e, r)
    | None => exists r', reg_new E r c spec = (Ok (reg_next r), r') /\ reg_next r' = reg_next r /\
        forall id, reg_get r' id = if decide (id = reg_next r) then Some (spec, poll_block (public c)) else reg_get r id
    end;
  law_reg_logs r c id : reg_logs E r c id =
    match reg_get r id with
    | Some (LogFilter f, _) =>
      match eth_logs E c f with Ok l => Ok l | Err e => Err (OtherFilterError e) end
    | _ => Err FilterNotFound
    end;
  law_changes r c id :
    match reg_get r id with
    | None => reg_changes E r c id = (Err FilterNotFound, r)
    | Some (spec, since) => exists r',
        reg_next r' = reg_next r /\
        (forall j, reg_get r' j = if decide (j = id) then Some (spec, poll_next (public c) since) else reg_get r j) /\
        reg_changes E r c id =
          (match spec with
           | BlockFilter =>
             match hashes_since (public c) since with Ok h => Ok (BlockHashes h) | Err e => Err (OtherFilterError e) end
           | LogFilter f =>
             match poll_range (public c) since (f_block f) with
             | None => Ok Empty
             | Some b =>
               match eth_logs E c (set_block b f) with Ok l => Ok (Logs l) | Err e => Err (OtherFilterError e) end
             end
           end, r')
    end;
  law_uninstall r id : exists r',
    reg_uninstall E r id = (Ok (bool_decide (is_Some (reg_get r id))), r') /\ reg_next r' = reg_next r /\
    forall j, reg_get r' j = if decide (j = id) then None else reg_get r j;
  law_draw r id : reg_next (reg_draw id r) = id /\ forall j, reg_get (reg_draw id r) j = reg_get r j;
  law_evict r id j : reg_get (reg_evict id r) j = if decide (j = id) then None else reg_get r j
}.
Arguments Pub {W C Reg Bloom Filled Sync Tx _ E}.
Arguments public {W C Reg Bloom Filled Sync Tx _ E}.
Arguments chain_logs {W C Reg Bloom Filled Sync Tx _ E}.
Arguments in_range {W C Reg Bloom Filled Sync Tx _ E}.
Arguments refused {W C Reg Bloom Filled Sync Tx _ E}.
Arguments reg_get {W C Reg Bloom Filled Sync Tx _ E}.
Arguments reg_next {W C Reg Bloom Filled Sync Tx _ E}.
Arguments reg_draw {W C Reg Bloom Filled Sync Tx _ E}.
Arguments reg_evict {W C Reg Bloom Filled Sync Tx _ E}.
Arguments new_refused {W C Reg Bloom Filled Sync Tx _ E}.
Arguments poll_range {W C Reg Bloom Filled Sync Tx _ E}.
Arguments poll_block {W C Reg Bloom Filled Sync Tx _ E}.
Arguments poll_next {W C Reg Bloom Filled Sync Tx _ E}.
Arguments hashes_since {W C Reg Bloom Filled Sync Tx _ E}.
Arguments law_range_hide {W C Reg Bloom Filled Sync Tx _ E}.
Arguments law_logs {W C Reg Bloom Filled Sync Tx _ E}.
Arguments law_active {W C Reg Bloom Filled Sync Tx _ E}.
Arguments law_new {W C Reg Bloom Filled Sync Tx _ E}.
Arguments law_reg_logs {W C Reg Bloom Filled Sync Tx _ E}.
Arguments law_changes {W C Reg Bloom Filled Sync Tx _ E}.
Arguments law_uninstall {W C Reg Bloom Filled Sync Tx _ E}.
Arguments law_draw {W C Reg Bloom Filled Sync Tx _ E}.
Arguments law_evict {W C Reg Bloom Filled Sync Tx _ E}.

Section Views.
Context {W : Wire} {C Reg Bloom Filled Sync Tx : Type}.
Context `{!EqDecision (FilterId W), !Countable (FilterId W)}.
Context (E : Eth W C Reg Bloom Filled Sync Tx) (R : Ser W Bloom Filled Sync).
Context (zone_id zone_chain_id zone_portal : Z).
Context (L : RethLaws E).

Definition portal_sequencer (c : C) : result string Z :=
  if zone_portal =? 0 then Ok 0 else l1_sequencer E c.

(** The requests an account may simulate. *)
Definition admissible (a : Z) (c : C) (r : TempoTransactionRequest (Rest W)) : Prop :=
  rq_from r = Some a /\ ~ creates r /\
  ((forall owner, reads_refunds (decode_refunds E) r owner -> owner = a) \/ portal_sequencer c = Ok a).

(** Two states of the chain that [a] is not entitled to tell apart: public data
    is the same, and so are the balance and nonce of [a], its transactions and
    receipts, what it may simulate, and the events it is a party to. *)
Record same_view (a : Z) (c1 c2 : C) : Prop := {
  v_public : public L c1 = public L c2;
  v_best_number : eth_best_number E c1 = eth_best_number E c2;
  v_sync : eth_sync_status E c1 = eth_sync_status E c2;
  v_gas_price : eth_gas_price E c1 = eth_gas_price E c2;
  v_priority_fee : eth_suggested_priority_fee E c1 = eth_suggested_priority_fee E c2;
  v_tokens : l1_enabled_tokens E c1 = l1_enabled_tokens E c2;
  v_sequencer : l1_sequencer E c1 = l1_sequencer E c2;
  v_fees n b p : result_map fee_shape (eth_fee_history E c1 n b p) = result_map fee_shape (eth_fee_history E c2 n b p);
  v_block_at n : result_map (fmap public_block) (eth_block_at E c1 n false) =
                 result_map (fmap public_block) (eth_block_at E c2 n false);
  v_block_of h : result_map (fmap public_block) (eth_block_of E c1 h false) =
                 result_map (fmap public_block) (eth_block_of E c2 h false);
  v_balance b : eth_balance E c1 a b = eth_balance E c2 a b;
  v_count b : eth_transaction_count E c1 a b = eth_transaction_count E c2 a b;
  v_transaction h : result_map (own_transaction a) (eth_transaction_by_hash E c1 h) =
                    result_map (own_transaction a) (eth_transaction_by_hash E c2 h);
  v_receipt h : result_map (own_receipt a) (eth_transaction_receipt E c1 h) =
                result_map (own_receipt a) (eth_transaction_receipt E c2 h);
  v_call r b : admissible a c1 r -> eth_call E c1 r b = eth_call E c2 r b;
  v_estimate r b : admissible a c1 r -> eth_estimate_gas_at E c1 r b = eth_estimate_gas_at E c2 r b;
  v_fill r : admissible a c1 r -> fees_given r -> eth_fill_transaction E c1 r = eth_fill_transaction E c2 r;
  v_logs : hide <$> visible_logs (chain_logs L c1) a = hide <$> visible_logs (chain_logs L c2) a
}.

Lemma admissible_view a c1 c2 r : same_view a c1 c2 -> admissible a c1 r <-> admissible a c2 r.
Proof. intros V. unfold admissible, portal_sequencer. by rewrite (v_sequencer a c1 c2 V). Qed.

#[export] Instance same_view_equivalence a : Equivalence (same_view a).
Proof.
  split.
  - intros c. by split.
  - intros c1 c2 V. split; intros; symmetry; try apply V; done || by apply (admissible_view a c1 c2 r V).
  - intros c1 c2 c3 V V'. split; intros; (etrans; [by apply V|]); apply V'; try done;
      by apply (admissible_view a c1 c2 r V).
Qed.

(** No event has the zero topic, which stands for "nothing" in a scoped filter. *)
Definition no_zero_topic (c : C) : Prop := forall l, l ∈ chain_logs L c -> topic0 l <> Some 0.

(** *** Log queries *)

Lemma scoped_selection a f (P : Log -> Prop) `{!forall l, Decision (P l)} (logs : list Log) :
  scoped_for a f -> (forall l, l ∈ logs -> topic0 l <> Some 0) -> (forall l, P l -> matches f l) ->
  filter P logs = filter P (visible_logs logs a).
Proof.
  intros Hs Hz HP. unfold visible_logs. induction logs as [|l logs IH]; [done|].
  rewrite (filter_cons (fun log => is_log_visible log a = true)), (filter_cons P).
  destruct (decide (P l)) as [Hp|Hp].
  - rewrite decide_True.
    + rewrite filter_cons_True by done. f_equal. apply IH. intros. apply Hz. by right.
    + destruct (Hs l (HP l Hp)) as [Ht|Hparty]; [by destruct (Hz l (list_elem_of_here _ _))|]. by apply visible_party.
  - case_decide; [rewrite filter_cons_False by done|]; apply IH; intros; apply Hz; by right.
Qed.

Lemma eth_logs_view a c1 c2 f :
  same_view a c1 c2 -> no_zero_topic c1 -> no_zero_topic c2 -> scoped_for a f ->
  (exists e, eth_logs E c1 f = Err e /\ eth_logs E c2 f = Err e) \/
  (exists l1 l2, eth_logs E c1 f = Ok l1 /\ eth_logs E c2 f = Ok l2 /\ filter_logs l1 a = filter_logs l2 a).
Proof.
  intros V Hz1 Hz2 Hs. rewrite !(law_logs L). cbn zeta. rewrite (v_public a c1 c2 V).
  set (P := fun l => matches f l /\ in_range L (public L c2) (f_block f) l = true).
  change (fun l => matches f l /\ in_range L (public L c2) (f_block f) l = true) with P.
  assert (Hsel : hide <$> filter P (chain_logs L c1) = hide <$> filter P (chain_logs L c2)).
  { rewrite (scoped_selection a f P (chain_logs L c1)), (scoped_selection a f P (chain_logs L c2)) by (done || by intros ? [? _]).
    apply filter_hide; [|apply V]. intros l. unfold P. by rewrite matches_hide, law_range_hide. }
  assert (Hlen : length (filter P (chain_logs L c1)) = length (filter P (chain_logs L c2))).
  { apply (f_equal length) in Hsel. by rewrite !length_fmap in Hsel. }
  rewrite Hlen. destruct (refused L _ _ _) as [e|]; [left; by exists e|].
  right. do 2 eexists. split; [done|]. split; [done|]. by apply filter_logs_hide.
Qed.

(** ** Nodes an account cannot tell apart *)

Abbreviation TheNode := (@Node W C Reg _ _).

(** The live filters of an account. *)
Definition my_filter (a : Z) (n : TheNode) (id : FilterId W) : option FilterState :=
  if decide (n_filter_owners n !! id = Some a) then reg_get L (n_registry n) id else None.

(** The ids in [X] are those handed out to [a]; its log filters ask for its own
    events only. *)
Record good (X : FilterId W -> Prop) (a : Z) (n : TheNode) : Prop := {
  g_zero : no_zero_topic (n_chain n);
  g_ids id st : my_filter a n id = Some st -> X id;
  g_scoped id f since : my_filter a n id = Some (LogFilter f, since) -> scoped_for a f
}.

Record low (X : FilterId W -> Prop) (a : Z) (n1 n2 : TheNode) : Prop := {
  low_view : same_view a (n_chain n1) (n_chain n2);
  low_filters id : my_filter a n1 id = my_filter a n2 id;
  low_good1 : good X a n1;
  low_good2 : good X a n2
}.

(** The next id is the same on both sides, and one for [a]. *)
Definition low_next X a n1 n2 : Prop :=
  low X a n1 n2 /\ reg_next L (n_registry n1) = reg_next L (n_registry n2) /\ X (reg_next L (n_registry n1)).

Lemma good_transfer X a n n' :
  (forall id, my_filter a n' id = my_filter a n id) -> n_chain n' = n_chain n -> good X a n -> good X a n'.
Proof.
  intros Hf Hc [Hz Hi Hs]. split; [by rewrite Hc|..]; intros *; rewrite Hf; [apply Hi|apply Hs].
Qed.

Lemma low_refl X a n : good X a n -> low X a n n.
Proof. by split. Qed.

Lemma low_trans X a n1 n2 n3 : low X a n1 n2 -> low X a n2 n3 -> low X a n1 n3.
Proof. intros [V F G1 G2] [V' F' G1' G3]. split; [exact (transitivity V V')|intros; by rewrite F|done|done]. Qed.

(** *** Handlers that answer [a] the same *)

Section Respect.
Context (X : FilterId W -> Prop) (a : Z).

(** The same answer on both sides, and nodes again alike. *)
Definition respects {A} (m : Api TheNode A) : Prop := forall n1 n2,
  low_next X a n1 n2 -> fst (m n1) = fst (m n2) /\ low_next X a (snd (m n1)) (snd (m n2)).

(** Answers related by [P] on both sides. *)
Definition respects_rel {A} (P : A -> A -> Prop) (m : Api TheNode A) : Prop := forall n1 n2,
  low_next X a n1 n2 ->
  match fst (m n1), fst (m n2) with
  | Ok x, Ok y => P x y
  | Err e1, Err e2 => e1 = e2
  | _, _ => False
  end /\ low_next X a (snd (m n1)) (snd (m n2)).

Lemma respects_of_rel {A} (m : Api TheNode A) : respects_rel eq m -> respects m.
Proof.
  intros H n1 n2 Hl. destruct (H n1 n2 Hl) as [Hr Hl']. split; [|done].
  destruct (fst (m n1)), (fst (m n2)); naive_solver.
Qed.
Lemma respects_to_rel {A} (m : Api TheNode A) : respects m -> respects_rel eq m.
Proof.
  intros H n1 n2 Hl. destruct (H n1 n2 Hl) as [Hr Hl']. split; [|done]. rewrite Hr. by destruct (fst (m n2)).
Qed.

Lemma respects_ret {A} (x : A) : respects (aret x).
Proof. by intros n1 n2 Hl. Qed.
Lemma respects_fail {A} e : respects (A:=A) (afail e).
Proof. by intros n1 n2 Hl. Qed.
Lemma respects_lift {A} (r : result JsonRpcError A) : respects (lift r).
Proof. by intros n1 n2 Hl. Qed.
Lemma respects_lift_scope {A} (r : result ScopeError A) : respects (lift_scope r).
Proof. destruct r; [apply respects_ret|apply respects_fail]. Qed.

Lemma respects_rel_bind {A B} (P : A -> A -> Prop) (m : Api TheNode A) (f : A -> Api TheNode B) :
  respects_rel P m ->
  (forall x y n1 n2, P x y -> low_next X a n1 n2 ->
     fst (f x n1) = fst (f y n2) /\ low_next X a (snd (f x n1)) (snd (f y n2))) ->
  respects (abind m f).
Proof.
  intros Hm Hf n1 n2 Hl. destruct (Hm n1 n2 Hl) as [Hr Hl'].
  unfold abind. destruct (m n1) as [r1 n1'], (m n2) as [r2 n2']. cbn [fst snd] in *.
  destruct r1, r2; try done; [by apply Hf|by subst].
Qed.

Lemma respects_bind {A B} (m : Api TheNode A) (f : A -> Api TheNode B) :
  respects m -> (forall x, respects (f x)) -> respects (abind m f).
Proof.
  intros Hm Hf. apply (respects_rel_bind eq); [by apply respects_to_rel|].
  intros x y n1 n2 <-. apply Hf.
Qed.

(** A read whose answers have the same image under [view]. *)
Lemma respects_read {A V} (view : A -> V) (q : C -> result string A) :
  (forall c1 c2, same_view a c1 c2 -> result_map view (q c1) = result_map view (q c2)) ->
  respects_rel (fun x y => view x = view y) (read q).
Proof.
  intros Hq n1 n2 Hl. specialize (Hq _ _ (low_view _ _ _ _ (proj1 Hl))). unfold read.
  destruct (q (n_chain n1)), (q (n_chain n2)); cbn in *; split; congruence.
Qed.

Lemma respects_read_eq {A} (q : C -> result string A) :
  (forall c1 c2, same_view a c1 c2 -> q c1 = q c2) -> respects (read q).
Proof.
  intros Hq. apply respects_of_rel.
  intros n1 n2 Hl. specialize (Hq _ _ (low_view _ _ _ _ (proj1 Hl))). unfold read. rewrite Hq.
  by destruct (q (n_chain n2)).
Qed.
End Respect.

(** *** The handlers, for requests of [a] *)

Section Own.
Context (X : FilterId W -> Prop) (auth : AuthContext).
Abbreviation a := (auth_caller auth).
Abbreviation respects := (respects X a).

Lemma respects_zone_tokens : respects (zone_tokens E zone_portal).
Proof.
  unfold zone_tokens. destruct (_ =? _); [apply respects_ret|]. apply respects_read_eq. intros c1 c2 V. apply V.
Qed.
Lemma respects_zone_sequencer : respects (zone_sequencer E zone_portal).
Proof.
  unfold zone_sequencer. destruct (_ =? _); [apply respects_ret|]. apply respects_read_eq. intros c1 c2 V. apply V.
Qed.

(** An answer computed from one read of data that is the same in both views. *)
Lemma respects_answer {A B} (q : C -> result string A) (k : A -> B) :
  (forall c1 c2, same_view a c1 c2 -> q c1 = q c2) -> respects (abind (read q) (fun x => aret (k x))).
Proof. intros Hq. apply respects_bind; [by apply respects_read_eq|]. intros x. apply respects_ret. Qed.

(** The same when the answer looks at the part of the data in the view. *)
Lemma respects_answer_view {A V B} (view : A -> V) (q : C -> result string A) (k : A -> Api TheNode B) (k' : A -> B) :
  (forall c1 c2, same_view a c1 c2 -> result_map view (q c1) = result_map view (q c2)) ->
  (forall x, k x = aret (k' x)) ->
  (forall x y, view x = view y -> k' x = k' y) -> respects (abind (read q) k).
Proof.
  intros Hq Hk Hk'. apply (respects_rel_bind _ _ (fun x y => view x = view y)); [by apply respects_read|].
  intros x y n1 n2 Hv Hl. rewrite !Hk. cbn. by rewrite (Hk' x y Hv).
Qed.

Lemma respects_fee_history n b p : respects (node_fee_history E R n b p).
Proof.
  eapply (respects_answer_view fee_shape); [intros c1 c2 V; apply V|reflexivity|].
  intros x y Hs. cbn beta. by rewrite (redact_fee_history_shape _ _ _ Hs).
Qed.

Lemma respects_block (q : C -> result string (option Block)) :
  (forall c1 c2, same_view a c1 c2 -> result_map (fmap public_block) (q c1) = result_map (fmap public_block) (q c2)) ->
  respects (abind (read q) (fun block => match block with
    | None => aret (raw_null R) | Some block => aret (raw_block R (redact_block block)) end)).
Proof.
  intros Hq. apply (respects_answer_view (fmap public_block) q _
    (fun block => match block with None => raw_null R | Some block => raw_block R (redact_block block) end) Hq).
  - by intros [].
  - intros [x|] [y|]; try done. intros Hp%(inj Some). by rewrite (proj2 (redact_block_public x y) Hp).
Qed.

Lemma respects_transaction h : respects (node_transaction_by_hash E R h auth).
Proof.
  apply (respects_answer_view (own_transaction a) _ _ (fun tx => match own_transaction a tx with
    | None => raw_null R | Some tx => raw_transaction R (set_transaction_index (Some 0) tx) end)).
  - intros c1 c2 V. apply V.
  - intros [tx|]; [|done]. cbn. by destruct (tx_from tx =? a).
  - by intros x y ->.
Qed.

Lemma respects_receipt h : respects (node_transaction_receipt E R h auth).
Proof.
  apply (respects_answer_view (own_receipt a) _ _ (fun r => match r with
    | None => raw_null R
    | Some r => if r_from r =? a then raw_receipt R (filter_receipt_logs (logs_bloom_of E) r) else raw_null R end)).
  - intros c1 c2 V. apply V.
  - intros [r|]; [|done]. by destruct (r_from r =? a).
  - intros [x|] [y|]; cbn; try (repeat case_match; done).
    destruct (Z.eqb_spec (r_from x) a) as [Ex|], (Z.eqb_spec (r_from y) a) as [Ey|]; try done.
    intros Eo. f_equal. unfold filter_receipt_logs. rewrite Ex, Ey. injection Eo as -> -> -> -> -> -> -> -> -> -> Hl.
    by rewrite (filter_logs_visible a _ _ Hl).
Qed.

Lemma respects_balance addr b : respects (node_get_balance E R addr b auth).
Proof.
  unfold node_get_balance. destruct (Z.eqb_spec addr a) as [->|]; cbn [negb]; [|apply respects_ret].
  apply respects_answer. intros c1 c2 V. apply V.
Qed.
Lemma respects_count addr b : respects (node_get_transaction_count E R addr b auth).
Proof.
  unfold node_get_transaction_count. destruct (Z.eqb_spec addr a) as [->|]; cbn [negb]; [|apply respects_ret].
  apply respects_answer. intros c1 c2 V. apply V.
Qed.

(** Simulation: the policy lets only admissible requests through. *)
Lemma is_sequencer_portal n : is_sequencer E zone_portal a n = Ok true -> portal_sequencer (n_chain n) = Ok a.
Proof.
  unfold is_sequencer, zone_sequencer, portal_sequencer, read, aret.
  destruct (zone_portal =? 0); cbn [fst].
  - destruct (Z.eqb_spec 0 a) as [<-|]; done.
  - destruct (l1_sequencer E (n_chain n)); cbn; [|done]. by intros [= ->%Z.eqb_eq].
Qed.

Lemma respects_simulation {A B} r (q : C -> TempoTransactionRequest (Rest W) -> result string A) (k : A -> B) :
  (forall c1 c2 r', same_view a c1 c2 -> admissible a c1 r' -> q c1 r' = q c2 r') ->
  respects (abind (node_enforce_authorized E zone_portal r auth) (fun r' =>
    abind (read (fun c => q c r')) (fun x => aret (k x)))).
Proof.
  intros Hq n1 n2 Hl.
  assert (Es : is_sequencer E zone_portal a n1 = is_sequencer E zone_portal a n2).
  { unfold is_sequencer. by rewrite (proj1 (respects_zone_sequencer n1 n2 Hl)). }
  unfold abind, node_enforce_authorized. rewrite Es.
  destruct (enforce_authorized _ r auth _) as [r'|e] eqn:Er; [|done].
  assert (Hadm : admissible a (n_chain n1) r').
  { apply enforce_authorized_Ok in Er as (_ & -> & Hc & Hr). split; [done|]. split; [done|].
    destruct Hr as [Hr|Hr]; [by left|right]. rewrite <-Es in Hr. by apply is_sequencer_portal. }
  unfold read. rewrite (Hq _ _ r' (low_view _ _ _ _ (proj1 Hl)) Hadm). by destruct (q _ r').
Qed.

Lemma respects_call r b : respects (node_call E R zone_portal r b None auth).
Proof. apply (respects_simulation r (fun c r => eth_call E c r b)). intros c1 c2 r' V. apply V. Qed.
Lemma respects_estimate r b : respects (node_estimate_gas E R zone_portal r b None auth).
Proof. apply (respects_simulation r (fun c r => eth_estimate_gas_at E c r _)). intros c1 c2 r' V. apply V. Qed.

Lemma apply_fee_admissible c r : admissible a c r -> admissible a c (apply_public_fee_policy (TEMPO_T0_BASE_FEE E) r).
Proof. unfold apply_public_fee_policy. by repeat case_match. Qed.

Lemma respects_fill r : respects (node_fill_transaction E R zone_portal r auth).
Proof.
  apply (respects_simulation r (fun c r => eth_fill_transaction E c (apply_public_fee_policy (TEMPO_T0_BASE_FEE E) r))).
  intros c1 c2 r' V Hadm. apply V; [by apply apply_fee_admissible|]. apply public_fees.
Qed.

(** *** Logs and filters *)

Lemma respects_scope f :
  respects_rel X a (fun f1 f2 => f1 = f2 /\ scoped_for a f1) (scope_user_filter E zone_portal f auth).
Proof.
  intros n1 n2 Hl. unfold scope_user_filter, abind.
  destruct (scope_darkpool_event_filter f a) as [[[] f1]|e] eqn:Ed; cbn; [..|done].
  - split; [|done]. split; [done|]. by apply (scope_user_filter_scoped a f [] f1); left.
  - destruct (respects_zone_tokens n1 n2 Hl) as [Et Hl'].
    destruct (zone_tokens E zone_portal n1) as [[t1|e1] n1'], (zone_tokens E zone_portal n2) as [[t2|e2] n2'];
      cbn in *; simplify_eq; [|done].
    destruct (scope_filter_addresses f1 t2) as [f2|e] eqn:E2; cbn; [|done].
    destruct (scope_filter_for_caller f2 a) as [f3|e] eqn:E3; cbn; [|done].
    split; [|done]. split; [done|]. apply (scope_user_filter_scoped a f1 t2 f3). right. by exists f2.
Qed.

Lemma logs_view f n1 n2 : low_next X a n1 n2 -> scoped_for a f ->
  result_map (fun l => filter_logs l a) (eth_logs E (n_chain n1) f) =
  result_map (fun l => filter_logs l a) (eth_logs E (n_chain n2) f).
Proof.
  intros [Hl _] Hs.
  destruct (eth_logs_view a (n_chain n1) (n_chain n2) f) as [(e & -> & ->)|(l1 & l2 & -> & -> & Hl')];
    [apply Hl|apply Hl|apply Hl|done|done|]. cbn. by rewrite Hl'.
Qed.

Lemma respects_get_logs f : respects (node_get_logs E R zone_portal f auth).
Proof.
  eapply (respects_rel_bind X a); [apply respects_scope|]. intros f1 f2 n1 n2 [<- Hs] Hl.
  pose proof (logs_view f1 n1 n2 Hl Hs) as Hv. unfold abind, read.
  destruct (eth_logs E (n_chain n1) f1), (eth_logs E (n_chain n2) f1); cbn in *; split; congruence || done.
Qed.
End Own.

(** *** Filter ownership *)

(** Checking the owner changes no account's live filters. *)
Lemma ensure_effect auth id n :
  let n' := snd (ensure_filter_owner E id auth n) in
  n_chain n' = n_chain n /\ n_registry n' = n_registry n /\ forall b j, my_filter b n' j = my_filter b n j.
Proof.
  unfold ensure_filter_owner. case_bool_decide as Ho; [|done].
  unfold filter_is_active. rewrite (law_active L). case_bool_decide as Hs; [done|].
  split; [done|]. split; [done|]. intros b j. cbn. unfold my_filter; cbn.
  destruct (decide (j = id)) as [->|].
  - rewrite lookup_delete_eq. rewrite decide_False by done.
    apply eq_None_not_Some in Hs. by case_decide.
  - by rewrite lookup_delete_ne.
Qed.

Lemma ensure_Ok auth id n :
  fst (ensure_filter_owner E id auth n) =
  match my_filter (auth_caller auth) n id with Some _ => Ok tt | None => Err filter_not_found_error end.
Proof.
  unfold ensure_filter_owner, filter_is_active, my_filter. rewrite (law_active L).
  case_bool_decide as Ho; [rewrite decide_True by done|by rewrite decide_False].
  case_bool_decide as Hs; [by destruct Hs as [? ->]|]. apply eq_None_not_Some in Hs. by rewrite Hs.
Qed.

Lemma my_filter_Some b n id st :
  my_filter b n id = Some st <-> n_filter_owners n !! id = Some b /\ reg_get L (n_registry n) id = Some st.
Proof. unfold my_filter. case_decide; naive_solver. Qed.

(** The live filters after a poll, a removal and an installation by [b]. *)
Lemma my_filter_poll a b n id spec since r' st :
  my_filter b n id = Some (spec, since) ->
  (forall j, reg_get L r' j = if decide (j = id) then Some st else reg_get L (n_registry n) j) ->
  forall j, my_filter a (set_registry r' n) j = if decide (a = b /\ j = id) then Some st else my_filter a n j.
Proof.
  intros [Ho Hr]%my_filter_Some Hg j. unfold my_filter. cbn [n_filter_owners n_registry set_registry]. rewrite Hg.
  destruct (decide (j = id)) as [->|].
  - rewrite Ho. destruct (decide (a = b)) as [->|]; [by rewrite !decide_True|]. rewrite !decide_False; [done|naive_solver..].
  - rewrite (decide_False (P := a = b /\ j = id)) by naive_solver. done.
Qed.

Lemma my_filter_remove a b n id st r' :
  my_filter b n id = Some st ->
  (forall j, reg_get L r' j = if decide (j = id) then None else reg_get L (n_registry n) j) ->
  forall j, my_filter a (set_owners (delete id (n_filter_owners n)) (set_registry r' n)) j =
            if decide (a = b /\ j = id) then None else my_filter a n j.
Proof.
  intros [Ho Hr]%my_filter_Some Hg j. unfold my_filter. cbn [n_filter_owners n_registry set_registry set_owners]. rewrite Hg.
  destruct (decide (j = id)) as [->|].
  - rewrite lookup_delete_eq, (decide_False (P := None = Some a)) by done. rewrite Ho.
    destruct (decide (a = b)) as [->|]; [by rewrite decide_True|]. rewrite !decide_False; [done|naive_solver..].
  - rewrite lookup_delete_ne by done. by rewrite (decide_False (P := a = b /\ j = id)) by naive_solver.
Qed.

Lemma my_filter_install a b n st r' id :
  (forall j, reg_get L r' j = if decide (j = id) then Some st else reg_get L (n_registry n) j) ->
  (a <> b -> my_filter a n id = None) ->
  forall j, my_filter a (set_owners (<[id := b]> (n_filter_owners n)) (set_registry r' n)) j =
            if decide (a = b /\ j = id) then Some st else my_filter a n j.
Proof.
  intros Hg Hn j. unfold my_filter. cbn [n_filter_owners n_registry set_registry set_owners]. rewrite Hg.
  destruct (decide (j = id)) as [->|].
  - rewrite lookup_insert_eq. destruct (decide (a = b)) as [->|Hab]; [by rewrite !decide_True|].
    rewrite (decide_False (P := a = b /\ id = id)) by naive_solver. rewrite decide_False by congruence.
    symmetry. apply Hn, Hab.
  - rewrite lookup_insert_ne by done. by rewrite (decide_False (P := a = b /\ j = id)) by naive_solver.
Qed.

(** Nodes stay alike when the same filter of [a] is replaced on both sides. *)
Lemma low_next_update X a n1 n2 n1' n2' id (o : option FilterState) :
  low_next X a n1 n2 ->
  n_chain n1' = n_chain n1 -> n_chain n2' = n_chain n2 ->
  reg_next L (n_registry n1') = reg_next L (n_registry n1) ->
  reg_next L (n_registry n2') = reg_next L (n_registry n2) ->
  (forall j, my_filter a n1' j = if decide (a = a /\ j = id) then o else my_filter a n1 j) ->
  (forall j, my_filter a n2' j = if decide (a = a /\ j = id) then o else my_filter a n2 j) ->
  (forall st, o = Some st -> X id) -> (forall f since, o = Some (LogFilter f, since) -> scoped_for a f) ->
  low_next X a n1' n2'.
Proof.
  intros [[V F [Hz1 Hi1 Hs1] [Hz2 Hi2 Hs2]] [Hn HX]] Hc1 Hc2 Hn1 Hn2 Hf1 Hf2 Ho Hos.
  split; [|split; [congruence|by rewrite Hn1]]. split.
  - by rewrite Hc1, Hc2.
  - intros j. rewrite Hf1, Hf2. destruct (decide (a = a /\ j = id)); [reflexivity|apply F].
  - split; [by rewrite Hc1|intros j st|intros j f since]; rewrite Hf1;
      destruct (decide (a = a /\ j = id)) as [[_ ->]|]; eauto.
  - split; [by rewrite Hc2|intros j st|intros j f since]; rewrite Hf2;
      destruct (decide (a = a /\ j = id)) as [[_ ->]|]; eauto.
Qed.

(** *** Filter requests of [a] *)

Definition installs (spec : FilterSpec) (auth : AuthContext) : Api TheNode (Raw W) :=
  abind (install E spec) (fun id => abind (insert_owner id (auth_caller auth)) (fun _ => aret (raw_filter_id R id))).

Lemma set_registry_same (n : TheNode) : set_registry (n_registry n) n = n.
Proof. by destruct n. Qed.

Section OwnFilters.
Context (X : FilterId W -> Prop) (auth : AuthContext).
Abbreviation a := (auth_caller auth).
Abbreviation respects := (respects X a).

Lemma respects_installs spec n1 n2 :
  (forall f, spec = LogFilter f -> scoped_for a f) -> low_next X a n1 n2 ->
  fst (installs spec auth n1) = fst (installs spec auth n2) /\
  low_next X a (snd (installs spec auth n1)) (snd (installs spec auth n2)).
Proof.
  intros Hs Hl. pose proof (low_view _ _ _ _ (proj1 Hl)) as V. destruct (proj2 Hl) as [Hn HX].
  pose proof (law_new L (n_registry n1) (n_chain n1) spec) as H1.
  pose proof (law_new L (n_registry n2) (n_chain n2) spec) as H2.
  rewrite (v_public _ _ _ V) in H1. unfold installs, abind, install, insert_owner.
  destruct (new_refused L _ spec) as [e|].
  - rewrite H1, H2, !set_registry_same. done.
  - destruct H1 as (r1 & -> & Hn1 & Hg1), H2 as (r2 & -> & Hn2 & Hg2). cbn [fst snd aret]. rewrite <-Hn in *.
    split; [done|].
    eapply (low_next_update X a n1 n2 _ _ (reg_next L (n_registry n1))); [done|done|done|done|cbn; congruence|..].
    + exact (my_filter_install a a n1 _ r1 _ Hg1 (fun H => False_ind _ (H eq_refl))).
    + exact (my_filter_install a a n2 _ r2 _ Hg2 (fun H => False_ind _ (H eq_refl))).
    + intros _ _. exact HX.
    + intros f since [= -> _]. by apply Hs.
Qed.

Lemma respects_new_filter f : respects (node_new_filter E R zone_portal f auth).
Proof.
  eapply (respects_rel_bind X a); [apply respects_scope|]. intros f1 f2 n1 n2 [<- Hs] Hl.
  apply (respects_installs (LogFilter f1)); [by intros ? [= <-]|done].
Qed.
Lemma respects_new_block_filter : respects (node_new_block_filter E R auth).
Proof. intros n1 n2 Hl. by apply (respects_installs BlockFilter). Qed.

(** A request for a filter: refused alike, or about the same filter of [a]. *)
Lemma respects_owned {B} id (k : Api TheNode B) :
  (forall st n1 n2, low_next X a n1 n2 -> my_filter a n1 id = Some st -> my_filter a n2 id = Some st ->
     fst (k n1) = fst (k n2) /\ low_next X a (snd (k n1)) (snd (k n2))) ->
  respects (abind (ensure_filter_owner E id auth) (fun _ => k)).
Proof.
  intros Hk n1 n2 Hl. pose proof (low_filters _ _ _ _ (proj1 Hl)) as F.
  pose proof (ensure_Ok auth id n1) as O1. pose proof (ensure_Ok auth id n2) as O2. rewrite <-(F id) in O2.
  pose proof (ensure_effect auth id n1) as (C1 & R1 & M1). pose proof (ensure_effect auth id n2) as (C2 & R2 & M2).
  assert (Hl' : low_next X a (snd (ensure_filter_owner E id auth n1)) (snd (ensure_filter_owner E id auth n2))).
  { destruct Hl as [[V _ G1 G2] Hn]. split; [|by rewrite R1, R2]. split.
    - by rewrite C1, C2.
    - intros j. by rewrite M1, M2.
    - by apply (good_transfer X a n1).
    - by apply (good_transfer X a n2). }
  unfold abind. destruct (ensure_filter_owner E id auth n1) as [r1 n1'], (ensure_filter_owner E id auth n2) as [r2 n2'].
  cbn [fst snd] in *. destruct (my_filter a n1 id) as [st|] eqn:Es; subst r1 r2; [|done].
  apply (Hk st); [done|by rewrite M1|by rewrite M2, <-F].
Qed.

Lemma reg_get_of b n id st : my_filter b n id = Some st -> reg_get L (n_registry n) id = Some st.
Proof. by intros [_ ?]%my_filter_Some. Qed.

Lemma respects_get_filter_logs id : respects (node_get_filter_logs E R id auth).
Proof.
  apply respects_owned. intros [spec since] n1 n2 Hl S1 S2.
  rewrite !(law_reg_logs L), (reg_get_of _ _ _ _ S1), (reg_get_of _ _ _ _ S2). destruct spec as [f|]; [|done].
  assert (Hs : scoped_for a f) by (destruct Hl as [[_ _ G _] _]; by apply (g_scoped _ _ _ G id f since)).
  pose proof (logs_view X auth f n1 n2 Hl Hs) as Hv.
  destruct (eth_logs E (n_chain n1) f), (eth_logs E (n_chain n2) f); cbn in *; split; congruence || done.
Qed.

Lemma respects_get_filter_changes id : respects (node_get_filter_changes E R id auth).
Proof.
  apply respects_owned. intros [spec since] n1 n2 Hl S1 S2.
  pose proof (law_changes L (n_registry n1) (n_chain n1) id) as H1. rewrite (reg_get_of _ _ _ _ S1) in H1.
  pose proof (law_changes L (n_registry n2) (n_chain n2) id) as H2. rewrite (reg_get_of _ _ _ _ S2) in H2.
  destruct H1 as (r1 & Hn1 & Hg1 & ->), H2 as (r2 & Hn2 & Hg2 & ->).
  pose proof (low_view _ _ _ _ (proj1 Hl)) as V. rewrite (v_public _ _ _ V) in *.
  assert (Hl' : low_next X a (set_registry r1 n1) (set_registry r2 n2)).
  { eapply (low_next_update X a n1 n2 _ _ id); [done..| | | |].
    - by eapply (my_filter_poll a a).
    - by eapply (my_filter_poll a a).
    - intros _ _. destruct Hl as [[_ _ G _] _]. by eapply (g_ids _ _ _ G).
    - intros f s [= -> _]. destruct Hl as [[_ _ G _] _]. by eapply (g_scoped _ _ _ G). }
  destruct spec as [f|]; [|by destruct (hashes_since L _ since)].
  destruct (poll_range L _ since _) as [b|]; [|done].
  assert (Hs : scoped_for a (set_block b f)).
  { intros log Hm. destruct Hl as [[_ _ G _] _]. by apply (g_scoped _ _ _ G id f since S1 log). }
  pose proof (logs_view X auth (set_block b f) n1 n2 Hl Hs) as Hv.
  destruct (eth_logs E (n_chain n1) _), (eth_logs E (n_chain n2) _); cbn in *; split; congruence || done.
Qed.

Lemma respects_uninstall id : respects (node_uninstall_filter E id auth).
Proof.
  apply respects_owned. intros st n1 n2 Hl S1 S2.
  destruct (law_uninstall L (n_registry n1) id) as (r1 & -> & Hn1 & Hg1).
  destruct (law_uninstall L (n_registry n2) id) as (r2 & -> & Hn2 & Hg2).
  rewrite (reg_get_of _ _ _ _ S1), (reg_get_of _ _ _ _ S2). rewrite bool_decide_eq_true_2 by done. cbn [orb fst snd].
  split; [done|]. eapply (low_next_update X a n1 n2 _ _ id None); [done..| | |done|done].
  - exact (my_filter_remove a a n1 id st r1 S1 Hg1).
  - exact (my_filter_remove a a n2 id st r2 S2 Hg2).
Qed.
End OwnFilters.

(** *** Requests of others leave [a]'s view alone *)

Section Others.
Context (X : FilterId W -> Prop) (a : Z).

(** The next id is not one of [a]'s, and stays so; [a] sees no change. *)
Definition silent {A} (m : Api TheNode A) : Prop := forall n,
  good X a n -> ~ X (reg_next L (n_registry n)) ->
  low X a n (snd (m n)) /\ ~ X (reg_next L (n_registry (snd (m n)))).

(** No effect at all. *)
Definition pure {A} (m : Api TheNode A) : Prop := forall n, snd (m n) = n.

Lemma pure_silent {A} (m : Api TheNode A) : pure m -> silent m.
Proof. intros Hm n Hg Hx. rewrite Hm. split; [by apply low_refl|done]. Qed.

Lemma silent_bind {A B} (m : Api TheNode A) (f : A -> Api TheNode B) :
  pure m -> (forall x, silent (f x)) -> silent (abind m f).
Proof.
  intros Hm Hf n Hg Hx. unfold abind. specialize (Hm n). destruct (m n) as [[x|e] n']; cbn in Hm; subst n';
    [by apply Hf|]. split; [by apply low_refl|done].
Qed.

Lemma pure_ret {A} (x : A) : pure (aret x). Proof. done. Qed.
Lemma pure_fail {A} e : pure (A:=A) (afail e). Proof. done. Qed.
Lemma pure_read {A} (q : C -> result string A) : pure (read q).
Proof. intros n. unfold read. by destruct (q _). Qed.
Lemma pure_lift_scope {A} (r : result ScopeError A) : pure (lift_scope r).
Proof. by destruct r. Qed.
Lemma pure_bind {A B} (m : Api TheNode A) (f : A -> Api TheNode B) :
  pure m -> (forall x, pure (f x)) -> pure (abind m f).
Proof.
  intros Hm Hf n. unfold abind. specialize (Hm n). destruct (m n) as [[x|e] n']; cbn in *; subst n'; [apply Hf|done].
Qed.
Lemma pure_zone_tokens : pure (zone_tokens E zone_portal).
Proof. unfold zone_tokens. destruct (_ =? _); [apply pure_ret|apply pure_read]. Qed.
Lemma pure_zone_sequencer : pure (zone_sequencer E zone_portal).
Proof. unfold zone_sequencer. destruct (_ =? _); [apply pure_ret|apply pure_read]. Qed.
Lemma pure_enforce r auth : pure (node_enforce_authorized E zone_portal r auth).
Proof. done. Qed.
Lemma pure_scope f auth : pure (scope_user_filter E zone_portal f auth).
Proof.
  unfold scope_user_filter. apply pure_bind; [apply pure_lift_scope|]. intros [[] f1]; [apply pure_ret|].
  apply pure_bind; [apply pure_zone_tokens|]. intros t.
  apply pure_bind; [apply pure_lift_scope|]. intros f2. apply pure_lift_scope.
Qed.
End Others.
Create HintDb pure.
#[local] Hint Resolve pure_ret pure_fail pure_read pure_lift_scope pure_bind pure_zone_tokens pure_zone_sequencer
  pure_enforce pure_scope : pure.

Section OtherFilters.
Context (X : FilterId W -> Prop) (a : Z) (auth : AuthContext).
Hypothesis Hother : auth_caller auth <> a.

Lemma low_same_filters n n' :
  n_chain n' = n_chain n -> (forall j, my_filter a n' j = my_filter a n j) -> good X a n -> low X a n n'.
Proof.
  intros Hc Hf Hg. split; [by rewrite Hc|intros; by rewrite Hf|done|by apply (good_transfer X a n)].
Qed.

Lemma silent_installs spec : silent X a (installs spec auth).
Proof.
  intros n Hg Hx. pose proof (law_new L (n_registry n) (n_chain n) spec) as H1.
  unfold installs, abind, install, insert_owner. destruct (new_refused L _ spec) as [e|].
  - rewrite H1, set_registry_same. split; [by apply low_refl|done].
  - destruct H1 as (r1 & -> & Hn1 & Hg1). cbn [fst snd aret]. split; [|cbn; by rewrite Hn1].
    apply low_same_filters; [done| |done]. intros j.
    rewrite (my_filter_install a (auth_caller auth) n (spec, poll_block L (public L (n_chain n))) r1 _ Hg1).
    + by rewrite decide_False by naive_solver.
    + intros _. destruct (my_filter a n _) eqn:Ef; [|done]. by apply (g_ids _ _ _ Hg) in Ef.
Qed.

(** A filter request of another account: refused, or about a filter that is not [a]'s. *)
Lemma silent_owned {B} id (k : Api TheNode B) :
  (forall n st, good X a n -> ~ X (reg_next L (n_registry n)) -> my_filter (auth_caller auth) n id = Some st ->
     low X a n (snd (k n)) /\ ~ X (reg_next L (n_registry (snd (k n))))) ->
  silent X a (abind (ensure_filter_owner E id auth) (fun _ => k)).
Proof.
  intros Hk n Hg Hx. pose proof (ensure_Ok auth id n) as O1.
  pose proof (ensure_effect auth id n) as (C1 & R1 & M1).
  assert (Hl : low X a n (snd (ensure_filter_owner E id auth n))) by (by apply low_same_filters).
  unfold abind. destruct (ensure_filter_owner E id auth n) as [r1 n1]. cbn [fst snd] in *.
  rewrite <-R1 in Hx. destruct (my_filter (auth_caller auth) n id) as [st|] eqn:Es; subst r1; [|done].
  destruct (Hk n1 st) as [Hl' Hx']; [apply Hl|done|by rewrite M1|]. split; [|done].
  by apply (low_trans X a n n1).
Qed.

Lemma silent_get_filter_logs id : silent X a (node_get_filter_logs E R id auth).
Proof.
  apply silent_owned. intros n st Hg Hx _. destruct (reg_logs E _ _ id); (split; [by apply low_refl|done]).
Qed.

Lemma silent_get_filter_changes id : silent X a (node_get_filter_changes E R id auth).
Proof.
  apply silent_owned. intros n [spec since] Hg Hx S1.
  pose proof (law_changes L (n_registry n) (n_chain n) id) as H1. rewrite (reg_get_of _ _ _ _ S1) in H1.
  destruct H1 as (r1 & Hn1 & Hg1 & ->).
  assert (Hl : low X a n (set_registry r1 n) /\ ~ X (reg_next L r1)).
  { split; [|by rewrite Hn1]. apply low_same_filters; [done| |done]. intros j.
    rewrite (my_filter_poll a _ n id spec since r1 _ S1 Hg1). by rewrite decide_False by naive_solver. }
  destruct spec as [f|]; [destruct (poll_range L _ since _) as [b|]; [destruct (eth_logs E _ _)|]|
    destruct (hashes_since L _ since)]; done.
Qed.

Lemma silent_uninstall id : silent X a (node_uninstall_filter E id auth).
Proof.
  apply silent_owned. intros n st Hg Hx S1.
  destruct (law_uninstall L (n_registry n) id) as (r1 & -> & Hn1 & Hg1).
  rewrite (reg_get_of _ _ _ _ S1), bool_decide_eq_true_2 by done. cbn [orb fst snd].
  split; [|cbn; by rewrite Hn1]. apply low_same_filters; [done| |done]. intros j.
  etrans; [exact (my_filter_remove a _ n id st r1 S1 Hg1 j)|]. by rewrite decide_False by naive_solver.
Qed.

Lemma silent_new_filter f : silent X a (node_new_filter E R zone_portal f auth).
Proof.
  apply (silent_bind X a (scope_user_filter E zone_portal f auth) (fun f => installs (LogFilter f) auth));
    [apply pure_scope|]. intros f1. apply silent_installs.
Qed.
End OtherFilters.

(** *** Submissions *)

Definition verified (data : list Z) (auth : AuthContext) : result JsonRpcError unit :=
  verify_raw_tx_sender (decode_2718 E) (tx_recover_signer E) data auth.

(** What a receipt shows its sender, and who that is. *)
Definition receipt_view (r : @TempoTransactionReceipt Bloom) := (r_from r, own_receipt (r_from r) (Some r)).

(** On chains that [auth] cannot tell apart its transaction [data] has the same
    outcome, but for the parts of a receipt that are hidden, and the chains stay
    alike to it. *)
Definition submits_alike (auth : AuthContext) (data : list Z) : Prop := forall c1 c2,
  let a := auth_caller auth in
  verified data auth = Ok tt -> same_view a c1 c2 -> no_zero_topic c1 -> no_zero_topic c2 ->
  (fst (eth_send_raw E c1 data) = fst (eth_send_raw E c2 data) /\
   same_view a (snd (eth_send_raw E c1 data)) (snd (eth_send_raw E c2 data)) /\
   no_zero_topic (snd (eth_send_raw E c1 data)) /\ no_zero_topic (snd (eth_send_raw E c2 data))) /\
  (result_map receipt_view (fst (eth_send_raw_sync E c1 data)) = result_map receipt_view (fst (eth_send_raw_sync E c2 data)) /\
   same_view a (snd (eth_send_raw_sync E c1 data)) (snd (eth_send_raw_sync E c2 data)) /\
   no_zero_topic (snd (eth_send_raw_sync E c1 data)) /\ no_zero_topic (snd (eth_send_raw_sync E c2 data))).

Lemma receipt_view_redacted r1 r2 :
  receipt_view r1 = receipt_view r2 -> filter_receipt_logs (logs_bloom_of E) r1 = filter_receipt_logs (logs_bloom_of E) r2.
Proof.
  unfold receipt_view, own_receipt. intros [= Hf Ho]. cbn in Ho. rewrite !Z.eqb_refl in Ho.
  injection Ho. intros. apply receipt_redacted; congruence.
Qed.

Lemma low_next_chain X a n1 n2 c1 c2 :
  low_next X a n1 n2 -> same_view a c1 c2 -> no_zero_topic c1 -> no_zero_topic c2 ->
  low_next X a (set_chain c1 n1) (set_chain c2 n2).
Proof. intros [[_ F [_ I1 S1] [_ I2 S2]] Hn] V Z1 Z2. split; [|exact Hn]. by split; [..|split|split]. Qed.

Lemma respects_send X auth data :
  submits_alike auth data -> respects X (auth_caller auth) (node_send_raw_transaction E data auth).
Proof.
  intros Hd n1 n2 Hl. unfold node_send_raw_transaction, abind, lift. destruct (verify_raw_tx_sender _ _ _ _) as [[]|e] eqn:Ev; [|done].
  destruct Hl as [Hl Hn]. destruct (Hd (n_chain n1) (n_chain n2) Ev) as [(Hr & V & Z1 & Z2) _]; [apply Hl|apply Hl|apply Hl|].
  pose proof (low_next_chain X _ n1 n2 _ _ (conj Hl Hn) V Z1 Z2) as Hl'. unfold submit.
  destruct (eth_send_raw E (n_chain n1) data) as [r1 c1], (eth_send_raw E (n_chain n2) data) as [r2 c2].
  cbn [fst snd] in *. subst r2. by destruct r1.
Qed.

Lemma respects_send_sync X auth data :
  submits_alike auth data -> respects X (auth_caller auth) (node_send_raw_transaction_sync E R data auth).
Proof.
  intros Hd n1 n2 Hl. unfold node_send_raw_transaction_sync, abind, lift. destruct (verify_raw_tx_sender _ _ _ _) as [[]|e] eqn:Ev; [|done].
  destruct Hl as [Hl Hn]. destruct (Hd (n_chain n1) (n_chain n2) Ev) as [_ (Hr & V & Z1 & Z2)]; [apply Hl|apply Hl|apply Hl|].
  pose proof (low_next_chain X _ n1 n2 _ _ (conj Hl Hn) V Z1 Z2) as Hl'. unfold submit.
  destruct (eth_send_raw_sync E (n_chain n1) data) as [r1 c1], (eth_send_raw_sync E (n_chain n2) data) as [r2 c2].
  cbn [fst snd] in *. destruct r1 as [r1|e1], r2 as [r2|e2]; try done; [|by cbn in Hr; simplify_eq].
  split; [|done]. cbn. rewrite (receipt_view_redacted r1 r2); [done|]. unfold result_map in Hr. congruence.
Qed.

(** ** Runs *)

(** The methods of these handlers, and those that are answered without the node. *)
Definition COVERED : list string :=
  ["eth_blockNumber"; "eth_chainId"; "eth_gasPrice"; "eth_maxPriorityFeePerGas"; "net_version"; "net_listening";
   "eth_syncing"; "eth_coinbase"; "web3_sha3"; "web3_clientVersion"; "eth_feeHistory"; "eth_getBalance";
   "eth_getTransactionCount"; "eth_getBlockByNumber"; "eth_getBlockByHash"; "eth_getTransactionByHash";
   "eth_getTransactionReceipt"; "eth_call"; "eth_estimateGas"; "eth_fillTransaction"; "eth_sendRawTransaction";
   "eth_sendRawTransactionSync"; "eth_getLogs"; "eth_newFilter"; "eth_getFilterLogs"; "eth_getFilterChanges"; "eth_newBlockFilter"; "eth_uninstallFilter";
   "zone_getAuthorizationTokenInfo"; "zone_getZoneInfo"].

(** A request for one of these, or one that is refused. *)
Definition covered (m : string) : Prop := m ∈ COVERED \/ m ∉ PUBLIC_METHODS.

(** The transaction a request submits, and the chain after it. *)
Definition submitted_data (req : JsonRpcRequest W) : option (list Z) :=
  if bool_decide (req_method req ∈ ["eth_sendRawTransaction"; "eth_sendRawTransactionSync"])
  then de_bytes W (default "[]" (req_params req)) else None.
Definition chain_after (auth : AuthContext) (req : JsonRpcRequest W) (c : C) : C :=
  match submitted_data req with
  | Some data =>
    match verified data auth with
    | Ok _ => if bool_decide (req_method req = "eth_sendRawTransaction") then snd (eth_send_raw E c data)
              else snd (eth_send_raw_sync E c data)
    | Err _ => c
    end
  | None => c
  end.

Context (keccak256 : list Z -> Z) (other : ZoneRpcApi W TheNode).
Abbreviation rpc := (zone_rpc E R zone_id zone_chain_id zone_portal other).
Abbreviation Response := (JsonRpcResponse (Value W) (Raw W)).

Definition handler_respects X a (h : TheNode -> Response * TheNode) : Prop := forall n1 n2,
  low_next X a n1 n2 -> fst (h n1) = fst (h n2) /\ low_next X a (snd (h n1)) (snd (h n2)).
Definition handler_silent X a (h : TheNode -> Response * TheNode) : Prop := forall n,
  good X a n -> ~ X (reg_next L (n_registry n)) -> low X a n (snd (h n)).

Lemma respond_respects X a r : handler_respects X a (respond r).
Proof. by intros n1 n2. Qed.
Lemma respond_silent X a r : handler_silent X a (respond r).
Proof. intros n Hg _. by apply low_refl. Qed.

Lemma api_result_respects X a id m : respects X a m -> handler_respects X a (api_result id m).
Proof.
  intros Hm n1 n2 Hl. destruct (Hm n1 n2 Hl) as [Er Hl']. unfold api_result.
  destruct (m n1) as [[|] ?], (m n2) as [[|] ?]; cbn in *; split; congruence || done.
Qed.
Lemma api_result_silent X a id m : silent X a m -> handler_silent X a (api_result id m).
Proof.
  intros Hm n Hg Hx. destruct (Hm n Hg Hx) as [Hl _]. unfold api_result. by destruct (m n) as [[|] ?].
Qed.

Lemma with_params_respects X a {A} (id : Value W) (p : option A) msg body :
  (forall x, handler_respects X a (body x)) -> handler_respects X a (with_params id p msg body).
Proof. intros H. destruct p; [apply H|apply respond_respects]. Qed.
Lemma with_params_silent X a {A} (id : Value W) (p : option A) msg body :
  (forall x, handler_silent X a (body x)) -> handler_silent X a (with_params id p msg body).
Proof. intros H. destruct p; [apply H|apply respond_silent]. Qed.

(** Routing a covered method picks a handler with the property. *)
Lemma route_covered (P : (TheNode -> Response * TheNode) -> Prop) (m : string) routes :
  m ∈ COVERED -> Forall (fun x => x.1 ∈ COVERED -> m = x.1 -> P x.2) routes ->
  match route m routes with Some h => P h | None => True end.
Proof.
  intros Hm. induction 1 as [|[name h] l Hh _ IH]; cbn; [done|]. case_bool_decide as E'; [|done].
  subst. by apply Hh.
Qed.

(** Goes through the routing table, keeping the covered methods. *)
Ltac covered_routes :=
  lazymatch goal with
  | |- Forall _ [] => apply Forall_nil_2
  | |- Forall _ ((?n, _) :: _) =>
    let b := eval vm_compute in (bool_decide (n ∈ COVERED)) in
    lazymatch b with
    | true => apply Forall_cons_2; [intros _; cbn [fst snd]; intros Hmethod|covered_routes]
    | false =>
      apply Forall_cons_2;
      [let H := fresh in intros H _; exfalso; apply (bool_decide_eq_false_1 (n ∈ COVERED)); [vm_compute; reflexivity|exact H]|covered_routes]
    end
  end.

Ltac own_request :=
  lazymatch goal with
  | |- handler_respects _ _ (with_params _ _ _ _) => apply with_params_respects; intros ?; own_request
  | |- handler_respects _ _ (respond _) => apply respond_respects
  | |- handler_respects _ _ (api_result _ (fun s => (Ok _, s))) => apply api_result_respects, respects_ret
  | |- handler_respects _ _ (api_result _ _) => apply api_result_respects
  | |- _ => case_match; subst; cbv beta zeta; own_request
  end.

Ltac other_request :=
  lazymatch goal with
  | |- handler_silent _ _ (with_params _ _ _ _) => apply with_params_silent; intros ?; other_request
  | |- handler_silent _ _ (respond _) => apply respond_silent
  | |- handler_silent _ _ (api_result _ (fun s => (Ok _, s))) => apply api_result_silent, pure_silent, pure_ret
  | |- handler_silent _ _ (api_result _ _) => apply api_result_silent
  | |- _ => case_match; subst; cbv beta zeta; other_request
  end.

Lemma dispatch_respects X auth req :
  covered (req_method req) -> (forall data, submitted_data req = Some data -> submits_alike auth data) ->
  handler_respects X (auth_caller auth) (dispatch keccak256 rpc req auth).
Proof.
  intros Hc Hsub. unfold dispatch. destruct (classify_method _) as [[]|] eqn:Ec; [|apply respond_respects..].
  destruct Hc as [Hc|Hc]; [|by apply classify_public in Ec].
  unfold submitted_data in Hsub. set (r := default "[]" (req_params req)) in *.
  pose proof (route_covered (handler_respects X (auth_caller auth)) (req_method req)
    (routes keccak256 rpc (req_id req) r auth) Hc) as Hr.
  destruct (route (req_method req) (routes keccak256 rpc (req_id req) r auth)); [|apply respond_respects].
  apply Hr. clear Hr. unfold routes. covered_routes.
  all: try (rewrite Hmethod, bool_decide_eq_false_2 in Hsub by (intros ?; set_solver)).
  all: unfold_handlers.
  21: { rewrite Hmethod, bool_decide_eq_true_2 in Hsub by set_solver. destruct (de_bytes W r) as [data|]; [|apply respond_respects].
        by apply api_result_respects, respects_send, Hsub. }
  21: { rewrite Hmethod, bool_decide_eq_true_2 in Hsub by set_solver. destruct (de_bytes W r) as [data|]; [|apply respond_respects].
        by apply api_result_respects, respects_send_sync, Hsub. }
  all: own_request.
  all: cbn [zone_rpc block_number chain_id net_version syncing coinbase gas_price max_priority_fee_per_gas fee_history
    get_balance get_transaction_count block_by_number block_by_hash transaction_by_hash transaction_receipt
    call estimate_gas send_raw_transaction send_raw_transaction_sync fill_transaction get_logs new_filter
    get_filter_logs get_filter_changes new_block_filter uninstall_filter
    zone_get_authorization_token_info zone_get_zone_info].
  all: try (apply respects_answer; intros c1 c2 V; apply V).
  all: try (apply respects_block; intros c1 c2 V; apply V).
  all: try apply respects_ret.
  - apply respects_bind; [apply respects_zone_sequencer|]. intros x. apply respects_ret.
  - apply respects_fee_history.
  - apply respects_balance.
  - apply respects_count.
  - apply respects_transaction.
  - apply respects_receipt.
  - apply respects_call.
  - apply respects_estimate.
  - apply respects_fill.
  - apply respects_get_logs.
  - apply respects_new_filter.
  - apply respects_get_filter_logs.
  - apply respects_get_filter_changes.
  - apply respects_new_block_filter.
  - apply respects_uninstall.
  - apply respects_bind; [apply respects_zone_tokens|]. intros x.
    apply respects_bind; [apply respects_zone_sequencer|]. intros y. apply respects_ret.
Qed.

(** A request of another account: [a]'s filters stay, and the chain is the one
    [f] gives. *)
Definition handler_shifts X a (f : C -> C) (h : TheNode -> Response * TheNode) : Prop := forall n,
  good X a n -> ~ X (reg_next L (n_registry n)) ->
  (forall j, my_filter a (snd (h n)) j = my_filter a n j) /\
  same_view a (f (n_chain n)) (n_chain (snd (h n))) /\
  (no_zero_topic (f (n_chain n)) -> good X a (snd (h n))).

Lemma silent_shifts X a f h : handler_silent X a h -> (forall c, f c = c) -> handler_shifts X a f h.
Proof.
  intros Hs Hf n Hg Hx. destruct (Hs n Hg Hx) as [V F _ G]. rewrite Hf. split; [intros j; by rewrite F|done].
Qed.

Lemma submit_shifts X a f id data auth {A} (q : C -> result string A * C) (k : A -> Raw W) :
  (forall c, f c = match verified data auth with Ok _ => snd (q c) | Err _ => c end) ->
  handler_shifts X a f (api_result id (abind (lift (verified data auth)) (fun _ => abind (submit q) (fun x => aret (k x))))).
Proof.
  intros Hf n Hg Hx. rewrite Hf. unfold api_result, abind, lift, submit.
  destruct (verified data auth); [|done]. destruct (q (n_chain n)) as [[x|e] c]; cbn.
  all: split; [done|]; split; [reflexivity|]; intros Hz; destruct Hg as [_ Hi Hs]; by split.
Qed.

Lemma chain_after_other auth req c :
  req_method req ∉ ["eth_sendRawTransaction"; "eth_sendRawTransactionSync"] -> chain_after auth req c = c.
Proof. intros Hm. unfold chain_after, submitted_data. by rewrite bool_decide_eq_false_2. Qed.

(** A submission of another account with parameters [r]. *)
Ltac other_submission r Hmethod :=
  let Ed := fresh in
  destruct (de_bytes W r) as [data|] eqn:Ed;
    [apply submit_shifts; intros c; unfold chain_after, submitted_data; rewrite Hmethod; fold r; rewrite Ed;
     by rewrite bool_decide_eq_true_2 by set_solver
    |apply silent_shifts; [apply respond_silent|]; intros c; unfold chain_after, submitted_data; fold r; rewrite Ed;
     by destruct (bool_decide _)].

Lemma dispatch_shifts X a auth req :
  auth_caller auth <> a -> covered (req_method req) ->
  handler_shifts X a (chain_after auth req) (dispatch keccak256 rpc req auth).
Proof.
  intros Hother Hc.
  assert (Hno : req_method req ∉ ["eth_sendRawTransaction"; "eth_sendRawTransactionSync"] ->
    forall r, handler_shifts X a (chain_after auth req) (respond r)).
  { intros Hm r. apply silent_shifts; [apply respond_silent|]. intros c. by apply chain_after_other. }
  assert (Hpub : classify_method (req_method req) <> Some Public ->
    req_method req ∉ ["eth_sendRawTransaction"; "eth_sendRawTransactionSync"]).
  { intros Hn Hm. apply Hn. apply classify_public. set_unfold. destruct Hm as [->|[->|[]]]; tauto. }
  unfold dispatch. destruct (classify_method _) as [[]|] eqn:Ec; [|by apply Hno, Hpub..].
  destruct Hc as [Hc|Hc]; [|by apply classify_public in Ec]. clear Hno Hpub Ec.
  set (r := default "[]" (req_params req)).
  pose proof (route_covered (handler_shifts X a (chain_after auth req)) (req_method req)
    (routes keccak256 rpc (req_id req) r auth) Hc) as Hr.
  destruct (route (req_method req) (routes keccak256 rpc (req_id req) r auth)) eqn:Er.
  2: { exfalso. apply (eq_None_not_Some (route (req_method req) (routes keccak256 rpc (req_id req) r auth))); [done|].
       apply route_in, routes_public. revert Hc. generalize (req_method req). intros m Hm.
       assert (Hall : forallb (fun x => bool_decide (x ∈ PUBLIC_METHODS)) COVERED = true) by by vm_compute.
       rewrite forallb_forall in Hall. apply list_elem_of_In in Hm. exact (bool_decide_eq_true_1 _ (Hall m Hm)). }
  apply Hr. clear Hr Er. unfold routes. covered_routes.
  all: unfold_handlers.
  21: other_submission r Hmethod.
  21: other_submission r Hmethod.
  all: apply silent_shifts; [|intros c; apply chain_after_other; rewrite Hmethod; by set_solver].
  all: clear Hmethod.
  all: other_request.
  all: cbn [zone_rpc block_number chain_id net_version syncing coinbase gas_price max_priority_fee_per_gas fee_history
    get_balance get_transaction_count block_by_number block_by_hash transaction_by_hash transaction_receipt
    call estimate_gas send_raw_transaction send_raw_transaction_sync fill_transaction get_logs new_filter
    get_filter_logs get_filter_changes new_block_filter uninstall_filter
    zone_get_authorization_token_info zone_get_zone_info].
  all: lazymatch goal with
       | |- silent _ _ (node_new_filter _ _ _ _ _) => by apply silent_new_filter
       | |- silent _ _ (node_get_filter_logs _ _ _ _) => by apply silent_get_filter_logs
       | |- silent _ _ (node_get_filter_changes _ _ _ _) => by apply silent_get_filter_changes
       | |- silent _ _ (node_new_block_filter _ _ _) => by apply silent_installs
       | |- silent _ _ (node_uninstall_filter _ _ _) => by apply silent_uninstall
       | |- _ => apply pure_silent
       end.
  all: unfold node_block_number, node_chain_id, node_net_version, node_syncing, node_coinbase, node_gas_price,
    node_max_priority_fee_per_gas, node_fee_history, node_block_by_number, node_block_by_hash, node_get_balance,
    node_get_transaction_count, node_transaction_by_hash, node_transaction_receipt, node_call, node_estimate_gas,
    node_fill_transaction, node_get_logs, node_token_info, node_zone_info.
  all: repeat first [apply pure_bind; [|intros ?] | case_match | solve [eauto with pure nocore]].
Qed.

(** One event: a request of an account, answered with the id the provider would
    hand out next; a change of the chain; the eviction of an idle filter; a
    round of the owner table's pruner. *)
Inductive Ev :=
  | Request (auth : AuthContext) (req : JsonRpcRequest W) (draw : FilterId W)
  | NewChain (c : C)
  | Evict (id : FilterId W)
  | Prune.

Definition happens (ev : Ev) (n : TheNode) : option (Z * Response) * TheNode :=
  match ev with
  | Request auth req draw =>
    let '(r, n') := dispatch keccak256 rpc req auth (set_registry (reg_draw L draw (n_registry n)) n) in
    (Some (auth_caller auth, r), n')
  | NewChain c => (None, set_chain c n)
  | Evict id => (None, set_registry (reg_evict L id (n_registry n)) n)
  | Prune => (None, prune_filter_owners E n)
  end.

(** What [a] is answered over a run. *)
Fixpoint observed (a : Z) (evs : list Ev) (n : TheNode) : list Response :=
  match evs with
  | [] => []
  | ev :: evs' =>
    let '(o, n') := happens ev n in
    match o with
    | Some (b, r) => if b =? a then r :: observed a evs' n' else observed a evs' n'
    | None => observed a evs' n'
    end
  end.

(** A submission, if the request is one, that [a] sees nothing of. *)
Definition unseen (a : Z) (auth : AuthContext) (req : JsonRpcRequest W) : Prop := forall c,
  no_zero_topic c -> same_view a c (chain_after auth req c) /\ no_zero_topic (chain_after auth req c).

(** Two runs that differ only in what does not concern [a]: the requests of
    other accounts, chain data outside the view of [a], the fate of other
    accounts' filters.  Submissions of [a] have the same outcome in both; those
    of others leave the view of [a] as it is, or happen in both runs and change
    it alike. *)
Inductive similar (X : FilterId W -> Prop) (a : Z) : list Ev -> list Ev -> Prop :=
  | sim_nil : similar X a [] []
  | sim_own auth req draw l1 l2 :
      auth_caller auth = a -> covered (req_method req) -> X draw ->
      (forall data, submitted_data req = Some data -> submits_alike auth data) -> similar X a l1 l2 ->
      similar X a (Request auth req draw :: l1) (Request auth req draw :: l2)
  | sim_other_l auth req draw l1 l2 :
      auth_caller auth <> a -> covered (req_method req) -> ~ X draw -> unseen a auth req -> similar X a l1 l2 ->
      similar X a (Request auth req draw :: l1) l2
  | sim_other_r auth req draw l1 l2 :
      auth_caller auth <> a -> covered (req_method req) -> ~ X draw -> unseen a auth req -> similar X a l1 l2 ->
      similar X a l1 (Request auth req draw :: l2)
  | sim_others auth1 req1 draw1 auth2 req2 draw2 l1 l2 :
      auth_caller auth1 <> a -> covered (req_method req1) -> ~ X draw1 ->
      auth_caller auth2 <> a -> covered (req_method req2) -> ~ X draw2 ->
      (forall c1 c2, same_view a c1 c2 -> no_zero_topic c1 -> no_zero_topic c2 ->
         same_view a (chain_after auth1 req1 c1) (chain_after auth2 req2 c2) /\
         no_zero_topic (chain_after auth1 req1 c1) /\ no_zero_topic (chain_after auth2 req2 c2)) ->
      similar X a l1 l2 -> similar X a (Request auth1 req1 draw1 :: l1) (Request auth2 req2 draw2 :: l2)
  | sim_chain c1 c2 l1 l2 :
      same_view a c1 c2 -> no_zero_topic c1 -> no_zero_topic c2 -> similar X a l1 l2 ->
      similar X a (NewChain c1 :: l1) (NewChain c2 :: l2)
  | sim_evict id l1 l2 : similar X a l1 l2 -> similar X a (Evict id :: l1) (Evict id :: l2)
  | sim_evict_l id l1 l2 : ~ X id -> similar X a l1 l2 -> similar X a (Evict id :: l1) l2
  | sim_evict_r id l1 l2 : ~ X id -> similar X a l1 l2 -> similar X a l1 (Evict id :: l2)
  | sim_prune_l l1 l2 : similar X a l1 l2 -> similar X a (Prune :: l1) l2
  | sim_prune_r l1 l2 : similar X a l1 l2 -> similar X a l1 (Prune :: l2).

Lemma low_sym X a n1 n2 : low X a n1 n2 -> low X a n2 n1.
Proof. intros [V F G1 G2]. split; [by symmetry|intros; by rewrite F|done|done]. Qed.

Lemma draw_low X a id n : good X a n -> low X a n (set_registry (reg_draw L id (n_registry n)) n).
Proof.
  intros Hg. apply low_same_filters; [done| |done]. intros j. unfold my_filter. cbn.
  by rewrite (proj2 (law_draw L (n_registry n) id)).
Qed.

Lemma prune_low X a n : good X a n -> low X a n (prune_filter_owners E n).
Proof.
  intros Hg. apply low_same_filters; [done| |done]. intros j. unfold my_filter, prune_filter_owners.
  cbn [n_filter_owners n_registry set_owners]. set (stale := stale_filter_owner_ids _ _ _).
  destruct (decide (j ∈ stale)) as [Hj|Hj].
  - rewrite lookup_foldr_delete by done. rewrite decide_False by done.
    apply list_elem_of_filter in Hj as [Hj _]. rewrite (law_active L) in Hj.
    apply bool_decide_eq_false, eq_None_not_Some in Hj. rewrite Hj. by case_decide.
  - by rewrite lookup_foldr_delete_not_elem_of.
Qed.

Lemma my_filter_evict a id n j :
  my_filter a (set_registry (reg_evict L id (n_registry n)) n) j = if decide (j = id) then None else my_filter a n j.
Proof. unfold my_filter. cbn. rewrite (law_evict L). by repeat case_decide. Qed.

Lemma evict_good X a id n : good X a n -> good X a (set_registry (reg_evict L id (n_registry n)) n).
Proof.
  intros [Hz Hi Hs]. split; [done|..]; intros *; rewrite my_filter_evict; (case_decide; [done|]); [apply Hi|apply Hs].
Qed.

Lemma evict_other_low X a id n : ~ X id -> good X a n -> low X a n (set_registry (reg_evict L id (n_registry n)) n).
Proof.
  intros Hx Hg. apply low_same_filters; [done| |done]. intros j. rewrite my_filter_evict. case_decide as Hd; [|done].
  subst j. destruct (my_filter a n id) eqn:Ef; [|done]. by apply (g_ids _ _ _ Hg) in Ef.
Qed.

(** The node after a request of another account. *)
Lemma other_request_shifts X a auth req draw n :
  auth_caller auth <> a -> covered (req_method req) -> ~ X draw -> good X a n ->
  (exists r, fst (happens (Request auth req draw) n) = Some (auth_caller auth, r)) /\
  let n' := snd (happens (Request auth req draw) n) in
  (forall j, my_filter a n' j = my_filter a n j) /\ same_view a (chain_after auth req (n_chain n)) (n_chain n') /\
  (no_zero_topic (chain_after auth req (n_chain n)) -> good X a n').
Proof.
  intros Ho Hc Hx Hg. cbn [happens]. pose proof (draw_low X a draw n Hg) as [_ F _ G].
  pose proof (dispatch_shifts X a auth req Ho Hc (set_registry (reg_draw L draw (n_registry n)) n) G) as Hs.
  destruct (dispatch _ _ req auth _) as [r n']. cbn [fst snd] in *. split; [by exists r|].
  destruct Hs as (Hf & V & Hg'); [cbn; by rewrite (proj1 (law_draw L _ _))|]. split; [|done]. intros j. by rewrite Hf, F.
Qed.

Lemma other_request_low X a auth req draw n :
  auth_caller auth <> a -> covered (req_method req) -> ~ X draw -> unseen a auth req -> good X a n ->
  low X a n (snd (happens (Request auth req draw) n)) /\
  exists r, fst (happens (Request auth req draw) n) = Some (auth_caller auth, r).
Proof.
  intros Ho Hc Hx Hu Hg. destruct (other_request_shifts X a auth req draw n Ho Hc Hx Hg) as (Hr & Hf & V & Hg').
  destruct (Hu (n_chain n) (g_zero _ _ _ Hg)) as [Vu Zu]. split; [|done].
  split; [exact (transitivity Vu V)|intros j; by rewrite Hf|done|by apply Hg'].
Qed.

(** Answers to [a] are the same in similar runs of nodes [a] cannot tell apart. *)
Lemma similar_observed X a l1 l2 :
  similar X a l1 l2 -> forall n1 n2, low X a n1 n2 -> observed a l1 n1 = observed a l2 n2.
Proof.
  induction 1 as [|auth req draw l1 l2 Ha Hc Hx Hsub _ IH|auth req draw l1 l2 Ha Hc Hx Hu _ IH|auth req draw l1 l2 Ha Hc Hx Hu _ IH|
    auth1 req1 draw1 auth2 req2 draw2 l1 l2 Ha1 Hc1 Hx1 Ha2 Hc2 Hx2 Hboth _ IH|c1 c2 l1 l2 V Z1 Z2 _ IH|id l1 l2 _ IH|id l1 l2 Hx _ IH|id l1 l2 Hx _ IH|l1 l2 _ IH|l1 l2 _ IH]; intros n1 n2 Hl.
  - done.
  - cbn [observed happens].
    assert (Hl' : low_next X a (set_registry (reg_draw L draw (n_registry n1)) n1)
                               (set_registry (reg_draw L draw (n_registry n2)) n2)).
    { split; [|cbn; by rewrite !(proj1 (law_draw L _ _))].
      apply (low_trans X a _ n2); [apply (low_trans X a _ n1); [apply low_sym|done]|]; apply draw_low; apply Hl. }
    subst a. destruct (dispatch_respects X auth req Hc Hsub _ _ Hl') as [Er Hl''].
    destruct (dispatch _ _ _ _ (set_registry _ n1)) as [r1 n1'], (dispatch _ _ _ _ (set_registry _ n2)) as [r2 n2'].
    cbn [fst snd] in *. rewrite Z.eqb_refl. f_equal; [done|]. by apply IH, Hl''.
  - cbn [observed]. destruct (other_request_low X a auth req draw n1 Ha Hc Hx Hu (low_good1 _ _ _ _ Hl)) as [Hl' [r Er]].
    destruct (happens (Request auth req draw) n1) as [o n1']. cbn [fst snd] in *. subst o.
    rewrite (proj2 (Z.eqb_neq _ _) Ha). apply IH. apply (low_trans X a n1' n1); [by apply low_sym|done].
  - cbn [observed]. destruct (other_request_low X a auth req draw n2 Ha Hc Hx Hu (low_good2 _ _ _ _ Hl)) as [Hl' [r Er]].
    destruct (happens (Request auth req draw) n2) as [o n2']. cbn [fst snd] in *. subst o.
    rewrite (proj2 (Z.eqb_neq _ _) Ha). apply IH. by apply (low_trans X a n1 n2).
  - cbn [observed]. destruct Hl as [V F G1 G2].
    destruct (other_request_shifts X a auth1 req1 draw1 n1 Ha1 Hc1 Hx1 G1) as ([r1 E1] & F1 & V1 & G1').
    destruct (other_request_shifts X a auth2 req2 draw2 n2 Ha2 Hc2 Hx2 G2) as ([r2 E2] & F2 & V2 & G2').
    destruct (Hboth _ _ V (g_zero _ _ _ G1) (g_zero _ _ _ G2)) as (Vb & Z1 & Z2).
    destruct (happens (Request auth1 req1 draw1) n1) as [o1 n1'], (happens (Request auth2 req2 draw2) n2) as [o2 n2'].
    cbn [fst snd] in *. subst o1 o2. rewrite (proj2 (Z.eqb_neq _ _) Ha1), (proj2 (Z.eqb_neq _ _) Ha2). apply IH.
    split; [|intros j; by rewrite F1, F2|by apply G1'|by apply G2'].
    exact (transitivity (symmetry V1) (transitivity Vb V2)).
  - cbn [observed happens]. apply IH. destruct Hl as [_ F [_ I1 S1] [_ I2 S2]]. by split; [..|split|split].
  - cbn [observed happens]. apply IH. destruct Hl as [V F G1 G2]. split; [done| |by apply evict_good..].
    intros j. rewrite !my_filter_evict. by rewrite F.
  - cbn [observed happens]. apply IH. apply (low_trans X a _ n1); [|done].
    apply low_sym, evict_other_low; [done|apply Hl].
  - cbn [observed happens]. apply IH. apply (low_trans X a _ n2); [done|]. apply evict_other_low; [done|apply Hl].
  - cbn [observed happens]. apply IH. apply (low_trans X a _ n1); [|done]. apply low_sym, prune_low, Hl.
  - cbn [observed happens]. apply IH. apply (low_trans X a _ n2); [done|]. apply prune_low, Hl.
Qed.

(** C21. Noninterference of the private RPC, for every Ethereum method.  Two runs
    serve the account [a] the same requests, on chains and nodes that differ
    only in what [a] is not entitled to see: blocks, fees and the portal are
    public, balance, nonce, transactions, receipts and simulations are those of
    [a], logs those it is a party to.  Other accounts may have asked anything in
    either run, had their filters evicted or not, and the owner table may have
    been pruned at any time; transactions [a] submits have the same outcome in
    both, transactions of others change what [a] sees alike or not at all.  The
    answers [a] gets are the same, request by request.  The sequencer
    is no exception: apart from simulating reads of others' refunds it sees
    what any account sees. *)
Theorem private_rpc_noninterference X a evs1 evs2 n1 n2 :
  similar X a evs1 evs2 -> low X a n1 n2 -> observed a evs1 n1 = observed a evs2 n2.
Proof. intros Hs. by apply similar_observed. Qed.
End Views.
