(* ===== verification/NodeRpcWitness.v ===== *)
(** * Private RPC: concrete nodes

    A small chain and filter registry that satisfy [RethLaws], with runs of two
    accounts on it, and the two places where an answer tells an account more
    than its own view. *)

From stdpp Require Import gmap list strings.
From S2P Require Import Prelude.
From S2P Require Import RpcAuth.
From S2P Require Import RpcLogs.
From S2P Require Import RpcLogsProofs.
From S2P Require Import RpcHistory.
From S2P Require Import RpcTypes.
From S2P Require Import RpcPolicy.
From S2P Require Import RpcDispatch.
From S2P Require Import RpcAccessProofs.
From S2P Require Import NodeRpc.
From S2P Require Import NodeRpcProofs.
#[local] Open Scope string_scope.
#[local] Open Scope Z_scope.

(** ** A wire format of numbers *)

Definition ALICE : Z := 0xA11CE.
Definition BOB : Z := 0xB0B.

Definition any_filter (by_caller : option Z) : Filter :=
  mkFilter (Range None None) ∅ ∅ (match by_caller with Some a => {[ a ]} | None => ∅ end) ∅ ∅.

(** A parameter text is read as a name. *)
Definition toy_wire : Wire :=
  mkWire Z (list Z) unit unit Z unit unit 0 (fun b => [if b then 1 else 0]) (fun _ => [4]) (fun h => [h])
    (fun s => if bool_decide (s = "tx") then Some [1] else None) (fun s => if bool_decide (s = "full") then Some (Latest, true) else Some (Latest, false))
    (fun _ => Some (7, false)) (fun _ => Some 7)
    (fun s => Some (mkRequest None (Some (TxCall 5)) None [] None None None None None false tt, None,
                    if bool_decide (s = "override") then Some tt else None))
    (fun _ => None) (fun _ => None)
    (fun s => Some (if bool_decide (s = "alice") then ALICE else BOB, None))
    (fun s => Some (any_filter (Some (if bool_decide (s = "alice") then ALICE else BOB))))
    (fun s => Some (if bool_decide (s = "one") then 1 else 2))
    (fun _ => None) (fun _ => None) (fun _ => None) (fun _ => None) (fun _ => None) (fun _ => None) (fun _ => None)
    (fun _ => None) (fun _ => None) (fun _ => None) (fun _ => None).

(** ** A chain: logs, balances and a head *)

Record ToyChain := mkToy { toy_head : Z; toy_logs : list Log; toy_balance : Z -> Z }.
Definition ToyReg : Type := gmap Z FilterState * Z.

Definition toy_range (b : FilterBlockOption) (l : Log) : bool :=
  match b with
  | Range (Some (Number n)) _ => n <=? default 0 (log_block_number l)
  | _ => true
  end.
Definition toy_select (c : ToyChain) (f : Filter) : result string (list Log) :=
  let sel := filter (fun l => matches f l /\ toy_range (f_block f) l = true) (toy_logs c) in
  match (if Nat.leb (length sel) 100 then None else Some "query exceeds max results") with
  | Some e => Err e
  | None => Ok sel
  end.
Definition toy_changes (r : ToyReg) (c : ToyChain) (id : Z) : result EthFilterError FilterChanges * ToyReg :=
  match r.1 !! id with
  | None => (Err FilterNotFound, r)
  | Some (spec, since) =>
    (match spec with
     | BlockFilter => Ok (BlockHashes [toy_head c])
     | LogFilter f =>
       match (if since <? toy_head c then Some (Range (Some (Number (since + 1))) None) else None) with
       | None => Ok Empty
       | Some b => match toy_select c (set_block b f) with Ok l => Ok (Logs l) | Err e => Err (OtherFilterError e) end
       end
     end, (<[id := (spec, toy_head c)]> r.1, r.2))
  end.

(** Alice's transaction costs her one. *)
Definition toy_spend (c : ToyChain) : ToyChain :=
  mkToy (toy_head c) (toy_logs c) (fun a => if a =? ALICE then toy_balance c a - 1 else toy_balance c a).

Definition toy_eth : Eth toy_wire ToyChain ToyReg unit unit unit unit :=
  mkEth toy_wire ToyChain ToyReg unit unit unit unit
    (fun c => Ok (toy_head c)) 1337 (fun _ => Ok tt) (fun _ => Ok 1) (fun _ => Ok 0)
    (fun _ _ _ _ => Ok (mkFeeHistory [] [] [] [] 0 None))
    (fun c a _ => Ok (toy_balance c a)) (fun _ _ _ => Ok 0)
    (fun _ _ _ => Ok None) (fun _ _ _ => Ok None) (fun _ _ => Ok None) (fun _ _ => Ok None)
    (fun c r _ => Ok [toy_balance c (default 0 (rq_from r))]) (fun _ _ _ => Ok 21000) (fun _ _ => Ok tt)
    (fun c _ => (Ok 7, toy_spend c)) (fun c _ => (Err "rejected", c)) toy_select tt
    (fun r c spec => (Ok r.2, (<[r.2 := (spec, toy_head c)]> r.1, r.2)))
    (fun r id => bool_decide (is_Some (r.1 !! id)))
    (fun r c id => match r.1 !! id with
       | Some (LogFilter f, _) => match toy_select c f with Ok l => Ok l | Err e => Err (OtherFilterError e) end
       | _ => Err FilterNotFound end)
    toy_changes
    (fun r id => (Ok (bool_decide (is_Some (r.1 !! id))), (delete id r.1, r.2)))
    (fun _ => Ok [0x20C0]) (fun _ => Ok 0x5E0) (fun _ => tt) (fun _ => Some tt) (fun _ => Some ALICE) (fun _ => None) 25.

Definition toy_ser : Ser toy_wire unit unit unit :=
  mkSer toy_wire unit unit unit [] (fun z => [z]) (fun _ => []) (fun z => [z]) (fun _ => []) (fun z => [z])
    (fun _ => []) (fun _ => []) (fun _ => []) (fun _ => []) (fun l => l) (fun _ => [])
    (fun logs => (fun l => foldr Z.add 0 (log_topics l)) <$> logs) (fun id => [id])
    (fun ch => match ch with
       | Logs logs => (fun l => default 0 (log_block_number l)) <$> logs
       | BlockHashes h => h
       | _ => [] end)
    (fun t => [ti_account t]) (fun z => [zi_zone_id z]).

Definition toy_laws : RethLaws toy_eth.
Proof.
  refine (Build_RethLaws toy_wire ToyChain ToyReg unit unit unit unit _ toy_eth Z toy_head toy_logs
    (fun _ => toy_range) (fun _ _ n => if Nat.leb n 100 then None else Some "query exceeds max results")
    (fun r id => r.1 !! id) snd (fun id r => (r.1, id)) (fun id r => (delete id r.1, r.2)) (fun _ _ => None)
    (fun head since _ => if since <? head then Some (Range (Some (Number (since + 1))) None) else None)
    (fun head => head) (fun head _ => head) (fun head _ => Ok [head]) _ _ _ _ _ _ _ _ _); cbn.
  - done.
  - done.
  - done.
  - intros r c spec. eexists. split; [done|]. split; [done|]. intros id. cbn.
    case_decide as E; [rewrite E; apply lookup_insert_eq|by apply lookup_insert_ne].
  - done.
  - intros r c id. unfold toy_changes. destruct (r.1 !! id) as [[spec since]|]; [|done].
    eexists. split; [|split; [|reflexivity]]; [done|]. intros j. cbn.
    case_decide as E; [rewrite E; apply lookup_insert_eq|by apply lookup_insert_ne].
  - intros r id. eexists. split; [done|]. split; [done|]. intros j. cbn.
    case_decide as E; [rewrite E; apply lookup_delete_eq|by apply lookup_delete_ne].
  - done.
  - intros r id j. case_decide as E; [rewrite E; apply lookup_delete_eq|by apply lookup_delete_ne].
Defined.

(** ** Two runs that Alice cannot tell apart *)

Definition transfer (block from to index : Z) : Log :=
  mkLog 0x20C0 [TRANSFER_TOPIC; from; to] [] None (Some block) None None (Some index) (Some index) false.
Definition chain0 : ToyChain := mkToy 1 [] (fun _ => 0).
(** In the second chain Bob is paid first, and richer. *)
Definition chain1 : ToyChain :=
  mkToy 2 [transfer 2 ALICE BOB 0] (fun a => if a =? ALICE then 10 else 0).
Definition chain2 : ToyChain :=
  mkToy 2 [transfer 2 0xCA401 BOB 0; transfer 2 ALICE BOB 1] (fun a => if a =? ALICE then 10 else 99).

Definition toy_node (c : ToyChain) : @Node toy_wire ToyChain ToyReg _ _ := mkNode c (∅, 0) ∅.
Definition toy_auth (a : Z) : AuthContext := mkAuth a 1000 None.
Definition ask (a : Z) (method params : string) (draw : Z) : Ev (W:=toy_wire) (C:=ToyChain) :=
  Request (W:=toy_wire) (toy_auth a) (@mkJsonRequest toy_wire method (Some params) 9) draw.

Definition run1 : list (Ev (W:=toy_wire)) :=
  [ask ALICE "eth_newFilter" "alice" 1; NewChain chain1; ask ALICE "eth_getFilterChanges" "one" 1;
   ask ALICE "eth_sendRawTransaction" "tx" 1; ask ALICE "eth_getBalance" "alice" 1; ask ALICE "eth_getBalance" "bob" 1; ask ALICE "eth_getFilterLogs" "two" 1].
Definition run2 : list (Ev (W:=toy_wire)) :=
  [ask BOB "eth_newFilter" "bob" 2; ask ALICE "eth_newFilter" "alice" 1; ask BOB "eth_uninstallFilter" "one" 2;
   NewChain chain2; Prune; ask ALICE "eth_getFilterChanges" "one" 1; ask BOB "eth_sendRawTransaction" "tx" 2;
   ask ALICE "eth_sendRawTransaction" "tx" 1; ask ALICE "eth_getBalance" "alice" 1; ask BOB "eth_getBalance" "bob" 2; Evict (W:=toy_wire) 2;
   ask ALICE "eth_getBalance" "bob" 1; ask ALICE "eth_getFilterLogs" "two" 1].

Abbreviation toy_observed := (observed toy_eth toy_ser 3 1337 1 toy_laws (fun _ => 0)).

Abbreviation ToyNode := (@Node toy_wire ToyChain ToyReg _ _).

(** The methods outside the runs are refused. *)
Definition no {A} : Api ToyNode A := fun n => (Err (internal "unavailable"), n).
Definition api_with (balance : Z -> option unit -> AuthContext -> Api ToyNode (list Z))
    (blocks : BlockNumberOrTag -> bool -> AuthContext -> Api ToyNode (list Z)) : ZoneRpcApi toy_wire ToyNode :=
  mkApi toy_wire ToyNode no no no no no no no (fun _ _ _ => no) balance (fun _ _ _ => no)
    blocks (fun _ _ _ => no) (fun _ _ => no) (fun _ _ => no) (fun _ _ _ _ => no) (fun _ _ _ _ => no)
    (fun _ _ => no) (fun _ _ => no) (fun _ _ => no) (fun _ _ => no) (fun _ _ => no) (fun _ _ => no) (fun _ _ => no)
    (fun _ => no) (fun _ _ => no) (fun _ => no) (fun _ => no) (fun _ _ => no) (fun _ _ => no) (fun _ _ => no)
    (fun _ _ => no) (fun _ => no) (fun _ _ _ => no) (fun _ _ _ => no) (fun _ _ _ _ _ _ => no) (fun _ _ => no)
    (fun _ _ => no) (fun _ _ => no) (fun _ _ => no) (fun _ _ => no) (fun _ _ => no).
Definition no_api : ZoneRpcApi toy_wire ToyNode := api_with (fun _ _ _ => no) (fun _ _ _ => no).

Lemma chains_alike : same_view toy_eth 1 toy_laws ALICE chain1 chain2.
Proof. split; try reflexivity. intros r b (Hf & _ & _). destruct r. cbn in *. by rewrite Hf. Qed.

Lemma toy_good X c : (forall l, l ∈ toy_logs c -> topic0 l <> Some 0) -> good toy_eth toy_laws X ALICE (toy_node c).
Proof. intros Hz. split; [exact Hz|done..]. Qed.

Lemma chain_topics c : c ∈ [chain0; chain1; chain2] -> no_zero_topic toy_eth toy_laws c.
Proof.
  intros Hc l Hl. repeat (apply elem_of_cons in Hc as [->|Hc]; [cbn in Hl; set_unfold; naive_solver|]).
  by apply elem_of_nil in Hc.
Qed.

Ltac in_covered := left; apply (bool_decide_unpack _); vm_compute; exact I.
Ltac own := apply sim_own; [reflexivity|in_covered|reflexivity|by intros data [=]|].
Ltac theirs := apply sim_other_r; [discriminate|in_covered|discriminate|intros c Hz; split; [reflexivity|exact Hz]|].

(** Alice's transaction does the same on chains that look alike to her. *)
Lemma toy_submits : submits_alike toy_eth 1 toy_laws (toy_auth ALICE) [1].
Proof.
  intros c1 c2 a _ V Z1 Z2. cbn. split; [|done]. split; [done|]. split; [|by split].
  assert (Hb : toy_balance c1 ALICE = toy_balance c2 ALICE).
  { pose proof (v_balance _ _ _ _ _ _ V None) as E. cbn in E. congruence. }
  split; try apply V; try reflexivity.
  - intros b. cbn. by rewrite Hb.
  - intros r b (Hf & _). destruct r. cbn in Hf |- *. rewrite Hf. cbn. by rewrite Hb.
Qed.

Lemma runs_similar : similar toy_eth 1 toy_laws (fun id : Z => id = 1) ALICE run1 run2.
Proof.
  theirs. own. theirs.
  apply sim_chain; [exact chains_alike|apply chain_topics; set_solver|apply chain_topics; set_solver|].
  apply sim_prune_r. own. theirs.
  apply sim_own; [reflexivity|in_covered|reflexivity|intros data [= <-]; exact toy_submits|].
  own. theirs. apply sim_evict_r; [discriminate|]. own. own. apply sim_nil.
Qed.

Lemma private_rpc_noninterference_witness :
  toy_observed no_api ALICE run1 (toy_node chain0) = toy_observed no_api ALICE run2 (toy_node chain0) /\
  (fun r => (response_result r, response_error r)) <$> toy_observed no_api ALICE run1 (toy_node chain0) =
  [(Some [1], None); (Some [2], None); (Some [7], None); (Some [9], None); (Some [0], None);
   (None, Some (invalid_params "filter not found"))].
Proof.
  split; [|vm_compute; reflexivity].
  apply (private_rpc_noninterference toy_eth toy_ser 3 1337 1 toy_laws (fun _ => 0) no_api
           (fun id : Z => id = 1) ALICE run1 run2 (toy_node chain0) (toy_node chain0) runs_similar).
  apply low_refl, toy_good. intros l Hl. by apply elem_of_nil in Hl.
Defined.

(** ** An answer that shows a position in the block *)

Definition store (chain : list Log) (f : Filter) : option (list Log) :=
  match toy_select (mkToy 0 chain (fun _ => 0)) f with Ok l => Some l | Err _ => None end.

(** Transfer history shows how busy a block was.  In two chains that every
    other method shows alike to Alice, her own transfer is the first log of its
    block in one and comes after a transfer between others in the other; the
    rows of [zone_get_my_transfers] differ, in the index they carry. *)
Theorem transfers_reveal_position :
  let rows c := zone_get_my_transfers (store (toy_logs c)) transfer_query_default ALICE in
  same_view toy_eth 1 toy_laws ALICE chain1 chain2 /\
  (exists p1 p2, rows chain1 = Ok p1 /\ rows chain2 = Ok p2 /\
     te_log_index <$> items p1 = [0] /\ te_log_index <$> items p2 = [1]).
Proof.
  split; [exact chains_alike|].
  do 2 eexists. split; [vm_compute; reflexivity|]. split; [vm_compute; reflexivity|]. split; reflexivity.
Qed.

(** ** An implementation that would tell Bob more, and anyone full blocks *)

Definition chatty_api : ZoneRpcApi toy_wire ToyNode :=
  api_with (fun a _ auth => if auth_caller auth =? ALICE then no else fun n => (Ok [toy_balance (n_chain n) a], n))
    (fun _ full _ => if full then fun n => (Ok [0xF011], n) else no).

Definition one_request (text : string) : result string (JsonRpcRequest toy_wire) :=
  Ok (@mkJsonRequest toy_wire "eth_getBlockByNumber" (Some text) 9).

Lemma dispatch_confined_witness :
  let ask api text := handle_rpc (fun _ => 0) api (fun _ => Err "no batch") one_request
    (Ok (toy_auth ALICE)) (Some text) (toy_node chain1) in
  ask no_api "full" = ask chatty_api "full" /\ ask no_api "hashes" = ask chatty_api "hashes".
Proof.
  assert (Ha : agree_for (toy_auth ALICE) no_api chatty_api) by (split; reflexivity).
  cbv zeta. split; exact (dispatch_confined (fun _ => 0) (toy_auth ALICE) no_api chatty_api Ha _ _ _ _).
Defined.
