(* ===== verification/Outbox.v ===== *)
(** * The zone outbox

    specs/ref-impls/src/zone/ZoneOutbox.sol: withdrawal requests, the
    bounce-backs of the inbox, and [finalizeWithdrawalBatch], which turns the
    pending requests into a hash chain.  A call that reverts leaves no trace.
    Solidity's checked arithmetic reverts with [Panic].  The token ledger, the
    enabled tokens and the curve check of a reveal key are parameters. *)

From stdpp Require Import gmap list.
From S2P Require Import Prelude.
From S2P Require Import Withdrawals.
From S2P Require Import Settlement.
#[local] Open Scope Z_scope.

Definition MAX_CALLBACK_DATA_SIZE : nat := 1024.
Definition MAX_GAS_FEE_RATE : Z := 1000000000000000000.
Definition WITHDRAWAL_BASE_GAS : Z := 50000.
Definition REVEAL_TO_KEY_LENGTH : nat := 33.
Definition AUTHENTICATED_WITHDRAWAL_CIPHERTEXT_LENGTH : nat := 113.

Record PendingWithdrawal := mkPending {
  pw_token : Z; pw_sender : Z; pw_txHash : Z; pw_to : Z; pw_amount : Z; pw_fee : Z; pw_memo : Z;
  pw_gasLimit : Z; pw_fallbackRecipient : Z; pw_callbackData : list Z; pw_revealTo : list Z
}.

Record Outbox := mkOutbox {
  o_tempoGasRate : Z;
  o_nextWithdrawalIndex : Z;
  o_withdrawalBatchIndex : Z;
  o_lastBatch : Z * Z;
  o_pendingWithdrawals : list PendingWithdrawal;
  o_pendingWithdrawalsHead : nat;
  o_maxWithdrawalsPerBlock : Z;
  o_withdrawalsThisBlock : Z;
  o_currentBlockNumber : Z;
  o_lastFinalizedTimestamp : Z
}.

Inductive OutboxEvent :=
  | TempoGasRateUpdated (rate : Z)
  | MaxWithdrawalsPerBlockUpdated (max : Z)
  | Requested (e : WithdrawalRequested)
  | BatchFinalized (withdrawalQueueHash withdrawalBatchIndex : Z).

Inductive OutboxError :=
  | InvalidFallbackRecipient | TokenNotEnabled | CallbackDataTooLarge | GasFeeRateTooHigh | TransferFailed
  | OnlySequencer | InvalidBlockNumber | TooManyWithdrawalsThisBlock | InvalidRevealTo | InvalidCurrentTxHash
  | InvalidWithdrawalCount | InvalidEncryptedSenderCount | InvalidEncryptedSenderLength | GasLimitTooHigh
  | OnlyZoneInbox | Panic.

(** The message and block a call runs in; [e_tx_hash] is the answer of the
    transaction context precompile. *)
Record CallEnv := mkCallEnv {
  e_sender : Z; e_block_number : Z; e_timestamp : Z; e_tx_hash : Z
}.

Inductive OutboxCall :=
  | setTempoGasRate (rate : Z)
  | setMaxWithdrawalsPerBlock (max : Z)
  | requestWithdrawal (token to amount memo gasLimit fallbackRecipient : Z) (data revealTo : list Z)
  | enqueueDepositBounceBack (token amount bouncebackRecipient : Z)
  | finalizeWithdrawalBatch (count blockNumber : Z) (encryptedSenders : list (list Z)).

Section Contract.
Context {Ledger : Type} (keccak256 : list Z -> Z) (abi_encode_params : Withdrawal -> Z -> list Z).
Context (sequencer : Z) (isEnabledToken : Z -> bool) (valid_reveal_key : list Z -> bool).
(** [transferFrom] to the outbox followed by [burn]; [None] reverts. *)
Context (take_tokens : Ledger -> Z -> Z -> Z -> option Ledger).

(** The contract's storage, the tokens, and the events of the run, each with
    the hash of its transaction. *)
Record OState := mkOState { os_outbox : Outbox; os_ledger : Ledger; os_events : list (OutboxEvent * Z) }.
Abbreviation OM := (M OState OutboxError).

Definition on_outbox (f : Outbox -> Outbox) : OM unit :=
  modify (fun s => mkOState (f (os_outbox s)) (os_ledger s) (os_events s)).
Definition emit (env : CallEnv) (ev : OutboxEvent) : OM unit :=
  modify (fun s => mkOState (os_outbox s) (os_ledger s) (os_events s ++ [(ev, e_tx_hash env)])).
Definition outbox : OM Outbox := s ← get; mret (os_outbox s).
Definition panic_none {A} (o : option A) : OM A := lift_option Panic o.

Definition set_rate (r : Z) (o : Outbox) : Outbox :=
  mkOutbox r (o_nextWithdrawalIndex o) (o_withdrawalBatchIndex o) (o_lastBatch o) (o_pendingWithdrawals o)
    (o_pendingWithdrawalsHead o) (o_maxWithdrawalsPerBlock o) (o_withdrawalsThisBlock o) (o_currentBlockNumber o)
    (o_lastFinalizedTimestamp o).
Definition set_max (m : Z) (o : Outbox) : Outbox :=
  mkOutbox (o_tempoGasRate o) (o_nextWithdrawalIndex o) (o_withdrawalBatchIndex o) (o_lastBatch o)
    (o_pendingWithdrawals o) (o_pendingWithdrawalsHead o) m (o_withdrawalsThisBlock o) (o_currentBlockNumber o)
    (o_lastFinalizedTimestamp o).
Definition set_block_count (block count : Z) (o : Outbox) : Outbox :=
  mkOutbox (o_tempoGasRate o) (o_nextWithdrawalIndex o) (o_withdrawalBatchIndex o) (o_lastBatch o)
    (o_pendingWithdrawals o) (o_pendingWithdrawalsHead o) (o_maxWithdrawalsPerBlock o) count block
    (o_lastFinalizedTimestamp o).
Definition push_pending (w : PendingWithdrawal) (o : Outbox) : Outbox :=
  mkOutbox (o_tempoGasRate o) (o_nextWithdrawalIndex o) (o_withdrawalBatchIndex o) (o_lastBatch o)
    (o_pendingWithdrawals o ++ [w]) (o_pendingWithdrawalsHead o) (o_maxWithdrawalsPerBlock o)
    (o_withdrawalsThisBlock o) (o_currentBlockNumber o) (o_lastFinalizedTimestamp o).
Definition set_next_index (i : Z) (o : Outbox) : Outbox :=
  mkOutbox (o_tempoGasRate o) i (o_withdrawalBatchIndex o) (o_lastBatch o) (o_pendingWithdrawals o)
    (o_pendingWithdrawalsHead o) (o_maxWithdrawalsPerBlock o) (o_withdrawalsThisBlock o) (o_currentBlockNumber o)
    (o_lastFinalizedTimestamp o).
Definition clear_pending (o : Outbox) : Outbox :=
  mkOutbox (o_tempoGasRate o) (o_nextWithdrawalIndex o) (o_withdrawalBatchIndex o) (o_lastBatch o)
    [] 0 (o_maxWithdrawalsPerBlock o) (o_withdrawalsThisBlock o) (o_currentBlockNumber o)
    (o_lastFinalizedTimestamp o).
Definition set_batch (hash index timestamp : Z) (o : Outbox) : Outbox :=
  mkOutbox (o_tempoGasRate o) (o_nextWithdrawalIndex o) index (hash, index) (o_pendingWithdrawals o)
    (o_pendingWithdrawalsHead o) (o_maxWithdrawalsPerBlock o) (o_withdrawalsThisBlock o) (o_currentBlockNumber o)
    timestamp.

Definition only_sequencer (env : CallEnv) : OM unit :=
  reject_if (negb (e_sender env =? 0) && negb (e_sender env =? sequencer)) OnlySequencer.

(** [getPendingWithdrawals] *)
Definition getPendingWithdrawals (o : Outbox) : list PendingWithdrawal :=
  drop (o_pendingWithdrawalsHead o) (o_pendingWithdrawals o).

Definition validateRevealTo (revealTo : list Z) : OM unit :=
  match revealTo with
  | [] => mret tt
  | prefix :: _ =>
    reject_if (negb (length revealTo =? REVEAL_TO_KEY_LENGTH)%nat) InvalidRevealTo;;
    reject_if (negb ((prefix =? 2) || (prefix =? 3))) InvalidRevealTo;;
    reject_if (negb (valid_reveal_key revealTo)) InvalidRevealTo
  end.

(** [_calculateWithdrawalFee], in 64 and 128 bits. *)
Definition calculateWithdrawalFee (gasLimit : Z) (o : Outbox) : OM Z :=
  gas ← panic_none (checked_add U64_MAX WITHDRAWAL_BASE_GAS gasLimit);
  panic_none (checked_mul U128_MAX gas (o_tempoGasRate o)).

Definition count_request (env : CallEnv) : OM unit :=
  o ← outbox;
  if 0 <? o_maxWithdrawalsPerBlock o then
    let count := if e_block_number env =? o_currentBlockNumber o then o_withdrawalsThisBlock o else 0 in
    reject_if (o_maxWithdrawalsPerBlock o <=? count) TooManyWithdrawalsThisBlock;;
    on_outbox (set_block_count (e_block_number env) (count + 1))
  else mret tt.

(** Push a withdrawal, take an index, and tell. *)
Definition record_request (env : CallEnv) (w : PendingWithdrawal) : OM unit :=
  on_outbox (push_pending w);;
  o ← outbox;
  next ← panic_none (checked_add U64_MAX (o_nextWithdrawalIndex o) 1);
  on_outbox (set_next_index next);;
  emit env (Requested (mkRequested (o_nextWithdrawalIndex o) (pw_sender w) (pw_token w) (pw_to w) (pw_amount w)
    (pw_fee w) (pw_memo w) (pw_gasLimit w) (pw_fallbackRecipient w) (pw_callbackData w) (pw_revealTo w))).

Definition request_withdrawal (env : CallEnv) (token to amount memo gasLimit fallbackRecipient : Z)
    (data revealTo : list Z) : OM unit :=
  reject_if (fallbackRecipient =? 0) InvalidFallbackRecipient;;
  reject_if (negb (isEnabledToken token)) TokenNotEnabled;;
  reject_if (MAX_WITHDRAWAL_GAS_LIMIT <? gasLimit) GasLimitTooHigh;;
  reject_if (MAX_CALLBACK_DATA_SIZE <? length data)%nat CallbackDataTooLarge;;
  validateRevealTo revealTo;;
  count_request env;;
  o ← outbox;
  fee ← calculateWithdrawalFee gasLimit o;
  totalBurn ← panic_none (checked_add U128_MAX amount fee);
  reject_if (e_tx_hash env =? 0) InvalidCurrentTxHash;;
  s ← get;
  ledger ← lift_option TransferFailed (take_tokens (os_ledger s) token (e_sender env) totalBurn);
  modify (fun s => mkOState (os_outbox s) ledger (os_events s));;
  record_request env (mkPending token (e_sender env) (e_tx_hash env) to amount fee memo gasLimit fallbackRecipient
    data revealTo).

Definition enqueue_deposit_bounce_back (env : CallEnv) (token amount bouncebackRecipient : Z) : OM unit :=
  reject_if (negb (e_sender env =? ZONE_INBOX_ADDRESS)) OnlyZoneInbox;;
  record_request env (mkPending token 0 0 bouncebackRecipient amount 0 0 0 0 [] []).

Definition validate_encrypted_sender (w : PendingWithdrawal) (encryptedSender : list Z) : bool :=
  Nat.eqb (length encryptedSender) (match pw_revealTo w with [] => 0%nat | _ => AUTHENTICATED_WITHDRAWAL_CIPHERTEXT_LENGTH end).

Definition to_withdrawal (w : PendingWithdrawal) (encryptedSender : list Z) : Withdrawal :=
  mkWithdrawal (pw_token w) (sender_tag keccak256 (pw_sender w) (pw_txHash w)) (pw_to w) (pw_amount w) (pw_fee w)
    (pw_memo w) (pw_gasLimit w) (pw_fallbackRecipient w) (pw_callbackData w) encryptedSender.

(** The loop over the pending withdrawals, newest first, with the hash so far. *)
Fixpoint build_chain (pending : list (PendingWithdrawal * list Z)) (hash : Z) : option Z :=
  match pending with
  | [] => Some hash
  | (w, sender) :: rest =>
    if validate_encrypted_sender w sender then
      build_chain rest (hash_link keccak256 abi_encode_params (to_withdrawal w sender) hash)
    else None
  end.

(** The batch takes every pending withdrawal, so the array is deleted and its
    head reset. *)
Definition finalize_withdrawal_batch (env : CallEnv) (count blockNumber : Z) (encryptedSenders : list (list Z))
    : OM Z :=
  only_sequencer env;;
  reject_if (negb (blockNumber =? e_block_number env mod (U64_MAX + 1))) InvalidBlockNumber;;
  o ← outbox;
  let pending := getPendingWithdrawals o in
  reject_if (negb (count =? Z.of_nat (length pending))) InvalidWithdrawalCount;;
  reject_if (negb (Z.of_nat (length encryptedSenders) =? count)) InvalidEncryptedSenderCount;;
  hash ← (if 0 <? count then
            hash ← lift_option InvalidEncryptedSenderLength
              (build_chain (rev (zip pending encryptedSenders)) EMPTY_SENTINEL);
            on_outbox clear_pending;; mret hash
          else mret 0);
  index ← panic_none (checked_add U64_MAX (o_withdrawalBatchIndex o) 1);
  on_outbox (set_batch hash index (e_timestamp env mod (U64_MAX + 1)));;
  emit env (BatchFinalized hash index);;
  mret hash.

Definition set_tempo_gas_rate (env : CallEnv) (rate : Z) : OM unit :=
  only_sequencer env;;
  reject_if (MAX_GAS_FEE_RATE <? rate) GasFeeRateTooHigh;;
  on_outbox (set_rate rate);;
  emit env (TempoGasRateUpdated rate).

Definition set_max_withdrawals_per_block (env : CallEnv) (max : Z) : OM unit :=
  only_sequencer env;;
  on_outbox (set_max max);;
  emit env (MaxWithdrawalsPerBlockUpdated max).

Definition outbox_call (env : CallEnv) (c : OutboxCall) : OM unit :=
  match c with
  | setTempoGasRate rate => set_tempo_gas_rate env rate
  | setMaxWithdrawalsPerBlock max => set_max_withdrawals_per_block env max
  | requestWithdrawal token to amount memo gas fallback data reveal =>
    request_withdrawal env token to amount memo gas fallback data reveal
  | enqueueDepositBounceBack token amount recipient => enqueue_deposit_bounce_back env token amount recipient
  | finalizeWithdrawalBatch count block senders => finalize_withdrawal_batch env count block senders;; mret tt
  end.

(** A run: calls in their environments, the reverted ones without effect. *)
Definition outbox_step (s : OState) (c : CallEnv * OutboxCall) : OState :=
  match outbox_call c.1 c.2 s with Ok (_, s') => s' | Err _ => s end.
Definition outbox_run (calls : list (CallEnv * OutboxCall)) (s : OState) : OState := foldl outbox_step s calls.
End Contract.
