(* ===== verification/OutboxProofs.v ===== *)
(** * The zone outbox: batches and the sequencer's view of them

    What each call does to the pending list, and that the hash of a batch is
    the one the sequencer computes from the events ([from_requested_event] of
    Settlement.v), over every run of the contract. *)

From stdpp Require Import gmap list.
From S2P Require Import Prelude.
From S2P Require Import Withdrawals.
From S2P Require Import WithdrawalsProofs.
From S2P Require Import Settlement.
From S2P Require Import Outbox.
#[local] Open Scope Z_scope.

Section Contract.
Context {Ledger : Type} (keccak256 : list Z -> Z) (abi_encode_params : Withdrawal -> Z -> list Z).
Context (sequencer : Z) (isEnabledToken : Z -> bool) (valid_reveal_key : list Z -> bool).
Context (take_tokens : Ledger -> Z -> Z -> Z -> option Ledger).
Abbreviation OState := (@OState Ledger).
Abbreviation to_withdrawal := (to_withdrawal keccak256).
Abbreviation build_chain := (build_chain keccak256 abi_encode_params).
Abbreviation outbox_call := (outbox_call keccak256 abi_encode_params sequencer isEnabledToken valid_reveal_key take_tokens).
Abbreviation finalize := (finalize_withdrawal_batch (Ledger:=Ledger) keccak256 abi_encode_params sequencer).
Abbreviation outbox_run := (outbox_run keccak256 abi_encode_params sequencer isEnabledToken valid_reveal_key take_tokens).

(** ** Pending withdrawals are the requests since the last batch *)

(** The requests after the last [BatchFinalized], each with its transaction. *)
Fixpoint since_last (acc : list (WithdrawalRequested * Z)) (evs : list (OutboxEvent * Z))
    : list (WithdrawalRequested * Z) :=
  match evs with
  | [] => acc
  | (Requested e, tx) :: evs' => since_last (acc ++ [(e, tx)]) evs'
  | (BatchFinalized _ _, _) :: evs' => since_last [] evs'
  | _ :: evs' => since_last acc evs'
  end.

(** A pending withdrawal and the event it was announced with: a request of a
    user, or a bounce-back of the inbox. *)
Definition announced (w : PendingWithdrawal) (r : WithdrawalRequested * Z) : Prop :=
  let '(e, tx) := r in
  e = mkRequested (wr_withdrawalIndex e) (pw_sender w) (pw_token w) (pw_to w) (pw_amount w) (pw_fee w) (pw_memo w)
        (pw_gasLimit w) (pw_fallbackRecipient w) (pw_callbackData w) (pw_revealTo w) /\
  (pw_fallbackRecipient w <> 0 /\ pw_txHash w = tx \/
   pw_fallbackRecipient w = 0 /\ pw_sender w = 0 /\ pw_txHash w = 0).

Definition tracks (s : OState) : Prop :=
  o_pendingWithdrawalsHead (os_outbox s) = 0%nat /\
  Forall2 announced (o_pendingWithdrawals (os_outbox s)) (since_last [] (os_events s)).

Lemma since_last_app evs1 evs2 acc : since_last acc (evs1 ++ evs2) = since_last (since_last acc evs1) evs2.
Proof. revert acc. induction evs1 as [|[[] ?] evs1 IH]; intros acc; cbn; [done|apply IH..]. Qed.

(** Withdrawals built from the events are those built from the pending list. *)
Lemma announced_withdrawal w r sender :
  announced w r -> from_requested_event keccak256 r.1 r.2 sender = to_withdrawal w sender.
Proof.
  destruct r as [e tx]. intros [-> Hw]. unfold from_requested_event, to_withdrawal. cbn.
  destruct Hw as [[Hf ->]|(Hf & Hs & Ht)].
  - rewrite (proj2 (Z.eqb_neq _ 0) Hf), andb_false_r. done.
  - by rewrite Hf, Hs, Ht.
Qed.

Lemma build_chain_queue pending hash senders :
  build_chain (rev (zip pending senders)) EMPTY_SENTINEL = Some hash -> pending <> [] ->
  length senders = length pending ->
  hash = queue_hash keccak256 abi_encode_params (zip_with to_withdrawal pending senders).
Proof.
  intros Hb Hne Hlen.
  assert (Hgen : forall l h0 h, build_chain (rev l) h0 = Some h ->
    h = foldr (hash_link keccak256 abi_encode_params) h0 ((fun p => to_withdrawal p.1 p.2) <$> l)).
  { intros l. induction l as [|[w x] l IH] using rev_ind; intros h0 h H; cbn in H; [by injection H|].
    rewrite rev_app_distr in H. cbn in H. destruct (validate_encrypted_sender w x); [|done].
    apply IH in H. rewrite H, fmap_app, foldr_app. done. }
  apply Hgen in Hb. rewrite Hb.
  assert (E : (fun p => to_withdrawal p.1 p.2) <$> zip pending senders = zip_with to_withdrawal pending senders).
  { clear. revert senders. induction pending as [|w p IH]; intros [|x senders]; try done. cbn. f_equal. apply IH. }
  rewrite E. destruct pending as [|w p], senders as [|x senders]; try done. clear.
  unfold queue_hash. cbn [zip_with]. by rewrite foldl_chain.
Qed.

Lemma record_request_tracks env w s s' u :
  tracks s -> record_request env w s = Ok (u, s') ->
  (pw_fallbackRecipient w <> 0 /\ pw_txHash w = e_tx_hash env \/
   pw_fallbackRecipient w = 0 /\ pw_sender w = 0 /\ pw_txHash w = 0) ->
  tracks s' /\ getPendingWithdrawals (os_outbox s') = getPendingWithdrawals (os_outbox s) ++ [w] /\
  exists e, os_events s' = os_events s ++ [(Requested e, e_tx_hash env)] /\ announced w (e, e_tx_hash env).
Proof.
  intros [Hh Ht] H Hw. unfold record_request in H. inv_M H. unfold outbox in Hm0. inv_M Hm0.
  unfold panic_none in *. inv_M Hm1. unfold on_outbox, emit in *. inv_M Hm. inv_M Hm2. unfold modify in *. simplify_eq.
  cbn. unfold tracks, getPendingWithdrawals. cbn. rewrite Hh. cbn. split; [|split; [done|eexists; split; [reflexivity|split; [reflexivity|done]]]].
  split; [done|]. rewrite since_last_app. cbn. apply Forall2_app; [done|].
  apply Forall2_cons_2; [split; [reflexivity|done]|apply Forall2_nil_2].
Qed.

(** Calls that touch neither the pending list nor the requests. *)
Lemma quiet_tracks s s' :
  o_pendingWithdrawalsHead (os_outbox s') = o_pendingWithdrawalsHead (os_outbox s) ->
  o_pendingWithdrawals (os_outbox s') = o_pendingWithdrawals (os_outbox s) ->
  since_last [] (os_events s') = since_last [] (os_events s) -> tracks s -> tracks s'.
Proof. unfold tracks. by intros -> -> ->. Qed.

Ltac open_M :=
  repeat match goal with
  | H : mbind _ _ _ = Ok _ |- _ => inv_M H
  | H : outbox _ = Ok _ |- _ => unfold outbox in H; inv_M H
  | H : panic_none _ _ = Ok _ |- _ => unfold panic_none in H; inv_M H
  | H : on_outbox _ _ = Ok _ |- _ => unfold on_outbox in H; inv_M H
  | H : emit _ _ _ = Ok _ |- _ => unfold emit in H; inv_M H
  | H : only_sequencer _ _ _ = Ok _ |- _ => unfold only_sequencer in H; inv_M H
  end.

Lemma validateRevealTo_quiet reveal (s s' : OState) u :
  validateRevealTo valid_reveal_key reveal s = Ok (u, s') -> s' = s.
Proof. unfold validateRevealTo. destruct reveal; intros H; inv_M H; done. Qed.

Lemma count_request_quiet env (s s' : OState) u :
  count_request env s = Ok (u, s') ->
  os_events s' = os_events s /\
  o_pendingWithdrawalsHead (os_outbox s') = o_pendingWithdrawalsHead (os_outbox s) /\
  o_pendingWithdrawals (os_outbox s') = o_pendingWithdrawals (os_outbox s).
Proof. unfold count_request. intros H. open_M. destruct (0 <? _); open_M; [|by inv_M H]. done. Qed.

(** A request of a user appends one withdrawal of that user. *)
Lemma request_appends env token to amount memo gas fallback data reveal (s s' : OState) u :
  tracks s ->
  request_withdrawal isEnabledToken valid_reveal_key take_tokens env token to amount memo gas fallback data reveal s
    = Ok (u, s') ->
  tracks s' /\ e_tx_hash env <> 0 /\ fallback <> 0 /\ exists fee e,
    let w := mkPending token (e_sender env) (e_tx_hash env) to amount fee memo gas fallback data reveal in
    getPendingWithdrawals (os_outbox s') = getPendingWithdrawals (os_outbox s) ++ [w] /\
    os_events s' = os_events s ++ [(Requested e, e_tx_hash env)] /\ announced w (e, e_tx_hash env).
Proof.
  intros Ht H. unfold request_withdrawal in H. open_M.
  repeat match goal with
  | H : validateRevealTo _ _ _ = Ok _ |- _ => apply validateRevealTo_quiet in H as ->
  | H : count_request _ _ = Ok _ |- _ => apply count_request_quiet in H as (He & Hh & Hp)
  | H : calculateWithdrawalFee _ _ _ = Ok _ |- _ => unfold calculateWithdrawalFee in H; open_M
  | H : (_ =? 0) = false |- _ => apply Z.eqb_neq in H
  end.
  match type of H with record_request _ _ ?s1 = _ => assert (Ht' : tracks s1) end.
  { apply (quiet_tracks s); cbn; congruence. }
  apply (record_request_tracks _ _ _ _ _ Ht') in H as (Ht1 & Hp1 & e & He1 & Ha1); [|by left].
  split; [done|]. split; [done|]. split; [done|]. eexists _, e. rewrite Hp1, He1. unfold getPendingWithdrawals. cbn.
  rewrite Hh, Hp, He. done.
Qed.

Lemma bounce_back_appends env token amount recipient (s s' : OState) u :
  tracks s -> enqueue_deposit_bounce_back env token amount recipient s = Ok (u, s') ->
  tracks s' /\ e_sender env = ZONE_INBOX_ADDRESS /\ exists e,
    let w := mkPending token 0 0 recipient amount 0 0 0 0 [] [] in
    getPendingWithdrawals (os_outbox s') = getPendingWithdrawals (os_outbox s) ++ [w] /\
    os_events s' = os_events s ++ [(Requested e, e_tx_hash env)] /\ announced w (e, e_tx_hash env).
Proof.
  intros Ht H. unfold enqueue_deposit_bounce_back in H. open_M.
  apply (record_request_tracks _ _ _ _ _ Ht) in H as (Ht1 & Hp1 & e & He1 & Ha1); [|by right].
  split; [done|]. split; [by apply Z.eqb_eq, negb_false_iff|]. by exists e.
Qed.

(** The hash of a batch, and the list emptied. *)
Definition batch_hash count (pending : list PendingWithdrawal) (senders : list (list Z)) : M OState OutboxError Z :=
  if 0 <? count then
    hash ← lift_option InvalidEncryptedSenderLength (build_chain (rev (zip pending senders)) EMPTY_SENTINEL);
    on_outbox clear_pending;; mret hash
  else mret 0.

Lemma batch_hash_takes senders (s s' : OState) hash :
  o_pendingWithdrawalsHead (os_outbox s) = 0%nat ->
  let pending := getPendingWithdrawals (os_outbox s) in
  length senders = length pending ->
  batch_hash (Z.of_nat (length pending)) pending senders s = Ok (hash, s') ->
  hash = queue_hash keccak256 abi_encode_params (zip_with to_withdrawal pending senders) /\
  os_events s' = os_events s /\ o_pendingWithdrawals (os_outbox s') = [] /\
  o_pendingWithdrawalsHead (os_outbox s') = 0%nat.
Proof.
  intros Hh pending Hlen H. unfold batch_hash in H.
  destruct (Z.ltb_spec 0 (Z.of_nat (length pending))) as [Hc|Hc]; open_M.
  - match goal with H : build_chain _ _ = Some _ |- _ => apply build_chain_queue in H end; [done| |done].
    intros E. rewrite E in Hc. cbn in Hc. lia.
  - inv_M H. unfold pending, getPendingWithdrawals in *. rewrite Hh in *. cbn [drop] in *.
    by destruct (o_pendingWithdrawals (os_outbox s')).
Qed.

(** A batch takes every pending withdrawal, in order. *)
Lemma finalize_takes env count block senders (s s' : OState) hash :
  tracks s -> finalize env count block senders s = Ok (hash, s') ->
  let pending := getPendingWithdrawals (os_outbox s) in
  count = Z.of_nat (length pending) /\ length senders = length pending /\
  hash = queue_hash keccak256 abi_encode_params (zip_with to_withdrawal pending senders) /\
  tracks s' /\ getPendingWithdrawals (os_outbox s') = [] /\ since_last [] (os_events s') = [] /\
  os_events s' = os_events s ++ [(BatchFinalized hash (o_withdrawalBatchIndex (os_outbox s) + 1), e_tx_hash env)] /\
  o_withdrawalBatchIndex (os_outbox s') = o_withdrawalBatchIndex (os_outbox s) + 1.
Proof.
  intros [Hh Ht] H pending. unfold finalize_withdrawal_batch in H. cbv zeta in H.
  fold (batch_hash count (getPendingWithdrawals (os_outbox s)) senders) in H. open_M.
  repeat match goal with H : negb _ = false |- _ => apply negb_false_iff in H end.
  match goal with H : (_ =? count) = true |- _ => apply Z.eqb_eq in H; rename H into Hs end.
  match goal with H : (count =? _) = true |- _ => apply Z.eqb_eq in H; rename H into Hc end.
  match goal with H : checked_add _ _ _ = Some _ |- _ => apply checked_add_Some in H as [-> _] end.
  match goal with H : _ = Ok (_, ?s3) |- context [os_outbox ?s3] => rename H into Hb end.
  assert (Hlen : length senders = length pending) by (unfold pending; lia). rewrite Hc in Hb.
  apply batch_hash_takes in Hb as (-> & He & Hp & Hh'); [|done|done].
  unfold tracks, getPendingWithdrawals at 2. cbn. rewrite Hp, Hh', He, since_last_app. cbn. done.
Qed.

(** ** Calls other than [finalizeWithdrawalBatch] *)

Definition is_finalize (c : OutboxCall) : bool :=
  match c with finalizeWithdrawalBatch _ _ _ => true | _ => false end.
Definition is_batch (ev : OutboxEvent) : bool := match ev with BatchFinalized _ _ => true | _ => false end.

(** The requests among some events. *)
Definition requests_of (evs : list (OutboxEvent * Z)) : list (WithdrawalRequested * Z) :=
  omap (fun p => match p.1 with Requested e => Some (e, p.2) | _ => None end) evs.

(** Events are added, none of them a batch; the pending list grows by what the
    requests among them announce. *)
Definition grows (s s' : OState) : Prop :=
  tracks s' /\ o_withdrawalBatchIndex (os_outbox s') = o_withdrawalBatchIndex (os_outbox s) /\ exists evs new,
  os_events s' = os_events s ++ evs /\ Forall (fun p => is_batch p.1 = false) evs /\
  getPendingWithdrawals (os_outbox s') = getPendingWithdrawals (os_outbox s) ++ new /\
  Forall2 announced new (requests_of evs).

Lemma grows_refl s : tracks s -> grows s s.
Proof. intros Ht. split; [done|]. split; [done|]. exists [], []. rewrite !app_nil_r. repeat constructor. Qed.

Lemma grows_trans s1 s2 s3 : grows s1 s2 -> grows s2 s3 -> grows s1 s3.
Proof.
  intros (_ & Hi1 & evs1 & new1 & He1 & Hb1 & Hp1 & Ha1) (Ht & Hi2 & evs2 & new2 & He2 & Hb2 & Hp2 & Ha2).
  split; [done|]. split; [by rewrite Hi2|]. exists (evs1 ++ evs2), (new1 ++ new2). rewrite He2, He1, Hp2, Hp1, <-!app_assoc.
  split; [done|]. split; [by apply Forall_app|]. split; [done|].
  unfold requests_of. rewrite omap_app. by apply Forall2_app.
Qed.

Lemma call_keeps_index env c (s s' : OState) u :
  is_finalize c = false -> outbox_call env c s = Ok (u, s') ->
  o_withdrawalBatchIndex (os_outbox s') = o_withdrawalBatchIndex (os_outbox s).
Proof.
  intros Hf H. destruct c; cbn [Outbox.outbox_call] in H; [..|done].
  - unfold set_tempo_gas_rate in H. by open_M.
  - unfold set_max_withdrawals_per_block in H. by open_M.
  - unfold request_withdrawal, record_request, count_request in H. open_M.
    match goal with H : (if 0 <? ?m then _ else _) _ = _ |- _ => destruct (0 <? m) end; open_M;
      repeat match goal with
      | H : validateRevealTo _ _ _ = Ok _ |- _ => apply validateRevealTo_quiet in H as ->
      | H : calculateWithdrawalFee _ _ _ = Ok _ |- _ => unfold calculateWithdrawalFee in H; open_M
      | H : mret _ _ = Ok _ |- _ => inv_M H
      end; done.
  - unfold enqueue_deposit_bounce_back, record_request in H. by open_M.
Qed.

Lemma step_grows s c : tracks s -> is_finalize c.2 = false ->
  grows s (outbox_step keccak256 abi_encode_params sequencer isEnabledToken valid_reveal_key take_tokens s c).
Proof.
  intros Ht Hf. unfold outbox_step. destruct c as [env c]. cbn [fst snd] in *.
  destruct (outbox_call env c s) as [[u s']|e] eqn:H; [|by apply grows_refl].
  pose proof (call_keeps_index _ _ _ _ _ Hf H) as Hi.
  destruct c; cbn [Outbox.outbox_call] in H; [..|done].
  - unfold set_tempo_gas_rate in H. open_M.
    split; [apply (quiet_tracks s1); [done|done| |done]; cbn; by rewrite since_last_app|]. split; [done|].
    eexists [_], []. rewrite app_nil_r. repeat constructor.
  - unfold set_max_withdrawals_per_block in H. open_M.
    split; [apply (quiet_tracks s0); [done|done| |done]; cbn; by rewrite since_last_app|]. split; [done|].
    eexists [_], []. rewrite app_nil_r. repeat constructor.
  - apply request_appends in H as (Ht' & _ & _ & fee & e & Hp & He & Ha); [|done].
    split; [done|]. split; [done|]. eexists _, _. split; [exact He|]. split; [by repeat constructor|]. split; [exact Hp|].
    apply Forall2_cons_2; [exact Ha|apply Forall2_nil_2].
  - apply bounce_back_appends in H as (Ht' & _ & e & Hp & He & Ha); [|done].
    split; [done|]. split; [done|]. eexists _, _. split; [exact He|]. split; [by repeat constructor|]. split; [exact Hp|].
    apply Forall2_cons_2; [exact Ha|apply Forall2_nil_2].
Qed.

Lemma run_grows calls s : tracks s -> Forall (fun c => is_finalize c.2 = false) calls -> grows s (outbox_run calls s).
Proof.
  intros Ht Hc. revert s Ht. unfold Outbox.outbox_run. induction Hc as [|c calls Hf _ IH]; intros s Ht; [by apply grows_refl|].
  pose proof (step_grows s c Ht Hf) as Hg. eapply grows_trans; [exact Hg|]. apply IH, Hg.
Qed.

(** ** Every run *)

Lemma step_tracks s c : tracks s -> tracks (outbox_step keccak256 abi_encode_params sequencer isEnabledToken
  valid_reveal_key take_tokens s c).
Proof.
  intros Ht. unfold outbox_step. destruct c as [env c]. cbn [fst snd].
  destruct (outbox_call env c s) as [[u s']|e] eqn:H; [|done]. destruct c; cbn [Outbox.outbox_call] in H.
  - unfold set_tempo_gas_rate in H. open_M. apply (quiet_tracks s1); [done|done| |done].
    cbn. by rewrite since_last_app.
  - unfold set_max_withdrawals_per_block in H. open_M. apply (quiet_tracks s0); [done|done| |done].
    cbn. by rewrite since_last_app.
  - apply request_appends in H as [H _]; done.
  - apply bounce_back_appends in H as [H _]; done.
  - open_M. match goal with H : finalize _ _ _ _ _ = _ |- _ => apply finalize_takes in H end; naive_solver.
Qed.

Definition outbox_init (ledger : Ledger) : OState :=
  mkOState (mkOutbox 0 0 0 (0, 0) [] 0 0 0 0 0) ledger [].

Lemma run_tracks calls ledger : tracks (outbox_run calls (outbox_init ledger)).
Proof.
  unfold Outbox.outbox_run. assert (Hi : tracks (outbox_init ledger)) by (split; [done|apply Forall2_nil_2]).
  generalize dependent (outbox_init ledger). induction calls as [|c calls IH]; intros s Hs; [done|].
  apply IH. by apply step_tracks.
Qed.

(** C10. The sequencer rebuilds what the outbox committed to.  After any run of
    the outbox, a batch that is finalized has the hash of the withdrawals the
    sequencer builds from the [WithdrawalRequested] events since the last
    batch and the encrypted senders of the call, in order; it takes the next
    batch index and leaves nothing pending. *)
Theorem batch_rebuilt_from_events calls ledger env count block senders hash s' :
  let s := outbox_run calls (outbox_init ledger) in
  finalize env count block senders s = Ok (hash, s') ->
  let requests := since_last [] (os_events s) in
  length senders = length requests /\
  hash = queue_hash keccak256 abi_encode_params
    (zip_with (fun r sender => from_requested_event keccak256 r.1 r.2 sender) requests senders) /\
  os_events s' = os_events s ++ [(BatchFinalized hash (o_withdrawalBatchIndex (os_outbox s) + 1), e_tx_hash env)] /\
  getPendingWithdrawals (os_outbox s') = [].
Proof.
  intros s H requests. pose proof (run_tracks calls ledger) as Ht. fold s in Ht.
  pose proof (finalize_takes _ _ _ _ _ _ _ Ht H) as (_ & Hlen & Hh & _ & Hp & _ & He & _).
  destruct Ht as [H0 Ht]. fold requests in Ht. unfold getPendingWithdrawals in Hh, Hlen. rewrite H0 in Hh, Hlen.
  cbn [drop] in *. split; [by rewrite Hlen; apply Forall2_length in Ht|]. split; [|done]. rewrite Hh. f_equal.
  clear -Ht Hlen. revert senders Hlen. induction Ht as [|w r ws rs Hw _ IH]; intros [|x senders] [=]; [done|].
  cbn. rewrite (announced_withdrawal w r x Hw). f_equal. by apply IH.
Qed.
End Contract.
