(* ===== verification/Payload.v ===== *)
(** * The payload builder

    payload/src/builder.rs: one zone block per L1 block, built from the prepared
    L1 block, the pool's transactions and the pending withdrawals of the outbox;
    and the reads of TempoState in l1/src/ext.rs.  The EVM and the pool of the
    node are the record [Machine]: executing a transaction, simulating a view
    call, and the iterator over the best transactions.  [None] for the outcome
    of the pool loop is a build that was cancelled. *)

From stdpp Require Import list strings.
From S2P Require Import Prelude.
From S2P Require Import TempoState.
From S2P Require Import L1State.
From S2P Require Import DepositQueue.
From S2P Require Import PrepareBlock.
From S2P Require Import Outbox.
#[local] Open Scope Z_scope.

Definition DEFAULT_WITHDRAWAL_BATCH_INTERVAL_BLOCKS : Z := 120.

(** [ZonePayloadFactory::new] *)
Definition batch_interval (interval_blocks : Z) : Z := Z.max interval_blocks 1.

Definition ZONE_RPC_ERROR_PREFIX : string := "[zone rpc]".
Definition is_zone_rpc_error (err : string) : bool := String.prefix ZONE_RPC_ERROR_PREFIX err.

Definition remaining_block_gas (block_gas_limit cumulative_gas_used : Z) : Z :=
  saturating_sub block_gas_limit cumulative_gas_used.

Inductive BuildError :=
  | Provider (text : string)
  | Panicked
  | NumberMismatch (got expected : Z)
  | ParentHashMismatch (block got expected : Z)
  | EnvError (text : string)
  | PreExecution (text : string)
  | ViewReverted
  | ViewNoOutput
  | ViewUndecodable
  | EvmError (text : string)
  | AdvanceReverted (l1_block : Z)
  | NoEncryptor
  | EncryptionFailed (tx_hash : Z)
  | FinalizeReverted (block : Z)
  | FinishError (text : string)
  | OutOfSteps.

#[export] Instance build_bind : MBind (result BuildError) := fun A B f m =>
  match m with Ok a => f a | Err e => Err e end.

(** ** l1/src/ext.rs *)

Section Ext.
Context (storage : Z -> Z -> result string (option Z)).
Context (slot_TEMPO_BLOCK_HASH slot_TEMPO_BLOCK_NUMBER : Z).

Definition read_storage (slot : Z) : result BuildError Z :=
  match storage TEMPO_STATE_ADDRESS slot with
  | Ok o => Ok (default 0 o)
  | Err text => Err (Provider text)
  end.

(** [U256::to::<u64>] panics on a larger value. *)
Definition tempo_block_number : result BuildError Z :=
  number ← read_storage slot_TEMPO_BLOCK_NUMBER;
  if number <=? U64_MAX then Ok number else Err Panicked.
Definition tempo_block_hash : result BuildError Z := read_storage slot_TEMPO_BLOCK_HASH.
Definition tempo_num_hash : result BuildError NumHash :=
  number ← tempo_block_number; hash ← tempo_block_hash; Ok (mkNumHash number hash).
End Ext.

(** ** Transactions *)

Inductive SystemCall :=
  | advanceTempo (header : list Z) (deposits : list QueuedDeposit) (decryptions : list DecryptionData)
      (enabledTokens : list EnabledToken)
  | finalizeBatch (count block_number : Z) (encrypted_senders : list (list Z)).

Record SystemTx := mkSystemTx { st_to : Z; st_call : SystemCall }.

Definition build_finalize_withdrawal_batch_tx (count block_number : Z) (encrypted_senders : list (list Z)) : SystemTx :=
  mkSystemTx ZONE_OUTBOX_ADDRESS (finalizeBatch count block_number encrypted_senders).

Definition build_advance_tempo_tx (encode_header : SealedHeader -> list Z) (prepared : PreparedL1Block) : SystemTx :=
  mkSystemTx ZONE_INBOX_ADDRESS
    (advanceTempo (encode_header (pb_header prepared)) (queued_deposits prepared) (decryptions prepared)
       (pb_enabled_tokens prepared)).

(** ** The node *)

Inductive PoolOutcome (S : Type) :=
  | Executed (gas_used : Z) (s : S)
  | InvalidTx (nonce_too_low : bool)
  | InternalEvm (text : string)
  | OtherFailure (text : string).
Arguments Executed {S}.
Arguments InvalidTx {S}.
Arguments InternalEvm {S}.
Arguments OtherFailure {S}.

(** [mc_system] executes and commits a system transaction and says whether it
    succeeded; [mc_view] simulates a call of [getPendingWithdrawals] with a gas
    limit: whether it succeeded and what it returned. *)
Record Machine (S PoolTx Best Block : Type) := mkMachine {
  mc_state_at : Z -> result string S;
  mc_storage : S -> Z -> Z -> result string (option Z);
  mc_next_env : S -> result string (Z * Z);
  mc_open : S -> result string S;
  mc_pre : S -> result string S;
  mc_system : S -> SystemTx -> result string (bool * S);
  mc_view : S -> Z -> result string (bool * option (list Z));
  mc_decode_pending : list Z -> option (list PendingWithdrawal);
  mc_pool : S -> PoolTx -> PoolOutcome S;
  mc_gas_limit : PoolTx -> Z;
  mc_best : Z -> Best;
  mc_next : Best -> option (PoolTx * Best);
  mc_mark_invalid : PoolTx -> Best -> Best;
  mc_finish : S -> result string Block
}.
Arguments mc_state_at {S PoolTx Best Block}.
Arguments mc_storage {S PoolTx Best Block}.
Arguments mc_next_env {S PoolTx Best Block}.
Arguments mc_open {S PoolTx Best Block}.
Arguments mc_pre {S PoolTx Best Block}.
Arguments mc_system {S PoolTx Best Block}.
Arguments mc_view {S PoolTx Best Block}.
Arguments mc_decode_pending {S PoolTx Best Block}.
Arguments mc_pool {S PoolTx Best Block}.
Arguments mc_gas_limit {S PoolTx Best Block}.
Arguments mc_best {S PoolTx Best Block}.
Arguments mc_next {S PoolTx Best Block}.
Arguments mc_mark_invalid {S PoolTx Best Block}.
Arguments mc_finish {S PoolTx Best Block}.

Section Builder.
Context {S PoolTx Best Block : Type} (mc : Machine S PoolTx Best Block).
Context (encode_header : SealedHeader -> list Z) (slot_TEMPO_BLOCK_HASH slot_TEMPO_BLOCK_NUMBER : Z).
Context (withdrawal_batch_interval_blocks : Z).
Context (withdrawal_reveal_encryptor : option (list Z -> Z -> Z -> option (list Z))).
(** Whether the [n]-th look at the cancellation flag finds it set. *)
Context (is_cancelled : nat -> bool).

(** A transaction of the block. *)
Inductive BlockTx := System (tx : SystemTx) | Pool (tx : PoolTx).

Record BuiltPayload := mkPayload {
  bp_block_number : Z;
  bp_block : Block;
  bp_transactions : list BlockTx;
  bp_state : S
}.

Inductive BuildOutcome := Cancelled | Freeze (p : BuiltPayload).

Definition lift_err {A} (wrap : string -> BuildError) (r : result string A) : result BuildError A :=
  match r with Ok a => Ok a | Err text => Err (wrap text) end.

Definition execute_outbox_view_call (s : S) (gas_limit : Z) : result BuildError (list Z) :=
  x ← lift_err EvmError (mc_view mc s gas_limit);
  let '(success, output) := (x : bool * option (list Z)) in
  if success then
    match output with Some output => Ok output | None => Err ViewNoOutput end
  else Err ViewReverted.

Definition read_pending_withdrawals_from_outbox (s : S) (gas_limit : Z) : result BuildError (list PendingWithdrawal) :=
  output ← execute_outbox_view_call s gas_limit;
  match mc_decode_pending mc output with Some pending => Ok pending | None => Err ViewUndecodable end.

(** The loop over the pool's transactions: what was executed, and the gas. *)
Fixpoint pool_loop (fuel : nat) (block_gas_limit : Z) (best : Best) (s : S) (cumulative_gas_used : Z)
    (checks : nat) (done_ : list PoolTx) : result BuildError (option (S * Z * list PoolTx)) :=
  match fuel with
  | O => Err OutOfSteps
  | Datatypes.S fuel' =>
    match mc_next mc best with
    | None => Ok (Some (s, cumulative_gas_used, done_))
    | Some (pool_tx, best) =>
      if block_gas_limit <? wrapping_add U64_MAX cumulative_gas_used (mc_gas_limit mc pool_tx) then
        pool_loop fuel' block_gas_limit (mc_mark_invalid mc pool_tx best) s cumulative_gas_used checks done_
      else if is_cancelled checks then Ok None
      else
        match mc_pool mc s pool_tx with
        | Executed gas_used s' =>
          pool_loop fuel' block_gas_limit best s' (wrapping_add U64_MAX cumulative_gas_used gas_used)
            (Datatypes.S checks) (done_ ++ [pool_tx])
        | InvalidTx nonce_too_low =>
          let best := if negb nonce_too_low then mc_mark_invalid mc pool_tx best else best in
          pool_loop fuel' block_gas_limit best s cumulative_gas_used (Datatypes.S checks) done_
        | InternalEvm text =>
          if is_zone_rpc_error text then
            pool_loop fuel' block_gas_limit best s cumulative_gas_used (Datatypes.S checks) done_
          else Err (EvmError text)
        | OtherFailure text => Err (EvmError text)
        end
    end
  end.

(** One element of [encrypted_senders]. *)
Definition encrypt_sender (request : PendingWithdrawal) : result BuildError (list Z) :=
  match pw_revealTo request with
  | [] => Ok []
  | _ =>
    match withdrawal_reveal_encryptor with
    | None => Err NoEncryptor
    | Some encryptor =>
      match encryptor (pw_revealTo request) (pw_sender request) (pw_txHash request) with
      | Some c => Ok c
      | None => Err (EncryptionFailed (pw_txHash request))
      end
    end
  end.

(** [collect::<Result<Vec<_>, _>>()] *)
Fixpoint encrypt_senders (requests : list PendingWithdrawal) : result BuildError (list (list Z)) :=
  match requests with
  | [] => Ok []
  | r :: requests' => c ← encrypt_sender r; cs ← encrypt_senders requests'; Ok (c :: cs)
  end.

(** The end of a finalizing block. *)
Definition finalize_batch (s : S) (block_gas_limit cumulative_gas_used block_number : Z)
    : result BuildError (S * SystemTx) :=
  pending ← read_pending_withdrawals_from_outbox s (remaining_block_gas block_gas_limit cumulative_gas_used);
  encrypted_senders ← encrypt_senders pending;
  let count := Z.of_nat (length pending) in
  let finalize_tx := build_finalize_withdrawal_batch_tx count block_number encrypted_senders in
  x ← lift_err EvmError (mc_system mc s finalize_tx);
  let '(success, s) := (x : bool * S) in
  if success then Ok (s, finalize_tx) else Err (FinalizeReverted block_number).

Definition is_multiple_of (a b : Z) : bool := if b =? 0 then a =? 0 else a mod b =? 0.

Definition try_build (fuel : nat) (parent_hash block_gas_limit : Z) (prepared : PreparedL1Block)
    : result BuildError BuildOutcome :=
  sp ← lift_err Provider (mc_state_at mc parent_hash);
  stored_l1 ← tempo_num_hash (mc_storage mc sp) slot_TEMPO_BLOCK_HASH slot_TEMPO_BLOCK_NUMBER;
  let expected_tempo_block_number := wrapping_add U64_MAX (nh_number stored_l1) 1 in
  let header := pb_header prepared in
  if negb (h_number header =? expected_tempo_block_number) then
    Err (NumberMismatch (h_number header) expected_tempo_block_number)
  else if negb (h_parent_hash header =? nh_hash stored_l1) then
    Err (ParentHashMismatch (h_number header) (h_parent_hash header) (nh_hash stored_l1))
  else
  state ← lift_err Provider (mc_state_at mc parent_hash);
  x ← lift_err EnvError (mc_next_env mc state);
  let '(base_fee, block_number) := (x : Z * Z) in
  s ← lift_err EnvError (mc_open mc state);
  s ← lift_err PreExecution (mc_pre mc s);
  pending_withdrawals_at_block_start ← read_pending_withdrawals_from_outbox s block_gas_limit;
  let has_prior_withdrawals := negb (bool_decide (pending_withdrawals_at_block_start = [])) in
  let advance_tx := build_advance_tempo_tx encode_header prepared in
  x ← lift_err EvmError (mc_system mc s advance_tx);
  let '(success, s) := (x : bool * S) in
  if negb success then Err (AdvanceReverted (h_number header))
  else
  looped ← pool_loop fuel block_gas_limit (mc_best mc base_fee) s 0 0 [];
  match looped with
  | None => Ok Cancelled
  | Some (s, cumulative_gas_used, pool_txs) =>
    if has_prior_withdrawals || is_multiple_of block_number withdrawal_batch_interval_blocks then
      x ← finalize_batch s block_gas_limit cumulative_gas_used block_number;
      let '(s, finalize_tx) := (x : S * SystemTx) in
      block ← lift_err FinishError (mc_finish mc s);
      Ok (Freeze (mkPayload block_number block ([System advance_tx] ++ (Pool <$> pool_txs) ++ [System finalize_tx]) s))
    else
      block ← lift_err FinishError (mc_finish mc s);
      Ok (Freeze (mkPayload block_number block ([System advance_tx] ++ (Pool <$> pool_txs)) s))
  end.
End Builder.
