(* ===== verification/PayloadProofs.v ===== *)
(** * The payload builder: what a block contains

    The shape of a frozen payload, its gas, the end of the pool loop, and,
    with the outbox contract behind the EVM, what happens to withdrawals: a
    block that starts with pending withdrawals finalizes them all, and a block
    that starts with none leaves its own requests to the next one. *)

From stdpp Require Import list strings.
From S2P Require Import Prelude.
From S2P Require Import TempoState.
From S2P Require Import L1State.
From S2P Require Import DepositQueue.
From S2P Require Import PrepareBlock.
From S2P Require Import Withdrawals.
From S2P Require Import Settlement.
From S2P Require Import Outbox.
From S2P Require Import OutboxProofs.
From S2P Require Import Payload.
#[local] Open Scope Z_scope.

Lemma build_bind_Ok {A B} (m : result BuildError A) (f : A -> result BuildError B) b :
  m ≫= f = Ok b <-> exists a, m = Ok a /\ f a = Ok b.
Proof. destruct m as [a|e]; cbn; naive_solver. Qed.

Lemma lift_err_Ok {A} wrap (r : result string A) a : lift_err wrap r = Ok a <-> r = Ok a.
Proof. destruct r; cbn; naive_solver. Qed.

(** Opens the binds of a successful build step. *)
Ltac inv_build H :=
  repeat match type of H with
  | _ ≫= _ = Ok _ =>
    let a := fresh "a" in let E := fresh "E" in
    apply build_bind_Ok in H as (a & E & H); try rewrite lift_err_Ok in E
  | (let '(_, _) := ?x in _) = Ok _ => destruct x as [? ?]
  end.

Section Builder.
Context {S PoolTx Best Block : Type} (mc : Machine S PoolTx Best Block).
Context (encode_header : SealedHeader -> list Z) (slot_hash slot_number interval : Z).
Context (encryptor : option (list Z -> Z -> Z -> option (list Z))) (is_cancelled : nat -> bool).
Abbreviation try_build := (try_build mc encode_header slot_hash slot_number interval encryptor is_cancelled).
Abbreviation pool_loop := (pool_loop mc is_cancelled).
Abbreviation finalize_batch := (finalize_batch mc encryptor).
Abbreviation read_pending := (read_pending_withdrawals_from_outbox mc).

(** Pool transactions executed one after the other. *)
Inductive pool_run : S -> list PoolTx -> list Z -> S -> Prop :=
  | run_nil s : pool_run s [] [] s
  | run_cons s tx txs gas gases s1 s2 :
      mc_pool mc s tx = Executed gas s1 -> pool_run s1 txs gases s2 -> pool_run s (tx :: txs) (gas :: gases) s2.

Lemma pool_run_app s txs gases s1 txs' gases' s2 :
  pool_run s txs gases s1 -> pool_run s1 txs' gases' s2 -> pool_run s (txs ++ txs') (gases ++ gases') s2.
Proof. induction 1; cbn; [done|]. intros. econstructor; eauto. Qed.

(** ** The pool loop *)

(** It executes transactions in the order the pool gives them, each of which
    fits into what is left of the block's gas. *)
Lemma pool_loop_run fuel limit best s cum checks done_ s' cum' txs :
  pool_loop fuel limit best s cum checks done_ = Ok (Some (s', cum', txs)) ->
  exists new gases, txs = done_ ++ new /\ pool_run s new gases s' /\
    cum' = foldl (fun c g => wrapping_add U64_MAX c g) cum gases.
Proof.
  revert best s cum checks done_. induction fuel as [|fuel IH]; intros best s cum checks done_ H; cbn in H; [done|].
  destruct (mc_next mc best) as [[tx best1]|]; [|by injection H as <- <- <-; exists [], []; rewrite app_nil_r; repeat constructor].
  destruct (limit <? _); [by apply IH in H|]. destruct (is_cancelled checks); [done|].
  destruct (mc_pool mc s tx) as [gas s1|ntl|text|text] eqn:Ep.
  - apply IH in H as (new & gases & -> & Hr & ->). exists (tx :: new), (gas :: gases).
    rewrite <-app_assoc. split; [done|]. split; [by econstructor|done].
  - by apply IH in H.
  - destruct (is_zone_rpc_error text); [by apply IH in H|done].
  - done.
Qed.

(** Gas: the pool's transactions use at most the block's limit, when none uses
    more than its own limit. *)
Lemma pool_loop_gas fuel limit best s cum checks done_ s' cum' txs :
  (forall s tx gas s1, mc_pool mc s tx = Executed gas s1 -> 0 <= gas <= mc_gas_limit mc tx) ->
  (forall tx, 0 <= mc_gas_limit mc tx) ->
  0 <= cum <= limit -> limit + limit <= U64_MAX -> (forall tx, mc_gas_limit mc tx <= limit) ->
  pool_loop fuel limit best s cum checks done_ = Ok (Some (s', cum', txs)) -> 0 <= cum' <= limit.
Proof.
  intros Hg Hp Hc Hl Ht. revert best s cum checks done_ Hc.
  induction fuel as [|fuel IH]; intros best s cum checks done_ Hc H; cbn in H; [done|].
  destruct (mc_next mc best) as [[tx best1]|]; [|by injection H as <- <- <-].
  assert (Hw : forall x, 0 <= x <= limit -> wrapping_add U64_MAX cum x = cum + x).
  { intros x Hx. unfold wrapping_add. apply Z.mod_small. lia. }
  pose proof (Hp tx). pose proof (Ht tx). rewrite (Hw (mc_gas_limit mc tx)) in H by lia.
  destruct (Z.ltb_spec limit (cum + mc_gas_limit mc tx)); [by eapply IH|]. destruct (is_cancelled checks); [done|].
  destruct (mc_pool mc s tx) as [gas s1|ntl|text|text] eqn:Ep.
  - specialize (Hg _ _ _ _ Ep). rewrite Hw in H by lia. eapply IH; [|exact H]. lia.
  - by eapply IH.
  - destruct (is_zone_rpc_error text); [by eapply IH|done].
  - done.
Qed.

(** Termination: with a measure of the iterator the loop never runs out of steps. *)
Lemma pool_loop_ends (size : Best -> nat) fuel limit best s cum checks done_ :
  (forall b tx b', mc_next mc b = Some (tx, b') -> (size b' < size b)%nat) ->
  (forall b tx, (size (mc_mark_invalid mc tx b) <= size b)%nat) ->
  (size best < fuel)%nat -> pool_loop fuel limit best s cum checks done_ <> Err OutOfSteps.
Proof.
  intros Hn Hm. revert best s cum checks done_. induction fuel as [|fuel IH]; intros best s cum checks done_ Hf; [lia|].
  cbn. destruct (mc_next mc best) as [[tx best1]|] eqn:En; [|done]. apply Hn in En.
  pose proof (Hm best1 tx). destruct (limit <? _); [apply IH; lia|]. destruct (is_cancelled checks); [done|].
  destruct (mc_pool mc s tx) as [gas s1|ntl|text|text]; [apply IH; lia| | |done].
  - apply IH. destruct ntl; cbn; lia.
  - destruct (is_zone_rpc_error text); [apply IH; lia|done].
Qed.

(** ** The shape of a payload *)

Lemma pool_loop_errors fuel limit best s cum checks done_ e :
  pool_loop fuel limit best s cum checks done_ = Err e -> e = OutOfSteps \/ exists text, e = EvmError text.
Proof.
  revert best s cum checks done_. induction fuel as [|fuel IH]; intros best s cum checks done_ H; cbn in H; [left; congruence|].
  destruct (mc_next mc best) as [[tx best1]|]; [|done]. destruct (limit <? _); [by eapply IH|].
  destruct (is_cancelled checks); [done|].
  destruct (mc_pool mc s tx) as [gas s1|ntl|text|text]; [by eapply IH|by eapply IH| |].
  - destruct (is_zone_rpc_error text); [by eapply IH|]. right. exists text. congruence.
  - right. exists text. congruence.
Qed.

(** What a frozen payload tells: the state it grew from, the L1 block it takes,
    and the steps in their order. *)
Variant frozen (parent_hash limit : Z) (prepared : PreparedL1Block) (p : @BuiltPayload S PoolTx Block) : Prop :=
  | Frozen state l1 base_fee opened start advanced pooled txs gases pending
      (fz_at : mc_state_at mc parent_hash = Ok state)
      (fz_tempo : tempo_num_hash (mc_storage mc state) slot_hash slot_number = Ok l1)
      (fz_number : h_number (pb_header prepared) = wrapping_add U64_MAX (nh_number l1) 1)
      (fz_parent : h_parent_hash (pb_header prepared) = nh_hash l1)
      (fz_env : mc_next_env mc state = Ok (base_fee, bp_block_number p))
      (fz_opened : mc_open mc state = Ok opened)
      (fz_pre : mc_pre mc opened = Ok start)
      (fz_read : read_pending start limit = Ok pending)
      (fz_advance : mc_system mc start (build_advance_tempo_tx encode_header prepared) = Ok (true, advanced))
      (fz_pool : pool_run advanced txs gases pooled)
      (fz_end :
        if negb (bool_decide (pending = [])) || is_multiple_of (bp_block_number p) interval then
          exists tx, finalize_batch pooled limit (foldl (fun c g => wrapping_add U64_MAX c g) 0 gases)
              (bp_block_number p) = Ok (bp_state p, tx) /\
            bp_transactions p =
              System (build_advance_tempo_tx encode_header prepared) :: (Pool <$> txs) ++ [System tx]
        else bp_state p = pooled /\
          bp_transactions p = System (build_advance_tempo_tx encode_header prepared) :: (Pool <$> txs))
      (fz_finish : mc_finish mc (bp_state p) = Ok (bp_block p)).

Lemma try_build_frozen fuel parent_hash limit prepared p :
  try_build fuel parent_hash limit prepared = Ok (Freeze p) -> frozen parent_hash limit prepared p.
Proof.
  unfold Payload.try_build. intros H. inv_build H.
  destruct (negb (h_number _ =? _)) eqn:En; [done|]. apply negb_false_iff, Z.eqb_eq in En.
  destruct (negb (h_parent_hash _ =? _)) eqn:Eh; [done|]. apply negb_false_iff, Z.eqb_eq in Eh.
  inv_build H. destruct b; [|done]. cbn [negb] in H. inv_build H.
  match type of H with match ?o with _ => _ end = _ => destruct o as [[[s' gas] txs]|] eqn:Eo; [|done] end. subst.
  match goal with H : pool_loop _ _ _ _ _ _ _ = _ |- _ => apply pool_loop_run in H as (new & gases & -> & Hr & ->) end.
  cbn [app] in *.
  match goal with H1 : mc_state_at _ _ = Ok ?x, H2 : mc_state_at _ _ = Ok ?y |- _ =>
    assert (y = x) as -> by (rewrite H1 in H2; by injection H2); clear H2 end.
  destruct (negb (bool_decide _) || _) eqn:Ef; inv_build H; injection H as <-; econstructor; try done;
    cbn [bp_block_number bp_state bp_transactions]; rewrite Ef; eauto.
Qed.

(** ** Withdrawals *)

Section Withdrawals.
Context {Ledger : Type} (keccak256 : list Z -> Z) (abi_encode_params : Withdrawal -> Z -> list Z).
Context (sequencer : Z) (isEnabledToken : Z -> bool) (valid_reveal_key : list Z -> bool).
Context (take_tokens : Ledger -> Z -> Z -> Z -> option Ledger).
Abbreviation outbox_run := (outbox_run keccak256 abi_encode_params sequencer isEnabledToken valid_reveal_key take_tokens).
Abbreviation to_withdrawal := (to_withdrawal keccak256).

(** The EVM runs the outbox contract: a view call answers from its storage, a
    transaction that is executed makes calls on it, and only the builder's
    system transaction finalizes batches. *)
Record OutboxLaws := {
  ol_outbox : S -> @OState Ledger;
  ol_open s s' : mc_open mc s = Ok s' -> ol_outbox s' = ol_outbox s;
  ol_pre s s' : mc_pre mc s = Ok s' -> ol_outbox s' = ol_outbox s;
  ol_view s gas output : mc_view mc s gas = Ok (true, Some output) ->
    mc_decode_pending mc output = Some (getPendingWithdrawals (os_outbox (ol_outbox s)));
  ol_advance s prepared s' : mc_system mc s (build_advance_tempo_tx encode_header prepared) = Ok (true, s') ->
    exists calls, Forall (fun c => is_finalize c.2 = false) calls /\ ol_outbox s' = outbox_run calls (ol_outbox s);
  ol_pool s tx gas s' : mc_pool mc s tx = Executed gas s' ->
    exists calls, Forall (fun c => is_finalize c.2 = false) calls /\ ol_outbox s' = outbox_run calls (ol_outbox s);
  ol_finalize s count block senders s' :
    mc_system mc s (build_finalize_withdrawal_batch_tx count block senders) = Ok (true, s') ->
    exists env hash, finalize_withdrawal_batch keccak256 abi_encode_params sequencer env count block senders (ol_outbox s)
      = Ok (hash, ol_outbox s')
}.
Context (L : OutboxLaws).

Lemma read_pending_outbox s gas pending :
  read_pending s gas = Ok pending -> pending = getPendingWithdrawals (os_outbox (ol_outbox L s)).
Proof.
  unfold read_pending_withdrawals_from_outbox, execute_outbox_view_call. intros H. inv_build H. inv_build E.
  destruct b; [|done]. destruct o as [out|]; [|done]. injection E as <-.
  rewrite (ol_view L _ _ _ E0) in H. by injection H.
Qed.

Lemma pool_run_grows s txs gases s' :
  pool_run s txs gases s' -> tracks (ol_outbox L s) -> grows (ol_outbox L s) (ol_outbox L s').
Proof.
  induction 1 as [s|s tx txs gas gases s1 s2 Hp _ IH]; intros Ht; [by apply grows_refl|].
  apply (ol_pool L) in Hp as (calls & Hc & E).
  assert (Hg : grows (ol_outbox L s) (ol_outbox L s1)) by (rewrite E; by apply run_grows).
  eapply grows_trans; [exact Hg|]. apply IH, Hg.
Qed.

Lemma finalize_batch_outbox s limit gas block s' tx :
  finalize_batch s limit gas block = Ok (s', tx) -> tracks (ol_outbox L s) ->
  exists senders, let pending := getPendingWithdrawals (os_outbox (ol_outbox L s)) in
    let hash := queue_hash keccak256 abi_encode_params (zip_with to_withdrawal pending senders) in
    tx = build_finalize_withdrawal_batch_tx (Z.of_nat (length pending)) block senders /\
    length senders = length pending /\
    (exists tx_hash, os_events (ol_outbox L s') = os_events (ol_outbox L s) ++
       [(BatchFinalized hash (o_withdrawalBatchIndex (os_outbox (ol_outbox L s)) + 1), tx_hash)]) /\
    getPendingWithdrawals (os_outbox (ol_outbox L s')) = [] /\ tracks (ol_outbox L s').
Proof.
  unfold Payload.finalize_batch. intros H Ht. inv_build H. cbv zeta in H. inv_build H. destruct b; [|done].
  injection H as <- <-. apply read_pending_outbox in E as ->. exists a0. cbv zeta.
  apply (ol_finalize L) in E1 as (env & hash & Hf).
  apply finalize_takes in Hf as (_ & Hlen & -> & Ht' & Hp & _ & He & _); [|done].
  split; [done|]. split; [done|]. split; [eexists; exact He|]. done.
Qed.

(** What a block does to the outbox: its own requests, and the batch. *)
Definition block_effect (number : Z) (before after : @OState Ledger) : Prop :=
  let prior := getPendingWithdrawals (os_outbox before) in
  exists evs new,
    Forall (fun e => is_batch e.1 = false) evs /\ Forall2 announced new (requests_of evs) /\
    if decide (prior = [] /\ is_multiple_of number interval = false) then
      os_events after = os_events before ++ evs /\ getPendingWithdrawals (os_outbox after) = new
    else
      exists senders tx_hash,
        length senders = length (prior ++ new) /\
        os_events after = os_events before ++ evs ++
          [(BatchFinalized (queue_hash keccak256 abi_encode_params (zip_with to_withdrawal (prior ++ new) senders))
              (o_withdrawalBatchIndex (os_outbox before) + 1), tx_hash)] /\
        getPendingWithdrawals (os_outbox after) = [].

Lemma frozen_block_effect parent_hash limit prepared p state :
  mc_state_at mc parent_hash = Ok state -> tracks (ol_outbox L state) -> frozen parent_hash limit prepared p ->
  block_effect (bp_block_number p) (ol_outbox L state) (ol_outbox L (bp_state p)) /\ tracks (ol_outbox L (bp_state p)).
Proof.
  intros Hs Ht [state' l1 fee opened start advanced pooled txs gases pending Hat _ _ _ _ Ho Hp Hr Ha Hpool Hend].
  rewrite Hs in Hat. injection Hat as <-.
  apply (ol_open L) in Ho. apply (ol_pre L) in Hp. rewrite Ho in Hp. apply read_pending_outbox in Hr. rewrite Hp in Hr.
  assert (Hg : grows (ol_outbox L state) (ol_outbox L pooled)).
  { apply (ol_advance L) in Ha as (calls & Hc & E). rewrite Hp in E.
    assert (Hg : grows (ol_outbox L state) (ol_outbox L advanced)) by (rewrite E; by apply run_grows).
    eapply grows_trans; [exact Hg|]. eapply pool_run_grows; [exact Hpool|apply Hg]. }
  destruct Hg as (Htp & Hidx & evs & new & He & Hb & Hpen & Han). unfold block_effect. rewrite <-Hr.
  destruct (negb (bool_decide (pending = [])) || is_multiple_of _ _) eqn:Ef.
  - destruct Hend as (tx & Hfin & _).
    apply finalize_batch_outbox in Hfin as (senders & _ & Hlen & (tx_hash & Hev) & Hnil & Ht'); [|done].
    split; [|done]. exists evs, new. split; [done|]. split; [done|].
    rewrite decide_False.
    2:{ intros [-> E]. rewrite E in Ef. by rewrite bool_decide_eq_true_2 in Ef. }
    exists senders, tx_hash. rewrite Hpen, <-Hr, Hidx in *. split; [done|]. split; [|done].
    by rewrite Hev, He, <-app_assoc.
  - apply orb_false_iff in Ef as [Ep Em]. apply negb_false_iff, bool_decide_eq_true in Ep. subst pending.
    destruct Hend as [-> _]. split; [|done]. exists evs, new. split; [done|]. split; [done|].
    rewrite decide_True by (by rewrite Ep). split; [done|]. by rewrite Hpen, Ep.
Qed.

(** C9. No withdrawal waits longer than one block.  Building on a state whose
    outbox a run of the contract produced, a frozen block that starts with
    pending withdrawals, or is at the empty-batch cadence, ends with a batch of
    exactly the withdrawals pending at its start followed by those requested
    in it, and leaves nothing pending; any other block finalizes no batch, and
    what it leaves pending was requested in it. *)
Theorem withdrawals_wait_one_block fuel parent_hash limit prepared p state :
  mc_state_at mc parent_hash = Ok state -> tracks (ol_outbox L state) ->
  try_build fuel parent_hash limit prepared = Ok (Freeze p) ->
  block_effect (bp_block_number p) (ol_outbox L state) (ol_outbox L (bp_state p)) /\ tracks (ol_outbox L (bp_state p)).
Proof. intros Hs Ht Hb. eapply frozen_block_effect; [done|done|]. by eapply try_build_frozen. Qed.
End Withdrawals.

(** A payload takes the L1 block that follows the one the zone has
    processed, by number and by hash; its first transaction is the
    [advanceTempo] of that block, the pool's transactions follow in the order
    they were executed, and a [finalizeWithdrawalBatch], if there is one, is
    the last. *)
Theorem payload_shape fuel parent_hash limit prepared p :
  try_build fuel parent_hash limit prepared = Ok (Freeze p) ->
  exists state l1 start advanced pooled txs gases,
    mc_state_at mc parent_hash = Ok state /\
    tempo_num_hash (mc_storage mc state) slot_hash slot_number = Ok l1 /\
    h_number (pb_header prepared) = wrapping_add U64_MAX (nh_number l1) 1 /\
    h_parent_hash (pb_header prepared) = nh_hash l1 /\
    mc_system mc start (build_advance_tempo_tx encode_header prepared) = Ok (true, advanced) /\
    pool_run advanced txs gases pooled /\
    (bp_transactions p = System (build_advance_tempo_tx encode_header prepared) :: (Pool <$> txs) \/
     exists count senders, let tx := build_finalize_withdrawal_batch_tx count (bp_block_number p) senders in
       mc_system mc pooled tx = Ok (true, bp_state p) /\
       bp_transactions p = System (build_advance_tempo_tx encode_header prepared) :: (Pool <$> txs) ++ [System tx]).
Proof.
  intros [state l1 fee opened start advanced pooled txs gases pending Hat Htm Hn Hpa _ _ _ _ Ha Hpool Hend]%try_build_frozen.
  exists state, l1, start, advanced, pooled, txs, gases. repeat (split; [done|]).
  destruct (negb (bool_decide (pending = [])) || _); [|left; apply Hend].
  destruct Hend as (tx & Hf & Htx). right. unfold Payload.finalize_batch in Hf. inv_build Hf. cbv zeta in Hf.
  inv_build Hf. destruct b; [|done]. injection Hf as <- <-. do 2 eexists. cbv zeta. split; [eassumption|exact Htx].
Qed.

(** ** A checkpoint in the legacy layout *)

(** A zone whose TempoState still has the legacy storage layout builds no
    block: the word at the native slot of the block number is not the number
    of its checkpoint, so the builder refuses the only L1 block that the
    precompile would accept, and with it the call that would migrate the
    layout. *)
Theorem legacy_state_never_builds u64_unpack fuel parent_hash limit prepared state st c :
  mc_state_at mc parent_hash = Ok state ->
  (forall k, mc_storage mc state TEMPO_STATE_ADDRESS k = Ok (ts_slots st !! k)) ->
  layout_of (ts_code_hash st) = Some Legacy ->
  checkpoint slot_hash slot_number u64_unpack st = Some c ->
  0 <= slot st slot_number -> slot st slot_number <> cp_number c -> 0 <= cp_number c < U64_MAX ->
  h_number (pb_header prepared) = cp_number c + 1 ->
  exists e, try_build fuel parent_hash limit prepared = Err e /\
    (e = Panicked \/ exists expected, e = NumberMismatch (cp_number c + 1) expected).
Proof.
  intros Hs Hst _ _ Hp Hne Hc Hn. unfold Payload.try_build. rewrite Hs. cbn [lift_err mbind build_bind].
  unfold tempo_num_hash, tempo_block_number, tempo_block_hash, read_storage. rewrite !Hst.
  change (default 0 (ts_slots st !! slot_number)) with (slot st slot_number). cbn [mbind build_bind].
  destruct (Z.leb_spec (slot st slot_number) U64_MAX) as [Hle|]; cbn [mbind build_bind]; [|by exists Panicked; eauto].
  cbn [nh_number nh_hash]. rewrite Hn.
  assert (cp_number c + 1 <> wrapping_add U64_MAX (slot st slot_number) 1) as Hd.
  { unfold wrapping_add. destruct (decide (slot st slot_number = U64_MAX)) as [->|];
      [rewrite Z.mod_same by done|rewrite Z.mod_small]; lia. }
  rewrite (proj2 (Z.eqb_neq _ _) Hd). cbn [negb]. eexists. split; [done|]. right. by eexists.
Qed.
End Builder.
