(* ===== verification/RpcExplorer.v ===== *)
(** * Private RPC: the batch explorer

    The handlers [zone_listBatches], [zone_getBatch] and [zone_searchBatch] of
    node/src/rpc.rs with their helpers and the cache of summaries.  The two
    chains are read through the record [Chains], one answer per request (the
    answers of one moment, or a mixture; nothing below relies on which); what
    the ABI crate decodes is the record [Abi]. *)

From stdpp Require Import gmap list strings.
From S2P Require Import Prelude.
From S2P Require Import BTree.
From S2P Require Import OrderbookModel.
From S2P Require Import RpcAuth.
From S2P Require Import RpcLogs.
From S2P Require Import RpcHistory.
From S2P Require Import RpcTypes.
From S2P Require Import RpcPolicy.
From S2P Require Import RpcDispatch.
From S2P Require Import Withdrawals.
From S2P Require Import Settlement.
#[local] Open Scope string_scope.
#[local] Open Scope Z_scope.
#[local] Open Scope api_scope.

Definition L1_BATCH_LOG_QUERY_MAX_BLOCKS : Z := 50000.
Definition BATCH_SUMMARY_CACHE_CAPACITY : nat := 2048.
Definition LIST_BATCHES_DEFAULT_LIMIT : Z := 20.
Definition LIST_BATCHES_MAX_LIMIT : Z := 100.

(** [ZonePortal::BatchSubmitted::SIGNATURE_HASH] *)
Definition BATCH_SUBMITTED_TOPIC : Z := 0x5a66941dc92cb865480c966eff640c02b1d00d544b74332fd67c6f1cbfccdf39.

Inductive BatchStatus := BPending | BSubmitted | BVerified | BFailed.

Record BatchAggregateVolume := mkVolume { bv_token : Z; bv_amount : Z }.

Record BatchSummary := mkSummary {
  bs_batch_number : Z;
  bs_zone_block_from : option Z;
  bs_zone_block_to : option Z;
  bs_tempo_block_number : Z;
  bs_root : Z;
  bs_prev_block_hash : Z;
  bs_next_block_hash : Z;
  bs_status : BatchStatus;
  bs_sealed_at : option Z;
  bs_settled_at : option Z;
  bs_order_count : Z;
  bs_fill_count : Z;
  bs_aggregate_pairs : list string;
  bs_aggregate_volume : list BatchAggregateVolume;
  bs_settlement_tx_hash : option Z;
  bs_proof_ref : option string
}.

Record BatchListResponse := mkBatchList { bl_batches : list BatchSummary; bl_next_cursor : option Z }.

Record BatchAggregates := mkAggregates {
  ag_order_count : Z; ag_fill_count : Z; ag_pair_labels : list string; ag_volume_by_token : list BatchAggregateVolume
}.
Definition aggregates_default : BatchAggregates := mkAggregates 0 0 [] [].

(** ** What the chains answer *)

Record Chains := mkChains {
  l1_get_logs : Filter -> result string (list Log);
  l1_get_block_number : result string Z;
  l1_block_timestamp : Z -> result string (option Z);
  l1_transaction_input : Z -> result string (option (list Z));
  l1_receipt : Z -> result string (option (list Log * option Z));
  zone_get_logs : Filter -> result string (list Log);
  zone_receipt_logs : Z -> result string (option (list Log));
  zone_latest_block : result string (option (Z * Z));
  zone_block_by_hash : Z -> result string (option (Z * Z));
  zone_block_timestamp : Z -> result string (option Z);
  portal_genesis : result string Z;
  portal_batch_index : result string Z;
  portal_accepted_hash : result string Z;
  tempo_state_number : result string Z
}.

(** [submitBatch] calldata: the fields the explorer shows. *)
Record SubmitBatchCall := mkSubmitCall { sc_tempoBlockNumber : Z; sc_prevBlockHash : Z }.

Record ExplorerAbi := mkExplorerAbi {
  abi_batch_submitted : Log -> result string BatchSubmitted;
  abi_submit_batch : list Z -> result string SubmitBatchCall;
  abi_darkpool : Log -> option Event
}.

(** ** Queries *)

Inductive BatchQuery := BatchNumber (n : Z) | SettlementTxHash (hash : Z) | InvalidQuery.

Definition classify_batch_query (W : Wire) (query : string) : BatchQuery :=
  let hex_body := strip_hex_prefix query in
  let hash := match hex_body with
              | Some body => if (String.length body =? 64)%nat then b256_from_str W query else None
              | None => None
              end in
  match hash with
  | Some hash => SettlementTxHash hash
  | None =>
    match u64_from_str W query with
    | Some value => BatchNumber value
    | None => match parse_u64 query with Some value => BatchNumber value | None => InvalidQuery end
    end
  end.

(** A word with the number, big-endian: the number itself. *)
Definition batch_number_topic (batch_number : Z) : Z := batch_number.

(** The last eight bytes of the second topic. *)
Definition log_batch_index (log : Log) : option Z := (fun t => t mod (U64_MAX + 1)) <$> log_topics log !! 1%nat.

(** ** Ranges, newest first *)

Fixpoint ranges_loop (fuel : nat) (first end_ max_blocks : Z) : list (Z * Z) :=
  match fuel with
  | O => []
  | S fuel' =>
    let start := Z.max (saturating_sub end_ (saturating_sub max_blocks 1)) first in
    (start, end_) :: (if start =? first then [] else ranges_loop fuel' first (start - 1) max_blocks)
  end.

(** One turn per range, of which there are at most as many as blocks. *)
Definition reverse_inclusive_block_ranges (first last max_blocks : Z) : list (Z * Z) :=
  if (last <? first) || (max_blocks =? 0) then []
  else ranges_loop (S (Z.to_nat (last - first))) first last max_blocks.

(** ** Aggregates *)

Definition hex_digit (n : Z) : Ascii.ascii := Ascii.ascii_of_N (Z.to_N (if n <? 10 then 48 + n else 87 + n)).
Fixpoint hex_digits (fuel : nat) (n : Z) (acc : string) : string :=
  match fuel with
  | O => acc
  | S fuel' => hex_digits fuel' (n / 16) (String (hex_digit (n mod 16)) acc)
  end.
(** An address in lower-case hex, and the label of a pair. *)
Definition hex_address (a : Z) : string := "0x" +:+ hex_digits 40 a EmptyString.
Definition pair_label (base quote : Z) : string := hex_address base +:+ ("/" +:+ hex_address quote).

Definition string_le (a b : string) : bool := String.leb a b.

(** [entry(token).and_modify(|v| v.saturating_add(amount)).or_insert(amount)] *)
Definition add_volume (token amount : Z) (m : btree Z) : btree Z :=
  bt_insert token (match bt_lookup token m with Some v => saturating_add U256_MAX v amount | None => amount end) m.

Section Aggregates.
Context (decode_log : Log -> option Event).

(** The first pass: the pair of every order submitted up to [to]. *)
Definition pair_index_step (to : Z) (index : gmap Z (Z * Z)) (log : Log) : gmap Z (Z * Z) :=
  if negb (bool_decide (topic0 log = Some SUBMITTED_TOPIC)) then index
  else match log_block_number log with
  | None => index
  | Some block =>
    if to <? block then index
    else match decode_log log with
    | Some (OrderSubmitted id _ base quote _ _ _ _ _) => <[id := (base, quote)]> index
    | _ => index
    end
  end.

Record AggState := mkAggState {
  as_orders : Z; as_fills : Z; as_pairs : gset (Z * Z); as_volume : btree Z
}.

Definition aggregate_step (index : gmap Z (Z * Z)) (from to : Z) (st : AggState) (log : Log) : AggState :=
  match log_block_number log with
  | None => st
  | Some block =>
    if (block <? from) || (to <? block) then st
    else match topic0 log with
    | None => st
    | Some topic0 =>
      if topic0 =? SUBMITTED_TOPIC then
        let orders := saturating_add U64_MAX (as_orders st) 1 in
        match decode_log log with
        | Some (OrderSubmitted _ _ base quote _ _ _ _ _) =>
          mkAggState orders (as_fills st) ({[ (base, quote) ]} ∪ as_pairs st) (as_volume st)
        | _ => mkAggState orders (as_fills st) (as_pairs st) (as_volume st)
        end
      else if topic0 =? FILLED_TOPIC then
        let fills := saturating_add U64_MAX (as_fills st) 1 in
        match decode_log log with
        | Some (OrderFilled maker_id _ _ _ amount_filled price) =>
          match index !! maker_id with
          | Some (base, quote) =>
            let base_amount := amount_filled in
            let quote_amount := saturating_mul U256_MAX base_amount price / PRICE_SCALE in
            mkAggState (as_orders st) fills ({[ (base, quote) ]} ∪ as_pairs st)
              (add_volume quote quote_amount (add_volume base base_amount (as_volume st)))
          | None => mkAggState (as_orders st) fills (as_pairs st) (as_volume st)
          end
        | _ => mkAggState (as_orders st) fills (as_pairs st) (as_volume st)
        end
      else st
    end
  end.

Definition aggregate_batch_events (darkpool_logs : list Log) (from to : Z) : BatchAggregates :=
  if to <? from then aggregates_default
  else
    let index := foldl (pair_index_step to) ∅ darkpool_logs in
    let st := foldl (aggregate_step index from to) (mkAggState 0 0 ∅ []) darkpool_logs in
    let labels := dedup_by String.eqb (sort_by string_le ((fun p => pair_label p.1 p.2) <$> elements (as_pairs st))) in
    mkAggregates (as_orders st) (as_fills st) labels ((fun p => mkVolume p.1 p.2) <$> as_volume st).
End Aggregates.

(** ** Summaries *)

Definition map_batch_summary (event : BatchSubmitted) (call : SubmitBatchCall) (settlement_tx_hash : Z)
    (settled_at zone_block_from zone_block_to sealed_at : option Z) (aggregates : BatchAggregates) : BatchSummary :=
  mkSummary (bs_withdrawalBatchIndex event) zone_block_from zone_block_to (sc_tempoBlockNumber call)
    (bs_withdrawalQueueHash event) (sc_prevBlockHash call) (bs_nextBlockHash event) BSubmitted sealed_at settled_at
    (ag_order_count aggregates) (ag_fill_count aggregates) (ag_pair_labels aggregates) (ag_volume_by_token aggregates)
    (Some settlement_tx_hash) None.

Definition map_pending_batch_summary (batch_number : Z) (zone_block_from : option Z) (zone_block_to
    tempo_block_number prev_block_hash next_block_hash : Z) (aggregates : BatchAggregates) : BatchSummary :=
  mkSummary batch_number zone_block_from (Some zone_block_to) tempo_block_number 0 prev_block_hash next_block_hash
    BPending None None (ag_order_count aggregates) (ag_fill_count aggregates) (ag_pair_labels aggregates)
    (ag_volume_by_token aggregates) None None.

(** The cache keeps the newest summaries. *)
Definition Cache : Type := btree BatchSummary.
Definition insert_batch_summary (cache : Cache) (batch_number : Z) (summary : BatchSummary) : Cache :=
  let cache := bt_insert batch_number summary cache in
  drop (length cache - BATCH_SUMMARY_CACHE_CAPACITY) cache.

Section Explorer.
Context (W : Wire) (C : Chains) (A : ExplorerAbi) (zone_portal : Z).

(** A read of a chain, [map_err(internal)]. *)
Definition query {S T} (r : result string T) : Api S T :=
  match r with Ok a => aret a | Err text => afail (internal text) end.
Definition portal_not_configured {S T} : Api S T := afail (internal "zone portal not configured").

Definition latest_batch_number : Api Cache Z :=
  if zone_portal =? 0 then portal_not_configured else query (portal_batch_index C).
Definition portal_block_hash : Api Cache Z :=
  if zone_portal =? 0 then portal_not_configured else query (portal_accepted_hash C).
Definition latest_zone_block : Api Cache (option (Z * Z)) := query (zone_latest_block C).

Definition submitted_zone_block_number (portal_block_hash : Z) : Api Cache (option Z) :=
  if portal_block_hash =? 0 then aret (Some 0)
  else block <- query (zone_block_by_hash C portal_block_hash); aret (fst <$> block).

(** [try_join!] of three reads; when several fail, one of the errors is reported. *)
Definition pending_batch_summary (latest_batch_number : Z) : Api Cache (option BatchSummary) :=
  portal_block_hash <- portal_block_hash;
  latest_zone_block <- latest_zone_block;
  tempo_block_number <- query (tempo_state_number C);
  match latest_zone_block with
  | None => aret None
  | Some (latest_zone_block_number, latest_zone_block_hash) =>
    submitted <- submitted_zone_block_number portal_block_hash;
    match submitted with
    | Some submitted =>
      if submitted <? latest_zone_block_number then
        aret (Some (map_pending_batch_summary (saturating_add U64_MAX latest_batch_number 1)
          (checked_add U64_MAX submitted 1) latest_zone_block_number tempo_block_number portal_block_hash
          latest_zone_block_hash aggregates_default))
      else aret None
    | None => aret None
    end
  end.

(** ** Logs *)

Definition batch_log_filter (topics : list Z) (from_block to_block : Z) : Filter :=
  mkFilter (Range (Some (Number from_block)) (Some (Number to_block))) {[ zone_portal ]} {[ BATCH_SUBMITTED_TOPIC ]}
    (list_to_set topics) ∅ ∅.

(** The new logs of a chunk, one for each requested topic. *)
Fixpoint take_new (requested found : gset Z) (chunk : list Log) (logs : list Log) : gset Z * list Log :=
  match chunk with
  | [] => (found, logs)
  | log :: chunk' =>
    match log_topics log !! 1%nat with
    | Some topic =>
      if bool_decide (topic ∈ requested) && negb (bool_decide (topic ∈ found)) then
        take_new requested ({[ topic ]} ∪ found) chunk' (logs ++ [log])
      else take_new requested found chunk' logs
    | None => take_new requested found chunk' logs
    end
  end.

Fixpoint scan_ranges {S} (topics : list Z) (requested found : gset Z) (logs : list Log) (ranges : list (Z * Z))
    : Api S (list Log) :=
  match ranges with
  | [] => aret logs
  | (from_block, to_block) :: ranges' =>
    chunk <- query (l1_get_logs C (batch_log_filter topics from_block to_block));
    let '(found, logs) := take_new requested found chunk logs in
    if (size found =? size requested)%nat then aret logs
    else scan_ranges topics requested found logs ranges'
  end.

Definition fetch_batch_logs_by_topics {S} (topics : list Z) : Api S (list Log) :=
  if zone_portal =? 0 then portal_not_configured
  else match topics with
  | [] => aret []
  | _ =>
    genesis_block <- query (portal_genesis C);
    latest_block <- query (l1_get_block_number C);
    if latest_block <? genesis_block then aret []
    else
      logs <- scan_ranges topics (list_to_set topics) ∅ []
        (reverse_inclusive_block_ranges genesis_block latest_block L1_BATCH_LOG_QUERY_MAX_BLOCKS);
      aret (sort_by (fun a b => default 0 (log_batch_index a) <=? default 0 (log_batch_index b)) logs)
  end.

Definition fetch_batch_log (batch_number : Z) : Api Cache (option Log) :=
  logs <- fetch_batch_logs_by_topics [batch_number_topic batch_number]; aret (head logs).

Definition fetch_batch_logs_in_range (start end_ : Z) : Api Cache (list Log) :=
  if zone_portal =? 0 then portal_not_configured
  else if end_ <? start then aret []
  else fetch_batch_logs_by_topics (batch_number_topic <$> seqZ start (end_ - start + 1)).

(** ** Summaries *)

Definition cached_batch_summary (batch_number : Z) (cache : Cache) : option BatchSummary := bt_lookup batch_number cache.
Definition cache_batch_summary (batch_number : Z) (summary : BatchSummary) : Api Cache unit :=
  fun cache => (Ok tt, insert_batch_summary cache batch_number summary).

Definition aggregate_filter (to : Z) : Filter :=
  mkFilter (Range (Some (Number 0)) (Some (Number to))) {[ DARKPOOL_ADDRESS ]} {[ SUBMITTED_TOPIC; FILLED_TOPIC ]} ∅ ∅ ∅.

Definition fetch_batch_aggregates (from to : Z) : Api Cache BatchAggregates :=
  if to <? from then aret aggregates_default
  else logs <- query (zone_get_logs C (aggregate_filter to)); aret (aggregate_batch_events (abi_darkpool A) logs from to).

Definition some_or {S T} (msg : string) (o : option T) : Api S T :=
  match o with Some a => aret a | None => afail (internal msg) end.

(** [build_batch_summary] of an event that is not in the cache. *)
Definition hydrate_batch_summary (log : Log) (event : BatchSubmitted) : Api Cache BatchSummary :=
  settlement_tx_hash <- some_or "BatchSubmitted log missing transaction hash" (log_transaction_hash log);
  l1_block_number <- some_or "BatchSubmitted log missing block number" (log_block_number log);
  zone_block_to <- query (zone_block_by_hash C (bs_nextBlockHash event));
  settled_at <- query (l1_block_timestamp C l1_block_number);
  tx <- query (l1_transaction_input C settlement_tx_hash);
  input <- some_or "BatchSubmitted settlement tx not found on L1" tx;
  call <- match abi_submit_batch A input with
          | Ok call => aret call
          | Err err => afail (internal ("failed to decode submitBatch calldata: " +:+ err))
          end;
  let zone_block_to_number := fst <$> zone_block_to in
  let sealed_at := snd <$> zone_block_to in
  zone_block_from_number <- (if sc_prevBlockHash call =? 0 then aret (Some 0)
                             else block <- query (zone_block_by_hash C (sc_prevBlockHash call)); aret (fst <$> block));
  aggregates <- match zone_block_from_number, zone_block_to_number with
                | Some prev_or_zero, Some end_ =>
                  let inclusive_start :=
                    if sc_prevBlockHash call =? 0 then 0 else saturating_add U64_MAX prev_or_zero 1 in
                  fetch_batch_aggregates inclusive_start end_
                | _, _ => aret aggregates_default
                end;
  aret (map_batch_summary event call settlement_tx_hash settled_at zone_block_from_number zone_block_to_number
    sealed_at aggregates).

Definition build_batch_summary (log : Log) : Api Cache BatchSummary :=
  event <- query (abi_batch_submitted A log);
  fun cache =>
    match cached_batch_summary (bs_withdrawalBatchIndex event) cache with
    | Some summary => (Ok summary, cache)
    | None =>
      (summary <- hydrate_batch_summary log event;
       _ <- cache_batch_summary (bs_withdrawalBatchIndex event) summary;
       aret summary) cache
    end.

Fixpoint build_batch_summaries (logs : list Log) : Api Cache (list BatchSummary) :=
  match logs with
  | [] => aret []
  | log :: logs' => s <- build_batch_summary log; ss <- build_batch_summaries logs'; aret (s :: ss)
  end.

(** ** Handlers

    The lock that serialises explorer requests is the step itself. *)

Definition number_desc (a b : BatchSummary) : bool := bs_batch_number b <=? bs_batch_number a.

(** The submitted batches [start..=end], newest first. *)
Definition submitted_page (start end_ : Z) : Api Cache (list BatchSummary) := fun cache =>
  let expected_count := saturating_add U64_MAX (saturating_sub end_ start) 1 in
  let cached := omap (fun n => cached_batch_summary n cache) (seqZ start (end_ - start + 1)) in
  if negb (Z.of_nat (length cached) =? expected_count) then
    (logs <- fetch_batch_logs_in_range start end_; build_batch_summaries logs) cache
  else (Ok cached, cache).

Definition zone_list_batches (params : ListBatchesParams) : Api Cache BatchListResponse :=
  let limit := Z.max (Z.min (default LIST_BATCHES_DEFAULT_LIMIT (lb_limit params)) LIST_BATCHES_MAX_LIMIT) 1 in
  latest <- latest_batch_number;
  pending <- match lb_cursor params with None => pending_batch_summary latest | Some _ => aret None end;
  let batches := option_list pending in
  let remaining_limit := saturating_sub limit (Z.of_nat (length batches)) in
  if (latest =? 0) || (remaining_limit =? 0) then
    aret (mkBatchList batches
      (if (0 <? latest) && (remaining_limit =? 0) then Some (saturating_add U64_MAX latest 1) else None))
  else
    match lb_cursor params with
    | Some 0 => aret (mkBatchList [] None)
    | cursor =>
      let end_ := match cursor with
                  | Some cursor => Z.min (saturating_sub cursor 1) latest
                  | None => latest
                  end in
      let start := Z.max (saturating_sub end_ (saturating_sub remaining_limit 1)) 1 in
      submitted_batches <- submitted_page start end_;
      aret (mkBatchList (batches ++ sort_by number_desc submitted_batches) (if 1 <? start then Some start else None))
    end.

(** The look-up of a batch by number; the second look at the cache follows the
    lock. *)
Definition find_batch (batch_number : Z) : Api Cache (option BatchSummary) := fun cache =>
  match cached_batch_summary batch_number cache with
  | Some summary => (Ok (Some summary), cache)
  | None =>
    (log <- fetch_batch_log batch_number;
     match log with
     | Some log => summary <- build_batch_summary log; aret (Some summary)
     | None => aret None
     end) cache
  end.

(** [None] is the JSON null. *)
Definition zone_get_batch (batch_number : Z) : Api Cache (option BatchSummary) :=
  if batch_number =? 0 then aret None else find_batch batch_number.

Definition is_batch_log (log : Log) : bool :=
  (log_address log =? zone_portal) && bool_decide (topic0 log = Some BATCH_SUBMITTED_TOPIC).

Definition zone_search_batch (query_text : string) : Api Cache (option BatchSummary) :=
  let trimmed := trim query_text in
  if (String.length trimmed =? 0)%nat then afail (invalid_params "query must not be empty")
  else match classify_batch_query W trimmed with
  | BatchNumber n => zone_get_batch n
  | SettlementTxHash tx_hash =>
    receipt <- query (l1_receipt C tx_hash);
    match receipt with
    | None => aret None
    | Some (logs, _) =>
      match List.find is_batch_log logs with
      | None => aret None
      | Some log => summary <- build_batch_summary log; aret (Some summary)
      end
    end
  | InvalidQuery =>
    afail (invalid_params "query must be a batch number (decimal or hex) or an L1 settlement tx hash")
  end.
End Explorer.
