(* ===== verification/RpcExplorerProofs.v ===== *)
(** * Private RPC: the batch explorer is complete

    The block ranges of a log search partition the range asked for; and, read
    from chains that answer, a client that follows the cursors of
    [zone_listBatches] sees the pending batch and then every submitted batch
    once, newest first, whatever the cache holds of them. *)

From stdpp Require Import gmap list strings sorting.
From S2P Require Import Prelude.
From S2P Require Import BTree.
From S2P Require Import OrderbookModel.
From S2P Require Import RpcAuth.
From S2P Require Import RpcLogs.
From S2P Require Import RpcHistory.
From S2P Require Import RpcHistoryProofs.
From S2P Require Import RpcTypes.
From S2P Require Import RpcPolicy.
From S2P Require Import RpcDispatch.
From S2P Require Import Withdrawals.
From S2P Require Import Settlement.
From S2P Require Import RpcExplorer.
#[local] Open Scope Z_scope.
#[local] Open Scope api_scope.

(** ** Ranges *)

(** The numbers [a..=b], highest first. *)
Definition down (a b : Z) : list Z := reverse (seqZ a (b - a + 1)).

Lemma elem_of_down a b n : n ∈ down a b <-> a <= n <= b.
Proof. unfold down. rewrite elem_of_reverse, elem_of_seqZ. lia. Qed.

Lemma down_split a m b : a <= m <= b + 1 -> down a b = down m b ++ down a (m - 1).
Proof.
  intros H. unfold down. rewrite <- reverse_app. f_equal.
  replace (b - a + 1) with ((m - 1 - a + 1) + (b - m + 1)) by lia.
  rewrite seqZ_app by lia. do 2 f_equal. lia.
Qed.

Lemma NoDup_down a b : NoDup (down a b).
Proof. unfold down. rewrite reverse_Permutation. apply NoDup_seqZ. Qed.

Lemma down_sorted a b : StronglySorted (fun x y => y < x) (down a b).
Proof.
  remember (Z.to_nat (b - a + 1)) as k eqn:Hk. revert b Hk. induction k as [|k IH]; intros b Hk.
  - unfold down. replace (seqZ a (b - a + 1)) with (@nil Z); [constructor|].
    symmetry. apply nil_length_inv. rewrite length_seqZ. lia.
  - rewrite (down_split a b b) by lia. replace (down b b) with [b].
    2:{ unfold down. by replace (b - b + 1) with 1 by lia. }
    constructor; [apply IH; lia|]. apply Forall_forall. intros x Hx%elem_of_down. lia.
Qed.

Lemma StronglySorted_fmap_in {X Y} (f : X -> Y) (R : Y -> Y -> Prop) (R' : X -> X -> Prop) l :
  (forall x y, x ∈ l -> y ∈ l -> R' x y -> R (f x) (f y)) -> StronglySorted R' l -> StronglySorted R (f <$> l).
Proof.
  intros Hf Hl. induction Hl as [|x l Hl IH Hx]; [constructor|]. cbn. constructor.
  - apply IH. intros y z Hy Hz. apply Hf; by right.
  - apply Forall_fmap, Forall_forall. intros y Hy. cbn. apply Hf; [left|by right|]. rewrite Forall_forall in Hx. by apply Hx.
Qed.

Lemma sort_number_desc l : StronglySorted (fun x y => bs_batch_number y <= bs_batch_number x) (sort_by number_desc l).
Proof.
  set (key := fun s => (- bs_batch_number s, 0) : Z * Z).
  rewrite (sort_by_ext number_desc (fun x y => pair_le (key x) (key y))).
  - rewrite <- (list_fmap_id (sort_by _ _)). apply StronglySorted_fmap_in with (R' := fun a b => pair_le (key a) (key b) = true).
    + intros x y _ _ [[Hlt|[_ Hlt]]|Heq]%pair_le_true; unfold key in *; cbn in *; [lia|lia|]. injection Heq. unfold id. lia.
    + apply (sort_by_weak key).
  - intros x y. unfold number_desc, pair_le, key. cbn.
    destruct (Z.leb_spec (bs_batch_number y) (bs_batch_number x)), (Z.ltb_spec (- bs_batch_number x) (- bs_batch_number y)),
      (Z.eqb_spec (- bs_batch_number x) (- bs_batch_number y)); cbn; try done; lia.
Qed.

Lemma list_omap_cons {X Y} (f : X -> option Y) x l :
  omap f (x :: l) = match f x with Some y => y :: omap f l | None => omap f l end.
Proof. done. Qed.
Lemma omap_length_le {X Y} (f : X -> option Y) l : (length (omap f l) <= length l)%nat.
Proof. induction l as [|x l IH]; cbn; [lia|]. destruct (f x); cbn; lia. Qed.

Lemma down_empty a b : b < a -> down a b = [].
Proof. intros H. unfold down. replace (seqZ _ _) with (@nil Z); [done|]. symmetry. apply nil_length_inv. rewrite length_seqZ. lia. Qed.

Lemma ranges_loop_spec fuel first last max :
  0 <= first <= last -> 0 < max -> last - first < Z.of_nat fuel ->
  (ranges_loop fuel first last max ≫= fun r => down r.1 r.2) = down first last /\
  Forall (fun r => r.2 - r.1 < max) (ranges_loop fuel first last max).
Proof.
  revert last. induction fuel as [|fuel IH]; intros last H Hm Hf; [lia|].
  cbn [ranges_loop]. unfold saturating_sub.
  set (start := Z.max (Z.max 0 (last - Z.max 0 (max - 1))) first).
  assert (first <= start <= last /\ last - start < max) as [Hs Hw] by lia.
  cbn [mbind list_bind fst snd]. destruct (Z.eqb_spec start first) as [Heq|Hne].
  - split; [|constructor; [cbn; lia|constructor]].
    cbn [list_bind]. rewrite app_nil_r. rewrite Heq. done.
  - destruct (IH (start - 1)) as [IH1 IH2]; [lia..|]. split; [|constructor; [cbn; lia|done]].
    change (list_bind _ _ ?f ?l) with (l ≫= f). rewrite IH1. symmetry. apply down_split. lia.
Qed.

(** The block ranges of a log search partition the blocks asked for, newest
    first, and none is longer than a query may be. *)
Lemma block_ranges_partition (first last max_blocks : Z) :
  0 <= first -> 0 < max_blocks ->
  (reverse_inclusive_block_ranges first last max_blocks ≫= fun r => down r.1 r.2) = down first last /\
  Forall (fun r => r.2 - r.1 < max_blocks) (reverse_inclusive_block_ranges first last max_blocks).
Proof.
  intros H Hm. unfold reverse_inclusive_block_ranges. rewrite (proj2 (Z.eqb_neq max_blocks 0)), orb_false_r by lia.
  destruct (Z.ltb_spec last first); [rewrite down_empty by lia; split; [done|constructor]|].
  apply ranges_loop_spec; lia.
Qed.

Lemma ranges_cover first last max n :
  0 <= first -> 0 < max -> first <= n <= last ->
  exists a b, (a, b) ∈ reverse_inclusive_block_ranges first last max /\ a <= n <= b.
Proof.
  intros H Hm Hn. unfold reverse_inclusive_block_ranges. rewrite (proj2 (Z.eqb_neq max 0)), orb_false_r by lia.
  rewrite (proj2 (Z.ltb_ge last first)) by lia.
  destruct (ranges_loop_spec (S (Z.to_nat (last - first))) first last max) as [Hb _]; [lia..|].
  assert (n ∈ down first last) as Hin by (apply elem_of_down; lia).
  rewrite <- Hb, list_elem_of_bind in Hin. destruct Hin as ([a b] & Hin & Hr).
  exists a, b. split; [done|]. by apply elem_of_down in Hin.
Qed.

(** ** Following the cursors *)

(** Error-free reads do not touch the cache. *)
Lemma query_Ok {S T} (r : result string T) (t : T) (s : S) : r = Ok t -> query r s = (Ok t, s).
Proof. by intros ->. Qed.

Lemma abind_Ok {S X Y} (m : Api S X) (f : X -> Api S Y) s y s' :
  abind m f s = (Ok y, s') -> exists x s1, m s = (Ok x, s1) /\ f x s1 = (Ok y, s').
Proof. unfold abind. destruct (m s) as [[x|e] s1]; [|done]. by exists x, s1. Qed.

Lemma bt_lookup_drop {V} k v n (m : btree V) : sorted m -> bt_lookup k (drop n m) = Some v -> bt_lookup k m = Some v.
Proof.
  intros Hm. assert (sorted (drop n m)) as Hd.
  { clear k v. revert m Hm. induction n as [|n IH]; intros m Hm; [by destruct m|].
    destruct m as [|p m]; [done|]. apply IH. by inversion Hm. }
  rewrite !bt_lookup_elem by done. intros Hin. rewrite <- (take_drop n m). apply elem_of_app. by right.
Qed.
Lemma drop_sorted {V} n (m : btree V) : sorted m -> sorted (drop n m).
Proof.
  revert m. induction n as [|n IH]; intros m Hm; [by destruct m|].
  destruct m as [|p m]; [done|]. apply IH. by inversion Hm.
Qed.

(** A client that collects the pages. *)
Fixpoint list_all (C : Chains) (A : ExplorerAbi) (portal : Z) (fuel : nat) (limit cursor : option Z) (cache : Cache)
    : option (list BatchSummary) :=
  match fuel with
  | O => None
  | S fuel' =>
    match zone_list_batches C A portal (mkListBatches limit cursor) cache with
    | (Ok page, cache') =>
      match bl_next_cursor page with
      | None => Some (bl_batches page)
      | Some c => rest ← list_all C A portal fuel' limit (Some c) cache'; Some (bl_batches page ++ rest)
      end
    | (Err _, _) => None
    end
  end.

(** Two chains in a state where the portal has accepted [latest] batches, the
    [n]th of them with the log [log_of n], which names the event [event_of n]
    and from which the row [row n] is built. *)
Record Explorable (C : Chains) (A : ExplorerAbi) (portal genesis tip latest : Z) (log_of : Z -> Log)
    (event_of : Z -> BatchSubmitted) (row : Z -> BatchSummary) := mkExplorable {
  ex_portal : portal <> 0;
  ex_latest : portal_batch_index C = Ok latest;
  ex_genesis : portal_genesis C = Ok genesis;
  ex_tip : l1_get_block_number C = Ok tip;
  ex_bounds : 0 <= genesis <= tip /\ 0 <= latest < U64_MAX;
  ex_get_logs : forall topics a b, exists logs, l1_get_logs C (batch_log_filter portal topics a b) = Ok logs /\
    forall log, log ∈ logs <->
      exists n h, 1 <= n <= latest /\ log = log_of n /\ n ∈ topics /\ log_block_number log = Some h /\ a <= h <= b;
  ex_mined : forall n, 1 <= n <= latest -> exists h, log_block_number (log_of n) = Some h /\ genesis <= h <= tip;
  ex_topic : forall n, 1 <= n <= latest -> log_topics (log_of n) !! 1%nat = Some n;
  ex_event : forall n, 1 <= n <= latest ->
    abi_batch_submitted A (log_of n) = Ok (event_of n) /\ bs_withdrawalBatchIndex (event_of n) = n;
  ex_row : forall n cache, 1 <= n <= latest -> hydrate_batch_summary C A (log_of n) (event_of n) cache = (Ok (row n), cache);
}.

Arguments ex_portal {_ _ _ _ _ _ _ _ _}.
Arguments ex_latest {_ _ _ _ _ _ _ _ _}.
Arguments ex_genesis {_ _ _ _ _ _ _ _ _}.
Arguments ex_tip {_ _ _ _ _ _ _ _ _}.
Arguments ex_bounds {_ _ _ _ _ _ _ _ _}.
Arguments ex_get_logs {_ _ _ _ _ _ _ _ _}.
Arguments ex_mined {_ _ _ _ _ _ _ _ _}.
Arguments ex_topic {_ _ _ _ _ _ _ _ _}.
Arguments ex_event {_ _ _ _ _ _ _ _ _}.
Arguments ex_row {_ _ _ _ _ _ _ _ _}.

Section Complete.
Context (C : Chains) (A : ExplorerAbi) (portal genesis tip latest : Z) (log_of : Z -> Log)
  (event_of : Z -> BatchSubmitted) (row : Z -> BatchSummary).
Context (E : Explorable C A portal genesis tip latest log_of event_of row).

(** The cache is an ordered map whose entries are rows of submitted batches. *)
Definition cache_ok (cache : Cache) : Prop :=
  sorted cache /\ forall n s, bt_lookup n cache = Some s -> 1 <= n <= latest /\ s = row n.

Lemma insert_cache_ok cache n : cache_ok cache -> 1 <= n <= latest -> cache_ok (insert_batch_summary cache n (row n)).
Proof.
  intros [Hs Hc] Hn. unfold insert_batch_summary. split; [apply drop_sorted, bt_insert_sorted, Hs|].
  intros k s Hk. apply bt_lookup_drop in Hk; [|apply bt_insert_sorted, Hs].
  rewrite bt_lookup_insert in Hk by done. destruct (Z.eqb_spec k n) as [->|]; [by simplify_eq|]. by apply Hc.
Qed.

(** The logs kept by a scan are those of distinct batches asked for. *)
Definition scanned (topics ns : list Z) (found : gset Z) (logs : list Log) : Prop :=
  logs = log_of <$> ns /\ NoDup ns /\ found = list_to_set ns /\ forall n, n ∈ ns -> n ∈ topics.

Lemma take_new_spec topics chunk ns found logs :
  (forall log, log ∈ chunk -> exists n, 1 <= n <= latest /\ n ∈ topics /\ log = log_of n) ->
  scanned topics ns found logs ->
  exists ns', scanned topics ns' (take_new (list_to_set topics) found chunk logs).1
                (take_new (list_to_set topics) found chunk logs).2 /\
    (forall n, n ∈ ns -> n ∈ ns') /\ (forall n, 1 <= n <= latest -> log_of n ∈ chunk -> n ∈ ns').
Proof.
  revert ns found logs. induction chunk as [|log chunk IH]; intros ns found logs Hc Hs.
  { exists ns. split; [done|]. split; [done|]. set_solver. }
  destruct (Hc log) as (n & Hn & Hin & Hlog); [left|]. cbn [take_new].
  assert (Hchunk : forall log, log ∈ chunk -> exists n, 1 <= n <= latest /\ n ∈ topics /\ log = log_of n)
    by (intros ? ?; apply Hc; by right).
  rewrite Hlog, (ex_topic E n Hn), bool_decide_eq_true_2 by set_solver. cbn [andb].
  assert (Hinj : forall k, 1 <= k <= latest -> log_of k = log_of n -> k = n).
  { intros k Hk Heq. pose proof (ex_topic E k Hk) as H1.
    pose proof (ex_topic E n Hn) as H2. rewrite Heq in H1. congruence. }
  destruct Hs as (-> & Hnd & -> & Hsub). case_bool_decide as Hf; cbn [negb].
  - destruct (IH ns (list_to_set ns) (log_of <$> ns)) as (ns' & H1 & H2 & H3); [done..|].
    exists ns'. split_and!; [done..|]. intros k Hk [Heq|Hk']%elem_of_cons; [|by apply H3].
    apply Hinj in Heq; [|done]. subst k. apply H2. by apply elem_of_list_to_set in Hf.
  - destruct (IH (ns ++ [n]) ({[n]} ∪ list_to_set ns) ((log_of <$> ns) ++ [log_of n])) as (ns' & H1 & H2 & H3); [done|..].
    { split_and!; [by rewrite fmap_app| |set_solver|set_solver].
      apply NoDup_app. split_and!; [done|set_solver|apply NoDup_singleton]. }
    exists ns'. split_and!; [done|set_solver|]. intros k Hk [Heq|Hk']%elem_of_cons; [|by apply H3].
    apply Hinj in Heq; [|done]. subst k. apply H2. set_solver.
Qed.

Lemma scan_ranges_spec {S} topics ranges ns found logs (s : S) :
  (forall n, n ∈ topics -> 1 <= n <= latest) -> scanned topics ns found logs ->
  (forall n, n ∈ topics -> n ∈ ns \/
     exists a b h, (a, b) ∈ ranges /\ log_block_number (log_of n) = Some h /\ a <= h <= b) ->
  exists ns', scan_ranges C portal topics (list_to_set topics) found logs ranges s = (Ok (log_of <$> ns'), s) /\
    NoDup ns' /\ forall n, n ∈ ns' <-> n ∈ topics.
Proof.
  intros Ht. revert ns found logs. induction ranges as [|[a b] ranges IH]; intros ns found logs Hs Hcov; cbn [scan_ranges].
  { destruct Hs as (-> & Hnd & -> & Hsub). exists ns. split_and!; [done..|]. intros n. split; [apply Hsub|].
    intros [?|(? & ? & ? & Hx & _)]%Hcov; [done|]. set_solver. }
  destruct (ex_get_logs E topics a b) as (chunk & Hq & Hchunk). unfold abind. rewrite (query_Ok _ chunk s Hq).
  destruct (take_new_spec topics chunk ns found logs) as (ns' & Hs' & Hmono & Hnew); [|done|].
  { intros log (n & h & ? & ? & ? & _)%Hchunk. by exists n. }
  destruct (take_new _ found chunk logs) as [found' logs']. cbn [fst snd] in Hs'.
  destruct (Nat.eqb_spec (size found') (size (list_to_set topics : gset Z))) as [Hsz|_].
  - destruct Hs' as (-> & Hnd & -> & Hsub). exists ns'. split_and!; [done..|]. intros n. split; [apply Hsub|]. intros Hn.
    assert (list_to_set ns' ≡ (list_to_set topics : gset Z)) as Heq by (apply set_subseteq_size_equiv; [set_solver|lia]).
    apply (elem_of_list_to_set (C := gset Z)). rewrite Heq. by apply elem_of_list_to_set.
  - apply (IH ns'); [done|]. intros n Hn. destruct (Hcov n Hn) as [?|(x & y & h & Hxy & Hh & ?)]; [left; by apply Hmono|].
    apply elem_of_cons in Hxy as [[= <- <-]|Hxy]; [|right; by exists x, y, h]. left. apply Hnew; [by apply Ht|].
    apply Hchunk. exists n, h. split_and!; try done; lia || by apply Ht.
Qed.

Lemma fetch_logs_spec {S} topics (s : S) :
  topics <> [] -> (forall n, n ∈ topics -> 1 <= n <= latest) ->
  exists ns, fetch_batch_logs_by_topics C portal topics s = (Ok (log_of <$> ns), s) /\ NoDup ns /\
    forall n, n ∈ ns <-> n ∈ topics.
Proof.
  intros Hne Ht. destruct (ex_bounds E) as [Hb _].
  destruct (scan_ranges_spec topics (reverse_inclusive_block_ranges genesis tip L1_BATCH_LOG_QUERY_MAX_BLOCKS) [] ∅ [] s)
    as (ns & Hscan & Hnd & Hin); [done| |intros n Hn|].
  { split_and!; [done|constructor|done|set_solver]. }
  { right. destruct (ex_mined E n (Ht n Hn)) as (h & Hh & Hr).
    destruct (ranges_cover genesis tip L1_BATCH_LOG_QUERY_MAX_BLOCKS h) as (a & b & Hab & ?); [lia|done|done|].
    by exists a, b, h. }
  pose proof (sort_by_Permutation (fun a b => default 0 (log_batch_index a) <=? default 0 (log_batch_index b)) (log_of <$> ns)) as Hp.
  apply (Permutation_map_inv log_of) in Hp as (ns' & Hns' & Hp).
  exists ns'. split_and!; [| by rewrite <- Hp | intros n; by rewrite <- Hp, Hin].
  unfold fetch_batch_logs_by_topics. rewrite (proj2 (Z.eqb_neq portal 0)) by apply (ex_portal E).
  destruct topics as [|t topics]; [done|]. unfold abind. rewrite (query_Ok _ _ s (ex_genesis E)).
  rewrite (query_Ok _ _ s (ex_tip E)), (proj2 (Z.ltb_ge _ _)) by lia.
  rewrite Hscan. unfold aret. do 2 f_equal. exact Hns'.
Qed.

Lemma build_spec ns cache :
  (forall n, n ∈ ns -> 1 <= n <= latest) -> cache_ok cache ->
  exists cache', build_batch_summaries C A (log_of <$> ns) cache = (Ok (row <$> ns), cache') /\ cache_ok cache'.
Proof.
  revert cache. induction ns as [|n ns IH]; intros cache Hns Hc; [by exists cache|].
  assert (1 <= n <= latest) as Hn by (apply Hns; left). destruct (ex_event E n Hn) as [He Hi].
  assert (exists c1, build_batch_summary C A (log_of n) cache = (Ok (row n), c1) /\ cache_ok c1) as (c1 & H1 & Hc1).
  { unfold build_batch_summary, abind at 1. rewrite (query_Ok _ _ cache He), Hi. unfold cached_batch_summary.
    destruct (bt_lookup n cache) as [s|] eqn:Hl.
    - apply Hc in Hl as [_ ->]. by exists cache.
    - unfold abind. rewrite (ex_row E n cache Hn). cbn. eexists. split; [done|]. by apply insert_cache_ok. }
  destruct (IH c1) as (c2 & H2 & Hc2); [intros k Hk; apply Hns; by right|done|].
  exists c2. split; [|done]. cbn [fmap list_fmap build_batch_summaries]. unfold abind. rewrite H1.
  change (list_fmap _ _ log_of ns) with (log_of <$> ns). by rewrite H2.
Qed.

Lemma row_number n : 1 <= n <= latest -> bs_batch_number (row n) = n.
Proof.
  intros Hn. pose proof (ex_row E n [] Hn) as H. destruct (ex_event E n Hn) as [_ Hi]. unfold hydrate_batch_summary in H.
  repeat (let a := fresh "a" in apply abind_Ok in H as (a & ? & _ & H)). unfold aret in H. injection H as <- _. exact Hi.
Qed.

(** A page served from the cache alone. *)
Lemma omap_rows cache ns :
  cache_ok cache -> length (omap (fun n => cached_batch_summary n cache) ns) = length ns ->
  omap (fun n => cached_batch_summary n cache) ns = row <$> ns.
Proof.
  intros [_ Hc]. induction ns as [|n ns IH]; [done|]. rewrite !list_omap_cons.
  pose proof (omap_length_le (fun n => cached_batch_summary n cache) ns) as Hle.
  destruct (cached_batch_summary n cache) as [s|] eqn:Hl; cbn [length]; intros Hlen; [|lia].
  destruct (Hc n s Hl) as [_ ->]. cbn [fmap list_fmap]. f_equal. apply IH. lia.
Qed.

(** Rows of distinct batches in any order, sorted for the answer. *)
Lemma sort_rows ns a b :
  1 <= a -> b <= latest -> NoDup ns -> (forall n, n ∈ ns <-> a <= n <= b) -> sort_by number_desc (row <$> ns) = row <$> down a b.
Proof.
  intros Ha Hb Hnd Hin. set (R := fun x y => bs_batch_number y <= bs_batch_number x).
  apply (StronglySorted_unique_strong R).
  - intros x y Hx Hy Hxy Hyx. rewrite sort_by_Permutation in Hx.
    apply list_elem_of_fmap in Hx as (n & -> & Hn%Hin), Hy as (k & -> & Hk%elem_of_down).
    unfold R in Hxy, Hyx. rewrite !row_number in Hxy, Hyx by lia. f_equal. lia.
  - apply sort_number_desc.
  - apply StronglySorted_fmap_in with (R' := fun x y => y < x); [|apply down_sorted].
    intros x y Hx%elem_of_down Hy%elem_of_down Hlt. unfold R. rewrite !row_number by lia. lia.
  - rewrite sort_by_Permutation. apply fmap_Permutation, NoDup_Permutation; [done|apply NoDup_down|].
    intros n. by rewrite Hin, elem_of_down.
Qed.

(** The rows [start..=end], whether the cache has them all or not. *)
Lemma submitted_page_spec start end_ cache :
  1 <= start <= end_ -> end_ <= latest -> cache_ok cache ->
  exists rows cache', submitted_page C A portal start end_ cache = (Ok rows, cache') /\ cache_ok cache' /\
    sort_by number_desc rows = row <$> down start end_.
Proof.
  intros Hs He Hc. unfold submitted_page.
  assert (saturating_add U64_MAX (saturating_sub end_ start) 1 = end_ - start + 1) as ->
    by (pose proof (ex_bounds E); unfold saturating_add, saturating_sub; lia).
  set (ns := seqZ start (end_ - start + 1)).
  assert (Hin : forall n, n ∈ ns <-> start <= n <= end_) by (intros n; unfold ns; rewrite elem_of_seqZ; lia).
  destruct (Z.eqb_spec (Z.of_nat (length (omap (fun n => cached_batch_summary n cache) ns))) (end_ - start + 1)) as [Hl|_];
    cbn [negb].
  - eexists _, cache. split_and!; [done|done|].
    rewrite (omap_rows cache ns Hc); [apply sort_rows; [lia..|apply NoDup_seqZ|done]|].
    apply Nat2Z.inj. rewrite Hl. unfold ns. rewrite length_seqZ. lia.
  - unfold fetch_batch_logs_in_range. rewrite (proj2 (Z.eqb_neq portal 0)) by apply (ex_portal E).
    rewrite (proj2 (Z.ltb_ge end_ start)) by lia. unfold batch_number_topic. rewrite list_fmap_id. fold ns.
    destruct (fetch_logs_spec ns cache) as (ns' & Hf & Hnd & Hns').
    { intros Hnil. assert (start ∈ ns) as Hx by (apply Hin; lia). rewrite Hnil in Hx. set_solver. }
    { intros n Hn%Hin. lia. }
    destruct (build_spec ns' cache) as (cache' & Hb & Hc'); [intros n Hn%Hns'%Hin; lia|done|].
    exists (row <$> ns'), cache'. split_and!; [|done|apply sort_rows; [lia..|done|intros n; by rewrite Hns', Hin]].
    unfold abind. by rewrite Hf, Hb.
Qed.

(** A page of submitted batches below the cursor. *)
Lemma list_page limit c cache :
  2 <= c <= latest + 1 -> cache_ok cache ->
  exists cache' start, 1 <= start < c /\ cache_ok cache' /\
    zone_list_batches C A portal (mkListBatches limit (Some c)) cache =
      (Ok (mkBatchList (row <$> down start (c - 1)) (if 1 <? start then Some start else None)), cache').
Proof.
  intros Hc Hok. unfold zone_list_batches. cbn [lb_limit lb_cursor].
  set (lim := Z.max _ 1). assert (1 <= lim) by lia. clearbody lim.
  unfold latest_batch_number. rewrite (proj2 (Z.eqb_neq portal 0)) by apply (ex_portal E).
  unfold abind at 1. rewrite (query_Ok _ _ cache (ex_latest E)). unfold abind at 1, aret at 1. cbn beta iota zeta.
  assert (saturating_sub lim (Z.of_nat (length (option_list (@None BatchSummary)))) = lim) as -> by (unfold saturating_sub; cbn; lia).
  rewrite (proj2 (Z.eqb_neq latest 0)), (proj2 (Z.eqb_neq lim 0)) by lia. cbn [orb].
  assert (saturating_sub c 1 = c - 1) as Hc1 by (unfold saturating_sub; lia).
  destruct c as [|c|c]; [lia| |lia]. rewrite Hc1, (Z.min_l (Z.pos c - 1)) by lia.
  set (start := Z.max (saturating_sub (Z.pos c - 1) (saturating_sub lim 1)) 1).
  assert (1 <= start < Z.pos c) as Hs by (unfold start, saturating_sub; lia).
  destruct (submitted_page_spec start (Z.pos c - 1) cache) as (rows & cache' & Hp & Hok' & Hsort); [lia..|done|].
  exists cache', start. split_and!; [lia..|done|]. unfold abind. by rewrite Hp, Hsort.
Qed.

Lemma list_all_below limit fuel c cache :
  2 <= c <= latest + 1 -> c - 1 <= Z.of_nat fuel -> cache_ok cache ->
  list_all C A portal fuel limit (Some c) cache = Some (row <$> down 1 (c - 1)).
Proof.
  revert c cache. induction fuel as [|fuel IH]; intros c cache Hc Hf Hok; [lia|]. cbn [list_all].
  destruct (list_page limit c cache Hc Hok) as (cache' & start & Hs & Hok' & ->). cbn [bl_next_cursor bl_batches].
  destruct (Z.ltb_spec 1 start) as [H1|H1]; [|do 2 f_equal; f_equal; lia].
  rewrite (IH start cache') by (done || lia). cbn. by rewrite <- fmap_app, <- down_split by lia.
Qed.

(** The first page: the pending batch, then submitted ones. *)
Lemma list_first limit pending cache :
  cache_ok cache -> pending_batch_summary C portal latest cache = (Ok pending, cache) ->
  exists cache' c, 1 <= c <= latest + 1 /\ cache_ok cache' /\
    zone_list_batches C A portal (mkListBatches limit None) cache =
      (Ok (mkBatchList (option_list pending ++ (row <$> down c latest)) (if 1 <? c then Some c else None)), cache').
Proof.
  intros Hok Hpend. unfold zone_list_batches. cbn [lb_limit lb_cursor].
  set (lim := Z.max _ 1). assert (1 <= lim) by lia. clearbody lim. pose proof (ex_bounds E) as [_ Hb].
  unfold latest_batch_number. rewrite (proj2 (Z.eqb_neq portal 0)) by apply (ex_portal E).
  unfold abind at 1. rewrite (query_Ok _ _ cache (ex_latest E)). unfold abind at 1. rewrite Hpend.
  set (rem := saturating_sub lim (Z.of_nat (length (option_list pending)))).
  assert (0 <= rem) by (unfold rem, saturating_sub; lia). clearbody rem.
  destruct (Z.eqb_spec latest 0) as [Hz|Hz]; cbn [orb].
  { exists cache, 1. rewrite down_empty by lia. rewrite (proj2 (Z.ltb_ge 0 latest)) by lia. cbn [fmap list_fmap].
    rewrite app_nil_r. split_and!; [lia..|done|done]. }
  destruct (Z.eqb_spec rem 0) as [->|Hr].
  { exists cache, (latest + 1). rewrite down_empty, app_nil_r by lia. rewrite (proj2 (Z.ltb_lt 0 latest)) by lia.
    rewrite (proj2 (Z.ltb_lt 1 (latest + 1))) by lia. split_and!; [lia..|done|].
    cbn [andb Z.eqb]. unfold aret, saturating_add. by rewrite Z.min_r by lia. }
  set (start := Z.max (saturating_sub latest (saturating_sub rem 1)) 1).
  assert (1 <= start <= latest) as Hs by (unfold start, saturating_sub; lia).
  destruct (submitted_page_spec start latest cache) as (rows & cache' & Hp & Hok' & Hsort); [lia..|done|].
  exists cache', start. split_and!; [lia..|done|]. unfold abind. by rewrite Hp, Hsort.
Qed.

Lemma list_all_first limit fuel pending cache :
  latest < Z.of_nat fuel -> cache_ok cache -> pending_batch_summary C portal latest cache = (Ok pending, cache) ->
  list_all C A portal fuel limit None cache = Some (option_list pending ++ (row <$> down 1 latest)).
Proof.
  intros Hf Hok Hp. pose proof (ex_bounds E) as [_ Hb]. destruct fuel as [|fuel]; [lia|]. cbn [list_all].
  destruct (list_first limit pending cache Hok Hp) as (cache' & c & Hc & Hok' & ->). cbn [bl_next_cursor bl_batches].
  destruct (Z.ltb_spec 1 c) as [H1|H1]; [|do 3 f_equal; f_equal; lia].
  rewrite (list_all_below limit fuel c cache') by (done || lia). cbn.
  by rewrite <- app_assoc, <- fmap_app, <- down_split by lia.
Qed.

(** A batch looked up by number. *)
Lemma find_batch_spec n cache :
  cache_ok cache -> 1 <= n <= latest ->
  exists cache', zone_get_batch C A portal n cache = (Ok (Some (row n)), cache') /\ cache_ok cache'.
Proof.
  intros Hok Hn. unfold zone_get_batch. rewrite (proj2 (Z.eqb_neq n 0)) by lia. unfold find_batch.
  destruct (cached_batch_summary n cache) as [s|] eqn:Hl; [apply Hok in Hl as [_ ->]; by exists cache|].
  destruct (fetch_logs_spec [n] cache) as (ns & Hf & Hnd & Hin); [done|set_solver|].
  assert (ns = [n]) as ->.
  { apply Permutation_singleton_r, NoDup_Permutation; [done|apply NoDup_singleton|done]. }
  destruct (build_spec [n] cache) as (cache' & Hb & Hok'); [set_solver|done|]. exists cache'. split; [|done].
  unfold fetch_batch_log, batch_number_topic, abind. rewrite Hf. cbn [fmap list_fmap head aret].
  cbn [fmap list_fmap build_batch_summaries] in Hb. apply abind_Ok in Hb as (x & s1 & H1 & H2).
  rewrite H1. unfold abind, aret in H2 |- *. by simplify_eq.
Qed.
End Complete.

(** The batch explorer is complete: on chains that answer, a client that
    follows the cursors of [zone_listBatches] from the start collects, for any
    page size and whatever rows the cache holds, the pending batch if there is
    one and then every batch the portal accepted, once each and newest first;
    and [zone_getBatch] answers each of these batches with the same row. *)
Theorem list_batches_complete C A portal genesis tip latest log_of event_of row limit pending cache :
  Explorable C A portal genesis tip latest log_of event_of row ->
  cache_ok latest row cache ->
  pending_batch_summary C portal latest cache = (Ok pending, cache) ->
  list_all C A portal (S (Z.to_nat latest)) limit None cache = Some (option_list pending ++ (row <$> down 1 latest)) /\
  forall n, 1 <= n <= latest -> (zone_get_batch C A portal n cache).1 = Ok (Some (row n)).
Proof.
  intros E Hok Hp. split.
  - apply (list_all_first _ _ _ _ _ _ _ _ _ E); [lia|done..].
  - intros n Hn. by destruct (find_batch_spec _ _ _ _ _ _ _ _ _ E n cache Hok Hn) as (cache' & -> & _).
Qed.

(** ** Witness: two batches, and a cache that knows one of them *)

Module ExplorerExamples.
Definition log_of (n : Z) : Log := mkLog 3 [BATCH_SUBMITTED_TOPIC; n] [] None (Some (5 + n)) None (Some (900 + n)) None None false.
Definition event_of (n : Z) : BatchSubmitted := mkBatchSubmitted n 0 0 (50 + n) 0 0.
Definition in_range (f : Filter) (h : Z) : bool :=
  match f_block f with Range (Some (Number a)) (Some (Number b)) => (a <=? h) && (h <=? b) | _ => false end.
Definition chains : Chains := {|
  l1_get_logs f := Ok (filter (fun l => (match log_topics l with [_; n] => bool_decide (n ∈ f_topic1 f) | _ => false end &&
      in_range f (default 0 (log_block_number l))) = true) [log_of 1; log_of 2]);
  l1_get_block_number := Ok 100000; l1_block_timestamp n := Ok (Some (n * 12)); l1_transaction_input h := Ok (Some [h]);
  l1_receipt _ := Ok None; zone_get_logs _ := Ok []; zone_receipt_logs _ := Ok None; zone_latest_block := Ok (Some (30, 53));
  zone_block_by_hash h := Ok (if h =? 51 then Some (10, 7) else if h =? 52 then Some (20, 8) else None); zone_block_timestamp _ := Ok None;
  portal_genesis := Ok 5; portal_batch_index := Ok 2; portal_accepted_hash := Ok 52; tempo_state_number := Ok 99
|}.
Definition abi : ExplorerAbi := {|
  abi_batch_submitted l := match log_topics l with [_; n] => Ok (event_of n) | _ => Err "topics"%string end;
  abi_submit_batch input := Ok (mkSubmitCall 90 (match input with [902] => 51 | _ => 0 end));
  abi_darkpool _ := None
|}.
Definition row (n : Z) : BatchSummary :=
  match (hydrate_batch_summary chains abi (log_of n) (event_of n) []).1 with
  | Ok r => r
  | Err _ => mkSummary 0 None None 0 0 0 0 BFailed None None 0 0 [] [] None None
  end.

Lemma two n : 1 <= n <= 2 -> n = 1 \/ n = 2.
Proof. lia. Defined.

Lemma explorable : Explorable chains abi 3 5 100000 2 log_of event_of row.
Proof.
  split; try done; try (unfold U64_MAX; lia).
  - intros topics a b. eexists. split; [reflexivity|]. intros log. rewrite list_elem_of_filter. split.
    + intros [Hf Hin]. assert (log = log_of 1 \/ log = log_of 2) as [-> | ->] by set_solver;
        cbn in Hf; apply andb_true_iff in Hf as [Ht Hr]; apply bool_decide_eq_true in Ht; apply andb_true_iff in Hr as [Ha Hb].
      * exists 1, 6. rewrite elem_of_list_to_set in Ht. split_and!; try done; lia.
      * exists 2, 7. rewrite elem_of_list_to_set in Ht. split_and!; try done; lia.
    + intros (n & h & Hn & -> & Hin & Hh & Hab). injection Hh as <-.
      destruct (two n Hn) as [-> | ->]; (split; [|set_solver]); cbn;
        rewrite bool_decide_eq_true_2 by (by apply elem_of_list_to_set); cbn; apply andb_true_iff; split; lia.
  - intros n Hn. exists (5 + n). split; [done|lia].
  - intros n cache Hn. destruct (two n Hn) as [-> | ->]; by vm_compute.
Defined.

Lemma list_batches_complete_witness :
  exists pending, list_all chains abi 3 3 (Some 1) None (bt_insert 2 (row 2) []) = Some [pending; row 2; row 1] /\
    bs_batch_number pending = 3 /\ bs_zone_block_from pending = Some 21.
Proof.
  destruct (pending_batch_summary chains 3 2 (bt_insert 2 (row 2) [])) as [[[p|]|e] c] eqn:E; [|by vm_compute in E..].
  assert (c = bt_insert 2 (row 2) []) as -> by (vm_compute in E; by injection E as _ <-).
  exists p. split; [|vm_compute in E; by injection E as <-].
  refine (proj1 (list_batches_complete chains abi 3 5 100000 2 log_of event_of row (Some 1) (Some p) (bt_insert 2 (row 2) [])
    explorable _ E)).
  split; [repeat constructor|]. intros n s. cbn. destruct (Z.eqb_spec n 2) as [->|]; [|done]. by intros [= <-].
Defined.
End ExplorerExamples.
