(* ===== verification/RpcStatus.v ===== *)
(** * Private RPC: deposit and withdrawal status

    The handlers [zone_getDepositStatus] and [zone_getWithdrawalStatus] of
    node/src/rpc.rs with their helpers.  The chains answer through [Chains] of
    RpcExplorer.v; what the ABI crate decodes is the record [StatusAbi].  The
    handlers keep no state. *)

From stdpp Require Import gmap list strings.
From S2P Require Import Prelude.
From S2P Require Import RpcAuth.
From S2P Require Import RpcLogs.
From S2P Require Import RpcTypes.
From S2P Require Import RpcPolicy.
From S2P Require Import RpcDispatch.
From S2P Require Import Withdrawals.
From S2P Require Import Settlement.
From S2P Require Import Outbox.
From S2P Require Import RpcExplorer.
#[local] Open Scope string_scope.
#[local] Open Scope Z_scope.
#[local] Open Scope api_scope.

(** ** Event signatures *)

Definition DEPOSIT_MADE_TOPIC : Z := 0xfee50869847a4d073bfd83ec655472febff62beb46febf4ec48752f0686affd1.
Definition ENCRYPTED_DEPOSIT_MADE_TOPIC : Z := 0x4debdbd2891da07eb466d2025028a25aab636034cf3c941afd1025a0c590a07a.
Definition WITHDRAWAL_PROCESSED_TOPIC : Z := 0x65042ea6dad60c26f055e80ec401b3437c854ed586a0704d305bb4e9ea4518cf.
Definition WITHDRAWAL_BOUNCE_BACK_TOPIC : Z := 0x7ba6d89b38562b3336524835f84e5aa6be02a261e43e8f83867f1b92357c12f4.
Definition DEPOSIT_PROCESSED_TOPIC : Z := 0xd5277bc9597c7da3fab9cdbba4de6005f48b9eb7389cf2389c4ea9eea3172c21.
Definition DEPOSIT_FAILED_TOPIC : Z := 0x3c1af70310b8c9d43b0a7207217f398e4a3114f1728987c40addb451399ac87c.
Definition ENCRYPTED_DEPOSIT_PROCESSED_TOPIC : Z := 0xfc236d1b4402e76c2b0a882db36ad3a6fb0f5b6b7edc8ae317d993f10434c436.
Definition ENCRYPTED_DEPOSIT_FAILED_TOPIC : Z := 0x95705d99ac13cf82894fd274cd871942e6f301c98c186271337e8fedbbb9d7ea.
Definition DEPOSIT_REJECTED_TOPIC : Z := 0x4620415fad9c416306a56ca0ee640b3418628a5f2e45ddde3ddf7452a7a654fb.
Definition WITHDRAWAL_REQUESTED_TOPIC : Z := 0x348c28d1410ff29393c038fe0f1998384082e98e315624b24c04a4fa6288b9de.
Definition BATCH_FINALIZED_TOPIC : Z := 0xec4aff46c65f485f4b15e3c2edadda1d57d002995f5aa262a27c76b9a680ec16.

(** ** Data *)

Inductive PortalDepositRecord :=
  | PRegular (deposit_hash sender recipient bounceback_recipient token amount memo : Z)
  | PEncrypted (deposit_hash sender bounceback_recipient token amount : Z).

Inductive TerminalDepositEvent :=
  | RegularProcessed | RegularFailed | RegularRejected
  | EncryptedProcessed (recipient memo : Z) | EncryptedFailed | EncryptedRejected.

Inductive DepositKind := KRegular | KEncrypted.
Inductive DepositState := DPending | DProcessed | DFailed.
#[export] Instance DepositState_eq_dec : EqDecision DepositState.
Proof. solve_decision. Defined.

Record DepositStatusEntry := mkDepositEntry {
  de_deposit_hash : Z; de_kind : DepositKind; de_token : Z; de_sender : Z; de_recipient : option Z; de_amount : Z;
  de_memo : option Z; de_status : DepositState
}.
Record DepositStatusResponse := mkDepositStatus {
  ds_tempo_block_number : Z; ds_zone_processed_through : Z; ds_processed : bool; ds_deposits : list DepositStatusEntry
}.

Record WithdrawalRequestedRecord := mkRequestedRecord {
  rr_withdrawal_index : Z; rr_token : Z; rr_to : Z; rr_amount : Z; rr_fee : Z; rr_memo : Z; rr_gas_limit : Z;
  rr_fallback_recipient : Z; rr_callback_data : list Z; rr_zone_tx_hash : Z; rr_zone_block_number : Z
}.
Record BatchFinalizedRecord := mkBatchFinalized { bf_withdrawal_batch_index : Z; bf_withdrawal_queue_hash : Z }.
Record BatchSubmittedRecord := mkSubmittedRecord { sr_l1_tx_hash : Z; sr_l1_block_number : Z }.
Record TerminalWithdrawalEvent := mkTerminal { tw_l1_tx_hash : Z; tw_callback_success : bool; tw_bounced : bool }.
Record CandidateTerminal := mkCandidate { ct_l1_tx_hash : Z; ct_callback_success : bool }.
Inductive TerminalLookup := TNotFound | TSingle (t : TerminalWithdrawalEvent) | TAmbiguous.
Inductive TerminalCandidateOutcome (T : Type) := CNotFound | CSingle (t : T) | CAmbiguous.
Arguments CNotFound {T}.
Arguments CSingle {T}.
Arguments CAmbiguous {T}.

Inductive WithdrawalState := WPending | WBatched | WSubmitted | WProcessed | WFailed | WBounced.

Record WithdrawalStatusResponse := mkWithdrawalStatus {
  ws_withdrawal_index : Z; ws_zone_tx_hash : Z; ws_status : WithdrawalState; ws_token : Z; ws_amount : Z; ws_to : Z;
  ws_fallback_recipient : Z; ws_memo : Z; ws_zone_block_number : Z; ws_withdrawal_batch_index : option Z;
  ws_portal_slot : option Z; ws_l1_submit_batch_tx_hash : option Z; ws_l1_process_withdrawal_tx_hash : option Z;
  ws_callback_success : option bool; ws_error : option string
}.

(** The portal and inbox events as they are decoded. *)
Inductive PortalEvents :=
  | EvDepositMade (newCurrentDepositQueueHash sender to bouncebackRecipient token netAmount memo : Z)
  | EvEncryptedDepositMade (newCurrentDepositQueueHash sender bouncebackRecipient token netAmount : Z)
  | EvOther.
Inductive AbiDepositType := AbiRegular | AbiEncrypted | AbiInvalid.
Record ProcessedEvent := mkProcessed { pe_token : Z; pe_amount : Z; pe_callbackSuccess : bool }.
Record BounceEvent := mkBounce { be_fallbackRecipient : Z; be_token : Z; be_amount : Z }.

Record StatusAbi := mkStatusAbi {
  abi_portal_events : Log -> result string PortalEvents;
  abi_deposit_processed : Log -> result string unit;
  abi_deposit_failed : Log -> result string unit;
  abi_encrypted_processed : Log -> result string (Z * Z);
  abi_encrypted_failed : Log -> result string unit;
  abi_deposit_rejected : Log -> result string AbiDepositType;
  abi_withdrawal_requested : Log -> result string WithdrawalRequested;
  abi_batch_finalized : Log -> result string (Z * Z);
  abi_batch_submitted_event : Log -> result string BatchSubmitted;
  abi_withdrawal_processed : Log -> result string ProcessedEvent;
  abi_bounce_back : Log -> result string BounceEvent;
  abi_process_withdrawal : list Z -> option Withdrawal
}.

(** ** Pure steps *)

Definition withdrawal_status_from_terminal (terminal : TerminalWithdrawalEvent) : WithdrawalState :=
  if tw_callback_success terminal then WProcessed else if tw_bounced terminal then WBounced else WFailed.

Definition withdrawal_matches (l1_withdrawal : Withdrawal) (requested : WithdrawalRequestedRecord)
    (expected_sender_tag : Z) : bool :=
  (w_token l1_withdrawal =? rr_token requested) && (w_senderTag l1_withdrawal =? expected_sender_tag) &&
  (w_to l1_withdrawal =? rr_to requested) && (w_amount l1_withdrawal =? rr_amount requested) &&
  (w_fee l1_withdrawal =? rr_fee requested) && (w_memo l1_withdrawal =? rr_memo requested) &&
  (w_gasLimit l1_withdrawal =? rr_gas_limit requested) &&
  (w_fallbackRecipient l1_withdrawal =? rr_fallback_recipient requested) &&
  bool_decide (w_callbackData l1_withdrawal = rr_callback_data requested).

Definition classify_terminal_candidates {T} (candidates : list T) : TerminalCandidateOutcome T :=
  match candidates with [] => CNotFound | [c] => CSingle c | _ => CAmbiguous end.

Definition regular_deposit_status (terminal : option TerminalDepositEvent) : result JsonRpcError DepositState :=
  match terminal with
  | Some RegularProcessed => Ok DProcessed
  | Some (RegularFailed | RegularRejected) => Ok DFailed
  | Some (EncryptedProcessed _ _) => Err (internal "encrypted deposit event matched regular deposit hash")
  | Some (EncryptedFailed | EncryptedRejected) => Err (internal "encrypted deposit failure matched regular deposit hash")
  | None => Ok DPending
  end.

Definition encrypted_deposit_details (terminal : option TerminalDepositEvent)
    : result JsonRpcError (option Z * option Z * DepositState) :=
  match terminal with
  | Some (EncryptedProcessed recipient memo) => Ok (Some recipient, Some memo, DProcessed)
  | Some (EncryptedFailed | EncryptedRejected) => Ok (None, None, DFailed)
  | Some (RegularProcessed | RegularFailed | RegularRejected) =>
    Err (internal "regular deposit event matched encrypted deposit hash")
  | None => Ok (None, None, DPending)
  end.

Section Status.
Context {S : Type} (C : Chains) (A : StatusAbi) (zone_portal : Z) (keccak256 : list Z -> Z).

(** A result as a step. *)
Definition of_result {T} (r : result JsonRpcError T) : Api S T := fun s => (r, s).

(** ** Deposits *)

Definition deposits_filter (tempo_block_number : Z) : Filter :=
  mkFilter (Range (Some (Number tempo_block_number)) (Some (Number tempo_block_number))) {[ zone_portal ]}
    {[ DEPOSIT_MADE_TOPIC; ENCRYPTED_DEPOSIT_MADE_TOPIC ]} ∅ ∅ ∅.

(** The loop over the logs; [?] ends it at the first that does not decode. *)
Fixpoint decode_deposits (logs : list Log) : Api S (list PortalDepositRecord) :=
  match logs with
  | [] => aret []
  | log :: logs' =>
    event <- query (abi_portal_events A log);
    rest <- decode_deposits logs';
    aret (match event with
          | EvDepositMade hash sender to bounceback token amount memo =>
            PRegular hash sender to bounceback token amount memo :: rest
          | EvEncryptedDepositMade hash sender bounceback token amount =>
            PEncrypted hash sender bounceback token amount :: rest
          | EvOther => rest
          end)
  end.

Definition portal_deposits_for_block (tempo_block_number : Z) : Api S (list PortalDepositRecord) :=
  if zone_portal =? 0 then portal_not_configured
  else logs <- query (l1_get_logs C (deposits_filter tempo_block_number)); decode_deposits logs.

Definition terminal_filter (deposit_hash : Z) : Filter :=
  mkFilter (Range (Some (Number 0)) None) {[ ZONE_INBOX_ADDRESS ]}
    {[ DEPOSIT_PROCESSED_TOPIC; DEPOSIT_FAILED_TOPIC; ENCRYPTED_DEPOSIT_PROCESSED_TOPIC;
       ENCRYPTED_DEPOSIT_FAILED_TOPIC; DEPOSIT_REJECTED_TOPIC ]}
    {[ deposit_hash ]} ∅ ∅.

(** The event a log of the inbox tells. *)
Definition classify_terminal (log : Log) : Api S (option TerminalDepositEvent) :=
  match topic0 log with
  | None => aret None
  | Some signature =>
    if signature =? DEPOSIT_PROCESSED_TOPIC then _ <- query (abi_deposit_processed A log); aret (Some RegularProcessed)
    else if signature =? DEPOSIT_FAILED_TOPIC then _ <- query (abi_deposit_failed A log); aret (Some RegularFailed)
    else if signature =? ENCRYPTED_DEPOSIT_PROCESSED_TOPIC then
      event <- query (abi_encrypted_processed A log); aret (Some (EncryptedProcessed event.1 event.2))
    else if signature =? ENCRYPTED_DEPOSIT_FAILED_TOPIC then
      _ <- query (abi_encrypted_failed A log); aret (Some EncryptedFailed)
    else if signature =? DEPOSIT_REJECTED_TOPIC then
      ty <- query (abi_deposit_rejected A log);
      aret (match ty with AbiRegular => Some RegularRejected | AbiEncrypted => Some EncryptedRejected | AbiInvalid => None end)
    else aret None
  end.

Definition terminal_event_for_deposit (deposit_hash : Z) : Api S (option TerminalDepositEvent) :=
  logs <- query (zone_get_logs C (terminal_filter deposit_hash));
  match last logs with None => aret None | Some log => classify_terminal log end.

(** One record of the portal: its entry, if the caller may see it. *)
Definition deposit_entry (caller : Z) (deposit : PortalDepositRecord) : Api S (option DepositStatusEntry) :=
  match deposit with
  | PRegular hash sender recipient bounceback token amount memo =>
    if negb (sender =? caller) && negb (recipient =? caller) && negb (bounceback =? caller) then aret None
    else
      terminal <- terminal_event_for_deposit hash;
      status <- of_result (regular_deposit_status terminal);
      aret (Some (mkDepositEntry hash KRegular token sender (Some recipient) amount (Some memo) status))
  | PEncrypted hash sender bounceback token amount =>
    terminal <- terminal_event_for_deposit hash;
    let include :=
      if (sender =? caller) || (bounceback =? caller) then true
      else match terminal with Some (EncryptedProcessed recipient _) => recipient =? caller | _ => false end in
    if negb include then aret None
    else
      details <- of_result (encrypted_deposit_details terminal);
      let '(recipient, memo, status) := (details : option Z * option Z * DepositState) in
      aret (Some (mkDepositEntry hash KEncrypted token sender recipient amount memo status))
  end.

Fixpoint deposit_entries (caller : Z) (records : list PortalDepositRecord) : Api S (list DepositStatusEntry) :=
  match records with
  | [] => aret []
  | r :: records' =>
    e <- deposit_entry caller r; es <- deposit_entries caller records'; aret (option_list e ++ es)%list
  end.

Definition zone_get_deposit_status (tempo_block_number : Z) (auth : AuthContext) : Api S DepositStatusResponse :=
  zone_processed_through <- query (tempo_state_number C);
  portal_deposits <- portal_deposits_for_block tempo_block_number;
  deposits <- deposit_entries (auth_caller auth) portal_deposits;
  let processed := (tempo_block_number <=? zone_processed_through) &&
    forallb (fun d => negb (bool_decide (de_status d = DPending))) deposits in
  aret (mkDepositStatus tempo_block_number zone_processed_through processed deposits).

(** ** Withdrawals *)

Definition requested_filter (index : Z) : Filter :=
  mkFilter (Range (Some (Number 0)) None) {[ ZONE_OUTBOX_ADDRESS ]} {[ WITHDRAWAL_REQUESTED_TOPIC ]} {[ index ]} ∅ ∅.

(** The first request of the caller among the logs. *)
Fixpoint find_requested (caller : Z) (logs : list Log) : Api S (option WithdrawalRequestedRecord) :=
  match logs with
  | [] => aret None
  | log :: logs' =>
    if negb (log_address log =? ZONE_OUTBOX_ADDRESS) then find_requested caller logs'
    else if negb (bool_decide (topic0 log = Some WITHDRAWAL_REQUESTED_TOPIC)) then find_requested caller logs'
    else
      event <- query (abi_withdrawal_requested A log);
      if negb (wr_sender event =? caller) then find_requested caller logs'
      else match log_transaction_hash log, log_block_number log with
      | Some zone_tx_hash, Some zone_block_number =>
        aret (Some (mkRequestedRecord (wr_withdrawalIndex event) (wr_token event) (wr_to event) (wr_amount event)
          (wr_fee event) (wr_memo event) (wr_gasLimit event) (wr_fallbackRecipient event) (wr_data event) zone_tx_hash
          zone_block_number))
      | _, _ => find_requested caller logs'
      end
  end.

Definition find_withdrawal_requested (q : WithdrawalStatusQuery) (caller : Z)
    : Api S (option WithdrawalRequestedRecord) :=
  match q with
  | TxHash tx_hash =>
    receipt <- query (zone_receipt_logs C tx_hash);
    match receipt with None => aret None | Some logs => find_requested caller logs end
  | WithdrawalIndex idx => logs <- query (zone_get_logs C (requested_filter idx)); find_requested caller logs
  end.

Definition finalized_filter (zone_block_number : Z) : Filter :=
  mkFilter (Range (Some (Number zone_block_number)) (Some (Number zone_block_number))) {[ ZONE_OUTBOX_ADDRESS ]}
    {[ BATCH_FINALIZED_TOPIC ]} ∅ ∅ ∅.

Fixpoint find_finalized (logs : list Log) : Api S (option BatchFinalizedRecord) :=
  match logs with
  | [] => aret None
  | log :: logs' =>
    event <- query (abi_batch_finalized A log);
    let '(withdrawalQueueHash, withdrawalBatchIndex) := (event : Z * Z) in
    if withdrawalQueueHash =? 0 then find_finalized logs'
    else aret (Some (mkBatchFinalized withdrawalBatchIndex withdrawalQueueHash))
  end.

Definition find_batch_finalized_for_block (zone_block_number : Z) : Api S (option BatchFinalizedRecord) :=
  logs <- query (zone_get_logs C (finalized_filter zone_block_number)); find_finalized logs.

Fixpoint find_submitted (expected_queue_hash : Z) (logs : list Log) : Api S (option BatchSubmittedRecord) :=
  match logs with
  | [] => aret None
  | log :: logs' =>
    event <- query (abi_batch_submitted_event A log);
    if negb (bs_withdrawalQueueHash event =? expected_queue_hash) then find_submitted expected_queue_hash logs'
    else match log_transaction_hash log, log_block_number log with
    | Some l1_tx_hash, Some l1_block_number => aret (Some (mkSubmittedRecord l1_tx_hash l1_block_number))
    | _, _ => find_submitted expected_queue_hash logs'
    end
  end.

Definition find_l1_batch_submitted (withdrawal_batch_index expected_queue_hash : Z)
    : Api S (option BatchSubmittedRecord) :=
  if zone_portal =? 0 then aret None
  else
    logs <- fetch_batch_logs_by_topics C zone_portal [batch_number_topic withdrawal_batch_index];
    find_submitted expected_queue_hash logs.

Definition processed_filter (to from_block : Z) : Filter :=
  mkFilter (Range (Some (Number from_block)) None) {[ zone_portal ]} {[ WITHDRAWAL_PROCESSED_TOPIC ]}
    {[ topic_for_address to ]} ∅ ∅.

Fixpoint terminal_candidates (withdrawal : WithdrawalRequestedRecord) (expected_sender_tag : Z) (logs : list Log)
    : Api S (list CandidateTerminal) :=
  match logs with
  | [] => aret []
  | log :: logs' =>
    event <- query (abi_withdrawal_processed A log);
    if negb (pe_token event =? rr_token withdrawal) || negb (pe_amount event =? rr_amount withdrawal)
    then terminal_candidates withdrawal expected_sender_tag logs'
    else match log_transaction_hash log with
    | None => terminal_candidates withdrawal expected_sender_tag logs'
    | Some l1_tx_hash =>
      tx <- query (l1_transaction_input C l1_tx_hash);
      match tx with
      | None => terminal_candidates withdrawal expected_sender_tag logs'
      | Some input =>
        match abi_process_withdrawal A input with
        | None => terminal_candidates withdrawal expected_sender_tag logs'
        | Some w =>
          if negb (withdrawal_matches w withdrawal expected_sender_tag)
          then terminal_candidates withdrawal expected_sender_tag logs'
          else
            rest <- terminal_candidates withdrawal expected_sender_tag logs';
            aret (mkCandidate l1_tx_hash (pe_callbackSuccess event) :: rest)
        end
      end
    end
  end.

Fixpoint find_bounce (withdrawal : WithdrawalRequestedRecord) (logs : list Log) : Api S bool :=
  match logs with
  | [] => aret false
  | log :: logs' =>
    if negb (log_address log =? zone_portal) then find_bounce withdrawal logs'
    else if negb (bool_decide (topic0 log = Some WITHDRAWAL_BOUNCE_BACK_TOPIC)) then find_bounce withdrawal logs'
    else
      event <- query (abi_bounce_back A log);
      if (be_fallbackRecipient event =? rr_fallback_recipient withdrawal) && (be_token event =? rr_token withdrawal) &&
         (be_amount event =? rr_amount withdrawal) then aret true
      else find_bounce withdrawal logs'
  end.

Definition bounce_back_in_tx (l1_tx_hash : Z) (withdrawal : WithdrawalRequestedRecord) : Api S bool :=
  receipt <- query (l1_receipt C l1_tx_hash);
  match receipt with None => aret false | Some (logs, _) => find_bounce withdrawal logs end.

Definition find_l1_withdrawal_terminal (withdrawal : WithdrawalRequestedRecord) (expected_sender_tag from_block : Z)
    : Api S TerminalLookup :=
  if zone_portal =? 0 then aret TNotFound
  else
    logs <- query (l1_get_logs C (processed_filter (rr_to withdrawal) from_block));
    candidates <- terminal_candidates withdrawal expected_sender_tag logs;
    match classify_terminal_candidates candidates with
    | CNotFound => aret TNotFound
    | CAmbiguous => aret TAmbiguous
    | CSingle candidate =>
      bounced <- (if ct_callback_success candidate then aret false
                  else bounce_back_in_tx (ct_l1_tx_hash candidate) withdrawal);
      aret (TSingle (mkTerminal (ct_l1_tx_hash candidate) (ct_callback_success candidate) bounced))
    end.

(** The answer of each stage. *)
Definition status_response (w : WithdrawalRequestedRecord) (status : WithdrawalState)
    (batch_index l1_submit l1_process : option Z) (callback_success : option bool) (error : option string)
    : WithdrawalStatusResponse :=
  mkWithdrawalStatus (rr_withdrawal_index w) (rr_zone_tx_hash w) status (rr_token w) (rr_amount w) (rr_to w)
    (rr_fallback_recipient w) (rr_memo w) (rr_zone_block_number w) batch_index None l1_submit l1_process
    callback_success error.

(** [None] is the JSON null. *)
Definition zone_get_withdrawal_status (q : WithdrawalStatusQuery) (auth : AuthContext)
    : Api S (option WithdrawalStatusResponse) :=
  found <- find_withdrawal_requested q (auth_caller auth);
  match found with
  | None => aret None
  | Some w =>
    finalized <- find_batch_finalized_for_block (rr_zone_block_number w);
    match finalized with
    | None => aret (Some (status_response w WPending None None None None None))
    | Some bf =>
      let index := Some (bf_withdrawal_batch_index bf) in
      submitted <- find_l1_batch_submitted (bf_withdrawal_batch_index bf) (bf_withdrawal_queue_hash bf);
      match submitted with
      | None => aret (Some (status_response w WBatched index None None None None))
      | Some sr =>
        let submit := Some (sr_l1_tx_hash sr) in
        terminal <- find_l1_withdrawal_terminal w (sender_tag keccak256 (auth_caller auth) (rr_zone_tx_hash w))
          (sr_l1_block_number sr);
        aret (Some (match terminal with
          | TNotFound => status_response w WSubmitted index submit None None None
          | TAmbiguous => status_response w WSubmitted index submit None None (Some "ambiguous_terminal_match")
          | TSingle t =>
            let status := withdrawal_status_from_terminal t in
            status_response w status index submit (Some (tw_l1_tx_hash t)) (Some (tw_callback_success t))
              (match status with
               | WFailed => Some "withdrawal callback reverted on L1"
               | WBounced => Some "withdrawal bounced to fallback recipient on L1"
               | _ => None
               end)
          end))
      end
    end
  end.
End Status.
