(* ===== verification/RpcStatusProofs.v ===== *)
(** * Private RPC: what deposit and withdrawal status tell

    A caller's deposit status does not depend on deposits of others; a
    withdrawal status is only about a request of the caller, and a terminal
    state about an L1 transaction with that very withdrawal; and, with the
    payload builder, which withdrawals are reported pending for ever. *)

From stdpp Require Import gmap list strings.
From S2P Require Import Prelude.
From S2P Require Import TempoState.
From S2P Require Import L1State.
From S2P Require Import DepositQueue.
From S2P Require Import PrepareBlock.
From S2P Require Import Withdrawals.
From S2P Require Import Settlement.
From S2P Require Import Outbox.
From S2P Require Import OutboxProofs.
From S2P Require Import Payload.
From S2P Require Import PayloadProofs.
From S2P Require Import RpcAuth.
From S2P Require Import RpcLogs.
From S2P Require Import RpcTypes.
From S2P Require Import RpcPolicy.
From S2P Require Import RpcDispatch.
From S2P Require Import RpcExplorer.
From S2P Require Import RpcExplorerProofs.
From S2P Require Import RpcStatus.
#[local] Open Scope Z_scope.
#[local] Open Scope api_scope.

(** ** Deposits *)

Lemma abind_eq {S X Y} (m : Api S X) (f : X -> Api S Y) s r :
  m s = (r, s) -> abind m f s = match r with Ok x => f x s | Err e => (Err e, s) end.
Proof. unfold abind. by intros ->. Qed.

Lemma query_bind {S X Y} (r : result string X) (f : X -> Api S Y) s :
  abind (query r) f s = match r with Ok x => f x s | Err text => (Err (internal text), s) end.
Proof. by destruct r. Qed.

Section Deposits.
Context (C : Chains) (A : StatusAbi).

(** The lookup of a deposit's fate, which keeps no state. *)
Definition terminal_of (hash : Z) : result JsonRpcError (option TerminalDepositEvent) :=
  (terminal_event_for_deposit C A hash tt).1.

Lemma terminal_stateless {S} hash (s : S) : terminal_event_for_deposit C A hash s = (terminal_of hash, s).
Proof.
  unfold terminal_of, terminal_event_for_deposit. rewrite !query_bind. destruct (zone_get_logs C _) as [logs|]; [|done].
  destruct (last logs) as [log|]; [|done]. unfold classify_terminal. destruct (topic0 log) as [t|]; [|done].
  repeat (case_match; [rewrite !query_bind; case_match; done|]). done.
Qed.

Definition record_hash (r : PortalDepositRecord) : Z :=
  match r with PRegular hash _ _ _ _ _ _ => hash | PEncrypted hash _ _ _ _ => hash end.

(** The caller is the sender, the bounce-back recipient, or the recipient, who
    for an encrypted deposit is known once it has been processed. *)
Definition concerns (caller : Z) (r : PortalDepositRecord) : Prop :=
  match r with
  | PRegular _ sender recipient bounceback _ _ _ => sender = caller \/ recipient = caller \/ bounceback = caller
  | PEncrypted hash sender bounceback _ _ => sender = caller \/ bounceback = caller \/
      match terminal_of hash with Ok (Some (EncryptedProcessed recipient _)) => recipient = caller | _ => False end
  end.
#[export] Instance concerns_dec caller r : Decision (concerns caller r).
Proof. destruct r; cbn; repeat case_match; apply _. Defined.

Definition looked_up (r : PortalDepositRecord) : Prop :=
  match r with PRegular _ _ _ _ _ _ _ => True | PEncrypted hash _ _ _ _ => is_ok (terminal_of hash) = true end.

Lemma deposit_entry_hidden {S} caller r (s : S) :
  ~ concerns caller r -> looked_up r -> deposit_entry C A caller r s = (Ok None, s).
Proof.
  destruct r as [hash sender rcp bb token amount memo|hash sender bb token amount]; cbn [deposit_entry concerns looked_up].
  - intros H _. rewrite !(proj2 (Z.eqb_neq _ _)) by tauto. done.
  - intros H Hok. rewrite (abind_eq _ _ _ _ (terminal_stateless hash s)).
    destruct (terminal_of hash) as [t|]; [|done]. rewrite !(proj2 (Z.eqb_neq _ _)) by tauto. cbn.
    destruct t as [[]|]; try done. rewrite (proj2 (Z.eqb_neq _ _)) by tauto. done.
Qed.

Lemma deposit_entries_filter {S} caller rs (s : S) :
  Forall looked_up rs -> deposit_entries C A caller rs s = deposit_entries C A caller (filter (concerns caller) rs) s.
Proof.
  induction 1 as [|r rs Hr _ IH]; [done|]. rewrite filter_cons. cbn [deposit_entries]. case_decide as Hc.
  - cbn [deposit_entries]. unfold abind at 1 3. destruct (deposit_entry C A caller r s) as [[e|] s1] eqn:He; [|done].
    assert (s1 = s) as ->.
    { destruct r; cbn in He; repeat case_match; unfold of_result, aret in He; simplify_eq/=; try done;
        rewrite (abind_eq _ _ _ _ (terminal_stateless _ s)) in He; unfold abind, of_result, aret in He;
        repeat case_match; by simplify_eq. }
    unfold abind. by rewrite IH.
  - rewrite (abind_eq _ _ _ (Ok None)) by by apply deposit_entry_hidden. rewrite <- IH. unfold abind, aret.
    destruct (deposit_entries C A caller rs s) as [[es|] s1]; done.
Qed.
End Deposits.

Lemma deposit_entries_agree {S} C C' A caller rs (s : S) :
  (forall r, r ∈ rs -> terminal_of C A (record_hash r) = terminal_of C' A (record_hash r)) ->
  deposit_entries C A caller rs s = deposit_entries C' A caller rs s.
Proof.
  revert s. induction rs as [|r rs IH]; intros s H; [done|]. cbn [deposit_entries].
  assert (He : deposit_entry C A caller r s = deposit_entry C' A caller r s).
  { assert (Ht : terminal_event_for_deposit C A (record_hash r) s = terminal_event_for_deposit C' A (record_hash r) s).
    { rewrite !terminal_stateless. f_equal. apply H. left. }
    destruct r; cbn [deposit_entry record_hash] in *; unfold abind; [destruct (_ && _); [done|]|]; by rewrite Ht. }
  unfold abind. rewrite He. destruct (deposit_entry C' A caller r s) as [[e|] s1]; [|done].
  rewrite IH; [done|]. intros r' Hr'. apply H. by right.
Qed.

(** C22. Deposits of others do not show.  Two states of the chains in which the
    same deposits of a Tempo block concern the caller and had the same fate,
    and the zone is equally far, give the caller the same deposit status,
    whatever other deposits the block has and whatever became of them. *)
Theorem deposit_status_noninterference {S} C C' A portal number auth rs rs' (s : S) :
  tempo_state_number C = tempo_state_number C' ->
  portal_deposits_for_block C A portal number s = (Ok rs, s) -> Forall (looked_up C A) rs ->
  portal_deposits_for_block C' A portal number s = (Ok rs', s) -> Forall (looked_up C' A) rs' ->
  filter (concerns C A (auth_caller auth)) rs = filter (concerns C' A (auth_caller auth)) rs' ->
  (forall r, r ∈ rs -> concerns C A (auth_caller auth) r -> terminal_of C A (record_hash r) = terminal_of C' A (record_hash r)) ->
  zone_get_deposit_status C A portal number auth s = zone_get_deposit_status C' A portal number auth s.
Proof.
  intros Ht Hrs Hl Hrs' Hl' Hf Hfate. unfold zone_get_deposit_status. rewrite !query_bind, <- Ht.
  destruct (tempo_state_number C) as [through|]; [|done]. rewrite (abind_eq _ _ _ _ Hrs), (abind_eq _ _ _ _ Hrs').
  assert (He : deposit_entries C A (auth_caller auth) rs s = deposit_entries C' A (auth_caller auth) rs' s).
  { rewrite (deposit_entries_filter C A _ rs s Hl), (deposit_entries_filter C' A _ rs' s Hl'), <- Hf.
    apply deposit_entries_agree. intros r [Hc Hr]%list_elem_of_filter. by apply Hfate. }
  unfold abind. by rewrite He.
Qed.

(** ** Withdrawals *)

Section Withdrawals.
Context {S : Type} (C : Chains) (A : StatusAbi) (portal : Z) (keccak256 : list Z -> Z).

(** The logs a query looks at. *)
Definition query_logs (q : WithdrawalStatusQuery) : result string (list Log) :=
  match q with
  | TxHash tx_hash => match zone_receipt_logs C tx_hash with Ok (Some logs) => Ok logs | Ok None => Ok [] | Err e => Err e end
  | WithdrawalIndex idx => zone_get_logs C (requested_filter idx)
  end.

(** A log of the outbox that tells a request. *)
Definition requests (log : Log) (event : WithdrawalRequested) : Prop :=
  log_address log = ZONE_OUTBOX_ADDRESS /\ topic0 log = Some WITHDRAWAL_REQUESTED_TOPIC /\
  abi_withdrawal_requested A log = Ok event.

Definition recorded (log : Log) (event : WithdrawalRequested) (w : WithdrawalRequestedRecord) : Prop :=
  exists tx block, log_transaction_hash log = Some tx /\ log_block_number log = Some block /\
    w = mkRequestedRecord (wr_withdrawalIndex event) (wr_token event) (wr_to event) (wr_amount event)
          (wr_fee event) (wr_memo event) (wr_gasLimit event) (wr_fallbackRecipient event) (wr_data event) tx block.

Lemma find_requested_eq q caller (s : S) :
  find_withdrawal_requested C A q caller s =
  match query_logs q with Ok logs => find_requested A caller logs s | Err text => (Err (internal text), s) end.
Proof.
  destruct q as [h|i]; cbn [find_withdrawal_requested query_logs]; rewrite query_bind; [|done].
  by destruct (zone_receipt_logs C h) as [[logs|]|].
Qed.

Lemma find_requested_Some caller logs (s s' : S) w :
  find_requested A caller logs s = (Ok (Some w), s') ->
  s' = s /\ exists log event, log ∈ logs /\ requests log event /\ wr_sender event = caller /\ recorded log event w.
Proof.
  induction logs as [|log logs IH]; cbn [find_requested]; [done|].
  assert (Hin : (s' = s /\ exists log event, log ∈ logs /\ requests log event /\ wr_sender event = caller /\ recorded log event w) ->
    s' = s /\ exists log0 event, log0 ∈ log :: logs /\ requests log0 event /\ wr_sender event = caller /\ recorded log0 event w).
  { intros (? & l & e & ? & ?). split; [done|]. exists l, e. split; [by right|done]. }
  destruct (Z.eqb_spec (log_address log) ZONE_OUTBOX_ADDRESS) as [Ha|]; cbn [negb]; [|by auto].
  case_bool_decide as Htop; cbn [negb]; [|by auto]. rewrite query_bind.
  destruct (abi_withdrawal_requested A log) as [ev|] eqn:Hd; [|done].
  destruct (Z.eqb_spec (wr_sender ev) caller) as [Hc|]; cbn [negb]; [|by auto].
  destruct (log_transaction_hash log) as [tx|] eqn:Htx; [|by auto].
  destruct (log_block_number log) as [bn|] eqn:Hbn; [|by auto].
  intros [= <- <-]. split; [done|]. exists log, ev. split; [left|]. split; [done|]. split; [done|]. by exists tx, bn.
Qed.

Lemma find_requested_None caller logs (s : S) :
  (forall log, log ∈ logs -> log_address log = ZONE_OUTBOX_ADDRESS -> topic0 log = Some WITHDRAWAL_REQUESTED_TOPIC ->
     exists event, abi_withdrawal_requested A log = Ok event /\ wr_sender event <> caller) ->
  find_requested A caller logs s = (Ok None, s).
Proof.
  induction logs as [|log logs IH]; intros H; cbn [find_requested]; [done|].
  assert (IH' : find_requested A caller logs s = (Ok None, s)) by (apply IH; intros ? ?; apply H; by right).
  destruct (Z.eqb_spec (log_address log) ZONE_OUTBOX_ADDRESS) as [Ha|]; cbn [negb]; [|done].
  case_bool_decide as Htop; cbn [negb]; [|done]. rewrite query_bind.
  destruct (H log) as (ev & -> & Hne); [left|done..|]. by rewrite (proj2 (Z.eqb_neq _ _) Hne).
Qed.

(** An L1 transaction that pays the withdrawal of a request. *)
Definition settles (tx : Z) (w : WithdrawalRequestedRecord) (caller : Z) : Prop :=
  exists input l1, l1_transaction_input C tx = Ok (Some input) /\ abi_process_withdrawal A input = Some l1 /\
    w_senderTag l1 = sender_tag keccak256 caller (rr_zone_tx_hash w) /\
    w_token l1 = rr_token w /\ w_to l1 = rr_to w /\ w_amount l1 = rr_amount w /\ w_fee l1 = rr_fee w /\
    w_memo l1 = rr_memo w /\ w_gasLimit l1 = rr_gas_limit w /\ w_fallbackRecipient l1 = rr_fallback_recipient w /\
    w_callbackData l1 = rr_callback_data w.

Lemma candidates_settle w caller logs (s s' : S) cs :
  terminal_candidates C A w (sender_tag keccak256 caller (rr_zone_tx_hash w)) logs s = (Ok cs, s') ->
  Forall (fun c => settles (ct_l1_tx_hash c) w caller) cs.
Proof.
  revert s s' cs. induction logs as [|log logs IH]; intros s s' cs; cbn [terminal_candidates]; [intros [= <- _]; constructor|].
  rewrite query_bind. destruct (abi_withdrawal_processed A log) as [ev|]; [|done].
  destruct (_ || _); [by apply IH|]. destruct (log_transaction_hash log) as [tx|]; [|by apply IH].
  rewrite query_bind. destruct (l1_transaction_input C tx) as [[input|]|] eqn:Hi; [|by apply IH|done].
  destruct (abi_process_withdrawal A input) as [l1|] eqn:Hp; [|by apply IH].
  destruct (withdrawal_matches l1 w _) eqn:Hm; cbn [negb]; [|by apply IH].
  intros H. unfold abind in H. destruct (terminal_candidates C A w _ logs s) as [[rest|] s1] eqn:Hr; [|done].
  injection H as <- _. constructor; [|by eapply IH]. cbn. unfold withdrawal_matches in Hm.
  rewrite !andb_true_iff, !Z.eqb_eq, bool_decide_eq_true in Hm. exists input, l1. destruct_and! Hm. by split_and!.
Qed.

(** The answer after the request has been found. *)
Lemma terminal_sound w caller from_block (s s' : S) t :
  find_l1_withdrawal_terminal C A portal w (sender_tag keccak256 caller (rr_zone_tx_hash w)) from_block s = (Ok (TSingle t), s') ->
  settles (tw_l1_tx_hash t) w caller.
Proof.
  unfold find_l1_withdrawal_terminal. destruct (portal =? 0); [done|]. rewrite query_bind.
  destruct (l1_get_logs C _) as [logs|]; [|done]. unfold abind at 1.
  destruct (terminal_candidates C A w _ logs s) as [[cs|] s1] eqn:Hc; [|done]. apply candidates_settle in Hc.
  destruct cs as [|c [|]]; cbn [classify_terminal_candidates]; [done| |done].
  unfold abind, aret. destruct (_ s1) as [[b|] s2]; [|done]. intros [= <- _]. by inversion Hc.
Qed.

(** C23. A withdrawal status is about a withdrawal of the caller: an answer
    other than null is made from an outbox log of the query whose sender is
    the caller, and a state "processed", "failed" or "bounced" names an L1
    transaction that processed a withdrawal with the fields of the request and
    the sender tag of the caller and the zone transaction.  When every request
    among the logs is someone else's, the answer is null, as it is when there
    are none. *)
Theorem withdrawal_status_sound q auth (s : S) :
  (forall resp s', zone_get_withdrawal_status C A portal keccak256 q auth s = (Ok (Some resp), s') ->
     exists logs log event w, query_logs q = Ok logs /\ log ∈ logs /\ requests log event /\
       wr_sender event = auth_caller auth /\ recorded log event w /\
       ws_withdrawal_index resp = rr_withdrawal_index w /\ ws_zone_tx_hash resp = rr_zone_tx_hash w /\
       ws_amount resp = rr_amount w /\ ws_to resp = rr_to w /\
       match ws_status resp with
       | WProcessed | WFailed | WBounced => exists tx, ws_l1_process_withdrawal_tx_hash resp = Some tx /\ settles tx w (auth_caller auth)
       | _ => ws_l1_process_withdrawal_tx_hash resp = None
       end) /\
  (forall logs, query_logs q = Ok logs ->
     (forall log, log ∈ logs -> log_address log = ZONE_OUTBOX_ADDRESS -> topic0 log = Some WITHDRAWAL_REQUESTED_TOPIC ->
        exists event, abi_withdrawal_requested A log = Ok event /\ wr_sender event <> auth_caller auth) ->
     zone_get_withdrawal_status C A portal keccak256 q auth s = (Ok None, s)).
Proof.
  unfold zone_get_withdrawal_status. split.
  - intros resp s' H. apply abind_Ok in H as (found & s1 & Hf & H). rewrite find_requested_eq in Hf.
    destruct (query_logs q) as [logs|]; [|done]. destruct found as [w|]; [|done].
    apply find_requested_Some in Hf as (-> & log & event & Hin & Hreq & Hsend & Hrec).
    exists logs, log, event, w. do 5 (split; [done|]). clear Hin Hreq Hrec.
    apply abind_Ok in H as (finalized & s1 & _ & H). destruct finalized as [bf|]; [|by injection H as <- _].
    apply abind_Ok in H as (submitted & s2 & _ & H). destruct submitted as [sr|]; [|by injection H as <- _].
    apply abind_Ok in H as (t & s3 & Ht & H). injection H as <- _.
    destruct t as [|t|]; [done| |done]. apply terminal_sound in Ht.
    do 4 (split; [done|]). cbn. unfold withdrawal_status_from_terminal. destruct (tw_callback_success t), (tw_bounced t); by eexists.
  - intros logs Hq Hnone. unfold abind at 1. rewrite find_requested_eq, Hq. by rewrite find_requested_None.
Qed.
End Withdrawals.

(** ** With the payload builder *)

(** The batches among the outbox's events. *)
Definition batches (evs : list (OutboxEvent * Z)) : list (Z * Z) :=
  omap (fun e => match e.1 with Outbox.BatchFinalized hash index => Some (hash, index) | _ => None end) evs.

Lemma batches_none evs : Forall (fun e => is_batch e.1 = false) evs -> batches evs = [].
Proof. unfold batches. induction 1 as [|[[] tx] evs He _ IH]; cbn in *; done. Qed.

Section Composition.
Context {S PoolTx Best Block Ledger : Type} (mc : Machine S PoolTx Best Block).
Context (encode_header : SealedHeader -> list Z) (slot_hash slot_number interval : Z).
Context (encryptor : option (list Z -> Z -> Z -> option (list Z))) (is_cancelled : nat -> bool).
Context (keccak256 : list Z -> Z) (abi_encode_params : Withdrawal -> Z -> list Z).
Context (sequencer : Z) (isEnabledToken : Z -> bool) (valid_reveal_key : list Z -> bool).
Context (take_tokens : Ledger -> Z -> Z -> Z -> option Ledger).
Context (L : OutboxLaws mc encode_header keccak256 abi_encode_params sequencer isEnabledToken valid_reveal_key take_tokens).
Abbreviation try_build := (try_build mc encode_header slot_hash slot_number interval encryptor is_cancelled).
Abbreviation outbox_at := (ol_outbox _ _ _ _ _ _ _ _ L).

(** The zone node answers a search for batches in a block with the logs of the
    batches that the block's transactions finalized. *)
Definition block_logs (C : Chains) (A : StatusAbi) (number : Z) (before after : S) : Prop :=
  exists logs, zone_get_logs C (finalized_filter number) = Ok logs /\
    Forall2 (fun log b => abi_batch_finalized A log = Ok b) logs
      (batches (drop (length (os_events (outbox_at before))) (os_events (outbox_at after)))).

(** A withdrawal whose batch comes one block later is reported pending for
    ever.  When a block starts with nothing pending and is not at the
    empty-batch cadence, its requests are finalized by the next block; the
    status of each of them is "pending", whatever the next block and L1 say. *)
Theorem late_batch_reported_pending {Q} fuel parent limit prepared p before fuel' parent' limit' prepared' p'
    C A portal q auth w (s : Q) :
  mc_state_at mc parent = Ok before -> tracks (outbox_at before) ->
  try_build fuel parent limit prepared = Ok (Freeze p) ->
  getPendingWithdrawals (os_outbox (outbox_at before)) = [] -> is_multiple_of (bp_block_number p) interval = false ->
  getPendingWithdrawals (os_outbox (outbox_at (bp_state p))) <> [] ->
  mc_state_at mc parent' = Ok (bp_state p) -> try_build fuel' parent' limit' prepared' = Ok (Freeze p') ->
  block_logs C A (bp_block_number p) before (bp_state p) ->
  find_withdrawal_requested C A q (auth_caller auth) s = (Ok (Some w), s) -> rr_zone_block_number w = bp_block_number p ->
  zone_get_withdrawal_status C A portal keccak256 q auth s = (Ok (Some (status_response w WPending None None None None None)), s) /\
  getPendingWithdrawals (os_outbox (outbox_at (bp_state p'))) = [] /\
  exists hash index tx, last (os_events (outbox_at (bp_state p'))) = Some (Outbox.BatchFinalized hash index, tx).
Proof.
  intros Hat Ht Hb Hnone Hm Hsome Hat' Hb' Hlogs Hf Hw.
  apply try_build_frozen in Hb, Hb'.
  destruct (frozen_block_effect _ _ _ _ _ _ _ _ _ _ _ _ L _ _ _ _ _ Hat Ht Hb) as [(evs & new & Hne & Han & He) Ht1].
  destruct (frozen_block_effect _ _ _ _ _ _ _ _ _ _ _ _ L _ _ _ _ _ Hat' Ht1 Hb') as [(evs' & new' & _ & _ & He') _].
  rewrite decide_True in He by done. rewrite decide_False in He' by naive_solver.
  destruct He as [He _]. destruct He' as (senders & tx & _ & Hev & Hnil). split; [|split; [done|]].
  - destruct Hlogs as (logs & Hl & Hdec). rewrite He, drop_app_length, (batches_none evs Hne) in Hdec.
    inversion Hdec; subst. unfold zone_get_withdrawal_status. rewrite (abind_eq _ _ _ _ Hf). cbn beta iota.
    unfold find_batch_finalized_for_block. unfold abind at 1. rewrite query_bind, Hw, Hl. done.
  - do 3 eexists. rewrite Hev, app_assoc. apply last_snoc.
Qed.
End Composition.

(** ** Witness: the caller's deposit among those of others *)

Module StatusExamples.
(** Logs carry a tag that the decoder reads; 21 is the caller's deposit. *)
Definition tagged (tag : Z) : Log := mkLog 3 [DEPOSIT_PROCESSED_TOPIC; tag] [tag] None (Some 9) None None None None false.
Definition chains (logs : list Log) (other_done : bool) : Chains := {|
  l1_get_logs _ := Ok logs; l1_get_block_number := Ok 10; l1_block_timestamp _ := Ok None; l1_transaction_input _ := Ok None;
  l1_receipt _ := Ok None;
  zone_get_logs f := Ok (if bool_decide (21 ∈ f_topic1 f) || other_done then [tagged 21] else []);
  zone_receipt_logs _ := Ok None; zone_latest_block := Ok None; zone_block_by_hash _ := Ok None; zone_block_timestamp _ := Ok None;
  portal_genesis := Ok 0; portal_batch_index := Ok 0; portal_accepted_hash := Ok 0; tempo_state_number := Ok 9
|}.
Definition abi : StatusAbi := {|
  abi_portal_events l := Ok (match log_data l with
    | [21] => EvDepositMade 21 77 78 77 6 500 0
    | [22] => EvDepositMade 22 5 6 5 6 900 0
    | [23] => EvEncryptedDepositMade 23 8 8 6 70
    | _ => EvOther end);
  abi_deposit_processed _ := Ok tt; abi_deposit_failed _ := Ok tt; abi_encrypted_processed _ := Ok (0, 0);
  abi_encrypted_failed _ := Ok tt; abi_deposit_rejected _ := Ok AbiInvalid; abi_withdrawal_requested _ := Err "no"%string;
  abi_batch_finalized _ := Err "no"%string; abi_batch_submitted_event _ := Err "no"%string;
  abi_withdrawal_processed _ := Err "no"%string; abi_bounce_back _ := Err "no"%string; abi_process_withdrawal _ := None
|}.
Definition busy : Chains := chains [tagged 22; tagged 21] true.
Definition calm : Chains := chains [tagged 21; tagged 23] false.

Lemma deposit_status_noninterference_witness :
  exists resp, zone_get_deposit_status busy abi 3 9 (mkAuth 77 0 None) tt = (Ok resp, tt) /\
    zone_get_deposit_status calm abi 3 9 (mkAuth 77 0 None) tt = (Ok resp, tt) /\
    de_deposit_hash <$> ds_deposits resp = [21] /\ ds_processed resp = true.
Proof.
  destruct (zone_get_deposit_status busy abi 3 9 (mkAuth 77 0 None) tt) as [[resp|e] u] eqn:E; [|by vm_compute in E].
  destruct u. exists resp. split; [done|].
  assert (Hsame : zone_get_deposit_status busy abi 3 9 (mkAuth 77 0 None) tt = zone_get_deposit_status calm abi 3 9 (mkAuth 77 0 None) tt).
  { apply (deposit_status_noninterference busy calm abi 3 9 (mkAuth 77 0 None)
      [PRegular 22 5 6 5 6 900 0; PRegular 21 77 78 77 6 500 0] [PRegular 21 77 78 77 6 500 0; PEncrypted 23 8 8 6 70] tt).
    - done.
    - by vm_compute.
    - by repeat constructor.
    - by vm_compute.
    - by repeat constructor.
    - by vm_compute.
    - intros r [-> | [-> | []%not_elem_of_nil]%elem_of_cons]%elem_of_cons Hc; [|by vm_compute].
      by destruct Hc as [? | [? | ?]]. }
  rewrite <- Hsame. split; [done|]. vm_compute in E. by injection E as <-.
Defined.
End StatusExamples.
