(* ===== verification/PayloadWitness.v ===== *)
(** * Witnesses: a zone with an outbox that builds two blocks

    A machine in which the pool has one withdrawal request, with the outbox
    contract as its EVM; the requests of its first block are finalized by the
    second. *)

From stdpp Require Import gmap list strings.
From S2P Require Import Prelude.
From S2P Require Import TempoState.
From S2P Require Import L1State.
From S2P Require Import DepositQueue.
From S2P Require Import PrepareBlock.
From S2P Require Import Withdrawals.
From S2P Require Import Settlement.
From S2P Require Import Outbox.
From S2P Require Import OutboxProofs.
From S2P Require Import Payload.
From S2P Require Import PayloadProofs.
From S2P Require Import RpcAuth.
From S2P Require Import RpcLogs.
From S2P Require Import RpcTypes.
From S2P Require Import RpcPolicy.
From S2P Require Import RpcDispatch.
From S2P Require Import RpcExplorer.
From S2P Require Import RpcStatus.
From S2P Require Import RpcStatusProofs.
#[local] Open Scope Z_scope.

Module PayloadExamples.
Definition keccak (l : list Z) : Z := foldl (fun h x => (h * 31 + x + 1) mod 2 ^ 61) 7 l.
Definition abi_params (w : Withdrawal) (h : Z) : list Z :=
  [w_token w; w_senderTag w; w_to w; w_amount w; w_fee w; w_memo w; w_gasLimit w; w_fallbackRecipient w; h].
Definition take (l : unit) (token from amount : Z) : option unit := Some tt.
Abbreviation orun := (outbox_run keccak abi_params 5 (fun _ => true) (fun _ => true) take).
Abbreviation ostep := (outbox_step keccak abi_params 5 (fun _ => true) (fun _ => true) take).
Abbreviation ofinalize := (finalize_withdrawal_batch (Ledger := unit) keccak abi_params 5).

Definition ask : CallEnv * OutboxCall := (mkCallEnv 77 1 1000 4242, requestWithdrawal 9 88 500 0 0 66 [] []).
Definition sys_env (n : Z) : CallEnv := mkCallEnv 0 n 1000 1.

Lemma batch_rebuilt_from_events_witness :
  exists hash s', ofinalize (sys_env 2) 1 2 [[]] (orun [ask] (outbox_init tt)) = Ok (hash, s') /\
    hash = queue_hash keccak abi_params
      (zip_with (fun r sender => from_requested_event keccak r.1 r.2 sender)
         (since_last [] (os_events (orun [ask] (outbox_init tt)))) [[]]).
Proof.
  destruct (ofinalize (sys_env 2) 1 2 [[]] (orun [ask] (outbox_init tt))) as [[hash s']|e] eqn:E; [|by vm_compute in E].
  exists hash, s'. split; [done|].
  exact (proj1 (proj2 (batch_rebuilt_from_events keccak abi_params 5 (fun _ => true) (fun _ => true) take
    [ask] tt (sys_env 2) 1 2 [[]] hash s' E))).
Defined.

(** ** The machine *)

(** A zone state: the outbox, the zone's block number, the L1 block taken. *)
Record Zone := mkZone { z_outbox : @OState unit; z_number : Z; z_l1 : NumHash }.
Definition PoolTx : Type := CallEnv * OutboxCall.

Definition enc (w : PendingWithdrawal) : list Z :=
  [pw_token w; pw_sender w; pw_txHash w; pw_to w; pw_amount w; pw_fee w; pw_memo w; pw_gasLimit w; pw_fallbackRecipient w].
Definition plain (w : PendingWithdrawal) : bool :=
  match pw_callbackData w, pw_revealTo w with [], [] => true | _, _ => false end.
Fixpoint dec (l : list Z) : option (list PendingWithdrawal) :=
  match l with
  | [] => Some []
  | a :: b :: c :: d :: e :: f :: g :: h :: i :: rest =>
    ws ← dec rest; Some (mkPending a b c d e f g h i [] [] :: ws)
  | _ => None
  end.
Lemma dec_enc ws : forallb plain ws = true -> dec (ws ≫= enc) = Some ws.
Proof.
  induction ws as [|w ws IH]; [done|]. cbn [forallb]. intros [Hp Hs]%andb_true_iff.
  change (w :: ws ≫= enc) with (enc w ++ (ws ≫= enc)). cbn. rewrite (IH Hs). cbn.
  unfold plain in Hp. destruct w as [? ? ? ? ? ? ? ? ? cd rt]; cbn in *. by destruct cd, rt.
Qed.

Definition header_bytes (h : SealedHeader) : list Z := [h_number h; h_hash h].

Definition system (s : Zone) (tx : SystemTx) : result string (bool * Zone) :=
  match st_call tx with
  | advanceTempo [n; h] _ _ _ => Ok (true, mkZone (z_outbox s) (z_number s) (mkNumHash n h))
  | advanceTempo _ _ _ _ => Ok (false, s)
  | finalizeBatch count block senders =>
    match ofinalize (sys_env (z_number s)) count block senders (z_outbox s) with
    | Ok (_, o) => Ok (true, mkZone o (z_number s) (z_l1 s))
    | Err _ => Ok (false, s)
    end
  end.

Definition pool (s : Zone) (tx : PoolTx) : PoolOutcome Zone :=
  if is_finalize tx.2 then InvalidTx false
  else Executed 21000 (mkZone (ostep (z_outbox s) tx) (z_number s) (z_l1 s)).

Definition genesis : Zone := mkZone (outbox_init tt) 0 (mkNumHash 10 1000).
(** The state after a block in which only the request ran. *)
Definition after_one : Zone := mkZone (ostep (outbox_init tt) ask) 1 (mkNumHash 11 1100).

Definition machine : Machine Zone PoolTx (list PoolTx) Zone := {|
  mc_state_at h := if h =? 0 then Ok genesis else if h =? 1 then Ok after_one else Err "unknown block"%string;
  mc_storage s _ k := Ok (Some (if k =? 0 then nh_hash (z_l1 s) else nh_number (z_l1 s)));
  mc_next_env s := Ok (7, z_number s + 1);
  mc_open s := Ok s;
  mc_pre s := Ok (mkZone (z_outbox s) (z_number s + 1) (z_l1 s));
  mc_system := system;
  mc_view s _ := let ws := getPendingWithdrawals (os_outbox (z_outbox s)) in
                 Ok (if forallb plain ws then (true, Some (ws ≫= enc)) else (false, None));
  mc_decode_pending := dec;
  mc_pool := pool;
  mc_gas_limit _ := 30000;
  mc_best _ := [ask];
  mc_next b := match b with [] => None | tx :: b' => Some (tx, b') end;
  mc_mark_invalid _ b := b;
  mc_finish s := Ok s
|}.

Definition laws : OutboxLaws machine header_bytes keccak abi_params 5 (fun _ => true) (fun _ => true) take.
Proof.
  refine (Build_OutboxLaws _ _ _ _ _ _ _ _ z_outbox _ _ _ _ _ _).
  - by intros s s' [= <-].
  - by intros s s' [= <-].
  - intros s gas output. cbn. destruct (forallb plain _) eqn:E; intros [= <-]. by apply dec_enc.
  - intros s prepared s' [= <-]. by exists [].
  - intros s tx gas s'. cbn. unfold pool. destruct (is_finalize tx.2) eqn:E; intros [= _ <-]. exists [tx].
    split; [by repeat constructor|done].
  - intros s count block senders s'. change (mc_system machine) with system. unfold system, build_finalize_withdrawal_batch_tx. cbn [st_call].
    destruct (ofinalize (sys_env (z_number s)) count block senders (z_outbox s)) as [[hash o]|e] eqn:E; intros [= <-].
    by exists (sys_env (z_number s)), hash.
Defined.

Definition prepared (n : Z) : PreparedL1Block := mkPrepared (mkHeader n (100 * n) (100 * (n - 1))) [] [] [].
Abbreviation build := (try_build machine header_bytes 0 1 120 None (fun _ => false) 5).

Lemma withdrawals_wait_one_block_witness :
  exists p, build 0 30000000 (prepared 11) = Ok (Freeze p) /\
    block_effect 120 keccak abi_params (bp_block_number p) (z_outbox genesis) (z_outbox (bp_state p)) /\
    getPendingWithdrawals (os_outbox (z_outbox (bp_state p))) <> [].
Proof.
  destruct (build 0 30000000 (prepared 11)) as [[|p]|e] eqn:E; [by vm_compute in E| |by vm_compute in E].
  exists p. split; [done|]. split.
  - refine (proj1 (withdrawals_wait_one_block machine header_bytes 0 1 120 None (fun _ => false) keccak abi_params 5
      (fun _ => true) (fun _ => true) take laws 5 0 30000000 (prepared 11) p genesis eq_refl _ E)).
    exact (run_tracks keccak abi_params 5 (fun _ => true) (fun _ => true) take [] tt).
  - by vm_compute in E; injection E as <-.
Defined.

(** ** A zone in the legacy layout *)

Definition legacy : TempoSt :=
  mkTempoSt {[0 := 1000; 1 := 2 ^ 64 * 30000000; 7 := 10 + 2 ^ 64 * 30000000]}
    0xf97f0a7255f466a558d09772b5e31fc33ac4aebff10c59d7670e5ccc6cfce7ec [] [].

Definition legacy_machine : Machine Zone PoolTx (list PoolTx) Zone := {|
  mc_state_at h := Ok genesis;
  mc_storage s a k := Ok (ts_slots legacy !! k);
  mc_next_env := mc_next_env machine; mc_open := mc_open machine; mc_pre := mc_pre machine; mc_system := system;
  mc_view := mc_view machine; mc_decode_pending := dec; mc_pool := pool; mc_gas_limit _ := 30000;
  mc_best _ := [ask]; mc_next := mc_next machine; mc_mark_invalid _ b := b; mc_finish := mc_finish machine
|}.

Lemma legacy_state_never_builds_witness :
  checkpoint 0 1 (fun x => x mod 2 ^ 64) legacy = Some (mkCheckpoint 1000 10) /\
  exists e, try_build legacy_machine header_bytes 0 1 120 None (fun _ => false) 5 0 30000000 (prepared 11) = Err e.
Proof.
  split; [by vm_compute|].
  destruct (legacy_state_never_builds legacy_machine header_bytes 0 1 120 None (fun _ => false) (fun x => x mod 2 ^ 64) 5 0 30000000
    (prepared 11) genesis legacy (mkCheckpoint 1000 10)) as (e & He & _);
    [done|done|by vm_compute|by vm_compute|by vm_compute|by vm_compute|by vm_compute|by vm_compute|].
  by exists e.
Defined.

(** ** The status of the request *)

(** The zone and L1 as an RPC node sees them after both blocks; L1 is down. *)
Definition request_log : Log := 
  mkLog ZONE_OUTBOX_ADDRESS [WITHDRAWAL_REQUESTED_TOPIC; 0; 77] [] (Some 1) (Some 1) None (Some 4242) (Some 1) (Some 0) false.

Definition chains : Chains := {|
  l1_get_logs _ := Err "L1 is down"%string; l1_get_block_number := Err "L1 is down"%string;
  l1_block_timestamp _ := Err "L1 is down"%string; l1_transaction_input _ := Err "L1 is down"%string;
  l1_receipt _ := Err "L1 is down"%string;
  zone_get_logs f := Ok [];
  zone_receipt_logs h := Ok (if h =? 4242 then Some [request_log] else None);
  zone_latest_block := Ok (Some (2, 2)); zone_block_by_hash _ := Ok None; zone_block_timestamp _ := Ok None;
  portal_genesis := Err "L1 is down"%string; portal_batch_index := Err "L1 is down"%string;
  portal_accepted_hash := Err "L1 is down"%string; tempo_state_number := Ok 12
|}.
Definition abi : StatusAbi := {|
  abi_portal_events _ := Ok EvOther; abi_deposit_processed _ := Ok tt; abi_deposit_failed _ := Ok tt;
  abi_encrypted_processed _ := Ok (0, 0); abi_encrypted_failed _ := Ok tt; abi_deposit_rejected _ := Ok AbiInvalid;
  abi_withdrawal_requested _ := Ok (mkRequested 0 77 9 88 500 0 0 0 66 [] []);
  abi_batch_finalized _ := Ok (0, 0); abi_batch_submitted_event _ := Err "no"%string;
  abi_withdrawal_processed _ := Err "no"%string; abi_bounce_back _ := Err "no"%string; abi_process_withdrawal _ := None
|}.
Definition record : WithdrawalRequestedRecord := mkRequestedRecord 0 9 88 500 0 0 0 66 [] 4242 1.

Lemma late_batch_reported_pending_witness :
  exists p p', build 0 30000000 (prepared 11) = Ok (Freeze p) /\ build 1 30000000 (prepared 12) = Ok (Freeze p') /\
    zone_get_withdrawal_status chains abi 3 keccak (TxHash 4242) (mkAuth 77 0 None) tt =
      (Ok (Some (status_response record WPending None None None None None)), tt) /\
    getPendingWithdrawals (os_outbox (z_outbox (bp_state p'))) = [].
Proof.
  destruct (build 0 30000000 (prepared 11)) as [[|p]|e] eqn:E; [by vm_compute in E| |by vm_compute in E].
  destruct (build 1 30000000 (prepared 12)) as [[|p']|e] eqn:E'; [by vm_compute in E'| |by vm_compute in E'].
  exists p, p'. split; [done|]. split; [done|].
  assert (bp_block_number p = 1 /\ bp_state p = after_one) as [Hn Hp] by (vm_compute in E; injection E as <-; done).
  destruct (late_batch_reported_pending machine header_bytes 0 1 120 None (fun _ => false) keccak abi_params 5
    (fun _ => true) (fun _ => true) take laws 5 0 30000000 (prepared 11) p genesis 5 1 30000000 (prepared 12) p'
    chains abi 3 (TxHash 4242) (mkAuth 77 0 None) record tt) as (H1 & H2 & _).
  - done.
  - exact (run_tracks keccak abi_params 5 (fun _ => true) (fun _ => true) take [] tt).
  - exact E.
  - done.
  - by rewrite Hn.
  - by rewrite Hp.
  - by rewrite Hp.
  - exact E'.
  - exists []. split; [done|]. rewrite Hp. constructor.
  - done.
  - by rewrite Hn.
  - by split.
Defined.
End PayloadExamples.
