(* ===== verification/TeeProof.v ===== *)
(** * Batch proofs

    sequencer/src/proof.rs: the commitment of a batch's public inputs, the byte
    layouts of the verifier configuration and the attestation, and the proof
    providers, of which the configured one decides whether a batch may be
    submitted.  HTTP and JSON are parameters: what became of the request. *)

From stdpp Require Import list strings.
From S2P Require Import Prelude.
From S2P Require Import RpcDispatch.
From S2P Require Import Monitor.
#[local] Open Scope string_scope.
#[local] Open Scope list_scope.
#[local] Open Scope Z_scope.

Definition TEE_COMMITMENT_DOMAIN : list Z := bytes_of "tempo-zone-tee-batch-v1".
Definition TEE_VERIFIER_CONFIG_VERSION : Z := 1.
Definition TEE_ATTESTATION_VERSION : Z := 1.
Definition TEE_ATTESTATION_SERVICE_VERSION : Z := 1.
Definition DEFAULT_TEE_ATTESTATION_TIMEOUT : Z := 15.
Definition PROTOCOL_TAG : string := "tempo-zone-tee-batch-v1".

(** ** The commitment *)

(** A word of the ABI encoding. *)
Definition word (x : Z) : list Z := be_bytes 32 x.

(** [abi_encode_params]: the domain tag is the only dynamic element, so the
    head is its offset and the other words, and the tail its length and its
    bytes, filled up with zeros. *)
Definition encode_inputs (i : BatchPublicInputs) : list Z :=
  mjoin (word <$>
    [13 * 32; pi_portal_address i; pi_sequencer_address i; pi_tempo_block_number i; pi_recent_tempo_block_number i;
     pi_prev_block_hash i; pi_next_block_hash i;
     pi_prev_processed_deposit_hash i; pi_next_processed_deposit_hash i; pi_prev_deposit_number i; pi_next_deposit_number i;
     pi_withdrawal_queue_hash i; pi_expected_withdrawal_batch_index i;
     Z.of_nat (length TEE_COMMITMENT_DOMAIN)])
  ++ TEE_COMMITMENT_DOMAIN ++ replicate (32 - length TEE_COMMITMENT_DOMAIN) 0.

Definition commitment (keccak256 : list Z -> Z) (i : BatchPublicInputs) : Z := keccak256 (encode_inputs i).

(** ** Payloads *)

Record TeeProofPayload := mkProofPayload { tp_verifier_config : list Z; tp_proof : list Z }.
Definition empty_legacy : TeeProofPayload := mkProofPayload [] [].

Inductive TeeAttestationFormat := SevSnp | NitroEnclaves | IntelTdx | Unconfirmed.
#[export] Instance TeeAttestationFormat_eq_dec : EqDecision TeeAttestationFormat.
Proof. solve_decision. Defined.

Definition tag (f : TeeAttestationFormat) : Z :=
  match f with SevSnp => 0x01 | NitroEnclaves => 0x02 | IntelTdx => 0x03 | Unconfirmed => 0xff end.

(** [to_ascii_lowercase] *)
Definition to_ascii_lowercase (s : string) : string :=
  of_bytes ((fun b => if (65 <=? b) && (b <=? 90) then b + 32 else b) <$> bytes_of s).

Definition one_of (s : string) (l : list string) : bool := bool_decide (s ∈ l).

Definition format_from_str (s : string) : result string TeeAttestationFormat :=
  let s := to_ascii_lowercase (trim s) in
  if one_of s ["sev-snp"; "sev_snp"; "sevsnp"] then Ok SevSnp
  else if one_of s ["nitro-enclaves"; "nitro_enclaves"; "nitro"] then Ok NitroEnclaves
  else if one_of s ["intel-tdx"; "intel_tdx"; "tdx"] then Ok IntelTdx
  else if one_of s ["unconfirmed"; "pending"] then Ok Unconfirmed
  else Err ("unknown TEE attestation format `" +:+ s +:+
    "` (expected one of: sev-snp, nitro-enclaves, intel-tdx, unconfirmed)").

Record TeeVerifierConfig := mkVerifierConfig {
  vc_format : TeeAttestationFormat; vc_domain : list Z; vc_enclave_id : list Z; vc_commitment : Z
}.

(** A length that must fit into [n] bytes; [None] is the panic of [expect]. *)
Definition len_prefix (n : nat) (l : list Z) : option (list Z) :=
  if Z.of_nat (length l) <? 256 ^ Z.of_nat n then Some (be_bytes n (Z.of_nat (length l))) else None.

Definition config_encode (c : TeeVerifierConfig) : option (list Z) :=
  domain_len ← len_prefix 2 (vc_domain c);
  enclave_id_len ← len_prefix 2 (vc_enclave_id c);
  Some ([TEE_VERIFIER_CONFIG_VERSION; tag (vc_format c)] ++ domain_len ++ vc_domain c ++ enclave_id_len ++
    vc_enclave_id c ++ word (vc_commitment c)).

Record TeeAttestation := mkAttestation { ta_signature : list Z; ta_attestation_quote : list Z }.

Definition attestation_encode (a : TeeAttestation) : option (list Z) :=
  sig_len ← len_prefix 2 (ta_signature a);
  quote_len ← len_prefix 4 (ta_attestation_quote a);
  Some ([TEE_ATTESTATION_VERSION] ++ sig_len ++ ta_signature a ++ quote_len ++ ta_attestation_quote a).

(** ** Providers *)

Inductive MalformedReason :=
  | UnexpectedVersion (got : Z)
  | CommitmentMismatch (requested signed : Z)
  | EmptyVerifierConfig
  | EmptyProof
  | Undecodable (error : string).

Inductive ProofProviderError :=
  | NoBackendConfigured
  | MissingAttestationEndpoint
  | TempoIntegrationPending
  | RemoteAttestationFailed (endpoint : string) (status : Z) (detail : list Z)
  | MalformedAttestationResponse (endpoint : string) (reason : MalformedReason).

Record PendingTeeProviderConfig := mkPendingConfig {
  pc_enclave_id : list Z; pc_domain : list Z; pc_format : TeeAttestationFormat
}.
Record TeeAttestationServiceConfig := mkServiceConfig {
  sc_endpoint : string; sc_bearer_token : option string; sc_request_timeout : Z; sc_enclave_id : list Z;
  sc_domain : list Z; sc_format : TeeAttestationFormat
}.
Record TeeAttestationRequest := mkAttestationRequest {
  rq_version : Z; rq_protocol : string; rq_commitment : Z; rq_public_inputs : BatchPublicInputs;
  rq_enclave_id : list Z; rq_domain : list Z; rq_format : TeeAttestationFormat
}.
Record TeeAttestationResponse := mkAttestationResponse {
  rs_version : Z; rs_commitment : Z; rs_verifier_config : list Z; rs_proof : list Z
}.

(** What became of a request: no response (with the status an error may
    carry), a response that is not a success, or one that is, whose body
    decodes or does not. *)
Inductive HttpOutcome :=
  | SendFailed (status : option Z) (error : list Z)
  | NotSuccess (status : Z) (body : option (list Z))
  | Success (body : result string TeeAttestationResponse).

(** [str::is_char_boundary] of UTF-8 text *)
Definition is_char_boundary (value : list Z) (i : nat) : bool :=
  (i =? 0)%nat || (i =? length value)%nat ||
  match value !! i with Some b => negb ((128 <=? b) && (b <? 192)) | None => false end.

(** The loop that walks back; it counts [boundary] down. *)
Fixpoint walk_back (value : list Z) (boundary : nat) : nat :=
  match boundary with
  | O => O
  | S b => if is_char_boundary value boundary then boundary else walk_back value b
  end.

Definition truncate_for_log (value : list Z) (max_len : nat) : list Z :=
  if (length value <=? max_len)%nat then value
  else take (walk_back value max_len) value ++ bytes_of "... (truncated)".

(** [PendingTeeAttestationProvider::config_for] *)
Definition config_for (keccak256 : list Z -> Z) (config : PendingTeeProviderConfig) (inputs : BatchPublicInputs)
    : TeeVerifierConfig :=
  mkVerifierConfig (pc_format config) (pc_domain config) (pc_enclave_id config) (commitment keccak256 inputs).

Definition build_request (keccak256 : list Z -> Z) (config : TeeAttestationServiceConfig) (inputs : BatchPublicInputs)
    : TeeAttestationRequest :=
  mkAttestationRequest TEE_ATTESTATION_SERVICE_VERSION PROTOCOL_TAG (commitment keccak256 inputs) inputs
    (sc_enclave_id config) (sc_domain config) (sc_format config).

Definition validate_response (endpoint : string) (request_commitment : Z) (response : TeeAttestationResponse)
    : result ProofProviderError TeeProofPayload :=
  let malformed reason := Err (MalformedAttestationResponse endpoint reason) in
  if negb (rs_version response =? TEE_ATTESTATION_SERVICE_VERSION) then malformed (UnexpectedVersion (rs_version response))
  else if negb (rs_commitment response =? request_commitment) then
    malformed (CommitmentMismatch request_commitment (rs_commitment response))
  else if bool_decide (rs_verifier_config response = []) then malformed EmptyVerifierConfig
  else if bool_decide (rs_proof response = []) then malformed EmptyProof
  else Ok (mkProofPayload (rs_verifier_config response) (rs_proof response)).

Inductive Provider :=
  | FailFastProofProvider
  | EmptyLegacyProofProvider
  | StaticTeeProofProvider (payload : TeeProofPayload)
  | PendingTeeAttestationProvider (config : PendingTeeProviderConfig)
  | HttpTeeAttestationProvider (config : TeeAttestationServiceConfig).

Definition name (p : Provider) : string :=
  match p with
  | FailFastProofProvider => "fail-fast"
  | EmptyLegacyProofProvider => "empty-legacy"
  | StaticTeeProofProvider _ => "static-tee"
  | PendingTeeAttestationProvider _ => "pending-tee-attestation"
  | HttpTeeAttestationProvider _ => "http-tee-attestation"
  end.

Definition provider_allows_unverified_ancestry (p : Provider) : bool :=
  match p with EmptyLegacyProofProvider => true | _ => false end.

Section Providers.
Context (keccak256 : list Z -> Z).
(** [post] is the attestation service: a request with an optional token. *)
Context (post : string -> option string -> Z -> TeeAttestationRequest -> HttpOutcome).

(** [HttpTeeAttestationProvider::build_proof] *)
Definition http_build_proof (config : TeeAttestationServiceConfig) (inputs : BatchPublicInputs)
    : result ProofProviderError TeeProofPayload :=
  let request := build_request keccak256 config inputs in
  let endpoint := sc_endpoint config in
  match post endpoint (sc_bearer_token config) (sc_request_timeout config) request with
  | SendFailed status error => Err (RemoteAttestationFailed endpoint (default 0 status) error)
  | NotSuccess status body =>
    let body := default [] body in
    let detail := if bool_decide (body = []) then bytes_of "(no response body)" else truncate_for_log body 256 in
    Err (RemoteAttestationFailed endpoint status detail)
  | Success (Err error) => Err (MalformedAttestationResponse endpoint (Undecodable error))
  | Success (Ok parsed) => validate_response endpoint (rq_commitment request) parsed
  end.

Definition provider_build_proof (p : Provider) (inputs : BatchPublicInputs) : result ProofProviderError TeeProofPayload :=
  match p with
  | FailFastProofProvider => Err NoBackendConfigured
  | EmptyLegacyProofProvider => Ok empty_legacy
  | StaticTeeProofProvider payload => Ok payload
  | PendingTeeAttestationProvider _ => Err TempoIntegrationPending
  | HttpTeeAttestationProvider config => http_build_proof config inputs
  end.
End Providers.

(** ** Choosing a provider *)

Inductive ProofBackend := FailFast | EmptyLegacy | Tee.

Record TeeProviderOptions := mkOptions {
  po_endpoint : option string; po_bearer_token : option string; po_request_timeout : option Z; po_enclave_id : list Z;
  po_domain : list Z; po_format : TeeAttestationFormat
}.

Definition pending_config (o : TeeProviderOptions) : PendingTeeProviderConfig :=
  mkPendingConfig (po_enclave_id o) (po_domain o) (po_format o).
Definition service_config (o : TeeProviderOptions) (endpoint : string) : TeeAttestationServiceConfig :=
  mkServiceConfig endpoint (po_bearer_token o) (default DEFAULT_TEE_ATTESTATION_TIMEOUT (po_request_timeout o))
    (po_enclave_id o) (po_domain o) (po_format o).

(** [client_ok]: whether the HTTP client could be built. *)
Definition into_provider (client_ok : bool) (backend : ProofBackend) (options : TeeProviderOptions)
    : result string Provider :=
  match backend with
  | FailFast => Ok FailFastProofProvider
  | EmptyLegacy => Ok EmptyLegacyProofProvider
  | Tee =>
    match po_endpoint options with
    | Some endpoint =>
      if client_ok then Ok (HttpTeeAttestationProvider (service_config options endpoint))
      else Err "failed to build attestation HTTP client"
    | None => Ok (PendingTeeAttestationProvider (pending_config options))
    end
  end.

Definition backend_from_str (s : string) : result string ProofBackend :=
  let s := to_ascii_lowercase (trim s) in
  if one_of s ["fail-fast"; "failfast"; "reject"] then Ok FailFast
  else if one_of s ["empty-legacy"; "empty"; "legacy"] then Ok EmptyLegacy
  else if one_of s ["tee"; "pending-tee"] then Ok Tee
  else Err ("unknown proof backend `" +:+ s +:+ "` (expected one of: fail-fast, empty-legacy, tee)").
