(* ===== verification/TeeProofProofs.v ===== *)
(** * Batch proofs: what a commitment and a released payload mean

    The commitment determines the public inputs unless keccak256 collides; the
    byte layouts can be read back; and no provider but the legacy one lets a
    batch pass without a response of the attestation service for exactly that
    batch. *)

From stdpp Require Import list strings.
From S2P Require Import Prelude.
From S2P Require Import RpcDispatch.
From S2P Require Import Monitor.
From S2P Require Import TeeProof.
#[local] Open Scope Z_scope.

(** ** The commitment *)

Definition is_word (x : Z) : Prop := 0 <= x < 256 ^ 32.

Definition words_of (i : BatchPublicInputs) : list Z :=
  [pi_portal_address i; pi_sequencer_address i; pi_tempo_block_number i; pi_recent_tempo_block_number i;
   pi_prev_block_hash i; pi_next_block_hash i;
   pi_prev_processed_deposit_hash i; pi_next_processed_deposit_hash i; pi_prev_deposit_number i; pi_next_deposit_number i;
   pi_withdrawal_queue_hash i; pi_expected_withdrawal_batch_index i].

Lemma words_inj xs ys :
  length xs = length ys -> Forall is_word xs -> Forall is_word ys -> mjoin (word <$> xs) = mjoin (word <$> ys) -> xs = ys.
Proof.
  revert ys. induction xs as [|x xs IH]; intros [|y ys] Hl Hx Hy H; try done. cbn in H.
  apply app_inj_1 in H as [Hw H]; [|unfold word; by rewrite !be_bytes_length].
  inversion Hx; inversion Hy; subst. f_equal.
  - by apply (be_bytes_inj 32) in Hw.
  - apply IH; [by injection Hl|done..].
Qed.

Lemma encode_inputs_eq i :
  encode_inputs i = word 416 ++ mjoin (word <$> words_of i) ++
    word 23 ++ TEE_COMMITMENT_DOMAIN ++ replicate (32 - length TEE_COMMITMENT_DOMAIN) 0.
Proof. unfold encode_inputs, words_of. cbn [fmap list_fmap mjoin list_join]. by rewrite <- !app_assoc. Qed.

Lemma words_length xs : length (mjoin (word <$> xs)) = (32 * length xs)%nat.
Proof.
  induction xs as [|x xs IH]; [done|].
  change (mjoin (word <$> x :: xs)) with (word x ++ mjoin (word <$> xs)).
  rewrite length_app, IH. unfold word. rewrite be_bytes_length. cbn [length]. lia.
Qed.

Lemma encode_inputs_inj i j :
  Forall is_word (words_of i) -> Forall is_word (words_of j) -> encode_inputs i = encode_inputs j -> i = j.
Proof.
  intros Hi Hj H. rewrite !encode_inputs_eq in H. apply app_inv_head in H.
  apply app_inj_1 in H as [H _]; [|by rewrite !words_length].
  apply words_inj in H; [|done..]. destruct i, j. unfold words_of in H. cbn in H. by simplify_eq.
Qed.

(** C36. The commitment the enclave signs determines the batch: public inputs
    with the same commitment are the same, or their encodings are a collision
    of keccak256. *)
Theorem commitment_binds keccak256 i j :
  Forall is_word (words_of i) -> Forall is_word (words_of j) -> commitment keccak256 i = commitment keccak256 j ->
  i = j \/ (encode_inputs i <> encode_inputs j /\ keccak256 (encode_inputs i) = keccak256 (encode_inputs j)).
Proof.
  intros Hi Hj H. destruct (decide (encode_inputs i = encode_inputs j)) as [He|He]; [left|by right].
  by apply encode_inputs_inj.
Qed.

(** ** Layouts *)

Definition be_value (l : list Z) : Z := foldl (fun acc b => acc * 256 + b) 0 l.

Lemma be_value_be_bytes n x : 0 <= x < 256 ^ Z.of_nat n -> be_value (be_bytes n x) = x.
Proof.
  revert x. induction n as [|n IH]; intros x Hx.
  { change (256 ^ Z.of_nat 0) with 1 in Hx. change (be_value (be_bytes 0 x)) with 0. lia. }
  change (be_bytes (S n) x) with (be_bytes n (x / 256) ++ [x mod 256]).
  unfold be_value in *. rewrite foldl_app, IH.
  - cbn [foldl]. pose proof (Z.div_mod x 256). lia.
  - rewrite Nat2Z.inj_succ, Z.pow_succ_r in Hx by lia. split; [apply Z.div_pos; lia|apply Z.div_lt_upper_bound; lia].
Qed.

Definition format_of_tag (t : Z) : option TeeAttestationFormat :=
  List.find (fun f => tag f =? t) [SevSnp; NitroEnclaves; IntelTdx; Unconfirmed].

(** A field behind a length of [n] bytes, and the rest. *)
Definition read_field (n : nat) (l : list Z) : option (list Z * list Z) :=
  if (length l <? n)%nat then None
  else
    let len := Z.to_nat (be_value (take n l)) in
    if (length (drop n l) <? len)%nat then None else Some (take len (drop n l), drop len (drop n l)).

Lemma read_field_prefix n l p rest : len_prefix n l = Some p -> read_field n (p ++ l ++ rest) = Some (l, rest).
Proof.
  unfold len_prefix. destruct (Z.ltb_spec (Z.of_nat (length l)) (256 ^ Z.of_nat n)) as [Hlt|]; [|done]. intros [= <-].
  unfold read_field. set (p := be_bytes n _). assert (length p = n) as Hp by apply be_bytes_length.
  rewrite length_app, (proj2 (Nat.ltb_ge _ _)) by lia.
  rewrite (take_app_length' p), (drop_app_length' p) by done. unfold p. rewrite be_value_be_bytes by lia.
  rewrite Nat2Z.id, length_app, (proj2 (Nat.ltb_ge _ _)) by lia. by rewrite take_app_length, drop_app_length.
Qed.

(** What a verifier reads of the two byte strings. *)
Definition config_decode (b : list Z) : option TeeVerifierConfig :=
  match b with
  | version :: t :: rest =>
    if version =? TEE_VERIFIER_CONFIG_VERSION then
      f ← format_of_tag t;
      d ← read_field 2 rest;
      e ← read_field 2 d.2;
      if (length e.2 =? 32)%nat then Some (mkVerifierConfig f d.1 e.1 (be_value e.2)) else None
    else None
  | _ => None
  end.

Definition attestation_decode (b : list Z) : option TeeAttestation :=
  match b with
  | version :: rest =>
    if version =? TEE_ATTESTATION_VERSION then
      s ← read_field 2 rest; q ← read_field 4 s.2; if bool_decide (q.2 = []) then Some (mkAttestation s.1 q.1) else None
    else None
  | _ => None
  end.

(** The verifier configuration and the attestation can be read back from
    their bytes, whatever the lengths of their fields; and they are written
    whenever the fields fit their length prefixes. *)
Theorem verifier_bytes_roundtrip c a :
  is_word (vc_commitment c) ->
  Z.of_nat (length (vc_domain c)) <= 65535 -> Z.of_nat (length (vc_enclave_id c)) <= 65535 ->
  Z.of_nat (length (ta_signature a)) <= 65535 -> Z.of_nat (length (ta_attestation_quote a)) <= U32_MAX ->
  exists bc ba, config_encode c = Some bc /\ config_decode bc = Some c /\
    attestation_encode a = Some ba /\ attestation_decode ba = Some a.
Proof.
  intros Hc Hd He Hs Hq.
  assert (Hlen : forall n l, Z.of_nat (length l) < 256 ^ Z.of_nat n -> exists p, len_prefix n l = Some p).
  { intros n l H. unfold len_prefix. rewrite (proj2 (Z.ltb_lt _ _) H). by eexists. }
  destruct (Hlen 2%nat (vc_domain c)) as [d Ed]; [cbn; lia|]. destruct (Hlen 2%nat (vc_enclave_id c)) as [e Ee]; [cbn; lia|].
  destruct (Hlen 2%nat (ta_signature a)) as [s Es]; [cbn; lia|].
  destruct (Hlen 4%nat (ta_attestation_quote a)) as [q Eq]; [unfold U32_MAX in Hq; cbn; lia|].
  unfold config_encode, attestation_encode. rewrite Ed, Ee, Es, Eq. cbn [mbind option_bind].
  do 2 eexists. split; [reflexivity|]. split; [|split; [reflexivity|]].
  - cbn [app config_decode]. replace (TEE_VERIFIER_CONFIG_VERSION =? TEE_VERIFIER_CONFIG_VERSION) with true by done.
    replace (format_of_tag (tag (vc_format c))) with (Some (vc_format c)) by (by destruct (vc_format c)). cbn [mbind option_bind].
    rewrite (read_field_prefix 2 _ _ _ Ed). cbn [mbind option_bind snd fst]. rewrite (read_field_prefix 2 _ _ _ Ee).
    cbn [mbind option_bind snd fst]. unfold word. rewrite be_bytes_length. cbn [Nat.eqb].
    rewrite be_value_be_bytes by exact Hc. by destruct c.
  - cbn [app attestation_decode]. replace (TEE_ATTESTATION_VERSION =? TEE_ATTESTATION_VERSION) with true by done.
    rewrite (read_field_prefix 2 _ _ _ Es). cbn [mbind option_bind snd fst].
    rewrite <- (app_nil_r (ta_attestation_quote a)) at 1. rewrite (read_field_prefix 4 _ _ _ Eq).
    cbn [mbind option_bind snd fst]. rewrite bool_decide_eq_true_2 by done. by destruct a.
Qed.

(** ** Log excerpts *)

Lemma walk_back_boundary value n : (walk_back value n <= n)%nat /\ is_char_boundary value (walk_back value n) = true.
Proof.
  induction n as [|n [IH1 IH2]]; [done|]. cbn [walk_back]. destruct (is_char_boundary value (S n)) eqn:E; [by split|].
  split; [lia|done].
Qed.

(** A truncated body ends at a character boundary, so slicing never panics. *)
Lemma truncate_for_log_safe value max_len :
  exists n, (n <= length value)%nat /\ is_char_boundary value n = true /\
    (truncate_for_log value max_len = take n value \/
     (n <= max_len)%nat /\ truncate_for_log value max_len = take n value ++ bytes_of "... (truncated)").
Proof.
  unfold truncate_for_log. destruct (Nat.leb_spec (length value) max_len) as [Hl|Hl].
  - exists (length value). split; [lia|]. split; [|left; by rewrite take_ge by lia].
    unfold is_char_boundary. by rewrite Nat.eqb_refl, orb_true_r.
  - destruct (walk_back_boundary value max_len) as [H1 H2]. exists (walk_back value max_len).
    split; [lia|]. split; [done|]. right. by split.
Qed.

(** ** Providers *)

Section Providers.
Context (keccak256 : list Z -> Z) (post : string -> option string -> Z -> TeeAttestationRequest -> HttpOutcome).

Lemma validate_response_Ok endpoint c r p :
  validate_response endpoint c r = Ok p <->
  rs_version r = TEE_ATTESTATION_SERVICE_VERSION /\ rs_commitment r = c /\ rs_verifier_config r <> [] /\
  rs_proof r <> [] /\ p = mkProofPayload (rs_verifier_config r) (rs_proof r).
Proof.
  unfold validate_response. destruct (Z.eqb_spec (rs_version r) TEE_ATTESTATION_SERVICE_VERSION); cbn [negb]; [|naive_solver].
  destruct (Z.eqb_spec (rs_commitment r) c); cbn [negb]; [|naive_solver].
  repeat case_bool_decide; naive_solver.
Qed.

(** C37. A misconfigured sequencer submits nothing.  Whatever backend and
    options the operator chose, a proof is released only by the legacy
    backend, which releases empty bytes, or by the TEE backend with an
    endpoint, when the service answered a request that carries these very
    public inputs with a success whose body has the version of the protocol,
    the commitment of these inputs and the non-empty bytes that are released.
    Only the legacy backend lets ancestry go unverified. *)
Theorem proof_fails_closed client_ok backend options provider inputs :
  into_provider client_ok backend options = Ok provider ->
  (forall payload, provider_build_proof keccak256 post provider inputs = Ok payload ->
     (backend = EmptyLegacy /\ payload = empty_legacy) \/
     (backend = Tee /\ exists endpoint timeout request r,
        po_endpoint options = Some endpoint /\
        rq_public_inputs request = inputs /\ rq_commitment request = commitment keccak256 inputs /\
        post endpoint (po_bearer_token options) timeout request = Success (Ok r) /\
        rs_version r = TEE_ATTESTATION_SERVICE_VERSION /\ rs_commitment r = commitment keccak256 inputs /\
        tp_verifier_config payload = rs_verifier_config r /\ tp_proof payload = rs_proof r /\
        tp_verifier_config payload <> [] /\ tp_proof payload <> [])) /\
  (provider_allows_unverified_ancestry provider = true <-> backend = EmptyLegacy).
Proof.
  destruct backend; cbn [into_provider]; [intros [= <-]; cbn; naive_solver..|].
  destruct (po_endpoint options) as [endpoint|]; [|intros [= <-]; cbn; naive_solver].
  destruct client_ok; [|done]. intros [= <-]. split; [|done]. cbn [provider_build_proof]. intros payload.
  unfold http_build_proof. cbn [service_config sc_endpoint sc_bearer_token sc_request_timeout].
  match goal with |- context [post _ _ ?t ?r] => set (timeout := t); set (request := r) end.
  destruct (post endpoint _ timeout request) as [st er|st body|[r|er]] eqn:Hp; [done|done| |done].
  intros (Hv & Hc & Hcfg & Hpr & ->)%validate_response_Ok. right. split; [done|].
  exists endpoint, timeout, request, r. by split_and!.
Qed.
End Providers.

(** ** Witnesses *)

Module TeeProofExamples.
Definition keccak (l : list Z) : Z := foldl (fun h x => (h * 31 + x + 1) mod 2 ^ 61) 7 l.
Definition inputs : BatchPublicInputs := mkPublicInputs 1 2 100 0 11 12 13 14 5 6 77 3.

Definition again : BatchPublicInputs := mkPublicInputs 1 2 (99 + 1) 0 11 12 13 14 (4 + 1) 6 77 (2 + 1).

Lemma commitment_binds_witness :
  commitment keccak again = commitment keccak inputs /\
  (again = inputs \/ (encode_inputs again <> encode_inputs inputs /\ keccak (encode_inputs again) = keccak (encode_inputs inputs))).
Proof.
  split; [by vm_compute|]. apply (commitment_binds keccak again inputs).
  - repeat (constructor; [unfold is_word; cbn; lia|]). constructor.
  - repeat (constructor; [unfold is_word; cbn; lia|]). constructor.
  - by vm_compute.
Defined.

Definition options : TeeProviderOptions := mkOptions (Some "http://tee"%string) None None [1] [2] SevSnp.
Definition service (_ : string) (_ : option string) (_ : Z) (r : TeeAttestationRequest) : HttpOutcome :=
  Success (Ok (mkAttestationResponse 1 (rq_commitment r) [9] [8; 7])).

Lemma proof_fails_closed_witness :
  exists p, into_provider true Tee options = Ok p /\
    provider_build_proof keccak service p inputs = Ok (mkProofPayload [9] [8; 7]) /\
    exists request r, service "http://tee"%string None 15 request = Success (Ok r) /\ rs_commitment r = commitment keccak inputs.
Proof.
  eexists. split; [reflexivity|]. split; [by vm_compute|].
  destruct (proof_fails_closed keccak service true Tee options (HttpTeeAttestationProvider (service_config options "http://tee"%string))
    inputs eq_refl) as [H _].
  destruct (H (mkProofPayload [9] [8; 7])) as [[? _]|(_ & ep & tm & rq & r & Hep & _ & Hc & Hpost & _ & Hr & _)];
    [by vm_compute|done|]. exists rq, r. by split.
Defined.
End TeeProofExamples.
