(* ===== verification/Engine.v ===== *)
(** * The zone engine

    node/src/engine.rs: the loop that takes L1 blocks from the deposit queue,
    prepares them, has a payload built, submits it and confirms the block.
    The L1 subscriber works on the queue at the same time: what it does during
    an attempt is part of the attempt.  The engine API and the payload service
    answer as the attempt says; the payload itself is that of [try_build] on
    the engine's head. *)

From stdpp Require Import list strings.
From S2P Require Import Prelude.
From S2P Require Import Policy.
From S2P Require Import PolicyCache.
From S2P Require Import PolicyProvider.
From S2P Require Import TempoState.
From S2P Require Import L1State.
From S2P Require Import DepositQueue.
From S2P Require Import Ecies.
From S2P Require Import PrepareBlock.
From S2P Require Import Payload.
#[local] Open Scope string_scope.
#[local] Open Scope Z_scope.

(** What the subscriber does to the queue. *)
Inductive SubscriberOp :=
  | SEnqueue (h : SealedHeader) (es : L1PortalEvents) (pes : list PolicyEvent)
  | SClear.

(** The answer to a forkchoice update with attributes. *)
Inductive FcuAnswer := FcuFailed (error : string) | FcuAnswered (invalid payload_id : bool).
(** The answer to a new payload. *)
Inductive NewPayloadAnswer := NewPayloadFailed (error : string) | NewPayloadAnswered (valid : bool).

Inductive EngineError :=
  | PrepareFailed (e : PolicyError)
  | EngineApi (error : string)
  | InvalidPayloadStatus
  | NoPayloadId
  | NoPayload
  | InvalidPayload (block_number : Z).

Record Attempt (S PoolTx Best Block : Type) := mkAttempt {
  at_rpc : L1Rpc;
  at_machine : Machine S PoolTx Best Block;
  at_fuel : nat;
  at_gas_limit : Z;
  at_cancelled : nat -> bool;
  at_fcu : FcuAnswer;
  at_resolved : bool;
  at_new_payload : NewPayloadAnswer;
  at_during : list SubscriberOp
}.
Arguments at_rpc {S PoolTx Best Block}.
Arguments at_machine {S PoolTx Best Block}.
Arguments at_fuel {S PoolTx Best Block}.
Arguments at_gas_limit {S PoolTx Best Block}.
Arguments at_cancelled {S PoolTx Best Block}.
Arguments at_fcu {S PoolTx Best Block}.
Arguments at_resolved {S PoolTx Best Block}.
Arguments at_new_payload {S PoolTx Best Block}.
Arguments at_during {S PoolTx Best Block}.

Section Engine.
Context {S PoolTx Best Block : Type} {CV : Curve} {PR : Primitives}.
Context (keccak256 : list Z -> Z) (abi_encode_regular : DepositType * AbiDeposit * Z -> list Z)
  (abi_encode_encrypted : DepositType * AbiEncryptedDeposit * Z -> list Z).
Context (abi_encode_deposit : AbiDeposit -> list Z) (abi_encode_encrypted_deposit : AbiEncryptedDeposit -> list Z).
Context (sequencer_key portal_address : Z).
Context (encode_header : SealedHeader -> list Z) (slot_TEMPO_BLOCK_HASH slot_TEMPO_BLOCK_NUMBER interval : Z).
Context (encryptor : option (list Z -> Z -> Z -> option (list Z))).
Context (block_hash : Block -> Z).

(** The engine with the queue and the policy cache it shares; [en_state] is the
    zone's state at the head. *)
Record ZoneEngine := mkEngine {
  en_queue : PendingDeposits;
  en_cache : PolicyCacheInner;
  en_last_header : Z;
  en_state : S
}.

Definition set_queue (q : PendingDeposits) (e : ZoneEngine) : ZoneEngine :=
  mkEngine q (en_cache e) (en_last_header e) (en_state e).
Definition set_cache (c : PolicyCacheInner) (e : ZoneEngine) : ZoneEngine :=
  mkEngine (en_queue e) c (en_last_header e) (en_state e).

Definition subscriber_step (q : PendingDeposits) (op : SubscriberOp) : PendingDeposits :=
  match op with
  | SEnqueue h es pes => (try_enqueue keccak256 abi_encode_regular abi_encode_encrypted q h es pes).2
  | SClear => clear_last_enqueued q
  end.

Definition prepare_l1_block (rpc : L1Rpc) (l1_block : L1BlockDeposits) : P PreparedL1Block :=
  prepare abi_encode_deposit abi_encode_encrypted_deposit rpc sequencer_key portal_address l1_block.

(** The payload the service built for the head and the prepared block. *)
Definition resolve (a : Attempt S PoolTx Best Block) (parent_hash : Z) (prepared : PreparedL1Block)
    : option (@BuiltPayload S PoolTx Block) :=
  match try_build (at_machine a) encode_header slot_TEMPO_BLOCK_HASH slot_TEMPO_BLOCK_NUMBER interval encryptor
          (at_cancelled a) (at_fuel a) parent_hash (at_gas_limit a) prepared with
  | Ok (Freeze p) => if at_resolved a then Some p else None
  | _ => None
  end.

(** The subscriber's work is placed before the queue is looked at again. *)
Definition advance_step (a : Attempt S PoolTx Best Block) (l1_block : L1BlockDeposits) (e : ZoneEngine)
    : result EngineError unit * ZoneEngine :=
  let l1_num_hash := num_hash (header l1_block) in
  let '(prepared, cache) := prepare_l1_block (at_rpc a) l1_block (en_cache e) in
  let e := set_queue (foldl subscriber_step (en_queue e) (at_during a)) (set_cache cache e) in
  match prepared with
  | Err err => (Err (PrepareFailed err), e)
  | Ok prepared =>
    match at_fcu a with
    | FcuFailed err => (Err (EngineApi err), e)
    | FcuAnswered true _ => (Err InvalidPayloadStatus, e)
    | FcuAnswered false false => (Err NoPayloadId, e)
    | FcuAnswered false true =>
      match resolve a (en_last_header e) prepared with
      | None => (Err NoPayload, e)
      | Some payload =>
        match at_new_payload a with
        | NewPayloadFailed err => (Err (EngineApi err), e)
        | NewPayloadAnswered false => (Err (InvalidPayload (bp_block_number payload)), e)
        | NewPayloadAnswered true =>
          let queue := (confirm (en_queue e) l1_num_hash).2 in
          (Ok tt, mkEngine queue (advance (en_cache e) (nh_number l1_num_hash)) (block_hash (bp_block payload))
                    (bp_state payload))
        end
      end
    end
  end.

(** The drain of the queue, one attempt after the other until the queue is
    empty or an attempt fails (or the attempts of this run are used up). *)
Fixpoint advance_all_available (attempts : list (Attempt S PoolTx Best Block)) (e : ZoneEngine)
    : list L1BlockDeposits * ZoneEngine :=
  match attempts with
  | [] => ([], e)
  | a :: attempts' =>
    match peek (en_queue e) with
    | None => ([], e)
    | Some l1_block =>
      match advance_step a l1_block e with
      | (Err _, e') => ([], e')
      | (Ok _, e') => let '(taken, e'') := advance_all_available attempts' e' in (l1_block :: taken, e'')
      end
    end
  end.

(** The run of the node: the subscriber between drains, and drains. *)
Inductive NodeEvent :=
  | Subscribed (op : SubscriberOp)
  | Drained (attempts : list (Attempt S PoolTx Best Block)).

Definition node_step (s : list L1BlockDeposits * ZoneEngine) (ev : NodeEvent) : list L1BlockDeposits * ZoneEngine :=
  match ev with
  | Subscribed op => (s.1, set_queue (subscriber_step (en_queue s.2) op) s.2)
  | Drained attempts => let '(taken, e) := advance_all_available attempts s.2 in (s.1 ++ taken, e)%list
  end.
Definition engine_run (events : list NodeEvent) (e : ZoneEngine) : list L1BlockDeposits * ZoneEngine :=
  foldl node_step ([], e) events.
End Engine.
