(* ===== verification/EngineProofs.v ===== *)
(** * The zone engine follows L1, and where it stops

    Whatever the subscriber does to the queue and whatever attempts fail, the
    L1 blocks the zone takes are one chain from its checkpoint.  The same
    check of the builder stops the zone for good when the front of the queue
    is not the next block, and a reorganisation of the front makes it so. *)

From stdpp Require Import list strings.
From S2P Require Import Prelude.
From S2P Require Import Policy.
From S2P Require Import PolicyCache.
From S2P Require Import PolicyProvider.
From S2P Require Import TempoState.
From S2P Require Import L1State.
From S2P Require Import DepositQueue.
From S2P Require Import DepositQueueProofs.
From S2P Require Import Ecies.
From S2P Require Import PrepareBlock.
From S2P Require Import Outbox.
From S2P Require Import Payload.
From S2P Require Import PayloadProofs.
From S2P Require Import Engine.
#[local] Open Scope Z_scope.

(** [bs] continue L1 from the checkpoint [c] to [c']. *)
Fixpoint continues (c : NumHash) (bs : list L1BlockDeposits) (c' : NumHash) : Prop :=
  match bs with
  | [] => c' = c
  | b :: bs' =>
    h_number (header b) = wrapping_add U64_MAX (nh_number c) 1 /\ h_parent_hash (header b) = nh_hash c /\
    continues (num_hash (header b)) bs' c'
  end.

Lemma continues_app c bs c' bs' c'' : continues c bs c' -> continues c' bs' c'' -> continues c (bs ++ bs') c''.
Proof. revert c. induction bs as [|b bs IH]; cbn; [by intros c ->|]. intros c (? & ? & H) H'. split_and!; [done..|]. by apply (IH _ H). Qed.

Section Engine.
Context {S PoolTx Best Block : Type} {CV : Curve} {PR : Primitives}.
Context (keccak256 : list Z -> Z) (abi_encode_regular : DepositType * AbiDeposit * Z -> list Z)
  (abi_encode_encrypted : DepositType * AbiEncryptedDeposit * Z -> list Z).
Context (abi_encode_deposit : AbiDeposit -> list Z) (abi_encode_encrypted_deposit : AbiEncryptedDeposit -> list Z).
Context (sequencer_key portal_address : Z).
Context (encode_header : SealedHeader -> list Z) (slot_hash slot_number interval : Z).
Context (encryptor : option (list Z -> Z -> Z -> option (list Z))).
Context (block_hash : Block -> Z).
Abbreviation advance_step := (advance_step keccak256 abi_encode_regular abi_encode_encrypted abi_encode_deposit
  abi_encode_encrypted_deposit sequencer_key portal_address encode_header slot_hash slot_number interval encryptor block_hash).
Abbreviation advance_all_available := (advance_all_available keccak256 abi_encode_regular abi_encode_encrypted abi_encode_deposit
  abi_encode_encrypted_deposit sequencer_key portal_address encode_header slot_hash slot_number interval encryptor block_hash).
Abbreviation node_step := (node_step keccak256 abi_encode_regular abi_encode_encrypted abi_encode_deposit
  abi_encode_encrypted_deposit sequencer_key portal_address encode_header slot_hash slot_number interval encryptor block_hash).
Abbreviation engine_run := (engine_run keccak256 abi_encode_regular abi_encode_encrypted abi_encode_deposit
  abi_encode_encrypted_deposit sequencer_key portal_address encode_header slot_hash slot_number interval encryptor block_hash).
Abbreviation subscriber_step := (subscriber_step keccak256 abi_encode_regular abi_encode_encrypted).
Abbreviation prepare_l1_block := (prepare_l1_block abi_encode_deposit abi_encode_encrypted_deposit sequencer_key portal_address).

(** The state a block leads to, and how to read a state's storage. *)
Context (state_of : Z -> S) (storage : S -> Z -> Z -> result string (option Z)).
Definition zone_checkpoint (s : S) : result BuildError NumHash := tempo_num_hash (storage s) slot_hash slot_number.

(** The EVM as the engine relies on it: a state provider gives the state of the
    block, a block stands for the state it was finished with, a successful
    [advanceTempo] sets the checkpoint to its L1 block, and nothing else
    changes the checkpoint. *)
Record TempoLaws (mc : Machine S PoolTx Best Block) : Prop := mkTempoLaws {
  tl_state h s : mc_state_at mc h = Ok s -> s = state_of h;
  tl_finish s block : mc_finish mc s = Ok block -> state_of (block_hash block) = s;
  tl_storage s : mc_storage mc s = storage s;
  tl_advance s prepared s' : mc_system mc s (build_advance_tempo_tx encode_header prepared) = Ok (true, s') ->
    zone_checkpoint s' = Ok (num_hash (pb_header prepared));
  tl_pool s tx gas s' : mc_pool mc s tx = Executed gas s' -> zone_checkpoint s' = zone_checkpoint s;
  tl_finalize s count block senders s' :
    mc_system mc s (build_finalize_withdrawal_batch_tx count block senders) = Ok (true, s') ->
    zone_checkpoint s' = zone_checkpoint s
}.

Definition lawful (ev : @NodeEvent S PoolTx Best Block) : Prop :=
  match ev with Subscribed _ => True | Drained attempts => Forall (fun a => TempoLaws (at_machine a)) attempts end.

(** The engine's head is a block whose state has the checkpoint [c]. *)
Definition at_checkpoint (e : @ZoneEngine S) (c : NumHash) : Prop :=
  en_state e = state_of (en_last_header e) /\ zone_checkpoint (en_state e) = Ok c.

Lemma prepare_header rpc b cache prepared cache' : prepare_l1_block rpc b cache = (Ok prepared, cache') -> pb_header prepared = header b.
Proof.
  unfold Engine.prepare_l1_block, prepare. cbn. unfold mbind, P_bind, mret, P_ret.
  destruct (prepare_loop _ _ _ _ _ _ _ _ _ cache) as [[[q d]|] c]; [|done]. by intros [= <- _].
Qed.

Lemma pool_run_checkpoint mc s txs gases s' :
  TempoLaws mc -> pool_run mc s txs gases s' -> zone_checkpoint s' = zone_checkpoint s.
Proof. intros L. induction 1 as [|s tx txs gas gases s1 s2 Hp _ IH]; [done|]. rewrite IH. by apply (tl_pool _ L _ _ _ _ Hp). Qed.

(** A payload takes the block after the checkpoint of its parent. *)
Lemma frozen_checkpoint mc parent limit prepared p c :
  TempoLaws mc -> frozen mc encode_header slot_hash slot_number interval encryptor parent limit prepared p ->
  zone_checkpoint (state_of parent) = Ok c ->
  h_number (pb_header prepared) = wrapping_add U64_MAX (nh_number c) 1 /\ h_parent_hash (pb_header prepared) = nh_hash c /\
  state_of (block_hash (bp_block p)) = bp_state p /\ zone_checkpoint (bp_state p) = Ok (num_hash (pb_header prepared)).
Proof.
  intros L [state l1 fee opened start advanced pooled txs gases pending Hat Htm Hn Hpa _ _ _ _ Ha Hpool Hend Hfin] Hc.
  apply (tl_state _ L) in Hat as ->. rewrite (tl_storage _ L) in Htm. unfold zone_checkpoint in Hc. rewrite Hc in Htm.
  injection Htm as <-. split_and!; [done..|by apply (tl_finish _ L)|].
  apply (pool_run_checkpoint _ _ _ _ _ L) in Hpool. apply (tl_advance _ L) in Ha. rewrite Ha in Hpool.
  destruct (negb (bool_decide (pending = [])) || _); [|by destruct Hend as [-> _]].
  destruct Hend as (tx & Hf & _). unfold finalize_batch in Hf. inv_build Hf. cbv zeta in Hf. inv_build Hf.
  destruct b; [|done]. injection Hf as <- _. rewrite <- Hpool. by eapply (tl_finalize _ L).
Qed.

Lemma advance_step_Ok a b e e' c :
  TempoLaws (at_machine a) -> at_checkpoint e c -> advance_step a b e = (Ok tt, e') ->
  continues c [b] (num_hash (header b)) /\ at_checkpoint e' (num_hash (header b)).
Proof.
  intros L [Hs Hc] H. unfold Engine.advance_step in H.
  destruct (prepare_l1_block (at_rpc a) b (en_cache e)) as [[prepared|] cache] eqn:Hp; [|done].
  apply prepare_header in Hp. cbn in H. destruct (at_fcu a) as [|[] []]; try done.
  unfold resolve in H. destruct (try_build _ _ _ _ _ _ _ _ _ _ _) as [[|p]|] eqn:Hb; [done| |done].
  destruct (at_resolved a); [|done]. destruct (at_new_payload a) as [|[]]; [done| |done]. injection H as <-.
  apply try_build_frozen in Hb. rewrite Hs in Hc.
  destruct (frozen_checkpoint _ _ _ _ _ _ L Hb Hc) as (Hn & Hpa & Hst & Hck). rewrite Hp in *.
  split; [by cbn|]. by split.
Qed.

Lemma advance_step_Err (a : Attempt S PoolTx Best Block) b e err e' :
  advance_step a b e = (Err err, e') -> en_last_header e' = en_last_header e /\ en_state e' = en_state e.
Proof.
  unfold Engine.advance_step. destruct (prepare_l1_block (at_rpc a) b (en_cache e)) as [[prepared|] cache]; [|by intros [= _ <-]].
  destruct (at_fcu a) as [|[] []]; try by intros [= _ <-]. destruct (resolve _ _ _ _ _ _ _ _) as [p|]; [|by intros [= _ <-]].
  destruct (at_new_payload a) as [|[]]; [by intros [= _ <-]|done|by intros [= _ <-]].
Qed.

Lemma drain_continues attempts e c :
  Forall (fun a => TempoLaws (at_machine a)) attempts -> at_checkpoint e c ->
  exists c', continues c (advance_all_available attempts e).1 c' /\ at_checkpoint (advance_all_available attempts e).2 c'.
Proof.
  intros HL. revert e c. induction HL as [|a attempts L _ IH]; intros e c Hc; cbn [Engine.advance_all_available]; [by exists c|].
  destruct (peek (en_queue e)) as [b|]; [|by exists c].
  destruct (advance_step a b e) as [[[]|err] e'] eqn:Ha.
  - apply (advance_step_Ok _ _ _ _ _ L Hc) in Ha as [H1 H2]. destruct (IH _ _ H2) as (c' & H3 & H4).
    destruct (advance_all_available attempts e') as [taken e'']. exists c'. split; [|done].
    by apply (continues_app c [b] _ taken c' H1).
  - apply advance_step_Err in Ha as [H1 H2]. exists c. split; [done|]. destruct Hc as [Hs Hc]. split; cbn; congruence.
Qed.

Lemma engine_run_continues events taken e c0 c :
  Forall lawful events -> continues c0 taken c -> at_checkpoint e c ->
  exists c', continues c0 (foldl node_step (taken, e) events).1 c' /\ at_checkpoint (foldl node_step (taken, e) events).2 c'.
Proof.
  intros HL. revert taken e c. induction HL as [|ev events L _ IH]; intros taken e c Ht Hc; [by exists c|]. cbn [foldl].
  destruct ev as [op|attempts]; cbn [Engine.node_step fst snd]; [by eapply IH|].
  destruct (drain_continues attempts e c L Hc) as (c' & H1 & H2).
  destruct (advance_all_available attempts e) as [new e']. eapply IH; [|exact H2]. by eapply continues_app.
Qed.

(** C5. The zone follows L1.  In any run of the node, with any L1 blocks
    offered, duplicated, purged or replaced by the subscriber, also while a
    payload is being built, and any attempts failing, the L1 blocks that zone
    blocks took are one chain of consecutive, hash-linked headers from the
    checkpoint of the first head to that of the last. *)
Theorem engine_follows_l1 events e c :
  Forall lawful events -> at_checkpoint e c ->
  exists c', continues c (engine_run events e).1 c' /\ at_checkpoint (engine_run events e).2 c'.
Proof. intros HL Hc. by apply (engine_run_continues events [] e c c). Qed.

(** ** Where the engine stops *)

(** The subscriber's operation continues the L1 chain at the end of the queue. *)
Definition extends (q : PendingDeposits) (op : SubscriberOp) : Prop :=
  match op with
  | SEnqueue h _ _ => exists t, last (pending q) = Some t /\ h_number h = block_number_of t + 1 /\
      h_parent_hash h = h_hash (header t) /\ number_ok (h_number h)
  | SClear => True
  end.
Fixpoint forward (q : PendingDeposits) (ops : list SubscriberOp) : Prop :=
  match ops with [] => True | op :: ops' => extends q op /\ forward (subscriber_step q op) ops' end.

(** The last pending block has the highest number. *)
Definition topped (q : PendingDeposits) : Prop :=
  exists t, last (pending q) = Some t /\ number_ok (block_number_of t) /\
    Forall (fun b => block_number_of b <= block_number_of t) (pending q).

Lemma position_None n bs : Forall (fun b => block_number_of b <> n) bs -> position n bs = None.
Proof. induction 1 as [|b bs Hb _ IH]; [done|]. cbn. by rewrite (proj2 (Z.eqb_neq _ _) Hb), IH. Qed.

Lemma extends_keeps q op : topped q -> extends q op ->
  topped (subscriber_step q op) /\ exists ext, pending (subscriber_step q op) = pending q ++ ext.
Proof.
  intros (t & Hl & Hok & Hf) Hx. destruct op as [h es pes|]; cbn [Engine.subscriber_step].
  2:{ split; [by exists t|]. exists []. by rewrite app_nil_r. }
  destruct Hx as (t' & Hl' & Hn & Hpar & Hok'). rewrite Hl in Hl'. injection Hl' as <-.
  assert (try_enqueue keccak256 abi_encode_regular abi_encode_encrypted q h es pes
          = (Accepted, append keccak256 abi_encode_regular abi_encode_encrypted q h es pes)) as ->.
  { unfold try_enqueue. rewrite position_None.
    2:{ eapply Forall_impl; [exact Hf|]. cbn. intros b Hb. lia. }
    unfold enqueue_rest, enqueue_tail. rewrite Hl, (succ64_ok _ Hok), (proj2 (Z.leb_gt _ _)) by lia.
    by rewrite Hn, Z.ltb_irrefl, Hpar, Z.eqb_refl. }
  split; [|by eexists]. unfold topped. cbn [snd append pending]. rewrite last_snoc.
  eexists. split; [done|]. split; [done|].
  apply Forall_app. split; [|repeat constructor; cbn; lia].
  eapply Forall_impl; [exact Hf|]. unfold block_number_of in *. cbn. intros b Hb. lia.
Qed.

Lemma forward_keeps ops q : topped q -> forward q ops ->
  topped (foldl subscriber_step q ops) /\ exists ext, pending (foldl subscriber_step q ops) = pending q ++ ext.
Proof.
  revert q. induction ops as [|op ops IH]; intros q Ht; cbn; [split; [done|]; exists []; by rewrite app_nil_r|].
  intros [Hx Hf]. destruct (extends_keeps q op Ht Hx) as [Ht' [ext He]]. destruct (IH _ Ht' Hf) as [? [ext' ->]].
  split; [done|]. rewrite He, <- app_assoc. by eexists.
Qed.

(** The subscriber's operations during an event of a stopped engine, which
    makes one attempt per drain. *)
Definition event_ops (ev : @NodeEvent S PoolTx Best Block) : list SubscriberOp :=
  match ev with Subscribed op => [op] | Drained [] => [] | Drained (a :: _) => at_during a end.

Lemma advance_step_queue (a : Attempt S PoolTx Best Block) b e err e' :
  advance_step a b e = (Err err, e') -> en_queue e' = foldl subscriber_step (en_queue e) (at_during a).
Proof.
  unfold Engine.advance_step. destruct (prepare_l1_block (at_rpc a) b (en_cache e)) as [[prepared|] cache]; [|by intros [= _ <-]].
  destruct (at_fcu a) as [|[] []]; try by intros [= _ <-]. destruct (resolve _ _ _ _ _ _ _ _) as [p|]; [|by intros [= _ <-]].
  destruct (at_new_payload a) as [|[]]; [by intros [= _ <-]|done|by intros [= _ <-]].
Qed.

Lemma blocked_event ev taken e c b :
  lawful ev -> at_checkpoint e c -> peek (en_queue e) = Some b ->
  h_number (header b) <> wrapping_add U64_MAX (nh_number c) 1 ->
  exists e', node_step (taken, e) ev = (taken, e') /\ en_last_header e' = en_last_header e /\ en_state e' = en_state e /\
    en_queue e' = foldl subscriber_step (en_queue e) (event_ops ev).
Proof.
  intros L Hc Hp Hn. destruct ev as [op|[|a attempts]]; cbn [Engine.node_step fst snd event_ops].
  - by eexists.
  - exists e. cbn [Engine.advance_all_available]. by rewrite app_nil_r.
  - cbn [Engine.advance_all_available]. rewrite Hp. destruct (advance_step a b e) as [[[]|err] e'] eqn:Ha.
    + apply Forall_cons in L as [L _]. apply (advance_step_Ok _ _ _ _ _ L Hc) in Ha as [(H1 & _) _]. done.
    + exists e'. rewrite app_nil_r. pose proof (advance_step_queue _ _ _ _ _ Ha). by apply advance_step_Err in Ha as [? ?].
Qed.

Lemma blocked_run events taken e c b :
  Forall lawful events -> at_checkpoint e c -> peek (en_queue e) = Some b ->
  h_number (header b) <> wrapping_add U64_MAX (nh_number c) 1 ->
  topped (en_queue e) -> forward (en_queue e) (mjoin (event_ops <$> events)) ->
  exists e', foldl node_step (taken, e) events = (taken, e') /\ en_last_header e' = en_last_header e /\ peek (en_queue e') = Some b.
Proof.
  intros HL. revert e. induction HL as [|ev events L _ IH]; intros e Hc Hp Hn Ht Hf; [by exists e|].
  change (mjoin (event_ops <$> ev :: events)) with (event_ops ev ++ mjoin (event_ops <$> events)) in Hf.
  assert (Hsplit : forall ops ops' q, forward q (ops ++ ops') -> forward q ops /\ forward (foldl subscriber_step q ops) ops').
  { clear. induction ops as [|op ops IH]; cbn; [done|]. intros ops' q [? H]. by apply IH in H as [? ?]. }
  apply Hsplit in Hf as [Hf1 Hf2]. destruct (forward_keeps _ _ Ht Hf1) as [Ht' [ext Hext]].
  destruct (blocked_event ev taken e c b L Hc Hp Hn) as (e1 & E & Hh & Hs & Hq). cbn [foldl]. rewrite E.
  destruct (IH e1) as (e2 & E2 & Hh2 & Hp2); [| |done|by rewrite Hq|by rewrite Hq|].
  - destruct Hc as [Hc1 Hc2]. split; congruence.
  - unfold peek in *. rewrite Hq, Hext. by destruct (pending (en_queue e)).
  - exists e2. split; [done|]. split; [congruence|done].
Qed.

(** C40. A reorganisation of the only pending L1 block stops the zone.  When the
    block after the zone's checkpoint is pending alone and L1 replaces it, the
    queue accepts the block that follows the replacement in its place; from
    then on no zone block is built, whatever else L1 appends and however often
    the engine retries. *)
Theorem front_reorg_stops_zone ops e b c h es pes events :
  Forall q_op_ok ops -> en_queue e = (q_run keccak256 abi_encode_regular abi_encode_encrypted ops).1 ->
  pending (en_queue e) = [b] -> last_processed (en_queue e) = Some c -> at_checkpoint e c ->
  nh_number c + 1 = block_number_of b ->
  h_number h = block_number_of b + 1 -> h_parent_hash h <> h_hash (header b) -> number_ok (h_number h) ->
  Forall lawful events ->
  forward (subscriber_step (en_queue e) (SEnqueue h es pes)) (mjoin (event_ops <$> events)) ->
  exists e', engine_run (Subscribed (SEnqueue h es pes) :: events) e = ([], e') /\
    en_last_header e' = en_last_header e /\ exists front, peek (en_queue e') = Some front /\ header front = h.
Proof.
  intros Hok Hq Hp Hlp Hc Hb Hn Hpar Hnok HL Hf.
  pose proof Hp as Hp'. rewrite Hq in Hp', Hlp.
  destruct (reorged_front_is_skipped _ _ _ ops h es pes b c Hok Hp' Hlp Hb Hn Hpar) as (q' & E & (before & after & Hq') & _).
  unfold Engine.engine_run. cbn [foldl Engine.node_step fst snd].
  assert (subscriber_step (en_queue e) (SEnqueue h es pes) = q') as Hstep by (cbn; by rewrite Hq, E).
  rewrite Hstep in *.
  destruct (blocked_run events [] (set_queue q' e) c (mkBlock h es pes before after) HL) as (e' & -> & Hh & Hfr).
  - exact Hc.
  - cbn. unfold peek. by rewrite Hq'.
  - cbn. assert (number_ok (nh_number c)) as Hcok.
    { pose proof (q_run_accounted keccak256 abi_encode_regular abi_encode_encrypted ops Hok) as Hacc.
      by apply (q_processed _ _ _ _ (acc_inv _ _ _ _ Hacc)). }
    unfold number_ok in *. rewrite wrapping_add_small; lia.
  - cbn. exists (mkBlock h es pes before after). rewrite Hq'. split_and!; [done..|]. repeat constructor. lia.
  - exact Hf.
  - exists e'. split; [done|]. split; [done|]. by eexists.
Qed.
End Engine.
