(* ===== verification/EngineWitness.v ===== *)
(** * Witnesses: an engine that takes two L1 blocks, and one that stops

    A zone whose state is the number of the L1 block it has taken. *)

From stdpp Require Import list strings.
From S2P Require Import Prelude.
From S2P Require Import Policy.
From S2P Require Import PolicyProvider.
From S2P Require Import TempoState.
From S2P Require Import L1State.
From S2P Require Import DepositQueue.
From S2P Require Import DepositQueueProofs.
From S2P Require Import Ecies.
From S2P Require Import EciesProofs.
From S2P Require Import PrepareBlock.
From S2P Require Import Outbox.
From S2P Require Import Payload.
From S2P Require Import PayloadProofs.
From S2P Require Import Engine.
From S2P Require Import EngineProofs.
#[local] Open Scope Z_scope.

Module EngineExamples.
Import DepositQueueExamples.

(** The checkpoint of the state [s] is the block [s] with the hash [100 * s]. *)
Definition storage (s a k : Z) : result string (option Z) := Ok (Some (if k =? 0 then 100 * s else s)).
Definition header_bytes (h : SealedHeader) : list Z := [h_number h; h_hash h].
Definition system (s : Z) (tx : SystemTx) : result string (bool * Z) :=
  match st_call tx with
  | advanceTempo [n; h] _ _ _ => Ok (if (h =? 100 * n) && (0 <=? n) && (n <=? U64_MAX) then (true, n) else (false, s))
  | advanceTempo _ _ _ _ => Ok (false, s)
  | finalizeBatch _ _ _ => Ok (true, s)
  end.
Definition machine : Machine Z unit unit Z := {|
  mc_state_at h := Ok h; mc_storage := storage; mc_next_env s := Ok (7, s); mc_open s := Ok s; mc_pre s := Ok s;
  mc_system := system; mc_view _ _ := Ok (true, Some []); mc_decode_pending _ := Some [];
  mc_pool s _ := InvalidTx true; mc_gas_limit _ := 0; mc_best _ := tt; mc_next _ := None; mc_mark_invalid _ b := b;
  mc_finish s := Ok s
|}.

Lemma machine_laws : TempoLaws header_bytes 0 1 (fun b => b) (fun h => h) storage machine.
Proof.
  split; try done.
  - by intros h s [= ->].
  - by intros s block [= ->].
  - intros s [[n h p] q d t] s' H. cbn in H. unfold zone_checkpoint, tempo_num_hash, tempo_block_number, tempo_block_hash, read_storage.
    destruct (Z.eqb_spec h (100 * n)) as [->|]; [|done]. cbn in H.
    destruct (Z.leb_spec 0 n); [|done]. destruct (Z.leb_spec n U64_MAX) as [Hn|]; [|done]. injection H as <-. cbn.
    by rewrite (proj2 (Z.leb_le _ _) Hn).
  - by intros s count block senders s' [= <-].
Qed.

Definition attempt (during : list SubscriberOp) : Attempt Z unit unit Z := {|
  at_rpc := mkL1Rpc (fun _ _ => None) (fun _ _ => None) (fun _ _ => None) (fun _ _ _ => None) (fun _ _ => None);
  at_machine := machine; at_fuel := 3; at_gas_limit := 30000000; at_cancelled _ := false;
  at_fcu := FcuAnswered false true; at_resolved := true; at_new_payload := NewPayloadAnswered true; at_during := during
|}.

#[local] Existing Instance EciesExamples.curve3.
#[local] Existing Instance EciesExamples.prims0.
Abbreviation erun := (engine_run (S := Z) keccak enc_regular enc_encrypted (fun _ => []) (fun _ => [1]) 2 9 header_bytes 0 1 120 None (fun b : Z => b)).

Definition start : @ZoneEngine Z := mkEngine pending_default cache_default 10 10.
Definition feed : list (@NodeEvent Z unit unit Z) :=
  [Subscribed (SEnqueue (hd 11 0 1000) (dep 5) []); Subscribed (SEnqueue (hd 12 0 1100) (dep 6) []);
   Drained [attempt [SEnqueue (hd 13 0 1200) (dep 7) []]; attempt []]].

Lemma engine_follows_l1_witness :
  length (erun feed start).1 = 2%nat /\
  exists c', continues (mkNumHash 10 1000) (erun feed start).1 c'.
Proof.
  split; [by vm_compute|].
  destruct (engine_follows_l1 keccak enc_regular enc_encrypted (fun _ => []) (fun _ => [1]) 2 9 header_bytes 0 1 120 None
    (fun b : Z => b) (fun h : Z => h) storage feed start (mkNumHash 10 1000)) as (c' & H & _).
  - repeat constructor; apply machine_laws.
  - by split.
  - by exists c'.
Defined.

(** Block 10 is taken, block 11 of a fork is pending; 12 comes on another 11. *)
Definition waiting : @ZoneEngine Z := mkEngine (DepositQueueExamples.run run_ops).1 cache_default 10 10.
Definition later : list (@NodeEvent Z unit unit Z) :=
  [Drained [attempt []]; Subscribed (SEnqueue (hd 13 0 1202) (dep 6) []); Drained [attempt [SEnqueue (hd 14 0 1300) (dep 2) []]]].

Lemma front_reorg_stops_zone_witness :
  exists e', erun (Subscribed (SEnqueue (hd 12 2 1102) (dep 9) []) :: later) waiting = ([], e') /\
    en_last_header e' = 10.
Proof.
  destruct (front_reorg_stops_zone keccak enc_regular enc_encrypted (fun _ => []) (fun _ => [1]) 2 9 header_bytes 0 1 120 None
    (fun b : Z => b) (fun h : Z => h) storage run_ops waiting
    (mkBlock (hd 11 1 1000) (dep 8) [] (processed_head_hash (DepositQueueExamples.run run_ops).1)
       (enqueued_head_hash (DepositQueueExamples.run run_ops).1))
    (mkNumHash 10 1000) (hd 12 2 1102) (dep 9) [] later) as (e' & H & Hh & _).
  - exact run_ops_ok.
  - done.
  - by vm_compute.
  - by vm_compute.
  - by split.
  - by vm_compute.
  - by vm_compute.
  - by vm_compute.
  - split; by vm_compute.
  - repeat constructor; apply machine_laws.
  - vm_compute. split_and!; try done; eexists; split_and!; done.
  - by exists e'.
Defined.
End EngineExamples.
