(* ===== verification/Subscriber.v ===== *)
(** * The L1 subscriber

    l1/src/subscriber.rs: fetching L1 blocks with their receipts, the extraction
    of portal and policy events, the backfill, the confirmation buffer of the
    live stream, and what the subscriber writes to the caches and the queue.
    The L1 node is the record [L1Node]; how transactions are encoded into the
    receipts root and the address of the policy registry are parameters.  Connections, metrics and logging are left
    out. *)

From stdpp Require Import gmap list strings.
From S2P Require Import Prelude.
From S2P Require Import Policy.
From S2P Require Import L1State.
From S2P Require Import DepositQueue.
#[local] Open Scope Z_scope.

(** A log, with what each decoder makes of it. *)
Record L1Log := mkL1Log {
  ll_portal : PortalLog;
  ll_registry : option RegistryEvent;
  ll_policy_update_topic : bool;
  ll_policy_update : option Z
}.
Definition ll_address (l : L1Log) : Z := log_address (ll_portal l).

Record Receipt := mkL1Receipt { rc_logs : list L1Log; rc_bloom : Z }.

(** A header as the node returns it: its fields and the hash it is listed under. *)
Record RpcHeader := mkRpcHeader {
  rh_number : Z; rh_hash : Z; rh_parent_hash : Z; rh_receipts_root : Z; rh_logs_bloom : Z
}.

Record L1Node := mkL1Node {
  l1_header_by_number : Z -> option (option RpcHeader);
  l1_block_receipts : Z -> option (option (list Receipt));
  l1_portal_logs : Z -> option (list L1Log);
  l1_block_number : option Z;
  l1_genesis_tempo_block_number : option Z
}.

Inductive SubError :=
  | RequestFailed
  | HeaderNotFound (block_number : Z)
  | NoReceipts (block : NumHash)
  | ReceiptRootMismatch (block : NumHash)
  | LogsBloomMismatch (block : NumHash)
  | EnqueuePanic.

(** ** Events *)

(** One log of a receipt: the tokens tracked, and the events so far. *)
Definition extract_log (TIP403_REGISTRY_ADDRESS portal_address : Z) (st : list Z * L1PortalEvents * list PolicyEvent) (log : L1Log)
    : list Z * L1PortalEvents * list PolicyEvent :=
  let '(tracked_tokens, portal_events, policy_events) := st in
  let addr := ll_address log in
  if addr =? portal_address then
    let prev_len := length (enabled_tokens portal_events) in
    let portal_events := default portal_events (push_log portal_events (ll_portal log)) in
    let tracked_tokens :=
      match enabled_tokens portal_events !! prev_len with
      | Some enabled =>
        if bool_decide (t_token enabled ∈ tracked_tokens) then tracked_tokens else tracked_tokens ++ [t_token enabled]
      | None => tracked_tokens
      end in
    (tracked_tokens, portal_events, policy_events)
  else if addr =? TIP403_REGISTRY_ADDRESS then
    (tracked_tokens, portal_events, policy_events ++ option_list (decode_registry (ll_registry log)))
  else if bool_decide (addr ∈ tracked_tokens) && ll_policy_update_topic log then
    (tracked_tokens, portal_events, policy_events ++ option_list (decode_tip20 addr (ll_policy_update log)))
  else (tracked_tokens, portal_events, policy_events).

Definition extract_events (TIP403_REGISTRY_ADDRESS portal_address : Z) (tracked_tokens : list Z) (receipts : list Receipt)
    : list Z * L1PortalEvents * list PolicyEvent :=
  foldl (extract_log TIP403_REGISTRY_ADDRESS portal_address) (tracked_tokens, portal_events_default, []) (receipts ≫= rc_logs).

Definition extract_portal_events_from_logs (logs : list L1Log) : L1PortalEvents :=
  foldl (fun es log => default es (push_log es (ll_portal log))) portal_events_default logs.

(** ** Fetching *)

Definition verify_receipts (receipt_root : list Receipt -> Z) (block : NumHash) (expected_receipts_root expected_logs_bloom : Z)
    (receipts : list Receipt) : result SubError unit :=
  if negb (receipt_root receipts =? expected_receipts_root) then Err (ReceiptRootMismatch block)
  else if negb (foldl (fun bloom r => Z.lor bloom (rc_bloom r)) 0 receipts =? expected_logs_bloom) then
    Err (LogsBloomMismatch block)
  else Ok tt.

Definition fetch_and_verify_receipts_for_header (receipt_root : list Receipt -> Z) (node : L1Node) (block : NumHash)
    (expected_receipts_root expected_logs_bloom : Z) : result SubError (list Receipt) :=
  match l1_block_receipts node (nh_hash block) with
  | None => Err RequestFailed
  | Some None => Err (NoReceipts block)
  | Some (Some receipts) =>
    match verify_receipts receipt_root block expected_receipts_root expected_logs_bloom receipts with
    | Ok _ => Ok receipts
    | Err e => Err e
    end
  end.

(** [try_join!] of the receipts and the portal's logs of a header. *)
Definition fetch_for_header (receipt_root : list Receipt -> Z) (node : L1Node) (header : RpcHeader)
    : result SubError (RpcHeader * list Receipt * list L1Log) :=
  let block := mkNumHash (rh_number header) (rh_hash header) in
  match fetch_and_verify_receipts_for_header receipt_root node block (rh_receipts_root header) (rh_logs_bloom header) with
  | Err e => Err e
  | Ok receipts =>
    match l1_portal_logs node (rh_number header) with
    | None => Err RequestFailed
    | Some portal_logs => Ok (header, receipts, portal_logs)
    end
  end.

(** One block of a backfill; the number asked for names the block. *)
Definition fetch_block (receipt_root : list Receipt -> Z) (node : L1Node) (block_number : Z)
    : result SubError (RpcHeader * list Receipt * list L1Log) :=
  match l1_header_by_number node block_number with
  | None => Err RequestFailed
  | Some None => Err (HeaderNotFound block_number)
  | Some (Some header) =>
    match fetch_and_verify_receipts_for_header receipt_root node (mkNumHash block_number (rh_hash header))
            (rh_receipts_root header) (rh_logs_bloom header) with
    | Err e => Err e
    | Ok receipts =>
      match l1_portal_logs node block_number with
      | None => Err RequestFailed
      | Some portal_logs => Ok (header, receipts, portal_logs)
      end
    end
  end.

Section Subscriber.
Context (keccak256 : list Z -> Z) (abi_encode_regular : DepositType * AbiDeposit * Z -> list Z)
  (abi_encode_encrypted : DepositType * AbiEncryptedDeposit * Z -> list Z).
Context (receipt_root : list Receipt -> Z).
(** [SealedHeader::seal_slow]: the hash of the header's own fields. *)
Context (seal_hash : RpcHeader -> Z).
Context (TIP403_REGISTRY_ADDRESS portal_address : Z) (config_genesis : option Z).

(** A live block that waits for its successor. *)
Record Tip := mkTip { tip_header : SealedHeader; tip_events : L1PortalEvents; tip_policy_events : list PolicyEvent }.

Record Subscriber := mkSubscriber {
  su_queue : PendingDeposits;
  su_l1_state_cache : L1StateCacheInner;
  su_policy_cache : PolicyCacheInner;
  su_tracked_tokens : list Z;
  su_unconfirmed_tip : option Tip
}.

Definition with_tracked (t : list Z) (s : Subscriber) : Subscriber :=
  mkSubscriber (su_queue s) (su_l1_state_cache s) (su_policy_cache s) t (su_unconfirmed_tip s).
Definition with_queue (q : PendingDeposits) (s : Subscriber) : Subscriber :=
  mkSubscriber q (su_l1_state_cache s) (su_policy_cache s) (su_tracked_tokens s) (su_unconfirmed_tip s).
Definition with_tip (t : option Tip) (s : Subscriber) : Subscriber :=
  mkSubscriber (su_queue s) (su_l1_state_cache s) (su_policy_cache s) (su_tracked_tokens s) t.
Definition with_caches (l : L1StateCacheInner) (p : PolicyCacheInner) (s : Subscriber) : Subscriber :=
  mkSubscriber (su_queue s) l p (su_tracked_tokens s) (su_unconfirmed_tip s).

Definition seal_slow (h : RpcHeader) : SealedHeader := mkHeader (rh_number h) (seal_hash h) (rh_parent_hash h).

Definition update_l1_state_anchor (number hash parent_hash : Z) (s : Subscriber) : Subscriber :=
  let guard := su_l1_state_cache s in
  let reorged := negb (nh_hash (anchor guard) =? 0) && negb (parent_hash =? nh_hash (anchor guard)) in
  let s := if reorged then with_caches (l1_clear guard) (clear (su_policy_cache s)) s else s in
  with_caches (update_anchor (su_l1_state_cache s) (mkNumHash number hash)) (su_policy_cache s) s.

Definition apply_policy_events (block_number : Z) (policy_events : list PolicyEvent) (s : Subscriber) : Subscriber :=
  with_caches (su_l1_state_cache s) (apply_events (su_policy_cache s) block_number policy_events) s.

Definition apply_portal_state_events (block_number : Z) (portal_events : L1PortalEvents) (s : Subscriber) : Subscriber :=
  match sequencer_events portal_events with
  | [] => s
  | events =>
    with_caches (apply_sequencer_events_to_cache (su_l1_state_cache s) portal_address block_number events)
      (su_policy_cache s) s
  end.

(** What a confirmed block writes to the caches. *)
Definition settle_block (h : SealedHeader) (events : L1PortalEvents) (policy_events : list PolicyEvent) (s : Subscriber)
    : Subscriber :=
  apply_portal_state_events (h_number h) events
    (apply_policy_events (h_number h) policy_events
       (update_l1_state_anchor (h_number h) (h_hash h) (h_parent_hash h) s)).

(** The events of a fetched block: those of the receipts, or, when these have
    none of the portal's, those of the portal's logs. *)
Definition block_events (tracked_tokens : list Z) (receipts : list Receipt) (portal_logs : list L1Log)
    : list Z * L1PortalEvents * list PolicyEvent :=
  let '(tracked_tokens, events, policy_events) := extract_events TIP403_REGISTRY_ADDRESS portal_address tracked_tokens receipts in
  let events :=
    if events_is_empty events then
      let fallback := extract_portal_events_from_logs portal_logs in
      if events_is_empty fallback then events else fallback
    else events in
  (tracked_tokens, events, policy_events).

(** The body of the backfill loop; [enqueue_sealed] panics on a gap. *)
Definition backfill_block (fetched : RpcHeader * list Receipt * list L1Log) (s : Subscriber)
    : result SubError unit * Subscriber :=
  let '(header, receipts, portal_logs) := fetched in
  let '(tracked_tokens, events, policy_events) := block_events (su_tracked_tokens s) receipts portal_logs in
  let sealed := seal_slow header in
  let s := settle_block sealed events policy_events (with_tracked tracked_tokens s) in
  match enqueue keccak256 abi_encode_regular abi_encode_encrypted (su_queue s) sealed events policy_events with
  | Ok q => (Ok tt, with_queue q s)
  | Err _ => (Err EnqueuePanic, s)
  end.

Fixpoint backfill_loop (node : L1Node) (numbers : list Z) (s : Subscriber) : result SubError unit * Subscriber :=
  match numbers with
  | [] => (Ok tt, s)
  | block_number :: numbers' =>
    match fetch_block receipt_root node block_number with
    | Err e => (Err e, s)
    | Ok fetched =>
      match backfill_block fetched s with
      | (Ok _, s') => backfill_loop node numbers' s'
      | (Err e, s') => (Err e, s')
      end
    end
  end.

(** [backfill(from, to)]: the blocks [from..=to], in order. *)
Definition backfill (node : L1Node) (from to : Z) (s : Subscriber) : result SubError unit * Subscriber :=
  backfill_loop node (seqZ from (to - from + 1)) s.

Definition resolve_start_block (node : L1Node) (local_tempo_block_number : Z) : result SubError (option Z) :=
  if 0 <? local_tempo_block_number then Ok (Some (succ64 local_tempo_block_number))
  else match config_genesis with
  | Some genesis => Ok (Some (succ64 genesis))
  | None =>
    match l1_genesis_tempo_block_number node with
    | None => Err RequestFailed
    | Some on_chain => Ok (if on_chain =? 0 then None else Some (succ64 on_chain))
    end
  end.

Definition sync_to_l1_tip (node : L1Node) (local_tempo_block_number : Z) (s : Subscriber)
    : result SubError unit * Subscriber :=
  match resolve_start_block node local_tempo_block_number with
  | Err e => (Err e, s)
  | Ok None => (Ok tt, s)
  | Ok (Some from) =>
    let from := match last_enqueued (su_queue s) with
                | Some last => Z.max from (succ64 (nh_number last))
                | None => from
                end in
    match l1_block_number node with
    | None => (Err RequestFailed, s)
    | Some tip => if tip <? from then (Ok tt, s) else backfill node from tip s
    end
  end.

(** The live loop: the block that waits, and the new one. *)
Definition confirm_tip (node : L1Node) (t : Tip) (s : Subscriber) : result SubError unit * Subscriber :=
  let s := settle_block (tip_header t) (tip_events t) (tip_policy_events t) s in
  match try_enqueue keccak256 abi_encode_regular abi_encode_encrypted (su_queue s) (tip_header t) (tip_events t)
          (tip_policy_events t) with
  | (Accepted, q) | (Duplicate, q) => (Ok tt, with_queue q s)
  | (NeedBackfill from to, q) => backfill node from (h_number (tip_header t)) (with_queue q s)
  end.

Definition discard_tip (s : Subscriber) : Subscriber :=
  with_caches (l1_clear (su_l1_state_cache s)) (clear (su_policy_cache s)) s.

Definition live_block (node : L1Node) (fetched : RpcHeader * list Receipt * list L1Log) (s : Subscriber)
    : result SubError unit * Subscriber :=
  let '(header, receipts, portal_logs) := fetched in
  let sealed := seal_slow header in
  let '(tracked_tokens, events, policy_events) := block_events (su_tracked_tokens s) receipts portal_logs in
  let s := with_tracked tracked_tokens s in
  let tip := su_unconfirmed_tip s in
  let s := with_tip None s in
  let '(r, s) := match tip with
                 | None => (Ok tt, s)
                 | Some t => if h_parent_hash sealed =? h_hash (tip_header t) then confirm_tip node t s
                             else (Ok tt, discard_tip s)
                 end in
  match r with
  | Ok _ => (Ok tt, with_tip (Some (mkTip sealed events policy_events)) s)
  | Err e => (Err e, s)
  end.

(** A live stream: the items with the node as it answers at that time. *)
Fixpoint live_loop (items : list (L1Node * RpcHeader)) (s : Subscriber) : result SubError unit * Subscriber :=
  match items with
  | [] => (Ok tt, s)
  | (node, header) :: items' =>
    match fetch_for_header receipt_root node header with
    | Err e => (Err e, s)
    | Ok fetched =>
      match live_block node fetched s with
      | (Ok _, s') => live_loop items' s'
      | (Err e, s') => (Err e, s')
      end
    end
  end.

(** A connection: [run] starts from the shared caches and queue; the tokens it
    tracks are those the policy cache knows. *)
Definition tracked_tokens (c : PolicyCacheInner) : list Z := (map_to_list (tokens c)).*1.

Definition run (node : L1Node) (local_tempo_block_number : Z) (items : list (L1Node * RpcHeader)) (s : Subscriber)
    : result SubError unit * Subscriber :=
  let s := with_tip None (with_tracked (tracked_tokens (su_policy_cache s)) s) in
  match sync_to_l1_tip node local_tempo_block_number s with
  | (Err e, s') => (Err e, s')
  | (Ok _, s') => live_loop items s'
  end.
End Subscriber.
