(* ===== verification/SubscriberProofs.v ===== *)
(** * The L1 subscriber: what reaches the queue and the caches

    Receipts are verified against the header and live blocks wait for a
    successor; the events of a block without portal events in its receipts
    come from logs that are not verified; and after a reconnection the tokens
    that the policy cache does not know are not followed any more. *)

From stdpp Require Import gmap list strings.
From S2P Require Import Prelude.
From S2P Require Import BTree.
From S2P Require Import Policy.
From S2P Require Import PolicyCache.
From S2P Require Import L1State.
From S2P Require Import DepositQueue.
From S2P Require Import Subscriber.
#[local] Open Scope Z_scope.

(** ** Policy updates of tokens that are not tracked *)

(** The log enables the token. *)
Definition enables (portal token : Z) (log : L1Log) : Prop :=
  ll_address log = portal /\ exists t, log_decoded (ll_portal log) = Some (PE_TokenEnabled t) /\ t_token t = token.

Definition about (token : Z) (e : PolicyEvent) : Prop :=
  match e with TokenPolicyChanged t _ => t = token | _ => False end.

Lemma push_log_enabled es log es' x :
  push_log es log = Some es' -> enabled_tokens es' !! length (enabled_tokens es) = Some x ->
  log_decoded log = Some (PE_TokenEnabled x).
Proof.
  assert (Hnone : enabled_tokens es !! length (enabled_tokens es) = None) by (apply lookup_ge_None_2; lia).
  unfold push_log. destruct (log_known log); cbn [negb]; [|intros [= <-]; by rewrite Hnone].
  destruct (log_decoded log) as [ev|]; [|done]. cbn. intros [= <-].
  destruct ev; cbn; try by rewrite Hnone. rewrite list_lookup_middle by done. by intros [= ->].
Qed.

Lemma extract_log_untracked registry portal token log tracked es pols tracked' es' pols' :
  (~ enables portal token log) -> token ∉ tracked -> Forall (fun e => ~ about token e) pols ->
  extract_log registry portal (tracked, es, pols) log = (tracked', es', pols') ->
  (token ∉ tracked') /\ Forall (fun e => ~ about token e) pols'.
Proof.
  intros He Ht Hp. unfold extract_log. destruct (Z.eqb_spec (ll_address log) portal) as [Ha|].
  - intros [= <- <- <-]. split; [|done].
    destruct (push_log es (ll_portal log)) as [es1|] eqn:Hpush; cbn.
    2:{ assert (enabled_tokens es !! length (enabled_tokens es) = None) as -> by (apply lookup_ge_None_2; lia). done. }
    destruct (enabled_tokens es1 !! length (enabled_tokens es)) as [x|] eqn:Hx; [|done].
    case_bool_decide; [done|]. apply (push_log_enabled _ _ _ _ Hpush) in Hx.
    rewrite not_elem_of_app, list_elem_of_singleton. split; [done|]. intros ->. apply He. split; [done|]. by exists x.
  - destruct (ll_address log =? registry).
    + intros [= <- <- <-]. split; [done|]. apply Forall_app. split; [done|].
      unfold decode_registry. destruct (ll_registry log) as [[]|]; cbn [option_list]; first [apply Forall_nil_2|apply Forall_singleton; by intros []].
    + case_bool_decide as Hin; cbn [andb]; [|by intros [= <- <- <-]].
      destruct (ll_policy_update_topic log); intros [= <- <- <-]; [|done]. split; [done|]. apply Forall_app. split; [done|].
      unfold decode_tip20. destruct (ll_policy_update log); cbn [option_list]; [|apply Forall_nil_2].
      apply Forall_singleton. cbn. intros Heq. by rewrite Heq in Hin.
Qed.

Lemma extract_events_untracked registry portal token tracked receipts tracked' es' pols' :
  Forall (fun log => ~ enables portal token log) (receipts ≫= rc_logs) -> token ∉ tracked ->
  extract_events registry portal tracked receipts = (tracked', es', pols') ->
  (token ∉ tracked') /\ Forall (fun e => ~ about token e) pols'.
Proof.
  unfold extract_events. intros Hl Ht. assert (Forall (fun e => ~ about token e) []) as Hp by constructor. revert Ht Hp.
  generalize portal_events_default as es. generalize (@nil PolicyEvent) as pols. revert tracked.
  induction Hl as [|log logs Hlog _ IH]; intros tracked pols es Ht Hp; cbn [foldl]; [by intros [= <- <- <-]|].
  destruct (extract_log registry portal (tracked, es, pols) log) as [[t1 es1] p1] eqn:Hx.
  apply (extract_log_untracked _ _ _ _ _ _ _ _ _ _ Hlog Ht Hp) in Hx as [? ?]. by apply IH.
Qed.

Lemma apply_events_untouched token n pols c :
  Forall (fun e => ~ about token e) pols -> tokens (apply_events c n pols) !! token = tokens c !! token.
Proof.
  unfold apply_events. intros Hp. revert c. induction Hp as [|e pols He _ IH]; intros c; [done|]. cbn [foldl]. rewrite IH.
  destruct e; cbn in *; try done. unfold set_token_policy. cbn. by rewrite lookup_insert_ne.
Qed.

Section Subscriber.
Context (keccak256 : list Z -> Z) (abi_encode_regular : DepositType * AbiDeposit * Z -> list Z)
  (abi_encode_encrypted : DepositType * AbiEncryptedDeposit * Z -> list Z).
Context (receipt_root : list Receipt -> Z) (seal_hash : RpcHeader -> Z) (registry portal : Z).
Abbreviation block_events := (block_events registry portal).
Abbreviation settle_block := (settle_block portal).
Abbreviation backfill_block := (backfill_block keccak256 abi_encode_regular abi_encode_encrypted seal_hash registry portal).
Abbreviation backfill_loop := (backfill_loop keccak256 abi_encode_regular abi_encode_encrypted receipt_root seal_hash registry portal).
Abbreviation confirm_tip := (confirm_tip keccak256 abi_encode_regular abi_encode_encrypted receipt_root seal_hash registry portal).
Abbreviation live_block := (live_block keccak256 abi_encode_regular abi_encode_encrypted receipt_root seal_hash registry portal).
Abbreviation live_loop := (live_loop keccak256 abi_encode_regular abi_encode_encrypted receipt_root seal_hash registry portal).

Section Untracked.
Context (token : Z).

(** A node whose blocks do not enable the token. *)
Definition quiet (node : L1Node) : Prop :=
  forall hash rs, l1_block_receipts node hash = Some (Some rs) -> Forall (fun log => ~ enables portal token log) (rs ≫= rc_logs).

(** The token is not followed, and the cache's entry for it is [entry] or gone. *)
Definition ignores (entry : option (HeightVersioned Z)) (s : Subscriber) : Prop :=
  (token ∉ su_tracked_tokens s) /\
  (tokens (su_policy_cache s) !! token = entry \/ tokens (su_policy_cache s) !! token = None) /\
  forall t, su_unconfirmed_tip s = Some t -> Forall (fun e => ~ about token e) (tip_policy_events t).

Lemma settle_ignores entry h es pols s :
  ignores entry s -> Forall (fun e => ~ about token e) pols -> ignores entry (settle_block h es pols s).
Proof.
  intros (Ht & Hc & Htip) Hp. unfold Subscriber.settle_block, apply_portal_state_events, apply_policy_events, update_l1_state_anchor.
  set (reorged := negb _ && negb _).
  assert (H : ignores entry (with_caches (su_l1_state_cache s)
    (apply_events (if reorged then clear (su_policy_cache s) else su_policy_cache s) (h_number h) pols) s)).
  { split_and!; cbn; [done| |done]. rewrite apply_events_untouched by done. destruct reorged; [by right|done]. }
  destruct H as (H1 & H2 & H3). destruct reorged, (sequencer_events es); split_and!; cbn in *; try done.
Qed.

Lemma fetch_receipts node block root bloom rs :
  fetch_and_verify_receipts_for_header receipt_root node block root bloom = Ok rs ->
  l1_block_receipts node (nh_hash block) = Some (Some rs) /\ receipt_root rs = root /\
  foldl (fun b r => Z.lor b (rc_bloom r)) 0 rs = bloom.
Proof.
  unfold fetch_and_verify_receipts_for_header, verify_receipts.
  destruct (l1_block_receipts node (nh_hash block)) as [[rs'|]|]; [|done..].
  destruct (Z.eqb_spec (receipt_root rs') root); cbn [negb]; [|done].
  destruct (Z.eqb_spec (foldl (fun b r => Z.lor b (rc_bloom r)) 0 rs') bloom); cbn [negb]; [|done]. by intros [= <-].
Qed.

Lemma block_events_untracked tracked rs logs tracked' es pols :
  Forall (fun log => ~ enables portal token log) (rs ≫= rc_logs) -> token ∉ tracked ->
  block_events tracked rs logs = (tracked', es, pols) -> (token ∉ tracked') /\ Forall (fun e => ~ about token e) pols.
Proof.
  intros Hq Ht. unfold Subscriber.block_events. destruct (extract_events registry portal tracked rs) as [[t1 e1] p1] eqn:Hx.
  intros [= <- _ <-]. by eapply extract_events_untracked.
Qed.

Lemma backfill_block_ignores entry h rs logs s r s' :
  Forall (fun log => ~ enables portal token log) (rs ≫= rc_logs) -> ignores entry s ->
  backfill_block (h, rs, logs) s = (r, s') -> ignores entry s'.
Proof.
  intros Hq Hs. unfold Subscriber.backfill_block. destruct (block_events (su_tracked_tokens s) rs logs) as [[t1 e1] p1] eqn:Hx.
  destruct Hs as (Ht & Hc & Htip). apply (block_events_untracked _ _ _ _ _ _ Hq Ht) in Hx as [Ht1 Hp1].
  assert (ignores entry (settle_block (seal_slow seal_hash h) e1 p1 (with_tracked t1 s))) as Hs1 by by apply settle_ignores.
  destruct (enqueue _ _ _ _ _ _ _); intros [= _ <-]; exact Hs1.
Qed.

Lemma backfill_loop_ignores entry node numbers s r s' :
  quiet node -> ignores entry s -> backfill_loop node numbers s = (r, s') -> ignores entry s'.
Proof.
  intros Hq. revert s. induction numbers as [|n numbers IH]; intros s Hs; cbn [Subscriber.backfill_loop]; [by intros [= _ <-]|].
  unfold fetch_block. destruct (l1_header_by_number node n) as [[h|]|]; [|by intros [= _ <-]..].
  destruct (fetch_and_verify_receipts_for_header _ _ _ _ _) as [rs|] eqn:Hf; [|by intros [= _ <-]].
  destruct (l1_portal_logs node n) as [logs|]; [|by intros [= _ <-]].
  apply fetch_receipts in Hf as [Hr _]. apply Hq in Hr.
  destruct (backfill_block (h, rs, logs) s) as [[[]|] s1] eqn:Hb; apply (backfill_block_ignores entry _ _ _ _ _ _ Hr Hs) in Hb;
    [by apply IH|by intros [= _ <-]].
Qed.

Lemma live_block_ignores entry node h rs logs s r s' :
  quiet node -> Forall (fun log => ~ enables portal token log) (rs ≫= rc_logs) -> ignores entry s ->
  live_block node (h, rs, logs) s = (r, s') -> ignores entry s'.
Proof.
  intros Hq Hrs Hs. unfold Subscriber.live_block. destruct (block_events (su_tracked_tokens s) rs logs) as [[t1 e1] p1] eqn:Hx.
  destruct Hs as (Ht & Hc & Htip). apply (block_events_untracked _ _ _ _ _ _ Hrs Ht) in Hx as [Ht1 Hp1].
  assert (Hs1 : ignores entry (with_tip None (with_tracked t1 s))) by (by split_and!).
  assert (Hfin : forall (r2 : result SubError unit) s2, ignores entry s2 ->
    match r2 with Ok _ => (Ok tt, with_tip (Some (mkTip (seal_slow seal_hash h) e1 p1)) s2) | Err e => (Err e, s2) end = (r, s') ->
    ignores entry s').
  { intros [u|err] s2 (H1 & H2 & H3); intros [= _ <-]; [|done]. split_and!; [done..|]. cbn. by intros t [= <-]. }
  cbn [su_unconfirmed_tip with_tracked]. destruct (su_unconfirmed_tip s) as [t|] eqn:Hts; [|by apply (Hfin (Ok tt))].
  destruct (h_parent_hash _ =? _).
  - destruct (confirm_tip node t _) as [r2 s2] eqn:Hcf. apply Hfin. revert Hcf. unfold Subscriber.confirm_tip.
    pose proof (settle_ignores entry (tip_header t) (tip_events t) (tip_policy_events t) _ Hs1 (Htip t eq_refl)) as Hs2.
    destruct (try_enqueue _ _ _ _ _ _ _) as [[| |from to] q]; [by intros [= _ <-]..|].
    by apply backfill_loop_ignores.
  - apply (Hfin (Ok tt)). split_and!; cbn; [done|by right|done].
Qed.

Lemma live_loop_ignores entry items s r s' :
  Forall (fun i => quiet i.1) items -> ignores entry s -> live_loop items s = (r, s') -> ignores entry s'.
Proof.
  intros Hq. revert s. induction Hq as [|[node h] items Hq _ IH]; intros s Hs; cbn [Subscriber.live_loop]; [by intros [= _ <-]|].
  unfold fetch_for_header. destruct (fetch_and_verify_receipts_for_header _ _ _ _ _) as [rs|] eqn:Hf; [|by intros [= _ <-]].
  destruct (l1_portal_logs node _) as [logs|]; [|by intros [= _ <-]].
  apply fetch_receipts in Hf as [Hr _]. apply Hq in Hr. cbn in Hq.
  destruct (live_block node (h, rs, logs) s) as [[[]|] s1] eqn:Hb; apply (live_block_ignores entry _ _ _ _ _ _ _ Hq Hr Hs) in Hb;
    [by apply IH|by intros [= _ <-]].
Qed.
End Untracked.

(** After a reconnection, policy changes of a token that the cache does not
    know are missed.  A connection that starts with a cache without the token
    (as a reorganisation leaves it) does not track it; once a lookup of the
    engine has cached the token's policy at block [n], every later answer of
    the cache for the token is that policy or none, whatever policy updates of
    the token the L1 blocks of the connection carry. *)
Theorem policy_updates_missed config_genesis token node local s s1 n id items r s' m :
  tokens (su_policy_cache s) !! token = None -> quiet token node -> Forall (fun i => quiet token i.1) items ->
  sync_to_l1_tip keccak256 abi_encode_regular abi_encode_encrypted receipt_root seal_hash registry portal config_genesis
    node local (with_tip None (with_tracked (tracked_tokens (su_policy_cache s)) s)) = (Ok tt, s1) ->
  live_loop items (with_caches (su_l1_state_cache s1) (set_token_policy (su_policy_cache s1) token n id) s1) = (r, s') ->
  0 < n <= m ->
  get_token_policy (su_policy_cache s') token m = Some id \/ get_token_policy (su_policy_cache s') token m = None.
Proof.
  intros Hnone Hq Hqs Hsync Hlive Hm.
  set (s0 := with_tip None _) in Hsync.
  assert (ignores token None s0) as Hi0.
  { split_and!; [|by left|done]. cbn. unfold tracked_tokens. intros ([t v] & -> & Hin)%list_elem_of_fmap.
    apply elem_of_map_to_list in Hin. cbn in *. congruence. }
  assert (ignores token None s1) as (Ht1 & Hc1 & Htip1).
  { unfold sync_to_l1_tip in Hsync. destruct (resolve_start_block _ _ _) as [[from|]|]; [|by injection Hsync as <-|done].
    destruct (l1_block_number node) as [tip|]; [|done].
    match type of Hsync with (if ?b then _ else _) = _ => destruct b end; [by injection Hsync as <-|].
    by eapply backfill_loop_ignores. }
  assert (tokens (su_policy_cache s1) !! token = None) as Hn1 by (by destruct Hc1).
  set (entry := Some (hv_set hv_default n id)).
  apply (live_loop_ignores token entry) in Hlive as (_ & Hc & _); [|done|].
  2:{ split_and!; [done| |done]. left. cbn. by rewrite lookup_insert_eq, Hn1. }
  unfold get_token_policy. destruct Hc as [-> | ->]; [left|by right]. subst entry. cbn [mbind option_bind].
  unfold hv_get, hv_set, hv_default. cbn [hv_baseline_height hv_pending hv_baseline].
  rewrite (proj2 (Z.leb_gt n 0)) by lia. cbn [hv_baseline_height hv_pending hv_baseline bt_insert].
  rewrite (proj2 (Z.leb_gt m 0)) by lia. unfold last_le, range_le.
  by rewrite sel_cons, (proj2 (Z.leb_le n m)) by lia.
Qed.

(** ** Where a block's events come from *)

Lemma accepted_last q h es pes q' :
  try_enqueue keccak256 abi_encode_regular abi_encode_encrypted q h es pes = (Accepted, q') ->
  exists b, last (pending q') = Some b /\ header b = h /\ events b = es /\ policy_events b = pes.
Proof.
  assert (Happ : forall q0, exists b, last (pending (append keccak256 abi_encode_regular abi_encode_encrypted q0 h es pes)) = Some b /\
    header b = h /\ events b = es /\ policy_events b = pes).
  { intros q0. cbn. rewrite last_snoc. by eexists. }
  assert (Hrest : forall q0, enqueue_rest keccak256 abi_encode_regular abi_encode_encrypted q0 h es pes = (Accepted, q') ->
    exists b, last (pending q') = Some b /\ header b = h /\ events b = es /\ policy_events b = pes).
  { intros q0. unfold enqueue_rest, enqueue_empty, enqueue_tail. cbv zeta. repeat case_match; intros [= <-]; apply Happ. }
  unfold try_enqueue. repeat case_match; first [done|apply Hrest].
Qed.

Lemma fetch_header node h x rs logs :
  fetch_for_header receipt_root node h = Ok (x, rs, logs) ->
  x = h /\ receipt_root rs = rh_receipts_root h /\ foldl (fun b r => Z.lor b (rc_bloom r)) 0 rs = rh_logs_bloom h /\
  l1_portal_logs node (rh_number h) = Some logs.
Proof.
  unfold fetch_for_header. destruct (fetch_and_verify_receipts_for_header _ _ _ _ _) as [rs'|] eqn:Hf; [|done].
  apply fetch_receipts in Hf as (_ & Hr & Hb). destruct (l1_portal_logs node (rh_number h)) as [logs'|]; [|done].
  by intros [= <- <- <-].
Qed.

(** What a live block leaves for its successor to confirm. *)
Definition verified_events (tracked : list Z) (rs : list Receipt) : L1PortalEvents :=
  (extract_events registry portal tracked rs).1.2.

(** C38. Live blocks wait for a successor, and their portal events are those of
    receipts that match the header's root and bloom, if these have any.  A
    step of the live loop changes the queue only when the new block's parent
    is the block that waited; the new block waits in turn. *)
Theorem live_block_waits node h rs logs s r s' :
  fetch_for_header receipt_root node h = Ok (h, rs, logs) -> live_block node (h, rs, logs) s = (r, s') ->
  (su_queue s' = su_queue s \/
   exists t, su_unconfirmed_tip s = Some t /\ rh_parent_hash h = h_hash (tip_header t)) /\
  (r = Ok tt -> exists t, su_unconfirmed_tip s' = Some t /\ tip_header t = seal_slow seal_hash h /\
     receipt_root rs = rh_receipts_root h /\
     (events_is_empty (verified_events (su_tracked_tokens s) rs) = false ->
      tip_events t = verified_events (su_tracked_tokens s) rs)).
Proof.
  intros (_ & Hroot & _ & _)%fetch_header. unfold Subscriber.live_block, Subscriber.block_events, verified_events.
  destruct (extract_events registry portal (su_tracked_tokens s) rs) as [[t1 e1] p1]. cbn [fst snd].
  set (e2 := if events_is_empty e1 then _ else _).
  assert (Hfin : forall (r2 : result SubError unit) s2,
    (su_queue s2 = su_queue s \/ exists t, su_unconfirmed_tip s = Some t /\ rh_parent_hash h = h_hash (tip_header t)) ->
    match r2 with Ok _ => (Ok tt, with_tip (Some (mkTip (seal_slow seal_hash h) e2 p1)) s2) | Err e => (Err e, s2) end = (r, s') ->
    (su_queue s' = su_queue s \/ exists t, su_unconfirmed_tip s = Some t /\ rh_parent_hash h = h_hash (tip_header t)) /\
    (r = Ok tt -> exists t, su_unconfirmed_tip s' = Some t /\ tip_header t = seal_slow seal_hash h /\
       receipt_root rs = rh_receipts_root h /\ (events_is_empty e1 = false -> tip_events t = e1))).
  { intros [u|err] s2 Hq [= <- <-]; (split; [done|]); [|done]. intros _. eexists. split_and!; [done..|].
    cbn. unfold e2. by intros ->. }
  cbn [su_unconfirmed_tip with_tracked]. destruct (su_unconfirmed_tip s) as [t|] eqn:Ht; [|apply (Hfin (Ok tt)); by left].
  destruct (Z.eqb_spec (h_parent_hash (seal_slow seal_hash h)) (h_hash (tip_header t))) as [Hp|Hp].
  - destruct (confirm_tip node t _) as [r2 s2]. apply Hfin. right. by exists t.
  - apply (Hfin (Ok tt)). by left.
Qed.

(** Portal events that are in no receipt of a block are enqueued with it.
    When the verified receipts of a block have no portal events, the events
    that the node lists for the block's number, for whatever block, become
    events of the block, and go to the queue when a successor arrives. *)
Theorem unverified_logs_enqueued node h rs logs node' h' rs' logs' s q' :
  su_unconfirmed_tip s = None ->
  fetch_for_header receipt_root node h = Ok (h, rs, logs) ->
  events_is_empty (verified_events (su_tracked_tokens s) rs) = true ->
  events_is_empty (extract_portal_events_from_logs logs) = false ->
  fetch_for_header receipt_root node' h' = Ok (h', rs', logs') -> rh_parent_hash h' = seal_hash h ->
  try_enqueue keccak256 abi_encode_regular abi_encode_encrypted (su_queue s) (seal_slow seal_hash h)
    (extract_portal_events_from_logs logs) (extract_events registry portal (su_tracked_tokens s) rs).2 = (Accepted, q') ->
  exists s' b, live_loop [(node, h); (node', h')] s = (Ok tt, s') /\ last (pending (su_queue s')) = Some b /\
    header b = seal_slow seal_hash h /\ events b = extract_portal_events_from_logs logs.
Proof.
  intros Ht Hf Hempty Hlogs Hf' Hpar Henq. cbn [Subscriber.live_loop]. rewrite Hf.
  unfold verified_events in Hempty. unfold Subscriber.live_block at 1. unfold Subscriber.block_events at 1.
  destruct (extract_events registry portal (su_tracked_tokens s) rs) as [[t1 e1] p1]. cbn [fst snd] in *.
  rewrite Hempty, Hlogs. cbn [su_unconfirmed_tip with_tracked]. rewrite Ht. cbn beta iota. rewrite Hf'.
  unfold Subscriber.live_block, Subscriber.block_events. destruct (extract_events registry portal _ rs') as [[t2 e2] p2].
  cbn [su_unconfirmed_tip with_tracked with_tip]. cbn [h_parent_hash seal_slow tip_header h_hash]. rewrite Hpar, Z.eqb_refl.
  unfold Subscriber.confirm_tip. cbn [tip_header tip_events tip_policy_events].
  match goal with |- context [settle_block ?a ?b ?c ?d] => set (s2 := settle_block a b c d) end.
  assert (su_queue s2 = su_queue s) as ->.
  { unfold s2, Subscriber.settle_block, apply_portal_state_events, apply_policy_events, update_l1_state_anchor.
    repeat case_match; done. }
  rewrite Henq. destruct (accepted_last _ _ _ _ _ Henq) as (b & Hb & Hh & He & _).
  eexists _, b. split; [reflexivity|]. by split_and!.
Qed.
End Subscriber.

(** ** Witnesses *)

Module SubscriberExamples.
Definition keccak (l : list Z) : Z := foldl (fun h x => (h * 31 + x + 1) mod 2 ^ 61) 7 l.
Definition enc_regular (x : DepositType * AbiDeposit * Z) : list Z :=
  let '(_, d, p) := x in [a_token d; a_sender d; a_to d; a_amount d; a_bouncebackRecipient d; a_memo d; p].
Definition enc_encrypted (x : DepositType * AbiEncryptedDeposit * Z) : list Z := [x.2].
Definition root (rs : list Receipt) : Z := Z.of_nat (length (rs ≫= rc_logs)).
Definition seal (h : RpcHeader) : Z := rh_hash h.

(** The portal is 50, the registry 40, a token 6; block [n] has the hash [100 * n]. *)
Definition portal_log (ev : PortalEvent) : L1Log := mkL1Log (mkPortalLog true 50 (Some ev)) None false None.
Definition policy_log (id : Z) : L1Log := mkL1Log (mkPortalLog false 6 None) None true (Some id).
Definition deposit : PortalEvent := PE_DepositMade (mkDepositMade 6 1 2 500 0 1 0).
Definition rpc_header (n logs : Z) : RpcHeader := mkRpcHeader n (100 * n) (100 * (n - 1)) logs 0.

(** A node that answers every block with the given receipts and portal logs. *)
Definition node (rs : list Receipt) (logs : list L1Log) (tip : Z) : L1Node :=
  mkL1Node (fun n => Some (Some (rpc_header n (root rs)))) (fun _ => Some (Some rs)) (fun _ => Some logs) (Some tip) (Some 1).

Definition fresh : Subscriber := mkSubscriber pending_default (l1_new ∅) cache_default [] None.
Abbreviation live := (Subscriber.live_loop keccak enc_regular enc_encrypted root seal 40 50).
Definition updates : list Receipt := [mkL1Receipt [policy_log 9] 0].
Definition item (n : Z) (rs : list Receipt) (logs : list L1Log) : L1Node * RpcHeader := (node rs logs n, rpc_header n (root rs)).

(** Token 6 is looked up at block 10 with policy 4; blocks 11 and 12 set policy 9. *)
Lemma policy_updates_missed_witness :
  exists s', live [item 11 updates []; item 12 updates []; item 13 [] []]
      (with_caches (l1_new ∅) (set_token_policy cache_default 6 10 4) fresh) = (Ok tt, s') /\
    get_token_policy (su_policy_cache s') 6 12 = Some 4.
Proof.
  destruct (live [item 11 updates []; item 12 updates []; item 13 [] []]
      (with_caches (l1_new ∅) (set_token_policy cache_default 6 10 4) fresh)) as [r s'] eqn:E.
  assert (Hq : forall rs logs n, Forall (fun log => ~ enables 50 6 log) (rs ≫= rc_logs) -> quiet 50 6 (node rs logs n)).
  { intros rs logs n H hash rs' [= <-]. exact H. }
  assert (Hu : Forall (fun log => ~ enables 50 6 log) (updates ≫= rc_logs)) by (repeat constructor; by intros [? _]).
  destruct (policy_updates_missed keccak enc_regular enc_encrypted root seal 40 50 None 6 (node [] [] 10) 10 fresh fresh 10 4
    [item 11 updates []; item 12 updates []; item 13 [] []] r s' 12) as [H|H].
  - done.
  - apply Hq. constructor.
  - repeat constructor; apply Hq; [done|done|constructor].
  - by vm_compute.
  - exact E.
  - lia.
  - exists s'. split; [|done]. vm_compute in E. by injection E as <- _.
  - vm_compute in E. by injection E as <- <-.
Defined.

Lemma live_block_waits_witness :
  exists s' t, Subscriber.live_block keccak enc_regular enc_encrypted root seal 40 50 (node [mkL1Receipt [portal_log deposit] 0] [] 11)
      (rpc_header 11 1, [mkL1Receipt [portal_log deposit] 0], []) fresh = (Ok tt, s') /\
    su_unconfirmed_tip s' = Some t /\ length (deposits (tip_events t)) = 1%nat.
Proof.
  destruct (Subscriber.live_block keccak enc_regular enc_encrypted root seal 40 50 (node [mkL1Receipt [portal_log deposit] 0] [] 11)
      (rpc_header 11 1, [mkL1Receipt [portal_log deposit] 0], []) fresh) as [r s'] eqn:E.
  destruct (live_block_waits keccak enc_regular enc_encrypted root seal 40 50 (node [mkL1Receipt [portal_log deposit] 0] [] 11)
    (rpc_header 11 1) [mkL1Receipt [portal_log deposit] 0] [] fresh r s') as [_ H]; [by vm_compute|exact E|].
  assert (r = Ok tt) as Hr by (vm_compute in E; by injection E as <- _).
  destruct (H Hr) as (t & Ht & _ & _ & Hev). exists s', t. split; [by rewrite Hr|]. split; [done|].
  by rewrite Hev.
Defined.

(** Block 11 has no logs; the node lists a deposit for its number. *)
Lemma unverified_logs_enqueued_witness :
  exists s' b, live [item 11 [] [portal_log deposit]; item 12 [] []] fresh = (Ok tt, s') /\
    last (pending (su_queue s')) = Some b /\ block_number_of b = 11 /\ length (deposits (events b)) = 1%nat.
Proof.
  destruct (unverified_logs_enqueued keccak enc_regular enc_encrypted root seal 40 50 (node [] [portal_log deposit] 11) (rpc_header 11 0)
    [] [portal_log deposit] (node [] [] 12) (rpc_header 12 0) [] [] fresh
    (try_enqueue keccak enc_regular enc_encrypted pending_default (mkHeader 11 1100 1000)
       (extract_portal_events_from_logs [portal_log deposit]) []).2) as (s' & b & H1 & H2 & H3 & H4); try by vm_compute.
  exists s', b. split; [exact H1|]. split; [done|]. unfold block_number_of. rewrite H3, H4. done.
Defined.
End SubscriberExamples.
