(* ===== verification/Markets.v ===== *)
(** * Private RPC: markets, top of book, reference price, midpoints

    The in-memory midpoint history of a market (sequencer/src/midpoint.rs),
    the sampler that feeds it and the four market methods of node/src/rpc.rs,
    with the provider configuration of rpc/src/refprice.rs.  What the zone node
    answers to the contract reads is the record [MarketNode], one answer per
    request; two requests of one method may be answered at different blocks. *)

From stdpp Require Import gmap list strings.
From S2P Require Import Prelude.
From S2P Require Import BTree.
From S2P Require Import OrderbookModel.
From S2P Require Import RefPrice.
From S2P Require Import RpcTypes.
From S2P Require Import RpcDispatch.
From S2P Require Import RpcExplorer.
#[local] Open Scope string_scope.
#[local] Open Scope Z_scope.
#[local] Open Scope api_scope.

(** ** The midpoint history *)

Definition MIDPOINT_RETENTION : nat := 2880.
Definition MIDPOINT_SAMPLE_INTERVAL : Z := 15.
Definition SUPPORTED_INTERVALS : list string := ["1m"; "5m"; "1h"].

Definition interval_seconds (interval : string) : option Z :=
  if String.eqb interval "1m" then Some 60
  else if String.eqb interval "5m" then Some 300
  else if String.eqb interval "1h" then Some 3600
  else None.

Record RawSample := mkRawSample { rs_timestamp : Z; rs_midpoint : Z }.
Record BucketSample := mkBucketSample { bu_bucket_end : Z; bu_midpoint : Z }.
Record MidpointHistory := mkMidpointHistory { mh_inner : list RawSample; mh_capacity : nat }.

Definition midpoint_new (capacity : nat) : MidpointHistory := mkMidpointHistory [] (Nat.max capacity 1).

(** [pop_front] when full, then [push_back]. *)
Definition record (sample : RawSample) (h : MidpointHistory) : MidpointHistory :=
  let buf := if (length (mh_inner h) =? mh_capacity h)%nat then drop 1 (mh_inner h) else mh_inner h in
  mkMidpointHistory (buf ++ [sample]) (mh_capacity h).

(** The end of the bucket of a sample; one step of the loop over the samples. *)
Definition bucket_end_of (interval_secs : Z) (s : RawSample) : Z :=
  let bucket_start := rs_timestamp s / interval_secs * interval_secs in
  saturating_add U64_MAX bucket_start interval_secs.
Definition bucketize (interval_secs : Z) (buf : list RawSample) : btree Z :=
  foldl (fun buckets s => bt_insert (bucket_end_of interval_secs s) (rs_midpoint s) buckets) [] buf.

Definition midpoint_query (h : MidpointHistory) (interval_secs limit : Z) (cursor : option Z)
    : list BucketSample * option Z :=
  if (interval_secs =? 0) || (limit =? 0) then ([], None)
  else match mh_inner h with
  | [] => ([], None)
  | buf =>
    let buckets := bucketize interval_secs buf in
    let cursor_cap := default U64_MAX cursor in
    let filtered := range_lt cursor_cap buckets in
    let total := length filtered in
    let take := Nat.min (Z.to_nat limit) total in
    let drop_count := (total - take)%nat in
    let page := (fun p => mkBucketSample p.1 p.2) <$> drop drop_count filtered in
    let next_cursor := if (0 <? drop_count)%nat then bu_bucket_end <$> head page else None in
    (page, next_cursor)
  end.

(** ** Responses *)

Record MarketToken := mkMarketToken { mt_address : Z; mt_symbol : string; mt_decimals : Z }.
Inductive MarketAction := MarketBuy | MarketSell | LimitBid | LimitAsk.
Inductive MarketTimeInForce := Gtc | Ioc | Fok.

Record MarketEntry := mkMarketEntry {
  me_pair : string; me_base : MarketToken; me_quote : MarketToken; me_min_order_amount : Z; me_price_decimals : Z;
  me_price_unit : string; me_allowed_actions : list MarketAction; me_market_time_in_force : list MarketTimeInForce;
  me_limit_time_in_force : list MarketTimeInForce
}.
Record MarketConfigResponse := mkMarketConfig { mc_darkpool : Z; mc_markets : list MarketEntry }.
Record OrderLevel := mkLevel { ol_price : Z; ol_quantity : Z }.
Record TopOfBookResponse := mkTopOfBook {
  tb_pair : string; tb_base : Z; tb_quote : Z; tb_bid : option OrderLevel; tb_ask : option OrderLevel;
  tb_midpoint : option Z; tb_spread : option Z; tb_as_of_block : Z
}.
Record HistoryAvailability := mkAvailability { ha_enabled : bool; ha_reason : string }.
Record MidpointSample := mkMidpointSample { ms_timestamp : Z; ms_midpoint : Z }.
Record ReferencePriceResponse := mkReferenceResponse {
  rr_enabled : bool; rr_pair : string; rr_base : Z; rr_quote : Z; rr_price : option Z; rr_source : option string;
  rr_as_of_block : option Z; rr_as_of_timestamp : option Z; rr_fresh : option bool; rr_age_secs : option Z;
  rr_max_deviation_bps : option Z; rr_max_staleness_secs : option Z; rr_price_decimals : Z; rr_price_unit : string;
  rr_disclaimer : string; rr_reason : option string
}.
Definition REFERENCE_PRICE_UNIT : string :=
  "fixed-point integer (6 decimals); quote = floor(baseAmount * price / 1000000)".
Definition REFERENCE_PRICE_DISCLAIMER : string := "alpha infrastructure; not a production oracle".
Record MidpointHistoryResponse := mkMidpointResponse {
  mr_pair : string; mr_base : Z; mr_quote : Z; mr_interval : string; mr_samples : list MidpointSample;
  mr_next_cursor : option string; mr_history : HistoryAvailability
}.

Inductive ReferencePriceProviderKind := Static (price : Z) (source : string).
Record ReferencePriceProviderConfig := mkProviderConfig {
  pc_max_deviation_bps : Z; pc_max_staleness_secs : Z; pc_kind : ReferencePriceProviderKind
}.
Definition static_alpha (price max_deviation_bps : Z) : ReferencePriceProviderConfig :=
  mkProviderConfig max_deviation_bps 0 (Static price "static:alpha").
Definition static_snapshot (c : ReferencePriceProviderConfig) : option (Z * string) :=
  match pc_kind c with Static price source => Some (price, source) end.

Definition level_from_response (price quantity : Z) : option OrderLevel :=
  if (price =? 0) || (quantity =? 0) then None else Some (mkLevel price quantity).

Definition parse_midpoint_cursor (W : Wire) (cursor : option string) : result JsonRpcError (option Z) :=
  match cursor with
  | None => Ok None
  | Some raw =>
    match u64_from_str W raw with
    | Some u => Ok (Some u)
    | None => Err (invalid_params "cursor must be a hex quantity")
    end
  end.

(** [format!("0x{ts:x}")]: no leading zeros; 16 digits hold 64 bits. *)
Fixpoint hex_trimmed (fuel : nat) (n : Z) (acc : string) : string :=
  match fuel with
  | O => acc
  | S fuel' =>
    let acc := String (hex_digit (n mod 16)) acc in
    if n / 16 =? 0 then acc else hex_trimmed fuel' (n / 16) acc
  end.
Definition hex_quantity (n : Z) : string := "0x" +:+ hex_trimmed 16 n EmptyString.

Definition build_midpoint_history_response (pair : string) (base quote : Z) (interval : string)
    (samples : list MidpointSample) (next_cursor : option Z) : MidpointHistoryResponse :=
  mkMidpointResponse pair base quote interval samples (hex_quantity <$> next_cursor)
    (mkAvailability true "in-process midpoint sampler online; polls top-of-book every 15s, retains ~2880 raw samples").

Definition build_reference_price_response (provider : option ReferencePriceProviderConfig)
    (loaded_at_secs now_secs as_of_block : Z) (pair : string) (base quote : Z) : ReferencePriceResponse :=
  match provider with
  | None =>
    mkReferenceResponse false pair base quote None None None None None None None None PRICE_DECIMALS
      REFERENCE_PRICE_UNIT REFERENCE_PRICE_DISCLAIMER (Some "reference-price provider not configured")
  | Some provider =>
    let '(price, source) := match pc_kind provider with Static price source => (price, source) end in
    let snapshot := mkReferencePrice price (bytes_of source) 0 loaded_at_secs in
    let guard := mkReferencePriceGuard (pc_max_deviation_bps provider) (pc_max_staleness_secs provider) in
    let fresh := is_fresh guard snapshot now_secs in
    let age := age_secs snapshot now_secs in
    mkReferenceResponse true pair base quote (Some price) (Some source) (Some 0) (Some loaded_at_secs) (Some fresh)
      (Some age) (Some (pc_max_deviation_bps provider)) (Some (pc_max_staleness_secs provider)) PRICE_DECIMALS
      REFERENCE_PRICE_UNIT REFERENCE_PRICE_DISCLAIMER None
  end.

(** ** The reads *)

Record MarketNode := mkMarketNode {
  dp_pair_exists : Z -> Z -> result string bool;
  dp_pair_count : result string Z;
  dp_pair_at : Z -> result string (Z * Z);
  dp_best_bid : Z -> Z -> result string (Z * Z);
  dp_best_ask : Z -> Z -> result string (Z * Z);
  dp_min_order_amount : result string Z;
  token_symbol : Z -> result string string;
  token_decimals : Z -> result string Z;
  node_block_number : result string Z
}.

(** [HashMap<MarketKey, Arc<MidpointHistory>>] *)
Abbreviation MidpointHistories := (gmap (Z * Z) MidpointHistory).

Section Methods.
Context (W : Wire) (N : MarketNode).
Abbreviation M := (Api MidpointHistories).

Definition ensure_darkpool_market (base quote : Z) : M unit :=
  exists_ <- query (dp_pair_exists N base quote);
  if (exists_ : bool) then aret tt
  else afail (invalid_params ("market " +:+ (hex_address base +:+ ("/" +:+ (hex_address quote +:+
    " does not exist in the darkpool"))))).

Definition market_token (address : Z) : M MarketToken :=
  symbol <- query (token_symbol N address);
  decimals <- query (token_decimals N address);
  aret (mkMarketToken address symbol decimals).

Definition market_label (base quote : Z) : M string :=
  base <- market_token base;
  quote <- market_token quote;
  aret (mt_symbol base +:+ ("/" +:+ mt_symbol quote)).

Fixpoint pairs_loop (indices : list Z) : M (list (Z * Z)) :=
  match indices with
  | [] => aret []
  | index :: indices =>
    pair <- query (dp_pair_at N index);
    pairs <- pairs_loop indices;
    aret (pair :: pairs)
  end.

Definition darkpool_pairs : M (list (Z * Z)) :=
  pair_count <- query (dp_pair_count N);
  match try_from U64_MAX pair_count with
  | None => afail (internal "darkpool pair count exceeds platform limits")
  | Some pair_count => pairs_loop (seqZ 0 pair_count)
  end.

Fixpoint market_entries (min_order_amount : Z) (pairs : list (Z * Z)) : M (list MarketEntry) :=
  match pairs with
  | [] => aret []
  | (base, quote) :: pairs =>
    base <- market_token base;
    quote <- market_token quote;
    markets <- market_entries min_order_amount pairs;
    aret (mkMarketEntry (mt_symbol base +:+ ("/" +:+ mt_symbol quote)) base quote min_order_amount PRICE_DECIMALS
            REFERENCE_PRICE_UNIT [MarketBuy; MarketSell; LimitBid; LimitAsk] [Ioc; Fok] [Gtc] :: markets)
  end.

Definition darkpool_market_config : M MarketConfigResponse :=
  min_order_amount <- query (dp_min_order_amount N);
  pairs <- darkpool_pairs;
  markets <- market_entries min_order_amount pairs;
  aret (mkMarketConfig DARKPOOL_ADDRESS markets).

Definition zone_get_market_config : M MarketConfigResponse := darkpool_market_config.

Definition zone_get_reference_price (provider : option ReferencePriceProviderConfig) (ref_price_loaded_at now_secs : Z)
    (base quote : Z) : M ReferencePriceResponse :=
  _ <- ensure_darkpool_market base quote;
  pair <- market_label base quote;
  as_of_block <- query (node_block_number N);
  aret (build_reference_price_response provider ref_price_loaded_at now_secs as_of_block pair base quote).

Definition zone_get_top_of_book (base quote : Z) : M TopOfBookResponse :=
  _ <- ensure_darkpool_market base quote;
  pair <- market_label base quote;
  best_bid <- query (dp_best_bid N base quote);
  best_ask <- query (dp_best_ask N base quote);
  as_of_block <- query (node_block_number N);
  let bid := level_from_response best_bid.1 best_bid.2 in
  let ask := level_from_response best_ask.1 best_ask.2 in
  let '(midpoint, spread) :=
    match bid, ask with
    | Some b, Some a =>
      (Some (saturating_add U128_MAX (ol_price b) (ol_price a) / 2), Some (saturating_sub (ol_price a) (ol_price b)))
    | _, _ => (None, None)
    end in
  aret (mkTopOfBook pair base quote bid ask midpoint spread as_of_block).

Definition midpoint_histories : M MidpointHistories := fun s => (Ok s, s).

Definition zone_get_midpoint_history (base quote : Z) (interval : string) (limit : Z) (cursor : option string)
    : M MidpointHistoryResponse :=
  _ <- ensure_darkpool_market base quote;
  pair <- market_label base quote;
  match interval_seconds interval with
  | None => afail (invalid_params ("unsupported interval `" +:+ (interval +:+ ("`; expected one of: " +:+
      String.concat ", " SUPPORTED_INTERVALS))))
  | Some interval_secs =>
    match parse_midpoint_cursor W cursor with
    | Err e => afail e
    | Ok cursor_ts =>
      histories <- midpoint_histories;
      let '(page, next_cursor) :=
        match (histories : MidpointHistories) !! (base, quote) with
        | Some history => midpoint_query history interval_secs limit cursor_ts
        | None => ([], None)
        end in
      let samples := (fun s => mkMidpointSample (bu_bucket_end s) (bu_midpoint s)) <$> page in
      aret (build_midpoint_history_response pair base quote interval samples next_cursor)
    end
  end.

(** ** The sampler: one tick, at time [now_secs] *)

Definition sample_pair (now_secs : Z) (index : Z) (histories : MidpointHistories) : MidpointHistories :=
  match dp_pair_at N index with
  | Err _ => histories
  | Ok (base, quote) =>
    match dp_best_bid N base quote with
    | Err _ => histories
    | Ok (bid_price, bid_quantity) =>
      match dp_best_ask N base quote with
      | Err _ => histories
      | Ok (ask_price, ask_quantity) =>
        if (bid_price =? 0) || (bid_quantity =? 0) || (ask_price =? 0) || (ask_quantity =? 0) then histories
        else
          let history := default (midpoint_new MIDPOINT_RETENTION) (histories !! (base, quote)) in
          <[(base, quote) := record (mkRawSample now_secs (saturating_add U128_MAX bid_price ask_price / 2)) history]> histories
      end
    end
  end.

Definition sampler_tick (now_secs : Z) (histories : MidpointHistories) : MidpointHistories :=
  match dp_pair_count N with
  | Err _ => histories
  | Ok pair_count =>
    match try_from U64_MAX pair_count with
    | None => histories
    | Some pair_count => foldl (fun h index => sample_pair now_secs index h) histories (seqZ 0 pair_count)
    end
  end.
End Methods.
