(* ===== verification/MarketsProofs.v ===== *)
(** * Markets: the pages of the midpoint history and the top of the book

    The midpoint history keeps the newest samples, answers with the last
    midpoint of each bucket, and following its cursors yields every bucket
    once.  Reading a reachable state of the orderbook, the top of the book is
    the best order of each side, the spread is positive, and the sampler
    records exactly the midpoints that [zone_getTopOfBook] shows. *)

From stdpp Require Import gmap list strings.
From S2P Require Import Prelude.
From S2P Require Import BTree.
From S2P Require Import OrderbookModel.
From S2P Require Import OrderbookArith.
From S2P Require Import OrderbookRep.
From S2P Require Import OrderbookInv.
From S2P Require Import OrderbookMatching.
From S2P Require Import OrderbookFunding.
From S2P Require Import OrderbookOps.
From S2P Require Import OrderbookSafety.
From S2P Require Import RpcTypes.
From S2P Require Import RpcDispatch.
From S2P Require Import RpcExplorer.
From S2P Require Import Markets.
#[local] Open Scope Z_scope.

(** ** Printed hex quantities can be read back *)

Definition hex_value_of (c : Ascii.ascii) : Z :=
  let n := Z.of_N (Ascii.N_of_ascii c) in if n <? 58 then n - 48 else n - 87.
Fixpoint hex_value (acc : Z) (s : string) : Z :=
  match s with EmptyString => acc | String c s => hex_value (acc * 16 + hex_value_of c) s end.
Definition parse_hex (s : string) : option Z :=
  match s with String _ (String _ s) => Some (hex_value 0 s) | _ => None end.

Lemma hex_value_of_digit n : 0 <= n < 16 -> hex_value_of (hex_digit n) = n.
Proof.
  intros H. assert (Hn : n ∈ seqZ 0 16) by (apply elem_of_seqZ; lia). revert Hn. clear H.
  revert n. apply Forall_forall. repeat (constructor; [reflexivity|]). constructor.
Qed.

Lemma hex_value_trimmed fuel n acc :
  0 <= n < 16 ^ Z.of_nat fuel -> hex_value 0 (hex_trimmed fuel n acc) = hex_value n acc.
Proof.
  revert n acc. induction fuel as [|fuel IH]; intros n acc Hn; cbn [hex_trimmed].
  - cbn in Hn. by replace n with 0 by lia.
  - pose proof (Z.mod_pos_bound n 16 ltac:(lia)). pose proof (Z.div_mod n 16 ltac:(lia)).
    destruct (Z.eqb_spec (n / 16) 0) as [E|E].
    + cbn [hex_value]. rewrite hex_value_of_digit by lia. f_equal. lia.
    + rewrite IH; [cbn [hex_value]; rewrite hex_value_of_digit by lia; f_equal; lia|].
      rewrite Nat2Z.inj_succ, Z.pow_succ_r in Hn by lia. split; [apply Z.div_pos; lia|].
      apply Z.div_lt_upper_bound; lia.
Qed.

Lemma parse_hex_quantity n : in_u64 n -> parse_hex (hex_quantity n) = Some n.
Proof.
  intros H. change (Some (hex_value 0 (hex_trimmed 16 n EmptyString)) = Some n). f_equal.
  rewrite hex_value_trimmed; [done|]. unfold in_u64, U64_MAX in H. lia.
Qed.

Lemma hex_quantity_inj n m : in_u64 n -> in_u64 m -> hex_quantity n = hex_quantity m -> n = m.
Proof.
  intros Hn Hm H. apply (f_equal parse_hex) in H. rewrite !parse_hex_quantity in H by done. by injection H.
Qed.

(** ** Retention *)

(** The samples of the sampler, oldest first, recorded one by one. *)
Definition sampled (l : list RawSample) (h : MidpointHistory) : MidpointHistory := foldl (fun h s => record s h) h l.

Lemma sampled_retains cap l :
  mh_capacity (sampled l (midpoint_new cap)) = Nat.max cap 1 /\
  mh_inner (sampled l (midpoint_new cap)) = drop (length l - Nat.max cap 1) l.
Proof.
  unfold sampled. induction l as [|s l [IHc IHi]] using rev_ind; [done|].
  rewrite foldl_app. cbn. rewrite IHc, IHi. split; [done|].
  rewrite length_drop, length_app. cbn [length]. case_match eqn:E.
  - apply Nat.eqb_eq in E. rewrite drop_drop.
    replace (length l + 1 - Nat.max cap 1)%nat with (length l - Nat.max cap 1 + 1)%nat by lia.
    by rewrite drop_app_le by lia.
  - apply Nat.eqb_neq in E.
    replace (length l - Nat.max cap 1)%nat with 0%nat by lia.
    by replace (length l + 1 - Nat.max cap 1)%nat with 0%nat by lia.
Qed.

(** ** Buckets *)

Lemma bucketize_snoc iv l s :
  bucketize iv (l ++ [s]) = bt_insert (bucket_end_of iv s) (rs_midpoint s) (bucketize iv l).
Proof. unfold bucketize. by rewrite foldl_app. Qed.

Lemma bucketize_sorted iv l : sorted (bucketize iv l).
Proof.
  induction l as [|s l IH] using rev_ind; [constructor|]. rewrite bucketize_snoc. by apply bt_insert_sorted.
Qed.

(** The last sample of the bucket wins. *)
Lemma bucketize_lookup iv l t :
  bt_lookup t (bucketize iv l) = rs_midpoint <$> last (filter (fun s => bucket_end_of iv s = t) l).
Proof.
  induction l as [|s l IH] using rev_ind; [done|]. rewrite bucketize_snoc, bt_lookup_insert, filter_app, IH.
  rewrite filter_cons, filter_nil. destruct (Z.eqb_spec t (bucket_end_of iv s)) as [->|Hne].
  - rewrite decide_True by done. by rewrite last_snoc.
  - rewrite decide_False by congruence. by rewrite app_nil_r.
Qed.

Lemma bucketize_keys iv l k v : (k, v) ∈ bucketize iv l -> exists s, s ∈ l /\ bucket_end_of iv s = k.
Proof.
  rewrite <-(bt_lookup_elem _ _ _ (bucketize_sorted iv l)), bucketize_lookup. intros H.
  destruct (last _) as [s|] eqn:E; [|done]. apply last_Some_elem_of in E.
  apply list_elem_of_filter in E as [E1 E2]. eauto.
Qed.

Lemma bucketize_length iv l : (length (bucketize iv l) <= length l)%nat.
Proof.
  induction l as [|s l IH] using rev_ind; [done|]. rewrite bucketize_snoc, length_app. cbn.
  assert (Hi : forall k v (m : btree Z), (length (bt_insert k v m) <= length m + 1)%nat).
  { intros k v m. induction m as [|[k' v'] m IHm]; cbn; [lia|]. repeat case_match; cbn; lia. }
  specialize (Hi (bucket_end_of iv s) (rs_midpoint s) (bucketize iv l)). lia.
Qed.

(** ** Pages *)

(** A sorted map below one of its keys. *)
Lemma range_lt_split (m a b : btree Z) k v : sorted m -> m = a ++ (k, v) :: b -> range_lt k m = a.
Proof.
  intros Hs ->. unfold range_lt. induction a as [|[k' v'] a IH].
  - rewrite sel_none; [done|]. intros p [->|Hp]%elem_of_cons; [apply Z.ltb_irrefl|].
    apply StronglySorted_inv in Hs as [_ Hs]. rewrite Forall_forall in Hs. specialize (Hs p Hp). cbn in Hs.
    apply Z.ltb_ge. lia.
  - apply StronglySorted_inv in Hs as [Hs Hf]. cbn [app]. rewrite sel_cons, IH by done.
    rewrite Forall_forall in Hf. specialize (Hf (k, v) ltac:(set_solver)). cbn in Hf.
    by rewrite (proj2 (Z.ltb_lt _ _) Hf).
Qed.

(** One page: what remains below its cursor is the rest of the buckets. *)
Lemma page_split (m : btree Z) limit :
  let n := (length m - Nat.min limit (length m))%nat in
  sorted m -> (0 < limit)%nat ->
  if (0 <? n)%nat then exists k v b, drop n m = (k, v) :: b /\ range_lt k m = take n m /\ (length (take n m) < length m)%nat
  else drop n m = m.
Proof.
  intros n Hs Hl. destruct (Nat.ltb_spec 0 n) as [Hn|Hn].
  - destruct (drop n m) as [|[k v] b] eqn:E.
    { apply (f_equal length) in E. rewrite length_drop in E. cbn in E. lia. }
    exists k, v, b. split; [done|]. split; [|rewrite length_take; lia].
    eapply range_lt_split; [done|]. rewrite <-E. symmetry. apply take_drop.
  - by replace n with 0%nat by lia.
Qed.

Definition sample_of (p : Z * Z) : MidpointSample := mkMidpointSample p.1 p.2.

(** A client that follows the cursors, newest page first. *)
Fixpoint midpoint_all (W : Wire) (N : MarketNode) (fuel : nat) (base quote : Z) (interval : string) (limit : Z)
    (cursor : option string) (h : MidpointHistories) : option (list MidpointSample) :=
  match fuel with
  | O => None
  | S fuel' =>
    match (zone_get_midpoint_history W N base quote interval limit cursor h).1 with
    | Err _ => None
    | Ok r =>
      match mr_next_cursor r with
      | None => Some (mr_samples r)
      | Some c => (fun older => older ++ mr_samples r) <$> midpoint_all W N fuel' base quote interval limit (Some c) h
      end
    end
  end.

Section Pages.
Context (W : Wire) (N : MarketNode) (base quote : Z) (interval label : string) (secs limit : Z).
Context (h : MidpointHistories) (history : MidpointHistory).
(** The cursor the node prints is the one it parses. *)
Hypothesis hex_roundtrip : forall n, in_u64 n -> u64_from_str W (hex_quantity n) = Some n.
Hypothesis market_exists : dp_pair_exists N base quote = Ok true.
Hypothesis market_labelled : market_label N base quote h = (Ok label, h).
Hypothesis supported : interval_seconds interval = Some secs.
Hypothesis limit_pos : 0 < limit.
Hypothesis history_of : h !! (base, quote) = Some history.
Hypothesis clock : Forall (fun s => 0 <= rs_timestamp s < U64_MAX - 3600) (mh_inner history).

Abbreviation buckets := (bucketize secs (mh_inner history)).
Abbreviation method cursor := (zone_get_midpoint_history W N base quote interval limit cursor h).
Abbreviation all fuel cursor := (midpoint_all W N fuel base quote interval limit cursor h).

Lemma interval_range : 0 < secs <= 3600.
Proof. unfold interval_seconds in supported. repeat case_match; simplify_eq; lia. Qed.

Lemma bucket_range k v : (k, v) ∈ buckets -> in_u64 k /\ k < U64_MAX.
Proof.
  intros (s & Hs & <-)%bucketize_keys. rewrite Forall_forall in clock. specialize (clock s Hs).
  pose proof interval_range as Hi. unfold bucket_end_of, saturating_add, in_u64.
  pose proof (Z.mul_div_le (rs_timestamp s) secs ltac:(lia)).
  pose proof (Z.div_pos (rs_timestamp s) secs ltac:(lia) ltac:(lia)). nia.
Qed.

(** A cursor, and the buckets below it. *)
Definition below (cursor : option string) (m : btree Z) : Prop :=
  exists cap, parse_midpoint_cursor W cursor = Ok cap /\ range_lt (default U64_MAX cap) buckets = m.

Lemma method_page cursor m :
  below cursor m -> sorted m ->
  let n := (length m - Nat.min (Z.to_nat limit) (length m))%nat in
  exists r, (method cursor).1 = Ok r /\ mr_samples r = sample_of <$> drop n m /\
    mr_next_cursor r = if (0 <? n)%nat then (fun p => hex_quantity p.1) <$> head (drop n m) else None.
Proof.
  intros (cap & Hp & Hm) Hs n. unfold zone_get_midpoint_history, ensure_darkpool_market, query, abind.
  rewrite market_exists. cbn -[market_label]. rewrite market_labelled, supported, Hp. cbn. rewrite history_of.
  unfold midpoint_query. pose proof interval_range. rewrite (proj2 (Z.eqb_neq secs 0)), (proj2 (Z.eqb_neq limit 0)) by lia.
  cbn [orb]. destruct (mh_inner history) as [|s l] eqn:E.
  - cbn in Hm. subst m. eexists; split; [done|]. by split.
  - rewrite Hm. fold n. eexists; split; [done|]. cbn. split; [by rewrite <-!list_fmap_compose|].
    destruct (match n with O => false | _ => true end); [|done]. by destruct (drop n m).
Qed.

Lemma below_sorted cursor m : below cursor m -> sorted m.
Proof. intros (cap & _ & <-). apply sel_sorted, bucketize_sorted. Qed.

Lemma all_below fuel cursor m : below cursor m -> (length m < fuel)%nat -> all fuel cursor = Some (sample_of <$> m).
Proof.
  revert cursor m. induction fuel as [|fuel IH]; intros cursor m Hb Hf; [lia|]. cbn [midpoint_all].
  pose proof (below_sorted _ _ Hb) as Hs. destruct (method_page cursor m Hb Hs) as (r & -> & Er & Ec).
  pose proof (page_split m (Z.to_nat limit) Hs ltac:(lia)) as Hp. cbv zeta in Hp.
  set (n := (length m - Nat.min (Z.to_nat limit) (length m))%nat) in *. rewrite Ec, Er.
  destruct (0 <? n)%nat; [|by rewrite Hp]. destruct Hp as (k & v & b & Ed & Et & Hlt). rewrite Ed. cbn.
  rewrite (IH _ (take n m)); [|exists (Some k)|lia].
  - cbn. rewrite <-(take_drop n m) at 2. by rewrite fmap_app, Ed.
  - assert (Hk : (k, v) ∈ m) by (rewrite <-(take_drop n m), Ed; set_solver).
    destruct Hb as (cap & Hcap & Hm). rewrite <-Hm in Hk. unfold range_lt in Hk. apply elem_of_sel in Hk as [Hk1 Hk].
    cbn [fst] in Hk1. cbn [parse_midpoint_cursor]. rewrite hex_roundtrip by (by eapply bucket_range). split; [done|].
    rewrite <-Et, <-Hm. unfold range_lt. rewrite sel_sel. apply sel_ext. intros j. cbn [default].
    unfold id in *. destruct (Z.ltb_spec j k); [|done]. cbn [andb]. lia.
Qed.

Lemma all_pages fuel : (length (mh_inner history) < fuel)%nat -> all fuel None = Some (sample_of <$> buckets).
Proof.
  intros Hf. apply all_below; [|pose proof (bucketize_length secs (mh_inner history)); lia].
  exists None. split; [done|]. cbn. unfold range_lt.
  pose proof bucket_range as Hr. induction buckets as [|[k v] m IH]; [done|]. rewrite sel_cons.
  destruct (Hr k v ltac:(set_solver)) as [_ Hk]. rewrite (proj2 (Z.ltb_lt _ _) Hk). f_equal. apply IH.
  intros k' v' Hin. apply (Hr k' v'). set_solver.
Qed.
End Pages.

(** Following the cursors of [zone_getMidpointHistory] ends, and the pages put
    together, oldest first, hold one row per bucket with increasing times,
    which is the last midpoint the sampler recorded in that bucket, among the
    samples that are retained. *)
Theorem midpoint_pages_complete W N base quote interval label secs limit h cap l :
  (forall n, in_u64 n -> u64_from_str W (hex_quantity n) = Some n) ->
  dp_pair_exists N base quote = Ok true -> market_label N base quote h = (Ok label, h) ->
  interval_seconds interval = Some secs -> 0 < limit ->
  h !! (base, quote) = Some (sampled l (midpoint_new cap)) ->
  Forall (fun s => 0 <= rs_timestamp s < U64_MAX - 3600) l ->
  exists rows, midpoint_all W N (S (length l)) base quote interval limit None h = Some rows /\
    StronglySorted Z.lt (ms_timestamp <$> rows) /\
    forall t v, mkMidpointSample t v ∈ rows <->
      rs_midpoint <$> last (filter (fun s => bucket_end_of secs s = t) (drop (length l - Nat.max cap 1) l)) = Some v.
Proof.
  intros Hhex Hex Hlab Hiv Hlim Hh Hclock. destruct (sampled_retains cap l) as [_ Hin].
  set (kept := drop (length l - Nat.max cap 1) l) in *.
  pose proof (all_pages W N base quote interval label secs limit h _ Hhex Hex Hlab Hiv Hlim Hh) as Hall.
  rewrite Hin in Hall. specialize (Hall (Forall_drop _ _ _ Hclock) (S (length l))).
  eexists. split; [apply Hall; unfold kept; rewrite length_drop; lia|].
  pose proof (bucketize_sorted secs kept) as Hs. split.
  - rewrite <-list_fmap_compose. clear -Hs. induction Hs as [|p m _ IH Hf]; cbn; constructor; [done|].
    apply Forall_fmap. eapply Forall_impl; [exact Hf|]. done.
  - intros t v. rewrite <-bucketize_lookup, (bt_lookup_elem _ _ _ Hs), list_elem_of_fmap. split.
    + intros ([k u] & E & H). by injection E as -> ->.
    + intros H. by exists (t, v).
Qed.

(** ** The top of the book in reachable states *)

Section TopOfBook.
Context {L : Type} {T20 : Tip20 L} {T20L : Tip20Laws L}.
Context (keccak256 : list Z -> Z) (decode : list Z -> option Call).
Hypothesis decode_wf : forall calldata c, decode calldata = Some c -> call_wf c.
Hypothesis book_key_inj : forall a b c d,
  is_tip20 a -> is_tip20 b -> is_tip20 c -> is_tip20 d ->
  compute_book_key keccak256 a b = compute_book_key keccak256 c d -> a = c /\ b = d.
Abbreviation reach := (reach keccak256 decode).
Implicit Types (w : World L).

Definition view {A} (m : M (World L) fault A) (w : World L) : result string A :=
  match m w with Ok (a, _) => Ok a | Err _ => Err "execution reverted"%string end.

(** A zone node whose head state is [w]. *)
Definition reads_of (w : World L) (symbol : Z -> string) (decimals : Z -> Z) (head : Z) : MarketNode := {|
  dp_pair_exists base quote := view (pair_exists keccak256 base quote) w;
  dp_pair_count := view pair_count w;
  dp_pair_at index := view (pair_at index) w;
  dp_best_bid base quote := view (best_bid keccak256 base quote) w;
  dp_best_ask base quote := view (best_ask keccak256 base quote) w;
  dp_min_order_amount := Ok MIN_ORDER_AMOUNT;
  token_symbol t := Ok (symbol t);
  token_decimals t := Ok (decimals t);
  node_block_number := Ok head
|}.

(** The best level of a side is that of its first stored order in price-time
    order (ids count placements), and of that order alone; there is none when
    the side is empty. *)
Definition best_level (s : DarkpoolOrderbook) (k : Z) (b : bool) (level : option OrderLevel) : Prop :=
  match level with
  | Some lv => exists i o, orders s !! i = Some o /\ o_book_key o = k /\ is_bid o = b /\
      lv = mkLevel (price o) (quantity o) /\
      forall j o', orders s !! j = Some o' -> o_book_key o' = k -> is_bid o' = b ->
        (if b then price o' <= price o else price o <= price o') /\ (price o' = price o -> i <= j)
  | None => forall j o', orders s !! j = Some o' -> o_book_key o' = k -> is_bid o' = b -> False
  end.

Definition best_read (b : bool) (base quote : Z) w : result string (Z * Z) :=
  view (if b then best_bid keccak256 base quote else best_ask keccak256 base quote) w.

Lemma best_read_spec w B base quote b :
  Inv keccak256 is_tip20 (ob w) B ->
  let k := compute_book_key keccak256 base quote in
  exists p q, best_read b base quote w = Ok (p, q) /\ best_level (ob w) k b (level_from_response p q) /\
    match level_from_response p q with Some _ => exists e l, B k b = e :: l /\ e_price e = p | None => True end.
Proof.
  intros I k. pose proof (inv_rep _ _ _ _ I) as R.
  assert (Hread : best_read b base quote w =
    let i := best b (book_at (ob w) k) in
    if i =? 0 then Ok (0, 0) else Ok (price (order_at (ob w) i), quantity (order_at (ob w) i))).
  { unfold best_read, view, best_bid, best_ask. destruct b; rewrite bind_books_read; cbn [best];
      fold k; destruct (_ =? 0); by rewrite ?bind_orders_read. }
  rewrite Hread. cbv zeta. rewrite (rep_head _ _ R k b).
  assert (Hcov : forall j o, orders (ob w) !! j = Some o -> o_book_key o = k -> is_bid o = b ->
    exists e, e ∈ B k b /\ price o = e_price e /\ j = e_id e).
  { intros j o Ho <- <-. destruct (rep_cover _ _ R j o Ho) as (e & He & <-). exists e. split; [done|].
    destruct (seg_lookup _ _ _ _ _ _ _ (rep_seg _ _ R _ _) He) as (p & n & E). rewrite Ho in E.
    injection E as ->. done. }
  destruct (B k b) as [|e l] eqn:EB; cbn [hd_id].
  - exists 0, 0. split; [done|]. split; [|done]. cbn. intros j o Ho Hk Hb.
    destruct (Hcov j o Ho Hk Hb) as (x & Hx & _). by apply not_elem_of_nil in Hx.
  - assert (He : e ∈ B k b) by (rewrite EB; left).
    pose proof (rep_seg _ _ R k b) as Hs. rewrite EB in Hs. destruct Hs as [Ho _].
    pose proof (rep_pos _ _ R k b e He) as Hpos. destruct (inv_entry _ _ _ _ I k b e He) as [Hq Hp].
    rewrite (proj2 (Z.eqb_neq _ _)) by lia. unfold order_at. rewrite Ho. cbn [default price quantity concr].
    exists (e_price e), (e_qty e). split; [done|]. unfold level_from_response.
    rewrite !(proj2 (Z.eqb_neq _ 0)) by lia. cbn [orb]. split; [|by exists e, l].
    exists (e_id e), (concr k b e 0 (hd_id 0 l)). do 4 (split; [done|]). intros j o Hj Hk Hb.
    destruct (Hcov j o Hj Hk Hb) as (x & Hx & -> & ->). cbn.
    pose proof (inv_sorted _ _ _ _ I k b) as Hst. rewrite EB in Hst. apply StronglySorted_inv in Hst as [_ Hst].
    apply elem_of_cons in Hx as [->|Hx]; [destruct b; lia|].
    rewrite Forall_forall in Hst. specialize (Hst x Hx). unfold ahead, better in Hst. destruct b; lia.
Qed.

(** What the two reads show of a pair. *)
Definition midpoint_at w base quote : option Z :=
  match best_read true base quote w, best_read false base quote w with
  | Ok (bp, bq), Ok (ap, aq) =>
    match level_from_response bp bq, level_from_response ap aq with
    | Some b, Some a => Some (saturating_add U128_MAX (ol_price b) (ol_price a) / 2)
    | _, _ => None
    end
  | _, _ => None
  end.

(** The pairs of the book, and the test the node makes. *)
Definition pair_of w (k : Z) : Z * Z := (OrderbookModel.base (book_at (ob w) k), OrderbookModel.quote (book_at (ob w) k)).
Definition listed w (base quote : Z) : Prop := (base, quote) ∈ pair_of w <$> book_keys (ob w).
#[export] Instance listed_dec w base quote : Decision (listed w base quote).
Proof. unfold listed. apply _. Defined.

Lemma pair_exists_listed w B base quote :
  Inv keccak256 is_tip20 (ob w) B -> base <> 0 ->
  pair_exists keccak256 base quote w = Ok (bool_decide (listed w base quote), w).
Proof.
  intros I H0. unfold pair_exists. rewrite bind_books_read. set (k := compute_book_key keccak256 base quote).
  change (Ok ((OrderbookModel.base (book_at (ob w) k) =? base) && (OrderbookModel.quote (book_at (ob w) k) =? quote), w) =
          @Ok fault _ (bool_decide (listed w base quote), w)). f_equal. f_equal.
  apply eq_bool_prop_intro. rewrite andb_True, bool_decide_spec, !Is_true_true, !Z.eqb_eq. unfold listed. rewrite list_elem_of_fmap. split.
  - intros [Hb Hq]. exists k. unfold pair_of. rewrite Hb, Hq. split; [done|]. apply (inv_keys_iff _ _ _ _ I). congruence.
  - intros (k' & [= Hb Hq] & Hk). destruct (inv_pair _ _ _ _ I k' Hk) as [Ek _]. rewrite <-Hb, <-Hq in Ek.
    unfold k. by rewrite Ek.
Qed.

(** C26. In every reachable state of the orderbook [zone_getTopOfBook] answers for
    the listed pairs and refuses the others as unknown markets.  A side's level
    is that of its first resting order in price-time order, the quantity of
    that one order and not the sum at its price.  With orders on both sides the
    bid is below the ask, the spread is their exact difference, and the
    midpoint lies between them (where their sum is a 128-bit number). *)
Theorem top_of_book_exact n w base quote symbol decimals head h :
  reach n w -> Z.of_nat n < U128_MAX -> base <> 0 ->
  let k := compute_book_key keccak256 base quote in
  let answer := zone_get_top_of_book (reads_of w symbol decimals head) base quote h in
  (~ listed w base quote -> answer = (Err (invalid_params ("market " +:+ (hex_address base +:+ ("/" +:+ (hex_address quote +:+
     " does not exist in the darkpool"))))%string), h)) /\
  (listed w base quote -> exists r, answer = (Ok r, h) /\
    best_level (ob w) k true (tb_bid r) /\ best_level (ob w) k false (tb_ask r) /\
    tb_midpoint r = midpoint_at w base quote /\
    match tb_bid r, tb_ask r with
    | Some b, Some a =>
      ol_price b < ol_price a /\ tb_spread r = Some (ol_price a - ol_price b) /\
      (ol_price b + ol_price a <= U128_MAX -> exists m, tb_midpoint r = Some m /\ ol_price b <= m < ol_price a)
    | _, _ => tb_midpoint r = None /\ tb_spread r = None
    end).
Proof.
  intros Hr Hn H0 k answer. destruct (reach_inv keccak256 decode decode_wf book_key_inj n w Hr Hn) as ((B & I) & _).
  pose proof (pair_exists_listed w B base quote I H0) as Hex. split; intros Hl.
  { rewrite bool_decide_eq_false_2 in Hex by done. unfold answer, zone_get_top_of_book, ensure_darkpool_market, query, abind.
    cbn. unfold view. by rewrite Hex. }
  rewrite bool_decide_eq_true_2 in Hex by done. unfold answer. clear answer.
  destruct (best_read_spec w B base quote true I) as (bp & bq & Eb & Lb & Qb).
  destruct (best_read_spec w B base quote false I) as (ap & aq & Ea & La & Qa).
  unfold midpoint_at. rewrite Eb, Ea. fold k in Lb, La, Qb, Qa. unfold best_read in Eb, Ea.
  assert (Hrun : forall (r : TopOfBookResponse),
    r = (let bid := level_from_response bp bq in let ask := level_from_response ap aq in
         let '(midpoint, spread) := match bid, ask with
           | Some b, Some a => (Some (saturating_add U128_MAX (ol_price b) (ol_price a) / 2),
                                Some (saturating_sub (ol_price a) (ol_price b)))
           | _, _ => (None, None) end in
         mkTopOfBook (symbol base +:+ ("/" +:+ symbol quote))%string base quote bid ask midpoint spread head) ->
    zone_get_top_of_book (reads_of w symbol decimals head) base quote h = (Ok r, h)).
  { intros r ->. unfold zone_get_top_of_book, ensure_darkpool_market, market_label, market_token, query, abind, reads_of.
    cbn. unfold view at 1. rewrite Hex. cbn. rewrite Eb. cbn. rewrite Ea. cbn.
    by destruct (level_from_response bp bq), (level_from_response ap aq). }
  eexists. split; [by apply Hrun|]. clear Hrun.
  destruct (level_from_response bp bq) as [b|] eqn:Hb, (level_from_response ap aq) as [a|] eqn:Ha; cbn; try done.
  split; [done|]. split; [done|].
  split; [done|]. destruct Qb as (x & l1 & E1 & Ex), Qa as (y & l2 & E2 & Ey).
  assert (Hlt : e_price x < e_price y) by (apply (inv_uncrossed _ _ _ _ I k); [rewrite E1|rewrite E2]; left).
  unfold level_from_response in Hb, Ha. repeat case_match; simplify_eq. cbn.
  unfold saturating_sub, saturating_add. split; [lia|]. split; [f_equal; lia|].
  intros Hs. eexists. split; [done|]. rewrite Z.min_r by lia.
  pose proof (Z.div_mod (e_price x + e_price y) 2 ltac:(lia)). pose proof (Z.mod_pos_bound (e_price x + e_price y) 2). lia.
Qed.
(** ** The sampler *)

(** What a tick does for one listed pair. *)
Definition sample_step w (now : Z) (h : MidpointHistories) (p : Z * Z) : MidpointHistories :=
  match midpoint_at w p.1 p.2 with
  | Some m => <[p := record (mkRawSample now m) (default (midpoint_new MIDPOINT_RETENTION) (h !! p))]> h
  | None => h
  end.

Lemma sample_steps_lookup w now pairs h p :
  NoDup pairs ->
  foldl (sample_step w now) h pairs !! p =
    if decide (p ∈ pairs) then sample_step w now h p !! p else h !! p.
Proof.
  intros Hnd. revert h. induction Hnd as [|q pairs Hq Hnd IH]; intros h; [done|]. cbn [foldl]. rewrite IH.
  assert (Hne : p <> q -> sample_step w now h q !! p = h !! p).
  { intros N. unfold sample_step. destruct (midpoint_at _ _ _); [|done]. by rewrite lookup_insert_ne. }
  destruct (decide (p = q)) as [->|N].
  - rewrite decide_False by done. by rewrite decide_True by set_solver.
  - destruct (decide (p ∈ pairs)) as [Hin|Hin].
    + rewrite decide_True by set_solver. unfold sample_step at 1 3. rewrite Hne by done.
      destruct (midpoint_at w p.1 p.2); [by rewrite !lookup_insert_eq | by apply Hne].
    + rewrite decide_False by (rewrite elem_of_cons; tauto). by apply Hne.
Qed.

Lemma sample_pair_step w B symbol decimals head now i k h :
  Inv keccak256 is_tip20 (ob w) B -> book_keys (ob w) !! i = Some k -> Z.of_nat i <= U64_MAX ->
  sample_pair (reads_of w symbol decimals head) now (Z.of_nat i) h = sample_step w now h (pair_of w k).
Proof.
  intros I Hi Hmax. pose proof (lookup_lt_Some _ _ _ Hi) as Hlt. unfold sample_pair, reads_of. cbn [dp_pair_at dp_best_bid dp_best_ask].
  assert (Hat : view (pair_at (Z.of_nat i)) w = Ok (pair_of w k)).
  { unfold view, pair_at, try_from. rewrite (proj2 (Z.leb_le _ _)) by lia.
    cbv [lift_option mbind M_bind mret M_ret get reject_if]. rewrite (proj2 (Z.leb_gt _ _)) by lia. rewrite Nat2Z.id.
    by rewrite (nth_lookup_Some _ _ _ _ Hi). }
  rewrite Hat. unfold sample_step, midpoint_at. cbn [pair_of fst snd].
  destruct (best_read_spec w B (OrderbookModel.base (book_at (ob w) k)) (OrderbookModel.quote (book_at (ob w) k)) true I) as (bp & bq & Eb & _).
  destruct (best_read_spec w B (OrderbookModel.base (book_at (ob w) k)) (OrderbookModel.quote (book_at (ob w) k)) false I) as (ap & aq & Ea & _).
  rewrite Eb, Ea. unfold best_read in Eb, Ea. rewrite Eb, Ea. unfold level_from_response.
  destruct (bp =? 0), (bq =? 0), (ap =? 0), (aq =? 0); done.
Qed.

Lemma foldl_seqZ {A B} (g : A -> Z -> A) (f : A -> B -> A) (ks : list B) a (h : A) :
  (forall j k h, ks !! j = Some k -> g h (a + Z.of_nat j) = f h k) ->
  foldl g h (seqZ a (Z.of_nat (length ks))) = foldl f h ks.
Proof.
  revert a h. induction ks as [|k ks IH]; intros a h Hg; [done|]. cbn [length].
  rewrite seqZ_cons by lia. cbn [foldl]. replace (Z.pred (Z.of_nat (S (length ks)))) with (Z.of_nat (length ks)) by lia.
  specialize (Hg 0%nat k h eq_refl) as H0. rewrite Z.add_0_r in H0. rewrite H0. apply IH.
  intros j k' h' Hj. rewrite <-(Hg (S j) k' h' Hj). f_equal. lia.
Qed.

(** A tick of the sampler, in every reachable state, records for each listed
    pair the midpoint the top of its book has, and for nothing else. *)
Theorem sampler_records_top n w symbol decimals head now h p :
  reach n w -> Z.of_nat n < U128_MAX -> Z.of_nat (length (book_keys (ob w))) <= U64_MAX ->
  sampler_tick (reads_of w symbol decimals head) now h !! p =
    if decide (p ∈ pair_of w <$> book_keys (ob w)) then
      match midpoint_at w p.1 p.2 with
      | Some m => Some (record (mkRawSample now m) (default (midpoint_new MIDPOINT_RETENTION) (h !! p)))
      | None => h !! p
      end
    else h !! p.
Proof.
  intros Hr Hn Hlen. destruct (reach_inv keccak256 decode decode_wf book_key_inj n w Hr Hn) as ((B & I) & _).
  unfold sampler_tick. change (dp_pair_count _) with (@Ok string Z (Z.of_nat (length (book_keys (ob w))))).
  cbv beta iota. unfold try_from. rewrite (proj2 (Z.leb_le _ _)) by lia.
  rewrite (foldl_seqZ _ (fun h k => sample_step w now h (pair_of w k)) (book_keys (ob w))).
  2:{ intros j k h' Hj. eapply sample_pair_step; [done|done|]. apply lookup_lt_Some in Hj. lia. }
  rewrite <-foldl_fmap, sample_steps_lookup.
  - destruct (decide _); [|done]. unfold sample_step. destruct (midpoint_at _ _ _); [by rewrite lookup_insert_eq|done].
  - apply NoDup_fmap_2_strong; [|apply (inv_keys _ _ _ _ I)]. intros k k' Hk Hk' E. unfold pair_of in E.
    destruct (inv_pair _ _ _ _ I k Hk) as [E1 _], (inv_pair _ _ _ _ I k' Hk') as [E2 _].
    injection E as Ea Eb. etrans; [symmetry; exact E1|]. rewrite Ea, Eb. exact E2.
Qed.
End TopOfBook.

(** ** Witnesses: a concrete book and history

    The theorems applied to the run of the orderbook of
    OrderbookWitness.v and to a short midpoint history, with a parser that
    reads the cursors the node prints. *)

From S2P Require Import OrderbookWitness.
#[local] Open Scope Z_scope.

Module MarketExamples.
(** ** A wire format that reads hex quantities *)

Definition wire : Wire :=
  mkWire unit unit unit unit unit unit unit tt (fun _ => tt) (fun _ => tt) (fun _ => tt)
    (fun _ => None) (fun _ => None) (fun _ => None) (fun _ => None) (fun _ => None) (fun _ => None) (fun _ => None)
    (fun _ => None) (fun _ => None) (fun _ => None) (fun _ => None) (fun _ => None) (fun _ => None) (fun _ => None)
    (fun _ => None) (fun _ => None) (fun _ => None) (fun _ => None) parse_hex (fun _ => None) (fun _ => None).

(** ** Two minutes of samples, three of which are kept *)

Definition symbol (t : Z) : string := if t =? BASE then "AAA"%string else "BBB"%string.
Definition node : MarketNode := reads_of inj_hash w3 symbol (fun _ => 6) 12.
Definition samples : list RawSample := [mkRawSample 10 7; mkRawSample 70 8; mkRawSample 80 9; mkRawSample 130 10].
Definition no_history : gmap (Z * Z) MidpointHistory := ∅.
Definition histories : gmap (Z * Z) MidpointHistory := {[ (BASE, QUOTE) := sampled samples (midpoint_new 3) ]}.

Lemma midpoint_pages_complete_witness :
  midpoint_all wire node 5 BASE QUOTE "1m" 1 None histories = Some [mkMidpointSample 120 9; mkMidpointSample 180 10] /\
  exists rows, midpoint_all wire node 5 BASE QUOTE "1m" 1 None histories = Some rows /\
    StronglySorted Z.lt (ms_timestamp <$> rows) /\
    forall t v, mkMidpointSample t v ∈ rows <->
      rs_midpoint <$> last (filter (fun s => bucket_end_of 60 s = t) (drop (length samples - Nat.max 3 1) samples)) = Some v.
Proof.
  split; [vm_compute; reflexivity|].
  apply (midpoint_pages_complete wire node BASE QUOTE "1m" "AAA/BBB" 60 1 histories 3 samples).
  - exact parse_hex_quantity.
  - vm_compute. reflexivity.
  - vm_compute. reflexivity.
  - reflexivity.
  - lia.
  - vm_compute. reflexivity.
  - repeat constructor; vm_compute; congruence.
Defined.

Lemma top_of_book_exact_witness :
  exists r, zone_get_top_of_book node BASE QUOTE ∅ = (Ok r, ∅) /\
    best_level (ob w3) (compute_book_key inj_hash BASE QUOTE) true (tb_bid r) /\
    best_level (ob w3) (compute_book_key inj_hash BASE QUOTE) false (tb_ask r) /\
    tb_midpoint r = midpoint_at inj_hash w3 BASE QUOTE /\
    match tb_bid r, tb_ask r with
    | Some b, Some a =>
      ol_price b < ol_price a /\ tb_spread r = Some (ol_price a - ol_price b) /\
      (ol_price b + ol_price a <= U128_MAX -> exists m, tb_midpoint r = Some m /\ ol_price b <= m < ol_price a)
    | _, _ => tb_midpoint r = None /\ tb_spread r = None
    end.
Proof.
  apply (top_of_book_exact inj_hash decode decode_wf inj_hash_book_key 3 w3 BASE QUOTE symbol (fun _ => 6) 12 ∅).
  - exact reach_w3.
  - reflexivity.
  - vm_compute. congruence.
  - unfold listed. apply (bool_decide_unpack _). vm_compute. exact I.
Defined.

(** The midpoint of that book: bid 1.0, ask 2.0. *)
Example midpoint_w3 : midpoint_at inj_hash w3 BASE QUOTE = Some 1500000.
Proof. vm_compute. reflexivity. Qed.

Lemma sampler_records_top_witness :
  sampler_tick node 42 no_history !! (BASE, QUOTE) =
    if decide ((BASE, QUOTE) ∈ pair_of w3 <$> book_keys (ob w3)) then
      match midpoint_at inj_hash w3 BASE QUOTE with
      | Some m => Some (record (mkRawSample 42 m) (default (midpoint_new MIDPOINT_RETENTION) (no_history !! (BASE, QUOTE))))
      | None => no_history !! (BASE, QUOTE)
      end
    else no_history !! (BASE, QUOTE).
Proof.
  apply (sampler_records_top inj_hash decode decode_wf inj_hash_book_key 3 w3 symbol (fun _ => 6) 12 42 no_history (BASE, QUOTE)).
  - exact reach_w3.
  - reflexivity.
  - vm_compute. congruence.
Defined.
End MarketExamples.
