(* ===== verification/Activity.v ===== *)
(** * Private RPC: the activity feed

    [zone_getMyActivity] of node/src/rpc.rs: orders, fills, transfers,
    deposits and withdrawals of the caller as rows of one list, newest first,
    with a cursor.  The state of the methods is the cache of block timestamps
    that one request keeps.  The node's log index, the two chains and the ABI
    decoders are parameters, as in the other files on the private RPC. *)

From stdpp Require Import gmap list strings.
From S2P Require Import Prelude.
From S2P Require Import BTree.
From S2P Require Import OrderbookModel.
From S2P Require Import RpcAuth.
From S2P Require Import RpcLogs.
From S2P Require Import RpcHistory.
From S2P Require Import RpcTypes.
From S2P Require Import RpcPolicy.
From S2P Require Import RpcDispatch.
From S2P Require Import Withdrawals.
From S2P Require Import Settlement.
From S2P Require Import Outbox.
From S2P Require Import RpcExplorer.
From S2P Require Import RpcStatus.
#[local] Open Scope string_scope.
#[local] Open Scope Z_scope.
#[local] Open Scope api_scope.

(** ** Rows *)

Inductive ActivitySourceChain := Zone | Tempo.
Inductive ActivityKind := AOrder | AFill | ATransfer | ADeposit | AWithdrawal.

Record ActivitySource := mkSource {
  src_chain : ActivitySourceChain; src_block_number : Z; src_tx_hash : Z; src_tx_index : Z; src_log_index : Z
}.

(** The [details] of each kind of row, in the order of the JSON. *)
Inductive ActivityPayload :=
  | OrderPayload (orderId : Z) (side : string) (orderType : OrderKind) (timeInForce : TimeInForce) (status : OrderStatus)
      (baseToken quoteToken amount remaining filled cancelled : Z) (cancelReason : option CancelReason) (price priceLimit : Z)
  | FillPayload (orderId : Z) (role : FillRole) (side : string) (orderType : OrderKind) (timeInForce : TimeInForce)
      (baseToken quoteToken amountFilled price : Z)
  | TransferPayload (token counterparty amount : Z) (direction : TransferDirection)
  | DepositPayload (depositHash : Z) (kind : DepositKind) (token sender : Z) (recipient : option Z) (amount : Z)
      (memo : option Z) (status : DepositState) (l1TxHash : Z) (zoneTxHash : option Z)
  | WithdrawalPayload (withdrawalIndex token to amount fee memo fallbackRecipient : Z) (status : WithdrawalState)
      (zoneTxHash : Z) (l1SubmitBatchTxHash l1ProcessWithdrawalTxHash : option Z) (error : option string).

Record ActivityEntry := mkActivity {
  ae_id : string; ae_kind : ActivityKind; ae_occurred_at : Z; ae_updated_at : Z; ae_source : ActivitySource;
  ae_payload : ActivityPayload
}.
Record ActivityIndexedThrough := mkIndexedThrough { it_zone_block : Z; it_tempo_block : Z }.
Record ActivityPage := mkActivityPage {
  ap_items : list ActivityEntry; ap_next_cursor : option string; ap_indexed_through : ActivityIndexedThrough
}.

(** ** Sort keys and cursors *)

Record ActivitySortKey := mkSortKey {
  sk_occurred_at : Z; sk_chain_rank : Z; sk_block_number : Z; sk_tx_index : Z; sk_log_index : Z; sk_id : string
}.

Definition chain_rank (c : ActivitySourceChain) : Z := match c with Zone => 1 | Tempo => 0 end.

Definition from_entry (entry : ActivityEntry) : ActivitySortKey :=
  let s := ae_source entry in
  mkSortKey (ae_occurred_at entry) (chain_rank (src_chain s)) (src_block_number s) (src_tx_index s) (src_log_index s)
    (ae_id entry).

(** The derived [Ord]: field by field, the id byte by byte. *)
Definition then_compare (c d : comparison) : comparison := match c with Eq => d | _ => c end.
Definition key_compare (a b : ActivitySortKey) : comparison :=
  then_compare (Z.compare (sk_occurred_at a) (sk_occurred_at b))
    (then_compare (Z.compare (sk_chain_rank a) (sk_chain_rank b))
      (then_compare (Z.compare (sk_block_number a) (sk_block_number b))
        (then_compare (Z.compare (sk_tx_index a) (sk_tx_index b))
          (then_compare (Z.compare (sk_log_index a) (sk_log_index b))
            (String.compare (sk_id a) (sk_id b)))))).
Definition key_lt (a b : ActivitySortKey) : bool := match key_compare a b with Lt => true | _ => false end.

Definition sortkey_encode (k : ActivitySortKey) : string :=
  let field n rest := String.append (u64_to_string n) (String COLON rest) in
  field (sk_occurred_at k) (field (sk_chain_rank k) (field (sk_block_number k) (field (sk_tx_index k)
    (field (sk_log_index k) (sk_id k))))).

Definition invalid_cursor : JsonRpcError := invalid_params "invalid activity cursor".

(** [splitn(6, ':')]: the part before the next colon as a number, and what
    follows it ([None] when the parts are used up). *)
Definition next_u64 (rest : option (list Ascii.ascii)) : result JsonRpcError (Z * option (list Ascii.ascii)) :=
  match rest with
  | None => Err invalid_cursor
  | Some cs =>
    let '(part, rest) := match split_once COLON cs with Some (a, b) => (a, Some b) | None => (cs, None) end in
    match parse_u64 (String.string_of_list_ascii part) with
    | Some n => Ok (n, rest)
    | None => Err invalid_cursor
    end
  end.

Definition sortkey_decode (value : string) : result JsonRpcError ActivitySortKey :=
  match next_u64 (Some (String.list_ascii_of_string value)) with
  | Err e => Err e
  | Ok (occurred_at, rest) =>
  match next_u64 rest with
  | Err e => Err e
  | Ok (chain_rank, rest) =>
  match next_u64 rest with
  | Err e => Err e
  | Ok (block_number, rest) =>
  match next_u64 rest with
  | Err e => Err e
  | Ok (tx_index, rest) =>
  match next_u64 rest with
  | Err e => Err e
  | Ok (log_index, rest) =>
    match rest with
    | None | Some [] => Err invalid_cursor
    | Some id =>
      if 1 <? chain_rank then Err invalid_cursor
      else Ok (mkSortKey occurred_at chain_rank block_number tx_index log_index (String.string_of_list_ascii id))
    end
  end end end end end.

(** ** Logs *)

Definition activity_source (log : Log) (chain : ActivitySourceChain) : option ActivitySource :=
  block_number ← log_block_number log;
  tx_hash ← log_transaction_hash log;
  Some (mkSource chain block_number tx_hash (default 0 (log_transaction_index log)) (default 0 (log_index log))).

Definition activity_log_key (log : Log) : Z * Z * Z :=
  (default 0 (log_block_number log), default 0 (log_transaction_index log), default 0 (log_index log)).
Definition triple_le (p q : Z * Z * Z) : bool :=
  let '(a, b, c) := p in
  let '(a', b', c') := q in
  (a <? a') || ((a =? a') && ((b <? b') || ((b =? b') && (c <=? c')))).

(** [sort_by_key(activity_log_key)] followed by [dedup_by]. *)
Definition merge_logs (logs : list Log) : list Log :=
  dedup_by same_log (sort_by (fun a b => triple_le (activity_log_key a) (activity_log_key b)) logs).

(** [max_by_key(activity_log_key)]: the last of the greatest. *)
Definition max_by_log_key (logs : list Log) : option Log :=
  foldl (fun best log => match best with
                         | None => Some log
                         | Some b => if triple_le (activity_log_key b) (activity_log_key log) then Some log else Some b
                         end) None logs.

(** A 128-bit number in decimal, a hash in hex. *)
Definition u128_to_string (n : Z) : string := String.string_of_list_ascii (digit_char <$> digits 39 n).
Definition hex_hash (h : Z) : string := "0x" +:+ hex_digits 64 h EmptyString.

Definition side_label (side : Side) : string := match side with Bid => "buy" | Ask => "sell" end.
Definition role_label (role : FillRole) : string := match role with Maker => "maker" | Taker => "taker" end.

(** ** The inbox's events, and what became of a deposit *)

Inductive InboxEvents :=
  | InDepositProcessed (depositHash to memo : Z)
  | InEncryptedDepositProcessed (depositHash to memo : Z)
  | InDepositFailed (depositHash to : Z)
  | InEncryptedDepositFailed (depositHash : Z)
  | InDepositRejected (depositHash : Z)
  | InOther.

Record ActivityDepositTerminal := mkDepositTerminal {
  dt_state : DepositState; dt_recipient : option Z; dt_memo : option Z; dt_log : Log
}.

Definition terminal_of_event (log : Log) (event : InboxEvents) : option (Z * ActivityDepositTerminal) :=
  match event with
  | InDepositProcessed hash to memo | InEncryptedDepositProcessed hash to memo =>
    Some (hash, mkDepositTerminal DProcessed (Some to) (Some memo) log)
  | InDepositFailed hash to => Some (hash, mkDepositTerminal DFailed (Some to) None log)
  | InEncryptedDepositFailed hash | InDepositRejected hash => Some (hash, mkDepositTerminal DFailed None None log)
  | InOther => None
  end.

Section Feed.
Context (C : Chains) (A : StatusAbi) (abi_inbox : Log -> result string InboxEvents) (decode_log : Log -> option Event).
Context (eth_logs : Filter -> result string (list Log)) (zone_portal : Z) (keccak256 : list Z -> Z).
(** [zone_provider.get_block_number()] *)
Context (zone_block_number : result string Z).

(** [HashMap<(u8, u64), u64>]: timestamps of one request, by chain and block. *)
Abbreviation TimestampCache := (gmap (Z * Z) Z).
Abbreviation F := (Api TimestampCache).

Definition activity_block_timestamp (chain : ActivitySourceChain) (block_number : Z) : F Z :=
  block <- query (match chain with
                  | Zone => zone_block_timestamp C block_number
                  | Tempo => l1_block_timestamp C block_number
                  end);
  match block with
  | Some timestamp => aret timestamp
  | None => afail (internal "activity source block not found")
  end.

Definition cached_timestamp (chain : ActivitySourceChain) (block_number : Z) : F Z := fun cache =>
  match cache !! (chain_rank chain, block_number) with
  | Some timestamp => (Ok timestamp, cache)
  | None =>
    match activity_block_timestamp chain block_number cache with
    | (Ok timestamp, cache) => (Ok timestamp, <[(chain_rank chain, block_number) := timestamp]> cache)
    | (Err e, cache) => (Err e, cache)
    end
  end.

Definition activity_l1_tx_timestamp (tx_hash : Z) : F (option Z) :=
  receipt <- query (l1_receipt C tx_hash);
  match receipt with
  | Some (_, Some block_number) =>
    timestamp <- activity_block_timestamp Tempo block_number;
    aret (Some timestamp)
  | _ => aret None
  end.

Definition activity_log_references_order (log : Log) (order_id : Z) : bool :=
  match topic0 log with
  | None => false
  | Some t0 =>
    if t0 =? FILLED_TOPIC then fill_references_order decode_log log order_id
    else topic_is log 1 (order_id_topic order_id)
  end.

(** A loop that pushes the rows its body yields. *)
Fixpoint collect_rows {T} (body : T -> F (option ActivityEntry)) (l : list T) : F (list ActivityEntry) :=
  match l with
  | [] => aret []
  | x :: l =>
    row <- body x;
    rows <- collect_rows body l;
    aret (option_list row ++ rows)%list
  end.

(** ** Filters *)

Definition withdrawal_filter (owner_topic : Z) : Filter :=
  mkFilter (Range (Some (Number 0)) None) {[ ZONE_OUTBOX_ADDRESS ]} {[ WITHDRAWAL_REQUESTED_TOPIC ]} ∅ {[ owner_topic ]} ∅.
Definition portal_deposit_sender_filter (owner_topic : Z) : Filter :=
  mkFilter (Range (Some (Number 0)) None) {[ zone_portal ]} {[ DEPOSIT_MADE_TOPIC; ENCRYPTED_DEPOSIT_MADE_TOPIC ]}
    ∅ {[ owner_topic ]} ∅.
Definition portal_deposit_filter (deposit_hash : Z) : Filter :=
  mkFilter (Range (Some (Number 0)) None) {[ zone_portal ]} {[ DEPOSIT_MADE_TOPIC; ENCRYPTED_DEPOSIT_MADE_TOPIC ]}
    {[ deposit_hash ]} ∅ ∅.
Definition inbox_deposit_sender_filter (owner_topic : Z) : Filter :=
  mkFilter (Range (Some (Number 0)) None) {[ ZONE_INBOX_ADDRESS ]}
    {[ DEPOSIT_PROCESSED_TOPIC; DEPOSIT_FAILED_TOPIC; ENCRYPTED_DEPOSIT_PROCESSED_TOPIC;
       ENCRYPTED_DEPOSIT_FAILED_TOPIC; DEPOSIT_REJECTED_TOPIC ]} ∅ {[ owner_topic ]} ∅.
Definition inbox_deposit_recipient_filter (owner_topic : Z) : Filter :=
  mkFilter (Range (Some (Number 0)) None) {[ ZONE_INBOX_ADDRESS ]}
    {[ DEPOSIT_PROCESSED_TOPIC; DEPOSIT_FAILED_TOPIC; ENCRYPTED_DEPOSIT_PROCESSED_TOPIC ]} ∅ ∅ {[ owner_topic ]}.

(** ** Rows of each kind *)

Definition order_row (lifecycle_logs order_logs : list Log) (order : OrderEntry) : F (option ActivityEntry) :=
  let order_id := oe_order_id order in
  match find (fun log => bool_decide (topic0 log = Some SUBMITTED_TOPIC) && activity_log_references_order log order_id)
          lifecycle_logs with
  | None => aret None
  | Some created_log =>
    let latest_log := default created_log
      (max_by_log_key (retain (fun log => activity_log_references_order log order_id) order_logs)) in
    match activity_source created_log Zone with
    | None => aret None
    | Some source =>
      let created_block := src_block_number source in
      occurred_at <- cached_timestamp Zone created_block;
      updated_at <- cached_timestamp Zone (default created_block (log_block_number latest_log));
      aret (Some (mkActivity ("order:" +:+ u128_to_string order_id) AOrder occurred_at updated_at source
        (OrderPayload order_id (side_label (oe_side order)) (oe_order_kind order) (oe_time_in_force order)
           (oe_status order) (oe_base_token order) (oe_quote_token order) (oe_amount order) (oe_remaining order)
           (oe_filled order) (oe_cancelled order) (oe_cancel_reason order) (oe_price_limit order) (oe_price_limit order))))
    end
  end.

Definition fill_row (row : Log * FillEntry) : F (option ActivityEntry) :=
  let '(log, fill) := row in
  match activity_source log Zone with
  | None => aret None
  | Some source =>
    occurred_at <- cached_timestamp Zone (src_block_number source);
    aret (Some (mkActivity ("fill:" +:+ (hex_hash (src_tx_hash source) +:+ (":" +:+ (u64_to_string (src_log_index source)
        +:+ (":" +:+ role_label (fe_role fill))))))
      AFill occurred_at occurred_at source
      (FillPayload (fe_order_id fill) (fe_role fill) (side_label (fe_side fill)) (fe_order_kind fill) (fe_time_in_force fill)
         (fe_base_token fill) (fe_quote_token fill) (fe_amount_filled fill) (fe_price fill))))
  end.

Definition fill_rows (owner : Z) (lifecycle_logs maker_fill_logs taker_fill_logs : list Log) : list (Log * FillEntry) :=
  let pair_index := build_pair_index decode_log lifecycle_logs owner in
  let rows role logs := omap (fun log => (fun entry => (log, entry)) <$> fill_entry_from_log decode_log log role pair_index) logs in
  (rows Maker (retain (fun log => caller_is_maker log owner) maker_fill_logs) ++
   rows Taker (retain (fun log => caller_is_taker log owner) taker_fill_logs))%list.

Definition transfer_row (owner : Z) (log : Log) : F (option ActivityEntry) :=
  match transfer_entry_from_log log owner with
  | None => aret None
  | Some transfer =>
    match activity_source log Zone with
    | None => aret None
    | Some source =>
      occurred_at <- cached_timestamp Zone (src_block_number source);
      aret (Some (mkActivity ("transfer:" +:+ (hex_hash (src_tx_hash source) +:+ (":" +:+ u64_to_string (src_log_index source))))
        ATransfer occurred_at occurred_at source
        (TransferPayload (te_token transfer) (te_counterparty transfer) (te_amount transfer) (te_direction transfer))))
    end
  end.

Fixpoint deposit_terminals (logs : list Log) (terminal_by_hash : gmap Z ActivityDepositTerminal)
    : F (gmap Z ActivityDepositTerminal) :=
  match logs with
  | [] => aret terminal_by_hash
  | log :: logs =>
    event <- query (abi_inbox log);
    deposit_terminals logs (match terminal_of_event log event with
                            | Some (hash, terminal) => <[hash := terminal]> terminal_by_hash
                            | None => terminal_by_hash
                            end)
  end.

(** The portal logs of deposits known only from the inbox. *)
Fixpoint missing_portal_logs (hashes : list Z) (logs : list Log) : F (list Log) :=
  match hashes with
  | [] => aret logs
  | hash :: hashes =>
    found <- query (l1_get_logs C (portal_deposit_filter hash));
    missing_portal_logs hashes (logs ++ found)%list
  end.

Definition all_portal_logs (terminal_by_hash : gmap Z ActivityDepositTerminal) (portal_deposit_logs : list Log) : F (list Log) :=
  let known_hashes := omap (fun log => log_topics log !! 1%nat) portal_deposit_logs in
  logs <- missing_portal_logs (retain (fun h => negb (bool_decide (h ∈ known_hashes))) (map_to_list terminal_by_hash).*1)
    portal_deposit_logs;
  aret (merge_logs logs).

Definition deposit_row_of (owner : Z) (terminal_by_hash : gmap Z ActivityDepositTerminal) (log : Log)
    (deposit_hash : Z) (kind : DepositKind) (sender : Z) (portal_recipient : option Z) (bounceback_recipient token amount : Z)
    (portal_memo : option Z) : F (option ActivityEntry) :=
  let terminal := terminal_by_hash !! deposit_hash in
  let recipient := match terminal ≫= dt_recipient with Some r => Some r | None => portal_recipient end in
  if negb (sender =? owner) && negb (bounceback_recipient =? owner) && negb (bool_decide (recipient = Some owner)) then aret None
  else
  match activity_source log Tempo with
  | None => aret None
  | Some source =>
    occurred_at <- cached_timestamp Tempo (src_block_number source);
    details <- match terminal with
               | Some terminal =>
                 updated_at <- cached_timestamp Zone (default 0 (log_block_number (dt_log terminal)));
                 aret (dt_state terminal, match dt_memo terminal with Some m => Some m | None => portal_memo end,
                       log_transaction_hash (dt_log terminal), updated_at)
               | None => aret (DPending, portal_memo, None, occurred_at)
               end;
    let '(status, memo, zone_tx_hash, updated_at) := (details : DepositState * option Z * option Z * Z) in
    aret (Some (mkActivity ("deposit:" +:+ hex_hash deposit_hash) ADeposit occurred_at updated_at source
      (DepositPayload deposit_hash kind token sender recipient amount memo status (src_tx_hash source) zone_tx_hash)))
  end.

Definition deposit_row (owner : Z) (terminal_by_hash : gmap Z ActivityDepositTerminal) (log : Log) : F (option ActivityEntry) :=
  event <- query (abi_portal_events A log);
  match event with
  | EvDepositMade hash sender to bounceback token amount memo =>
    deposit_row_of owner terminal_by_hash log hash KRegular sender (Some to) bounceback token amount (Some memo)
  | EvEncryptedDepositMade hash sender bounceback token amount =>
    deposit_row_of owner terminal_by_hash log hash KEncrypted sender None bounceback token amount None
  | EvOther => aret None
  end.

Definition withdrawal_row (auth : AuthContext) (log : Log) : F (option ActivityEntry) :=
  decoded <- query (abi_withdrawal_requested A log);
  if negb (wr_sender decoded =? auth_caller auth) then aret None
  else
  match activity_source log Zone with
  | None => aret None
  | Some source =>
    occurred_at <- cached_timestamp Zone (src_block_number source);
    raw <- zone_get_withdrawal_status C A zone_portal keccak256 (WithdrawalIndex (wr_withdrawalIndex decoded)) auth;
    match raw with
    | None => afail (internal "invalid type: null, expected struct WithdrawalStatusResponse")
    | Some status =>
      let latest_l1_tx := match ws_l1_process_withdrawal_tx_hash status with
                          | Some tx => Some tx
                          | None => ws_l1_submit_batch_tx_hash status
                          end in
      updated_at <- match latest_l1_tx with
                    | Some tx_hash => timestamp <- activity_l1_tx_timestamp tx_hash; aret (default occurred_at timestamp)
                    | None => aret occurred_at
                    end;
      aret (Some (mkActivity ("withdrawal:" +:+ u64_to_string (wr_withdrawalIndex decoded)) AWithdrawal occurred_at updated_at source
        (WithdrawalPayload (ws_withdrawal_index status) (ws_token status) (ws_to status) (ws_amount status) (wr_fee decoded)
           (ws_memo status) (ws_fallback_recipient status) (ws_status status) (ws_zone_tx_hash status)
           (ws_l1_submit_batch_tx_hash status) (ws_l1_process_withdrawal_tx_hash status) (ws_error status))))
    end
  end.

(** ** The method *)

(** Everything up to the sort: the rows, and the tips of the two chains. *)
Definition activity_rows (auth : AuthContext) : F (list ActivityEntry * ActivityIndexedThrough) :=
  let owner := auth_caller auth in
  let owner_topic := topic_for_address owner in
  lifecycle_logs <- query (eth_logs (build_darkpool_history_filter [SUBMITTED_TOPIC; PLACED_TOPIC; CANCELLED_TOPIC]
    (Some owner_topic) None));
  maker_fill_logs <- query (eth_logs (build_darkpool_history_filter [FILLED_TOPIC] (Some owner_topic) None));
  taker_fill_logs <- query (eth_logs (set_topic3 {[ owner_topic ]} (build_darkpool_history_filter [FILLED_TOPIC] None None)));
  from_logs <- query (eth_logs (build_tip20_history_filter TRANSFER_TOPICS (Some owner_topic) None true));
  to_logs <- query (eth_logs (build_tip20_history_filter TRANSFER_TOPICS (Some owner_topic) None false));
  withdrawal_logs <- query (zone_get_logs C (withdrawal_filter owner_topic));
  deposit_sender_logs <- query (zone_get_logs C (inbox_deposit_sender_filter owner_topic));
  deposit_recipient_logs <- query (zone_get_logs C (inbox_deposit_recipient_filter owner_topic));
  portal_deposit_logs <- query (l1_get_logs C (portal_deposit_sender_filter owner_topic));
  zone_tip <- query zone_block_number;
  tempo_tip <- query (l1_get_block_number C);
  let order_logs := merge_logs (lifecycle_logs ++ maker_fill_logs ++ taker_fill_logs)%list in
  let orders := reconstruct_orders decode_log (retain (fun log => caller_is_party log owner) order_logs) in
  order_rows <- collect_rows (order_row lifecycle_logs order_logs) orders;
  fills <- collect_rows fill_row (fill_rows owner lifecycle_logs maker_fill_logs taker_fill_logs);
  transfers <- collect_rows (transfer_row owner)
    (retain (fun log => is_log_visible log owner) (merge_logs (from_logs ++ to_logs)%list));
  terminal_by_hash <- deposit_terminals (merge_logs (deposit_sender_logs ++ deposit_recipient_logs)%list) ∅;
  portal_logs <- all_portal_logs terminal_by_hash portal_deposit_logs;
  deposits <- collect_rows (deposit_row owner terminal_by_hash) portal_logs;
  withdrawals <- collect_rows (withdrawal_row auth) withdrawal_logs;
  aret ((order_rows ++ fills ++ transfers ++ deposits ++ withdrawals)%list, mkIndexedThrough zone_tip tempo_tip).

(** [sort_by] with the keys swapped, then [dedup_by] on the id. *)
Definition arrange (entries : list ActivityEntry) : list ActivityEntry :=
  dedup_by (fun a b => String.eqb (ae_id a) (ae_id b))
    (sort_by (fun a b => negb (key_lt (from_entry a) (from_entry b))) entries).

Definition activity_page (limit : Z) (cursor : option ActivitySortKey) (entries : list ActivityEntry)
    (indexed : ActivityIndexedThrough) : ActivityPage :=
  let entries := retain_opt cursor (fun cursor entry => key_lt (from_entry entry) cursor) (arrange entries) in
  let next_cursor := if limit <? Z.of_nat (length entries) then
                       (fun entry => sortkey_encode (from_entry entry)) <$> entries !! Z.to_nat (limit - 1)
                     else None in
  mkActivityPage (take (Z.to_nat limit) entries) next_cursor indexed.

Definition zone_get_my_activity (q : ActivityQuery) (auth : AuthContext) : result JsonRpcError ActivityPage :=
  let limit := clamp_limit (aq_limit q) in
  match (match aq_cursor q with
         | None => Ok None
         | Some raw => match sortkey_decode raw with Ok key => Ok (Some key) | Err e => Err e end
         end) with
  | Err e => Err e
  | Ok cursor =>
    match activity_rows auth ∅ with
    | (Err e, _) => Err e
    | (Ok (entries, indexed), _) => Ok (activity_page limit cursor entries indexed)
    end
  end.
End Feed.
