(* ===== verification/ActivityProofs.v ===== *)
(** * The activity feed: cursors and pages

    The cursor of a row survives printing and parsing, ids with colons
    included; rows are arranged in strictly decreasing order of their keys; and
    a client that follows the cursors collects every row once. *)

From stdpp Require Import gmap list strings.
From S2P Require Import Prelude.
From S2P Require Import BTree.
From S2P Require Import OrderbookModel.
From S2P Require Import RpcAuth.
From S2P Require Import RpcLogs.
From S2P Require Import RpcHistory.
From S2P Require Import RpcHistoryProofs.
From S2P Require Import RpcPaging.
From S2P Require Import RpcTypes.
From S2P Require Import RpcPolicy.
From S2P Require Import RpcDispatch.
From S2P Require Import Withdrawals.
From S2P Require Import Settlement.
From S2P Require Import Outbox.
From S2P Require Import RpcExplorer.
From S2P Require Import RpcStatus.
From S2P Require Import Activity.
#[local] Open Scope Z_scope.

(** ** Comparisons that are total orders *)

Record Ordered {A} (c : A -> A -> comparison) : Prop := mkOrdered {
  cmp_refl a : c a a = Eq;
  cmp_eq a b : c a b = Eq -> a = b;
  cmp_opp a b : c b a = CompOpp (c a b);
  cmp_trans a b d : c a b = Lt -> c b d = Lt -> c a d = Lt
}.

Lemma Z_ordered : Ordered Z.compare.
Proof.
  split; [apply Z.compare_refl|apply Z.compare_eq|intros; symmetry; apply Zcompare_antisym|].
  intros a b d. rewrite !Z.compare_lt_iff. lia.
Qed.

Lemma ascii_ordered : Ordered Ascii.compare.
Proof.
  split; unfold Ascii.compare.
  - intros a. apply N.compare_refl.
  - intros a b. apply Ascii.compare_eq_iff.
  - intros a b. apply Ascii.compare_antisym.
  - intros a b d. rewrite !N.compare_lt_iff. lia.
Qed.

Lemma string_ordered : Ordered String.compare.
Proof.
  split.
  - induction a as [|c a IH]; cbn; [done|]. by rewrite (cmp_refl _ ascii_ordered).
  - apply String.compare_eq_iff.
  - intros a b. apply String.compare_antisym.
  - induction a as [|x a IH]; intros [|y b] [|z d]; cbn; try done.
    destruct (Ascii.compare x y) eqn:E1; try done; destruct (Ascii.compare y z) eqn:E2; try done; intros H1 H2.
    + apply (cmp_eq _ ascii_ordered) in E1 as ->. rewrite E2. by eapply IH.
    + apply (cmp_eq _ ascii_ordered) in E1 as ->. by rewrite E2.
    + apply (cmp_eq _ ascii_ordered) in E2 as ->. by rewrite E1.
    + by rewrite (cmp_trans _ ascii_ordered _ _ _ E1 E2).
Qed.

Definition lex {A B} (c : A -> A -> comparison) (d : B -> B -> comparison) (p q : A * B) : comparison :=
  then_compare (c p.1 q.1) (d p.2 q.2).

Lemma lex_ordered {A B} (c : A -> A -> comparison) (d : B -> B -> comparison) :
  Ordered c -> Ordered d -> Ordered (lex c d).
Proof.
  intros Hc Hd. unfold lex. split.
  - intros [a b]. cbn. by rewrite (cmp_refl _ Hc), (cmp_refl _ Hd).
  - intros [a b] [a' b']. cbn. destruct (c a a') eqn:E; try done. cbn. intros E'.
    by rewrite (cmp_eq _ Hc _ _ E), (cmp_eq _ Hd _ _ E').
  - intros [a b] [a' b']. cbn. rewrite (cmp_opp _ Hc), (cmp_opp _ Hd). by destruct (c a a').
  - intros [a b] [a' b'] [a'' b'']. cbn.
    destruct (c a a') eqn:E1; try done; destruct (c a' a'') eqn:E2; try done; cbn; intros H1 H2.
    + apply (cmp_eq _ Hc) in E1 as ->. rewrite E2. by eapply (cmp_trans _ Hd).
    + apply (cmp_eq _ Hc) in E1 as ->. by rewrite E2.
    + apply (cmp_eq _ Hc) in E2 as ->. by rewrite E1.
    + by rewrite (cmp_trans _ Hc _ _ _ E1 E2).
Qed.

Definition key_tuple (k : ActivitySortKey) : Z * (Z * (Z * (Z * (Z * string)))) :=
  (sk_occurred_at k, (sk_chain_rank k, (sk_block_number k, (sk_tx_index k, (sk_log_index k, sk_id k))))).

Lemma key_ordered : Ordered key_compare.
Proof.
  pose proof (lex_ordered _ _ Z_ordered (lex_ordered _ _ Z_ordered (lex_ordered _ _ Z_ordered
    (lex_ordered _ _ Z_ordered (lex_ordered _ _ Z_ordered string_ordered))))) as H.
  set (c := lex Z.compare _) in H. assert (E : forall a b, key_compare a b = c (key_tuple a) (key_tuple b)) by done.
  split.
  - intros a. rewrite E. apply (cmp_refl _ H).
  - intros a b. rewrite E. intros Hc. apply (cmp_eq _ H) in Hc. destruct a, b. unfold key_tuple in Hc. cbn in Hc. congruence.
  - intros a b. rewrite !E. apply (cmp_opp _ H).
  - intros a b d. rewrite !E. apply (cmp_trans _ H).
Qed.

Lemma key_lt_true a b : key_lt a b = true <-> key_compare a b = Lt.
Proof. unfold key_lt. by destruct (key_compare a b). Qed.
Lemma key_lt_irrefl a : key_lt a a = false.
Proof. unfold key_lt. by rewrite (cmp_refl _ key_ordered). Qed.
Lemma key_lt_trans a b d : key_lt a b = true -> key_lt b d = true -> key_lt a d = true.
Proof. rewrite !key_lt_true. apply (cmp_trans _ key_ordered). Qed.
Lemma key_lt_total a b : key_lt a b = false -> key_lt b a = true \/ a = b.
Proof.
  unfold key_lt. rewrite (cmp_opp _ key_ordered a b). destruct (key_compare a b) eqn:E; cbn; try done; [|by left].
  right. by apply (cmp_eq _ key_ordered).
Qed.

(** ** Arranged rows *)

Definition row_lt (a b : ActivityEntry) : bool := key_lt (from_entry a) (from_entry b).
Abbreviation newer_first := (StronglySorted (fun a b => row_lt b a = true)).
Abbreviation not_older := (fun a b => negb (row_lt a b)).

Lemma row_lt_trans_le a b d : row_lt a b = false -> row_lt b d = false -> row_lt a d = false.
Proof.
  unfold row_lt. intros H1 H2. destruct (key_lt (from_entry a) (from_entry d)) eqn:E; [|done].
  apply key_lt_total in H1 as [H1|H1]; [|congruence].
  by rewrite (key_lt_trans _ _ _ H1 E) in H2.
Qed.

Lemma elem_of_insert_rows x y l : y ∈ RpcHistory.insert_by not_older x l <-> y = x \/ y ∈ l.
Proof.
  induction l as [|z l IH]; cbn [RpcHistory.insert_by]; [by rewrite elem_of_cons|].
  destruct (negb (row_lt x z)); rewrite !elem_of_cons; [done|]. rewrite IH. tauto.
Qed.

Lemma sort_entries l :
  StronglySorted (fun a b => row_lt a b = false) (sort_by not_older l) /\ forall x, x ∈ sort_by not_older l <-> x ∈ l.
Proof.
  unfold sort_by. induction l as [|x l [IHs IHe]]; cbn [foldr]; [split; [constructor|done]|].
  split; [|intros y; by rewrite elem_of_insert_rows, IHe, elem_of_cons].
  clear IHe. revert IHs. generalize (foldr (RpcHistory.insert_by not_older) [] l). intros m.
  induction 1 as [|y m Hs IH Hall]; cbn [RpcHistory.insert_by]; [repeat constructor|]. rewrite Forall_forall in Hall.
  destruct (row_lt x y) eqn:E; cbn [negb].
  - constructor; [done|]. apply Forall_forall. intros z [->|Hz]%elem_of_insert_rows; [|by apply Hall].
    destruct (row_lt y x) eqn:E'; [|done]. unfold row_lt in *. pose proof (key_lt_trans _ _ _ E E') as F.
    by rewrite key_lt_irrefl in F.
  - constructor; [constructor; [done|by apply Forall_forall]|]. constructor; [done|]. apply Forall_forall.
    intros z Hz. eapply row_lt_trans_le; [exact E|]. by apply Hall.
Qed.

Abbreviation same_id := (fun a b => String.eqb (ae_id a) (ae_id b)).

Lemma dedup_rows kept l :
  StronglySorted (fun a b => row_lt a b = false) (kept :: l) ->
  newer_first (kept :: dedup_from same_id kept l) /\
  (forall x, x ∈ dedup_from same_id kept l -> x ∈ l) /\
  (forall x, x ∈ l -> exists y, y ∈ kept :: dedup_from same_id kept l /\ ae_id y = ae_id x).
Proof.
  revert kept. induction l as [|y l IH]; intros kept Hs; cbn [dedup_from].
  { split; [repeat constructor|]. split; [done|]. intros x Hx. by apply not_elem_of_nil in Hx. }
  apply StronglySorted_inv in Hs as [Hs Hall]. rewrite Forall_forall in Hall.
  destruct (String.eqb_spec (ae_id y) (ae_id kept)) as [E|E].
  - destruct (IH kept) as (H1 & H2 & H3).
    { apply StronglySorted_inv in Hs as [Hs _]. constructor; [done|]. apply Forall_forall. intros x Hx.
      apply Hall. by right. }
    split; [done|]. split; [intros x Hx; right; by apply H2|].
    intros x [->|Hx]%elem_of_cons; [|by apply H3]. exists kept. split; [left|done].
  - destruct (IH y Hs) as (H1 & H2 & H3). split; [|split].
    + constructor; [done|]. apply Forall_forall.
      assert (Hy : row_lt y kept = true).
      { specialize (Hall y ltac:(left)). unfold row_lt in *. apply key_lt_total in Hall as [|Hk]; [done|].
        apply (f_equal sk_id) in Hk. cbn in Hk. congruence. }
      intros x [->|Hx]%elem_of_cons; [done|]. apply StronglySorted_inv in H1 as [_ H1]. rewrite Forall_forall in H1.
      specialize (H1 x Hx). unfold row_lt in *. by eapply key_lt_trans.
    + intros x [->|Hx]%elem_of_cons; [left|right; by apply H2].
    + intros x [->|Hx]%elem_of_cons; [exists y; split; [right; left|done]|].
      destruct (H3 x Hx) as (z & Hz & Ez). exists z. split; [by right|done].
Qed.

Lemma arrange_spec l :
  newer_first (arrange l) /\ (forall x, x ∈ arrange l -> x ∈ l) /\
  (forall x, x ∈ l -> exists y, y ∈ arrange l /\ ae_id y = ae_id x).
Proof.
  unfold arrange. destruct (sort_entries l) as [Hs He]. unfold row_lt in Hs, He.
  destruct (sort_by _ l) as [|x s]; cbn [dedup_by].
  { split; [constructor|]. split; [intros x []%not_elem_of_nil|]. intros x Hx%He. by apply not_elem_of_nil in Hx. }
  destruct (dedup_rows x s Hs) as (H1 & H2 & H3). split; [done|]. split.
  - intros y [->|Hy]%elem_of_cons; apply He; [left|right; by apply H2].
  - intros y [->|Hy]%He%elem_of_cons; [exists x; split; [left|done]|]. by apply H3.
Qed.

(** ** Cursors *)

Definition key_in_range (k : ActivitySortKey) : Prop :=
  in_u64 (sk_occurred_at k) /\ 0 <= sk_chain_rank k <= 1 /\ in_u64 (sk_block_number k) /\ in_u64 (sk_tx_index k) /\
  in_u64 (sk_log_index k) /\ sk_id k <> EmptyString.

Lemma next_u64_field n rest :
  in_u64 n ->
  next_u64 (Some (String.list_ascii_of_string (String.append (u64_to_string n) (String COLON rest)))) =
    Ok (n, Some (String.list_ascii_of_string rest)).
Proof.
  intros Hn. unfold next_u64. rewrite list_ascii_append. cbn [String.list_ascii_of_string].
  unfold u64_to_string at 1. rewrite String.list_ascii_of_string_of_list_ascii.
  rewrite split_once_digits by (apply digits_range; apply Hn). cbv beta iota.
  fold (u64_to_string n). by rewrite (parse_u64_to_string _ Hn).
Qed.

Lemma sortkey_roundtrip k : key_in_range k -> sortkey_decode (sortkey_encode k) = Ok k.
Proof.
  intros (H1 & H2 & H3 & H4 & H5 & H6). unfold sortkey_decode, sortkey_encode.
  rewrite next_u64_field by done. rewrite next_u64_field by (unfold in_u64, U64_MAX; lia).
  rewrite !next_u64_field by done. destruct (String.list_ascii_of_string (sk_id k)) eqn:E.
  - apply (f_equal String.string_of_list_ascii) in E. rewrite String.string_of_list_ascii_of_string in E. done.
  - rewrite (proj2 (Z.ltb_ge _ _)) by lia. rewrite <-E, String.string_of_list_ascii_of_string. by destruct k.
Qed.

(** ** What a method yields, and what it keeps of its state *)

Section Keeps.
Context {S : Type} (I : S -> Prop).

Definition keeps {T} (m : Api S T) (P : T -> Prop) : Prop :=
  forall s, I s -> match m s with (Ok a, s') => P a /\ I s' | (Err _, s') => I s' end.

Lemma feed_ret {T} (a : T) (P : T -> Prop) : P a -> keeps (aret a) P.
Proof. intros H s Hs. by split. Qed.
Lemma feed_fail {T} e (P : T -> Prop) : keeps (afail e) P.
Proof. by intros s Hs. Qed.
Lemma keeps_query {T} (r : result string T) (P : T -> Prop) : (forall a, r = Ok a -> P a) -> keeps (query r) P.
Proof. intros H s Hs. destruct r as [a|e]; cbn; [|done]. split; [by apply H|done]. Qed.
Lemma feed_bind {T U} (m : Api S T) (f : T -> Api S U) (P : T -> Prop) (Q : U -> Prop) :
  keeps m P -> (forall a, P a -> keeps (f a) Q) -> keeps (abind m f) Q.
Proof.
  intros Hm Hf s Hs. specialize (Hm s Hs). unfold abind. destruct (m s) as [[a|e] s']; [|done].
  destruct Hm as [Ha Hs']. exact (Hf a Ha s' Hs').
Qed.
Lemma keeps_weaken {T} (m : Api S T) (P Q : T -> Prop) : keeps m P -> (forall a, P a -> Q a) -> keeps m Q.
Proof. intros Hm Hi s Hs. specialize (Hm s Hs). destruct (m s) as [[a|e] s']; [|done]. destruct Hm. split; [by apply Hi|done]. Qed.
End Keeps.

(** Steps of which only the state matters. *)
Ltac keeps_any :=
  repeat first
    [ assumption | apply feed_ret; done | apply feed_fail | apply keeps_query; done
    | eapply (feed_bind _ _ _ (fun _ => True)); [|intros ? _]
    | match goal with |- keeps _ (match ?x with _ => _ end) _ => destruct x end ].

Section Status.
Context {S : Type} (I : S -> Prop) (C : Chains) (A : StatusAbi) (portal : Z) (keccak256 : list Z -> Z).
Abbreviation any := (fun _ => True).

Lemma find_requested_keeps caller logs : keeps I (find_requested A caller logs) any.
Proof. induction logs; cbn [find_requested]; keeps_any. Qed.
Lemma find_finalized_keeps logs : keeps I (find_finalized A logs) any.
Proof. induction logs; cbn [find_finalized]; keeps_any. Qed.
Lemma find_submitted_keeps hash logs : keeps I (find_submitted A hash logs) any.
Proof. induction logs; cbn [find_submitted]; keeps_any. Qed.
Lemma scan_ranges_keeps topics requested found logs ranges :
  keeps I (scan_ranges C portal topics requested found logs ranges) any.
Proof. revert found logs. induction ranges as [|[] ? ?]; intros; cbn [scan_ranges]; keeps_any; eauto. Qed.
Lemma candidates_keeps w tag logs : keeps I (terminal_candidates C A w tag logs) any.
Proof. induction logs; cbn [terminal_candidates]; keeps_any. Qed.
Lemma find_bounce_keeps w logs : keeps I (find_bounce A portal w logs) any.
Proof. induction logs; cbn [find_bounce]; keeps_any. Qed.

Lemma status_keeps q auth : keeps I (zone_get_withdrawal_status C A portal keccak256 q auth) any.
Proof.
  pose proof find_requested_keeps. pose proof find_finalized_keeps. pose proof find_submitted_keeps.
  pose proof scan_ranges_keeps. pose proof candidates_keeps. pose proof find_bounce_keeps.
  unfold zone_get_withdrawal_status, find_withdrawal_requested, find_batch_finalized_for_block, find_l1_batch_submitted,
    fetch_batch_logs_by_topics, find_l1_withdrawal_terminal, bounce_back_in_tx.
  keeps_any; eauto.
Qed.
End Status.

(** ** The keys of the rows are 64-bit numbers *)

Definition log_ranged (l : Log) : Prop :=
  in_u64 (default 0 (log_block_number l)) /\ in_u64 (default 0 (log_transaction_index l)) /\ in_u64 (default 0 (log_index l)).

Section Rows.
Context (C : Chains) (A : StatusAbi) (abi_inbox : Log -> result string InboxEvents) (decode_log : Log -> option Event).
Context (eth_logs : Filter -> result string (list Log)) (portal : Z) (keccak256 : list Z -> Z) (head : result string Z).
Hypothesis eth_ranged : forall f ls, eth_logs f = Ok ls -> Forall log_ranged ls.
Hypothesis zone_ranged : forall f ls, zone_get_logs C f = Ok ls -> Forall log_ranged ls.
Hypothesis l1_ranged : forall f ls, l1_get_logs C f = Ok ls -> Forall log_ranged ls.
Hypothesis zone_time : forall n t, zone_block_timestamp C n = Ok (Some t) -> in_u64 t.
Hypothesis l1_time : forall n t, l1_block_timestamp C n = Ok (Some t) -> in_u64 t.

Abbreviation cache_ok := (map_Forall (fun (_ : Z * Z) (t : Z) => in_u64 t)).
Abbreviation row_ok := (fun e : ActivityEntry => key_in_range (from_entry e)).
Abbreviation yields := (keeps cache_ok).

Lemma timestamp_ok chain n : yields (cached_timestamp C chain n) in_u64.
Proof.
  intros cache Hc. unfold cached_timestamp. destruct (cache !! (chain_rank chain, n)) as [t|] eqn:E.
  { split; [by eapply (Hc (_, _))|done]. }
  assert (Hk : yields (activity_block_timestamp C chain n) in_u64).
  { unfold activity_block_timestamp.
    eapply (feed_bind _ _ _ (fun o => match o with Some t => in_u64 t | None => True end)).
    - apply keeps_query. intros [t|]; [|done]. destruct chain; [apply zone_time|apply l1_time].
    - intros [t|] Ht; [by apply feed_ret|apply feed_fail]. }
  specialize (Hk cache Hc). destruct (activity_block_timestamp C chain n cache) as [[t|e] c']; [|done].
  destruct Hk as [Ht Hc']. split; [done|]. by apply map_Forall_insert_2.
Qed.

Lemma source_ranged log chain source :
  log_ranged log -> activity_source log chain = Some source ->
  src_chain source = chain /\ in_u64 (src_block_number source) /\ in_u64 (src_tx_index source) /\ in_u64 (src_log_index source).
Proof.
  unfold activity_source, log_ranged. intros (H1 & H2 & H3).
  destruct (log_block_number log); [|done]. destruct (log_transaction_hash log); [|done]. by intros [= <-].
Qed.

Lemma row_intro id kind at_ updated source payload log chain :
  log_ranged log -> activity_source log chain = Some source -> in_u64 at_ -> id <> EmptyString ->
  row_ok (mkActivity id kind at_ updated source payload).
Proof.
  intros Hl Hs Ht Hid. destruct (source_ranged _ _ _ Hl Hs) as (<- & Hb & Hx & Hi).
  unfold key_in_range, from_entry. cbn. split; [done|]. split; [destruct (src_chain source); cbn; lia|]. done.
Qed.

Lemma collect_rows_ok {T} (body : T -> Api _ (option ActivityEntry)) l :
  (forall x, x ∈ l -> yields (body x) (fun o => match o with Some e => row_ok e | None => True end)) ->
  yields (collect_rows body l) (Forall row_ok).
Proof.
  induction l as [|x l IH]; intros H; cbn [collect_rows]; [by apply feed_ret|].
  eapply feed_bind; [apply H; left|]. intros row Hr. eapply feed_bind; [apply IH; intros y Hy; apply H; by right|].
  intros rows Hrs. apply feed_ret. apply Forall_app. split; [|done]. destruct row; cbn; [by apply Forall_singleton|constructor].
Qed.

Lemma merge_ranged ls : Forall log_ranged ls -> Forall log_ranged (merge_logs ls).
Proof.
  unfold merge_logs. intros H.
  assert (Hd : forall same kept l, Forall log_ranged (kept :: l) -> Forall log_ranged (dedup_from same kept l)).
  { intros same kept l. revert kept. induction l as [|x l IH]; intros kept Hl; cbn; [constructor|].
    inversion Hl as [|? ? H1 H2]; subst. inversion H2; subst. destruct (same x kept); [apply IH; by constructor|].
    constructor; [done|]. by apply IH. }
  set (m := RpcHistory.sort_by _ ls). assert (Hm : Forall log_ranged m) by (unfold m; by rewrite sort_by_Permutation).
  destruct m as [|x m]; [constructor|]. cbn. constructor; [by inversion Hm|]. by apply Hd.
Qed.

Lemma retain_ranged p ls : Forall log_ranged ls -> Forall log_ranged (retain p ls).
Proof. unfold retain. rewrite !Forall_forall. intros H l [_ Hl]%list_elem_of_filter. by apply H. Qed.

Ltac row_steps :=
  repeat first
    [ apply feed_fail | apply feed_ret; done
    | eapply feed_bind; [apply timestamp_ok|intros ? ?]
    | apply feed_ret; eapply row_intro; [eassumption|eassumption|eassumption|done] ].

Lemma order_row_ok lifecycle order_logs order :
  Forall log_ranged lifecycle ->
  yields (order_row C decode_log lifecycle order_logs order) (fun o => match o with Some e => row_ok e | None => True end).
Proof.
  intros Hl. unfold order_row. destruct (find _ lifecycle) as [log|] eqn:Ef; [|by apply feed_ret].
  apply List.find_some in Ef as [Hin _]. rewrite Forall_forall in Hl. specialize (Hl log ltac:(by apply list_elem_of_In)).
  destruct (activity_source log Zone) as [source|] eqn:Es; [|by apply feed_ret]. row_steps.
Qed.

Lemma fill_row_ok log fill :
  log_ranged log -> yields (fill_row C (log, fill)) (fun o => match o with Some e => row_ok e | None => True end).
Proof.
  intros Hl. unfold fill_row. destruct (activity_source log Zone) as [source|] eqn:Es; [|by apply feed_ret]. row_steps.
Qed.

Lemma transfer_row_ok owner log :
  log_ranged log -> yields (transfer_row C owner log) (fun o => match o with Some e => row_ok e | None => True end).
Proof.
  intros Hl. unfold transfer_row. destruct (transfer_entry_from_log log owner); [|by apply feed_ret].
  destruct (activity_source log Zone) as [source|] eqn:Es; [|by apply feed_ret]. row_steps.
Qed.

Lemma deposit_row_ok owner terminals log :
  log_ranged log -> yields (deposit_row C A owner terminals log) (fun o => match o with Some e => row_ok e | None => True end).
Proof.
  intros Hl. unfold deposit_row. eapply (feed_bind _ _ _ (fun _ => True)); [by apply keeps_query|]. intros ev _.
  assert (Hr : forall h k s r b t a m, yields (deposit_row_of C owner terminals log h k s r b t a m)
    (fun o => match o with Some e => row_ok e | None => True end)).
  { intros. unfold deposit_row_of. case_match; [by apply feed_ret|].
    destruct (activity_source log Tempo) as [source|] eqn:Es; [|by apply feed_ret].
    eapply feed_bind; [apply timestamp_ok|intros t0 Ht0]. eapply (feed_bind _ _ _ (fun _ => True)).
    - destruct (terminals !! h); [eapply feed_bind; [apply timestamp_ok|intros ? ?]|]; by apply feed_ret.
    - intros [[[st memo] tx] u] _. row_steps. }
  destruct ev; [apply Hr|apply Hr|by apply feed_ret].
Qed.

Lemma withdrawal_row_ok auth log :
  log_ranged log ->
  yields (withdrawal_row C A portal keccak256 auth log) (fun o => match o with Some e => row_ok e | None => True end).
Proof.
  intros Hl. unfold withdrawal_row. eapply (feed_bind _ _ _ (fun _ => True)); [by apply keeps_query|]. intros ev _.
  case_match; [by apply feed_ret|]. destruct (activity_source log Zone) as [source|] eqn:Es; [|by apply feed_ret].
  eapply feed_bind; [apply timestamp_ok|intros t0 Ht0]. eapply feed_bind; [apply status_keeps|]. intros [st|] _; [|apply feed_fail].
  cbv zeta. eapply (feed_bind _ _ _ (fun _ => True)); [|intros u _; row_steps].
  unfold activity_l1_tx_timestamp, activity_block_timestamp. keeps_any.
Qed.

Lemma missing_logs_ok hashes ls : Forall log_ranged ls -> yields (missing_portal_logs C portal hashes ls) (Forall log_ranged).
Proof.
  revert ls. induction hashes as [|h hashes IH]; intros ls Hls; cbn [missing_portal_logs]; [by apply feed_ret|].
  eapply feed_bind; [apply keeps_query; intros a; apply l1_ranged|]. intros found Hf. apply IH. by apply Forall_app.
Qed.

Lemma terminals_keep logs m : yields (deposit_terminals abi_inbox logs m) (fun _ => True).
Proof. revert m. induction logs as [|log logs IH]; intros m; cbn [deposit_terminals]; keeps_any; eauto. Qed.

Abbreviation rows_of auth := (activity_rows C A abi_inbox decode_log eth_logs portal keccak256 head auth).

Lemma activity_rows_ranged auth : yields (rows_of auth) (fun r => Forall row_ok r.1).
Proof.
  unfold activity_rows.
  do 5 (eapply feed_bind; [apply keeps_query; intros ?; apply eth_ranged|intros ? ?]).
  do 3 (eapply feed_bind; [apply keeps_query; intros ?; apply zone_ranged|intros ? ?]).
  eapply feed_bind; [apply keeps_query; intros ?; apply l1_ranged|intros ? ?].
  do 2 (eapply (feed_bind _ _ _ (fun _ => True)); [by apply keeps_query|intros ? _]). cbv zeta.
  eapply feed_bind; [apply collect_rows_ok; intros ? _; by apply order_row_ok|intros o Ho].
  eapply feed_bind; [apply collect_rows_ok|intros f Hf].
  { intros [log fill] Hin. apply fill_row_ok. unfold fill_rows in Hin. apply elem_of_app in Hin as [Hin|Hin];
      apply list_elem_of_omap in Hin as (l & Hl & E); destruct (fill_entry_from_log _ l _ _); try done;
      injection E as <- <-; unfold retain in Hl; apply list_elem_of_filter in Hl as [_ Hl];
      rewrite !Forall_forall in *; eauto. }
  eapply feed_bind; [apply collect_rows_ok|intros t Ht].
  { intros log Hin. apply transfer_row_ok. revert log Hin. apply Forall_forall, retain_ranged, merge_ranged, Forall_app. done. }
  eapply (feed_bind _ _ _ (fun _ => True)); [apply terminals_keep|intros m _].
  eapply (feed_bind _ _ _ (Forall log_ranged)).
  { unfold all_portal_logs. eapply feed_bind; [by apply missing_logs_ok|]. intros ls Hls. by apply feed_ret, merge_ranged. }
  intros ls Hls. eapply feed_bind; [apply collect_rows_ok|intros d Hd].
  { intros log Hin. apply deposit_row_ok. rewrite Forall_forall in Hls. eauto. }
  eapply feed_bind; [apply collect_rows_ok|intros w Hw].
  { intros log Hin. apply withdrawal_row_ok. rewrite !Forall_forall in *. eauto. }
  apply feed_ret. cbn. by repeat (apply Forall_app; split).
Qed.
End Rows.

(** ** Pages *)

(** Below a row of a list in strictly decreasing order are the rows after it. *)
Lemma retain_below pre x post :
  newer_first (pre ++ x :: post) -> retain (fun e => row_lt e x) (pre ++ x :: post) = post.
Proof.
  induction pre as [|y pre IH]; intros Hs; cbn [app] in *; apply StronglySorted_inv in Hs as [Hs Hall]; rewrite Forall_forall in Hall.
  - unfold retain. rewrite filter_cons_False by (unfold row_lt; by rewrite key_lt_irrefl). fold (retain (fun e => row_lt e x) post).
    clear Hs. unfold retain. induction post as [|z post IH]; [done|].
    rewrite filter_cons_True by (apply Hall; left). f_equal. apply IH. intros e He. apply Hall. by right.
  - unfold retain in *. rewrite filter_cons_False; [by apply IH|]. specialize (Hall x ltac:(set_solver)).
    intros H. unfold row_lt in *. pose proof (key_lt_trans _ _ _ H Hall) as F. by rewrite key_lt_irrefl in F.
Qed.

Lemma retain_sorted p l : newer_first l -> newer_first (retain p l).
Proof.
  unfold retain. induction 1 as [|x l Hs IH Hx]; [constructor|]. rewrite filter_cons. destruct (decide _); [|done].
  constructor; [done|]. rewrite Forall_forall in *. intros y [_ Hy]%list_elem_of_filter. by apply Hx.
Qed.

Lemma retain_twice (c : ActivitySortKey) x l :
  key_lt (from_entry x) c = true ->
  retain (fun e => row_lt e x) (retain (fun e => key_lt (from_entry e) c) l) = retain (fun e => row_lt e x) l.
Proof.
  intros Hx. unfold retain. induction l as [|y l IH]; [done|]. rewrite (filter_cons _ y l).
  destruct (decide (key_lt (from_entry y) c = true)) as [H|H].
  - rewrite !filter_cons. by rewrite IH.
  - rewrite filter_cons_False; [done|]. intros F. apply H. unfold row_lt in F. by eapply key_lt_trans.
Qed.

(** A client that follows the cursors from the newest row. *)
Fixpoint activity_all (fetch : option string -> result JsonRpcError ActivityPage) (fuel : nat) (cursor : option string)
    : option (list ActivityEntry) :=
  match fuel with
  | O => None
  | S fuel' =>
    match fetch cursor with
    | Err _ => None
    | Ok p =>
      match ap_next_cursor p with
      | None => Some (ap_items p)
      | Some c => (fun rest => ap_items p ++ rest) <$> activity_all fetch fuel' (Some c)
      end
    end
  end.

Section Pages.
Context (rows : list ActivityEntry) (indexed : ActivityIndexedThrough) (limit : Z).
Context (fetch : option string -> result JsonRpcError ActivityPage).
Hypothesis rows_ranged : Forall (fun e => key_in_range (from_entry e)) rows.
Hypothesis limit_pos : 0 < limit.
Hypothesis fetch_page : forall cursor c,
  (match cursor with None => Ok None | Some raw => match sortkey_decode raw with Ok k => Ok (Some k) | Err e => Err e end end)
    = Ok c -> fetch cursor = Ok (activity_page limit c rows indexed).

(** What a cursor leaves to list. *)
Definition left_after (cursor : option string) (l : list ActivityEntry) : Prop :=
  exists c, (match cursor with
             | None => Ok None
             | Some raw => match sortkey_decode raw with Ok k => Ok (Some k) | Err e => Err e end
             end) = Ok c /\
    retain_opt c (fun c e => key_lt (from_entry e) c) (arrange rows) = l.

Lemma left_sorted cursor l : left_after cursor l -> newer_first l /\ forall x, x ∈ l -> x ∈ rows.
Proof.
  destruct (arrange_spec rows) as (Hs & Hin & _). intros (c & _ & <-). destruct c as [c|]; cbn [retain_opt].
  - split; [by apply retain_sorted|]. unfold retain. intros x [_ Hx]%list_elem_of_filter. by apply Hin.
  - by split.
Qed.

Lemma pages_left fuel cursor l : left_after cursor l -> (length l < fuel)%nat -> activity_all fetch fuel cursor = Some l.
Proof.
  revert cursor l. induction fuel as [|fuel IH]; intros cursor l Hl Hf; [lia|]. cbn [activity_all].
  destruct (left_sorted _ _ Hl) as [Hs Hin]. destruct Hl as (c & Hc & Hl). rewrite (fetch_page _ _ Hc).
  unfold activity_page. rewrite Hl. cbn [ap_next_cursor ap_items]. destruct (Z.ltb_spec limit (Z.of_nat (length l))) as [Hlt|Hge].
  2:{ by rewrite take_ge by lia. }
  destruct (lookup_lt_is_Some_2 l (Z.to_nat (limit - 1)) ltac:(lia)) as [x Hx]. rewrite Hx. cbn.
  set (post := drop (Z.to_nat limit) l).
  assert (El : l = take (Z.to_nat (limit - 1)) l ++ x :: post).
  { unfold post. replace (Z.to_nat limit) with (Datatypes.S (Z.to_nat (limit - 1))) by lia. symmetry. by apply take_drop_middle. }
  rewrite (IH _ post).
  - cbn. f_equal. apply take_drop.
  - exists (Some (from_entry x)). rewrite sortkey_roundtrip.
    2:{ rewrite Forall_forall in rows_ranged. apply rows_ranged, Hin. by eapply list_elem_of_lookup_2. }
    split; [done|]. cbn [retain_opt]. change (fun e => key_lt (from_entry e) (from_entry x)) with (fun e => row_lt e x).
    transitivity (retain (fun e => row_lt e x) l).
    + rewrite <-Hl. destruct c as [c|]; cbn [retain_opt]; [|done]. symmetry. apply retain_twice.
      assert (Hxl : x ∈ l) by (by eapply list_elem_of_lookup_2). rewrite <-Hl in Hxl. cbn [retain_opt] in Hxl.
      unfold retain in Hxl. by apply list_elem_of_filter in Hxl as [Hxl _].
    + rewrite El. apply retain_below. by rewrite <-El.
  - unfold post. rewrite length_drop. lia.
Qed.
End Pages.

(** C25. Following the cursors of [zone_getMyActivity] ends, on chains that answer
    the same through the requests; the pages together are rows of the caller
    in strictly decreasing order of their keys, and every row the method finds
    is among them, or one with the same id. *)
Theorem activity_pages_complete C A abi_inbox decode_log eth_logs portal keccak256 head auth limit rows indexed cache :
  (forall f ls, eth_logs f = Ok ls -> Forall log_ranged ls) ->
  (forall f ls, zone_get_logs C f = Ok ls -> Forall log_ranged ls) ->
  (forall f ls, l1_get_logs C f = Ok ls -> Forall log_ranged ls) ->
  (forall n t, zone_block_timestamp C n = Ok (Some t) -> in_u64 t) ->
  (forall n t, l1_block_timestamp C n = Ok (Some t) -> in_u64 t) ->
  activity_rows C A abi_inbox decode_log eth_logs portal keccak256 head auth ∅ = (Ok (rows, indexed), cache) ->
  exists all, activity_all (fun cursor => zone_get_my_activity C A abi_inbox decode_log eth_logs portal keccak256 head
      (mkActivityQuery cursor limit) auth) (S (length rows)) None = Some all /\
    newer_first all /\ (forall x, x ∈ all -> x ∈ rows) /\
    (forall x, x ∈ rows -> exists y, y ∈ all /\ ae_id y = ae_id x).
Proof.
  intros He Hz Hl Ht Ht1 Hrun. destruct (arrange_spec rows) as (H1 & H2 & H3). exists (arrange rows). split; [|done].
  pose proof (activity_rows_ranged C A abi_inbox decode_log eth_logs portal keccak256 head He Hz Hl Ht Ht1 auth ∅
    (map_Forall_empty _)) as Hr. rewrite Hrun in Hr. destruct Hr as [Hr _]. cbn in Hr.
  eapply (pages_left rows indexed (clamp_limit limit)); [exact Hr| | | |].
  - unfold clamp_limit. lia.
  - intros cursor c Hc. unfold zone_get_my_activity. cbn [aq_cursor aq_limit]. rewrite Hc, Hrun. done.
  - by exists None.
  - unfold arrange. destruct (sort_entries rows) as [_ _].
    assert (Hd : forall (same : ActivityEntry -> ActivityEntry -> bool) kept l, (length (dedup_from same kept l) <= length l)%nat).
    { intros same kept l. revert kept. induction l as [|x l IH]; intros kept; cbn; [done|]. destruct (same x kept); cbn; [|pose proof (IH x); lia].
      pose proof (IH kept). lia. }
    pose proof (Permutation_length (sort_by_Permutation (fun a b => negb (key_lt (from_entry a) (from_entry b))) rows)) as Hp.
    destruct (RpcHistory.sort_by _ rows) as [|x m]; cbn [dedup_by length] in *; [lia|].
    pose proof (Hd (fun a b => String.eqb (ae_id a) (ae_id b)) x m). lia.
Qed.

(** ** Witness: two transfers, one to a page *)

Module ActivityExamples.
Definition ALICE : Z := 7.
Definition auth : AuthContext := mkAuth ALICE 0 None.
Definition transfer (n : Z) : Log :=
  mkLog 6 [TRANSFER_TOPIC; topic_for_address ALICE; topic_for_address 8] [] None (Some n) None (Some (100 + n)) (Some 0) (Some 2) false.
Definition chains : Chains := {|
  l1_get_logs _ := Ok []; l1_get_block_number := Ok 50; l1_block_timestamp n := Ok (Some 9); l1_transaction_input _ := Ok None;
  l1_receipt _ := Ok None; zone_get_logs _ := Ok []; zone_receipt_logs _ := Ok None; zone_latest_block := Ok None;
  zone_block_by_hash _ := Ok None; zone_block_timestamp n := Ok (if n =? 5 then Some 1000 else if n =? 6 then Some 1012 else None);
  portal_genesis := Ok 5; portal_batch_index := Ok 2; portal_accepted_hash := Ok 52; tempo_state_number := Ok 99
|}.
Definition abi : StatusAbi := mkStatusAbi (fun _ => Ok EvOther) (fun _ => Ok tt) (fun _ => Ok tt) (fun _ => Ok (0, 0)) (fun _ => Ok tt)
  (fun _ => Ok AbiInvalid) (fun _ => Err EmptyString) (fun _ => Err EmptyString) (fun _ => Err EmptyString) (fun _ => Err EmptyString)
  (fun _ => Err EmptyString) (fun _ => None).
Definition index (f : Filter) : result string (list Log) :=
  if bool_decide (f_topic1 f = {[ topic_for_address ALICE ]}) then Ok [transfer 5; transfer 6] else Ok [].
Definition method (cursor : option string) : result JsonRpcError ActivityPage :=
  zone_get_my_activity chains abi (fun _ => Ok InOther) (fun _ => None) index 3 (fun _ => 0) (Ok 6) (mkActivityQuery cursor (Some 1)) auth.

Lemma activity_pages_complete_witness :
  (exists rows indexed cache,
    activity_rows chains abi (fun _ => Ok InOther) (fun _ => None) index 3 (fun _ => 0) (Ok 6) auth ∅ = (Ok (rows, indexed), cache) /\
    (ae_occurred_at <$> rows) = [1000; 1012]) /\
  exists all, activity_all method 3 None = Some all /\
    newer_first all /\ (ae_occurred_at <$> all) = [1012; 1000].
Proof.
  split.
  { eexists _, _, _. split; [vm_compute; reflexivity|]. vm_compute. reflexivity. }
  edestruct (activity_pages_complete chains abi (fun _ => Ok InOther) (fun _ => None) index 3 (fun _ => 0) (Ok 6) auth (Some 1)
    (match (activity_rows chains abi (fun _ => Ok InOther) (fun _ => None) index 3 (fun _ => 0) (Ok 6) auth ∅).1 with Ok r => r.1 | Err _ => [] end))
    as (all & Hall & Hs & _).
  - unfold index. intros f ls. case_bool_decide; intros [= <-]; [|constructor].
    repeat constructor; vm_compute; congruence.
  - intros f ls [= <-]. constructor.
  - intros f ls [= <-]. constructor.
  - intros n t. cbn. repeat case_match; intros [= <-]; vm_compute; split; congruence.
  - intros n t [= <-]. vm_compute. split; congruence.
  - vm_compute. reflexivity.
  - exists all. split; [exact Hall|]. split; [exact Hs|].
    assert (E : activity_all method 3 None = Some all) by exact Hall. revert E. vm_compute. intros [= <-]. reflexivity.
Defined.
End ActivityExamples.
