(* ===== verification/RpcWs.v ===== *)
(** * Private RPC: WebSocket sessions

    rpc/src/ws.rs: the upgrade, the session loop, subscriptions and their
    tasks, and the two subscription streams of node/src/rpc.rs.  A session is
    concurrent: its main loop, the tasks that forward a stream into the bounded
    outbound queue and the writer that empties it.  They share the queue and
    the close flag only, so the model is a transition function on [Conn] whose
    events are the points at which one of them runs; the main loop has two such
    points per message, the dispatch and the queueing of its response.  An
    abort takes effect at once.  Times are milliseconds of one clock. *)

From stdpp Require Import gmap list strings.
From S2P Require Import Prelude.
From S2P Require Import RpcAuth.
From S2P Require Import RpcLogs.
From S2P Require Import RpcHistory.
From S2P Require Import RpcTypes.
From S2P Require Import RpcPolicy.
From S2P Require Import RpcDispatch.
From S2P Require Import NodeRpc.
From S2P Require Import RpcExplorer.
From S2P Require Import Markets.
#[local] Open Scope string_scope.
#[local] Open Scope Z_scope.
#[local] Open Scope api_scope.

Definition MAX_WS_OUTBOUND_QUEUE : nat := 1024.
Definition MAX_WS_SUBSCRIPTIONS : nat := 32.

(** alloy's pubsub parameters. *)
Inductive SubscriptionKind := NewHeads | LogsKind | NewPendingTransactions | SyncingKind | TransactionReceipts.
Inductive SubscriptionParams := ParamsNone | ParamsLogs (f : Filter) | ParamsBool (b : bool) | ParamsReceipts.
Record SubscribeParams := mkSubscribe { sub_kind : SubscriptionKind; sub_params : option SubscriptionParams }.

Record WsQuery := mkWsQuery { wq_token : option string }.

(** A received frame; a binary one carries its text when it is UTF-8. *)
Inductive WsMessage := TextMsg (text : string) | BinaryMsg (text : option string) | CloseMsg | OtherMsg | RecvError.

(** serde_json: the parameters, the serialized responses and notifications. *)
Record WsWire (W : Wire) := mkWsWire {
  de_subscribe : string -> option SubscribeParams;
  de_subscription_id : string -> option (FilterId W);
  filter_id_of_string : string -> FilterId W;
  ws_raw_filter_id : FilterId W -> Raw W;
  ser_response : JsonRpcResponse (Value W) (Raw W) -> string;
  ser_responses : list (JsonRpcResponse (Value W) (Raw W)) -> string;
  ser_notification : FilterId W -> Raw W -> string
}.
Arguments de_subscribe {W}.
Arguments de_subscription_id {W}.
Arguments filter_id_of_string {W}.
Arguments ws_raw_filter_id {W}.
Arguments ser_response {W}.
Arguments ser_responses {W}.
Arguments ser_notification {W}.

(** The methods of the trait that only sessions use. *)
Record WsApi (S Stream : Type) := mkWsApi {
  ws_subscribe_new_heads : AuthContext -> Api S Stream;
  ws_subscribe_logs : Filter -> AuthContext -> Api S Stream;
  get_keychain_key : Z -> Z -> Api S KeyInfo
}.
Arguments ws_subscribe_new_heads {S Stream}.
Arguments ws_subscribe_logs {S Stream}.
Arguments get_keychain_key {S Stream}.

Section Session.
Context {W : Wire} {S Stream : Type}.
Context `{!EqDecision (FilterId W), !Countable (FilterId W)}.
Context (keccak256 : list Z -> Z) (api : ZoneRpcApi W S) (ws : WsApi S Stream) (J : WsWire W).
Context (de_requests : string -> result string (list (JsonRpcRequest W)))
        (de_one : string -> result string (JsonRpcRequest W)).
Abbreviation Response := (JsonRpcResponse (Value W) (Raw W)).

(** The join handle of a task is its number. *)
Record ActiveSubscription := mkActive { active_task : nat }.
Record PendingSubscription := mkPending {
  pending_id : FilterId W;
  pending_stream : Stream;
  pending_items : list (result JsonRpcError (Raw W))   (** yielded since it was opened *)
}.

Record WsSession := mkSession {
  next_subscription_id : Z;
  pending_subscription_count : nat;
  subscriptions : gmap (FilterId W) ActiveSubscription
}.
Definition session_default : WsSession := mkSession 1 0 ∅.

Definition total_subscription_count (s : WsSession) : nat :=
  (pending_subscription_count s + size (subscriptions s))%nat.

Definition take_subscription_id (s : WsSession) : FilterId W * WsSession :=
  (filter_id_of_string J (hex_quantity (next_subscription_id s)),
   mkSession (next_subscription_id s + 1) (pending_subscription_count s) (subscriptions s)).

Definition reserve_subscription_id (s : WsSession) : result JsonRpcError (FilterId W) * WsSession :=
  if (MAX_WS_SUBSCRIPTIONS <=? total_subscription_count s)%nat then
    (Err (invalid_params "too many active subscriptions (32 max)"), s)
  else
    let s := mkSession (next_subscription_id s) (pending_subscription_count s + 1) (subscriptions s) in
    let '(id, s) := take_subscription_id s in (Ok id, s).

Definition activate_subscription (id : FilterId W) (task : nat) (s : WsSession) : WsSession :=
  mkSession (next_subscription_id s) (pending_subscription_count s - 1)
    (<[id := mkActive task]> (subscriptions s)).

(** ** Requests *)

Record WsDispatchResult := mkDispatched { wd_response : Response; wd_pending : list PendingSubscription }.
Definition response_only (r : Response) : WsDispatchResult := mkDispatched r [].

(** [parse_ws_params]: absent parameters read as an empty list. *)
Definition parse_ws_params {A} (parse : string -> option A) (req : JsonRpcRequest W) (msg : string)
    : result JsonRpcError A :=
  match parse (default "[]" (req_params req)) with
  | Some a => Ok a
  | None => Err (invalid_params msg)
  end.

(** The node's part of [eth_subscribe]: the stream, or the error answered. *)
Definition open_stream (kind : SubscriptionKind) (params : option SubscriptionParams) (auth : AuthContext)
    : Api S Stream :=
  match kind with
  | NewHeads =>
    match params with
    | None | Some ParamsNone => ws_subscribe_new_heads ws auth
    | Some _ => afail (invalid_params "eth_subscribe(newHeads) does not accept params")
    end
  | LogsKind =>
    match default ParamsNone params with
    | ParamsNone => ws_subscribe_logs ws filter_default auth
    | ParamsLogs f => ws_subscribe_logs ws f auth
    | ParamsBool _ | ParamsReceipts => afail (invalid_params "eth_subscribe(logs) expects a filter object")
    end
  | NewPendingTransactions | SyncingKind | TransactionReceipts => afail method_disabled
  end.

Definition handle_subscribe (req : JsonRpcRequest W) (auth : AuthContext) (session : WsSession) (s : S)
    : WsDispatchResult * WsSession * S :=
  match parse_ws_params (de_subscribe J) req "expected [subscription, params?]" with
  | Err e => (response_only (error (req_id req) e), session, s)
  | Ok p =>
    match open_stream (sub_kind p) (sub_params p) auth s with
    | (Err e, s) => (response_only (error (req_id req) e), session, s)
    | (Ok stream, s) =>
      match reserve_subscription_id session with
      | (Err e, session) => (response_only (error (req_id req) e), session, s)
      | (Ok id, session) =>
        (mkDispatched (success (req_id req) (ws_raw_filter_id J id)) [mkPending id stream []], session, s)
      end
    end
  end.

(** The task to abort, if any, is returned with the response. *)
Definition handle_unsubscribe (req : JsonRpcRequest W) (session : WsSession)
    : Response * option nat * WsSession :=
  match parse_ws_params (de_subscription_id J) req "expected [subscriptionId]" with
  | Err e => (error (req_id req) e, None, session)
  | Ok id =>
    match subscriptions session !! id with
    | None => (success (req_id req) (raw_bool W false), None, session)
    | Some active =>
      (success (req_id req) (raw_bool W true), Some (active_task active),
       mkSession (next_subscription_id session) (pending_subscription_count session)
         (delete id (subscriptions session)))
    end
  end.

(** Tasks aborted while a message is dispatched. *)
Definition dispatch_ws_request (req : JsonRpcRequest W) (auth : AuthContext) (session : WsSession) (s : S)
    : WsDispatchResult * list nat * WsSession * S :=
  if String.eqb (req_method req) "eth_subscribe" then
    let '(r, session, s) := handle_subscribe req auth session s in (r, [], session, s)
  else if String.eqb (req_method req) "eth_unsubscribe" then
    let '(r, aborted, session) := handle_unsubscribe req session in
    (response_only r, option_list aborted, session, s)
  else let '(r, s) := dispatch keccak256 api req auth s in (response_only r, [], session, s).

Fixpoint dispatch_ws_all (requests : list (JsonRpcRequest W)) (auth : AuthContext) (session : WsSession) (s : S)
    : list Response * list PendingSubscription * list nat * WsSession * S :=
  match requests with
  | [] => ([], [], [], session, s)
  | req :: requests' =>
    let '(r, aborted, session, s) := dispatch_ws_request req auth session s in
    let '(responses, pending, aborted', session, s) := dispatch_ws_all requests' auth session s in
    (wd_response r :: responses, (wd_pending r ++ pending)%list, (aborted ++ aborted')%list, session, s)
  end.

Definition process_ws_text (text : string) (auth : AuthContext) (session : WsSession) (s : S)
    : string * list PendingSubscription * list nat * WsSession * S :=
  let trimmed := trim_start text in
  let failed e := (ser_response J (error (value_null W) e), [], [], session, s) in
  if String.prefix "[" trimmed then
    match de_requests trimmed with
    | Ok requests =>
      if (length requests =? 0)%nat then failed (parse_error "empty batch")
      else if (MAX_BATCH_SIZE <? length requests)%nat then
        failed (invalid_params ("batch too large (" +:+ u64_to_string (Z.of_nat (length requests)) +:+ " > 100)"))
      else
        let '(responses, pending, aborted, session, s) := dispatch_ws_all requests auth session s in
        (ser_responses J responses, pending, aborted, session, s)
    | Err e => failed (parse_error ("parse error: " +:+ e))
    end
  else
    match de_one trimmed with
    | Ok request =>
      let '(r, aborted, session, s) := dispatch_ws_request request auth session s in
      (ser_response J (wd_response r), wd_pending r, aborted, session, s)
    | Err e => failed (parse_error ("parse error: " +:+ e))
    end.

(** ** The session: main loop, tasks and writer *)

Inductive Phase := Waiting | Responding (response_json : string) (pending : list PendingSubscription) | Ended.

(** A task forwards what its stream has yielded and the task not yet taken. *)
Record Task := mkTask { task_subscription : FilterId W; task_stream : Stream; task_items : list (result JsonRpcError (Raw W)) }.

Record Conn := mkConn {
  c_session : WsSession;
  c_phase : Phase;
  c_tasks : gmap nat Task;
  c_next_task : nat;
  c_outbound : list string;
  c_receiver : bool;            (** the writer still receives *)
  c_sent : list string;
  c_close : bool;               (** [close_session] was set *)
  c_next_tick : Z;
  c_node : S
}.

Definition with_phase (p : Phase) (c : Conn) : Conn :=
  mkConn (c_session c) p (c_tasks c) (c_next_task c) (c_outbound c) (c_receiver c) (c_sent c) (c_close c)
    (c_next_tick c) (c_node c).
Definition with_session (s : WsSession) (c : Conn) : Conn :=
  mkConn s (c_phase c) (c_tasks c) (c_next_task c) (c_outbound c) (c_receiver c) (c_sent c) (c_close c)
    (c_next_tick c) (c_node c).
Definition with_tasks (t : gmap nat Task) (c : Conn) : Conn :=
  mkConn (c_session c) (c_phase c) t (c_next_task c) (c_outbound c) (c_receiver c) (c_sent c) (c_close c)
    (c_next_tick c) (c_node c).
Definition with_queue (q : list string) (close : bool) (c : Conn) : Conn :=
  mkConn (c_session c) (c_phase c) (c_tasks c) (c_next_task c) q (c_receiver c) (c_sent c) close
    (c_next_tick c) (c_node c).
Definition with_tick (t : Z) (c : Conn) : Conn :=
  mkConn (c_session c) (c_phase c) (c_tasks c) (c_next_task c) (c_outbound c) (c_receiver c) (c_sent c) (c_close c)
    t (c_node c).
Definition with_node (s : S) (c : Conn) : Conn :=
  mkConn (c_session c) (c_phase c) (c_tasks c) (c_next_task c) (c_outbound c) (c_receiver c) (c_sent c) (c_close c)
    (c_next_tick c) s.

(** The first tick of the interval is due at once. *)
Definition session_start (now : Z) (s : S) : Conn :=
  mkConn session_default Waiting ∅ 0 [] true [] false now s.

(** [try_send]; a full queue asks for the session to close. *)
Definition try_queue_notification (message : string) (c : Conn) : bool * Conn :=
  if negb (c_receiver c) then (false, c)
  else if (MAX_WS_OUTBOUND_QUEUE <=? length (c_outbound c))%nat then (false, with_queue (c_outbound c) true c)
  else (true, with_queue (c_outbound c ++ [message]) (c_close c) c).

Definition abort (tasks : list nat) (c : Conn) : Conn :=
  with_tasks (foldr delete (c_tasks c) tasks) c.

(** [session.cleanup()] and the end of the loop. *)
Definition cleanup (c : Conn) : Conn :=
  with_session session_default (with_phase Ended
    (abort (active_task <$> (map_to_list (subscriptions (c_session c))).*2) c)).

(** [spawn_subscription] and its registration. *)
Definition spawn_subscription (p : PendingSubscription) (c : Conn) : Conn :=
  mkConn (activate_subscription (pending_id p) (c_next_task c) (c_session c)) (c_phase c)
    (<[c_next_task c := mkTask (pending_id p) (pending_stream p) (pending_items p)]> (c_tasks c)) (c_next_task c + 1)
    (c_outbound c) (c_receiver c) (c_sent c) (c_close c) (c_next_tick c) (c_node c).
Definition activate_pending_subscriptions (pending : list PendingSubscription) (c : Conn) : Conn :=
  foldl (fun c p => spawn_subscription p c) c pending.

(** The node's answer at time [now]. *)
Definition keychain_auth_still_valid (auth : AuthContext) (now : Z) (s : S) : bool :=
  match auth_keychain_key_id auth with
  | None => true
  | Some key_id =>
    match (get_keychain_key ws (auth_caller auth) key_id s).1 with
    | Ok info => match validate_keychain_key_info (now / 1000) info with Ok _ => true | Err _ => false end
    | Err _ => false
    end
  end.

(** What one pass of [select!] finds: the clock, when the node answered a
    revalidation ([None]: expiry or a close came first), and the next frame, if
    one is there ([Some None]: the socket has ended). *)
Record Poll := mkPoll { p_now : Z; p_answered : option Z; p_frame : option (option WsMessage) }.

Definition token_expired (auth : AuthContext) (now : Z) : bool := auth_expires_at auth * 1000 <=? now.
Definition KEYCHAIN_RECHECK : Z := 1000.

Definition on_text (auth : AuthContext) (text : string) (c : Conn) : Conn :=
  let '(json, pending, aborted, session, s) := process_ws_text text auth (c_session c) (c_node c) in
  with_node s (with_session session (with_phase (Responding json pending) (abort aborted c))).

Definition on_message (auth : AuthContext) (m : WsMessage) (c : Conn) : Conn :=
  match m with
  | TextMsg text | BinaryMsg (Some text) => on_text auth text c
  | BinaryMsg None =>
    let '(queued, c) := try_queue_notification (ser_response J (error (value_null W) (parse_error "invalid UTF-8"))) c in
    if queued then c else cleanup c
  | CloseMsg | RecvError => cleanup c
  | OtherMsg => c
  end.

(** One pass of the loop: the branches in their order. *)
Definition session_poll (auth : AuthContext) (p : Poll) (c : Conn) : Conn :=
  if token_expired auth (p_now p) then cleanup c
  else if c_close c then cleanup c
  else if bool_decide (is_Some (auth_keychain_key_id auth)) && (c_next_tick c <=? p_now p) then
    let c := with_tick (c_next_tick c + KEYCHAIN_RECHECK) c in
    match p_answered p with
    | Some now => if keychain_auth_still_valid auth now (c_node c) then c else cleanup c
    | None => cleanup c
    end
  else match p_frame p with
  | None => c
  | Some None => cleanup c
  | Some (Some m) => on_message auth m c
  end.

(** The rest of a pass, once the message is dispatched. *)
Definition session_respond (json : string) (pending : list PendingSubscription) (c : Conn) : Conn :=
  let '(queued, c) := try_queue_notification json c in
  if queued then activate_pending_subscriptions pending (with_phase Waiting c) else cleanup c.

(** One round of the body of [spawn_subscription]. *)
Definition task_round (h : nat) (c : Conn) : Conn :=
  match c_tasks c !! h with
  | Some (mkTask id stream (item :: items)) =>
    match item with
    | Ok result =>
      let '(queued, c) := try_queue_notification (ser_notification J id result) c in
      with_tasks (if queued then <[h := mkTask id stream items]> (c_tasks c) else delete h (c_tasks c)) c
    | Err _ => with_tasks (delete h (c_tasks c)) c
    end
  | _ => c
  end.

(** The writer sends the front of the queue, or ends when the send fails. *)
Definition writer_round (ok : bool) (c : Conn) : Conn :=
  match c_receiver c, c_outbound c with
  | true, m :: q =>
    mkConn (c_session c) (c_phase c) (c_tasks c) (c_next_task c) (if ok then q else []) ok
      (if ok then (c_sent c ++ [m])%list else c_sent c) (c_close c) (c_next_tick c) (c_node c)
  | _, _ => c
  end.

(** A notification of the chain reaches every stream that is open. *)
Section Streams.
Context {Canon : Type} (stream_step : Canon -> Stream -> list (result JsonRpcError (Raw W)) * Stream).

Definition feed (n : Canon) (t : Task) : Task :=
  let '(items, stream) := stream_step n (task_stream t) in
  mkTask (task_subscription t) stream (task_items t ++ items).

Definition feed_pending (n : Canon) (p : PendingSubscription) : PendingSubscription :=
  let '(items, stream) := stream_step n (pending_stream p) in
  mkPending (pending_id p) stream (pending_items p ++ items).

Definition feed_phase (n : Canon) (ph : Phase) : Phase :=
  match ph with
  | Responding json pending => Responding json (feed_pending n <$> pending)
  | _ => ph
  end.

Inductive WsEvent :=
  | EPoll (p : Poll)
  | ERespond
  | ETask (h : nat)
  | EWriter (ok : bool)
  | ECanon (n : Canon)
  | ENode (s : S).

Definition ws_step (auth : AuthContext) (e : WsEvent) (c : Conn) : Conn :=
  match e, c_phase c with
  | EPoll p, Waiting => session_poll auth p c
  | ERespond, Responding json pending => session_respond json pending c
  | ETask h, _ => task_round h c
  | EWriter ok, _ => writer_round ok c
  | ECanon n, ph => with_phase (feed_phase n ph) (with_tasks (feed n <$> c_tasks c) c)
  | ENode s, _ => with_node s c
  | _, _ => c
  end.

Definition ws_run (auth : AuthContext) (es : list WsEvent) (c : Conn) : Conn :=
  foldl (fun c e => ws_step auth e c) c es.
End Streams.
End Session.

(** ** The upgrade: the header is preferred to the query parameter *)

Definition ws_token (header : option string) (q : WsQuery) : option string :=
  match header with Some v => Some v | None => wq_token q end.

Definition handle_ws_upgrade (authenticate_token : string -> result AuthenticateError AuthContext)
    (header : option string) (q : WsQuery) : result Z AuthContext :=
  match (match ws_token header q with
         | Some token => authenticate_token token
         | None => Err (Invalid Missing)
         end) with
  | Ok auth => Ok auth
  | Err e => Err (status_code e)
  end.

(** ** The node's streams *)

Section NodeStreams.
Context {W : Wire} {C Reg Bloom Filled Sync Tx : Type}.
Context `{!EqDecision (FilterId W), !Countable (FilterId W)}.
Context (E : Eth W C Reg Bloom Filled Sync Tx).
Context (zone_portal : Z).
(** reth: the logs of a block that match a filter, in block order, marked as
    removed or not; [to_raw] on a header and on a log. *)
Context {BlockReceipts : Type} (matching_block_logs : Filter -> BlockReceipts -> bool -> list Log).
Context (raw_header : Header -> Raw W) (raw_log : Log -> Raw W).

(** A canonical state notification: the headers of the committed blocks, where
    reth could convert them, and the receipts of reverted and new blocks. *)
Record CanonState := mkCanon {
  cs_headers : list (option Header);
  cs_receipts : list (BlockReceipts * bool)
}.

Inductive NodeStream :=
  | HeadsStream
  | LogsStream (f : Filter) (fill_subscription : bool) (caller : Z) (log_redactor : LogOrderingRedactor).

Definition node_ws_subscribe_new_heads (_ : AuthContext) : Api (@Node W C Reg _ _) NodeStream := aret HeadsStream.

Definition node_ws_subscribe_logs (f : Filter) (auth : AuthContext) : Api (@Node W C Reg _ _) NodeStream :=
  let caller := auth_caller auth in
  scoped <- lift_scope (scope_maker_fill_subscription f caller);
  let '(fill_subscription, f) := scoped : bool * Filter in
  if fill_subscription then aret (LogsStream f true caller redactor_default)
  else
    tokens <- zone_tokens E zone_portal;
    f <- lift_scope (scope_filter_addresses f tokens);
    f <- lift_scope (scope_filter_for_caller f caller);
    aret (LogsStream f false caller redactor_default).

Definition sub_visible (fill_subscription : bool) (caller : Z) (log : Log) : bool :=
  if fill_subscription then (log_address log =? DARKPOOL_ADDRESS) && caller_is_party log caller
  else is_log_visible log caller.

(** [filter_map] over the logs, with the redactor as its state. *)
Fixpoint stream_logs (fill_subscription : bool) (caller : Z) (r : LogOrderingRedactor) (logs : list Log)
    : list Log * LogOrderingRedactor :=
  match logs with
  | [] => ([], r)
  | log :: rest =>
    if sub_visible fill_subscription caller log then
      let '(log', r) := redact r log in
      let '(out, r) := stream_logs fill_subscription caller r rest in (log' :: out, r)
    else stream_logs fill_subscription caller r rest
  end.

Definition node_stream_step (n : CanonState) (st : NodeStream) : list (result JsonRpcError (Raw W)) * NodeStream :=
  match st with
  | HeadsStream => ((fun h => Ok (raw_header (redact_header h))) <$> omap id (cs_headers n), HeadsStream)
  | LogsStream f fill caller r =>
    let all_logs := concat ((fun br => matching_block_logs f br.1 br.2) <$> cs_receipts n) in
    let '(out, r) := stream_logs fill caller r all_logs in
    ((fun log => Ok (raw_log log)) <$> out, LogsStream f fill caller r)
  end.
End NodeStreams.
