(* ===== verification/RpcWsProofs.v ===== *)
(** * WebSocket sessions: properties

    Sessions stay within their limits and leak no task, requests are served
    only while the caller's credentials hold, and a live log subscription
    delivers what polling would. *)

From stdpp Require Import gmap list strings.
From S2P Require Import Prelude.
From S2P Require Import RpcAuth.
From S2P Require Import RpcLogs.
From S2P Require Import RpcTypes.
From S2P Require Import RpcDispatch.
From S2P Require Import RpcExplorer.
From S2P Require Import NodeRpc.
From S2P Require Import NodeRpcProofs.
From S2P Require Import Markets.
From S2P Require Import MarketsProofs.
From S2P Require Import RpcLogsProofs.
From S2P Require Import RpcWs.
#[local] Open Scope Z_scope.

Lemma lookup_foldr_delete {K A} `{Countable K} (m : gmap K A) l k :
  foldr delete m l !! k = if decide (k ∈ l) then None else m !! k.
Proof.
  induction l as [|x l IH]; cbn.
  - destruct (decide _) as [Hk|]; [by apply not_elem_of_nil in Hk|done].
  - destruct (decide (x = k)) as [->|Hne].
    + rewrite lookup_delete_eq. rewrite decide_True by set_solver. done.
    + rewrite lookup_delete_ne by done. rewrite IH. destruct (decide (k ∈ l)), (decide (k ∈ x :: l)); set_solver.
Qed.

(** ** The state of a session *)

Section Limits.
Context {W : Wire} {S Stream : Type}.
Context `{!EqDecision (FilterId W), !Countable (FilterId W)}.
Context (keccak256 : list Z -> Z) (api : ZoneRpcApi W S) (ws : WsApi S Stream) (J : WsWire W).
Context (de_requests : string -> result string (list (JsonRpcRequest W)))
        (de_one : string -> result string (JsonRpcRequest W)).
Context (fid_inj : Inj (=) (=) (filter_id_of_string J)).
Abbreviation Task := (@Task W Stream).
Abbreviation Pending := (@PendingSubscription W Stream).

Definition fid (k : Z) : FilterId W := filter_id_of_string J (hex_quantity k).

Lemma fid_injective k k' : in_u64 k -> in_u64 k' -> fid k = fid k' -> k = k'.
Proof. intros Hk Hk' H. apply fid_inj in H. by apply hex_quantity_inj. Qed.

(** The session's table against its reserved subscriptions and its tasks;
    identifiers are below [n], handles below [next]. *)
Record sess_ok (n : Z) (next : nat) (tasks : gmap nat Task) (pending : list Pending) (s : WsSession) : Prop := mkOk {
  so_pending : pending_subscription_count s = length pending;
  so_total : (total_subscription_count s <= MAX_WS_SUBSCRIPTIONS)%nat;
  so_next : 1 <= next_subscription_id s <= n;
  so_ids : forall id, id ∈ dom (subscriptions s) \/ id ∈ pending_id <$> pending ->
    exists k, 1 <= k < next_subscription_id s /\ id = fid k;
  so_nodup : NoDup (pending_id <$> pending);
  so_disjoint : forall id, id ∈ pending_id <$> pending -> subscriptions s !! id = None;
  so_tasks : forall h t, tasks !! h = Some t -> subscriptions s !! task_subscription t = Some (mkActive h);
  so_handles : forall id a, subscriptions s !! id = Some a -> (active_task a < next)%nat
}.

Lemma default_ok n next : 1 <= n -> sess_ok n next ∅ [] session_default.
Proof.
  intros Hn. constructor; cbn; try done; try lia.
  - unfold total_subscription_count, MAX_WS_SUBSCRIPTIONS. cbn. rewrite map_size_empty. lia.
  - intros id [H|H]; [by rewrite dom_empty in H; set_solver|set_solver].
  - constructor.
Qed.

Lemma sess_ok_mono n n' next tasks pending s : n <= n' -> sess_ok n next tasks pending s -> sess_ok n' next tasks pending s.
Proof. intros Hn []. constructor; try done. lia. Qed.

Lemma reserve_ok n next tasks pending s r s' stream :
  n < U64_MAX -> sess_ok n next tasks pending s -> reserve_subscription_id J s = (r, s') ->
  match r with
  | Ok id => sess_ok (n + 1) next tasks (pending ++ [mkPending id stream []]) s'
  | Err _ => s' = s
  end.
Proof.
  intros Hn [H1 H2 H3 H4 H5 H6 H7 H8]. unfold reserve_subscription_id.
  destruct (Nat.leb_spec MAX_WS_SUBSCRIPTIONS (total_subscription_count s)) as [Hle|Hlt]; intros [= <- <-]; [done|].
  fold (fid (next_subscription_id s)).
  assert (Hfresh : forall k, 1 <= k < next_subscription_id s -> fid (next_subscription_id s) <> fid k).
  { intros k Hk E. apply fid_injective in E; unfold in_u64 in *; lia. }
  constructor; cbn; rewrite ?length_app, ?fmap_app; cbn.
  - lia.
  - unfold total_subscription_count in *. cbn. lia.
  - lia.
  - intros id Hid. rewrite elem_of_app, list_elem_of_singleton in Hid.
    destruct Hid as [Hid|[Hid| ->]]; [| |exists (next_subscription_id s); split; [lia|done]].
    all: destruct (H4 id) as (k & ? & ?); [auto|exists k; split; [lia|done]].
  - apply NoDup_app. split; [done|]. split; [|apply NoDup_singleton].
    intros id Hid E%list_elem_of_singleton. destruct (H4 id (or_intror Hid)) as (k & Hk & Ek).
    apply (Hfresh k Hk). congruence.
  - intros id Hid. rewrite elem_of_app, list_elem_of_singleton in Hid. destruct Hid as [Hid| ->]; [by apply H6|].
    apply not_elem_of_dom. intros Hd. destruct (H4 _ (or_introl Hd)) as (k & Hk & Ek). by apply (Hfresh k Hk).
  - done.
  - done.
Qed.

Lemma unsubscribe_ok n next tasks pending s req r aborted s' :
  sess_ok n next tasks pending s -> handle_unsubscribe J req s = (r, aborted, s') ->
  sess_ok n next (foldr delete tasks (option_list aborted)) pending s'.
Proof.
  intros Hok. unfold handle_unsubscribe. destruct (parse_ws_params _ _ _) as [id|e]; [|by intros [= <- <- <-]].
  destruct (subscriptions s !! id) as [active|] eqn:E; intros [= <- <- <-]; [|done].
  destruct Hok as [H1 H2 H3 H4 H5 H6 H7 H8]. constructor; cbn [subscriptions pending_subscription_count next_subscription_id]; try done.
  - unfold total_subscription_count in *. cbn. pose proof (map_size_delete id (subscriptions s)).
    rewrite E in *. lia.
  - intros id' [Hd|Hp]; [|auto]. apply H4. left. set_solver.
  - intros id' Hp. rewrite lookup_delete_None. right. auto.
  - intros h t. cbn. destruct (decide (h = active_task active)) as [->|Hne];
      [by rewrite lookup_delete_eq|rewrite lookup_delete_ne by done].
    intros Ht. pose proof (H7 h t Ht) as Hs. rewrite lookup_delete_ne; [done|].
    intros Hid. rewrite <-Hid, E in Hs. injection Hs as ->. done.
  - intros id' a Ha. apply lookup_delete_Some in Ha as [_ Ha]. eauto.
Qed.

Lemma dispatch_ok n next tasks pending s st req auth r aborted s' st' :
  n < U64_MAX -> sess_ok n next tasks pending s ->
  dispatch_ws_request keccak256 api ws J req auth s st = (r, aborted, s', st') ->
  sess_ok (n + 1) next (foldr delete tasks aborted) (pending ++ wd_pending r) s'.
Proof.
  intros Hn Hok. unfold dispatch_ws_request. destruct (String.eqb _ _).
  - unfold handle_subscribe. destruct (parse_ws_params _ _ _) as [p|e];
      [|intros [= <- <- <- <-]; cbn [wd_pending response_only foldr]; rewrite app_nil_r; eapply sess_ok_mono; [|done]; lia].
    destruct (open_stream _ _ _ _ _) as [[stream|e] st1];
      [|intros [= <- <- <- <-]; cbn [wd_pending response_only foldr]; rewrite app_nil_r; eapply sess_ok_mono; [|done]; lia].
    destruct (reserve_subscription_id J s) as [[id|e] s1] eqn:Er;
      pose proof (reserve_ok _ _ _ _ _ _ _ stream Hn Hok Er) as Hr; intros [= <- <- <- <-]; cbn [wd_pending response_only foldr]; [done|].
    cbv iota in Hr. subst s1. rewrite app_nil_r. eapply sess_ok_mono; [|done]. lia.
  - destruct (String.eqb _ _).
    + destruct (handle_unsubscribe J req s) as [[r1 ab1] s1] eqn:Eu. intros [= <- <- <- <-]. cbn [wd_pending response_only foldr]. rewrite app_nil_r.
      eapply sess_ok_mono; [|by eapply unsubscribe_ok]. lia.
    + destruct (dispatch _ _ _ _ _) as [r1 st1]. intros [= <- <- <- <-]. cbn [wd_pending response_only foldr]. rewrite app_nil_r.
      eapply sess_ok_mono; [|done]. lia.
Qed.

Lemma foldr_delete_app {A} (m : gmap nat A) a b : foldr delete (foldr delete m a) b = foldr delete m (a ++ b).
Proof.
  apply map_eq. intros k. rewrite !lookup_foldr_delete.
  destruct (decide (k ∈ b)), (decide (k ∈ a)), (decide (k ∈ a ++ b)); set_solver.
Qed.

Lemma dispatch_all_ok requests n next tasks pending s st auth rs pend aborted s' st' :
  n + Z.of_nat (length requests) <= U64_MAX -> sess_ok n next tasks pending s ->
  dispatch_ws_all keccak256 api ws J requests auth s st = (rs, pend, aborted, s', st') ->
  sess_ok (n + Z.of_nat (length requests)) next (foldr delete tasks aborted) (pending ++ pend) s'.
Proof.
  revert n tasks pending s st rs pend aborted. induction requests as [|req requests IH];
    intros n tasks pending s st rs pend aborted Hn Hok; cbn [dispatch_ws_all length].
  - intros [= <- <- <- <- <-]. rewrite app_nil_r. eapply sess_ok_mono; [|done]. cbn. lia.
  - destruct (dispatch_ws_request _ _ _ _ _ _ _) as [[[r ab] s1] st1] eqn:Er.
    destruct (dispatch_ws_all _ _ _ _ _ _ _) as [[[[rs1 pend1] ab1] s2] st2] eqn:Ea. intros [= <- <- <- <- <-].
    cbn [length] in Hn. rewrite app_assoc, <-foldr_delete_app.
    replace (n + Z.of_nat (Datatypes.S (length requests))) with (n + 1 + Z.of_nat (length requests)) by lia.
    eapply IH; [lia| |exact Ea]. eapply dispatch_ok; [lia|done|exact Er].
Qed.

Lemma process_ok text n next tasks s st auth json pend aborted s' st' :
  n + Z.of_nat MAX_BATCH_SIZE <= U64_MAX -> sess_ok n next tasks [] s ->
  process_ws_text keccak256 api ws J de_requests de_one text auth s st = (json, pend, aborted, s', st') ->
  sess_ok (n + Z.of_nat MAX_BATCH_SIZE) next (foldr delete tasks aborted) pend s'.
Proof.
  intros Hn Hok. unfold process_ws_text, MAX_BATCH_SIZE in *.
  assert (Hsame : sess_ok (n + Z.of_nat 100) next tasks [] s) by (eapply sess_ok_mono; [|done]; lia).
  destruct (String.prefix _ _).
  - destruct (de_requests _) as [requests|e]; [|by intros [= <- <- <- <- <-]].
    destruct (_ =? 0)%nat; [by intros [= <- <- <- <- <-]|].
    destruct (Nat.ltb_spec 100 (length requests)) as [|Hlen]; [by intros [= <- <- <- <- <-]|].
    destruct (dispatch_ws_all _ _ _ _ _ _ _) as [[[[rs1 pend1] ab1] s2] st2] eqn:Ea. intros [= <- <- <- <- <-].
    eapply sess_ok_mono; [|eapply (dispatch_all_ok requests n _ _ []); [|exact Hok|exact Ea]]; lia.
  - destruct (de_one _) as [req|e]; [|by intros [= <- <- <- <- <-]].
    destruct (dispatch_ws_request _ _ _ _ _ _ _) as [[[r ab] s1] st1] eqn:Er. intros [= <- <- <- <- <-].
    eapply sess_ok_mono; [|eapply (dispatch_ok n _ _ []); [|exact Hok|exact Er]]; lia.
Qed.

(** ** The session as a whole *)

Abbreviation Conn := (@Conn W S Stream _ _).

Definition conn_ok (n : Z) (c : Conn) : Prop :=
  (length (c_outbound c) <= MAX_WS_OUTBOUND_QUEUE)%nat /\
  match c_phase c with
  | Waiting => sess_ok n (c_next_task c) (c_tasks c) [] (c_session c)
  | Responding _ pending => sess_ok n (c_next_task c) (c_tasks c) pending (c_session c)
  | Ended => c_tasks c = ∅ /\ c_session c = session_default
  end.

(** Fewer tasks, or the same ones with other items, keep the table right. *)
Lemma sess_ok_tasks n next tasks tasks' pending s :
  sess_ok n next tasks pending s ->
  (forall h t, tasks' !! h = Some t -> exists t0, tasks !! h = Some t0 /\ task_subscription t0 = task_subscription t) ->
  sess_ok n next tasks' pending s.
Proof.
  intros [H1 H2 H3 H4 H5 H6 H7 H8] Hsub. constructor; try done.
  intros h t Ht. destruct (Hsub h t Ht) as (t0 & H0 & <-). by apply H7.
Qed.

Lemma cleanup_ok n n' pending (c : Conn) :
  (length (c_outbound c) <= MAX_WS_OUTBOUND_QUEUE)%nat ->
  sess_ok n (c_next_task c) (c_tasks c) pending (c_session c) -> conn_ok n' (cleanup c).
Proof.
  intros Hq Hok. split; [exact Hq|]. cbn. split; [|done]. apply map_eq. intros h. rewrite lookup_foldr_delete, lookup_empty.
  destruct (decide _) as [|Hnin]; [done|]. destruct (c_tasks c !! h) as [t|] eqn:E; [|done]. exfalso. apply Hnin.
  apply (so_tasks _ _ _ _ _ Hok) in E. apply list_elem_of_fmap. exists (mkActive h). split; [done|].
  apply list_elem_of_fmap. exists (task_subscription t, mkActive h). split; [done|]. by apply elem_of_map_to_list.
Qed.

Lemma try_queue_spec message (c : Conn) queued c' :
  (length (c_outbound c) <= MAX_WS_OUTBOUND_QUEUE)%nat -> try_queue_notification message c = (queued, c') ->
  exists q close, c' = with_queue q close c /\ (length q <= MAX_WS_OUTBOUND_QUEUE)%nat /\
    (queued = true -> q = c_outbound c ++ [message]).
Proof.
  intros Hq. unfold try_queue_notification. destruct (c_receiver c) eqn:Er; cbn [negb].
  2:{ intros [= <- <-]. exists (c_outbound c), (c_close c). destruct c; cbn in *. by subst. }
  destruct (Nat.leb_spec MAX_WS_OUTBOUND_QUEUE (length (c_outbound c))) as [Hle|Hlt]; intros [= <- <-].
  - by exists (c_outbound c), true.
  - eexists _, _. split; [done|]. split; [|done]. rewrite length_app. cbn [length]. lia.
Qed.

Lemma spawn_ok n (p : Pending) pending (c : Conn) :
  sess_ok n (c_next_task c) (c_tasks c) (p :: pending) (c_session c) ->
  let c' := spawn_subscription p c in sess_ok n (c_next_task c') (c_tasks c') pending (c_session c').
Proof.
  intros [H1 H2 H3 H4 H5 H6 H7 H8]. cbn in H1.
  assert (Hp : subscriptions (c_session c) !! pending_id p = None) by (apply H6; cbn; set_solver).
  cbn in H5. apply NoDup_cons in H5 as [H5a H5b].
  constructor; cbn [spawn_subscription c_next_task c_tasks c_session activate_subscription subscriptions
    pending_subscription_count next_subscription_id].
  - lia.
  - unfold total_subscription_count in *. cbn. rewrite map_size_insert_None by done. lia.
  - done.
  - intros id Hid. apply H4. rewrite dom_insert in Hid. cbn. set_solver.
  - done.
  - intros id Hid. rewrite lookup_insert_ne; [apply H6; cbn; set_solver|]. intros E. subst id. done.
  - intros h t Ht. apply lookup_insert_Some in Ht as [[<- <-]|[Hh Ht]]; cbn; [by rewrite lookup_insert_eq|].
    rewrite lookup_insert_ne; [by apply H7|]. intros E. apply H7 in Ht. rewrite <-E in Ht. congruence.
  - intros id a Ha. apply lookup_insert_Some in Ha as [[_ <-]|[_ Ha]]; cbn; [lia|]. apply H8 in Ha. lia.
Qed.

Lemma activate_ok n pending (c : Conn) :
  sess_ok n (c_next_task c) (c_tasks c) pending (c_session c) ->
  let c' := activate_pending_subscriptions pending c in
  sess_ok n (c_next_task c') (c_tasks c') [] (c_session c') /\ c_phase c' = c_phase c /\ c_outbound c' = c_outbound c.
Proof.
  revert c. induction pending as [|p pending IH]; intros c Hok; [done|].
  cbn [activate_pending_subscriptions foldl]. destruct (IH (spawn_subscription p c)) as (H1 & H2 & H3); [by apply spawn_ok|].
  done.
Qed.

Lemma poll_ok n auth p (c : Conn) :
  n + Z.of_nat MAX_BATCH_SIZE <= U64_MAX -> conn_ok n c -> c_phase c = Waiting ->
  conn_ok (n + Z.of_nat MAX_BATCH_SIZE) (session_poll keccak256 api ws J de_requests de_one auth p c).
Proof.
  intros Hn [Hq Hok] Hph. rewrite Hph in Hok.
  assert (Hend : forall m, conn_ok m (cleanup c)) by (intros m; by eapply cleanup_ok).
  assert (Hmono : sess_ok (n + Z.of_nat MAX_BATCH_SIZE) (c_next_task c) (c_tasks c) [] (c_session c))
    by (eapply sess_ok_mono; [|done]; lia).
  assert (Hsame : forall t, conn_ok (n + Z.of_nat MAX_BATCH_SIZE) (with_tick t c))
    by (intros t; split; [done|cbn; by rewrite Hph]).
  unfold session_poll. destruct (token_expired _ _); [done|]. destruct (c_close c); [done|].
  destruct (_ && _).
  { assert (Hend' : conn_ok (n + Z.of_nat MAX_BATCH_SIZE) (cleanup (with_tick (c_next_tick c + KEYCHAIN_RECHECK) c)))
      by (by eapply cleanup_ok).
    destruct (p_answered p); [|done]. by destruct (keychain_auth_still_valid _ _ _ _). }
  assert (Hid : conn_ok (n + Z.of_nat MAX_BATCH_SIZE) c) by (split; [done|by rewrite Hph]).
  destruct (p_frame p) as [[m|]|]; [|done|done].
  assert (Htext : forall text, conn_ok (n + Z.of_nat MAX_BATCH_SIZE)
    (on_text keccak256 api ws J de_requests de_one auth text c)).
  { intros text. unfold on_text. destruct (process_ws_text _ _ _ _ _ _ _ _ _ _) as [[[[json pend] ab] s1] st1] eqn:E.
    split; [done|]. cbn. by eapply process_ok. }
  destruct m as [text|[text|]| | |]; cbn [on_message]; try done.
  destruct (try_queue_notification _ c) as [queued c'] eqn:E. apply try_queue_spec in E as (q & cl & -> & Hq' & _); [|done].
  destruct queued; [split; [done|cbn; by rewrite Hph]|]. by eapply cleanup_ok.
Qed.

Lemma respond_ok n json pending (c : Conn) :
  conn_ok n c -> c_phase c = Responding json pending -> conn_ok n (session_respond json pending c).
Proof.
  intros [Hq Hok] Hph. rewrite Hph in Hok. unfold session_respond.
  destruct (try_queue_notification _ c) as [queued c'] eqn:E. apply try_queue_spec in E as (q & cl & -> & Hq' & _); [|done].
  destruct queued; [|by eapply cleanup_ok].
  destruct (activate_ok n pending (with_phase Waiting (with_queue q cl c)) Hok) as (H1 & H2 & H3).
  split; [by rewrite H3|]. rewrite H2. done.
Qed.

(** An event that keeps the phase and the table, and adds no task. *)
Lemma conn_ok_tasks n (c c' : Conn) :
  conn_ok n c -> (length (c_outbound c') <= MAX_WS_OUTBOUND_QUEUE)%nat ->
  c_phase c' = c_phase c -> c_session c' = c_session c -> c_next_task c' = c_next_task c ->
  (forall h t, c_tasks c' !! h = Some t ->
     exists t0, c_tasks c !! h = Some t0 /\ task_subscription t0 = task_subscription t) ->
  conn_ok n c'.
Proof.
  intros [Hq Hok] Hq' Hph Hs Hn Ht. split; [done|]. rewrite Hph, Hs, Hn.
  destruct (c_phase c); [by eapply sess_ok_tasks|by eapply sess_ok_tasks|]. destruct Hok as [E Hs0]. split; [|done].
  apply map_eq. intros h. destruct (c_tasks c' !! h) as [t|] eqn:El; [|done].
  destruct (Ht h t El) as (t0 & E0 & _). by rewrite E, lookup_empty in E0.
Qed.

Lemma task_round_ok n h (c : Conn) : conn_ok n c -> conn_ok n (task_round J h c).
Proof.
  intros Hok. unfold task_round. destruct (c_tasks c !! h) as [[id stream [|[result|e] items]]|] eqn:E; try done.
  - destruct (try_queue_notification _ c) as [queued c'] eqn:Eq.
    apply try_queue_spec in Eq as (q & cl & -> & Hq' & _); [|apply Hok].
    eapply conn_ok_tasks; [done|done|done|done|done|]. intros h' t. cbn. destruct queued.
    + intros Ht. apply lookup_insert_Some in Ht as [[<- <-]|[_ Ht]]; eauto.
    + intros Ht. apply lookup_delete_Some in Ht as [_ Ht]. eauto.
  - eapply conn_ok_tasks; [done|apply Hok|done|done|done|]. intros h' t. cbn.
    intros Ht. apply lookup_delete_Some in Ht as [_ Ht]. eauto.
Qed.

Section Runs.
Context {Canon : Type} (stream_step : Canon -> Stream -> list (result JsonRpcError (Raw W)) * Stream).
Abbreviation step := (ws_step keccak256 api ws J de_requests de_one stream_step).
Abbreviation run := (ws_run keccak256 api ws J de_requests de_one stream_step).

Lemma feed_pending_id n p : pending_id (feed_pending stream_step n p) = pending_id p.
Proof. unfold feed_pending. by destruct (stream_step n (pending_stream p)). Qed.
Lemma feed_subscription n t : task_subscription (feed stream_step n t) = task_subscription t.
Proof. unfold feed. by destruct (stream_step n (task_stream t)). Qed.

Lemma canon_ok n k (c : Conn) :
  conn_ok n c -> conn_ok n (with_phase (feed_phase stream_step k (c_phase c)) (with_tasks (feed stream_step k <$> c_tasks c) c)).
Proof.
  intros Hok. assert (H : conn_ok n (with_tasks (feed stream_step k <$> c_tasks c) c)).
  { eapply conn_ok_tasks; [done|apply Hok|done|done|done|]. intros h t. cbn. rewrite lookup_fmap_Some.
    intros (t0 & <- & Ht). exists t0. by rewrite feed_subscription. }
  destruct H as [Hq H]. split; [done|]. cbn in *. destruct (c_phase c) as [|json pending|]; [done| |done]. cbn.
  assert (Hids : pending_id <$> (feed_pending stream_step k <$> pending) = pending_id <$> pending).
  { rewrite <-list_fmap_compose. apply list_fmap_ext. intros i p _. apply feed_pending_id. }
  destruct H as [H1 H2 H3 H4 H5 H6 H7 H8]. constructor; rewrite ?Hids, ?length_fmap; done.
Qed.

Lemma step_ok n auth e (c : Conn) :
  n + Z.of_nat MAX_BATCH_SIZE <= U64_MAX -> conn_ok n c -> conn_ok (n + Z.of_nat MAX_BATCH_SIZE) (step auth e c).
Proof.
  intros Hn Hok. assert (Hm : conn_ok (n + Z.of_nat MAX_BATCH_SIZE) c).
  { destruct Hok as [Hq Hok]. split; [done|]. destruct (c_phase c); [| |done]; (eapply sess_ok_mono; [|done]; lia). }
  destruct e as [p| |h|ok|k|s]; cbn [ws_step].
  - destruct (c_phase c) eqn:E; [by apply poll_ok|done|done].
  - destruct (c_phase c) eqn:E; [done|by apply respond_ok|done].
  - by apply task_round_ok.
  - unfold writer_round. destruct (c_receiver c), (c_outbound c) as [|m q] eqn:E; try done.
    eapply conn_ok_tasks; [done| |done|done|done|]; [|by eauto].
    destruct Hm as [Hq _]. rewrite E in Hq. cbn in *. destruct ok; cbn; lia.
  - by apply canon_ok.
  - eapply conn_ok_tasks; [done|apply Hm|done|done|done|by eauto].
Qed.

Lemma run_ok auth es now s :
  1 + Z.of_nat (length es) * Z.of_nat MAX_BATCH_SIZE <= U64_MAX ->
  conn_ok (1 + Z.of_nat (length es) * Z.of_nat MAX_BATCH_SIZE) (run auth es (session_start now s)).
Proof.
  induction es as [|e es IH] using rev_ind; intros Hn.
  - split; [cbn; lia|]. apply default_ok. cbn. lia.
  - rewrite length_app in *. cbn [length] in *. unfold ws_run. rewrite foldl_app. cbn [foldl].
    replace (1 + Z.of_nat (length es + 1) * Z.of_nat MAX_BATCH_SIZE)
      with (1 + Z.of_nat (length es) * Z.of_nat MAX_BATCH_SIZE + Z.of_nat MAX_BATCH_SIZE) in * by lia.
    apply step_ok; [lia|]. apply IH. lia.
Qed.
End Runs.
End Limits.

(** C31. Whatever the client sends, the chain yields and the socket does, a session
    never queues more than 1024 messages nor holds more than 32 subscriptions;
    every running task is the registered task of the subscription it notifies,
    so none outlives an unsubscription, and none outlives the session. *)
Theorem ws_session_bounded {W : Wire} {S Stream : Type} `{!EqDecision (FilterId W), !Countable (FilterId W)}
    keccak256 (api : ZoneRpcApi W S) (ws : WsApi S Stream) (J : WsWire W) de_requests de_one
    {Canon : Type} (stream_step : Canon -> Stream -> list (result JsonRpcError (Raw W)) * Stream) auth es now s :
  Inj (=) (=) (filter_id_of_string J) ->
  1 + Z.of_nat (length es) * Z.of_nat MAX_BATCH_SIZE <= U64_MAX ->
  let c := ws_run keccak256 api ws J de_requests de_one stream_step auth es (session_start now s) in
  (length (c_outbound c) <= MAX_WS_OUTBOUND_QUEUE)%nat /\
  (total_subscription_count (c_session c) <= MAX_WS_SUBSCRIPTIONS)%nat /\
  (forall h t, c_tasks c !! h = Some t -> subscriptions (c_session c) !! task_subscription t = Some (mkActive h)) /\
  (c_phase c = Ended -> c_tasks c = ∅).
Proof.
  intros Hinj Hn c. destruct (run_ok keccak256 api ws J de_requests de_one Hinj stream_step auth es now s Hn) as [Hq Hok].
  fold c in Hq, Hok. split; [done|]. destruct (c_phase c).
  - split_and!; [apply Hok|apply Hok|done].
  - split_and!; [apply Hok|apply Hok|done].
  - destruct Hok as [-> ->]. split_and!; [vm_compute; lia|done|done].
Qed.

(** ** Credentials *)

Section Credentials.
Context {W : Wire} {S Stream : Type}.
Context `{!EqDecision (FilterId W), !Countable (FilterId W)}.
Context (keccak256 : list Z -> Z) (api : ZoneRpcApi W S) (ws : WsApi S Stream) (J : WsWire W).
Context (de_requests : string -> result string (list (JsonRpcRequest W)))
        (de_one : string -> result string (JsonRpcRequest W)).
Context {Canon : Type} (stream_step : Canon -> Stream -> list (result JsonRpcError (Raw W)) * Stream).
Context (auth : AuthContext).
Abbreviation Conn := (@Conn W S Stream _ _).
Abbreviation step := (ws_step keccak256 api ws J de_requests de_one stream_step auth).
Abbreviation run := (ws_run keccak256 api ws J de_requests de_one stream_step auth).
Abbreviation poll := (session_poll keccak256 api ws J de_requests de_one auth).

(** The readings of the clock, in the order of the events. *)
Definition event_times (e : @WsEvent S Canon) : list Z :=
  match e with EPoll p => p_now p :: option_list (p_answered p) | _ => [] end.

(** The node found the session's key live when a poll asked for it. *)
Definition key_checked (p : Poll) (c : Conn) (t : Z) : Prop :=
  p_answered p = Some t /\ keychain_auth_still_valid ws auth t (c_node c) = true.

Definition serving (c : Conn) : bool := match c_phase c with Ended => false | _ => true end.

Lemma try_queue_frame message (c : Conn) queued c' :
  try_queue_notification message c = (queued, c') -> exists q close, c' = with_queue q close c.
Proof.
  unfold try_queue_notification. destruct (c_receiver c) eqn:Er; cbn [negb].
  - destruct (_ <=? _)%nat; intros [= <- <-]; by eexists _, _.
  - intros [= <- <-]. exists (c_outbound c), (c_close c). by destruct c.
Qed.

Lemma activate_frame pending (c : Conn) :
  let c' := activate_pending_subscriptions pending c in
  c_next_tick c' = c_next_tick c /\ c_phase c' = c_phase c /\ c_node c' = c_node c.
Proof.
  revert c. unfold activate_pending_subscriptions. induction pending as [|q pending IH]; intros c; [done|].
  cbn [foldl]. apply (IH (spawn_subscription q c)).
Qed.

(** A pass serves a message, or revalidates, or changes neither node nor clock. *)
Lemma poll_cases p (c : Conn) :
  c_phase c = Waiting ->
  (token_expired auth (p_now p) = false /\ c_next_tick (poll p c) = c_next_tick c /\
   (is_Some (auth_keychain_key_id auth) -> p_now p < c_next_tick c)) \/
  (c_node (poll p c) = c_node c /\ c_phase (poll p c) = Ended) \/
  (c_node (poll p c) = c_node c /\ c_phase (poll p c) = Waiting /\ exists t, key_checked p c t /\
   c_next_tick c <= p_now p /\ c_next_tick (poll p c) = c_next_tick c + KEYCHAIN_RECHECK).
Proof.
  intros Hph. unfold session_poll. destruct (token_expired _ _); [by right; left|]. destruct (c_close c); [by right; left|].
  destruct (bool_decide _ && (_ <=? _)) eqn:Ht.
  - apply andb_prop in Ht as [_ Ht%Z.leb_le]. destruct (p_answered p) as [t|] eqn:Ea; [|by right; left]. cbn [c_node with_tick].
    destruct (keychain_auth_still_valid _ _ _ _) eqn:Ek; [|by right; left]. right. right.
    split; [done|]. split; [done|]. exists t. done.
  - assert (Hnow : is_Some (auth_keychain_key_id auth) -> p_now p < c_next_tick c).
    { intros H. rewrite bool_decide_eq_true_2 in Ht by done. cbn in Ht. by apply Z.leb_gt in Ht. }
    destruct (p_frame p) as [[m|]|]; [|by right; left|by left].
    assert (Htext : forall text, c_next_tick (on_text keccak256 api ws J de_requests de_one auth text c) = c_next_tick c).
    { intros text. unfold on_text. by destruct (process_ws_text _ _ _ _ _ _ _ _ _ _) as [[[[? ?] ?] ?] ?]. }
    destruct m as [text|[text|]| | |]; cbn [on_message]; try (by left); try (by right; left).
    destruct (try_queue_notification _ c) as [queued c'] eqn:E. apply try_queue_frame in E as (q & cl & ->).
    destruct queued; [by left|by right; left].
Qed.

(** A step either keeps the next revalidation, or is one that succeeded. *)
Lemma step_tick e (c : Conn) :
  serving (step e c) = true ->
  serving c = true /\
  (c_next_tick (step e c) = c_next_tick c \/
   exists p t, e = EPoll p /\ key_checked p c t /\ c_next_tick c <= p_now p /\
     c_next_tick (step e c) = c_next_tick c + KEYCHAIN_RECHECK).
Proof.
  unfold serving. destruct e as [p| |h|ok|k|s]; cbn [ws_step].
  - destruct (c_phase c) eqn:Hph; [|rewrite Hph; auto|rewrite Hph; auto]. intros Hs. split; [done|].
    destruct (poll_cases p c Hph) as [(_ & H & _)|[(_ & H)|(_ & _ & t & H1 & H2 & H3)]];
      [by left|by rewrite H in Hs|right; eauto 10].
  - destruct (c_phase c) as [|json pending|] eqn:Hph; [rewrite Hph; auto| |rewrite Hph; auto].
    intros _. split; [done|]. left. unfold session_respond.
    destruct (try_queue_notification _ c) as [queued c'] eqn:E. apply try_queue_frame in E as (q & cl & ->).
    destruct queued; [|done]. by destruct (activate_frame pending (with_phase Waiting (with_queue q cl c))) as (-> & _).
  - unfold task_round. destruct (c_tasks c !! h) as [[id stream [|[result|e] items]]|]; auto.
    destruct (try_queue_notification _ c) as [queued c'] eqn:E. apply try_queue_frame in E as (q & cl & ->). auto.
  - unfold writer_round. destruct (c_receiver c), (c_outbound c); auto.
  - cbn. destruct (c_phase c); auto.
  - auto.
Qed.

Definition checked_in (es : list (@WsEvent S Canon)) (c0 : Conn) (lo : Z) : Prop :=
  exists es1 p es2 t, es = es1 ++ EPoll p :: es2 /\ key_checked p (run es1 c0) t /\ lo <= p_now p.

Lemma tick_checked es start s :
  let c := run es (session_start start s) in
  serving c = true -> c_next_tick c = start \/ checked_in es (session_start start s) (c_next_tick c - KEYCHAIN_RECHECK).
Proof.
  induction es as [|e es IH] using rev_ind; [by left|]. unfold ws_run. rewrite foldl_app. cbn [foldl]. fold (run es (session_start start s)).
  intros Hs. destruct (step_tick _ _ Hs) as [Hs0 [Ht|(p & t & -> & Hk & Hle & Ht)]]; rewrite Ht.
  - destruct (IH Hs0) as [E|(es1 & p & es2 & t & E & Hk & Hle)]; [by left|right].
    exists es1, p, (es2 ++ [e]), t. split; [|done]. by rewrite E, <-app_assoc.
  - right. exists es, p, [], t. split; [done|]. split; [done|]. unfold KEYCHAIN_RECHECK. lia.
Qed.
End Credentials.

(** C30. In any run of a session on a clock that does not go back, a pass of the
    loop at which the session still waits either touches nothing of the node
    and dispatches no message, or happens before the token expires and, for a
    keychain session, less than a second after the node answered that the key
    is live (known, not revoked, not expired). *)
Theorem ws_requests_authorized {W : Wire} {S Stream : Type} `{!EqDecision (FilterId W), !Countable (FilterId W)}
    keccak256 (api : ZoneRpcApi W S) (ws : WsApi S Stream) (J : WsWire W) de_requests de_one
    {Canon : Type} (stream_step : Canon -> Stream -> list (result JsonRpcError (Raw W)) * Stream) auth start s es p :
  let run es := ws_run keccak256 api ws J de_requests de_one stream_step auth es (session_start start s) in
  let c' := ws_step keccak256 api ws J de_requests de_one stream_step auth (EPoll p) (run es) in
  StronglySorted Z.le (start :: concat (event_times <$> (es ++ [EPoll p]))) ->
  c_phase (run es) = Waiting ->
  (c_node c' = c_node (run es) /\ (c_phase c' = Waiting \/ c_phase c' = Ended)) \/
  (p_now p < auth_expires_at auth * 1000 /\
   forall key, auth_keychain_key_id auth = Some key ->
     exists es1 p' es2 t info, es = es1 ++ EPoll p' :: es2 /\ p_answered p' = Some t /\ p_now p - 1000 < t <= p_now p /\
       (get_keychain_key ws (auth_caller auth) key (c_node (run es1))).1 = Ok info /\
       validate_keychain_key_info (t / 1000) info = Ok tt).
Proof.
  cbv zeta. intros Hclock Hph. cbn [ws_step]. rewrite Hph.
  assert (Hs : serving (ws_run keccak256 api ws J de_requests de_one stream_step auth es (session_start start s)) = true)
    by (unfold serving; by rewrite Hph).
  destruct (poll_cases keccak256 api ws J de_requests de_one auth p _ Hph) as [(Hexp & _ & Hnow)|[(H1 & H2)|(H1 & H2 & _)]];
    [right|by left; auto|by left; auto].
  split; [unfold token_expired in Hexp; lia|]. intros key Hkey. specialize (Hnow ltac:(by rewrite Hkey)).
  rewrite fmap_app, concat_app in Hclock. cbn in Hclock. rewrite app_nil_r in Hclock.
  change (StronglySorted Z.le ((start :: concat (event_times <$> es)) ++ p_now p :: option_list (p_answered p))) in Hclock.
  assert (Hbefore : forall x, x ∈ start :: concat (event_times <$> es) -> x <= p_now p).
  { intros x Hx. by eapply (StronglySorted_app_1_elem_of Z.le); [exact Hclock|exact Hx|constructor]. }
  destruct (tick_checked keccak256 api ws J de_requests de_one stream_step auth es start s) as [E|Hc].
  - done.
  - specialize (Hbefore start ltac:(constructor)). lia.
  - destruct Hc as (es1 & p' & es2 & t & E & [Ha Hv] & Hlo). revert Hclock Hbefore. rewrite E. intros Hclock Hbefore. exists es1, p', es2, t.
    assert (Ht : t <= p_now p).
    { apply Hbefore. right. rewrite fmap_app, concat_app. cbn. rewrite Ha. cbn. set_solver. }
    assert (Hle : p_now p' <= t).
    { rewrite fmap_app, concat_app in Hclock. cbn in Hclock. rewrite Ha in Hclock. cbn in Hclock.
      apply StronglySorted_inv in Hclock as [Hclock _]. rewrite <-app_assoc in Hclock. cbn in Hclock.
      apply StronglySorted_app_1_r in Hclock. apply StronglySorted_inv in Hclock as [_ Hf].
      rewrite Forall_forall in Hf. apply Hf. set_solver. }
    revert Hv. unfold keychain_auth_still_valid. rewrite Hkey.
    destruct (get_keychain_key _ _ _ _).1 as [info|e] eqn:Eg; [|done]. intros Hv. exists info.
    destruct (validate_keychain_key_info _ _) as [[]|e] eqn:Ev; [|done].
    unfold KEYCHAIN_RECHECK in Hlo. split_and!; [done|done|lia|done|done|done].
Qed.

(** ** Live logs *)




Section LiveLogs.
Context {W : Wire} {BlockReceipts : Type} (matching_block_logs : Filter -> BlockReceipts -> bool -> list Log).
Context (raw_header : Header -> Raw W) (raw_log : Log -> Raw W).
Abbreviation stream_step := (node_stream_step matching_block_logs raw_header raw_log).

(** Everything a stream yields over a sequence of notifications. *)
Fixpoint stream_items (ns : list (@CanonState BlockReceipts)) (st : NodeStream) : list (result JsonRpcError (Raw W)) :=
  match ns with
  | [] => []
  | n :: ns => let '(items, st) := stream_step n st in items ++ stream_items ns st
  end.


End LiveLogs.





Section Polled.
Context {W : Wire} {C Reg Bloom Filled Sync Tx : Type} `{!EqDecision (FilterId W), !Countable (FilterId W)}.
Context (E : Eth W C Reg Bloom Filled Sync Tx) (R : Ser W Bloom Filled Sync) (L : RethLaws E) (zone_portal : Z).

End Polled.


(** ** Witnesses: a concrete session

    A session of Alice's on the node of NodeRpcWitness.v, with the runs that
    instantiate the theorems, and a reorganisation that renumbers a log. *)

From S2P Require Import NodeRpcWitness.
#[local] Open Scope string_scope.
#[local] Open Scope Z_scope.

Module WsExamples.

#[local] Instance toy_id_dec : EqDecision (FilterId toy_wire) := Z.eq_dec.
#[local] Instance toy_id_countable : Countable (FilterId toy_wire) := Z_countable.

Definition id_of (s : string) : Z := Zpos (encode s).
Definition toy_ws_wire : WsWire toy_wire :=
  mkWsWire toy_wire (fun _ => Some (mkSubscribe LogsKind (Some (ParamsLogs (any_filter (Some ALICE))))))
    (fun _ => Some (id_of "0x1")) id_of (fun id => [id]) (fun _ => "response") (fun _ => "responses")
    (fun _ _ => "notification").
Lemma id_of_inj : Inj (=) (=) (filter_id_of_string toy_ws_wire).
Proof. intros s1 s2 H. injection H as H. by apply encode_inj in H. Qed.

Definition LIVE_KEY : KeyInfo := mkKeyInfo Secp256k1 7 100 false.
Definition toy_ws_api : WsApi ToyNode NodeStream :=
  mkWsApi ToyNode NodeStream node_ws_subscribe_new_heads (node_ws_subscribe_logs toy_eth 1) (fun _ _ n => (Ok LIVE_KEY, n)).
Definition toy_request (text : string) : result string (JsonRpcRequest toy_wire) :=
  if bool_decide (text = "sub") then Ok (@mkJsonRequest toy_wire "eth_subscribe" None 1)
  else if bool_decide (text = "unsub") then Ok (@mkJsonRequest toy_wire "eth_unsubscribe" None 2)
  else Err "not JSON".

(** Receipts of a block are its logs. *)
Definition toy_matching (f : Filter) (logs : list Log) (removed : bool) : list Log :=
  filter (fun l => matches f l)
    ((fun l => mkLog (log_address l) (log_topics l) (log_data l) (log_block_hash l) (log_block_number l)
                 (log_block_timestamp l) (log_transaction_hash l) (log_transaction_index l) (log_index l) removed) <$> logs).
Definition toy_raw_log (l : Log) : Raw toy_wire := [default 0 (log_index l); if log_removed l then 1 else 0].
Definition toy_raw_header (h : Header) : Raw toy_wire := [h_number h].
Definition toy_step := node_stream_step (W:=toy_wire) toy_matching toy_raw_header toy_raw_log.
Abbreviation ToyEvent := (@WsEvent ToyNode (@CanonState (list Log))).
Definition toy_run (auth : AuthContext) (es : list ToyEvent) : Conn :=
  ws_run (fun _ => 0) no_api toy_ws_api toy_ws_wire (fun _ => Err "no batch") toy_request toy_step auth es
    (session_start 0 (toy_node chain1)).

Definition says (now : Z) (text : string) : ToyEvent :=
  EPoll (mkPoll now None (Some (Some (TextMsg text)))).
Definition block (removed : bool) (logs : list Log) : CanonState := mkCanon [] [(logs, removed)].
Definition session1 : list ToyEvent :=
  [says 10 "sub"; ECanon (block false [transfer 1 ALICE BOB 0; transfer 1 BOB BOB 1]); ERespond; EWriter true; ETask 0].

Lemma ws_session_bounded_witness :
  c_outbound (toy_run (toy_auth ALICE) session1) = ["notification"] /\
  size (c_tasks (toy_run (toy_auth ALICE) session1)) = 1%nat /\
  let c := toy_run (toy_auth ALICE) session1 in
  (length (c_outbound c) <= MAX_WS_OUTBOUND_QUEUE)%nat /\
  (total_subscription_count (c_session c) <= MAX_WS_SUBSCRIPTIONS)%nat /\
  (forall h t, c_tasks c !! h = Some t -> subscriptions (c_session c) !! task_subscription t = Some (mkActive h)) /\
  (c_phase c = Ended -> c_tasks c = ∅).
Proof.
  split; [vm_compute; reflexivity|]. split; [vm_compute; reflexivity|].
  unfold toy_run. refine (ws_session_bounded (fun _ => 0) no_api toy_ws_api toy_ws_wire (fun _ => Err "no batch") toy_request toy_step
    (toy_auth ALICE) session1 0 (toy_node chain1) id_of_inj _). vm_compute. discriminate.
Defined.

(** A session by keychain key 7, revalidated when it starts. *)
Definition key_auth : AuthContext := mkAuth ALICE 1000 (Some 7).
Definition recheck (now answered : Z) : ToyEvent := EPoll (mkPoll now (Some answered) None).

Lemma ws_requests_authorized_witness :
  c_phase (toy_run key_auth [recheck 5 8; says 700 "sub"]) <> Waiting /\
  exists t info, 700 - 1000 < t <= 700 /\
    (get_keychain_key toy_ws_api ALICE 7 (toy_node chain1)).1 = Ok info /\
    validate_keychain_key_info (t / 1000) info = Ok tt.
Proof.
  split; [vm_compute; discriminate|].
  destruct (ws_requests_authorized (fun _ => 0) no_api toy_ws_api toy_ws_wire (fun _ => Err "no batch") toy_request toy_step
    key_auth 0 (toy_node chain1) [recheck 5 8] (mkPoll 700 None (Some (Some (TextMsg "sub"))))) as [H|[_ H]].
  - cbn. repeat constructor; lia.
  - reflexivity.
  - exfalso. destruct H as [_ [H|H]]; vm_compute in H; discriminate.
  - destruct (H 7 eq_refl) as (es1 & p' & es2 & t & info & E & Ha & Ht & Hk & Hv).
    exists t, info. cbn in Ht. split; [exact Ht|]. split; [exact Hk|exact Hv].
Defined.

(** Alice's transfers, in two blocks, over two notifications. *)
Definition tx_log (tx : Z) (to : Z) : Log :=
  mkLog 0x20C0 [TRANSFER_TOPIC; ALICE; to] [] None (Some 3) None (Some tx) (Some 4) (Some 9) false.



(** When a block is reorganised and its transaction included again, the stream
    yields the removed log and the new one with positions 0 and 1, although
    [eth_getLogs] shows the transaction's log at position 0. *)
Example reorged_log_renumbered :
  let st := LogsStream (any_filter (Some ALICE)) false ALICE redactor_default in
  stream_items toy_matching toy_raw_header toy_raw_log
      [block false [tx_log 1 BOB]; mkCanon [] [([tx_log 1 BOB], true); ([tx_log 1 BOB], false)]] st =
    (@Ok JsonRpcError (Raw toy_wire)) <$> [[0; 0]; [1; 1]; [2; 0]] /\
  toy_raw_log <$> filter_logs [tx_log 1 BOB] ALICE = [[0; 0]].
Proof. split; vm_compute; reflexivity. Qed.
End WsExamples.
