(* ===== verification/RpcProxy.v ===== *)
(** * Private RPC: the HTTP proxy

    rpc/src/proxy.rs: a second implementation of [ZoneRpcApi], which forwards
    requests to an upstream node's public RPC and redacts what comes back.  The
    upstream node is a function from a call and its state to the fields of its
    JSON answer; serde_json and the codecs are the record [ProxyWire].  A method
    is one step of the state: the upstream's and the table of filter owners. *)

From stdpp Require Import gmap list strings.
From S2P Require Import Prelude.
From S2P Require Import RpcAuth.
From S2P Require Import RpcLogs.
From S2P Require Import RpcHistory.
From S2P Require Import RpcTypes.
From S2P Require Import RpcPolicy.
From S2P Require Import RpcDispatch.
From S2P Require Import Markets.
#[local] Open Scope string_scope.
#[local] Open Scope Z_scope.
#[local] Open Scope api_scope.

(** ** JSON values *)

Inductive Json :=
  | JNull
  | JBool (b : bool)
  | JNum (n : Z)
  | JStr (s : string)
  | JArr (l : list Json)
  | JObj (fields : list (string * Json)).

Definition is_null (v : Json) : bool := match v with JNull => true | _ => false end.

(** [Map::insert]: the value of a key is replaced, or the key is new. *)
Fixpoint map_insert (k : string) (v : Json) (fields : list (string * Json)) : list (string * Json) :=
  match fields with
  | [] => [(k, v)]
  | (k', v') :: rest => if String.eqb k k' then (k, v) :: rest else (k', v') :: map_insert k v rest
  end.
Fixpoint map_get (k : string) (fields : list (string * Json)) : option Json :=
  match fields with
  | [] => None
  | (k', v) :: rest => if String.eqb k k' then Some v else map_get k rest
  end.
Definition json_get (v : Json) (k : string) : option Json :=
  match v with JObj fields => map_get k fields | _ => None end.
Definition as_str (v : Json) : option string := match v with JStr s => Some s | _ => None end.

Fixpoint repeat_zero (n : nat) : string :=
  match n with O => EmptyString | S n => "0" +:+ repeat_zero n end.

Definition redact_block_json (value : Json) : Json :=
  match value with
  | JObj fields =>
    JObj (map_insert "transactions" (JArr []) (map_insert "logsBloom" (JStr ("0x" +:+ repeat_zero 512)) fields))
  | _ => value
  end.

(** A field of the upstream's answer as it is on the wire, and as
    [Option<Box<RawValue>>] and [Option<JsonRpcError>] read it. *)
Inductive Field (A : Type) := Absent | Null | Present (a : A).
Arguments Absent {A}.
Arguments Null {A}.
Arguments Present {A}.
Definition de_option {A} (f : Field A) : option A := match f with Present a => Some a | _ => None end.

Record UpstreamResponse (R : Type) := mkUpstream { up_result : option R; up_error : option JsonRpcError }.
Arguments mkUpstream {R}.
Arguments up_result {R}.
Arguments up_error {R}.

(** The requests the proxy sends upstream: method and parameters. *)
Inductive UpstreamCall (W : Wire) :=
  | UGetKey (account key_id : Z)
  | UBlockNumber | UChainId | UNetVersion | USyncing | UCoinbase | UGasPrice | UMaxPriorityFeePerGas
  | UFeeHistory (block_count : Z) (newest_block : BlockNumberOrTag) (p : option (Percentiles W))
  | UGetBalance (address : Z) (block : option (BlockId W))
  | UGetTransactionCount (address : Z) (block : option (BlockId W))
  | UGetBlockByNumber (number : BlockNumberOrTag) (full : bool)
  | UGetBlockByHash (hash : Z) (full : bool)
  | UGetTransactionByHash (hash : Z)
  | UGetTransactionReceipt (hash : Z)
  | UCall (request : TempoTransactionRequest (Rest W)) (block : option (BlockId W)) (o : option (StateOverride W))
  | UEstimateGas (request : TempoTransactionRequest (Rest W)) (block : option (BlockId W)) (o : option (StateOverride W))
  | USendRawTransaction (data : list Z)
  | USendRawTransactionSync (data : list Z)
  | UFillTransaction (request : TempoTransactionRequest (Rest W))
  | UGetLogs (f : Filter)
  | UNewFilter (f : Filter)
  | UGetFilterLogs (id : FilterId W)
  | UGetFilterChanges (id : FilterId W)
  | UNewBlockFilter
  | UUninstallFilter (id : FilterId W).
Arguments UGetKey {W}.
Arguments UBlockNumber {W}.
Arguments UChainId {W}.
Arguments UNetVersion {W}.
Arguments USyncing {W}.
Arguments UCoinbase {W}.
Arguments UGasPrice {W}.
Arguments UMaxPriorityFeePerGas {W}.
Arguments UFeeHistory {W}.
Arguments UGetBalance {W}.
Arguments UGetTransactionCount {W}.
Arguments UGetBlockByNumber {W}.
Arguments UGetBlockByHash {W}.
Arguments UGetTransactionByHash {W}.
Arguments UGetTransactionReceipt {W}.
Arguments UCall {W}.
Arguments UEstimateGas {W}.
Arguments USendRawTransaction {W}.
Arguments USendRawTransactionSync {W}.
Arguments UFillTransaction {W}.
Arguments UGetLogs {W}.
Arguments UNewFilter {W}.
Arguments UGetFilterLogs {W}.
Arguments UGetFilterChanges {W}.
Arguments UNewBlockFilter {W}.
Arguments UUninstallFilter {W}.

(** serde_json on raw results ([from_str], [to_raw]); an error is its text. *)
Record ProxyWire (W : Wire) (Bloom : Type) := mkProxyWire {
  px_de_json : Raw W -> result string Json;
  px_raw_json : Json -> Raw W;
  px_de_receipt_opt : Raw W -> result string (option (@TempoTransactionReceipt Bloom));
  px_de_receipt : Raw W -> result string (@TempoTransactionReceipt Bloom);
  px_raw_receipt : @TempoTransactionReceipt Bloom -> Raw W;
  px_de_logs : Raw W -> result string (list Log);
  px_raw_logs : list Log -> Raw W;
  px_de_filter_id : Raw W -> result string (FilterId W);
  px_de_key : Raw W -> result string KeyInfo;
  px_raw_null : Raw W;
  px_raw_zero : Raw W;
  px_raw_token_info : Z -> Z -> Raw W;
  px_raw_reference_price : ReferencePriceResponse -> Raw W;
  px_parse_address : string -> option Z
}.
Arguments px_de_json {W Bloom}.
Arguments px_raw_json {W Bloom}.
Arguments px_de_receipt_opt {W Bloom}.
Arguments px_de_receipt {W Bloom}.
Arguments px_raw_receipt {W Bloom}.
Arguments px_de_logs {W Bloom}.
Arguments px_raw_logs {W Bloom}.
Arguments px_de_filter_id {W Bloom}.
Arguments px_de_key {W Bloom}.
Arguments px_raw_null {W Bloom}.
Arguments px_raw_zero {W Bloom}.
Arguments px_raw_token_info {W Bloom}.
Arguments px_raw_reference_price {W Bloom}.
Arguments px_parse_address {W Bloom}.

Section Proxy.
Context {W : Wire} {U Bloom Tx : Type}.
Context `{!EqDecision (FilterId W), !Countable (FilterId W)}.
Context (P : ProxyWire W Bloom) (logs_bloom : list Log -> Bloom).
Context (decode_2718 : list Z -> option Tx) (tx_recover_signer : Tx -> option Z).
(** One HTTP request: a transport or decoding error, or the answer's fields. *)
Context (post : UpstreamCall W -> U -> result string (Field (Raw W) * Field JsonRpcError) * U).

Record ProxyZoneRpc := mkProxy { px_upstream : U; px_filter_owners : gmap (FilterId W) Z }.
Abbreviation PApi := (Api ProxyZoneRpc).

Definition to_response (fields : Field (Raw W) * Field JsonRpcError) : UpstreamResponse (Raw W) :=
  mkUpstream (de_option fields.1) (de_option fields.2).

Definition forward (call : UpstreamCall W) : PApi (Raw W) := fun s =>
  let '(r, u) := post call (px_upstream s) in
  let s := mkProxy u (px_filter_owners s) in
  match r with
  | Err text => (Err (internal text), s)
  | Ok fields =>
    let upstream := to_response fields in
    match up_error upstream with
    | Some err => (Err err, s)
    | None =>
      match up_result upstream with
      | Some raw => (Ok raw, s)
      | None => (Err (internal "missing result in upstream response"), s)
      end
    end
  end.

(** [map_err(internal)] *)
Definition parsed {A} (r : result string A) : PApi A :=
  match r with Ok a => aret a | Err text => afail (internal text) end.
Definition checked {A} (r : result JsonRpcError A) : PApi A :=
  match r with Ok a => aret a | Err e => afail e end.

Definition proxy_ensure_filter_owner (id : FilterId W) (auth : AuthContext) : PApi unit := fun s =>
  match px_filter_owners s !! id with
  | Some owner => if owner =? auth_caller auth then (Ok tt, s) else (Err (invalid_params "filter not found"), s)
  | None => (Err (invalid_params "filter not found"), s)
  end.
Definition own_filter (id : FilterId W) (caller : Z) : PApi unit := fun s =>
  (Ok tt, mkProxy (px_upstream s) (<[id := caller]> (px_filter_owners s))).
Definition disown_filter (id : FilterId W) : PApi unit := fun s =>
  (Ok tt, mkProxy (px_upstream s) (delete id (px_filter_owners s))).

Definition json_from (value : Json) : option Z :=
  match json_get value "from" with
  | Some v => match as_str v with Some s => px_parse_address P s | None => None end
  | None => None
  end.

Definition proxy_get_keychain_key (account key_id : Z) : PApi KeyInfo :=
  raw <- forward (UGetKey account key_id); parsed (px_de_key P raw).

Definition proxy_get_balance (address : Z) (block : option (BlockId W)) (auth : AuthContext) : PApi (Raw W) :=
  if negb (address =? auth_caller auth) then aret (px_raw_zero P) else forward (UGetBalance address block).

Definition proxy_get_transaction_count (address : Z) (block : option (BlockId W)) (auth : AuthContext) : PApi (Raw W) :=
  if negb (address =? auth_caller auth) then aret (px_raw_zero P) else forward (UGetTransactionCount address block).

(** The common tail of the two block methods. *)
Definition redacted_block (raw : Raw W) : PApi (Raw W) :=
  block <- parsed (px_de_json P raw);
  if is_null block then aret raw else aret (px_raw_json P (redact_block_json block)).
Definition proxy_block_by_number (number : BlockNumberOrTag) (full : bool) (_ : AuthContext) : PApi (Raw W) :=
  raw <- forward (UGetBlockByNumber number full); redacted_block raw.
Definition proxy_block_by_hash (hash : Z) (full : bool) (_ : AuthContext) : PApi (Raw W) :=
  raw <- forward (UGetBlockByHash hash full); redacted_block raw.

Definition proxy_transaction_by_hash (hash : Z) (auth : AuthContext) : PApi (Raw W) :=
  raw <- forward (UGetTransactionByHash hash);
  tx <- parsed (px_de_json P raw);
  if is_null tx then aret raw
  else if bool_decide (json_from tx = Some (auth_caller auth)) then aret raw
  else aret (px_raw_null P).

Definition proxy_transaction_receipt (hash : Z) (auth : AuthContext) : PApi (Raw W) :=
  raw <- forward (UGetTransactionReceipt hash);
  receipt <- parsed (px_de_receipt_opt P raw);
  match receipt with
  | None => aret raw
  | Some receipt =>
    if negb (r_from receipt =? auth_caller auth) then aret (px_raw_null P)
    else aret (px_raw_receipt P (filter_receipt_logs logs_bloom receipt))
  end.

(** [enforce_from] and [enforce_no_contract_creation], with the sender set. *)
Definition proxy_enforce (request : TempoTransactionRequest (Rest W)) (auth : AuthContext)
    : PApi (TempoTransactionRequest (Rest W)) :=
  request <- checked (enforce_from request auth);
  _ <- checked (enforce_no_contract_creation request);
  aret request.

Definition proxy_eth_call (request : TempoTransactionRequest (Rest W)) (block : option (BlockId W))
    (state_override : option (StateOverride W)) (auth : AuthContext) : PApi (Raw W) :=
  match state_override with
  | Some _ => afail (invalid_params "state overrides not allowed")
  | None => request <- proxy_enforce request auth; forward (UCall request block None)
  end.

Definition proxy_estimate_gas (request : TempoTransactionRequest (Rest W)) (block : option (BlockId W))
    (state_override : option (StateOverride W)) (auth : AuthContext) : PApi (Raw W) :=
  match state_override with
  | Some _ => afail (invalid_params "state overrides not allowed")
  | None => request <- proxy_enforce request auth; forward (UEstimateGas request block None)
  end.

Definition proxy_send_raw_transaction (data : list Z) (auth : AuthContext) : PApi (Raw W) :=
  _ <- checked (verify_raw_tx_sender decode_2718 tx_recover_signer data auth);
  forward (USendRawTransaction data).

Definition proxy_send_raw_transaction_sync (data : list Z) (auth : AuthContext) : PApi (Raw W) :=
  _ <- checked (verify_raw_tx_sender decode_2718 tx_recover_signer data auth);
  raw <- forward (USendRawTransactionSync data);
  receipt <- parsed (px_de_receipt P raw);
  aret (px_raw_receipt P (filter_receipt_logs logs_bloom receipt)).

Definition proxy_fill_transaction (request : TempoTransactionRequest (Rest W)) (auth : AuthContext) : PApi (Raw W) :=
  request <- proxy_enforce request auth; forward (UFillTransaction request).

Definition proxy_get_logs (f : Filter) (auth : AuthContext) : PApi (Raw W) :=
  raw <- forward (UGetLogs (scope_filter f));
  logs <- parsed (px_de_logs P raw);
  aret (px_raw_logs P (filter_logs logs (auth_caller auth))).

(** The id an installation returned, with its owner. *)
Definition registered (raw : Raw W) (auth : AuthContext) : PApi (Raw W) :=
  id <- parsed (px_de_filter_id P raw); _ <- own_filter id (auth_caller auth); aret raw.
Definition proxy_new_filter (f : Filter) (auth : AuthContext) : PApi (Raw W) :=
  raw <- forward (UNewFilter (scope_filter f)); registered raw auth.
Definition proxy_new_block_filter (auth : AuthContext) : PApi (Raw W) :=
  raw <- forward UNewBlockFilter; registered raw auth.

Definition proxy_get_filter_logs (id : FilterId W) (auth : AuthContext) : PApi (Raw W) :=
  _ <- proxy_ensure_filter_owner id auth;
  raw <- forward (UGetFilterLogs id);
  logs <- parsed (px_de_logs P raw);
  aret (px_raw_logs P (filter_logs logs (auth_caller auth))).

(** What does not read as logs is passed on: the hashes of a block filter. *)
Definition proxy_get_filter_changes (id : FilterId W) (auth : AuthContext) : PApi (Raw W) :=
  _ <- proxy_ensure_filter_owner id auth;
  raw <- forward (UGetFilterChanges id);
  match px_de_logs P raw with
  | Ok logs => aret (px_raw_logs P (filter_logs logs (auth_caller auth)))
  | Err _ => aret raw
  end.

Definition proxy_uninstall_filter (id : FilterId W) (auth : AuthContext) : PApi (Raw W) :=
  _ <- proxy_ensure_filter_owner id auth;
  raw <- forward (UUninstallFilter id);
  _ <- disown_filter id;
  aret raw.

Definition proxy_token_info (auth : AuthContext) : PApi (Raw W) :=
  aret (px_raw_token_info P (auth_caller auth) (auth_expires_at auth)).

Definition zone_unsupported : PApi (Raw W) :=
  afail (internal "zone-specific methods are not supported by the proxy backend").

(** The trait's own bodies, where the proxy keeps them. *)
Definition default_reference_price (_ _ : Z) (_ : AuthContext) : PApi (Raw W) :=
  aret (px_raw_reference_price P (mkReferenceResponse false EmptyString 0 0 None None None None None None None None 6
    REFERENCE_PRICE_UNIT REFERENCE_PRICE_DISCLAIMER (Some "reference-price provider not configured"))).
Definition default_my_activity (_ : ActivityQuery) (_ : AuthContext) : PApi (Raw W) := afail method_disabled.

Definition proxy_api : ZoneRpcApi W ProxyZoneRpc :=
  mkApi W ProxyZoneRpc (forward UBlockNumber) (forward UChainId) (forward UNetVersion) (forward USyncing)
    (forward UCoinbase) (forward UGasPrice) (forward UMaxPriorityFeePerGas)
    (fun n b p => forward (UFeeHistory n b p)) proxy_get_balance proxy_get_transaction_count
    proxy_block_by_number proxy_block_by_hash proxy_transaction_by_hash proxy_transaction_receipt proxy_eth_call
    proxy_estimate_gas proxy_send_raw_transaction proxy_send_raw_transaction_sync proxy_fill_transaction
    proxy_get_logs proxy_new_filter proxy_get_filter_logs proxy_get_filter_changes proxy_new_block_filter
    proxy_uninstall_filter proxy_token_info (fun _ => zone_unsupported) (fun _ _ => zone_unsupported)
    (fun _ _ => zone_unsupported) (fun _ _ => zone_unsupported) (fun _ _ => zone_unsupported) (fun _ => zone_unsupported)
    default_reference_price (fun _ _ _ => zone_unsupported) (fun _ _ _ _ _ _ => zone_unsupported)
    (fun _ _ => zone_unsupported) (fun _ _ => zone_unsupported) (fun _ _ => zone_unsupported) default_my_activity
    (fun _ _ => zone_unsupported) (fun _ _ => zone_unsupported).
End Proxy.
