(* ===== verification/RpcProxyProofs.v ===== *)
(** * The HTTP proxy: properties

    What an account learns through the proxy is a function of the redacted
    view of the upstream's answers; and where the proxy falls short of the
    node's own handlers. *)

From stdpp Require Import gmap list strings.
From S2P Require Import Prelude.
From S2P Require Import RpcAuth.
From S2P Require Import RpcLogs.
From S2P Require Import RpcLogsProofs.
From S2P Require Import RpcTypes.
From S2P Require Import RpcPolicy.
From S2P Require Import RpcDispatch.
From S2P Require Import RpcAccessProofs.
From S2P Require Import RpcProxy.
#[local] Open Scope string_scope.
#[local] Open Scope Z_scope.

Section Confined.
Context {W : Wire} {U Bloom Tx : Type}.
Context `{!EqDecision (FilterId W), !Countable (FilterId W)}.
Context (P : ProxyWire W Bloom) (logs_bloom : list Log -> Bloom).
Context (decode_2718 : list Z -> option Tx) (tx_recover_signer : Tx -> option Z).
Context (auth : AuthContext).
Abbreviation Post := (UpstreamCall W -> U -> result string (Field (Raw W) * Field JsonRpcError) * U).
Abbreviation caller := (auth_caller auth).

(** The requests the proxy sends on behalf of the account. *)
Definition own_call (call : UpstreamCall W) : Prop :=
  match call with
  | UGetKey _ _ => False
  | UGetBalance address _ | UGetTransactionCount address _ => address = caller
  | UCall request _ o | UEstimateGas request _ o => rq_from request = Some caller /\ o = None
  | UFillTransaction request => rq_from request = Some caller
  | USendRawTransaction data | USendRawTransactionSync data =>
    verify_raw_tx_sender decode_2718 tx_recover_signer data auth = Ok tt
  | UGetLogs f | UNewFilter f => exists f0, f = scope_filter f0
  | _ => True
  end.

(** Receipts alike but for other accounts' logs and what precedes them in the
    block. *)
Definition receipts_alike (r1 r2 : @TempoTransactionReceipt Bloom) : Prop :=
  r_from r1 = r_from r2 /\ r_to r1 = r_to r2 /\ r_transaction_hash r1 = r_transaction_hash r2 /\
  r_block_hash r1 = r_block_hash r2 /\ r_block_number r1 = r_block_number r2 /\
  r_success r1 = r_success r2 /\ r_gas_used r1 = r_gas_used r2 /\
  r_effective_gas_price r1 = r_effective_gas_price r2 /\ r_contract_address r1 = r_contract_address r2 /\
  r_fee_token r1 = r_fee_token r2 /\ r_fee_payer r1 = r_fee_payer r2 /\
  hide <$> visible_logs (r_logs r1) (r_from r1) = hide <$> visible_logs (r_logs r2) (r_from r2).

(** The fields of a block that are hidden from an account, and two block objects
    that are equal in all the others.  The keys of an object are distinct. *)
Definition HIDDEN_BLOCK_FIELDS : list string := ["logsBloom"; "transactions"].
Definition equal_but (hidden : list string) (f1 f2 : list (string * Json)) : Prop :=
  Forall2 (fun p q => p.1 = q.1 /\ (p.1 ∈ hidden \/ p.2 = q.2)) f1 f2.
Definition blocks_alike (b1 b2 : Json) : Prop :=
  exists f1 f2, b1 = JObj f1 /\ b2 = JObj f2 /\ NoDup f1.*1 /\ equal_but HIDDEN_BLOCK_FIELDS f1 f2.

(** Replacing the value of a hidden key takes it off the list. *)
Lemma map_insert_key k v k' f : k' ∈ (map_insert k v f).*1 -> k' = k \/ k' ∈ f.*1.
Proof.
  induction f as [|[k1 v1] f IH]; cbn; [set_solver|]. destruct (String.eqb_spec k k1) as [<-|_]; cbn; set_solver.
Qed.
Lemma map_insert_distinct k v f : NoDup f.*1 -> NoDup (map_insert k v f).*1.
Proof.
  induction f as [|[k1 v1] f IH]; cbn; [intros _; apply NoDup_singleton|]. intros [Hk Hn]%NoDup_cons.
  destruct (String.eqb_spec k k1) as [<-|Hne]; cbn; apply NoDup_cons; [done|]. split; [|by apply IH].
  intros [->|?]%map_insert_key; done.
Qed.
Lemma map_insert_equal_but k v hidden f1 f2 :
  NoDup f1.*1 -> equal_but (k :: hidden) f1 f2 -> equal_but hidden (map_insert k v f1) (map_insert k v f2).
Proof.
  intros Hn Hf. induction Hf as [|[k1 v1] [k2 v2] f1 f2 [Hk Hv] Hf IH];
    [constructor; [split; [done|by right]|constructor]|].
  cbn in Hk, Hv, Hn. subst k2. apply NoDup_cons in Hn as [Hk1 Hn]. cbn. destruct (String.eqb_spec k k1) as [<-|Hne].
  - constructor; [by split; [|right]|]. clear IH Hv. induction Hf as [|p q f1 f2 [Hp Hq] Hf IH]; [constructor|].
    cbn in Hk1. apply not_elem_of_cons in Hk1 as [Hkp Hk1]. apply NoDup_cons in Hn as [_ Hn].
    constructor; [|by apply IH]. split; [done|]. destruct Hq as [[Hq|Hq]%elem_of_cons|Hq]; [congruence|by left|by right].
  - constructor; [|by apply IH]. split; [done|]. destruct Hv as [[Hv|Hv]%elem_of_cons|Hv]; [cbn in Hv; congruence|by left|by right].
Qed.
Lemma equal_but_nil f1 f2 : equal_but [] f1 f2 -> f1 = f2.
Proof.
  induction 1 as [|[k1 v1] [k2 v2] f1 f2 [Hk Hv] _ IH]; [done|]. cbn in *. subst k2 f2.
  destruct Hv as [Hv| ->]; [by apply not_elem_of_nil in Hv|done].
Qed.
(** The redaction hides exactly these fields. *)
Lemma hidden_redacted f1 f2 :
  NoDup f1.*1 -> equal_but HIDDEN_BLOCK_FIELDS f1 f2 -> redact_block_json (JObj f1) = redact_block_json (JObj f2).
Proof.
  intros Hn Hf. cbn [redact_block_json]. f_equal. apply equal_but_nil, map_insert_equal_but; [by apply map_insert_distinct|].
  by apply map_insert_equal_but.
Qed.

(** Two raw results that differ in what is not the account's: transactions of a
    block and its bloom, transactions and receipts of others, logs the account
    is not a party to. *)
Definition results_alike (call : UpstreamCall W) (r1 r2 : Raw W) : Prop :=
  match call with
  | UGetBlockByNumber _ _ | UGetBlockByHash _ _ =>
    exists b1 b2, px_de_json P r1 = Ok b1 /\ px_de_json P r2 = Ok b2 /\ blocks_alike b1 b2
  | UGetTransactionByHash _ =>
    exists t1 t2, px_de_json P r1 = Ok t1 /\ px_de_json P r2 = Ok t2 /\ is_null t1 = false /\ is_null t2 = false /\
      json_from P t1 <> Some caller /\ json_from P t2 <> Some caller
  | UGetTransactionReceipt _ =>
    exists c1 c2, px_de_receipt_opt P r1 = Ok (Some c1) /\ px_de_receipt_opt P r2 = Ok (Some c2) /\
      ((r_from c1 <> caller /\ r_from c2 <> caller) \/ receipts_alike c1 c2)
  | USendRawTransactionSync _ =>
    exists c1 c2, px_de_receipt P r1 = Ok c1 /\ px_de_receipt P r2 = Ok c2 /\ receipts_alike c1 c2
  | UGetLogs _ | UGetFilterLogs _ | UGetFilterChanges _ =>
    exists l1 l2, px_de_logs P r1 = Ok l1 /\ px_de_logs P r2 = Ok l2 /\
      hide <$> visible_logs l1 caller = hide <$> visible_logs l2 caller
  | _ => False
  end.

Definition answers_alike (call : UpstreamCall W) (a1 a2 : result JsonRpcError (Raw W)) : Prop :=
  match a1, a2 with
  | Ok r1, Ok r2 => r1 = r2 \/ results_alike call r1 r2
  | Err e1, Err e2 => e1 = e2
  | _, _ => False
  end.

(** Two upstream nodes that the account cannot tell apart. *)
Definition upstreams_alike (post1 post2 : Post) : Prop :=
  forall call s, own_call call ->
    (forward post1 call s).2 = (forward post2 call s).2 /\
    answers_alike call (forward post1 call s).1 (forward post2 call s).1.

Section Two.
Context (post1 post2 : Post) (Halike : upstreams_alike post1 post2).

(** What follows a request does not depend on which upstream answered, when it
    cannot tell alike results apart. *)
Lemma forward_bind {A} call (k : Raw W -> Api ProxyZoneRpc A) s :
  own_call call -> (forall r1 r2 s, results_alike call r1 r2 -> k r1 s = k r2 s) ->
  abind (forward post1 call) k s = abind (forward post2 call) k s.
Proof.
  intros Hown Hk. destruct (Halike call s Hown) as [Hs Ha]. unfold abind.
  destruct (forward post1 call s) as [[r1|e1] s1], (forward post2 call s) as [[r2|e2] s2]; cbn in *; subst; try done.
  destruct Ha as [->|Ha]; [done|]. by apply Hk.
Qed.

Lemma forward_same call s :
  own_call call -> (forall r1 r2, ~ results_alike call r1 r2) -> forward post1 call s = forward post2 call s.
Proof.
  intros Hown Hk. destruct (Halike call s Hown) as [Hs Ha].
  destruct (forward post1 call s) as [[r1|e1] s1], (forward post2 call s) as [[r2|e2] s2]; cbn in *; subst; try done.
  destruct Ha as [->|Ha]; [done|]. by apply Hk in Ha.
Qed.

Lemma redacted_block_alike r1 r2 (s : @ProxyZoneRpc W U _ _) b1 b2 :
  px_de_json P r1 = Ok b1 -> px_de_json P r2 = Ok b2 -> blocks_alike b1 b2 -> redacted_block P r1 s = redacted_block P r2 s.
Proof.
  intros E1 E2 (f1 & f2 & -> & -> & Hn & Hf). unfold redacted_block. rewrite E1, E2.
  cbn -[redact_block_json]. by rewrite (hidden_redacted _ _ Hn Hf).
Qed.

Lemma receipts_alike_redacted c1 c2 :
  receipts_alike c1 c2 -> filter_receipt_logs logs_bloom c1 = filter_receipt_logs logs_bloom c2.
Proof. intros H. unfold receipts_alike in H. destruct_and? H. by apply receipt_redacted. Qed.

Lemma logs_alike l1 l2 :
  hide <$> visible_logs l1 caller = hide <$> visible_logs l2 caller -> filter_logs l1 caller = filter_logs l2 caller.
Proof. apply redact_all_hide. Qed.

Lemma enforce_own request request' s s' :
  proxy_enforce (U:=U) request auth s = (Ok request', s') -> rq_from request' = Some caller /\ s' = s.
Proof.
  unfold proxy_enforce, enforce_from, abind, checked. destruct (rq_from request) as [from|] eqn:Ef.
  - destruct (Z.eqb_spec from caller) as [->|]; cbn; [|done].
    destruct (enforce_no_contract_creation request); cbn; [|done]. intros [= <- <-]. done.
  - cbn. destruct (enforce_no_contract_creation _); cbn; [|done]. intros [= <- <-]. done.
Qed.

(** The three methods that send an enforced request on. *)
Lemma enforce_bind request (call : TempoTransactionRequest (Rest W) -> UpstreamCall W) s :
  (forall r, rq_from r = Some caller -> own_call (call r)) -> (forall r r1 r2, ~ results_alike (call r) r1 r2) ->
  abind (proxy_enforce request auth) (fun r => forward post1 (call r)) s =
  abind (proxy_enforce request auth) (fun r => forward post2 (call r)) s.
Proof.
  intros Hown Hk. unfold abind. destruct (proxy_enforce request auth s) as [[r|e] s'] eqn:E; [|done].
  apply enforce_own in E as [E ->]. apply forward_same; auto.
Qed.

Lemma sender_bind {A} data (k1 k2 : unit -> Api (@ProxyZoneRpc W U _ _) A) s :
  (verify_raw_tx_sender decode_2718 tx_recover_signer data auth = Ok tt -> k1 tt s = k2 tt s) ->
  abind (checked (verify_raw_tx_sender decode_2718 tx_recover_signer data auth)) k1 s =
  abind (checked (verify_raw_tx_sender decode_2718 tx_recover_signer data auth)) k2 s.
Proof. intros H. unfold abind, checked. destruct (verify_raw_tx_sender _ _ _ _) as [[]|e]; [by apply H|done]. Qed.

Lemma owner_bind {A} id (k1 k2 : unit -> Api (@ProxyZoneRpc W U _ _) A) s :
  k1 tt s = k2 tt s ->
  abind (proxy_ensure_filter_owner id auth) k1 s = abind (proxy_ensure_filter_owner id auth) k2 s.
Proof.
  intros H. unfold abind, proxy_ensure_filter_owner. destruct (px_filter_owners s !! id) as [o|]; [|done].
  by destruct (o =? caller).
Qed.

Abbreviation api1 := (proxy_api P logs_bloom decode_2718 tx_recover_signer post1).
Abbreviation api2 := (proxy_api P logs_bloom decode_2718 tx_recover_signer post2).

Lemma proxies_agree : agree_for auth api1 api2.
Proof.
  constructor; intros; cbn; try reflexivity; try (apply forward_same; [done|intros ? ? []]).
  - unfold proxy_get_balance. destruct (Z.eqb_spec a caller) as [->|]; [|done]. (apply forward_same; [done|intros ? ? []]).
  - unfold proxy_get_transaction_count. destruct (Z.eqb_spec a caller) as [->|]; [|done]. (apply forward_same; [done|intros ? ? []]).
  - apply forward_bind; [done|]. intros r1 r2 s' (b1 & b2 & E1 & E2 & H). by eapply redacted_block_alike.
  - apply forward_bind; [done|]. intros r1 r2 s' (b1 & b2 & E1 & E2 & H). by eapply redacted_block_alike.
  - apply forward_bind; [done|]. intros r1 r2 s' (t1 & t2 & E1 & E2 & N1 & N2 & H1 & H2).
    rewrite E1, E2. unfold abind, parsed, aret. rewrite N1, N2, !bool_decide_eq_false_2 by done. done.
  - apply forward_bind; [done|]. intros r1 r2 s' (c1 & c2 & E1 & E2 & Hc). rewrite E1, E2. unfold abind, parsed, aret.
    destruct Hc as [[H1 H2]|Hc].
    + by rewrite !(proj2 (Z.eqb_neq _ _)) by done.
    + rewrite (receipts_alike_redacted _ _ Hc). destruct Hc as [-> _]. done.
  - apply (enforce_bind r (fun r => UCall r b None)); [done|intros ? ? ? []].
  - apply (enforce_bind r (fun r => UEstimateGas r b None)); [done|intros ? ? ? []].
  - apply sender_bind. intros Hv. (apply forward_same; [done|intros ? ? []]).
  - apply sender_bind. intros Hv. apply forward_bind; [done|]. intros r1 r2 s' (c1 & c2 & E1 & E2 & Hc).
    rewrite E1, E2. unfold abind, parsed, aret. by rewrite (receipts_alike_redacted _ _ Hc).
  - apply (enforce_bind r UFillTransaction); [done|intros ? ? ? []].
  - apply forward_bind; [by eexists|]. intros r1 r2 s' (l1 & l2 & E1 & E2 & Hl). rewrite E1, E2.
    unfold abind, parsed, aret. by rewrite (logs_alike _ _ Hl).
  - apply forward_bind; [by eexists|intros ? ? ? []].
  - apply owner_bind. apply forward_bind; [done|]. intros r1 r2 s' (l1 & l2 & E1 & E2 & Hl). rewrite E1, E2.
    unfold abind, parsed, aret. by rewrite (logs_alike _ _ Hl).
  - apply owner_bind. apply forward_bind; [done|]. intros r1 r2 s' (l1 & l2 & E1 & E2 & Hl). rewrite E1, E2.
    by rewrite (logs_alike _ _ Hl).
  - apply forward_bind; [done|intros ? ? ? []].
  - apply owner_bind. apply forward_bind; [done|intros ? ? ? []].
Qed.
End Two.
End Confined.

(** C33. An account that asks through the proxy cannot tell apart two upstream nodes
    whose answers to its own requests differ in hidden parts only: the fields
    "transactions" and "logsBloom" of blocks (no other field is hidden: gas
    used, size and roots show), transactions and receipts of others, and logs it
    is not a party to.  It gets the same HTTP responses from both,
    whatever it sends. *)
Theorem proxy_confined {W : Wire} {U Bloom Tx : Type} `{!EqDecision (FilterId W), !Countable (FilterId W)}
    (P : ProxyWire W Bloom) logs_bloom (decode_2718 : list Z -> option Tx) tx_recover_signer keccak256 auth post1 post2 :
  upstreams_alike (U:=U) P decode_2718 tx_recover_signer auth post1 post2 ->
  forall de_requests de_one body s,
    handle_rpc keccak256 (proxy_api P logs_bloom decode_2718 tx_recover_signer post1) de_requests de_one (Ok auth) body s =
    handle_rpc keccak256 (proxy_api P logs_bloom decode_2718 tx_recover_signer post2) de_requests de_one (Ok auth) body s.
Proof. intros H. apply handle_rpc_ext. by apply proxies_agree. Qed.

(** ** Witnesses: concrete upstream nodes

    Two upstream nodes that Alice cannot tell apart through the proxy, and
    three answers in which the proxy differs from the node's own handlers. *)

From S2P Require Import TempoState.
From S2P Require Import NodeRpc.
From S2P Require Import NodeRpcWitness.
#[local] Open Scope string_scope.
#[local] Open Scope Z_scope.

Module ProxyExamples.

#[local] Instance proxy_id_dec : EqDecision (FilterId toy_wire) := Z.eq_dec.
#[local] Instance proxy_id_countable : Countable (FilterId toy_wire) := Z_countable.

(** A raw result is a number and its blocks and logs are looked up. *)
Definition block_json (gas_used : Z) (txs : list Json) : Json :=
  JObj [("number", JNum 7); ("gasUsed", JNum gas_used); ("transactions", JArr txs); ("logsBloom", JStr "0x01")].
Definition blocks (raw : Raw toy_wire) : result string Json :=
  match raw with
  | [1] => Ok (block_json 21000 [JStr "0xa"])
  | [2] => Ok (block_json 21000 [JStr "0xa"; JStr "0xb"])
  | [3] => Ok (block_json 42000 [JStr "0xa"; JStr "0xb"])
  | _ => Err "not a block"
  end.
Definition raw_of_json (v : Json) : Raw toy_wire :=
  match json_get v "gasUsed", json_get v "transactions" with
  | Some (JNum g), Some (JArr l) => [g; Z.of_nat (length l)]
  | _, _ => []
  end.
Definition logs_of (raw : Raw toy_wire) : result string (list Log) :=
  match raw with
  | [4] => Ok [transfer 2 ALICE BOB 0]
  | [5] => Ok [transfer 2 BOB BOB 0; transfer 2 ALICE BOB 1]
  | _ => Err "not logs"
  end.
Definition toy_proxy_wire : ProxyWire toy_wire unit :=
  mkProxyWire toy_wire unit blocks raw_of_json (fun _ => Err "no") (fun _ => Err "no") (fun _ => []) logs_of
    (fun logs => (fun l => default 0 (log_index l)) <$> logs) (fun raw => match raw with [id] => Ok id | _ => Err "no id" end)
    (fun _ => Err "no key") [0] [0] (fun a e => [a; e]) (fun _ => []) (fun _ => None).

Definition Fields : Type := Field (Raw toy_wire) * Field JsonRpcError.
Definition upstream (block logs : Z) (call : UpstreamCall toy_wire) (u : unit) : result string Fields * unit :=
  (Ok (match call with
       | UGetBlockByNumber _ _ => Present [block]
       | UGetLogs _ => Present [logs]
       | UCall r _ _ => Present (default [] (rq_input r))
       | _ => Null
       end, Absent), u).

Abbreviation toy_proxy post := (proxy_api toy_proxy_wire (fun _ => tt) (fun _ => @None unit) (fun _ => None) post).
Abbreviation toy_state := (@mkProxy toy_wire unit _ _ tt ∅).

Lemma proxy_confined_witness :
  let ask post text := handle_rpc (fun _ => 0) (toy_proxy post) (fun _ => Err "no batch") one_request
    (Ok (toy_auth ALICE)) (Some text) toy_state in
  ask (upstream 1 4) "hashes" = ask (upstream 2 5) "hashes" /\
  get_logs (toy_proxy (upstream 2 5)) filter_default (toy_auth ALICE) toy_state = (Ok [0], toy_state).
Proof.
  cbv zeta. split; [|vm_compute; reflexivity].
  apply (proxy_confined (U:=unit) toy_proxy_wire (fun _ => tt) (fun _ => @None unit) (fun _ => None) (fun _ => 0) (toy_auth ALICE)
    (upstream 1 4) (upstream 2 5)).
  intros call [[] owners] Hown. split; [by destruct call|]. destruct call; try (by left); try reflexivity.
  - right. exists (block_json 21000 [JStr "0xa"]), (block_json 21000 [JStr "0xa"; JStr "0xb"]). split; [done|]. split; [done|].
    eexists _, _. split; [reflexivity|]. split; [reflexivity|]. split; [refine (bool_decide_unpack _ _); by vm_compute|].
    repeat (constructor; [split; [done|first [by right|left; refine (bool_decide_unpack _ _); by vm_compute]]|]). constructor.
  - right. exists [transfer 2 ALICE BOB 0], [transfer 2 BOB BOB 0; transfer 2 ALICE BOB 1]. repeat split.
Defined.

(** A transaction the upstream does not know is an internal error, although the
    handler passes a null result on. *)
Example unknown_transaction_is_an_error :
  (transaction_by_hash (toy_proxy (upstream 1 4)) 5 (toy_auth ALICE) toy_state).1 =
  Err (internal "missing result in upstream response").
Proof. vm_compute. reflexivity. Qed.

(** The gas the transactions of others used shows in a proxied block; the node
    answers with a zero. *)
Example proxy_shows_gas_used :
  (block_by_number (toy_proxy (upstream 2 4)) Latest false (toy_auth ALICE) toy_state).1 <>
  (block_by_number (toy_proxy (upstream 3 4)) Latest false (toy_auth ALICE) toy_state).1 /\
  (forall h, h_gas_used (redact_header h) = 0).
Proof. split; [vm_compute; discriminate|done]. Qed.

(** Bob's refund balance is read through the proxy by Alice; the node refuses. *)
Definition refund_query : TempoTransactionRequest (Rest toy_wire) :=
  mkRequest None (Some (TxCall ZONE_INBOX_ADDRESS)) (Some REFUNDS_SELECTOR) [] None None None None None false tt.
Example proxy_serves_refunds_of_others :
  (call (toy_proxy (upstream 1 4)) refund_query None None (toy_auth ALICE) toy_state).1 = Ok REFUNDS_SELECTOR /\
  enforce_authorized (fun _ => Some BOB) refund_query (toy_auth ALICE) (Ok false) = Err account_mismatch.
Proof. split; vm_compute; reflexivity. Qed.
End ProxyExamples.
