(* ===== verification/ZoneEvm.v ===== *)
(** * The zone EVM and its small precompiles

    evm/src/: the guard on contract creation (zone_evm/), the transaction-hash
    context (tx_context.rs), the block executor (executor.rs) and the table of
    precompiles (lib.rs); the dispatchers of the AES-GCM, Chaum-Pedersen and
    token-factory precompiles (precompiles/src/); the chain ids of
    primitives/src/constants.rs.  What revm does with a transaction is an input:
    the outcome it would have and the operations, in order, at which it comes
    back to the zone's hooks. *)

From stdpp Require Import gmap list strings.
From S2P Require Import Prelude.
From S2P Require Import OrderbookModel.
From S2P Require Import PolicyCheck.
From S2P Require Import TempoState.
From S2P Require Import Ecies.
From S2P Require Import RpcTypes.
From S2P Require Import RpcPolicy.
#[local] Open Scope string_scope.
#[local] Open Scope Z_scope.

(** ** Chain ids *)

Definition ZONE_CHAIN_ID_BASE : Z := 421700000.
Definition ZONE_CHAIN_ID_RANGE : Z := 1002610000.
Definition ZONE_CHAIN_ID_BASE_TESTNET : Z := 1424310000.
Definition ZONE_CHAIN_ID_RANGE_TESTNET : Z := 723173648.
Definition zone_chain_id (zone_id : Z) : Z := ZONE_CHAIN_ID_BASE + zone_id mod ZONE_CHAIN_ID_RANGE.
Definition zone_chain_id_testnet (zone_id : Z) : Z :=
  ZONE_CHAIN_ID_BASE_TESTNET + zone_id mod ZONE_CHAIN_ID_RANGE_TESTNET.

(** ** Contract creation *)

(** A transaction environment: caller, kind, the calls of an AA transaction,
    and what the fee logic reads of the rest. *)
Record TempoTxEnv := mkTxEnv {
  te_caller : Z;
  te_kind : TxKind;
  te_aa_calls : option (list TxKind);
  te_rest : Z
}.

Inductive InstructionResult := NotActivated.
Inductive TempoInvalidTransaction := CallsValidation (text : string).

Definition contract_creation_deployer (tx : TempoTxEnv) : option Z :=
  let creates := match te_aa_calls tx with
                 | Some aa_calls => existsb is_create aa_calls
                 | None => is_create (te_kind tx)
                 end in
  if creates then Some (te_caller tx) else None.

Definition validate_transaction (tx : TempoTxEnv) (allowlist : list Z) : result TempoInvalidTransaction unit :=
  match contract_creation_deployer tx with
  | Some deployer =>
    if bool_decide (deployer ∈ allowlist) then Ok tt
    else Err (CallsValidation "contract creation is not supported")
  | None => Ok tt
  end.

(** CREATE and CREATE2 in a frame with storage context [target_address];
    [revm_create] is whether revm's own instruction creates the contract. *)
Definition create_instruction (allowlist : list Z) (target_address : Z) (revm_create : bool)
    : result InstructionResult (option Z) :=
  if negb (bool_decide (target_address ∈ allowlist)) then Err NotActivated
  else Ok (if revm_create then Some target_address else None).

(** ** The transaction hash *)

Record ContextInput := mkContextInput {
  ci_direct : bool; ci_caller : Z; ci_target_address : Z; ci_value : Z;
  ci_block_number : Z; ci_block_timestamp : Z; ci_data : list Z
}.
Inductive ContextBytes := CtxEmpty | CtxDelegateCallNotAllowed | CtxHash (h : Z).

Section Zone.
Context (keccak256 : list Z -> Z).
(** The selector is a hash in the source; its bytes matter only as a key. *)
Context (current_tx_hash_selector : list Z).

Definition synthetic_preimage (i : ContextInput) : list Z :=
  ascii_bytes "zone-tx-context" ++ be_bytes 20 (ci_caller i) ++ be_bytes 20 (ci_target_address i) ++
  be_bytes 32 (ci_value i) ++ be_bytes 32 (ci_block_number i) ++ be_bytes 32 (ci_block_timestamp i) ++ ci_data i.
Definition synthetic_tx_hash (i : ContextInput) : Z := keccak256 (synthetic_preimage i).

(** [ZoneTxContext::create]: gas and bytes; [current] is the thread's slot. *)
Definition zone_tx_context (current : option Z) (i : ContextInput) : Output ContextBytes :=
  if negb (ci_direct i) then mkOutput Reverted 0 CtxDelegateCallNotAllowed
  else if (length (ci_data i) <? 4)%nat then mkOutput Reverted 0 CtxEmpty
  else if negb (bool_decide (take 4 (ci_data i) = current_tx_hash_selector)) then mkOutput Reverted 0 CtxEmpty
  else mkOutput Succeeded 20 (CtxHash (default (synthetic_tx_hash i) current)).

(** ** Executing a block *)

(** What the zone's hooks see of the machine. *)
Record ZoneCtx := mkZoneCtx {
  zc_tx : TempoTxEnv;                  (** the transaction in the context *)
  zc_journal : gmap (Z * Z) Z;
  zc_current_tx_hash : option Z;       (** the thread's slot *)
  zc_created : list Z                  (** deployers of the contracts created *)
}.
Definition set_tx (tx : TempoTxEnv) (w : ZoneCtx) : ZoneCtx :=
  mkZoneCtx tx (zc_journal w) (zc_current_tx_hash w) (zc_created w).
Definition set_journal (j : gmap (Z * Z) Z) (w : ZoneCtx) : ZoneCtx :=
  mkZoneCtx (zc_tx w) j (zc_current_tx_hash w) (zc_created w).
Definition set_hash (h : option Z) (w : ZoneCtx) : ZoneCtx :=
  mkZoneCtx (zc_tx w) (zc_journal w) h (zc_created w).
Definition add_created (d : list Z) (w : ZoneCtx) : ZoneCtx :=
  mkZoneCtx (zc_tx w) (zc_journal w) (zc_current_tx_hash w) (zc_created w ++ d).

Definition set_current_tx_hash (tx_hash : Z) (w : ZoneCtx) : ZoneCtx := set_hash (Some tx_hash) w.
Definition clear_current_tx_hash (w : ZoneCtx) : ZoneCtx := set_hash None w.

Inductive Op := OpCreate (is_create2 : bool) (target_address : Z) (revm_create : bool) | OpTxContext (i : ContextInput).
Inductive OpResult := ResCreate (r : result InstructionResult (option Z)) | ResTxContext (o : Output ContextBytes).

(** What revm does with a transaction that is not refused: fail, or run. *)
Record Execution := mkExecution { ex_error : option string; ex_top_level_create : bool; ex_ops : list Op }.
Inductive ExecError := InvalidTransaction (e : TempoInvalidTransaction) | EvmError (text : string).

Section Policy.
Context (allowlist : list Z).

Definition run_op (op : Op) (w : ZoneCtx) : OpResult * ZoneCtx :=
  match op with
  | OpCreate _ target revm_create =>
    let r := create_instruction allowlist target revm_create in
    (ResCreate r, match r with Ok (Some d) => add_created [d] w | _ => w end)
  | OpTxContext i => (ResTxContext (zone_tx_context (zc_current_tx_hash w) i), w)
  end.
Fixpoint run_ops (ops : list Op) (w : ZoneCtx) : list OpResult * ZoneCtx :=
  match ops with
  | [] => ([], w)
  | op :: ops =>
    let '(r, w) := run_op op w in
    let '(rs, w) := run_ops ops w in (r :: rs, w)
  end.

(** The top-level frames revm runs for a transaction: the calls of an AA
    transaction, whose outer kind is synthetic, else the one of its kind; and
    the deployers of the contracts these frames create when they succeed. *)
Definition top_level_frames (tx : TempoTxEnv) : list TxKind :=
  match te_aa_calls tx with Some calls => calls | None => [te_kind tx] end.
Definition top_level_created (tx : TempoTxEnv) : list Z :=
  flat_map (fun kind => match kind with TxCreate => [te_caller tx] | TxCall _ => [] end) (top_level_frames tx).

(** [ZoneEvm::transact_raw]; revm loads the transaction into the context. *)
Definition transact_raw (tx : TempoTxEnv) (ex : Execution) (w : ZoneCtx) : result ExecError (list OpResult) * ZoneCtx :=
  match validate_transaction tx allowlist with
  | Err e => (Err (InvalidTransaction e), w)
  | Ok _ =>
    match ex_error ex with
    | Some text => (Err (EvmError text), set_tx tx w)
    | None =>
      let w := set_tx tx w in
      let w := if ex_top_level_create ex then add_created (top_level_created tx) w else w in
      let '(rs, w) := run_ops (ex_ops ex) w in (Ok rs, w)
    end
  end.

(** The fee logic of Tempo: the payer of a transaction, its token in a state,
    and the slot of a validator's preference. *)
Context (tx_fee_payer : TempoTxEnv -> option Z)
        (get_fee_token : gmap (Z * Z) Z -> TempoTxEnv -> Z -> result string Z)
        (TIP_FEE_MANAGER_ADDRESS : Z) (validator_token_slot : Z -> Z) (beneficiary : Z).

Definition override_validator_token (w : ZoneCtx) : ZoneCtx :=
  let fee_payer := default (te_caller (zc_tx w)) (tx_fee_payer (zc_tx w)) in
  match get_fee_token (zc_journal w) (zc_tx w) fee_payer with
  | Err _ => w
  | Ok fee_token =>
    set_journal (<[(TIP_FEE_MANAGER_ADDRESS, validator_token_slot beneficiary) := fee_token]> (zc_journal w)) w
  end.

(** The hash is published for the duration of the execution; the guard clears
    it when it is dropped, after an error too. *)
Definition execute_transaction_without_commit (tx : TempoTxEnv) (tx_hash : Z) (ex : Execution) (w : ZoneCtx)
    : result ExecError (list OpResult) * ZoneCtx :=
  let w := override_validator_token w in
  let w := set_current_tx_hash tx_hash w in
  let '(r, w) := transact_raw tx ex w in
  (r, clear_current_tx_hash w).

Fixpoint execute_block (txs : list (TempoTxEnv * Z * Execution)) (w : ZoneCtx)
    : list (result ExecError (list OpResult)) * ZoneCtx :=
  match txs with
  | [] => ([], w)
  | (tx, tx_hash, ex) :: txs =>
    let '(r, w) := execute_transaction_without_commit tx tx_hash ex w in
    let '(rs, w) := execute_block txs w in (r :: rs, w)
  end.
End Policy.
End Zone.

(** ** The table of precompiles *)

Definition ZONE_TX_CONTEXT_ADDRESS : Z := 0x1c00000000000000000000000000000000000005.
Definition CHAUM_PEDERSEN_VERIFY_ADDRESS : Z := 0x1C00000000000000000000000000000000000100.
Definition AES_GCM_DECRYPT_ADDRESS : Z := 0x1C00000000000000000000000000000000000101.
Definition ZONE_TIP20_FACTORY_ADDRESS : Z := 0x20Fc000000000000000000000000000000000000.

Inductive ZonePrecompile :=
  | PTempoState | PTxContext | PChaumPedersen | PAesGcm | PTokenFactory | PTip403Proxy | PDarkpool
  | PTip20 (token : Z) | PFeeManager | PNonceManager | PAccountKeychain
  | PBase (address : Z).

(** Addresses and predicate of the Tempo crates. *)
Record TempoAddresses := mkTempoAddresses {
  ta_tip403_registry : Z;
  ta_tip_fee_manager : Z;
  ta_stablecoin_dex : Z;
  ta_nonce_manager : Z;
  ta_account_keychain : Z;
  is_tip20_prefix : Z -> bool;
  ta_base : Z -> bool                 (** static precompiles of the Tempo EVM *)
}.

Section Table.
Context (A : TempoAddresses).

(** The entries [apply_precompile] puts into the static map. *)
Definition static_precompiles (policy_provider : bool) : list (Z * ZonePrecompile) :=
  [(TEMPO_STATE_ADDRESS, PTempoState); (ZONE_TX_CONTEXT_ADDRESS, PTxContext);
   (CHAUM_PEDERSEN_VERIFY_ADDRESS, PChaumPedersen); (AES_GCM_DECRYPT_ADDRESS, PAesGcm);
   (ZONE_TIP20_FACTORY_ADDRESS, PTokenFactory)] ++
  (if policy_provider then [(ta_tip403_registry A, PTip403Proxy)] else []) ++ [(DARKPOOL_ADDRESS, PDarkpool)].

Fixpoint assoc {B} (k : Z) (l : list (Z * B)) : option B :=
  match l with
  | [] => None
  | (k', b) :: l => if k =? k' then Some b else assoc k l
  end.

(** The closure given to [set_precompile_lookup]. *)
Definition precompile_lookup (address : Z) : option ZonePrecompile :=
  if is_tip20_prefix A address then Some (PTip20 address)
  else if address =? ta_tip_fee_manager A then Some PFeeManager
  else if address =? ta_stablecoin_dex A then None
  else if address =? ta_nonce_manager A then Some PNonceManager
  else if address =? ta_account_keychain A then Some PAccountKeychain
  else None.

(** A static entry, the zone's over the base's, before the lookup. *)
Definition precompile_at (policy_provider : bool) (address : Z) : option ZonePrecompile :=
  match assoc address (static_precompiles policy_provider) with
  | Some p => Some p
  | None => if ta_base A address then Some (PBase address) else precompile_lookup address
  end.
End Table.

(** ** AES-GCM and Chaum-Pedersen dispatchers *)

Definition AES_GCM_BASE_GAS : Z := 1000.
Definition AES_GCM_PER_BYTE_GAS : Z := 3.
Definition CP_VERIFY_GAS : Z := 6000.

Record decryptCall := mkDecryptCall {
  dc_key : list Z; dc_nonce : list Z; dc_ciphertext : list Z; dc_aad : list Z; dc_tag : list Z
}.
Record verifyProofCall := mkVerifyCall {
  vc_ephemeralPubX : Z; vc_ephemeralPubYParity : Z; vc_sharedSecret : Z; vc_sharedSecretYParity : Z;
  vc_sequencerPubX : Z; vc_sequencerPubYParity : Z; vc_s : Z; vc_c : Z
}.
Inductive CryptoBytes := CryptoEmpty | CryptoUnknownSelector | RetDecrypt (plaintext : list Z) (valid : bool) | RetVerify (valid : bool).

Section Crypto.
Context `{Curve} `{Primitives}.
Context (input_cost : list Z -> Z).

Definition aes_gcm_call (abi_decode : list Z -> option decryptCall) (gas : Z) (calldata : list Z) : Output CryptoBytes :=
  match deduct_gas (mkGas gas 0) (input_cost calldata) with
  | None => mkOutput HaltedOutOfGas 0 CryptoEmpty
  | Some g =>
    match abi_decode calldata with
    | None => mkOutput Reverted (gas_used g) CryptoUnknownSelector
    | Some call =>
      let cost := AES_GCM_BASE_GAS + AES_GCM_PER_BYTE_GAS *
                    (Z.of_nat (length (dc_ciphertext call)) + Z.of_nat (length (dc_aad call))) in
      match deduct_gas g cost with
      | None => mkOutput HaltedOutOfGas (gas_used g) CryptoEmpty
      | Some g =>
        let '(plaintext, valid) :=
          decrypt_aes_gcm (dc_key call) (dc_nonce call) (dc_ciphertext call) (dc_aad call) (dc_tag call) in
        mkOutput Succeeded (gas_used g) (RetDecrypt plaintext valid)
      end
    end
  end.

Definition chaum_pedersen_call (abi_decode : list Z -> option verifyProofCall) (gas : Z) (calldata : list Z)
    : Output CryptoBytes :=
  match deduct_gas (mkGas gas 0) (input_cost calldata) with
  | None => mkOutput HaltedOutOfGas 0 CryptoEmpty
  | Some g =>
    match abi_decode calldata with
    | None => mkOutput Reverted (gas_used g) CryptoUnknownSelector
    | Some call =>
      match deduct_gas g CP_VERIFY_GAS with
      | None => mkOutput HaltedOutOfGas (gas_used g) CryptoEmpty
      | Some g =>
        mkOutput Succeeded (gas_used g) (RetVerify
          (verify_chaum_pedersen (vc_ephemeralPubX call) (vc_ephemeralPubYParity call) (vc_sharedSecret call)
             (vc_sharedSecretYParity call) (vc_sequencerPubX call) (vc_sequencerPubYParity call) (vc_s call) (vc_c call)))
      end
    end
  end.
End Crypto.

(** ** The token factory *)

Record enableTokenCall := mkEnableToken { et_token : Z; et_name : string; et_symbol : string; et_currency : string }.
Inductive FactoryBytes := FactoryEmpty | FactoryUnknownSelector | OnlyInbox | FactoryDelegateCall | TokenError (text : string).

(** The token precompile's storage: [TIP20Token]. *)
Class FactoryToken (S : Type) := {
  ft_from_address : Z -> S -> result string unit;
  ft_initialize : Z -> Z -> string -> string -> string -> Z -> Z -> S -> result string S;
  ft_grant_role_internal : Z -> Z -> Z -> S -> result string S
}.

Section Factory.
Context {S : Type} `{FactoryToken S}.
Context (PATH_USD_ADDRESS ISSUER_ROLE : Z).
Context (input_cost : list Z -> Z) (abi_decode : list Z -> option enableTokenCall).

Definition enable_token (call : enableTokenCall) (s : S) : result string S :=
  let token := et_token call in
  match ft_from_address token s with
  | Err e => Err e
  | Ok _ =>
    match ft_initialize token ZONE_INBOX_ADDRESS (et_name call) (et_symbol call) (et_currency call)
            PATH_USD_ADDRESS ZONE_INBOX_ADDRESS s with
    | Err e => Err e
    | Ok s =>
      match ft_grant_role_internal token ZONE_INBOX_ADDRESS ISSUER_ROLE s with
      | Err e => Err e
      | Ok s => ft_grant_role_internal token ZONE_OUTBOX_ADDRESS ISSUER_ROLE s
      end
    end
  end.

(** The frame drops the writes of a call that does not succeed; a static call
    fails in the token's writes.  Gas of the token's own storage accesses is
    left out. *)
Definition factory_call (gas : Z) (msg_sender : Z) (calldata : list Z) (s : S) : Output FactoryBytes * S :=
  match deduct_gas (mkGas gas 0) (input_cost calldata) with
  | None => (mkOutput HaltedOutOfGas 0 FactoryEmpty, s)
  | Some g =>
    if negb (msg_sender =? ZONE_INBOX_ADDRESS) then (mkOutput Reverted (gas_used g) OnlyInbox, s)
    else match abi_decode calldata with
    | None => (mkOutput Reverted (gas_used g) FactoryUnknownSelector, s)
    | Some call =>
      match enable_token call s with
      | Err e => (mkOutput Reverted (gas_used g) (TokenError e), s)
      | Ok s' => (mkOutput Succeeded (gas_used g) FactoryEmpty, s')
      end
    end
  end.

Definition factory_create (is_direct_call : bool) (gas : Z) (caller : Z) (calldata : list Z) (s : S)
    : Output FactoryBytes * S :=
  if negb is_direct_call then (mkOutput Reverted 0 FactoryDelegateCall, s)
  else factory_call gas caller calldata s.
End Factory.
