(* ===== verification/ZoneEvmProofs.v ===== *)
(** * The zone EVM: properties

    No contract is created on a zone, the hash an executing transaction reads is
    its own, token calls reach the policy-enforcing wrapper, and the small
    precompiles do what they are there for. *)

From stdpp Require Import gmap list strings.
From S2P Require Import Prelude.
From S2P Require Import OrderbookModel.
From S2P Require Import PolicyCheck.
From S2P Require Import TempoState.
From S2P Require Import Ecies.
From S2P Require Import EciesProofs.
From S2P Require Import RpcPolicy.
From S2P Require Import ZoneEvm.
#[local] Open Scope Z_scope.

Section Blocks.
Context (keccak256 : list Z -> Z) (selector : list Z).

(** The answer to a hook inside transaction [h], by the contract of each. *)
Definition op_answered (h : Z) (op : Op) (r : OpResult) : Prop :=
  match op, r with
  | OpCreate _ _ _, ResCreate r => r = Err NotActivated
  | OpTxContext i, ResTxContext o =>
    if ci_direct i && (4 <=? length (ci_data i))%nat && bool_decide (take 4 (ci_data i) = selector)
    then o = mkOutput Succeeded 20 (CtxHash h) else o_status o = Reverted /\ o_gas_used o = 0
  | _, _ => False
  end.

(** Some top-level frame of the transaction is a contract creation. *)
Definition creates_contract (tx : TempoTxEnv) : Prop := TxCreate ∈ top_level_frames tx.

(** The outcome of a transaction. *)
Definition tx_outcome (t : TempoTxEnv * Z * Execution) (r : result ExecError (list OpResult)) : Prop :=
  match r with
  | Ok rs => ~ creates_contract t.1.1 /\ ex_error t.2 = None /\ Forall2 (op_answered t.1.2) (ex_ops t.2) rs
  | Err (InvalidTransaction _) => creates_contract t.1.1
  | Err (EvmError text) => ~ creates_contract t.1.1 /\ ex_error t.2 = Some text
  end.

(** The guard finds a deployer exactly for the transactions that create. *)
Lemma deployer_creates tx : is_Some (contract_creation_deployer tx) <-> creates_contract tx.
Proof.
  assert (Hex : existsb is_create (top_level_frames tx) = true <-> creates_contract tx).
  { rewrite existsb_exists. unfold creates_contract. rewrite list_elem_of_In. split; [by intros ([] & ? & ?)|eauto]. }
  rewrite <-Hex. clear Hex. unfold contract_creation_deployer, top_level_frames.
  destruct (te_aa_calls tx); cbn [existsb]; rewrite ?orb_false_r; [destruct (existsb _ _)|destruct (is_create _)]; split; intros Hc; (done || by destruct Hc || by eexists).
Qed.
Lemma no_creation_no_contract tx : ~ creates_contract tx -> top_level_created tx = [].
Proof.
  unfold creates_contract, top_level_created. induction (top_level_frames tx) as [|[a|] l IH]; cbn; [done|set_solver..].
Qed.

Lemma tx_context_answered h i : op_answered h (OpTxContext i) (ResTxContext (zone_tx_context keccak256 selector (Some h) i)).
Proof.
  unfold op_answered, zone_tx_context. destruct (ci_direct i); [|done]. cbn [negb andb].
  destruct (Nat.ltb_spec (length (ci_data i)) 4) as [Hl|Hl].
  - rewrite (proj2 (Nat.leb_gt _ _)) by lia. done.
  - rewrite (proj2 (Nat.leb_le _ _)) by lia. cbn [andb]. by destruct (bool_decide _).
Qed.

Lemma run_ops_spec ops w h :
  zc_current_tx_hash w = Some h ->
  let '(rs, w') := run_ops keccak256 selector [] ops w in Forall2 (op_answered h) ops rs /\ w' = w.
Proof.
  intros Hh. induction ops as [|op ops IH]; cbn [run_ops]; [done|].
  assert (Hop : exists r, run_op keccak256 selector [] op w = (r, w) /\ op_answered h op r).
  { destruct op as [c target b|i]; cbn [run_op].
    - eexists. split; [done|]. done.
    - eexists. split; [done|]. rewrite Hh. apply tx_context_answered. }
  destruct Hop as (r & -> & Hr). destruct (run_ops keccak256 selector [] ops w) as [rs w'].
  destruct IH as [IH ->]. split; [by constructor|done].
Qed.

Lemma transact_spec tx h ex w :
  zc_current_tx_hash w = Some h ->
  let '(r, w') := transact_raw keccak256 selector [] tx ex w in
  tx_outcome (tx, h, ex) r /\ zc_created w' = zc_created w.
Proof.
  intros Hh. unfold transact_raw, validate_transaction. pose proof (deployer_creates tx) as Hd.
  destruct (contract_creation_deployer tx) as [d|].
  - rewrite bool_decide_eq_false_2 by apply not_elem_of_nil. cbn. split; [by apply Hd|done].
  - assert (Hn : ~ creates_contract tx) by (intros Hc; by apply Hd in Hc as [? ?]). cbn.
    destruct (ex_error ex) as [text|] eqn:Ee; [by cbn|]. rewrite (no_creation_no_contract _ Hn).
    assert (Hw : zc_current_tx_hash (if ex_top_level_create ex then add_created [] (set_tx tx w) else set_tx tx w) = Some h /\
                 zc_created (if ex_top_level_create ex then add_created [] (set_tx tx w) else set_tx tx w) = zc_created w)
      by (destruct (ex_top_level_create ex); cbn; rewrite ?app_nil_r; done).
    destruct Hw as [H1 H2]. pose proof (run_ops_spec (ex_ops ex) _ _ H1) as Hr.
    destruct (run_ops _ _ _ _ _) as [rs w']. destruct Hr as [Hr ->]. by cbn.
Qed.
End Blocks.

(** C27. For every block and whatever revm does with its transactions: no contract is
    created (a transaction is refused as invalid exactly when one of its
    top-level frames - its calls if it is an AA transaction, its own kind
    otherwise - is a creation, and CREATE and CREATE2 halt in every frame); every direct [currentTxHash] call made while a transaction executes
    is answered with that transaction's own hash, every other call to the
    context reverts; and nothing is left of a hash after the block, also when
    transactions fail. *)
Theorem zone_block_effects keccak256 selector tx_fee_payer get_fee_token fee_manager slot_of beneficiary txs w :
  let '(rs, w') := execute_block keccak256 selector CONTRACT_DEPLOYER_ALLOWLIST tx_fee_payer get_fee_token
                     fee_manager slot_of beneficiary txs w in
  Forall2 (tx_outcome selector) txs rs /\ zc_created w' = zc_created w /\
  (txs <> [] -> zc_current_tx_hash w' = None).
Proof.
  revert w. induction txs as [|[[tx h] ex] txs IH]; intros w; cbn [execute_block]; [done|].
  unfold execute_transaction_without_commit. set (w0 := override_validator_token _ _ _ _ _ w).
  assert (H0 : zc_created w0 = zc_created w).
  { unfold w0, override_validator_token. by destruct (get_fee_token _ _ _). }
  pose proof (transact_spec keccak256 selector tx h ex (set_current_tx_hash h w0) eq_refl) as Ht.
  change CONTRACT_DEPLOYER_ALLOWLIST with (@nil Z) in *.
  destruct (transact_raw _ _ _ _ _ _) as [r w1]. destruct Ht as [Ht1 Ht2].
  specialize (IH (clear_current_tx_hash w1)). destruct (execute_block _ _ _ _ _ _ _ _ _ _) as [rs w2] eqn:Eb.
  destruct IH as (IH1 & IH2 & IH3). split; [by constructor|]. split; [rewrite IH2; cbn; by rewrite Ht2|].
  intros _. destruct txs as [|t txs]; [cbn in Eb; by injection Eb as <- <-|by apply IH3].
Qed.

(** With an allowlist, only its members deploy: the deployers of the contracts a
    run of operations creates are listed ones. *)
Lemma ops_deployers_listed keccak256 selector allowlist ops w :
  let '(_, w') := run_ops keccak256 selector allowlist ops w in
  exists new, zc_created w' = zc_created w ++ new /\ Forall (fun d => d ∈ allowlist) new.
Proof.
  revert w. induction ops as [|op ops IH]; intros w; cbn [run_ops]; [exists []; by rewrite app_nil_r|].
  destruct (run_op _ _ _ op w) as [r w1] eqn:E. specialize (IH w1).
  destruct (run_ops _ _ _ ops w1) as [rs w2]. destruct IH as (new & -> & Hn).
  destruct op as [c target b|i]; cbn [run_op] in E; [|injection E as <- <-; eauto].
  unfold create_instruction in E. destruct (bool_decide (target ∈ allowlist)) eqn:Hd; cbn [negb] in E.
  - apply bool_decide_eq_true in Hd. destruct b; injection E as <- <-; [|eauto].
    exists (target :: new). cbn. rewrite <-app_assoc. split; [done|by constructor].
  - injection E as <- <-. eauto.
Qed.

(** The fee token written for the validator before a transaction executes is
    that of the transaction before it: the context holds it until revm loads
    the next one. *)
Theorem override_uses_previous keccak256 selector allowlist tx_fee_payer get_fee_token fee_manager slot_of beneficiary
    tx h ex w token :
  validate_transaction tx allowlist = Ok tt ->
  let w' := (execute_transaction_without_commit keccak256 selector allowlist tx_fee_payer get_fee_token
               fee_manager slot_of beneficiary tx h ex w).2 in
  get_fee_token (zc_journal w') tx (default (te_caller tx) (tx_fee_payer tx)) = Ok token ->
  zc_journal (override_validator_token tx_fee_payer get_fee_token fee_manager slot_of beneficiary w')
    !! (fee_manager, slot_of beneficiary) = Some token.
Proof.
  intros Hv w' Ht. assert (Htx : zc_tx w' = tx).
  { unfold w', execute_transaction_without_commit, transact_raw. rewrite Hv.
    destruct (ex_error ex); [done|]. set (w1 := if ex_top_level_create ex then _ else _).
    assert (H1 : zc_tx w1 = tx) by (unfold w1; by destruct (ex_top_level_create ex)). revert H1. generalize w1 as w2.
    induction (ex_ops ex) as [|op ops IH]; intros w2 H2; cbn [run_ops]; [done|].
    destruct (run_op _ _ _ op w2) as [r w3] eqn:E. assert (H3 : zc_tx w3 = tx).
    { destruct op as [c target b|i]; cbn [run_op] in E; [|by injection E as <- <-].
      destruct (create_instruction allowlist target b) as [[d|]|]; by injection E as <- <-. }
    specialize (IH w3 H3). destruct (run_ops _ _ _ ops w3). done. }
  unfold override_validator_token. rewrite Htx, Ht. apply lookup_insert_eq.
Qed.

(** ** The table of precompiles *)

Lemma assoc_elem {B} k (b : B) l : NoDup l.*1 -> (k, b) ∈ l -> assoc k l = Some b.
Proof.
  induction l as [|[k' b'] l IH]; cbn; intros Hn Hin; [by apply not_elem_of_nil in Hin|].
  apply NoDup_cons in Hn as [Hk Hn]. apply elem_of_cons in Hin as [[= -> ->]|Hin]; [by rewrite Z.eqb_refl|].
  rewrite (proj2 (Z.eqb_neq _ _)); [by apply IH|]. intros ->. apply Hk. apply list_elem_of_fmap. by exists (k', b).
Qed.
Lemma assoc_not_elem {B} k (l : list (Z * B)) : k ∉ l.*1 -> assoc k l = None.
Proof.
  induction l as [|[k' b'] l IH]; cbn; intros Hn; [done|]. rewrite (proj2 (Z.eqb_neq _ _)) by set_solver.
  apply IH. set_solver.
Qed.

(** Every zone precompile answers at its own address; a call to any TIP-20
    token reaches the policy-enforcing wrapper of that token; the exchange of
    Tempo is not reachable on a zone. *)
Theorem precompile_routing A policy_provider :
  NoDup (static_precompiles A policy_provider).*1 ->
  (forall a, is_tip20_prefix A a = true -> a ∉ (static_precompiles A policy_provider).*1 /\ ta_base A a = false) ->
  (forall a p, (a, p) ∈ static_precompiles A policy_provider -> precompile_at A policy_provider a = Some p) /\
  (forall token, is_tip20_prefix A token = true -> precompile_at A policy_provider token = Some (PTip20 token)) /\
  (ta_stablecoin_dex A ∉ (static_precompiles A policy_provider).*1 -> ta_base A (ta_stablecoin_dex A) = false ->
   is_tip20_prefix A (ta_stablecoin_dex A) = false -> ta_stablecoin_dex A <> ta_tip_fee_manager A ->
   precompile_at A policy_provider (ta_stablecoin_dex A) = None).
Proof.
  intros Hn Hp. split; [|split].
  - intros a p Hin. unfold precompile_at. by rewrite (assoc_elem _ _ _ Hn Hin).
  - intros t Ht. destruct (Hp t Ht) as [H1 H2]. unfold precompile_at, precompile_lookup.
    by rewrite (assoc_not_elem _ _ H1), H2, Ht.
  - intros H1 H2 H3 H4. unfold precompile_at, precompile_lookup.
    by rewrite (assoc_not_elem _ _ H1), H2, H3, (proj2 (Z.eqb_neq _ _) H4), Z.eqb_refl.
Qed.

(** ** The crypto precompiles *)

Section Crypto.
Context {CV : Curve} {PR : Primitives} (CI : CipherLaws).
Context (input_cost : list Z -> Z).

(** What [encrypt_deposit] produced, the precompile decrypts, given gas for the
    input and for the bytes; with less it halts. *)
Theorem aes_gcm_call_exact abi_decode calldata key nonce plaintext e gas :
  0 <= input_cost calldata ->
  aes_encrypt key nonce plaintext = Some e ->
  abi_decode calldata = Some (mkDecryptCall key nonce (take (length e - 16) e) [] (drop (length e - 16) e)) ->
  let cost := input_cost calldata + AES_GCM_BASE_GAS + AES_GCM_PER_BYTE_GAS * Z.of_nat (length plaintext) in
  aes_gcm_call input_cost abi_decode gas calldata =
    if cost <=? gas then mkOutput Succeeded cost (RetDecrypt plaintext true)
    else mkOutput HaltedOutOfGas (if input_cost calldata <=? gas then input_cost calldata else 0) CryptoEmpty.
Proof.
  intros Hic He Hd cost. destruct (ci_roundtrip CI _ _ _ _ He) as [Hl _].
  unfold aes_gcm_call, deduct_gas. cbn [gas_used gas_limit]. rewrite !Z.add_0_l, Hd.
  assert (Hbytes : Z.of_nat (length (take (length e - 16) e)) = Z.of_nat (length plaintext)) by (rewrite length_take; lia).
  cbn [dc_ciphertext dc_aad dc_key dc_nonce dc_tag length]. rewrite Hbytes, (decrypt_split CI _ _ _ _ He).
  change (Z.of_nat 0) with 0. rewrite Z.add_0_r.
  destruct (Z.leb_spec (input_cost calldata) gas) as [H1|H1].
  - cbn [gas_used gas_limit]. unfold cost.
    replace (input_cost calldata + (AES_GCM_BASE_GAS + AES_GCM_PER_BYTE_GAS * Z.of_nat (length plaintext)))
      with (input_cost calldata + AES_GCM_BASE_GAS + AES_GCM_PER_BYTE_GAS * Z.of_nat (length plaintext)) by lia.
    by destruct (_ <=? _).
  - rewrite (proj2 (Z.leb_gt _ _)); [done|]. unfold cost, AES_GCM_BASE_GAS, AES_GCM_PER_BYTE_GAS. lia.
Qed.
End Crypto.

(** ** The factory *)

(** Only the inbox enables tokens: any other caller, a delegated call or a call
    that fails leaves the tokens as they are, and a call that changes them is
    the inbox's and initialises one token with the two roles granted. *)
Theorem factory_only_inbox {S : Type} `{FactoryToken S} path_usd issuer input_cost abi_decode direct gas caller calldata s :
  let '(o, s') := factory_create path_usd issuer input_cost abi_decode direct gas caller calldata s in
  (o_status o <> Succeeded -> s' = s) /\
  (o_status o = Succeeded -> direct = true /\ caller = ZONE_INBOX_ADDRESS /\
   exists call, abi_decode calldata = Some call /\ enable_token path_usd issuer call s = Ok s').
Proof.
  unfold factory_create, factory_call. destruct direct; cbn [negb]; [|done]. destruct (deduct_gas _ _); [|done].
  destruct (Z.eqb_spec caller ZONE_INBOX_ADDRESS) as [->|]; cbn [negb]; [|done].
  destruct (abi_decode calldata) as [call|] eqn:E; [|done].
  destruct (enable_token path_usd issuer call s) as [s'|e] eqn:Es; [|done]. split; [done|]. intros _. eauto.
Qed.

(** ** Chain ids *)

(** Mainnet and testnet zones never share a chain id, ids stay below [2 ^ 31],
    and zones of one network whose numbers differ by less than its range have
    different ids. *)
Theorem chain_ids_separate z1 z2 :
  zone_chain_id z1 < zone_chain_id_testnet z2 < 2 ^ 31 /\
  (0 < Z.abs (z1 - z2) < ZONE_CHAIN_ID_RANGE -> zone_chain_id z1 <> zone_chain_id z2) /\
  (0 < Z.abs (z1 - z2) < ZONE_CHAIN_ID_RANGE_TESTNET -> zone_chain_id_testnet z1 <> zone_chain_id_testnet z2).
Proof.
  unfold zone_chain_id, zone_chain_id_testnet, ZONE_CHAIN_ID_BASE, ZONE_CHAIN_ID_BASE_TESTNET,
    ZONE_CHAIN_ID_RANGE, ZONE_CHAIN_ID_RANGE_TESTNET.
  pose proof (Z.mod_pos_bound z1 1002610000 ltac:(lia)). pose proof (Z.mod_pos_bound z2 723173648 ltac:(lia)).
  split; [lia|]. split; intros Hd E; apply Z.add_cancel_l in E.
  - rewrite (Z.div_mod z1 1002610000), (Z.div_mod z2 1002610000) in Hd by lia. rewrite E in Hd.
    lia.
  - rewrite (Z.div_mod z1 723173648), (Z.div_mod z2 723173648) in Hd by lia. rewrite E in Hd. lia.
Qed.
