(* ===== verification/PolicyTask.v ===== *)
(** * Warming the policy cache

    l1/src/state/tip403/task.rs (the resolution task and its handle),
    tip403/pool_prefetch.rs (requests drawn from pool transactions) and the
    start of node/src/node.rs that seeds the cache.  A resolution reads and
    writes the cache in one step, at the moment it completes; which of the
    task's branches is taken, and which resolution completes, is an input.
    Metrics and logging are left out. *)

From stdpp Require Import gmap list.
From S2P Require Import Prelude.
From S2P Require Import Policy.
From S2P Require Import PolicyProvider.
From S2P Require Import RpcPolicy.
#[local] Open Scope Z_scope.

#[export] Instance auth_role_eq : EqDecision AuthRole.
Proof. solve_decision. Defined.

(** ** The task *)

Record PolicyTaskMessage := ResolveAuthorization { rm_token : Z; rm_user : Z; rm_role : AuthRole }.
#[export] Instance task_message_eq : EqDecision PolicyTaskMessage.
Proof. solve_decision. Defined.

Record PolicyResolutionTask := mkTask {
  rx : list PolicyTaskMessage;                     (** the channel, oldest first *)
  rx_closed : bool;                                (** no handle is left *)
  stopped : bool;                                  (** the loop has ended *)
  channel_capacity : nat;
  max_concurrent : nat;
  in_flight : list (PolicyTaskMessage * Z);        (** with the block each asks about *)
  task_cache : PolicyCacheInner
}.

Definition set_rx (q : list PolicyTaskMessage) (t : PolicyResolutionTask) : PolicyResolutionTask :=
  mkTask q (rx_closed t) (stopped t) (channel_capacity t) (max_concurrent t) (in_flight t) (task_cache t).
Definition set_in_flight (q : list (PolicyTaskMessage * Z)) (c : PolicyCacheInner) (t : PolicyResolutionTask)
    : PolicyResolutionTask :=
  mkTask (rx t) (rx_closed t) (stopped t) (channel_capacity t) (max_concurrent t) q c.

Definition spawn_policy_resolution_task (cache : PolicyCacheInner) (max_concurrent channel_capacity : nat)
    : PolicyResolutionTask := mkTask [] false false channel_capacity max_concurrent [] cache.

(** The block is read when the message is taken from the channel. *)
Definition task_on_message (msg : PolicyTaskMessage) (t : PolicyResolutionTask) : PolicyResolutionTask :=
  set_in_flight (in_flight t ++ [(msg, last_l1_block (task_cache t))]) (task_cache t) t.

(** A branch of the [select!]: a message, or the completion of resolution [i]. *)
Inductive TaskEvent := Received | Completed (i : nat).

Section Task.
Context (rpc : L1Rpc).

(** The result is only logged; what it fetched stays in the cache. *)
Definition resolve_message (r : PolicyTaskMessage * Z) (c : PolicyCacheInner) : PolicyCacheInner :=
  (provider_is_authorized rpc (rm_token r.1) (rm_user r.1) r.2 (rm_role r.1) c).2.

(** One turn of [run]; [None] when the branch is not ready. *)
Definition task_poll (ev : TaskEvent) (t : PolicyResolutionTask) : option PolicyResolutionTask :=
  if stopped t then None
  else match ev with
  | Received =>
    if (length (in_flight t) <? max_concurrent t)%nat then
      match rx t with
      | [] => None
      | msg :: rest => Some (task_on_message msg (set_rx rest t))
      end
    else None
  | Completed i =>
    match in_flight t !! i with
    | None => None
    | Some r => Some (set_in_flight (delete i (in_flight t)) (resolve_message r (task_cache t)) t)
    end
  end.

(** The [else] branch: no message can come and nothing is in flight. *)
Definition task_breaks (t : PolicyResolutionTask) : bool :=
  negb (length (in_flight t) <? max_concurrent t)%nat && bool_decide (in_flight t = [])
  || rx_closed t && bool_decide (rx t = []) && bool_decide (in_flight t = []).

(** The loop ends; the channel is dropped with the task. *)
Definition task_stop (t : PolicyResolutionTask) : option PolicyResolutionTask :=
  if negb (stopped t) && task_breaks t then
    Some (mkTask [] (rx_closed t) true (channel_capacity t) (max_concurrent t) [] (task_cache t))
  else None.

Fixpoint task_run (evs : list TaskEvent) (t : PolicyResolutionTask) : option PolicyResolutionTask :=
  match evs with
  | [] => Some t
  | ev :: evs => t' ← task_poll ev t; task_run evs t'
  end.
End Task.

(** ** The handle *)

Inductive TrySendError := Full | Closed.

Definition send_resolve_policy (msg : PolicyTaskMessage) (t : PolicyResolutionTask)
    : result TrySendError unit * PolicyResolutionTask :=
  if stopped t then (Err Closed, t)
  else if (channel_capacity t <=? length (rx t))%nat then (Err Full, t)
  else (Ok tt, set_rx (rx t ++ [msg]) t).

(** The waiting version: [None] while the channel is full. *)
Definition resolve_authorization (msg : PolicyTaskMessage) (t : PolicyResolutionTask)
    : option (result TrySendError unit * PolicyResolutionTask) :=
  match send_resolve_policy msg t with
  | (Err Full, _) => None
  | r => Some r
  end.

(** ** Requests of the pool *)

(** Selectors and decoders of the four transfer calls, and the test for a
    token address. *)
Record TransferAbi := mkTransferAbi {
  ab_is_tip20_prefix : Z -> bool;
  ab_transfer : list Z;
  ab_transferWithMemo : list Z;
  ab_transferFrom : list Z;
  ab_transferFromWithMemo : list Z;
  ab_decode_transfer : list Z -> option Z;                 (** [to] *)
  ab_decode_transferWithMemo : list Z -> option Z;
  ab_decode_transferFrom : list Z -> option (Z * Z);       (** [from], [to] *)
  ab_decode_transferFromWithMemo : list Z -> option (Z * Z)
}.

Record PooledTx := mkPooledTx {
  pt_sender : Z;
  pt_fee_token : option Z;
  pt_fee_payer : option Z;                   (** [None] when recovery fails *)
  pt_calls : list (TxKind * list Z)
}.

Section Prefetch.
Context (A : TransferAbi) (DEFAULT_FEE_TOKEN : Z).

(** Sender and recipient of a call that is a transfer. *)
Definition decode_transfer_parties (sender : Z) (input : list Z) : option (Z * Z) :=
  if (length input <? 4)%nat then None
  else
    let selector := take 4 input in
    let args := drop 4 input in
    if bool_decide (selector = ab_transfer A) then to ← ab_decode_transfer A args; Some (sender, to)
    else if bool_decide (selector = ab_transferWithMemo A) then
      to ← ab_decode_transferWithMemo A args; Some (sender, to)
    else if bool_decide (selector = ab_transferFrom A) then ab_decode_transferFrom A args
    else if bool_decide (selector = ab_transferFromWithMemo A) then ab_decode_transferFromWithMemo A args
    else None.

(** The set of requests already made for the transaction, and the task. *)
Definition prefetch (msg : PolicyTaskMessage) (s : list PolicyTaskMessage * PolicyResolutionTask)
    : list PolicyTaskMessage * PolicyResolutionTask :=
  if bool_decide (msg ∈ s.1) then s else (msg :: s.1, (send_resolve_policy msg s.2).2).

Definition prefetch_call (sender : Z) (s : list PolicyTaskMessage * PolicyResolutionTask) (call : TxKind * list Z)
    : list PolicyTaskMessage * PolicyResolutionTask :=
  match call.1 with
  | TxCreate => s
  | TxCall token =>
    if negb (ab_is_tip20_prefix A token) then s
    else match decode_transfer_parties sender call.2 with
    | None => s
    | Some (transfer_sender, recipient) =>
      prefetch (ResolveAuthorization token recipient Recipient)
        (prefetch (ResolveAuthorization token transfer_sender Sender) s)
    end
  end.

Definition prefetch_transaction (tx : PooledTx) (t : PolicyResolutionTask) : PolicyResolutionTask :=
  let sender := pt_sender tx in
  let fee_token := default DEFAULT_FEE_TOKEN (pt_fee_token tx) in
  let fee_payer := default sender (pt_fee_payer tx) in
  (foldl (prefetch_call sender) (prefetch (ResolveAuthorization fee_token fee_payer Sender) ([], t)) (pt_calls tx)).2.

Definition run_pool_prefetch (txs : list PooledTx) (t : PolicyResolutionTask) : PolicyResolutionTask :=
  foldl (fun t tx => prefetch_transaction tx t) t txs.
End Prefetch.

(** ** Start of the node *)

(** Failures are logged and the cache left as it is. *)
Definition resolve_and_seed_tokens (initial_tokens : option (list Z)) (enabled_tokens_at : Z -> option (list Z))
    (rpc : L1Rpc) (c : PolicyCacheInner) : PolicyCacheInner :=
  match (match initial_tokens with Some tokens => Some tokens | None => enabled_tokens_at (last_l1_block c) end) with
  | None => c
  | Some tracked_tokens =>
    default c (seed_token_policies c tracked_tokens (fun block token => rpc_transferPolicyId rpc token block))
  end.

(** [launch_add_ons] up to the policy tasks: 16 resolutions, 256 messages. *)
Definition launch_policy_tasks (tempo_block_number : Z) (initial_tokens : option (list Z))
    (enabled_tokens_at : Z -> option (list Z)) (rpc : L1Rpc) (c : PolicyCacheInner) : PolicyResolutionTask :=
  spawn_policy_resolution_task
    (resolve_and_seed_tokens initial_tokens enabled_tokens_at rpc (set_last_l1_block c tempo_block_number)) 16 256.
