(* ===== verification/PolicyTaskProofs.v ===== *)
(** * Warming the policy cache: properties

    Until an advance of the engine brings the cache's baselines to the block, a
    prefetched transaction finds its authorizations in the cache; afterwards, what is fetched about
    policies already in the cache is dropped. *)

From stdpp Require Import gmap list.
From S2P Require Import Prelude.
From S2P Require Import BTree.
From S2P Require Import Policy.
From S2P Require Import PolicyProofs.
From S2P Require Import PolicyCache.
From S2P Require Import PolicyProvider.
From S2P Require Import RpcPolicy.
From S2P Require Import PolicyTask.
#[local] Open Scope Z_scope.

(** ** What a cache knows at a block *)

Definition member_known (c : PolicyCacheInner) (id user : Z) : Prop :=
  exists p, policies c !! id = Some p /\ ps_is_known (policy_set p) user = true.

(** [c'] knows all [c] knows. *)
Record knows_more (n : Z) (c c' : PolicyCacheInner) : Prop := mkKnowsMore {
  km_token : forall t p, get_token_policy c t n = Some p -> get_token_policy c' t n = Some p;
  km_type : forall id ty, cached_type c id = Some ty -> cached_type c' id = Some ty;
  km_compound : forall id d, cached_compound c id = Some d -> cached_compound c' id = Some d;
  km_member : forall id user, member_known c id user -> member_known c' id user
}.

#[export] Instance knows_more_preorder n : PreOrder (knows_more n).
Proof.
  split; [by split|]. intros c1 c2 c3 [H1 H2 H3 H4] [K1 K2 K3 K4].
  split; intros; [by apply K1, H1|by apply K2, H2|by apply K3, H3|by apply K4, H4].
Qed.

(** No entry's baseline has reached the block. *)
Record Fresh (n : Z) (c : PolicyCacheInner) : Prop := mkFresh {
  fr_token : forall t hv, tokens c !! t = Some hv -> hv_baseline_height hv < n;
  fr_policy : forall id p, policies c !! id = Some p -> ps_baseline_height (policy_set p) < n
}.

(** True at the block, and able to take what is fetched at it. *)
Record Good (T : L1Policies) (n : Z) (c : PolicyCacheInner) : Prop := mkGood {
  go_agree : Agree T n c;
  go_fresh : Fresh n c;
  go_last : last_l1_block c = n
}.

Section Warm.
Context (T : L1Policies) (n : Z) (Hn : 0 < n).

Lemma known_simple c id user :
  Agree T n c -> simple_id T id ->
  builtin_authorization id <> None \/ cached_type c id = Some (t_type T id) /\ member_known c id user ->
  check_simple c id user n = Some (l1_simple T id user).
Proof.
  intros Hc Hs Hk. unfold check_simple, l1_simple. destruct (builtin_authorization id) eqn:Eb; [done|].
  destruct Hk as [|[Ht (p & Ep & Hk)]]; [done|]. unfold cached_type in Ht. rewrite Ep in *. cbn in *. rewrite Ht. cbn.
  rewrite (ag_member _ _ _ Hc id p user Ep Hk), Hk. cbn.
  destruct Hs as [|[-> | ->]]; done.
Qed.

(** Conversely, an answer shows what is known. *)
Lemma answer_simple c id user a :
  Agree T n c -> check_simple c id user n = Some a ->
  simple_id T id /\ (builtin_authorization id <> None \/ cached_type c id = Some (t_type T id) /\ member_known c id user).
Proof.
  intros Hc. unfold check_simple, simple_id. destruct (builtin_authorization id) eqn:Eb; [by eauto|].
  destruct (policies c !! id) as [p|] eqn:Ep; [|done]. cbn. destruct (policy_type p) as [ty|] eqn:Ety; [|done]. cbn.
  assert (Ht : cached_type c id = Some ty) by (unfold cached_type; by rewrite Ep).
  pose proof (ag_type _ _ _ Hc _ _ Ht) as ->. unfold member_known.
  destruct (t_type T id) eqn:Et; try done; destruct (ps_is_known (policy_set p) user) eqn:Ek; try done; eauto 10.
Qed.

Lemma simple_mono c c' id user a :
  Agree T n c -> Agree T n c' -> knows_more n c c' ->
  check_simple c id user n = Some a -> check_simple c' id user n = Some a.
Proof.
  intros Hc Hc' Hm H. destruct (answer_simple c id user a Hc H) as [Hs Hk].
  rewrite (agree_check_simple T n c id user a Hc H). apply known_simple; [done..|].
  destruct Hk as [|[]]; [by left|right]. split; [by apply (km_type _ _ _ Hm)|by apply (km_member _ _ _ Hm)].
Qed.

Lemma policy_mono c c' id user role a :
  Agree T n c -> Agree T n c' -> knows_more n c c' ->
  check_policy c id user n role = Some a -> check_policy c' id user n role = Some a.
Proof.
  intros Hc Hc' Hm. pose proof (simple_mono c c' id user a Hc Hc' Hm) as Hs. unfold check_policy. unfold check_simple in Hs.
  destruct (builtin_authorization id); [done|].
  destruct (policies c !! id) as [p|] eqn:Ep; [|done]. cbn in *. destruct (policy_type p) as [ty|] eqn:Ety; [|done]. cbn in *.
  assert (Ht : cached_type c' id = Some ty) by (apply (km_type _ _ _ Hm); unfold cached_type; by rewrite Ep).
  unfold cached_type in Ht. destruct (policies c' !! id) as [p'|] eqn:Ep'; [|done]. cbn in *. rewrite Ht in *. cbn in *.
  destruct ty; [by apply Hs..| |done]. destruct (compound p) as [d|] eqn:Ed; [|done]. cbn.
  assert (Hd : cached_compound c' id = Some d) by (apply (km_compound _ _ _ Hm); unfold cached_compound; by rewrite Ep).
  unfold cached_compound in Hd. rewrite Ep' in Hd. cbn in Hd. rewrite Hd. cbn.
  destruct role; [|by apply simple_mono..]. destruct (check_simple c (sender_policy_id d) user n) as [b|] eqn:E; [|done].
  rewrite (simple_mono c c' _ _ _ Hc Hc' Hm E). cbn. destruct b; cbn; [by apply simple_mono|done].
Qed.

(** An answer of the cache stays. *)
Lemma authorized_mono c c' token user role a :
  Agree T n c -> Agree T n c' -> knows_more n c c' ->
  is_authorized c token user n role = Some a -> is_authorized c' token user n role = Some a.
Proof.
  intros Hc Hc' Hm. pose proof (km_token _ _ _ Hm token) as Ht. unfold is_authorized, get_token_policy in *.
  destruct (tokens c !! token) as [hv|]; [|done]. cbn in *. destruct (hv_get hv n) as [id|]; [|done]. cbn.
  specialize (Ht id eq_refl). destruct (tokens c' !! token) as [hv'|]; [|done]. cbn in *. rewrite Ht. cbn.
  by apply policy_mono.
Qed.

(** ** Writes at the block *)

Lemma good_set_token c t :
  Good T n c ->
  let c' := set_token_policy c t n (t_token T t) in
  Good T n c' /\ knows_more n c c' /\ get_token_policy c' t n = Some (t_token T t).
Proof.
  intros [Ha [Hf1 Hf2] Hl] c'. pose proof (agree_set_token T n c t Ha) as Ha'.
  assert (Hget : get_token_policy c' t n = Some (t_token T t)).
  { unfold c', get_token_policy, set_token_policy. cbn. rewrite lookup_insert_eq. cbn.
    assert (Hb : hv_wf (default hv_default (tokens c !! t)) /\ hv_baseline_height (default hv_default (tokens c !! t)) < n).
    { destruct (tokens c !! t) as [hv|] eqn:E; cbn; [|split; [apply hv_wf_default|done]].
      split; [by eapply (wf_tokens _ (ag_wf _ _ _ Ha))|by eapply Hf1]. }
    rewrite hv_set_at by apply Hb. by rewrite (proj2 (Z.leb_gt _ _) (proj2 Hb)). }
  split; [|split; [|done]].
  - split; [done| |done]. split; cbn; [|done]. intros t' hv [[<- <-]|[_ E]]%lookup_insert_Some; [|by eapply Hf1].
    unfold hv_set. destruct (tokens c !! t) as [hv|] eqn:E; cbn; [|by destruct (n <=? 0)].
    specialize (Hf1 t hv E). by destruct (n <=? _).
  - split; try done. intros t' p Hp. destruct (decide (t = t')) as [<-|Hne].
    + rewrite Hget. f_equal. symmetry. by eapply (ag_token _ _ _ Ha).
    + unfold get_token_policy, c', set_token_policy in *. cbn. by rewrite lookup_insert_ne.
Qed.

(** An update of an entry that keeps its knowledge and its height. *)
Lemma good_update c f id :
  Good T n c -> Agree T n (update_policy_entry f c id) ->
  let p := default policy_default (policies c !! id) in
  (forall ty, policy_type p = Some ty -> policy_type (f p) = Some ty) ->
  (forall d, compound p = Some d -> compound (f p) = Some d) ->
  (forall user, ps_is_known (policy_set p) user = true -> ps_is_known (policy_set (f p)) user = true) ->
  ps_baseline_height (policy_set (f p)) = ps_baseline_height (policy_set p) ->
  Good T n (update_policy_entry f c id) /\ knows_more n c (update_policy_entry f c id).
Proof.
  intros [Ha [Hf1 Hf2] Hl] Ha' p H1 H2 H3 H4. split.
  - split; [done| |done]. split; cbn; [done|]. intros id' q [[<- <-]|[_ E]]%lookup_insert_Some; [|by eapply Hf2].
    fold p. rewrite H4. unfold p. destruct (policies c !! id) as [q|] eqn:E; cbn; [by eapply Hf2|done].
  - split; [done|..]; unfold cached_type, cached_compound, member_known; cbn; intros id';
      (destruct (decide (id = id')) as [<-|Hne]; [rewrite lookup_insert_eq|by rewrite lookup_insert_ne]); cbn; fold p.
    + intros ty E. apply H1. unfold p. by destruct (policies c !! id).
    + intros d E. apply H2. unfold p. by destruct (policies c !! id).
    + intros user (q & E & Hk). eexists. split; [done|]. apply H3. unfold p. by rewrite E.
Qed.

Lemma good_set_type c id :
  Good T n c ->
  let c' := set_policy_type c id (t_type T id) in
  Good T n c' /\ knows_more n c c' /\ cached_type c' id = Some (t_type T id).
Proof.
  intros Hg c'. pose proof Hg as [Ha _ _]. apply Logic.and_assoc. split.
  - apply good_update; try done.
    + apply agree_update_entry; [done|done|]. cbn. naive_solver.
    + cbn. intros ty E. f_equal. symmetry. apply (ag_type _ _ _ Ha). unfold cached_type. by destruct (policies c !! id).
  - unfold c', cached_type. cbn. by rewrite lookup_insert_eq.
Qed.

Lemma good_set_compound c id :
  Good T n c -> t_type T id = COMPOUND ->
  let c' := set_compound c id (t_compound T id) in
  Good T n c' /\ knows_more n c c' /\ cached_compound c' id = Some (t_compound T id).
Proof.
  intros Hg Ht c'. pose proof Hg as [Ha _ _]. apply Logic.and_assoc. split.
  - apply good_update; try done.
    + apply agree_update_entry; [done|done|]. cbn. rewrite Ht. naive_solver.
    + cbn. intros ty E. rewrite <-Ht. f_equal. symmetry. apply (ag_type _ _ _ Ha). unfold cached_type. by destruct (policies c !! id).
    + cbn. intros d E. f_equal. symmetry. apply (ag_compound _ _ _ Ha); [|done]. unfold cached_compound. by destruct (policies c !! id).
  - unfold c', cached_compound. cbn. by rewrite lookup_insert_eq.
Qed.

Lemma record_knows s u b user : ps_is_known s user = true -> ps_is_known (ps_record_status s u n b) user = true.
Proof.
  unfold ps_record_status. destruct (n <=? _); [done|]. unfold ps_is_known. cbn.
  rewrite !orb_true_iff, !bool_decide_eq_true, elem_of_union. tauto.
Qed.

Lemma good_set_status c id user :
  Good T n c ->
  let c' := set_policy_status c id user n (t_member T id user) in
  Good T n c' /\ knows_more n c c' /\ member_known c' id user.
Proof.
  intros Hg c'. pose proof Hg as [Ha [_ Hf] _].
  assert (Hb : ps_baseline_height (policy_set (default policy_default (policies c !! id))) < n).
  { destruct (policies c !! id) as [p|] eqn:E; cbn; [by eapply Hf|done]. }
  apply Logic.and_assoc. split.
  - apply good_update; try done.
    + apply agree_update_entry; [done| |].
      * intros p Hp. by apply (ps_wf_step _ (PsRecord user n (t_member T id user))).
      * cbn. split_and!; [by left..|]. intros user' Hwf Hk. rewrite ps_record_at by done.
        apply ps_record_known in Hk as [Hk|[-> _]]; [|rewrite Z.eqb_refl; by right].
        destruct (Z.eqb_spec user user') as [->|]; [by right|by left].
    + cbn. intros user' Hk. by apply record_knows.
    + cbn. unfold ps_record_status. by destruct (n <=? _).
  - unfold c', member_known, set_policy_status. cbn. eexists. split; [apply lookup_insert_eq|]. cbn.
    unfold ps_record_status. rewrite (proj2 (Z.leb_gt _ _) Hb). unfold ps_is_known. cbn.
    by rewrite bool_decide_eq_true_2 by set_solver.
Qed.

(** ** Fetching *)

Context (rpc : L1Rpc) (HT : Truthful T n rpc) (HW : L1_wf T) (HA : Answering n rpc).

(** From [c], [m] returns a result, in a cache that is good, knows more, and
    satisfies [Q]. *)
Definition warms {A} (c : PolicyCacheInner) (m : P A) (Q : A -> PolicyCacheInner -> Prop) : Prop :=
  exists a c', m c = (Ok a, c') /\ Good T n c' /\ knows_more n c c' /\ Q a c'.

Lemma warms_ret {A} c (a : A) (Q : A -> PolicyCacheInner -> Prop) : Good T n c -> Q a c -> warms c (mret a) Q.
Proof. intros Hg HQ. by exists a, c. Qed.

Lemma warms_bind {A B} c (m : P A) (f : A -> P B) Q R :
  warms c m Q -> (forall a c', Good T n c' -> knows_more n c c' -> Q a c' -> warms c' (f a) R) ->
  warms c (mbind f m) R.
Proof.
  intros (a & c1 & E & Hg & Hm & HQ) Hf. destruct (Hf a c1 Hg Hm HQ) as (b & c2 & E2 & Hg2 & Hm2 & HR).
  exists b, c2. unfold mbind, P_bind. rewrite E. split_and!; [done..|by etrans|done].
Qed.

Lemma warms_read {A B} c (f : PolicyCacheInner -> A) (k : A -> P B) R :
  warms c (k (f c)) R -> warms c (mbind k (p_read f)) R.
Proof. done. Qed.

(** An answered query, with the truth it tells. *)
Lemma warms_rpc {A B} c (o : option A) (a : A) (k : A -> P B) R :
  o <> None -> (forall b, o = Some b -> b = a) -> warms c (k a) R -> warms c (mbind k (p_rpc o)) R.
Proof.
  intros H1 H2 H. destruct o as [b|]; [|done]. rewrite (H2 b eq_refl). exact H.
Qed.

Lemma warms_write {B} c f (b : B) R :
  Good T n (f c) -> knows_more n c (f c) -> R b (f c) -> warms c (p_write f ;; mret b) R.
Proof. intros H1 H2 H3. by exists b, (f c). Qed.

Lemma warms_id c t :
  Good T n c -> warms c (resolve_policy_id rpc t n)
                  (fun id c' => id = t_token T t /\ get_token_policy c' t n = Some (t_token T t)).
Proof.
  intros Hg. apply warms_read. destruct (get_token_policy c t n) as [id|] eqn:E.
  - pose proof (ag_token _ _ _ (go_agree _ _ _ Hg) _ _ E) as ->. by apply warms_ret.
  - apply (warms_rpc _ _ (t_token T t)); [apply HA|apply HT|].
    destruct (good_set_token c t Hg) as (? & ? & ?). by apply warms_write.
Qed.

Lemma warms_type c id :
  Good T n c -> warms c (resolve_policy_type rpc id n) (fun ty c' => ty = t_type T id /\ cached_type c' id = Some (t_type T id)).
Proof.
  intros Hg. apply warms_read. destruct (cached_type c id) as [ty|] eqn:E.
  - pose proof (ag_type _ _ _ (go_agree _ _ _ Hg) _ _ E) as ->. by apply warms_ret.
  - apply (warms_rpc _ _ (t_type T id)); [apply HA|apply HT|].
    destruct (good_set_type c id Hg) as (? & ? & ?). by apply warms_write.
Qed.

Lemma warms_compound c id :
  Good T n c -> t_type T id = COMPOUND ->
  warms c (resolve_compound_data rpc id n) (fun d c' => d = t_compound T id /\ cached_compound c' id = Some (t_compound T id)).
Proof.
  intros Hg Ht. apply warms_read. destruct (cached_compound c id) as [d|] eqn:E.
  - pose proof (ag_compound _ _ _ (go_agree _ _ _ Hg) _ _ E Ht) as ->. by apply warms_ret.
  - apply (warms_rpc _ _ (t_compound T id)); [apply HA|apply HT|].
    destruct (good_set_compound c id Hg Ht) as (? & ? & ?). by apply warms_write.
Qed.

Lemma warms_simple c id user :
  Good T n c -> builtin_authorization id = None -> t_type T id = WHITELIST \/ t_type T id = BLACKLIST ->
  cached_type c id = Some (t_type T id) ->
  warms c (fetch_and_cache_simple rpc id user n (t_type T id))
    (fun a c' => a = l1_simple T id user /\ check_simple c' id user n = Some (l1_simple T id user)).
Proof.
  intros Hg Hb Ht Hc. apply (warms_rpc _ _ (l1_simple T id user)).
  { apply HA. }
  { intros a Ea. eapply (tr_auth _ _ _ HT); [exact Ea|by right]. }
  assert (Hs : simple_id T id) by (by right).
  assert (E : match t_type T id with WHITELIST => mret (l1_simple T id user) | BLACKLIST => mret (negb (l1_simple T id user))
              | _ => p_fail Unreachable end = (mret (t_member T id user) : P bool)).
  { unfold l1_simple. rewrite Hb. destruct Ht as [-> | ->]; by rewrite ?negb_involutive. }
  rewrite E. change (warms c (p_write (fun c => set_policy_status c id user n (t_member T id user)) ;; mret (l1_simple T id user))
    (fun a c' => a = l1_simple T id user /\ check_simple c' id user n = Some (l1_simple T id user))).
  destruct (good_set_status c id user Hg) as (H1 & H2 & H3).
  apply warms_write; [done..|]. split; [done|].
  apply known_simple; [apply H1|done|right]. split; [by apply (km_type _ _ _ H2)|done].
Qed.

Lemma warms_sub c id user :
  Good T n c -> simple_id T id ->
  warms c (resolve_simple_sub_policy rpc id user n)
    (fun a c' => a = l1_simple T id user /\ check_simple c' id user n = Some (l1_simple T id user)).
Proof.
  intros Hg Hs. unfold resolve_simple_sub_policy. destruct (builtin_authorization id) as [a|] eqn:Eb.
  { apply warms_ret; [done|]. unfold check_simple, l1_simple. by rewrite Eb. }
  apply warms_read. destruct (check_simple c id user n) as [a|] eqn:E.
  { pose proof (agree_check_simple _ _ _ _ _ _ (go_agree _ _ _ Hg) E) as ->. by apply warms_ret. }
  eapply warms_bind; [by apply warms_type|]. cbn. intros ty c' Hg' _ [-> Ht]. apply warms_simple; try done. by destruct Hs.
Qed.

Lemma policy_simple c id user role :
  cached_type c id = Some WHITELIST \/ cached_type c id = Some BLACKLIST ->
  check_policy c id user n role = check_simple c id user n.
Proof.
  unfold check_policy, check_simple, cached_type. destruct (builtin_authorization id); [done|].
  destruct (policies c !! id) as [p|]; cbn; [|naive_solver]. by intros [-> | ->].
Qed.

(** The answer of a compound policy, from the answers of its parts. *)
Lemma policy_compound c id user role :
  builtin_authorization id = None -> cached_type c id = Some COMPOUND -> t_type T id = COMPOUND ->
  cached_compound c id = Some (t_compound T id) ->
  let d := t_compound T id in
  match role with
  | Sender => check_simple c (sender_policy_id d) user n = Some (l1_simple T (sender_policy_id d) user)
  | Recipient => check_simple c (recipient_policy_id d) user n = Some (l1_simple T (recipient_policy_id d) user)
  | MintRecipient => check_simple c (mint_recipient_policy_id d) user n = Some (l1_simple T (mint_recipient_policy_id d) user)
  | Transfer =>
    check_simple c (sender_policy_id d) user n = Some (l1_simple T (sender_policy_id d) user) /\
    (l1_simple T (sender_policy_id d) user = true ->
     check_simple c (recipient_policy_id d) user n = Some (l1_simple T (recipient_policy_id d) user))
  end -> check_policy c id user n role = Some (l1_authorized T id user role).
Proof.
  unfold check_policy, l1_authorized, cached_type, cached_compound. intros -> Ht -> Hc. cbn [fst].
  destruct (policies c !! id) as [p|]; [|done]. cbn in *. rewrite Ht, Hc. cbn. destruct role; try done.
  intros [-> H]. cbn. destruct (l1_simple T (sender_policy_id (t_compound T id)) user); cbn; [by apply H|done].
Qed.

Lemma warms_policy c id user role :
  Good T n c -> builtin_authorization id = None ->
  warms c (resolve_policy_authorization rpc id user n role)
    (fun _ c' => check_policy c' id user n role = Some (l1_authorized T id user role)).
Proof.
  intros Hg Hb. eapply warms_bind; [by apply warms_type|]. cbn. intros ty c1 Hg1 _ [-> Ht].
  assert (Hsimple : t_type T id = WHITELIST \/ t_type T id = BLACKLIST ->
    warms c1 (fetch_and_cache_simple rpc id user n (t_type T id))
      (fun _ c' => check_policy c' id user n role = Some (l1_authorized T id user role))).
  { intros Hty. destruct (warms_simple c1 id user Hg1 Hb Hty Ht) as (a & c2 & E & Hg2 & Hm & _ & Hc).
    exists a, c2. split_and!; [done..|]. pose proof (km_type _ _ _ Hm _ _ Ht) as Ht2.
    rewrite policy_simple by (rewrite Ht2; by destruct Hty as [-> | ->]; [left|right]). rewrite Hc. unfold l1_authorized. rewrite Hb.
    by destruct Hty as [-> | ->]. }
  destruct (t_type T id) eqn:Ety; [by apply Hsimple; left|by apply Hsimple; right| |by destruct (lw_valid _ HW id)].
  clear Hsimple. destruct (lw_compound _ HW id Ety) as (S1 & S2 & S3).
  eapply warms_bind; [by apply warms_compound|]. cbn. intros d c2 Hg2 Hm2 [-> Hd].
  pose proof (km_type _ _ _ Hm2 _ _ Ht) as Ht2.
  assert (Hone : forall sub, simple_id T sub -> forall r,
    (forall c', check_simple c' sub user n = Some (l1_simple T sub user) -> cached_type c' id = Some COMPOUND ->
       cached_compound c' id = Some (t_compound T id) -> check_policy c' id user n r = Some (l1_authorized T id user r)) ->
    warms c2 (resolve_simple_sub_policy rpc sub user n) (fun _ c' => check_policy c' id user n r = Some (l1_authorized T id user r))).
  { intros sub Hs r Hr. destruct (warms_sub c2 sub user Hg2 Hs) as (a & c3 & E & Hg3 & Hm & _ & Hc).
    exists a, c3. split_and!; [done..|]. apply Hr; [done|by apply (km_type _ _ _ Hm)|by apply (km_compound _ _ _ Hm)]. }
  destruct role; [|by apply Hone; [done|]; intros; apply policy_compound..].
  eapply warms_bind; [by apply warms_sub|]. cbn. intros a c3 Hg3 Hm3 [-> Hc].
  pose proof (km_type _ _ _ Hm3 _ _ Ht2) as Ht3. pose proof (km_compound _ _ _ Hm3 _ _ Hd) as Hd3.
  destruct (l1_simple T (sender_policy_id (t_compound T id)) user) eqn:El; cbn.
  - destruct (warms_sub c3 _ user Hg3 S2) as (b & c4 & E & Hg4 & Hm4 & _ & Hc4). exists b, c4. split_and!; [done..|].
    apply policy_compound; [done|by apply (km_type _ _ _ Hm4)|done|by apply (km_compound _ _ _ Hm4)|]. split; [|done].
    rewrite El. by eapply simple_mono; [apply Hg3|apply Hg4|..].
  - apply warms_ret; [done|]. apply policy_compound; try done. by rewrite El.
Qed.

(** A check at the block leaves its answer in the cache. *)
Lemma warms_authorized c token user role :
  Good T n c ->
  warms c (provider_is_authorized rpc token user n role)
    (fun _ c' => is_authorized c' token user n role = Some (l1_authorized T (t_token T token) user role)).
Proof.
  intros Hg. assert (Hstep : forall c', get_token_policy c' token n = Some (t_token T token) ->
    is_authorized c' token user n role = check_policy c' (t_token T token) user n role).
  { intros c'. unfold is_authorized, get_token_policy. destruct (tokens c' !! token); [|done]. cbn. by intros ->. }
  apply warms_read. destruct (is_authorized c token user n role) as [a|] eqn:E.
  - apply warms_ret; [done|]. rewrite E. f_equal. unfold is_authorized in E.
    destruct (tokens c !! token) as [hv|] eqn:Et; [|done]. cbn in E. destruct (hv_get hv n) as [id|] eqn:Eid; [|done].
    assert (id = t_token T token) as -> by (apply (ag_token _ _ _ (go_agree _ _ _ Hg)); unfold get_token_policy; by rewrite Et).
    by apply (agree_check_policy T n c _ user role a (go_agree _ _ _ Hg)).
  - eapply warms_bind; [by apply warms_id|]. cbn. intros id c1 Hg1 _ [-> Ht].
    destruct (builtin_authorization (t_token T token)) as [a|] eqn:Eb.
    + destruct (good_set_token c1 token Hg1) as (H1 & H2 & H3). apply warms_write; [done..|].
      rewrite Hstep by done. unfold check_policy, l1_authorized, l1_simple. by rewrite Eb.
    + destruct (warms_policy c1 _ user role Hg1 Eb) as (b & c2 & E2 & Hg2 & Hm & Hc). exists b, c2. split_and!; [done..|].
      by rewrite Hstep by (by apply (km_token _ _ _ Hm)).
Qed.
End Warm.

(** ** The requests of a transaction *)

Section Requests.
Context (A : TransferAbi) (DEFAULT_FEE_TOKEN : Z).

(** The authorizations the execution of a call asks for. *)
Definition call_requests (sender : Z) (call : TxKind * list Z) : list PolicyTaskMessage :=
  match call.1 with
  | TxCreate => []
  | TxCall token =>
    if ab_is_tip20_prefix A token then
      match decode_transfer_parties A sender call.2 with
      | Some (from, to) => [ResolveAuthorization token from Sender; ResolveAuthorization token to Recipient]
      | None => []
      end
    else []
  end.
Definition tx_requests (tx : PooledTx) : list PolicyTaskMessage :=
  ResolveAuthorization (default DEFAULT_FEE_TOKEN (pt_fee_token tx)) (default (pt_sender tx) (pt_fee_payer tx)) Sender
  :: concat (call_requests (pt_sender tx) <$> pt_calls tx).

Lemma prefetch_calls sender calls s :
  foldl (prefetch_call A sender) s calls = foldl (fun s m => prefetch m s) s (concat (call_requests sender <$> calls)).
Proof.
  revert s. induction calls as [|call calls IH]; intros s; [done|]. cbn. rewrite IH, foldl_app. f_equal.
  unfold prefetch_call, call_requests. destruct call.1 as [token|]; [|done]. destruct (ab_is_tip20_prefix A token); [|done].
  by destruct (decode_transfer_parties A sender call.2) as [[from to]|].
Qed.

Lemma prefetch_is_fold tx t :
  prefetch_transaction A DEFAULT_FEE_TOKEN tx t = (foldl (fun s m => prefetch m s) ([], t) (tx_requests tx)).2.
Proof. unfold prefetch_transaction. by rewrite prefetch_calls. Qed.

Lemma tx_requests_length tx : (length (tx_requests tx) <= 1 + 2 * length (pt_calls tx))%nat.
Proof.
  cbn. assert (H : forall calls, (length (concat (call_requests (pt_sender tx) <$> calls)) <= 2 * length calls)%nat).
  { induction calls as [|call calls IH]; [done|]. cbn. rewrite length_app.
    assert ((length (call_requests (pt_sender tx) call) <= 2)%nat); [|lia].
    unfold call_requests. destruct call.1; [|cbn; lia]. destruct (ab_is_tip20_prefix A to); [|cbn; lia].
    destruct (decode_transfer_parties _ _ _) as [[]|]; cbn; lia. }
  specialize (H (pt_calls tx)). lia.
Qed.
End Requests.

(** With room in the channel, each request is queued, once. *)
Lemma prefetch_fold msgs seen t :
  stopped t = false -> (length (rx t) + length msgs <= channel_capacity t)%nat ->
  exists new, (foldl (fun s m => prefetch m s) (seen, t) msgs).2 = set_rx (rx t ++ new) t /\ NoDup new /\
    (length new <= length msgs)%nat /\ forall m, m ∈ new <-> m ∈ msgs /\ m ∉ seen.
Proof.
  revert seen t. induction msgs as [|m msgs IH]; intros seen t Hs Hl; cbn [foldl].
  - exists []. rewrite app_nil_r. destruct t. split_and!; [done|constructor|done|set_solver].
  - cbn in Hl. unfold prefetch at 2. cbn [fst snd]. case_bool_decide as Hm.
    + destruct (IH seen t Hs ltac:(lia)) as (new & E & Hn & Hle & Hin). exists new. split_and!; [done..|cbn; lia|].
      intros m'. rewrite elem_of_cons, Hin. naive_solver.
    + unfold send_resolve_policy. rewrite Hs, (proj2 (Nat.leb_gt _ _)) by lia. cbn [snd].
      destruct (IH (m :: seen) (set_rx (rx t ++ [m]) t)) as (new & E & Hn & Hle & Hin);
        [done|cbn; rewrite length_app; cbn; lia|]. exists (m :: new). split_and!.
      * rewrite E. cbn. by rewrite <-app_assoc.
      * constructor; [|done]. rewrite Hin, not_elem_of_cons. naive_solver.
      * cbn. lia.
      * intros m'. rewrite !elem_of_cons, Hin, not_elem_of_cons. destruct (decide (m' = m)) as [->|]; naive_solver.
Qed.

(** The two queries the token wrapper makes, answered without L1: whatever
    [rpc] does, and leaving the cache alone. *)
Definition answered_locally (c : PolicyCacheInner) (m : PolicyTaskMessage) (policy : Z) (a : bool) : Prop :=
  forall rpc, resolve_transfer_policy_id rpc (rm_token m) c = (Ok policy, c) /\
    is_authorized_by_policy rpc policy (rm_user m) (rm_role m) c = (Ok a, c).

Section Run.
Context (T : L1Policies) (n : Z) (Hn : 0 < n) (rpc : L1Rpc).
Context (HT : Truthful T n rpc) (HW : L1_wf T) (HA : Answering n rpc).

Definition warm (c : PolicyCacheInner) (m : PolicyTaskMessage) : Prop :=
  is_authorized c (rm_token m) (rm_user m) n (rm_role m) = Some (l1_authorized T (t_token T (rm_token m)) (rm_user m) (rm_role m)).

Lemma warm_local c m :
  Good T n c -> warm c m ->
  answered_locally c m (t_token T (rm_token m)) (l1_authorized T (t_token T (rm_token m)) (rm_user m) (rm_role m)).
Proof.
  intros [Ha _ Hl] Hw rpc'. unfold warm, is_authorized in Hw. pose proof (ag_token _ _ _ Ha (rm_token m)) as Ht.
  assert (Hg : get_token_policy c (rm_token m) n = Some (t_token T (rm_token m)) /\
               check_policy c (t_token T (rm_token m)) (rm_user m) n (rm_role m) =
                 Some (l1_authorized T (t_token T (rm_token m)) (rm_user m) (rm_role m))).
  { unfold get_token_policy in *. destruct (tokens c !! rm_token m) as [hv|]; [|done]. cbn in *.
    destruct (hv_get hv n) as [id|]; [|done]. by specialize (Ht id eq_refl) as ->. }
  destruct Hg as [H1 H2]. split.
  - unfold resolve_transfer_policy_id, mbind, P_bind, p_read. by rewrite Hl, H1.
  - unfold is_authorized_by_policy. destruct (builtin_authorization (t_token T (rm_token m))) as [b|] eqn:Eb.
    + unfold check_policy in H2. rewrite Eb in H2. by injection H2 as ->.
    + unfold mbind, P_bind, p_read. by rewrite Hl, H2.
Qed.

(** Every request is waiting, in flight, or answered. *)
Record TaskInv (R : list PolicyTaskMessage) (t : PolicyResolutionTask) : Prop := mkTaskInv {
  ti_running : stopped t = false;
  ti_slots : (0 < max_concurrent t)%nat;
  ti_good : Good T n (task_cache t);
  ti_blocks : forall r, r ∈ in_flight t -> r.2 = n;
  ti_requests : forall m, m ∈ R -> m ∈ rx t \/ (m, n) ∈ in_flight t \/ warm (task_cache t) m
}.
Definition work (t : PolicyResolutionTask) : nat := 2 * length (rx t) + length (in_flight t).

Lemma task_step R ev t t' :
  TaskInv R t -> task_poll rpc ev t = Some t' -> TaskInv R t' /\ work t = S (work t').
Proof.
  intros [Hs Hm Hg Hb Hr]. unfold task_poll. rewrite Hs. destruct ev as [|i].
  - destruct (_ <? _)%nat; [|done]. destruct (rx t) as [|m q] eqn:Eq; [done|]. intros [= <-]. split.
    + split; cbn; try done.
      * intros r. rewrite elem_of_app, list_elem_of_singleton. intros [Hr'| ->]; [by apply Hb|apply Hg].
      * intros m' Hm'. rewrite (go_last _ _ _ Hg). destruct (Hr m' Hm') as [Hin|[Hin|Hin]]; [|set_solver|by auto].
        apply elem_of_cons in Hin as [->|Hin]; set_solver.
    + unfold work. cbn. rewrite Eq, length_app. cbn. lia.
  - destruct (in_flight t !! i) as [[m b]|] eqn:Ei; [|done]. intros [= <-].
    pose proof (Hb _ (list_elem_of_lookup_2 _ _ _ Ei)) as E. cbn in E. subst b.
    destruct (warms_authorized T n Hn rpc HT HW HA (task_cache t) (rm_token m) (rm_user m) (rm_role m) Hg)
      as (a & c' & Ec & Hg' & Hk & Hw).
    assert (Er : resolve_message rpc (m, n) (task_cache t) = c') by (unfold resolve_message; cbn; by rewrite Ec).
    pose proof (delete_Permutation _ _ _ Ei) as Hp. split.
    + split; cbn; rewrite ?Er; try done.
      * intros r Hr'. apply Hb. rewrite Hp. by right.
      * intros m' Hm'. destruct (Hr m' Hm') as [Hin|[Hin|Hin]]; [by left| |].
        -- rewrite Hp in Hin. apply elem_of_cons in Hin as [[= ->]|Hin]; [by right; right|by right; left].
        -- right; right. unfold warm in *. eapply authorized_mono; [apply Hg|apply Hg'|done|done].
    + apply Permutation_length in Hp. unfold work. cbn in *. lia.
Qed.

Lemma task_progress R t : TaskInv R t -> work t <> 0%nat -> exists ev t', task_poll rpc ev t = Some t'.
Proof.
  intros [Hs Hm _ _ _] Hw. unfold work in Hw. destruct (in_flight t) as [|r l] eqn:Ei.
  - exists Received. unfold task_poll. rewrite Hs, Ei, (proj2 (Nat.ltb_lt _ _)) by (cbn; lia).
    destruct (rx t); [by cbn in Hw|]. eauto.
  - exists (Completed 0). unfold task_poll. rewrite Hs, Ei. cbn. eauto.
Qed.

(** The task does not end while a request waits or is in flight. *)
Lemma task_stops_idle R t t' : TaskInv R t -> task_stop t = Some t' -> work t = 0%nat /\ rx_closed t = true.
Proof.
  intros [_ Hm _ _ _]. unfold task_stop, task_breaks, work. destruct (in_flight t) as [|r l]; cbn [length].
  - rewrite (proj2 (Nat.ltb_lt _ _) Hm). cbn. destruct (stopped t), (rx_closed t), (rx t); cbn; by intros.
  - rewrite !(bool_decide_eq_false_2 (_ :: _ = [])) by done. rewrite !andb_false_r. by destruct (stopped t).
Qed.

Lemma task_run_inv R evs t t' :
  TaskInv R t -> task_run rpc evs t = Some t' -> TaskInv R t' /\ (length evs + work t' = work t)%nat.
Proof.
  revert t. induction evs as [|ev evs IH]; intros t Hi; cbn [task_run length]; [by intros [= <-]|].
  destruct (task_poll rpc ev t) as [t1|] eqn:E; [|done]. intros Hr.
  destruct (task_step R ev t t1 Hi E) as [Hi1 Hw]. destruct (IH t1 Hi1 Hr) as [H1 H2]. split; [done|lia].
Qed.
End Run.

(** ** The authorizations a transaction needs *)

Section Needs.
Context (A : TransferAbi) (DEFAULT_FEE_TOKEN : Z).

(** Selectors are four bytes, and those of the four calls differ. *)
Record SelectorLaws : Prop := mkSelectorLaws {
  sl_length : Forall (fun s => length s = 4%nat)
                [ab_transfer A; ab_transferWithMemo A; ab_transferFrom A; ab_transferFromWithMemo A];
  sl_distinct : NoDup [ab_transfer A; ab_transferWithMemo A; ab_transferFrom A; ab_transferFromWithMemo A]
}.

(** Calldata, sent by [sender], that moves tokens from one account to another. *)
Inductive moves (sender : Z) : list Z -> Z -> Z -> Prop :=
  | moves_transfer args to : ab_decode_transfer A args = Some to -> moves sender (ab_transfer A ++ args) sender to
  | moves_transferWithMemo args to :
      ab_decode_transferWithMemo A args = Some to -> moves sender (ab_transferWithMemo A ++ args) sender to
  | moves_transferFrom args from to :
      ab_decode_transferFrom A args = Some (from, to) -> moves sender (ab_transferFrom A ++ args) from to
  | moves_transferFromWithMemo args from to :
      ab_decode_transferFromWithMemo A args = Some (from, to) -> moves sender (ab_transferFromWithMemo A ++ args) from to.

(** The fee payer may send the fee token; the parties of a call to a token may
    send and receive it. *)
Inductive needs (tx : PooledTx) : PolicyTaskMessage -> Prop :=
  | needs_fee : needs tx (ResolveAuthorization (default DEFAULT_FEE_TOKEN (pt_fee_token tx))
                            (default (pt_sender tx) (pt_fee_payer tx)) Sender)
  | needs_sender token input from to :
      (TxCall token, input) ∈ pt_calls tx -> ab_is_tip20_prefix A token = true -> moves (pt_sender tx) input from to ->
      needs tx (ResolveAuthorization token from Sender)
  | needs_recipient token input from to :
      (TxCall token, input) ∈ pt_calls tx -> ab_is_tip20_prefix A token = true -> moves (pt_sender tx) input from to ->
      needs tx (ResolveAuthorization token to Recipient).

Context (SL : SelectorLaws).

Lemma decode_selector sel args sender : length sel = 4%nat ->
  decode_transfer_parties A sender (sel ++ args) =
    if bool_decide (sel = ab_transfer A) then to ← ab_decode_transfer A args; Some (sender, to)
    else if bool_decide (sel = ab_transferWithMemo A) then to ← ab_decode_transferWithMemo A args; Some (sender, to)
    else if bool_decide (sel = ab_transferFrom A) then ab_decode_transferFrom A args
    else if bool_decide (sel = ab_transferFromWithMemo A) then ab_decode_transferFromWithMemo A args else None.
Proof.
  intros Hl. unfold decode_transfer_parties. rewrite length_app, (proj2 (Nat.ltb_ge _ _)) by lia.
  replace (take 4 (sel ++ args)) with sel by (by rewrite take_app_length').
  by rewrite drop_app_length'.
Qed.

Lemma moves_decoded sender input from to :
  moves sender input from to -> decode_transfer_parties A sender input = Some (from, to).
Proof.
  destruct SL as [Hl Hd]. repeat (apply Forall_cons in Hl as [? Hl]). repeat (apply NoDup_cons in Hd as [? Hd]). set_unfold.
  intros [args to' E|args to' E|args from' to' E|args from' to' E]; rewrite decode_selector by done;
    repeat case_bool_decide; try (exfalso; by firstorder congruence); by rewrite E.
Qed.

(** The code asks for all of them. *)
Lemma needs_requested tx m : needs tx m -> m ∈ tx_requests A DEFAULT_FEE_TOKEN tx.
Proof.
  assert (Hcall : forall token input from to, (TxCall token, input) ∈ pt_calls tx -> ab_is_tip20_prefix A token = true ->
    moves (pt_sender tx) input from to ->
    [ResolveAuthorization token from Sender; ResolveAuthorization token to Recipient] ⊆ tx_requests A DEFAULT_FEE_TOKEN tx).
  { intros token input from to Hin Ht Hm x Hx. right. apply list_elem_of_In, List.in_concat.
    exists (call_requests A (pt_sender tx) (TxCall token, input)). split.
    - apply list_elem_of_In, list_elem_of_fmap. by eexists.
    - apply list_elem_of_In. unfold call_requests. cbn. by rewrite Ht, (moves_decoded _ _ _ _ Hm). }
  intros [|token input from to Hin Ht Hm|token input from to Hin Ht Hm]; [by left|..];
    apply (Hcall token input from to Hin Ht Hm); set_solver.
Qed.
End Needs.

(** C24. Prefetching a pool transaction, with room in the channel and L1 answering,
    while no entry of the cache has a baseline that reaches the block (so from
    the node's start until the engine next advances, entries made since
    included): whatever else was queued and in whatever order the resolutions
    complete, the task is done with everything after two turns per request, and
    then every authorization the transaction needs (its fee payer's, and
    sender's and recipient's of each transfer it makes) is answered from the
    cache, with L1's answer, without a request to L1.  After an advance the
    opposite holds for the entries that were in the cache:
    [prefetch_lost_after_advance]. *)
Theorem prefetch_warms A DEFAULT_FEE_TOKEN T n rpc tx t evs t' :
  SelectorLaws A -> 0 < n -> Truthful T n rpc -> L1_wf T -> Answering n rpc ->
  stopped t = false -> (0 < max_concurrent t)%nat ->
  Agree T n (task_cache t) -> Fresh n (task_cache t) -> last_l1_block (task_cache t) = n ->
  (forall r, r ∈ in_flight t -> r.2 = n) ->
  (length (rx t) + (1 + 2 * length (pt_calls tx)) <= channel_capacity t)%nat ->
  task_run rpc evs (prefetch_transaction A DEFAULT_FEE_TOKEN tx t) = Some t' ->
  (length evs <= 2 * (length (rx t) + (1 + 2 * length (pt_calls tx))) + length (in_flight t))%nat /\
  ((exists ev t'', task_poll rpc ev t' = Some t'') \/
   forall m, needs A DEFAULT_FEE_TOKEN tx m ->
     answered_locally (task_cache t') m (t_token T (rm_token m)) (l1_authorized T (t_token T (rm_token m)) (rm_user m) (rm_role m))).
Proof.
  intros SL Hn HT HW HA Hs Hm Hag Hfr Hlast Hb Hl Hr. pose proof (mkGood T n _ Hag Hfr Hlast) as Hg.
  pose proof (tx_requests_length A DEFAULT_FEE_TOKEN tx) as Hlen.
  rewrite prefetch_is_fold in Hr.
  destruct (prefetch_fold (tx_requests A DEFAULT_FEE_TOKEN tx) [] t Hs ltac:(lia)) as (new & E & _ & Hle & Hin).
  rewrite E in Hr. set (R := tx_requests A DEFAULT_FEE_TOKEN tx) in *.
  assert (Hi : TaskInv T n R (set_rx (rx t ++ new) t)).
  { split; try done. intros m HR. left. cbn. apply elem_of_app. right. apply Hin. split; [done|apply not_elem_of_nil]. }
  destruct (task_run_inv T n Hn rpc HT HW HA R evs _ t' Hi Hr) as [Hi' Hw].
  split; [unfold work in Hw; cbn in Hw; rewrite length_app in Hw; lia|].
  destruct (decide (work t' = 0%nat)) as [H0|H0]; [right|left; by eapply task_progress].
  intros m HR%(needs_requested A DEFAULT_FEE_TOKEN SL). destruct Hi' as [_ _ Hg' _ Hreq]. unfold work in H0.
  apply (warm_local T n); [done|]. destruct (Hreq m HR) as [Hx|[Hx|Hx]]; [| |done].
  - destruct (rx t'); [by apply not_elem_of_nil in Hx|cbn in H0; lia].
  - destruct (in_flight t'); [by apply not_elem_of_nil in Hx|cbn in H0; lia].
Qed.

(** What is fetched about a policy that was in the cache at the engine's last
    advance is dropped: the resolution asks about the block of that advance,
    which is the height of the policy's baseline.  For a user the policy does
    not know, the cache is the same after the resolution as before, whatever
    L1 answers, so the next check goes to L1 again. *)
Theorem prefetch_lost_after_advance rpc c h token user role id p :
  cache_wf c -> last_l1_block c <= h ->
  get_token_policy c token h = Some id -> builtin_authorization id = None ->
  policies c !! id = Some p -> policy_type p = Some WHITELIST \/ policy_type p = Some BLACKLIST ->
  ps_is_known (ps_advance (policy_set p) h) user = false ->
  let c' := advance c h in
  resolve_message rpc (ResolveAuthorization token user role, last_l1_block c') c' = c' /\
  is_authorized c' token user (last_l1_block c') role = None.
Proof.
  intros Hwf Hl Ht Hb Hp Hty Hk c'. assert (El : last_l1_block c' = h) by (cbn; lia). rewrite El.
  assert (Hp' : policies c' !! id = Some (map_policy_set (fun s => ps_advance s h) p)) by (cbn; by rewrite lookup_fmap, Hp).
  assert (Ht' : get_token_policy c' token h = Some id).
  { unfold get_token_policy in *. cbn. rewrite lookup_fmap. destruct (tokens c !! token) as [hv|] eqn:E; [|done]. cbn in *.
    by rewrite (hv_advance_get hv h h) by (done || by eapply (wf_tokens _ Hwf)). }
  assert (Hh : h <= ps_baseline_height (ps_advance (policy_set p) h)).
  { unfold ps_advance. destruct (Z.leb_spec h (ps_baseline_height (policy_set p))); cbn; lia. }
  assert (Hmiss : is_authorized c' token user h role = None).
  { unfold is_authorized, get_token_policy in *. destruct (tokens c' !! token); [|done]. cbn [mbind option_bind] in *.
    rewrite Ht'. cbn [mbind option_bind]. unfold check_policy. rewrite Hb, Hp'. cbn.
    by destruct Hty as [-> | ->]; cbn; rewrite Hk. }
  split; [|done]. unfold resolve_message. cbn [rm_token rm_user rm_role fst snd].
  unfold provider_is_authorized, mbind, P_bind, p_read. rewrite Hmiss. unfold fetch_and_cache, resolve_policy_id, mbind, P_bind, p_read.
  rewrite Ht'. cbn [mret P_ret]. rewrite Hb. unfold resolve_policy_authorization, resolve_policy_type, mbind, P_bind, p_read.
  assert (Hct : exists ty, cached_type c' id = Some ty /\ (ty = WHITELIST \/ ty = BLACKLIST)).
  { unfold cached_type. rewrite Hp'. cbn. destruct Hty as [-> | ->]; eauto. }
  assert (Hset : forall b, set_policy_status c' id user h b = c').
  { intros b. unfold set_policy_status, update_policy_entry. rewrite Hp'. cbn [from_option].
    assert (Hr : ps_record_status (ps_advance (policy_set p) h) user h b = ps_advance (policy_set p) h)
      by (unfold ps_record_status; by rewrite (proj2 (Z.leb_le _ _) Hh)).
    unfold map_policy_set in *. cbn -[ps_record_status ps_advance c']. rewrite Hr, insert_id by done. by destruct c'. }
  destruct Hct as (ty & -> & Htc). unfold fetch_and_cache_simple, rpc_is_authorized, p_rpc, mbind, P_bind, p_write.
  destruct Htc as [-> | ->]; cbn [mret P_ret]; destruct (rpc_isAuthorized rpc id user h); cbn; by rewrite ?Hset.
Qed.

(** ** Start *)

Lemma collect_true T n rpc tokens seeded :
  Truthful T n rpc -> collect_policies (fun token => rpc_transferPolicyId rpc token n) tokens = Some seeded ->
  Forall (fun s => s.2 = t_token T s.1) seeded.
Proof.
  intros HT. revert seeded. induction tokens as [|t tokens IH]; cbn; intros seeded; [intros [= <-]; constructor|].
  destruct (rpc_transferPolicyId rpc t n) as [id|] eqn:E; [|done]. cbn.
  destruct (collect_policies _ tokens) as [l|]; [|done]. intros [= <-]. constructor; [by apply (tr_token _ _ _ HT)|by apply IH].
Qed.

(** The node starts with a cache that is true at the checkpoint's block and
    takes what is fetched at it, whether or not the seeding succeeds. *)
Lemma launch_good T n rpc initial enabled :
  0 < n -> Truthful T n rpc -> Good T n (task_cache (launch_policy_tasks n initial enabled rpc cache_default)).
Proof.
  intros Hn HT. cbn [launch_policy_tasks spawn_policy_resolution_task task_cache].
  assert (H0 : Good T n (set_last_l1_block cache_default n)).
  { split; [|split; cbn; intros k x E; by rewrite lookup_empty in E|cbn; lia].
    split; [split; cbn; intros k x E; by rewrite lookup_empty in E|..]; unfold get_token_policy, cached_type, cached_compound; cbn;
      intros k; rewrite lookup_empty; by intros. }
  revert H0. generalize (set_last_l1_block cache_default n) as c. intros c Hc. unfold resolve_and_seed_tokens.
  destruct (match initial with Some _ => _ | None => _ end) as [tracked|]; [|done].
  unfold seed_token_policies. rewrite (go_last _ _ _ Hc).
  destruct (collect_policies _ tracked) as [seeded|] eqn:E; [|done]. cbn.
  pose proof (collect_true T n rpc tracked seeded HT E) as Hs. clear E. revert c Hc.
  induction Hs as [|[t id] seeded Ht _ IH]; intros c Hc; [done|]. cbn in *. subst id. apply IH.
  by apply (good_set_token T n Hn c t Hc).
Qed.

(** ** Witnesses: a transfer of a token with a compound policy, after start *)

Module PolicyTaskExamples.
Import PolicyProviderExamples.
Definition abi : TransferAbi := mkTransferAbi (fun a => a =? 5) [169; 5; 156; 187] [149; 119; 125; 89] [35; 184; 114; 221] [1; 2; 3; 4]
  head head (fun args => from ← args !! 0%nat; to ← args !! 1%nat; Some (from, to)) (fun _ => None).
Definition tx : PooledTx := mkPooledTx 100 None None [(TxCall 5, [169; 5; 156; 187; 101]); (TxCall 6, [169; 5; 156; 187; 101]); (TxCall 5, [35; 184; 114; 221; 100; 102])].
Definition task : PolicyResolutionTask := launch_policy_tasks 10 (Some [5]) (fun _ => None) ask cache_default.
(** Two resolutions are in flight together, and the later one completes first. *)
Definition turns : list TaskEvent := [Received; Received; Completed 1; Received; Completed 0; Completed 0; Received; Completed 0].

Example tx_asks : tx_requests abi 6 tx =
  [ResolveAuthorization 6 100 Sender; ResolveAuthorization 5 100 Sender; ResolveAuthorization 5 101 Recipient;
   ResolveAuthorization 5 100 Sender; ResolveAuthorization 5 102 Recipient].
Proof. reflexivity. Qed.
Example task_receives : rx (prefetch_transaction abi 6 tx task) =
  [ResolveAuthorization 6 100 Sender; ResolveAuthorization 5 100 Sender; ResolveAuthorization 5 101 Recipient;
   ResolveAuthorization 5 102 Recipient].
Proof. reflexivity. Qed.

Lemma prefetch_warms_witness :
  match task_run ask turns (prefetch_transaction abi 6 tx task) with
  | Some t' => answered_locally (task_cache t') (ResolveAuthorization 5 101 Recipient) 7 true
  | None => False
  end.
Proof.
  assert (Hidle : (fun t => (rx t, in_flight t)) <$> task_run ask turns (prefetch_transaction abi 6 tx task) = Some ([], []))
    by (vm_compute; reflexivity).
  destruct (task_run ask turns (prefetch_transaction abi 6 tx task)) as [t'|] eqn:E; [|done].
  pose proof (launch_good l1 10 ask (Some [5]) (fun _ => None) ltac:(lia) ask_truthful) as [Hagree Hfresh Hlast].
  assert (SL : SelectorLaws abi) by (split; [by repeat constructor|by apply (bool_decide_unpack _)]).
  destruct (prefetch_warms abi 6 l1 10 ask tx task turns t' SL ltac:(lia) ask_truthful l1_is_wf
              ltac:(by repeat split) eq_refl ltac:(cbn; lia) Hagree Hfresh Hlast
              ltac:(intros r Hr; by apply not_elem_of_nil in Hr) ltac:(cbn; lia) E) as [_ [(ev & t'' & Hp)|H]].
  - injection Hidle as H1 H2. unfold task_poll in Hp. rewrite H1, H2 in Hp. destruct ev; by repeat case_match.
  - apply (H (ResolveAuthorization 5 101 Recipient)).
    apply (needs_recipient abi 6 tx 5 [169; 5; 156; 187; 101] 100 101); [by left|reflexivity|].
    by apply (moves_transfer abi 100 [101] 101).
Defined.

(** A whitelist in the cache when the engine advances to block 10. *)
Definition seen : PolicyCacheInner := cache_run [CSetToken 5 9 8; CSetType 8 WHITELIST; CSetStatus 8 101 9 true].
Lemma prefetch_lost_witness :
  resolve_message ask (ResolveAuthorization 5 100 Sender, 10) (advance seen 10) = advance seen 10 /\
  is_authorized (advance seen 10) 5 100 10 Sender = None.
Proof.
  apply (prefetch_lost_after_advance ask seen 10 5 100 Sender 8 (mkPolicy (Some WHITELIST) (ps_record_status ps_default 101 9 true) None));
    [apply cache_run_wf|by vm_compute|reflexivity|reflexivity|reflexivity|by left|reflexivity].
Defined.
End PolicyTaskExamples.
