(* ===== verification/NodeStart.v ===== *)
(** * Starting the node

    node/src/genesis.rs (a genesis anchored to an L1 block), the checks of
    node/src/node.rs on the chain id, and the reads of L1 at its latest known
    height (l1/src/state/provider.rs).  The template is a parameter: it is
    compiled from the contracts.  The patched genesis reads back as the L1
    block it was anchored to and differs from the template in the portal's
    address only; the sequencer read is that of the last change settled. *)

From stdpp Require Import gmap list strings.
From S2P Require Import Prelude.
From S2P Require Import BTree.
From S2P Require Import L1State.
From S2P Require Import DepositQueue.
From S2P Require Import Policy.
From S2P Require Import TempoState.
From S2P Require Import Payload.
From S2P Require Import Subscriber.
From S2P Require Import ZoneEvm.
#[local] Open Scope Z_scope.

(** ** Patching bytes *)

(** The [while] loop; [None] when [fuel] turns are not enough. *)
Fixpoint patch_loop (fuel : nat) (needle replacement buf : list Z) (i count : nat) : option (list Z * nat) :=
  match fuel with
  | O => None
  | S fuel =>
    let len := length needle in
    if (i + len <=? length buf)%nat then
      if bool_decide (take len (drop i buf) = needle) then
        patch_loop fuel needle replacement (take i buf ++ replacement ++ drop (i + len) buf) (i + len) (S count)
      else patch_loop fuel needle replacement buf (S i) count
    else Some (buf, count)
  end.

(** [None] also for the panic on different lengths. *)
Definition patch_bytes (buf needle replacement : list Z) : option (list Z * nat) :=
  if negb (Nat.eqb (length needle) (length replacement)) then None
  else patch_loop (S (length buf)) needle replacement buf 0 0.

(** ** The anchored genesis *)

Record GenesisAccount := mkAccount { ga_code : option (list Z); ga_storage : option (gmap Z Z) }.
Abbreviation Alloc := (gmap Z GenesisAccount).

Definition ZONE_INBOX_PORTAL_IMMUTABLES : nat := 4.
Definition ZONE_CONFIG_PORTAL_IMMUTABLES : nat := 5.

Inductive GenesisError :=
  | TempoStateMissing | ContractMissing (addr : Z) | ImmutableCount (addr : Z) (expected found : nat) | PatchPanicked.

Definition portal_word (portal_address : Z) : list Z := replicate 12 0 ++ be_bytes 20 portal_address.

(** One entry of [contracts_to_patch]. *)
Definition patch_contract (portal_address : Z) (alloc : Alloc) (entry : Z * nat) : result GenesisError Alloc :=
  let '(addr, expected_count) := entry in
  match alloc !! addr with
  | None => Err (ContractMissing addr)
  | Some account =>
    match ga_code account with
    | None => Ok alloc
    | Some code =>
      match patch_bytes code (replicate 32 0) (portal_word portal_address) with
      | None => Err PatchPanicked
      | Some (buf, count) =>
        if negb (Nat.eqb count expected_count) then Err (ImmutableCount addr expected_count count)
        else Ok (<[addr := mkAccount (Some buf) (ga_storage account)]> alloc)
      end
    end
  end.

Fixpoint patch_contracts (portal_address : Z) (alloc : Alloc) (entries : list (Z * nat)) : result GenesisError Alloc :=
  match entries with
  | [] => Ok alloc
  | entry :: entries =>
    match patch_contract portal_address alloc entry with
    | Err e => Err e
    | Ok alloc => patch_contracts portal_address alloc entries
    end
  end.

Section Genesis.
Context (slot_TEMPO_BLOCK_HASH slot_TEMPO_BLOCK_NUMBER : Z).

Definition l1_anchored_genesis (template : Alloc) (number hash : Z) (portal_address : Z) : result GenesisError (Alloc * Z) :=
  match template !! TEMPO_STATE_ADDRESS with
  | None => Err TempoStateMissing
  | Some account =>
    let storage := default ∅ (ga_storage account) in
    let storage := <[slot_TEMPO_BLOCK_NUMBER := number]> (<[slot_TEMPO_BLOCK_HASH := hash]> storage) in
    let alloc := <[TEMPO_STATE_ADDRESS := mkAccount (ga_code account) (Some storage)]> template in
    let patched :=
      if negb (portal_address =? 0) then
        patch_contracts portal_address alloc
          [(ZONE_INBOX_ADDRESS, ZONE_INBOX_PORTAL_IMMUTABLES); (ZONE_CONFIG_ADDRESS, ZONE_CONFIG_PORTAL_IMMUTABLES)]
      else Ok alloc in
    match patched with
    | Err e => Err e
    | Ok alloc => Ok (alloc, number)
    end
  end.
End Genesis.

(** The state a chain has at its genesis. *)
Definition genesis_storage (alloc : Alloc) (address slot : Z) : result string (option Z) :=
  Ok (account ← alloc !! address; storage ← ga_storage account; storage !! slot).

(** ** Chain id *)

(** The check of [launch_private_rpc] and of [launch_sequencer_tasks]. *)
Definition check_chain_id (zone_id chain_id : Z) : result (Z * Z * Z) unit :=
  if negb (zone_id =? 0) then
    let expected := zone_chain_id zone_id in
    if negb (chain_id =? expected) then Err (zone_id, expected, chain_id) else Ok tt
  else Ok tt.

(** ** L1 at its latest known height *)

Section Latest.
Context (rpc : Rpc) (fuel : nat) (get_block_number : option Z).

(** The outer [None] is a read still being retried, the inner one an error. *)
Definition get_latest_storage (c : L1StateCacheInner) (address slot : Z) : option (option Z * L1StateCacheInner) :=
  let anchor_number := nh_number (anchor c) in
  match (if negb (anchor_number =? 0) then Some anchor_number else get_block_number) with
  | None => Some (None, c)
  | Some block_number =>
    match get_storage rpc fuel c address slot block_number with
    | Some (value, c) => Some (Some value, c)
    | None => None
    end
  end.

(** The last twenty bytes of the word. *)
Definition get_latest_sequencer (portal_address : Z) (c : L1StateCacheInner) : option (option Z * L1StateCacheInner) :=
  match get_latest_storage c portal_address PORTAL_SEQUENCER_SLOT with
  | Some (value, c) => Some ((fun v => v mod 2 ^ 160) <$> value, c)
  | None => None
  end.
End Latest.

(** ** Patching bytes: properties *)

(** [out] is [buf] with [count] occurrences of [needle] replaced, from the
    left, none overlapping. *)
Inductive Patched (needle replacement : list Z) : list Z -> list Z -> nat -> Prop :=
  | patched_short buf : (length buf < length needle)%nat -> Patched needle replacement buf buf 0
  | patched_hit buf out count :
      Patched needle replacement buf out count ->
      Patched needle replacement (needle ++ buf) (replacement ++ out) (S count)
  | patched_skip b buf out count :
      (length needle <= length (b :: buf))%nat -> take (length needle) (b :: buf) <> needle ->
      Patched needle replacement buf out count -> Patched needle replacement (b :: buf) (b :: out) count.

Lemma patched_length needle replacement buf out count :
  length needle = length replacement -> Patched needle replacement buf out count -> length out = length buf.
Proof. intros Hl. induction 1; [done| |by cbn; f_equal]. rewrite !length_app. lia. Qed.

Section Patch.
Context (needle replacement : list Z) (Hpos : (0 < length needle)%nat) (Hlen : length needle = length replacement).

Lemma patch_loop_exact fuel pre rest count :
  (length rest < fuel)%nat ->
  exists out k, patch_loop fuel needle replacement (pre ++ rest) (length pre) count = Some (pre ++ out, (count + k)%nat) /\
    Patched needle replacement rest out k.
Proof.
  revert pre rest count. induction fuel as [|fuel IH]; intros pre rest count Hf; [lia|]. cbn [patch_loop].
  rewrite length_app. destruct (Nat.leb_spec (length pre + length needle) (length pre + length rest)) as [Hle|Hlt].
  - rewrite drop_app_length. case_bool_decide as Hm.
    + assert (Hr : rest = needle ++ drop (length needle) rest) by (rewrite <-Hm at 1; by rewrite take_drop).
      assert (Eb : take (length pre) (pre ++ rest) ++ replacement ++ drop (length pre + length needle) (pre ++ rest) =
                   (pre ++ replacement) ++ drop (length needle) rest).
      { rewrite take_app_length, drop_app_add. by rewrite <-app_assoc. }
      rewrite Eb. replace (length pre + length needle)%nat with (length (pre ++ replacement)) by (rewrite length_app; lia).
      destruct (IH (pre ++ replacement) (drop (length needle) rest) (S count)) as (out & k & E & Hp);
        [rewrite length_drop; lia|]. rewrite E. exists (replacement ++ out), (S k). split.
      * do 2 f_equal; [by rewrite <-app_assoc|lia].
      * rewrite Hr. by constructor.
    + destruct rest as [|b rest]; [cbn in Hle; lia|].
      replace (pre ++ b :: rest) with ((pre ++ [b]) ++ rest) by (by rewrite <-app_assoc).
      replace (S (length pre)) with (length (pre ++ [b])) by (rewrite length_app; cbn; lia).
      destruct (IH (pre ++ [b]) rest count) as (out & k & E & Hp); [cbn in Hf; lia|]. rewrite E.
      exists (b :: out), k. split; [by rewrite <-app_assoc|]. apply patched_skip; [cbn in *; lia|done|done].
  - exists rest, 0%nat. split; [do 2 f_equal; lia|]. constructor. lia.
Qed.

(** The patch always ends, and replaces exactly the occurrences a scan from the
    left finds. *)
Lemma patch_bytes_exact buf :
  exists out k, patch_bytes buf needle replacement = Some (out, k) /\ Patched needle replacement buf out k.
Proof.
  unfold patch_bytes. rewrite (proj2 (Nat.eqb_eq _ _) Hlen). apply (patch_loop_exact _ [] buf 0). lia.
Qed.
End Patch.

(** ** The genesis *)

Section Contracts.
Context (portal_address : Z).
Let needle := replicate 32 0.
Let word := portal_word portal_address.

Lemma portal_word_length : length word = 32%nat.
Proof. unfold word, portal_word. by rewrite length_app, length_replicate, be_bytes_length. Qed.

(** What patching one contract does. *)
Definition contract_patched (before after : option GenesisAccount) (count : nat) : Prop :=
  exists account, before = Some account /\
    match ga_code account with
    | None => after = Some account
    | Some code => exists out, Patched needle word code out count /\ after = Some (mkAccount (Some out) (ga_storage account))
    end.

Lemma patch_contract_exact alloc addr count alloc' :
  patch_contract portal_address alloc (addr, count) = Ok alloc' ->
  contract_patched (alloc !! addr) (alloc' !! addr) count /\ forall a, a <> addr -> alloc' !! a = alloc !! a.
Proof.
  unfold patch_contract, contract_patched. destruct (alloc !! addr) as [account|] eqn:E; [|done].
  destruct (ga_code account) as [code|] eqn:Ec; [|intros [= <-]; split; [|done]; exists account; by rewrite Ec].
  destruct (patch_bytes_exact needle word) with (buf := code) as (out & k & Ep & Hp).
  { unfold needle. rewrite length_replicate. lia. }
  { unfold needle. by rewrite length_replicate, portal_word_length. }
  fold needle word. rewrite Ep. destruct (Nat.eqb_spec k count) as [->|]; [|done]. intros [= <-]. split.
  - exists account. rewrite Ec. split; [done|]. exists out. split; [done|]. apply lookup_insert_eq.
  - intros a Ha. by rewrite lookup_insert_ne.
Qed.
End Contracts.

(** An anchored genesis reads back as its anchor: a node started on it takes the
    L1 block as its checkpoint.  The inbox and the configuration contract have
    the portal's address in place of every one of their four and five zero words
    found from the left, and nothing else of the template changed. *)
Theorem genesis_anchored slot_hash slot_number template number hash portal g n :
  slot_hash <> slot_number -> 0 <= number <= U64_MAX ->
  l1_anchored_genesis slot_hash slot_number template number hash portal = Ok (g, n) ->
  n = number /\ tempo_num_hash (genesis_storage g) slot_hash slot_number = Ok (mkNumHash number hash) /\
  (portal <> 0 ->
   contract_patched portal (template !! ZONE_INBOX_ADDRESS) (g !! ZONE_INBOX_ADDRESS) 4 /\
   contract_patched portal (template !! ZONE_CONFIG_ADDRESS) (g !! ZONE_CONFIG_ADDRESS) 5) /\
  (forall a, a <> TEMPO_STATE_ADDRESS -> portal = 0 \/ a <> ZONE_INBOX_ADDRESS /\ a <> ZONE_CONFIG_ADDRESS ->
     g !! a = template !! a) /\
  (forall account, template !! TEMPO_STATE_ADDRESS = Some account ->
     exists storage, g !! TEMPO_STATE_ADDRESS = Some (mkAccount (ga_code account) (Some storage)) /\
       forall s, s <> slot_hash -> s <> slot_number -> storage !! s = default ∅ (ga_storage account) !! s).
Proof.
  intros Hs Hn. unfold l1_anchored_genesis. destruct (template !! TEMPO_STATE_ADDRESS) as [account|] eqn:Et; [|done].
  set (storage := <[slot_number := number]> (<[slot_hash := hash]> (default ∅ (ga_storage account)))).
  set (alloc := <[TEMPO_STATE_ADDRESS := mkAccount (ga_code account) (Some storage)]> template).
  assert (Hstate : forall g, g !! TEMPO_STATE_ADDRESS = alloc !! TEMPO_STATE_ADDRESS ->
    tempo_num_hash (genesis_storage g) slot_hash slot_number = Ok (mkNumHash number hash) /\
    (forall account', Some account = Some account' ->
       exists storage, g !! TEMPO_STATE_ADDRESS = Some (mkAccount (ga_code account') (Some storage)) /\
       forall s, s <> slot_hash -> s <> slot_number -> storage !! s = default ∅ (ga_storage account') !! s)).
  { intros g' Eg. unfold alloc in Eg. rewrite lookup_insert_eq in Eg. split.
    - unfold tempo_num_hash, tempo_block_number, tempo_block_hash, read_storage, genesis_storage, mbind, build_bind.
      rewrite Eg. cbn. unfold storage. rewrite lookup_insert_eq, lookup_insert_ne, lookup_insert_eq by done. cbn.
      by rewrite (proj2 (Z.leb_le _ _) (proj2 Hn)).
    - intros account' [= <-]. exists storage. split; [done|]. intros s H1 H2. unfold storage. by rewrite !lookup_insert_ne. }
  assert (Hother : forall a, a <> TEMPO_STATE_ADDRESS -> alloc !! a = template !! a)
    by (intros a Ha; unfold alloc; by rewrite lookup_insert_ne).
  destruct (Z.eqb_spec portal 0) as [->|Hp]; cbn [negb].
  - intros [= <- <-]. destruct (Hstate alloc eq_refl) as [H1 H2]. split_and!; [done|done|done| |done].
    intros a Ha _. by apply Hother.
  - cbn [patch_contracts]. destruct (patch_contract portal alloc _) as [a1|] eqn:E1; [|done].
    destruct (patch_contract portal a1 _) as [a2|] eqn:E2; [|done]. intros [= <- <-].
    destruct (patch_contract_exact portal alloc _ _ a1 E1) as [P1 O1].
    destruct (patch_contract_exact portal a1 _ _ a2 E2) as [P2 O2].
    rewrite Hother in P1 by done. rewrite O1, Hother in P2 by done.
    destruct (Hstate a2) as [H1 H2]; [by rewrite O2, O1 by done|]. split_and!; [done|done| | |done].
    + intros _. split; [by rewrite O2 by done|done].
    + intros a Ha [->|[H3 H4]]; [done|]. by rewrite O2, O1, Hother by done.
Qed.

(** ** Chain id *)

(** The private RPC and the sequencer start exactly on a genesis whose chain id
    is derived for the zone with the mainnet range, or with no zone id set; a
    chain id of the testnet range is refused for every zone. *)
Theorem chain_id_checked zone_id chain_id :
  (check_chain_id zone_id chain_id = Ok tt <-> zone_id = 0 \/ chain_id = zone_chain_id zone_id) /\
  (zone_id <> 0 -> forall z, check_chain_id zone_id (zone_chain_id_testnet z) =
     Err (zone_id, zone_chain_id zone_id, zone_chain_id_testnet z)).
Proof.
  unfold check_chain_id. split.
  - destruct (Z.eqb_spec zone_id 0), (Z.eqb_spec chain_id (zone_chain_id zone_id)); cbn; split; try done; tauto.
  - intros Hz z. rewrite (proj2 (Z.eqb_neq _ _) Hz). cbn. rewrite (proj2 (Z.eqb_neq _ _)); [done|].
    unfold zone_chain_id, zone_chain_id_testnet, ZONE_CHAIN_ID_BASE, ZONE_CHAIN_ID_BASE_TESTNET, ZONE_CHAIN_ID_RANGE,
      ZONE_CHAIN_ID_RANGE_TESTNET.
    pose proof (Z.mod_pos_bound zone_id 1002610000). pose proof (Z.mod_pos_bound z 723173648). lia.
Qed.

(** ** The sequencer at the latest height *)

Definition sequencer_of (e : L1SequencerEvent) : Z :=
  match e with TransferStarted current _ => current | Transferred _ new => new end.

Lemma apply_event_sequencer portal n c e :
  l1_wf c -> l1_wf (apply_sequencer_event portal n c e) /\
  l1_get (apply_sequencer_event portal n c e) portal PORTAL_SEQUENCER_SLOT n = Some (sequencer_of e).
Proof.
  intros Hc. destruct e; cbn; (split; [by do 2 apply l1_set_wf|]);
    rewrite l1_get_set by (by apply l1_set_wf || by left); by rewrite l1_get_set_eq.
Qed.

Lemma apply_events_sequencer portal n c es e :
  l1_wf c -> let c' := apply_sequencer_events_to_cache c portal n (es ++ [e]) in
  l1_wf c' /\ anchor c' = anchor c /\ l1_get c' portal PORTAL_SEQUENCER_SLOT n = Some (sequencer_of e).
Proof.
  intros Hc c'. unfold c', apply_sequencer_events_to_cache. rewrite foldl_app. cbn.
  assert (H : l1_wf (foldl (apply_sequencer_event portal n) c es) /\ anchor (foldl (apply_sequencer_event portal n) c es) = anchor c).
  { clear c'. revert c Hc. induction es as [|x es IH]; intros c Hc; [done|]. cbn.
    destruct (IH (apply_sequencer_event portal n c x)) as [H1 H2]; [by apply apply_event_sequencer|].
    split; [done|]. rewrite H2. by destruct x. }
  destruct H as [H1 H2]. destruct (apply_event_sequencer portal n _ e H1) as [H3 H4].
  split; [done|]. split; [|done]. rewrite <-H2. by destruct e.
Qed.

(** Once the subscriber has settled a block with changes of the sequencer, the
    latest sequencer is that of the last change, read without a request. *)
Theorem latest_sequencer_settled portal h events policy_events s es e rpc fuel head :
  l1_wf (su_l1_state_cache s) -> h_number h <> 0 ->
  sequencer_events events = es ++ [e] -> 0 <= sequencer_of e < 2 ^ 160 ->
  let c := su_l1_state_cache (settle_block portal h events policy_events s) in
  get_latest_sequencer rpc fuel head portal c = Some (Some (sequencer_of e), c).
Proof.
  intros Hw Hh He Hr c. unfold get_latest_sequencer, get_latest_storage.
  set (s1 := apply_policy_events (h_number h) policy_events (update_l1_state_anchor (h_number h) (h_hash h) (h_parent_hash h) s)).
  assert (H1 : l1_wf (su_l1_state_cache s1) /\ anchor (su_l1_state_cache s1) = mkNumHash (h_number h) (h_hash h)).
  { unfold s1, update_l1_state_anchor. destruct (_ && _); cbn; (split; [|done]); [|done].
    intros k x E. cbn in E. by rewrite lookup_empty in E. }
  assert (Ec : c = apply_sequencer_events_to_cache (su_l1_state_cache s1) portal (h_number h) (es ++ [e])).
  { unfold c, settle_block, apply_portal_state_events. fold s1. rewrite He. by destruct es. }
  destruct H1 as [Hw1 Ha]. destruct (apply_events_sequencer portal (h_number h) _ es e Hw1) as (_ & Ha' & Hg).
  rewrite <-Ec in Ha', Hg. rewrite Ha', Ha. cbn [nh_number]. rewrite (proj2 (Z.eqb_neq _ _) Hh). cbn [negb].
  unfold get_storage. rewrite Hg. cbn. by rewrite Z.mod_small.
Qed.

(** ** Witnesses *)

Module NodeStartExamples.
Definition zeros : list Z := replicate 32 0.
Definition template : Alloc :=
  <[TEMPO_STATE_ADDRESS := mkAccount (Some [239]) None]>
  (<[ZONE_INBOX_ADDRESS := mkAccount (Some (127 :: zeros ++ 127 :: zeros ++ 127 :: zeros ++ 127 :: zeros)) None]>
  (<[ZONE_CONFIG_ADDRESS := mkAccount (Some (127 :: zeros ++ zeros ++ 127 :: zeros ++ 0 :: zeros ++ zeros ++ [1])) None]> ∅)).

Example patch_example : patch_bytes [0; 0; 1; 0; 0; 2; 0; 0] [0; 0] [9; 9] = Some ([9; 9; 1; 9; 9; 2; 9; 9], 3%nat).
Proof. reflexivity. Qed.

Lemma genesis_anchored_witness :
  exists g, l1_anchored_genesis 0 1 template 77 4242 0xdeadbeef = Ok (g, 77) /\
    tempo_num_hash (genesis_storage g) 0 1 = Ok (mkNumHash 77 4242).
Proof.
  destruct (l1_anchored_genesis 0 1 template 77 4242 0xdeadbeef) as [[g n]|] eqn:E; [|by vm_compute in E].
  destruct (genesis_anchored 0 1 template 77 4242 0xdeadbeef g n ltac:(lia) ltac:(by vm_compute) E) as (-> & H & _).
  exists g. split; [done|exact H].
Defined.
End NodeStartExamples.
